(* ===== verification/_CoqProject ===== *)
-Q . S2P
Prelude.v
Sorting.v
Gates.v
Tables.v
Action.v
Config.v
CharState.v
Validator.v
TonePosition.v
English.v
Helpers.v
Engine.v
Modifiers.v
Rules.v
TypingEngine.v
Invariant.v
RulesFrame.v
ComposeFacts.v
ValidatorFacts.v
ToneFacts.v
BufferFacts.v
Session.v
Operations.v
KeyFacts.v
CodeTable.v
QuickConvert.v
Utf16.v
Bytes.v
LexiconWire.v
LexiconWireFacts.v
Seqlock.v
Pipeline.v
MacroPrefix.v
Macro.v
Toml.v
Hotkey.v
AutoCap.v
HookGuards.v
MacroReload.v
Mailbox.v
SmartSwitch.v
CommitState.v
KeyDecisions.v
Injector.v
OutputFacts.v
Dispatcher.v
InputEngine.v
EngineInstance.v
Hook.v
HookUndo.v
HookMacro.v
HookKeys.v
HookFacts.v
HookSafety.v
HookHost.v
Scenarios.v
SharedState.v
SharedStateManager.v
SettingsLock.v
ConvertRoute.v
SettingsSync.v
TextStore.v
Composition.v
Controller.v
Readonly.v
ControllerKeys.v
ControllerFacts.v
KeySink.v
ServiceTyping.v
NativeConvert.v
ServiceScenarios.v
Utf8.v
ConfigSections.v
ConfigFacts.v
ConfigStore.v
