(* ===== verification/Prelude.v ===== *)
(** * VKey: a verification library for a Vietnamese input method

    VKey is a Vietnamese input method for Windows.  A keyboard hook and a text
    service take the keys of the user, a typing engine turns them into Vietnamese,
    and an output layer edits the text of whatever application has the focus.
    Around them are macros, hotkeys, legacy code tables, a shared dictionary, the
    configuration and the messages between threads and processes.  This library
    models them from the C++ of src/src and proves what makes them correct.

    ** The parts and where they are modelled

    The engine (src/src/core/engine):
    - Tables.v, Action.v, Config.v       VietnameseTables.h, TypingAction.h,
                                         config/TypingConfig.h.
    - CharState.v                        TypingEngine.h, Compose, the letters of
                                         SeedFromText.
    - Validator.v                        VietnamesePhonologyData.h,
                                         PhonotacticsValidator.cpp.
    - TonePosition.v, English.v, Helpers.v
                                         Phonotactics.cpp, EnglishProtection.h,
                                         EngineHelpers.h.
    - Engine.v, Modifiers.v, Rules.v, TypingEngine.v
                                         TypingEngine.cpp with rule/ and
                                         pipeline/GateMask.h (Gates.v): the object,
                                         its handlers, the registry of rules, the
                                         public operations.
    - InputEngine.v, EngineInstance.v    IInputEngine.h as a type class with laws,
                                         CommittedTextRestore.h over it, and the
                                         typing engine as an instance.

    The keyboard hook (src/src/app/system, src/src/core/pipeline):
    - Pipeline.v                         Coordinator, gates, features, output
                                         channel.
    - Hook.v                             the members of HookEngine.h, the interfaces
                                         to the output layer and to the system, and
                                         the composition with its replacement.
    - HookUndo.v, HookMacro.v, HookKeys.v
                                         HookEngine.cpp and
                                         HookEngineCommitUndo.cpp: the commit-undo
                                         machine and the restoration of raw keys,
                                         the macros, and the way of a key through
                                         ProcessKeyDown and ProcessKeyUp.
    - CommitState.v, AutoCap.v, KeyDecisions.v, HookGuards.v, Mailbox.v
                                         CommitState.h, the *Decision.h headers,
                                         RestartThrottle.h, Dorion*.h,
                                         HookCommandMailbox.cpp.

    The output layer (src/src/app/output, app/system/OutputDispatcher.cpp):
    - Injector.v                         what it asks of Windows, a class; the
                                         counter of synthetic events; the four
                                         injectors and their factory.
    - Dispatcher.v                       OutputDispatcher.cpp.
    - HookHost.v, Scenarios.v            the dispatcher as the world of the hook, a
                                         concrete application, and the program run
                                         on it.

    The text service (src/src/tsf):
    - TextStore.v                        the document and its ranges, as the host
                                         gives them to an edit session: each call
                                         may fail.
    - Composition.v                      CompositionManager.cpp and the edit
                                         sessions of CompositionEditSession.h and
                                         EscRestoreLastCommitSession.h.
    - Controller.v, MacroReload.v, ControllerKeys.v
                                         EngineController.cpp: configuration,
                                         routing and macros; keys, words, undo.
    - KeySink.v                          KeyEventSink.cpp: the two phases of a key,
                                         focus, timers.
    - NativeConvert.v                    QuickConvertEditSession.h.
    - Readonly.v                         ReadonlyContextProvider.cpp, what the
                                         service tells the hook of the text before
                                         the caret.

    Settings between processes and on disk:
    - SharedState.v, SharedStateManager.v, SettingsLock.v, ConvertRoute.v
                                         ipc/SharedState.h, SharedStateManager.cpp:
                                         the layout of the block, its operations,
                                         and its two protocols as interleaved steps.
    - SettingsSync.v                     the writers of settings in dialogs/ and
                                         HookEngine.cpp, and the hook that takes
                                         them.
    - Toml.v, Utf8.v, ConfigSections.v, ConfigStore.v
                                         config/ConfigManager.cpp: the library's
                                         tables, the bytes of a string, every
                                         section, the file with its cache.

    Macros, hotkeys, formats:
    - Macro.v, MacroPrefix.v, Hotkey.v
                                         MacroCase.cpp, MacroPrefix.h,
                                         MacroContextMatch.h, MacroTableDecision.h,
                                         hotkey/.
    - CodeTable.v, QuickConvert.v        CodeTableConverter.cpp,
                                         QuickConvertLogic.cpp.
    - Utf16.v, Bytes.v, LexiconWire.v, Seqlock.v, SmartSwitch.v
                                         ipc/LexiconWire*.cpp, SmartSwitchState.h.
    Sorting.v and the rest of this file are shared: sorting with a comparison,
    wide strings, lists as buffers, text before a caret.

    ** How the parts meet

    A key enters [ProcessKeyDown] (HookKeys.v).  The guards may pass it on; the
    pipeline (Pipeline.v) runs the commit-undo machine, the macros and the
    restoration of raw keys, of which the hook is the host; the dispatch then
    gives it to the engine through [InputEngine], takes [Peek] and asks the output
    layer, through [OutputDispatcher], to replace the part of the text that
    changed.  [Hook] is one record, the members of the C++ object with the world
    behind the interfaces; a handler is a function from hook to hook, in the order
    of the source's calls.  The dispatcher of Dispatcher.v is an instance of that
    world over a [Desktop], so that what is proved of the hook against the
    interface holds down to the SendInput events.

    In an application with the text service the same engine runs in
    [Controller], behind [InputEngine] again; a callback of KeySink.v asks it in two
    phases, and edit sessions write the document of [TextContext].  Hook and
    services share one block: the windows write settings in it, the services the
    context before the caret and who converts a selection, the hook reads both.

    ** What the theorems show

    - HookFacts.v: in a word the application shows what the engine composes, in
      every code table, whether keys are eaten or pass, as long as no replacement
      is longer than a batch of input; a committed word is reopened in step with
      the screen; a backspace takes a macro back to the shortcut that was typed.
      HookSafety.v: a key that moves the caret ends all replay; what the hook
      remembers is bounded.
    - ControllerFacts.v, KeySink.v: in the text service the composition covers the
      engine's word whatever happens between two callbacks; that no expansion is
      still open under a word is an invariant of the same machine, whose clock does
      not wrap.  ServiceTyping.v: typing a word and a space writes exactly the
      commit; settings that arrive in a word wait for its end; the two undo windows
      write only over what they undo.  NativeConvert.v: the conversion key, pressed
      again and again, goes round the options and leaves the rest of the text
      alone.  Readonly.v: the hook learns what the text before the caret says.
    - SettingsLock.v: settings that are read are the last published, whole, unless
      a writer died in the middle.  ConvertRoute.v: the conversion key goes to a
      process that wants it.  SettingsSync.v: a switch changed in a window reaches
      the hook.
    - ConfigFacts.v: each section is read as it was written, and no save touches
      another.  ConfigStore.v: the file with its cache is a record of settings, is
      old or new after a crash, because the bytes are flushed before the move, and
      is kept when it is not valid.
    - OutputFacts.v: a replacement by keys that is reported done is a whole edit,
      whatever modifiers are held, and these come back wherever the system cuts a
      batch; the user's text comes back to the clipboard.  Dispatcher.v: the counter
      of synthetic events never claims more than are on the way or lost, and a
      replacement by messages is an edit or nothing where the control answers.
    - Invariant.v, RulesFrame.v, Session.v: every state the engine
      can reach is well formed and renders its letters; the raw keys are exactly
      those typed.  ComposeFacts.v, ValidatorFacts.v, ToneFacts.v, BufferFacts.v,
      Operations.v, KeyFacts.v: composition and its inverse, the
      validator against a grammar of syllables, the place of tones, speculation
      that leaves no trace, what each operation does on each path.
    - CodeTable.v, Utf16.v, Bytes.v, LexiconWireFacts.v: encodings and wire
      formats are inverted by their decoders, and a decoder accepts nothing else.
    - Seqlock.v, Mailbox.v, HookGuards.v: protocols between threads and processes
      as steps of interleaved actors: a validated read is a value some writer
      copied whole, a post whose wake-up arrives is drained, a ticket is delivered
      once and to no other process.
    - Pipeline.v: each dispatch of the hook asks its features in order, and none
      after the one that takes the key.
    - Macro.v, MacroPrefix.v, Hotkey.v, AutoCap.v, MacroReload.v, SmartSwitch.v,
      QuickConvert.v: each against the rule it implements.

    Scenarios.v, ServiceScenarios.v and the files of the parts also prove the defects
    that modelling found, as theorems about concrete runs.

    ** Conventions, bounds and fuel

    - A [wchar_t] is a [Z] below 2^16, a string a list of them, an index a [nat]
      and [SIZE_MAX] is [None].  Sizes are those of a 64-bit process; counters and
      ticks that wrap in the source wrap here (mod 2^32 for GetTickCount).
    - A failing operation returns [None], [false] or the error of its enumeration,
      as its C++ does, with the state the source leaves behind.
    - Loops are structural, or scans over [0 .. n-1] ([find_fwd], [find_bwd],
      [last_idx], [exists_upto] below).  The others have fuel that cannot run out:
      [VCVScan] consumes a letter a round; [erase_chunks] and [type_chunks] take
      the length of what they send, of which each round takes at least one;
      [retry_replace] takes [retry_fuel], one more than its counted waits
      ([retry_fuel_enough]).
    - The stack arrays of sixteen letters truncate as in the source; a batch of
      input holds [kMaxBatch] = 256 events, so that 118 backspaces and characters
      ([output_capacity]) always fit with every modifier held and the bait.
    - The configuration of the hook is fixed while one key is handled, the atomics
      of the source being loaded several times; between keys it may change.
    - Processes and threads that share memory are actors of one transition system;
      the barriers of the code make the steps of an actor visible in their order.
    - Reads and writes the source performs out of bounds are undefined in C++;
      here a read gives the default letter and a write nothing.

    Parameters, where the source calls what it does not define: the character
    classes and case maps of the C runtime and of Windows ([Platform],
    [CaseMapper], [SpacePlatform], [PunctPlatform], [Locale]), the keyboard layout
    ([KeyboardLayout]), Windows behind the output layer ([Desktop]) and the rest of
    the process behind the hook ([HookSystem]).  What a theorem needs of them is
    in classes of laws ([Application], [EditControl], [Clipboard], [Host]), which
    HookHost.v satisfies.  For the text service they are the host's document
    ([TextContext], with the laws [PlainHost] of one that keeps plain text, which
    TextStore.v satisfies), the engine factory and what a moment shows ([Moment]:
    clock, keys held, focus); for the configuration the text of a table
    ([TomlText]), the conversion of strings ([Utf8Platform]) and the answers of the
    file system ([Io]).

    ** What is not modelled

    The reaction of the hook to focus changes; the spell exclusions and the
    dictionary transactions with their journal; the block of the browser extension.
    COM registration, the language bar, pipe and process I/O, dialogs, the tray,
    logging and the updater are glue around system calls, and so are the mutex and
    the paths of the configuration.  RustInputEngine calls a binary whose source is
    not in the repository.  toml++, sciter and googletest are vendored.  The
    relocation metadata of the *Proposal classes of rule/ is read by nothing; their
    [tryApply] forwards to the engine and is inlined in [ProcessModifier].
    [composeBuf_] is a cache and [PeekRawView] a view of [PeekRaw].  The atomics of
    the hook are read once per key, so that a configuration published in the middle
    of a key is not seen.  Saves of the configuration by several processes are
    ordered by the mutex of the source; what a load without it can see is a finding
    ([race_keeps_old_table]). *)

From Stdlib Require Export ZArith Lia Ascii.
From Stdlib Require Strings.String.
From stdpp Require Export base list numbers option.

(** ** Wide characters

    A [wchar_t] is a UTF-16 code unit, kept as a [Z].  [L "a"] is the source's
    [L'a'], elaborated to its numeral so that [lia] and [cbn] see a constant. *)

Abbreviation wchar := Z (only parsing).
Abbreviation wstring := (list Z) (only parsing).

Definition wchar_of_ascii (a : ascii) : Z := Z.of_N (N_of_ascii a).

Declare Scope vkey_scope.
Delimit Scope vkey_scope with vkey.
Open Scope vkey_scope.

Notation "'L' c" :=
  (ltac:(let v := eval vm_compute in (wchar_of_ascii c%char) in exact v))
  (at level 10, c at level 9, only parsing) : vkey_scope.

(** A wide string literal of ASCII characters. *)
Definition wstr (s : Stdlib.Strings.String.string) : list Z :=
  map wchar_of_ascii (Stdlib.Strings.String.list_ascii_of_string s).

(** Boolean equality: [=w] on characters, [==] on enums, indices and options. *)
Notation "a =w b" := (Z.eqb a%Z b%Z) (at level 70, no associativity) : vkey_scope.
Notation "a <>w b" := (negb (Z.eqb a%Z b%Z)) (at level 70, no associativity) : vkey_scope.
Notation "a == b" := (bool_decide (a = b)) (at level 70, no associativity) : vkey_scope.
Notation "a != b" := (negb (bool_decide (a = b))) (at level 70, no associativity) : vkey_scope.

(** ** The C library's wide-character functions

    Nothing in the program calls [setlocale] on Windows, so [towlower] and
    [towupper] run in the "C" locale and map the ASCII letters only.  What
    [iswupper] answers beyond ASCII depends on the C runtime (UCRT asks the
    system, POSIX answers false): it is the one platform parameter. *)

Definition towlower (c : wchar) : wchar :=
  if ((65 <=? c) && (c <=? 90))%Z then (c + 32)%Z else c.
Definition towupper (c : wchar) : wchar :=
  if ((97 <=? c) && (c <=? 122))%Z then (c - 32)%Z else c.

Class Platform := { iswupper_wide : wchar -> bool }.

Definition iswupper `{Platform} (c : wchar) : bool :=
  if (c <? 128)%Z then ((65 <=? c) && (c <=? 90))%Z else iswupper_wide c.

(** The POSIX "C" locale: no capital outside ASCII. *)
Definition posix_c_locale : Platform := {| iswupper_wide := fun _ => false |}.

Lemma towlower_idemp c : towlower (towlower c) = towlower c.
Proof. unfold towlower. repeat case_match; lia. Qed.

Lemma towlower_nonzero c : c <> 0%Z -> towlower c <> 0%Z.
Proof. unfold towlower. repeat case_match; lia. Qed.

Lemma towupper_nonzero c : c <> 0%Z -> towupper c <> 0%Z.
Proof. unfold towupper. repeat case_match; lia. Qed.

Lemma towlower_not_upper c : (65 <= towlower c <= 90)%Z -> False.
Proof. unfold towlower. repeat case_match; lia. Qed.

(** ** Index scans

    The engine's loops over [states_[i]] look for an index.  [find_fwd p n] is
    [for (i = 0; i < n; ++i) if (p(i)) return i], [find_bwd p n] is
    [for (i = n; i-- > 0;) if (p(i)) return i], [last_idx p n] is what a loop
    that overwrites a variable at every match leaves in it, and [SIZE_MAX], the
    "not found" of the source, is [None]. *)

Section Scans.
Variable p : nat -> bool.

Fixpoint find_from (i fuel : nat) : option nat :=
  match fuel with
  | O => None
  | S k => if p i then Some i else find_from (S i) k
  end.

Definition find_fwd (n : nat) : option nat := find_from 0 n.

Fixpoint find_bwd (n : nat) : option nat :=
  match n with
  | O => None
  | S k => if p k then Some k else find_bwd k
  end.

Definition last_idx (n : nat) : option nat :=
  fold_left (fun acc i => if p i then Some i else acc) (seq 0 n) None.

Definition exists_upto (n : nat) : bool := existsb p (seq 0 n).

Lemma find_from_Some i k j :
  find_from i k = Some j <->
  i <= j < i + k /\ p j = true /\ forall m, i <= m < j -> p m = false.
Proof.
  revert i; induction k as [|k IH]; intros i; simpl.
  - split; [done|lia].
  - destruct (p i) eqn:E; [split|rewrite IH; split].
    + intros [= <-]. repeat split; [lia|lia|done|lia].
    + intros (? & ? & H). destruct (decide (i = j)) as [->|]; [done|].
      rewrite H in E by lia. done.
    + intros (? & ? & H). repeat split; [lia|lia|done|].
      intros m ?. destruct (decide (m = i)) as [->|]; [done|apply H; lia].
    + intros (? & Hp & H). destruct (decide (i = j)) as [->|]; [congruence|].
      repeat split; [lia|lia|done|]. intros; apply H; lia.
Qed.

Lemma find_from_None i k :
  find_from i k = None <-> forall m, i <= m < i + k -> p m = false.
Proof.
  revert i; induction k as [|k IH]; intros i; simpl; [split; [lia|done]|].
  destruct (p i) eqn:E; [split; [done|]|rewrite IH; split].
  - intros H. rewrite H in E by lia. done.
  - intros H m ?. destruct (decide (m = i)) as [->|]; [done|apply H; lia].
  - intros H m ?. apply H; lia.
Qed.

Lemma find_fwd_Some n i :
  find_fwd n = Some i <->
  i < n /\ p i = true /\ forall m, m < i -> p m = false.
Proof.
  unfold find_fwd. rewrite find_from_Some. split.
  - intros (? & ? & H). repeat split; [lia|done|]. intros; apply H; lia.
  - intros (? & ? & H). repeat split; [lia|lia|done|]. intros; apply H; lia.
Qed.

Lemma find_fwd_None n : find_fwd n = None <-> forall m, m < n -> p m = false.
Proof.
  unfold find_fwd. rewrite find_from_None. split; intros H m ?; apply H; lia.
Qed.

Lemma find_bwd_Some n i :
  find_bwd n = Some i <->
  i < n /\ p i = true /\ forall m, i < m < n -> p m = false.
Proof.
  induction n as [|n IH]; simpl; [split; [done|lia]|].
  destruct (p n) eqn:E; [split|rewrite IH; split].
  - intros [= <-]. repeat split; [lia|done|lia].
  - intros (? & ? & H). destruct (decide (i = n)) as [->|]; [done|].
    rewrite H in E by lia. done.
  - intros (? & ? & H). repeat split; [lia|done|].
    intros m ?. destruct (decide (m = n)) as [->|]; [done|apply H; lia].
  - intros (? & Hp & H). destruct (decide (i = n)) as [->|]; [congruence|].
    repeat split; [lia|done|]. intros; apply H; lia.
Qed.

Lemma find_bwd_None n : find_bwd n = None <-> forall m, m < n -> p m = false.
Proof.
  induction n as [|n IH]; simpl; [split; [lia|done]|].
  destruct (p n) eqn:E; [split; [done|]|rewrite IH; split].
  - intros H. rewrite H in E by lia. done.
  - intros H m ?. destruct (decide (m = n)) as [->|]; [done|apply H; lia].
  - intros H m ?. apply H; lia.
Qed.

Lemma last_idx_find_bwd n : last_idx n = find_bwd n.
Proof.
  unfold last_idx. induction n as [|n IH]; [done|].
  rewrite seq_S, fold_left_app, IH. simpl. by destruct (p n).
Qed.

Lemma exists_upto_true n :
  exists_upto n = true <-> exists i, i < n /\ p i = true.
Proof.
  unfold exists_upto. rewrite existsb_exists. split.
  - intros (i & Hi%in_seq & ?). exists i. split; [lia|done].
  - intros (i & ? & ?). exists i. split; [apply in_seq; lia|done].
Qed.

Lemma exists_upto_false n :
  exists_upto n = false <-> forall i, i < n -> p i = false.
Proof.
  rewrite <- not_true_iff_false, exists_upto_true. split.
  - intros H i ?. apply not_true_iff_false. eauto.
  - intros H (i & ? & Hp). rewrite H in Hp by done. done.
Qed.
End Scans.

Lemma find_fwd_lt p n i : find_fwd p n = Some i -> i < n.
Proof. rewrite find_fwd_Some. tauto. Qed.
Lemma find_bwd_lt p n i : find_bwd p n = Some i -> i < n.
Proof. rewrite find_bwd_Some. tauto. Qed.
Lemma find_fwd_true p n i : find_fwd p n = Some i -> p i = true.
Proof. rewrite find_fwd_Some. tauto. Qed.
Lemma find_bwd_true p n i : find_bwd p n = Some i -> p i = true.
Proof. rewrite find_bwd_Some. tauto. Qed.

Lemma find_bwd_ext p q n :
  (forall i, i < n -> p i = q i) -> find_bwd p n = find_bwd q n.
Proof.
  induction n as [|n IH]; intros H; simpl; [done|].
  rewrite H by lia. rewrite IH; [done|]. intros; apply H; lia.
Qed.
Lemma find_from_ext p q i k :
  (forall m, i <= m < i + k -> p m = q m) -> find_from p i k = find_from q i k.
Proof.
  revert i; induction k as [|k IH]; intros i H; simpl; [done|].
  rewrite H by lia. rewrite IH; [done|]. intros; apply H; lia.
Qed.
Lemma find_fwd_ext p q n :
  (forall i, i < n -> p i = q i) -> find_fwd p n = find_fwd q n.
Proof. intros H. apply find_from_ext. intros; apply H; lia. Qed.

Create HintDb vkey.
#[export] Hint Resolve find_fwd_lt find_bwd_lt find_fwd_true find_bwd_true : vkey.

(** A check of the code units from [lo] up to [hi], evaluated. *)
Lemma forall_units (p : wchar -> bool) (lo hi : Z) :
  forallb (fun i => p (lo + Z.of_nat i)%Z) (seq 0 (Z.to_nat (hi - lo))) = true ->
  forall c, (lo <= c < hi)%Z -> p c = true.
Proof.
  rewrite forallb_forall. intros H c Hc. specialize (H (Z.to_nat (c - lo))).
  rewrite Z2Nat.id, Zplus_minus in H by lia. apply H, in_seq. lia.
Qed.

(** A boolean check over a list, used at one element or at all. *)
Lemma forallb_elem {A} (p : A -> bool) l a : forallb p l = true -> a ∈ l -> p a = true.
Proof. rewrite forallb_forall. intros H Ha. by apply H, list_elem_of_In. Qed.

Lemma forallb_Forall_true {A} (p : A -> bool) l :
  forallb p l = true -> Forall (fun x => p x = true) l.
Proof.
  induction l as [|x l IH]; simpl; [constructor|].
  intros [Hx Hl]%andb_true_iff. constructor; auto.
Qed.

Lemma existsb_ext {A} (p q : A -> bool) l : (forall x, p x = q x) -> existsb p l = existsb q l.
Proof. intros H. induction l as [|x l IH]; simpl; [done|]. by rewrite H, IH. Qed.

Lemma existsb_orb {A} (p q : A -> bool) l :
  existsb (fun x => p x || q x) l = existsb p l || existsb q l.
Proof.
  induction l as [|x l IH]; simpl; [done|]. rewrite IH.
  by destruct (p x), (q x), (existsb p l).
Qed.

(** ** Lists updated in place: [v[i].field = x] is [alter (set_field x) i v] *)

Section ListUpdates.
Context {A : Type}.
Implicit Types (l : list A) (f : A -> A).

Lemma lookup_total_lt `{!Inhabited A} l i :
  i < length l -> l !! i = Some (l !!! i).
Proof. apply list_lookup_lookup_total_lt. Qed.

Lemma Forall_alter_keep (P : A -> Prop) f l i :
  Forall P l -> (forall x, l !! i = Some x -> P x -> P (f x)) ->
  Forall P (alter f i l).
Proof.
  intros Hl Hf. apply Forall_lookup. intros j x Hx.
  destruct (decide (i = j)) as [->|Hne].
  - rewrite list_lookup_alter_eq in Hx. destruct (l !! j) as [y|] eqn:E; [|done].
    simpl in Hx. injection Hx as <-. apply Hf; [done|].
    eapply Forall_lookup_1; eauto.
  - rewrite list_lookup_alter_ne in Hx by done. eapply Forall_lookup_1; eauto.
Qed.

Lemma map_alter_same {B} (g : A -> B) f l i :
  (forall x, g (f x) = g x) -> map g (alter f i l) = map g l.
Proof.
  intros H. revert i. induction l as [|x l IH]; intros [|i]; csimpl; try done.
  - by rewrite H.
  - by rewrite IH.
Qed.
End ListUpdates.

(** ** Text before a caret *)

(** [n] characters erased before the caret, then [text] typed. *)
Definition edit (n : nat) (text s : list Z) : list Z := take (length s - n) s ++ text.

Lemma edit_tail n text before word :
  n = length word -> edit n text (before ++ word) = before ++ text.
Proof.
  intros ->. unfold edit. rewrite length_app, Nat.add_sub. by rewrite take_app_length.
Qed.

Lemma edit_part n text before kept gone :
  n = length gone -> edit n text (before ++ kept ++ gone) = before ++ kept ++ text.
Proof. intros ->. by rewrite !app_assoc, edit_tail. Qed.

Lemma edit_erase n s : edit n [] s = take (length s - n) s.
Proof. apply app_nil_r. Qed.
Lemma edit_type t s : edit 0 t s = s ++ t.
Proof. unfold edit. by rewrite Nat.sub_0_r, take_ge. Qed.

(** Erasing in two steps. *)
Lemma edit_edit a b t s : edit b t (edit a [] s) = edit (a + b) t s.
Proof.
  rewrite edit_erase. unfold edit. rewrite length_take, take_take. f_equal. f_equal. lia.
Qed.
Lemma edit_app n t u s : edit n (t ++ u) s = edit n t s ++ u.
Proof. unfold edit. by rewrite app_assoc. Qed.

(** ** Tactics *)

(** Read a boolean hypothesis as the proposition it decides. *)
Ltac bool_hyps :=
  repeat match goal with
  | H : _ && _ = true |- _ => apply andb_true_iff in H as [? ?]
  | H : _ || _ = false |- _ => apply orb_false_iff in H as [? ?]
  | H : negb _ = true |- _ => apply negb_true_iff in H
  | H : negb _ = false |- _ => apply negb_false_iff in H
  | H : bool_decide _ = true |- _ => apply bool_decide_eq_true_1 in H
  | H : bool_decide _ = false |- _ => apply bool_decide_eq_false_1 in H
  | H : (_ =? _)%Z = true |- _ => apply Z.eqb_eq in H
  | H : (_ =? _)%Z = false |- _ => apply Z.eqb_neq in H
  | H : (_ <=? _)%Z = true |- _ => apply Z.leb_le in H
  | H : (_ <=? _)%Z = false |- _ => apply Z.leb_gt in H
  | H : (_ <? _)%Z = true |- _ => apply Z.ltb_lt in H
  | H : (_ <? _)%Z = false |- _ => apply Z.ltb_ge in H
  end.

(** Split on the tests of the goal, whatever they compute. *)
Ltac split_ifs :=
  repeat match goal with |- context [if ?b then _ else _] => destruct b end.

(** Split the matches of the goal one after the other. *)
Ltac split_matches := repeat (case_match; simplify_eq/=; try done).
