(* ===== verification/Sorting.v ===== *)
(** * Sorting with a comparison function

    [std::stable_sort] and [std::sort] as the program calls them: the result is
    a permutation, ordered, keeps the order of equals, and is the only one when
    the order is antisymmetric. *)

From stdpp Require Import sorting.
From S2P Require Import Prelude.
Open Scope Z_scope.

(** [std::stable_sort] by [lt]: an element goes before the first one that is not
    smaller, so equal elements keep their order. *)
Section StableSort.
Context {A : Type} (lt : A -> A -> bool).

Fixpoint insert_sorted (x : A) (l : list A) : list A :=
  match l with
  | [] => [x]
  | y :: rest => if lt y x then y :: insert_sorted x rest else x :: l
  end.
Definition stable_sort (l : list A) : list A := foldr insert_sorted [] l.

(** "Not after": the order the sorted list respects. *)
Definition not_after (a b : A) : Prop := lt b a = false.

Lemma insert_sorted_perm x l : insert_sorted x l ≡ₚ x :: l.
Proof.
  induction l as [|y l IH]; simpl; [done|]. case_match; [|done].
  rewrite IH. apply Permutation_swap.
Qed.

Lemma sort_perm l : stable_sort l ≡ₚ l.
Proof. induction l as [|x l IH]; simpl; [done|]. by rewrite insert_sorted_perm, IH. Qed.

(** The comparison must be a strict weak order on the elements of interest. *)
Context (P : A -> Prop).
Context (lt_asym : forall a b, P a -> P b -> lt a b = true -> lt b a = false).
Context (na_trans : forall a b c, P a -> P b -> P c ->
  not_after a b -> not_after b c -> not_after a c).

Lemma insert_sorted_ordered x l :
  P x -> Forall P l ->
  StronglySorted not_after l -> StronglySorted not_after (insert_sorted x l).
Proof.
  intros Hx HP Hl. induction Hl as [|y l Hl IH Hy]; simpl; [repeat constructor|].
  inversion HP as [|? ? Py Pl]; subst. destruct (lt y x) eqn:E.
  - constructor; [by apply IH|]. rewrite insert_sorted_perm.
    constructor; [by apply lt_asym|done].
  - constructor; [by constructor|]. constructor; [done|].
    rewrite Forall_forall in Hy, Pl |- *. intros z Hz. eapply na_trans; eauto.
Qed.

Lemma sort_ordered l : Forall P l -> StronglySorted not_after (stable_sort l).
Proof.
  induction 1; simpl; [constructor|]. apply insert_sorted_ordered; [done| |done].
  by rewrite sort_perm.
Qed.

(** Elements of one class of equals keep their order. *)
Lemma insert_sorted_class (c : A -> bool) x l :
  (forall a b, c a = true -> c b = true -> lt a b = false) ->
  List.filter c (insert_sorted x l) = List.filter c (x :: l).
Proof.
  intros Hc. induction l as [|y l IH]; [done|]. simpl. destruct (lt y x) eqn:E; [|done].
  simpl in *. rewrite IH. destruct (c x) eqn:Cx, (c y) eqn:Cy; try done.
  by rewrite (Hc y x) in E.
Qed.

Lemma sort_class (c : A -> bool) l :
  (forall a b, c a = true -> c b = true -> lt a b = false) ->
  List.filter c (stable_sort l) = List.filter c l.
Proof.
  intros Hc. induction l as [|x l IH]; [done|]. simpl.
  rewrite insert_sorted_class by done. simpl. by rewrite IH.
Qed.

(** Any sorting algorithm gives this result when equals are equal. *)
Lemma sort_unique l l' :
  (forall a b, P a -> P b -> not_after a b -> not_after b a -> a = b) ->
  Forall P l -> l' ≡ₚ l -> StronglySorted not_after l' -> l' = stable_sort l.
Proof.
  intros Ha Hl Hp Hs. apply (StronglySorted_unique_strong not_after).
  - rewrite Forall_forall in Hl. intros a b H1 H2 H3 H4. rewrite Hp in H1.
    rewrite (sort_perm l) in H2. rewrite list_elem_of_In in H1, H2. auto.
  - done.
  - by apply sort_ordered.
  - by rewrite sort_perm.
Qed.

End StableSort.

Lemma StronglySorted_weaken {A} (R R' : A -> A -> Prop) l :
  (forall a b, R a b -> R' a b) -> StronglySorted R l -> StronglySorted R' l.
Proof.
  intros H. induction 1 as [|x l _ IH Hx]; constructor; [done|].
  by eapply List.Forall_impl; [|exact Hx]; simpl; auto.
Qed.

(** Two positions of a sorted list. *)
Lemma StronglySorted_lookup {A} (R : A -> A -> Prop) l (i j : nat) a b :
  StronglySorted R l -> l !! i = Some a -> l !! j = Some b -> (i < j)%nat -> R a b.
Proof.
  intros Hs. revert i j. induction Hs as [|x l _ IH Hx]; intros i j Hi Hj Hlt; [done|].
  destruct j as [|j]; [lia|]. cbn in Hj. destruct i as [|i].
  - injection Hi as ->. rewrite Forall_forall in Hx. apply Hx, list_elem_of_In.
    by eapply list_elem_of_lookup_2.
  - apply (IH i j); try done. lia.
Qed.

(** ** Sorting by an integer key *)

Section ByKey.
Context {A : Type} (key : A -> Z).

Definition by_key (a b : A) : bool := key a <? key b.
Definition key_le (a b : A) : Prop := key a <= key b.

Lemma stable_sort_perm l : stable_sort by_key l ≡ₚ l.
Proof. apply sort_perm. Qed.

Lemma not_after_key a b : not_after by_key a b <-> key_le a b.
Proof. unfold not_after, by_key, key_le. lia. Qed.

Lemma StronglySorted_key l : StronglySorted (not_after by_key) l <-> StronglySorted key_le l.
Proof.
  split; (induction 1 as [|x l ? IH Hx]; constructor; [done|]); revert Hx;
    apply Forall_impl; intros y; apply not_after_key.
Qed.

Lemma stable_sort_sorted l : StronglySorted key_le (stable_sort by_key l).
Proof.
  apply StronglySorted_key, (sort_ordered by_key (fun _ => True)).
  - unfold by_key. lia.
  - intros a b c _ _ _. unfold not_after, by_key. lia.
  - by apply Forall_true.
Qed.

Lemma stable_sort_stable l k :
  List.filter (fun a => key a =w k) (stable_sort by_key l) = List.filter (fun a => key a =w k) l.
Proof. apply sort_class. intros a b. unfold by_key. lia. Qed.

End ByKey.

(** ** Registries: an element is appended to its bucket, which is sorted again *)

Section Registry.
Context {A : Type} (key : A -> Z).

Definition register (bucket : list A) (x : A) : list A := stable_sort (by_key key) (bucket ++ [x]).

Lemma register_perm bucket x : register bucket x ≡ₚ x :: bucket.
Proof. unfold register. rewrite stable_sort_perm. symmetry. apply Permutation_cons_append. Qed.

Lemma register_all_perm_gen xs : forall bucket,
  foldl register bucket xs ≡ₚ bucket ++ xs.
Proof.
  induction xs as [|x xs IH]; intros bucket; simpl; [by rewrite app_nil_r|].
  rewrite IH, register_perm. by rewrite <- Permutation_middle.
Qed.

Lemma register_all_sorted_gen xs : forall bucket,
  StronglySorted (key_le key) bucket -> StronglySorted (key_le key) (foldl register bucket xs).
Proof.
  induction xs as [|x xs IH]; intros bucket H; simpl; [done|]. apply IH, stable_sort_sorted.
Qed.

(** With distinct keys the order of registration does not matter. *)
Lemma register_any_order xs ys :
  xs ≡ₚ ys -> (forall a b, a ∈ xs -> b ∈ xs -> key a = key b -> a = b) ->
  foldl register [] xs = foldl register [] ys.
Proof.
  intros Hp Hd. apply (StronglySorted_unique_strong (key_le key)).
  - intros a b Ha Hb H1 H2. rewrite register_all_perm_gen in Ha, Hb. simpl in *.
    rewrite <- Hp in Hb. apply Hd; try done. unfold key_le in *. lia.
  - apply register_all_sorted_gen. constructor.
  - apply register_all_sorted_gen. constructor.
  - by rewrite !register_all_perm_gen.
Qed.

End Registry.

(** ** Searching a sorted array

    [std::lower_bound] halves the range [first, first + len) until it is empty;
    the comparison partitions the array.  The length of the range is fuel
    enough: it shrinks at every turn. *)
Section Search.
Context {A : Type}.

Fixpoint lower_bound_loop (before : A -> bool) (l : list A) (first len fuel : nat) : nat :=
  match fuel, len with
  | O, _ | _, O => first
  | S fuel, _ =>
      let half := (len / 2)%nat in
      match l !! (first + half)%nat with
      | Some x =>
          if before x then lower_bound_loop before l (S (first + half)) (len - half - 1) fuel
          else lower_bound_loop before l first half fuel
      | None => first
      end
  end.
Definition lower_bound (before : A -> bool) (l : list A) : nat :=
  lower_bound_loop before l 0 (length l) (length l).

(** [std::binary_search] asks whether the element found is not above the value. *)
Definition binary_search (lt : A -> A -> bool) (value : A) (l : list A) : bool :=
  match l !! lower_bound (fun x => lt x value) l with
  | Some x => negb (lt value x)
  | None => false
  end.

(** [l] is partitioned: once the test fails it fails for good. *)
Definition partitioned (before : A -> bool) (l : list A) : Prop :=
  StronglySorted (fun a b => before b = true -> before a = true) l.

Lemma lower_bound_loop_spec before l first len fuel :
  partitioned before l -> (len <= fuel)%nat -> (first + len <= length l)%nat ->
  (forall i x, (i < first)%nat -> l !! i = Some x -> before x = true) ->
  (forall i x, (first + len <= i)%nat -> l !! i = Some x -> before x = false) ->
  let k := lower_bound_loop before l first len fuel in
  (k <= length l)%nat /\
  (forall i x, (i < k)%nat -> l !! i = Some x -> before x = true) /\
  (forall i x, (k <= i)%nat -> l !! i = Some x -> before x = false).
Proof.
  intros Hp. revert first len. induction fuel as [|fuel IH]; intros first len Hf Hl Hb Ha.
  { replace len with 0%nat in * by lia. rewrite Nat.add_0_r in *. done. }
  destruct len as [|n]; [rewrite Nat.add_0_r in *; done|].
  cbn [lower_bound_loop]. set (half := (S n / 2)%nat).
  assert (Hh : (half < S n)%nat) by (apply Nat.div_lt; lia).
  destruct (lookup_lt_is_Some_2 l (first + half) ltac:(lia)) as [x E]. rewrite E.
  assert (Hmono : forall i j a b, (i < j)%nat -> l !! i = Some a -> l !! j = Some b ->
    before b = true -> before a = true)
    by (intros i j a b ? Hi Hj; by apply (StronglySorted_lookup _ l i j a b Hp)).
  destruct (before x) eqn:Ex; apply IH; try lia.
  - intros i y Hi Ey. destruct (decide (i = first + half)%nat) as [->|]; [congruence|].
    apply (Hmono i (first + half)%nat y x); [lia|done..].
  - intros i y Hi. apply Ha. lia.
  - done.
  - intros i y Hi Ey. destruct (decide (i = first + half)%nat) as [->|]; [congruence|].
    apply not_true_iff_false. intros Hy.
    rewrite (Hmono (first + half)%nat i x y ltac:(lia) E Ey Hy) in Ex. done.
Qed.

Lemma lower_bound_spec before l :
  partitioned before l ->
  let k := lower_bound before l in
  (k <= length l)%nat /\
  (forall i x, (i < k)%nat -> l !! i = Some x -> before x = true) /\
  (forall i x, (k <= i)%nat -> l !! i = Some x -> before x = false).
Proof.
  intros Hp. apply lower_bound_loop_spec; [done|lia|lia|lia|].
  intros i x Hi E%lookup_lt_Some. lia.
Qed.

(** What precedes the bound passes the test, what follows fails it. *)
Lemma lower_bound_split before l :
  partitioned before l ->
  exists l1 l2, l = l1 ++ l2 /\ lower_bound before l = length l1 /\
    Forall (fun x => before x = true) l1 /\ Forall (fun x => before x = false) l2.
Proof.
  intros Hp. destruct (lower_bound_spec before l Hp) as (Hk & H1 & H2).
  set (k := lower_bound before l) in *.
  exists (take k l), (drop k l). rewrite take_drop, length_take_le by done.
  split_and!; [done|done|..]; apply Forall_lookup; intros i x.
  - intros E. apply lookup_take_Some in E as [E Hi]. eauto.
  - rewrite lookup_drop. apply H2. lia.
Qed.

End Search.

(** [std::binary_search] on increasing numbers is membership. *)
Lemma binary_search_elem (v : Z) l :
  StronglySorted Z.le l -> binary_search Z.ltb v l = true <-> v ∈ l.
Proof.
  intros Hs. unfold binary_search.
  assert (Hp : partitioned (fun x => x <? v) l).
  { eapply StronglySorted_weaken; [|exact Hs]. intros a b Hab. rewrite !Z.ltb_lt. lia. }
  destruct (lower_bound_split _ l Hp) as (l1 & l2 & E & -> & H1 & H2).
  rewrite Forall_forall in H1, H2. rewrite E, lookup_app_r, Nat.sub_diag by lia.
  rewrite elem_of_app. destruct l2 as [|y l2]; simpl.
  - rewrite elem_of_nil. split; [done|]. intros [Hv%list_elem_of_In|[]].
    specialize (H1 v Hv). simpl in H1. lia.
  - assert (Hy : (y <? v) = false) by (apply H2; by left).
    rewrite negb_true_iff, elem_of_cons. split.
    + intros Hv. right; left. lia.
    + intros [Hv%list_elem_of_In|[->|Hv]]; [specialize (H1 v Hv); simpl in H1; lia|lia|].
      assert (y <= v); [|lia].
      rewrite E in Hs. apply list_elem_of_lookup_1 in Hv as [i Hi].
      apply (StronglySorted_lookup Z.le (l1 ++ y :: l2) (length l1) (S (length l1 + i)) y v Hs).
      * rewrite lookup_app_r, Nat.sub_diag by lia. done.
      * rewrite lookup_app_r by lia. by replace (S (length l1 + i) - length l1)%nat with (S i) by lia.
      * lia.
Qed.
