(* ===== verification/Gates.v ===== *)
(** * Gate masks (src/src/core/pipeline/GateMask.h)

    The bit mask by which the engine's rules and the pipeline's features name
    the conditions that block them. *)

From S2P Require Import Prelude.
Open Scope Z_scope.

Inductive GateId := GateEnglishBias | GateSpellCheck | GateToneEscape.
Definition GateOrd (g : GateId) : Z :=
  match g with GateEnglishBias => 0 | GateSpellCheck => 1 | GateToneEscape => 2 end.
Definition GateMaskFor (g : GateId) : Z := Z.shiftl 1 (GateOrd g).
Definition GateMaskHas (mask : Z) (g : GateId) : bool := Z.land mask (GateMaskFor g) <>w 0.

(** The mask of a set of gates, and membership in it. *)
Definition mask_of (gates : list GateId) : Z :=
  foldr (fun g m => Z.lor (GateMaskFor g) m) 0 gates.

#[export] Instance GateId_eq_dec : EqDecision GateId.
Proof. solve_decision. Defined.

Lemma GateMaskHas_lor m1 m2 g :
  GateMaskHas (Z.lor m1 m2) g = GateMaskHas m1 g || GateMaskHas m2 g.
Proof.
  unfold GateMaskHas. rewrite Z.land_lor_distr_l.
  destruct (Z.eqb_spec (Z.land m1 (GateMaskFor g)) 0) as [->|H1];
    destruct (Z.eqb_spec (Z.land m2 (GateMaskFor g)) 0) as [E2|H2]; simpl.
  - by rewrite E2.
  - by apply negb_true_iff, Z.eqb_neq.
  - rewrite E2, Z.lor_0_r. by apply negb_true_iff, Z.eqb_neq.
  - apply negb_true_iff, Z.eqb_neq. intros E. apply Z.lor_eq_0_iff in E as [E _]. done.
Qed.

Lemma GateMaskHas_for g h : GateMaskHas (GateMaskFor g) h = (g == h).
Proof. by destruct g, h. Qed.

Lemma GateMaskHas_mask gates g : GateMaskHas (mask_of gates) g = true <-> g ∈ gates.
Proof.
  induction gates as [|h gates IH]; simpl.
  - rewrite elem_of_nil. by destruct g.
  - rewrite GateMaskHas_lor, GateMaskHas_for, orb_true_iff, IH, elem_of_cons.
    rewrite bool_decide_eq_true. intuition congruence.
Qed.
