(* ===== verification/Tables.v ===== *)
(** * Vietnamese lookup tables (src/src/core/engine/VietnameseTables.h)

    The constexpr composition tables, case conversion, the decomposition of a
    rendered letter, and the diphthong tables of tone placement.  A function
    that writes through reference parameters returns a record. *)

From S2P Require Import Prelude.
Open Scope Z_scope.

(** ** Modified vowels: rows a e o u, columns circumflex breve horn, 0 = none *)

Definition kModifiedVowel : list (list wchar) :=
  [[0xE2; 0x103; 0];
   [0xEA; 0; 0];
   [0xF4; 0; 0x1A1];
   [0; 0; 0x1B0]].

Definition VowelBaseIndex (base : wchar) : option nat :=
  if base =w L "a" then Some 0%nat
  else if base =w L "e" then Some 1%nat
  else if base =w L "o" then Some 2%nat
  else if base =w L "u" then Some 3%nat
  else None.

(** ** Toned vowels: columns acute grave hook tilde dot *)

Definition kTonedVowel : list (list wchar) :=
  [[0xE1; 0xE0; 0x1EA3; 0xE3; 0x1EA1];
   [0x1EA5; 0x1EA7; 0x1EA9; 0x1EAB; 0x1EAD];
   [0x1EAF; 0x1EB1; 0x1EB3; 0x1EB5; 0x1EB7];
   [0xE9; 0xE8; 0x1EBB; 0x1EBD; 0x1EB9];
   [0x1EBF; 0x1EC1; 0x1EC3; 0x1EC5; 0x1EC7];
   [0xED; 0xEC; 0x1EC9; 0x129; 0x1ECB];
   [0xF3; 0xF2; 0x1ECF; 0xF5; 0x1ECD];
   [0x1ED1; 0x1ED3; 0x1ED5; 0x1ED7; 0x1ED9];
   [0x1EDB; 0x1EDD; 0x1EDF; 0x1EE1; 0x1EE3];
   [0xFA; 0xF9; 0x1EE7; 0x169; 0x1EE5];
   [0x1EE9; 0x1EEB; 0x1EED; 0x1EEF; 0x1EF1];
   [0xFD; 0x1EF3; 0x1EF7; 0x1EF9; 0x1EF5]].

Definition ToneBaseIndex (ch : wchar) : option nat :=
  if ch =w L "a" then Some 0%nat
  else if ch =w 0xE2 then Some 1%nat
  else if ch =w 0x103 then Some 2%nat
  else if ch =w L "e" then Some 3%nat
  else if ch =w 0xEA then Some 4%nat
  else if ch =w L "i" then Some 5%nat
  else if ch =w L "o" then Some 6%nat
  else if ch =w 0xF4 then Some 7%nat
  else if ch =w 0x1A1 then Some 8%nat
  else if ch =w L "u" then Some 9%nat
  else if ch =w 0x1B0 then Some 10%nat
  else if ch =w L "y" then Some 11%nat
  else None.

(** The untoned vowel of each row of [kTonedVowel]. *)
Definition kToneBase : list wchar :=
  [L "a"; 0xE2; 0x103; L "e"; 0xEA; L "i"; L "o"; 0xF4; 0x1A1; L "u"; 0x1B0; L "y"].

Definition table_at (t : list (list wchar)) (i j : nat) : wchar :=
  nth j (nth i t []) 0.

(** The nested loop over the 12 x 5 table: first cell holding [low]. *)
Definition FindToned (low : wchar) : option (nat * nat) :=
  match find_fwd (fun k => table_at kTonedVowel (k / 5) (k mod 5) =w low) 60 with
  | Some k => Some (k / 5, k mod 5)%nat
  | None => None
  end.

Definition StripTone (ch : wchar) : wchar :=
  match ToneBaseIndex ch with
  | Some _ => ch
  | None => match FindToned (towlower ch) with
            | Some (i, _) => nth i kToneBase 0
            | None => ch
            end
  end.

(** ** Case conversion *)

Definition ToUpperVietnamese (ch : wchar) : wchar :=
  if (0xE0 <=? ch) && (ch <=? 0xF6) then ch - 0x20
  else if (0xF8 <=? ch) && (ch <=? 0xFE) then ch - 0x20
  else if ch =w 0x103 then 0x102
  else if ch =w 0x111 then 0x110
  else if ch =w 0x129 then 0x128
  else if ch =w 0x169 then 0x168
  else if ch =w 0x1A1 then 0x1A0
  else if ch =w 0x1B0 then 0x1AF
  else if (0x1EA0 <=? ch) && (ch <=? 0x1EF9) then
    if Z.land ch 1 <>w 0 then ch - 1 else ch
  else towupper ch.

Definition ToLowerVietnamese (ch : wchar) : wchar :=
  if (0xC0 <=? ch) && (ch <=? 0xD6) then ch + 0x20
  else if (0xD8 <=? ch) && (ch <=? 0xDE) then ch + 0x20
  else if ch =w 0x102 then 0x103
  else if ch =w 0x110 then 0x111
  else if ch =w 0x1A0 then 0x1A1
  else if ch =w 0x1AF then 0x1B0
  else if (0x1EA0 <=? ch) && (ch <=? 0x1EF9) && (Z.land ch 1 =w 0) then ch + 1
  else towlower ch.

(** ** Decomposition of a rendered letter

    [modIdx] is -1 none, 0 circumflex, 1 breve, 2 horn, 3 stroke; [toneIdx] is
    -1 none, 0..4 the columns of [kTonedVowel].  [None] is the source's [false]
    (the out-parameters are then not read by the caller). *)

Record Decomposed := mkDecomposed {
  dc_base : wchar; dc_modIdx : Z; dc_toneIdx : Z; dc_isUpper : bool
}.

Definition decomposeToneBase (tb : wchar) : option (wchar * Z) :=
  if tb =w L "a" then Some (L "a", -1)
  else if tb =w L "e" then Some (L "e", -1)
  else if tb =w L "i" then Some (L "i", -1)
  else if tb =w L "o" then Some (L "o", -1)
  else if tb =w L "u" then Some (L "u", -1)
  else if tb =w L "y" then Some (L "y", -1)
  else if tb =w 0xE2 then Some (L "a", 0)
  else if tb =w 0x103 then Some (L "a", 1)
  else if tb =w 0xEA then Some (L "e", 0)
  else if tb =w 0xF4 then Some (L "o", 0)
  else if tb =w 0x1A1 then Some (L "o", 2)
  else if tb =w 0x1B0 then Some (L "u", 2)
  else None.

Definition DecomposeVietChar (ch : wchar) : option Decomposed :=
  let lower := ToLowerVietnamese ch in
  let isUpper := lower <>w ch in
  if lower =w 0x111 then Some (mkDecomposed (L "d") 3 (-1) isUpper)
  else match FindToned lower with
  | Some (i, j) =>
      match decomposeToneBase (nth i kToneBase 0) with
      | Some (b, m) => Some (mkDecomposed b m (Z.of_nat j) isUpper)
      | None => None
      end
  | None =>
      match decomposeToneBase lower with
      | Some (b, m) => Some (mkDecomposed b m (-1) isUpper)
      | None =>
          if (L "a" <=? lower) && (lower <=? L "z")
          then Some (mkDecomposed lower (-1) (-1) isUpper)
          else None
      end
  end.

(** ** Diphthongs: 0 no rule, 1 first, 2 second, 3 depends on the coda *)

Definition DiphthongVowelIndex (base : wchar) : option nat :=
  if base =w L "a" then Some 0%nat
  else if base =w L "e" then Some 1%nat
  else if base =w L "i" then Some 2%nat
  else if base =w L "o" then Some 3%nat
  else if base =w L "u" then Some 4%nat
  else if base =w L "y" then Some 5%nat
  else None.

Definition kDiphthongClassic : list (list Z) :=
  [[0; 0; 1; 1; 1; 1];
   [0; 0; 1; 1; 1; 0];
   [1; 0; 0; 0; 1; 0];
   [3; 3; 1; 0; 1; 0];
   [1; 1; 1; 0; 0; 3];
   [0; 0; 0; 0; 3; 0]].

Definition kDiphthongModern : list (list Z) :=
  [[0; 0; 1; 1; 1; 1];
   [0; 0; 1; 1; 1; 0];
   [1; 0; 0; 0; 1; 0];
   [2; 2; 1; 0; 1; 0];
   [1; 2; 1; 2; 0; 2];
   [0; 0; 0; 0; 3; 0]].

Definition IsTriphthong (v1 v2 v3 : wchar) : bool :=
  ((v1 =w L "o") && (v2 =w L "a") && (v3 =w L "i")) ||
  ((v1 =w L "o") && (v2 =w L "e") && (v3 =w L "o")) ||
  ((v1 =w L "u") && (v2 =w L "y") && (v3 =w L "a")) ||
  ((v1 =w L "u") && (v2 =w L "y") && (v3 =w L "u")) ||
  ((v1 =w L "o") && (v2 =w L "a") && (v3 =w L "o")) ||
  ((v1 =w L "o") && (v2 =w L "a") && (v3 =w L "y")).

Definition IsBareSmartTriphthongTail (v1 v2 v3 : wchar) : bool :=
  (v1 =w L "u") && (v2 =w L "y") && (v3 =w L "e").

Definition IsVowelChar (c : wchar) : bool :=
  (c =w L "a") || (c =w L "e") || (c =w L "i") || (c =w L "o") ||
  (c =w L "u") || (c =w L "y") || (c =w L "A") || (c =w L "E") ||
  (c =w L "I") || (c =w L "O") || (c =w L "U") || (c =w L "Y").

