(* ===== verification/Action.v ===== *)
(** * User-mappable input actions (src/src/core/engine/TypingAction.h) *)

From stdpp Require Import strings.
From S2P Require Import Prelude.
Open Scope Z_scope.

Inductive TypingAction :=
| ActNone
| ClearTone | ToneAcute | ToneGrave | ToneHook | ToneTilde | ToneDot
| CircumflexA | CircumflexE | CircumflexO | HornW | HornInsertO | HornInsertU | StrokeD
| VniCircumflex | VniHorn | VniBreve | VniStroke
| HornOrInsertU | HornOrInsertUNoStart | UndoAllMarks
| InsertABreve | InsertABreveUpper | InsertACircumflex | InsertACircumflexUpper
| InsertDStroke | InsertDStrokeUpper | InsertECircumflex | InsertECircumflexUpper
| InsertOCircumflex | InsertOCircumflexUpper | InsertOHorn | InsertOHornUpper
| InsertUHorn | InsertUHornUpper.

#[export] Instance TypingAction_eq_dec : EqDecision TypingAction.
Proof. solve_decision. Defined.

(** Every enumerator, in declaration order: the underlying value of an action is
    its position, as the enum starts at 0 and assigns no other value. *)
Definition all_actions : list TypingAction :=
  [ActNone; ClearTone; ToneAcute; ToneGrave; ToneHook; ToneTilde; ToneDot;
   CircumflexA; CircumflexE; CircumflexO; HornW; HornInsertO; HornInsertU; StrokeD;
   VniCircumflex; VniHorn; VniBreve; VniStroke;
   HornOrInsertU; HornOrInsertUNoStart; UndoAllMarks;
   InsertABreve; InsertABreveUpper; InsertACircumflex; InsertACircumflexUpper;
   InsertDStroke; InsertDStrokeUpper; InsertECircumflex; InsertECircumflexUpper;
   InsertOCircumflex; InsertOCircumflexUpper; InsertOHorn; InsertOHornUpper;
   InsertUHorn; InsertUHornUpper].

Definition ActionOrd (a : TypingAction) : nat :=
  match list_find (fun b => a = b) all_actions with Some (i, _) => i | None => 0%nat end.

(** [lo <= a && a <= hi] on the underlying values. *)
Definition InRange (lo hi a : TypingAction) : bool :=
  ((ActionOrd lo <=? ActionOrd a) && (ActionOrd a <=? ActionOrd hi))%nat.

Definition IsToneAction (a : TypingAction) : bool := InRange ClearTone ToneDot a.
Definition IsTelexModifierAction (a : TypingAction) : bool := InRange CircumflexA StrokeD a.
Definition IsVniModifierAction (a : TypingAction) : bool := InRange VniCircumflex VniStroke a.
Definition IsUserDefinedOnlyAction (a : TypingAction) : bool :=
  InRange HornOrInsertU InsertUHornUpper a.

Definition IsInsertTypeAction (a : TypingAction) : bool :=
  if (a == HornInsertO) || (a == HornInsertU) then true
  else if a == HornOrInsertU then true
  else if a == HornW then true
  else if InRange InsertABreve InsertUHornUpper a then true
  else false.

Definition CanonicalBracketKey (key : wchar) : wchar :=
  if key =w L "{" then L "["
  else if key =w L "}" then L "]"
  else key.

Record BracketKey := mkBracketKey { bk_character : wchar; bk_uppercase : bool }.

Definition ResolveBracketKey (base : wchar) (shift capsLock : bool) : BracketKey :=
  let canonical := CanonicalBracketKey base in
  let physical := canonical in
  let physical := if shift && (canonical =w L "[") then L "{" else physical in
  let physical := if shift && (canonical =w L "]") then L "}" else physical in
  mkBracketKey physical (xorb shift capsLock).

Definition ClassifyKey (lower : wchar) (isTelex isVni : bool) : TypingAction :=
  let lower := CanonicalBracketKey lower in
  let vni :=
    if isVni then
      if lower =w L "0" then ClearTone
      else if lower =w L "1" then ToneAcute
      else if lower =w L "2" then ToneGrave
      else if lower =w L "3" then ToneHook
      else if lower =w L "4" then ToneTilde
      else if lower =w L "5" then ToneDot
      else if lower =w L "6" then VniCircumflex
      else if lower =w L "7" then VniHorn
      else if lower =w L "8" then VniBreve
      else if lower =w L "9" then VniStroke
      else ActNone
    else ActNone in
  if isTelex then
    if lower =w L "z" then ClearTone
    else if lower =w L "s" then ToneAcute
    else if lower =w L "f" then ToneGrave
    else if lower =w L "r" then ToneHook
    else if lower =w L "x" then ToneTilde
    else if lower =w L "j" then ToneDot
    else if lower =w L "a" then CircumflexA
    else if lower =w L "e" then CircumflexE
    else if lower =w L "o" then CircumflexO
    else if lower =w L "w" then HornW
    else if lower =w L "[" then HornInsertO
    else if lower =w L "]" then HornInsertU
    else if lower =w L "d" then StrokeD
    else vni
  else vni.

Definition TypingActionToString (a : TypingAction) : string :=
  match a with
  | ActNone => "None"
  | ClearTone => "ClearTone"
  | ToneAcute => "ToneAcute"
  | ToneGrave => "ToneGrave"
  | ToneHook => "ToneHook"
  | ToneTilde => "ToneTilde"
  | ToneDot => "ToneDot"
  | CircumflexA => "CircumflexA"
  | CircumflexE => "CircumflexE"
  | CircumflexO => "CircumflexO"
  | HornW => "HornW"
  | HornInsertO => "HornInsertO"
  | HornInsertU => "HornInsertU"
  | StrokeD => "StrokeD"
  | VniCircumflex => "VniCircumflex"
  | VniHorn => "VniHorn"
  | VniBreve => "VniBreve"
  | VniStroke => "VniStroke"
  | HornOrInsertU => "HornOrInsertU"
  | HornOrInsertUNoStart => "HornOrInsertUNoStart"
  | UndoAllMarks => "UndoAllMarks"
  | InsertABreve => "InsertABreve"
  | InsertABreveUpper => "InsertABreveUpper"
  | InsertACircumflex => "InsertACircumflex"
  | InsertACircumflexUpper => "InsertACircumflexUpper"
  | InsertDStroke => "InsertDStroke"
  | InsertDStrokeUpper => "InsertDStrokeUpper"
  | InsertECircumflex => "InsertECircumflex"
  | InsertECircumflexUpper => "InsertECircumflexUpper"
  | InsertOCircumflex => "InsertOCircumflex"
  | InsertOCircumflexUpper => "InsertOCircumflexUpper"
  | InsertOHorn => "InsertOHorn"
  | InsertOHornUpper => "InsertOHornUpper"
  | InsertUHorn => "InsertUHorn"
  | InsertUHornUpper => "InsertUHornUpper"
  end.

Definition StringToTypingAction (s : string) : TypingAction :=
  if s == "ClearTone" then ClearTone
  else if s == "ToneAcute" then ToneAcute
  else if s == "ToneGrave" then ToneGrave
  else if s == "ToneHook" then ToneHook
  else if s == "ToneTilde" then ToneTilde
  else if s == "ToneDot" then ToneDot
  else if s == "CircumflexA" then CircumflexA
  else if s == "CircumflexE" then CircumflexE
  else if s == "CircumflexO" then CircumflexO
  else if s == "HornW" then HornW
  else if s == "HornInsertO" then HornInsertO
  else if s == "HornInsertU" then HornInsertU
  else if s == "StrokeD" then StrokeD
  else if s == "VniCircumflex" then VniCircumflex
  else if s == "VniHorn" then VniHorn
  else if s == "VniBreve" then VniBreve
  else if s == "VniStroke" then VniStroke
  else if s == "HornOrInsertU" then HornOrInsertU
  else if s == "HornOrInsertUNoStart" then HornOrInsertUNoStart
  else if s == "UndoAllMarks" then UndoAllMarks
  else if s == "InsertABreve" then InsertABreve
  else if s == "InsertABreveUpper" then InsertABreveUpper
  else if s == "InsertACircumflex" then InsertACircumflex
  else if s == "InsertACircumflexUpper" then InsertACircumflexUpper
  else if s == "InsertDStroke" then InsertDStroke
  else if s == "InsertDStrokeUpper" then InsertDStrokeUpper
  else if s == "InsertECircumflex" then InsertECircumflex
  else if s == "InsertECircumflexUpper" then InsertECircumflexUpper
  else if s == "InsertOCircumflex" then InsertOCircumflex
  else if s == "InsertOCircumflexUpper" then InsertOCircumflexUpper
  else if s == "InsertOHorn" then InsertOHorn
  else if s == "InsertOHornUpper" then InsertOHornUpper
  else if s == "InsertUHorn" then InsertUHorn
  else if s == "InsertUHornUpper" then InsertUHornUpper
  else ActNone.

(** ** Properties *)

Lemma all_actions_complete a : In a all_actions.
Proof. destruct a; simpl; tauto. Qed.

Lemma forall_actions (P : TypingAction -> Prop) :
  Forall P all_actions -> forall a, P a.
Proof. rewrite List.Forall_forall. auto using all_actions_complete. Qed.

(** The names a custom key map is saved under read back as the action they were
    written for, and only ["None"] or an unknown name reads as no action. *)
Theorem action_string_roundtrip a :
  StringToTypingAction (TypingActionToString a) = a.
Proof. revert a. apply forall_actions. repeat constructor. Qed.

(** Every action is in exactly one of the four dispatch classes of the engine:
    literal, tone, Telex modifier, VNI modifier or user-defined. *)
Theorem action_classes_partition a :
  length (filter (fun b : bool => b = true)
    [a == ActNone; IsToneAction a; IsTelexModifierAction a;
     IsVniModifierAction a; IsUserDefinedOnlyAction a]) = 1%nat.
Proof. revert a. apply forall_actions. repeat constructor. Qed.

Definition is_digit (c : wchar) : bool := (L "0" <=? c) && (c <=? L "9").

(** Combined mode is the disjoint union of Telex and VNI: digits classify as in
    VNI, all other keys as in Telex, and neither mode claims the other's keys. *)
Theorem ClassifyKey_combined c :
  ClassifyKey c true true =
    if is_digit c then ClassifyKey c false true else ClassifyKey c true false.
Proof.
  unfold ClassifyKey, is_digit, CanonicalBracketKey. cbv zeta.
  repeat case_match; bool_hyps; subst; try reflexivity; try lia; simplify_eq/=.
Qed.

(** Bracket resolution shifts the character, never the action: both brackets
    and braces classify alike, and the case intent is Shift XOR Caps Lock. *)
Theorem ResolveBracketKey_action base shift caps isTelex isVni :
  ClassifyKey (bk_character (ResolveBracketKey base shift caps)) isTelex isVni =
    ClassifyKey base isTelex isVni /\
  bk_uppercase (ResolveBracketKey base shift caps) = xorb shift caps.
Proof.
  split; [|done].
  assert (CanonicalBracketKey (bk_character (ResolveBracketKey base shift caps))
          = CanonicalBracketKey base) as H.
  { unfold ResolveBracketKey, CanonicalBracketKey; cbv zeta; simpl.
    repeat case_match; bool_hyps; subst; simpl in *; try congruence; try lia. }
  unfold ClassifyKey. by rewrite H.
Qed.
