(* ===== verification/Config.v ===== *)
(** * Typing configuration (src/src/core/config/TypingConfig.h) *)

From S2P Require Import Prelude Action.
Open Scope Z_scope.

Inductive InputMethod := Telex | VNI | SimpleTelex | Combined | UserDefined.
Inductive CodeTable := Unicode | TCVN3 | VNIWindows | UnicodeCompound | VietnameseLocale.
Inductive SpellCheckLevel := LevelOff | LevelStandard | LevelAdvanced.

#[export] Instance InputMethod_eq_dec : EqDecision InputMethod.
Proof. solve_decision. Defined.
#[export] Instance CodeTable_eq_dec : EqDecision CodeTable.
Proof. solve_decision. Defined.
#[export] Instance SpellCheckLevel_eq_dec : EqDecision SpellCheckLevel.
Proof. solve_decision. Defined.

(** [hk_vk] is the 32-bit Win32 key code, 0 when unassigned. *)
Record HotkeyConfig := mkHotkey {
  hk_ctrl : bool; hk_shift : bool; hk_alt : bool; hk_win : bool; hk_vk : Z
}.

Definition HasAny (h : HotkeyConfig) : bool :=
  hk_ctrl h || hk_shift h || hk_alt h || hk_win h || (hk_vk h <>w 0).

Definition ModifiersMatch (h : HotkeyConfig) (c s a w : bool) : bool :=
  Bool.eqb (hk_ctrl h) c && Bool.eqb (hk_shift h) s && Bool.eqb (hk_alt h) a && Bool.eqb (hk_win h) w.

Definition ToMods (h : HotkeyConfig) : Z :=
  let m := 0 in
  let m := if hk_ctrl h then Z.lor m 1 else m in
  let m := if hk_shift h then Z.lor m 2 else m in
  let m := if hk_alt h then Z.lor m 4 else m in
  let m := if hk_win h then Z.lor m 8 else m in
  m.

Definition SetModsFromMask (h : HotkeyConfig) (mods : Z) : HotkeyConfig :=
  {| hk_ctrl := Z.land mods 1 <>w 0;
     hk_shift := Z.land mods 2 <>w 0;
     hk_alt := Z.land mods 4 <>w 0;
     hk_win := Z.land mods 8 <>w 0;
     hk_vk := hk_vk h |}.

(** The whole struct; [customKeyMap] is the 128-entry array. *)
Record TypingConfig := mkConfig {
  inputMethod : InputMethod;
  codeTable : CodeTable;
  spellCheckEnabled : bool;
  spellSuggestEnabled : bool;
  beepOnSwitch : bool;
  smartSwitch : bool;
  excludeApps : bool;
  tsfApps : bool;
  hidePreeditUnderline : bool;
  optimizeLevel : Z;
  modernOrtho : bool;
  autoCaps : bool;
  allowZwjf : bool;
  autoRestoreEnabled : bool;
  cjkAutoSwitch : bool;
  macroEnabled : bool;
  macroInEnglish : bool;
  quickConsonant : bool;
  quickStartConsonant : bool;
  quickEndConsonant : bool;
  escRestoreRawEnabled : bool;
  autoCapsMacro : bool;
  macroUndoOnBackspace : bool;
  macroTitleCase : bool;
  allowEnglishBypass : bool;
  suggestKeepChars : bool;
  debugLogEnabled : bool;
  enableToast : bool;
  perfHistogramEnabled : bool;
  macroTriggerSpace : bool;
  macroTriggerEnter : bool;
  macroTriggerTab : bool;
  macroTriggerDir : bool;
  spellExclusions : list wstring;
  customKeyMap : list TypingAction
}.

Definition default_config : TypingConfig := {|
  inputMethod := Telex;
  codeTable := Unicode;
  spellCheckEnabled := true;
  spellSuggestEnabled := false;
  beepOnSwitch := false;
  smartSwitch := false;
  excludeApps := false;
  tsfApps := false;
  hidePreeditUnderline := false;
  optimizeLevel := 0;
  modernOrtho := true;
  autoCaps := false;
  allowZwjf := false;
  autoRestoreEnabled := true;
  cjkAutoSwitch := false;
  macroEnabled := false;
  macroInEnglish := false;
  quickConsonant := false;
  quickStartConsonant := false;
  quickEndConsonant := false;
  escRestoreRawEnabled := false;
  autoCapsMacro := false;
  macroUndoOnBackspace := false;
  macroTitleCase := false;
  allowEnglishBypass := false;
  suggestKeepChars := false;
  debugLogEnabled := false;
  enableToast := true;
  perfHistogramEnabled := false;
  macroTriggerSpace := true;
  macroTriggerEnter := true;
  macroTriggerTab := true;
  macroTriggerDir := true;
  spellExclusions := [];
  customKeyMap := replicate 128 ActNone
|}.

(** The pair [spellCheckEnabled], [spellSuggestEnabled] seen as one level. *)
Definition GetSpellCheckLevel (c : TypingConfig) : SpellCheckLevel :=
  if negb (spellCheckEnabled c) then LevelOff
  else if spellSuggestEnabled c then LevelAdvanced else LevelStandard.

(** [SetSpellCheckLevel] writes the two fields: the pair it leaves in them. *)
Definition SetSpellCheckLevel (level : SpellCheckLevel) : bool * bool :=
  (level != LevelOff, level == LevelAdvanced).

(** The compiled defaults with the switches the engine reads set explicitly. *)
Definition engine_config (m : InputMethod) (spell bypass zwjf modern quick : bool)
    (exclusions : list wstring) : TypingConfig := {|
  inputMethod := m;
  codeTable := Unicode;
  spellCheckEnabled := spell;
  spellSuggestEnabled := false;
  beepOnSwitch := false;
  smartSwitch := false;
  excludeApps := false;
  tsfApps := false;
  hidePreeditUnderline := false;
  optimizeLevel := 0;
  modernOrtho := modern;
  autoCaps := false;
  allowZwjf := zwjf;
  autoRestoreEnabled := true;
  cjkAutoSwitch := false;
  macroEnabled := false;
  macroInEnglish := false;
  quickConsonant := quick;
  quickStartConsonant := quick;
  quickEndConsonant := quick;
  escRestoreRawEnabled := false;
  autoCapsMacro := false;
  macroUndoOnBackspace := false;
  macroTitleCase := false;
  allowEnglishBypass := bypass;
  suggestKeepChars := false;
  debugLogEnabled := false;
  enableToast := true;
  perfHistogramEnabled := false;
  macroTriggerSpace := true;
  macroTriggerEnter := true;
  macroTriggerTab := true;
  macroTriggerDir := true;
  spellExclusions := exclusions;
  customKeyMap := replicate 128 ActNone
|}.

(** Packing the four modifier flags and unpacking them is the identity. *)
Lemma hotkey_mods_roundtrip h h' :
  hk_vk h' = hk_vk h -> SetModsFromMask h' (ToMods h) = h.
Proof. destruct h as [[] [] [] [] vk], h'; simpl; intros ->; reflexivity. Qed.

(** [GetSpellCheckLevel] inverts [SetSpellCheckLevel]. *)
Lemma spell_level_roundtrip c level :
  (spellCheckEnabled c, spellSuggestEnabled c) = SetSpellCheckLevel level ->
  GetSpellCheckLevel c = level.
Proof.
  unfold GetSpellCheckLevel, SetSpellCheckLevel.
  destruct level; intros [= -> ->]; reflexivity.
Qed.
