(* ===== verification/CharState.v ===== *)
(** * Letter states and composition
    (src/src/core/engine/TypingEngine.h, TypingEngine.cpp)

    A [CharState] is what the engine keeps per letter: base, modifier, tone,
    case and the indices of the keystrokes it came from.  [Compose] renders it,
    [FromDecomposed] is the per-letter step of [SeedFromText].  A [size_t] index
    whose sentinel is [SIZE_MAX] is an [option nat]. *)

From S2P Require Import Prelude Tables Action.
Open Scope Z_scope.

Inductive Modifier := ModNone | Circumflex | Breve | Horn | Stroke.
Inductive Tone := ToneNone | Acute | Grave | Hook | Tilde | Dot.

#[export] Instance Modifier_eq_dec : EqDecision Modifier.
Proof. solve_decision. Defined.
#[export] Instance Tone_eq_dec : EqDecision Tone.
Proof. solve_decision. Defined.

(** The enums' underlying values, used by the validator. *)
Definition ModifierOrd (m : Modifier) : Z :=
  match m with ModNone => 0 | Circumflex => 1 | Breve => 2 | Horn => 3 | Stroke => 4 end.
Definition ToneOrd (t : Tone) : Z :=
  match t with ToneNone => 0 | Acute => 1 | Grave => 2 | Hook => 3 | Tilde => 4 | Dot => 5 end.

Record CharState := mkCS {
  cs_base : wchar;
  cs_mod : Modifier;
  cs_tone : Tone;
  cs_isUpper : bool;
  cs_synthetic : bool;
  cs_rawIdx : nat;
  cs_toneRawIdx : option nat
}.

#[export] Instance CharState_eq_dec : EqDecision CharState.
Proof. solve_decision. Defined.

Definition defaultCS : CharState := mkCS 0 ModNone ToneNone false false 0%nat None.
#[export] Instance CharState_inhabited : Inhabited CharState := populate defaultCS.

Definition set_base (b : wchar) (s : CharState) : CharState :=
  mkCS b (cs_mod s) (cs_tone s) (cs_isUpper s) (cs_synthetic s) (cs_rawIdx s) (cs_toneRawIdx s).
Definition set_mod (m : Modifier) (s : CharState) : CharState :=
  mkCS (cs_base s) m (cs_tone s) (cs_isUpper s) (cs_synthetic s) (cs_rawIdx s) (cs_toneRawIdx s).
Definition set_tone (t : Tone) (s : CharState) : CharState :=
  mkCS (cs_base s) (cs_mod s) t (cs_isUpper s) (cs_synthetic s) (cs_rawIdx s) (cs_toneRawIdx s).
Definition set_isUpper (u : bool) (s : CharState) : CharState :=
  mkCS (cs_base s) (cs_mod s) (cs_tone s) u (cs_synthetic s) (cs_rawIdx s) (cs_toneRawIdx s).
Definition set_synthetic (b : bool) (s : CharState) : CharState :=
  mkCS (cs_base s) (cs_mod s) (cs_tone s) (cs_isUpper s) b (cs_rawIdx s) (cs_toneRawIdx s).
Definition set_rawIdx (i : nat) (s : CharState) : CharState :=
  mkCS (cs_base s) (cs_mod s) (cs_tone s) (cs_isUpper s) (cs_synthetic s) i (cs_toneRawIdx s).
Definition set_toneRawIdx (i : option nat) (s : CharState) : CharState :=
  mkCS (cs_base s) (cs_mod s) (cs_tone s) (cs_isUpper s) (cs_synthetic s) (cs_rawIdx s) i.

Definition is_vowel_base (b : wchar) : bool :=
  (b =w L "a") || (b =w L "e") || (b =w L "i") ||
  (b =w L "o") || (b =w L "u") || (b =w L "y").

Definition IsVowel (s : CharState) : bool := is_vowel_base (cs_base s).
Definition CanHaveMod (s : CharState) : bool :=
  (cs_base s =w L "a") || (cs_base s =w L "e") || (cs_base s =w L "o") || (cs_base s =w L "u").
Definition IsD (s : CharState) : bool := cs_base s =w L "d".
Definition IsHorn (s : CharState) : bool := cs_mod s == Horn.
Definition HasModifier (s : CharState) : bool := cs_mod s != ModNone.
Definition HasTone (s : CharState) : bool := cs_tone s != ToneNone.
Definition IsEmpty (s : CharState) : bool := cs_base s =w 0.

(** ** Action to tone and modifier *)

Definition ActionToTone (a : TypingAction) : Tone :=
  match a with
  | ToneAcute => Acute
  | ToneGrave => Grave
  | ToneHook => Hook
  | ToneTilde => Tilde
  | ToneDot => Dot
  | _ => ToneNone
  end.

Definition ActionToVowel (a : TypingAction) : wchar :=
  match a with
  | CircumflexA => L "a"
  | CircumflexE => L "e"
  | CircumflexO => L "o"
  | _ => 0
  end.

Definition ActionToVniModifier (a : TypingAction) : Modifier :=
  match a with
  | VniCircumflex => Circumflex
  | VniHorn => Horn
  | VniBreve => Breve
  | VniStroke => Stroke
  | _ => ModNone
  end.

Definition ModifierIndex (m : Modifier) : option nat :=
  match m with
  | Circumflex => Some 0%nat
  | Breve => Some 1%nat
  | Horn => Some 2%nat
  | _ => None
  end.

Definition ToneIndex (t : Tone) : option nat :=
  match t with
  | Acute => Some 0%nat
  | Grave => Some 1%nat
  | Hook => Some 2%nat
  | Tilde => Some 3%nat
  | Dot => Some 4%nat
  | ToneNone => None
  end.

(** ** Composition: one state to one UTF-16 code unit *)

Definition apply_modifier (s : CharState) : wchar :=
  if (cs_mod s != ModNone) && IsVowel s then
    match VowelBaseIndex (cs_base s), ModifierIndex (cs_mod s) with
    | Some bi, Some mi =>
        let modified := table_at kModifiedVowel bi mi in
        if modified <>w 0 then modified else cs_base s
    | _, _ => cs_base s
    end
  else cs_base s.

Definition apply_tone (t : Tone) (ch : wchar) : wchar :=
  if t != ToneNone then
    match ToneBaseIndex ch, ToneIndex t with
    | Some ti, Some si => table_at kTonedVowel ti si
    | _, _ => ch
    end
  else ch.

Definition Compose (s : CharState) : wchar :=
  if IsEmpty s then 0
  else if IsD s && (cs_mod s == Stroke) then (if cs_isUpper s then 0x110 else 0x111)
  else
    let ch := apply_modifier s in
    let ch := apply_tone (cs_tone s) ch in
    if cs_isUpper s then ToUpperVietnamese ch else ch.

(** [ComposeAll]: the rendered buffer, empty states skipped. *)
Definition ComposeStates (l : list CharState) : wstring :=
  List.filter (fun ch => ch <>w 0) (map Compose l).

(** The switch of [SeedFromText] on the decomposed indices. *)
Definition FromDecomposed (d : Decomposed) (rawIdx : nat) : CharState :=
  let m := if dc_modIdx d =w 0 then Circumflex
           else if dc_modIdx d =w 1 then Breve
           else if dc_modIdx d =w 2 then Horn
           else if dc_modIdx d =w 3 then Stroke
           else ModNone in
  let t := if dc_toneIdx d =w 0 then Acute
           else if dc_toneIdx d =w 1 then Grave
           else if dc_toneIdx d =w 2 then Hook
           else if dc_toneIdx d =w 3 then Tilde
           else if dc_toneIdx d =w 4 then Dot
           else ToneNone in
  mkCS (dc_base d) m t (dc_isUpper d) false rawIdx None.
