(* ===== verification/Validator.v ===== *)
(** * The syllable validator and its tables
    (src/src/core/engine/VietnamesePhonologyData.h, PhonotacticsValidator.cpp)

    A vowel slot is the byte [(base << 2) | mod]; one to three slots are packed
    in a 32-bit key under a length byte.  Coda consonants are bits of a mask. *)

From S2P Require Import Prelude.
From S2P Require Import CharState.
Open Scope Z_scope.

Definition IsFrontBaseVowel (base : wchar) : bool :=
  (base =w L "e") || (base =w L "i") || (base =w L "y").

Definition kA : Z := 0.
Definition kE : Z := 1.
Definition kI : Z := 2.
Definition kO : Z := 3.
Definition kU : Z := 4.
Definition kY : Z := 5.
Definition kNone : Z := 0.
Definition kCirc : Z := 1.
Definition kBrev : Z := 2.
Definition kHorn : Z := 3.
Definition kInvalidBaseIndex : Z := 0xFF.

(** [static_cast<uint8_t>]. *)
Definition u8 (z : Z) : Z := z mod 2 ^ 8.
Definition u16 (z : Z) : Z := z mod 2 ^ 16.
Definition u32 (z : Z) : Z := z mod 2 ^ 32.

Definition VowelSlot (base md : Z) : Z := u8 (Z.lor (Z.shiftl base 2) md).

Definition BaseIndex (base : wchar) : Z :=
  if base =w L "a" then kA
  else if base =w L "e" then kE
  else if base =w L "i" then kI
  else if base =w L "o" then kO
  else if base =w L "u" then kU
  else if base =w L "y" then kY
  else kInvalidBaseIndex.

Definition Key1 (s0 : Z) : Z := u32 (Z.lor (Z.shiftl 1 24) s0).
Definition Key2 (s0 s1 : Z) : Z :=
  u32 (Z.lor (Z.lor (Z.shiftl 2 24) (Z.shiftl s0 8)) s1).
Definition Key3 (s0 s1 s2 : Z) : Z :=
  u32 (Z.lor (Z.lor (Z.lor (Z.shiftl 3 24) (Z.shiftl s0 16)) (Z.shiftl s1 8)) s2).

Definition F_c : Z := 0x001.
Definition F_ch : Z := 0x002.
Definition F_k : Z := 0x004.
Definition F_m : Z := 0x008.
Definition F_n : Z := 0x010.
Definition F_ng : Z := 0x020.
Definition F_nh : Z := 0x040.
Definition F_p : Z := 0x080.
Definition F_t : Z := 0x100.

Definition orF (l : list Z) : Z := fold_left Z.lor l 0.
Definition F_ALL : Z := orF [F_c; F_ch; F_k; F_m; F_n; F_ng; F_nh; F_p; F_t].
Definition F_NO_CH_NH : Z := Z.land F_ALL (Z.lnot (Z.lor F_ch F_nh)).

Record VCPairRule := mkVC { vc_vowelKey : Z; vc_allowedFinals : Z }.

Definition kVCPairRules : list VCPairRule :=
  [ mkVC (Key1 (VowelSlot kA kNone)) F_ALL;
    mkVC (Key1 (VowelSlot kA kCirc)) F_NO_CH_NH;
    mkVC (Key1 (VowelSlot kA kBrev)) F_NO_CH_NH;
    mkVC (Key1 (VowelSlot kE kNone)) F_ALL;
    mkVC (Key1 (VowelSlot kE kCirc)) (orF [F_c; F_ch; F_m; F_n; F_nh; F_p; F_t]);
    mkVC (Key1 (VowelSlot kI kNone)) (Z.land F_ALL (Z.lnot F_ng));
    mkVC (Key1 (VowelSlot kO kNone)) F_NO_CH_NH;
    mkVC (Key1 (VowelSlot kO kCirc)) F_NO_CH_NH;
    mkVC (Key1 (VowelSlot kO kHorn)) (orF [F_m; F_n; F_p; F_t]);
    mkVC (Key1 (VowelSlot kU kNone)) F_NO_CH_NH;
    mkVC (Key1 (VowelSlot kU kHorn)) F_NO_CH_NH;
    mkVC (Key1 (VowelSlot kY kNone)) F_t;
    mkVC (Key2 (VowelSlot kI kNone) (VowelSlot kE kCirc)) (orF [F_c; F_m; F_n; F_ng; F_p; F_t]);
    mkVC (Key2 (VowelSlot kO kNone) (VowelSlot kA kNone)) F_ALL;
    mkVC (Key2 (VowelSlot kO kNone) (VowelSlot kA kBrev)) (orF [F_c; F_m; F_n; F_ng; F_p; F_t]);
    mkVC (Key2 (VowelSlot kO kNone) (VowelSlot kE kNone)) (orF [F_m; F_n; F_ng; F_t]);
    mkVC (Key2 (VowelSlot kO kNone) (VowelSlot kO kNone)) (orF [F_c; F_ng]);
    mkVC (Key2 (VowelSlot kU kNone) (VowelSlot kA kCirc)) (orF [F_n; F_ng; F_t]);
    mkVC (Key2 (VowelSlot kU kNone) (VowelSlot kE kCirc)) (orF [F_ch; F_n; F_nh]);
    mkVC (Key2 (VowelSlot kU kNone) (VowelSlot kO kCirc)) (orF [F_c; F_m; F_n; F_ng; F_p; F_t]);
    mkVC (Key2 (VowelSlot kU kNone) (VowelSlot kO kHorn)) (orF [F_c; F_m; F_n; F_ng; F_p; F_t]);
    mkVC (Key2 (VowelSlot kU kNone) (VowelSlot kY kNone)) (orF [F_ch; F_n; F_nh; F_p; F_t]);
    mkVC (Key2 (VowelSlot kU kHorn) (VowelSlot kO kHorn)) (orF [F_c; F_m; F_n; F_ng; F_p; F_t]);
    mkVC (Key2 (VowelSlot kY kNone) (VowelSlot kE kCirc)) (orF [F_c; F_m; F_n; F_ng; F_p; F_t]);
    mkVC (Key3 (VowelSlot kU kNone) (VowelSlot kY kNone) (VowelSlot kE kCirc)) (orF [F_n; F_t]) ].

Definition GetAllowedFinals (vowelKey : Z) : Z :=
  match List.find (fun r => vc_vowelKey r =w vowelKey) kVCPairRules with
  | Some r => vc_allowedFinals r
  | None => 0
  end.

(** ** The syllable validator (src/src/core/engine/PhonotacticsValidator.cpp)

    [ValidateSyllableState] classifies a buffer as a complete syllable, a prefix
    of one, or neither.  A pointer-and-count argument is a list; [&states[pos]]
    is [drop pos states]. *)

Inductive SyllableState := Valid | ValidPrefix | Invalid.
#[export] Instance SyllableState_eq_dec : EqDecision SyllableState.
Proof. solve_decision. Defined.

(** ** The nucleus table *)

Record VowelEntry := mkVE { ve_key : Z; ve_canEnd : bool; ve_requiresEnd : bool }.

Definition kVowelTable : list VowelEntry :=
  [ mkVE (Key1 (VowelSlot kA kNone)) true false;
    mkVE (Key1 (VowelSlot kA kCirc)) true true;
    mkVE (Key1 (VowelSlot kA kBrev)) true false;
    mkVE (Key1 (VowelSlot kE kNone)) true false;
    mkVE (Key1 (VowelSlot kE kCirc)) true false;
    mkVE (Key1 (VowelSlot kI kNone)) true false;
    mkVE (Key1 (VowelSlot kO kNone)) true false;
    mkVE (Key1 (VowelSlot kO kCirc)) true false;
    mkVE (Key1 (VowelSlot kO kHorn)) true false;
    mkVE (Key1 (VowelSlot kU kNone)) true false;
    mkVE (Key1 (VowelSlot kU kHorn)) true false;
    mkVE (Key1 (VowelSlot kY kNone)) true false;
    mkVE (Key2 (VowelSlot kA kNone) (VowelSlot kI kNone)) false false;
    mkVE (Key2 (VowelSlot kA kNone) (VowelSlot kO kNone)) false false;
    mkVE (Key2 (VowelSlot kA kNone) (VowelSlot kU kNone)) false false;
    mkVE (Key2 (VowelSlot kA kNone) (VowelSlot kY kNone)) false false;
    mkVE (Key2 (VowelSlot kA kCirc) (VowelSlot kU kNone)) false false;
    mkVE (Key2 (VowelSlot kA kCirc) (VowelSlot kY kNone)) false false;
    mkVE (Key2 (VowelSlot kE kNone) (VowelSlot kO kNone)) false false;
    mkVE (Key2 (VowelSlot kE kCirc) (VowelSlot kU kNone)) false false;
    mkVE (Key2 (VowelSlot kI kNone) (VowelSlot kA kNone)) false false;
    mkVE (Key2 (VowelSlot kI kNone) (VowelSlot kU kNone)) false false;
    mkVE (Key2 (VowelSlot kO kNone) (VowelSlot kA kNone)) true false;
    mkVE (Key2 (VowelSlot kO kNone) (VowelSlot kI kNone)) false false;
    mkVE (Key2 (VowelSlot kO kCirc) (VowelSlot kI kNone)) false false;
    mkVE (Key2 (VowelSlot kO kHorn) (VowelSlot kI kNone)) false false;
    mkVE (Key2 (VowelSlot kU kNone) (VowelSlot kA kNone)) false false;
    mkVE (Key2 (VowelSlot kU kNone) (VowelSlot kI kNone)) false false;
    mkVE (Key2 (VowelSlot kU kHorn) (VowelSlot kA kNone)) false false;
    mkVE (Key2 (VowelSlot kU kHorn) (VowelSlot kI kNone)) false false;
    mkVE (Key2 (VowelSlot kU kHorn) (VowelSlot kU kNone)) false false;
    mkVE (Key2 (VowelSlot kI kNone) (VowelSlot kE kCirc)) true false;
    mkVE (Key2 (VowelSlot kO kNone) (VowelSlot kA kBrev)) true false;
    mkVE (Key2 (VowelSlot kO kNone) (VowelSlot kE kNone)) true false;
    mkVE (Key2 (VowelSlot kO kNone) (VowelSlot kO kNone)) true false;
    mkVE (Key2 (VowelSlot kU kNone) (VowelSlot kA kCirc)) true false;
    mkVE (Key2 (VowelSlot kU kNone) (VowelSlot kE kCirc)) true false;
    mkVE (Key2 (VowelSlot kU kNone) (VowelSlot kO kCirc)) true false;
    mkVE (Key2 (VowelSlot kU kNone) (VowelSlot kO kHorn)) true false;
    mkVE (Key2 (VowelSlot kU kNone) (VowelSlot kY kNone)) true false;
    mkVE (Key2 (VowelSlot kU kHorn) (VowelSlot kO kHorn)) true false;
    mkVE (Key2 (VowelSlot kY kNone) (VowelSlot kE kCirc)) true false;
    mkVE (Key3 (VowelSlot kI kNone) (VowelSlot kE kCirc) (VowelSlot kU kNone)) false false;
    mkVE (Key3 (VowelSlot kO kNone) (VowelSlot kA kNone) (VowelSlot kI kNone)) false false;
    mkVE (Key3 (VowelSlot kO kNone) (VowelSlot kA kNone) (VowelSlot kY kNone)) false false;
    mkVE (Key3 (VowelSlot kO kNone) (VowelSlot kE kNone) (VowelSlot kO kNone)) false false;
    mkVE (Key3 (VowelSlot kU kNone) (VowelSlot kA kCirc) (VowelSlot kY kNone)) false false;
    mkVE (Key3 (VowelSlot kU kNone) (VowelSlot kO kCirc) (VowelSlot kI kNone)) false false;
    mkVE (Key3 (VowelSlot kU kNone) (VowelSlot kY kNone) (VowelSlot kA kNone)) false false;
    mkVE (Key3 (VowelSlot kU kNone) (VowelSlot kY kNone) (VowelSlot kU kNone)) false false;
    mkVE (Key3 (VowelSlot kU kHorn) (VowelSlot kO kHorn) (VowelSlot kI kNone)) false false;
    mkVE (Key3 (VowelSlot kU kHorn) (VowelSlot kO kHorn) (VowelSlot kU kNone)) false false;
    mkVE (Key3 (VowelSlot kU kNone) (VowelSlot kY kNone) (VowelSlot kE kCirc)) true false;
    mkVE (Key3 (VowelSlot kY kNone) (VowelSlot kE kCirc) (VowelSlot kU kNone)) false false ].

Definition FinalConsonantBit (states : list CharState) (finalLen : nat) : Z :=
  if finalLen == 0%nat then 0
  else
    let c0 := cs_base (states !!! 0%nat) in
    if finalLen == 2%nat then
      let c1 := cs_base (states !!! 1%nat) in
      if (c0 =w L "c") && (c1 =w L "h") then F_ch
      else if (c0 =w L "n") && (c1 =w L "g") then F_ng
      else if (c0 =w L "n") && (c1 =w L "h") then F_nh
      else 0
    else if c0 =w L "c" then F_c
    else if c0 =w L "k" then F_k
    else if c0 =w L "m" then F_m
    else if c0 =w L "n" then F_n
    else if c0 =w L "p" then F_p
    else if c0 =w L "t" then F_t
    else 0.

Definition FindVowel (key : Z) : option VowelEntry :=
  List.find (fun e => ve_key e =w key) kVowelTable.

Definition IsVowelPrefix (key : Z) (numSlots : nat) : bool :=
  let keySlot0 := if numSlots == 2%nat then u8 (Z.land (Z.shiftr key 8) 0xFF)
                  else u8 (Z.land key 0xFF) in
  existsb (fun e =>
    let entryKey := ve_key e in
    let entryLen := u8 (Z.shiftr entryKey 24) in
    if (numSlots == 1%nat) && (2 <=? entryLen) then
      let entryFirst := if entryLen =w 2 then u8 (Z.land (Z.shiftr entryKey 8) 0xFF)
                        else u8 (Z.land (Z.shiftr entryKey 16) 0xFF) in
      entryFirst =w keySlot0
    else if (numSlots == 2%nat) && (entryLen =w 3) then
      let entryFirst2 := u16 (Z.land (Z.shiftr entryKey 8) 0xFFFF) in
      let keySlots := u16 (Z.land key 0xFFFF) in
      entryFirst2 =w keySlots
    else false) kVowelTable.

(** ** Onsets and codas *)

Definition is_pair (c0 c1 x y : wchar) : bool := (c0 =w x) && (c1 =w y).

Definition ParseInitialConsonant (states : list CharState) (allowZwjf : bool) : nat :=
  match states with
  | [] => 0%nat
  | s0 :: rest =>
      if IsD s0 && (cs_mod s0 != ModNone) then 1%nat
      else if IsVowel s0 then 0%nat
      else
        let c0 := cs_base s0 in
        let s1 := states !!! 1%nat in
        let s2 := states !!! 2%nat in
        let c1 := cs_base s1 in
        if (3 <=? length states)%nat && (c0 =w L "n") && (c1 =w L "g") &&
           (cs_base s2 =w L "h") && negb (IsVowel s1) && negb (IsVowel s2)
        then 3%nat
        else if (2 <=? length states)%nat && negb (IsVowel s1) && negb (IsD s1) &&
                (is_pair c0 c1 (L "c") (L "h") || is_pair c0 c1 (L "g") (L "h") ||
                 is_pair c0 c1 (L "g") (L "i") || is_pair c0 c1 (L "k") (L "h") ||
                 is_pair c0 c1 (L "n") (L "g") || is_pair c0 c1 (L "n") (L "h") ||
                 is_pair c0 c1 (L "p") (L "h") || is_pair c0 c1 (L "q") (L "u") ||
                 is_pair c0 c1 (L "t") (L "h") || is_pair c0 c1 (L "t") (L "r"))
        then 2%nat
        else if (c0 =w L "b") || (c0 =w L "c") || (c0 =w L "d") || (c0 =w L "g") ||
                (c0 =w L "h") || (c0 =w L "k") || (c0 =w L "l") || (c0 =w L "m") ||
                (c0 =w L "n") || (c0 =w L "p") || (c0 =w L "q") || (c0 =w L "r") ||
                (c0 =w L "s") || (c0 =w L "t") || (c0 =w L "v") || (c0 =w L "x") ||
                (allowZwjf && ((c0 =w L "z") || (c0 =w L "j") || (c0 =w L "w") || (c0 =w L "f")))
        then 1%nat
        else 0%nat
  end.

Definition ParseFinalConsonant (states : list CharState) : nat :=
  match states with
  | [] => 0%nat
  | s0 :: _ =>
      let c0 := cs_base s0 in
      if IsVowel s0 then 0%nat
      else
        let s1 := states !!! 1%nat in
        let c1 := cs_base s1 in
        if (2 <=? length states)%nat && negb (IsVowel s1) &&
           (is_pair c0 c1 (L "c") (L "h") || is_pair c0 c1 (L "n") (L "g") ||
            is_pair c0 c1 (L "n") (L "h"))
        then 2%nat
        else if (c0 =w L "c") || (c0 =w L "k") || (c0 =w L "m") || (c0 =w L "n") ||
                (c0 =w L "p") || (c0 =w L "t")
        then 1%nat
        else 0%nat
  end.

Definition IsStopFinal (states : list CharState) (finalLen : nat) : bool :=
  if finalLen == 0%nat then false
  else
    let c0 := cs_base (states !!! 0%nat) in
    if (c0 =w L "p") || (c0 =w L "t") then true
    else if (c0 =w L "c") || (c0 =w L "k") then true
    else false.

Definition GetTone (states : list CharState) : Tone :=
  match List.find (fun s => cs_tone s != ToneNone) states with
  | Some s => cs_tone s
  | None => ToneNone
  end.

Definition ModOrdinal (m : Modifier) : Z :=
  let val := ModifierOrd m in
  if 3 <? val then 0 else val.

(** ** Nuclei that a later modifier key would complete *)

Definition BuildModifiedKey (bases mods : list Z) (vowelLen vi : nat) (tryMod : Z) : Z :=
  let slot i := VowelSlot (nth i bases 0) (if i == vi then tryMod else nth i mods 0) in
  if vowelLen == 1%nat then Key1 (slot 0%nat)
  else if vowelLen == 2%nat then Key2 (slot 0%nat) (slot 1%nat)
  else Key3 (slot 0%nat) (slot 1%nat) (slot 2%nat).

Definition TryModifiedVowels (vowelStates : list CharState) (vowelLen : nat)
    (pred : VowelEntry -> bool) : bool :=
  if ((vowelLen <? 1) || (3 <? vowelLen))%nat then false
  else
    let vs := take vowelLen vowelStates in
    let bases := map (fun s => BaseIndex (cs_base s)) vs in
    let mods := map (fun s => ModOrdinal (cs_mod s)) vs in
    if existsb (fun b => b =w 0xFF) bases then false
    else
      let try_key key := match FindVowel key with Some e => pred e | None => false end in
      if exists_upto (fun vi =>
           (nth vi mods 0 =w kNone) &&
           existsb (fun tryMod => try_key (BuildModifiedKey bases mods vowelLen vi tryMod))
             [1; 2; 3]) vowelLen
      then true
      else
        (vowelLen == 3%nat) && (nth 0 bases 0 =w kU) && (nth 1 bases 0 =w kO) &&
        (nth 0 mods 0 =w kNone) && (nth 1 mods 0 =w kNone) &&
        try_key (Key3 (VowelSlot (nth 0 bases 0) kHorn) (VowelSlot (nth 1 bases 0) kHorn)
                      (VowelSlot (nth 2 bases 0) (nth 2 mods 0))).

(** ** One decomposition: [initialLen] states of onset, then nucleus, then coda *)

(** The nucleus loop: how many vowels from the front. *)
Fixpoint VowelRun (states : list CharState) : nat :=
  match states with
  | s :: rest => if IsVowel s then S (VowelRun rest) else 0%nat
  | [] => 0%nat
  end.

(** The key of a nucleus of 1 to 3 vowels, [None] where the source returns Invalid. *)
Definition NucleusKey (vs : list CharState) (vowelLen : nat) : option Z :=
  let b i := BaseIndex (cs_base (vs !!! i)) in
  let m i := ModOrdinal (cs_mod (vs !!! i)) in
  if vowelLen == 1%nat then
    if b 0%nat =w 0xFF then None else Some (Key1 (VowelSlot (b 0%nat) (m 0%nat)))
  else if vowelLen == 2%nat then
    if (b 0%nat =w 0xFF) || (b 1%nat =w 0xFF) then None
    else Some (Key2 (VowelSlot (b 0%nat) (m 0%nat)) (VowelSlot (b 1%nat) (m 1%nat)))
  else if vowelLen == 3%nat then
    if (b 0%nat =w 0xFF) || (b 1%nat =w 0xFF) || (b 2%nat =w 0xFF) then None
    else Some (Key3 (VowelSlot (b 0%nat) (m 0%nat)) (VowelSlot (b 1%nat) (m 1%nat))
                    (VowelSlot (b 2%nat) (m 2%nat)))
  else None.

(** The tail of [ValidateDecomposition] once a coda of [finalLen] states has been
    parsed and nothing follows it: 'k' restriction, vowel and coda pair, stop tone. *)
Definition ValidateCoda (states nucleus coda : list CharState) (vowelLen finalLen : nat)
    (vowelKey : Z) : SyllableState :=
  let c0 := cs_base (coda !!! 0%nat) in
  if (finalLen == 1%nat) && (c0 =w L "k") &&
     negb ((vowelLen == 1%nat) && (cs_base (nucleus !!! 0%nat) =w L "a") &&
           (ModOrdinal (cs_mod (nucleus !!! 0%nat)) =w kBrev))
  then Invalid
  else
    let allowed := GetAllowedFinals vowelKey in
    let finalBit := FinalConsonantBit coda finalLen in
    if (allowed <>w 0) && (finalBit <>w 0) && (Z.land allowed finalBit =w 0) then
      let grown := if finalLen == 1%nat then
                     if c0 =w L "c" then F_ch
                     else if c0 =w L "n" then Z.lor F_ng F_nh else 0
                   else 0 in
      if (grown =w 0) || (Z.land allowed grown =w 0) then Invalid else ValidPrefix
    else
      let tone := GetTone states in
      if IsStopFinal coda finalLen && (tone != ToneNone) &&
         (ToneOrd tone <>w 1) && (ToneOrd tone <>w 5)
      then Invalid
      else Valid.

Definition ValidateDecomposition (states : list CharState) (initialLen : nat) : SyllableState :=
  if (length states - initialLen)%nat == 0%nat then ValidPrefix
  else
    let nucleus := drop initialLen states in
    let vowelLen := VowelRun nucleus in
    if vowelLen == 0%nat then Invalid
    else match NucleusKey nucleus vowelLen with
    | None => Invalid
    | Some vowelKey =>
        let coda := drop vowelLen nucleus in
        let remaining := length coda in
        match FindVowel vowelKey with
        | None =>
            if (vowelLen <=? 2)%nat && IsVowelPrefix vowelKey vowelLen &&
               (remaining == 0%nat)
            then ValidPrefix
            else if TryModifiedVowels nucleus vowelLen (fun e =>
                 if remaining == 0%nat then true
                 else if ve_canEnd e then ParseFinalConsonant coda == remaining
                 else false)
            then ValidPrefix
            else Invalid
        | Some entry =>
            if remaining == 0%nat then
              if ve_requiresEnd entry then ValidPrefix else Valid
            else if negb (ve_canEnd entry) then
              if TryModifiedVowels nucleus vowelLen (fun e =>
                   if negb (ve_canEnd e) then false
                   else ParseFinalConsonant coda == remaining)
              then ValidPrefix else Invalid
            else
              let finalLen := ParseFinalConsonant coda in
              if finalLen == 0%nat then Invalid
              else if (finalLen <? remaining)%nat then Invalid
              else ValidateCoda states nucleus coda vowelLen finalLen vowelKey
        end
    end.

Definition IsValidConsonantPrefix (states : list CharState) (allowZwjf : bool) : bool :=
  let count := length states in
  let s0 := states !!! 0%nat in
  let s1 := states !!! 1%nat in
  let s2 := states !!! 2%nat in
  let c0 := cs_base s0 in
  let c1 := cs_base s1 in
  if count == 0%nat then true
  else if (count == 1%nat) && negb (IsVowel s0) then
    if (c0 =w L "b") || (c0 =w L "c") || (c0 =w L "d") || (c0 =w L "g") ||
       (c0 =w L "h") || (c0 =w L "k") || (c0 =w L "l") || (c0 =w L "m") ||
       (c0 =w L "n") || (c0 =w L "p") || (c0 =w L "q") || (c0 =w L "r") ||
       (c0 =w L "s") || (c0 =w L "t") || (c0 =w L "v") || (c0 =w L "x") ||
       (allowZwjf && ((c0 =w L "z") || (c0 =w L "j") || (c0 =w L "w") || (c0 =w L "f")))
    then true
    else if IsD s0 && (cs_mod s0 != ModNone) then true
    else false
  else if (count == 2%nat) && negb (IsVowel s0) && negb (IsVowel s1) then
    is_pair c0 c1 (L "c") (L "h") || is_pair c0 c1 (L "g") (L "h") ||
    is_pair c0 c1 (L "k") (L "h") || is_pair c0 c1 (L "n") (L "g") ||
    is_pair c0 c1 (L "n") (L "h") || is_pair c0 c1 (L "p") (L "h") ||
    is_pair c0 c1 (L "t") (L "h") || is_pair c0 c1 (L "t") (L "r")
  else
    (count == 3%nat) && (c0 =w L "n") && (c1 =w L "g") && (cs_base s2 =w L "h") &&
    negb (IsVowel s0) && negb (IsVowel s1) && negb (IsVowel s2).

(** ** Onset and nucleus agreement: the checks of [ValidateImpl] that end in Invalid *)

Definition OnsetRejectsVowel (states : list CharState) (initialLen : nat) : bool :=
  let c0 := cs_base (states !!! 0%nat) in
  let c1 := cs_base (states !!! 1%nat) in
  let c2 := cs_base (states !!! 2%nat) in
  let firstVowel := cs_base (states !!! initialLen) in
  let isFrontVowel := IsFrontBaseVowel firstVowel in
  if initialLen == 1%nat then
    ((c0 =w L "k") && negb isFrontVowel) || ((c0 =w L "c") && isFrontVowel) ||
    ((c0 =w L "q") && (firstVowel <>w L "u"))
  else if initialLen == 2%nat then
    is_pair c0 c1 (L "g") (L "h") && negb isFrontVowel
  else if initialLen == 3%nat then
    (c0 =w L "n") && (c1 =w L "g") && (c2 =w L "h") && negb isFrontVowel
  else false.

Definition OnsetRejectsOeOa (states : list CharState) (initialLen : nat) : bool :=
  let v0 := states !!! initialLen in
  let v1 := states !!! S initialLen in
  let c0 := cs_base (states !!! 0%nat) in
  let c1 := cs_base (states !!! 1%nat) in
  if (S initialLen <? length states)%nat && (cs_base v0 =w L "o") && (cs_mod v0 == ModNone) then
    let isOeOrOa :=
      if (cs_base v1 =w L "e") && (cs_mod v1 == ModNone) then true
      else (cs_base v1 =w L "a") && (cs_mod v1 == Breve) in
    let allowed :=
      if initialLen == 0%nat then true
      else if initialLen == 1%nat then
        (c0 =w L "h") || (c0 =w L "l") || (c0 =w L "t") || (c0 =w L "x")
      else if initialLen == 2%nat then
        is_pair c0 c1 (L "c") (L "h") || is_pair c0 c1 (L "k") (L "h") ||
        is_pair c0 c1 (L "n") (L "g") || is_pair c0 c1 (L "n") (L "h") ||
        is_pair c0 c1 (L "t") (L "r")
      else false in
    isOeOrOa && negb allowed
  else false.

(** The gi and qu double readings, given the result of the plain reading. *)
Definition ResolveGiQu (states : list CharState) (result : SyllableState) : SyllableState :=
  let s0 := states !!! 0%nat in
  let s1 := states !!! 1%nat in
  let s2 := states !!! 2%nat in
  let count := length states in
  if (2 <=? count)%nat && (cs_base s0 =w L "g") && (cs_base s1 =w L "i") && IsVowel s1 then
    let r1 := ValidateDecomposition states 1 in
    if (2 <? count)%nat && IsVowel s2 then
      let r2 := ValidateDecomposition states 2 in
      if (r2 == Valid) || (r1 == Valid) then Valid
      else if (r2 == ValidPrefix) || (r1 == ValidPrefix) then ValidPrefix
      else result
    else if r1 == Valid then Valid
    else if (r1 == ValidPrefix) && (result != Valid) then ValidPrefix
    else result
  else if (2 <=? count)%nat && (cs_base s0 =w L "q") && (cs_base s1 =w L "u") then
    if (2 <? count)%nat && IsVowel s2 then
      let r2 := ValidateDecomposition states 2 in
      if r2 == Valid then Valid
      else if (r2 == ValidPrefix) && (result != Valid) then ValidPrefix
      else result
    else if count == 2%nat then ValidPrefix
    else result
  else result.

Definition ValidateImpl (states : list CharState) (allowZwjf : bool) : SyllableState :=
  let count := length states in
  if count == 0%nat then ValidPrefix
  else
    let s0 := states !!! 0%nat in
    let parsed := ParseInitialConsonant states allowZwjf in
    let stuck := (parsed == 0%nat) && negb (IsVowel s0) in
    if stuck && negb (IsD s0 && (cs_mod s0 == ModNone)) then Invalid
    else
      let initialLen := if stuck then 1%nat else parsed in
      if (0 <? initialLen)%nat && (initialLen == count) then
        if IsValidConsonantPrefix states allowZwjf then ValidPrefix else Invalid
      else if (0 <? initialLen)%nat && (initialLen <? count)%nat &&
              negb (IsVowel (states !!! initialLen)) then
        if IsValidConsonantPrefix states allowZwjf then ValidPrefix else Invalid
      else if (initialLen <? count)%nat && IsVowel (states !!! initialLen) &&
              (OnsetRejectsVowel states initialLen || OnsetRejectsOeOa states initialLen)
      then Invalid
      else ResolveGiQu states (ValidateDecomposition states initialLen).

(** ** The tone and modifier invariant *)

(** The loop of [CheckToneModInvariant]: any modifier seen, index of the tone,
    [None] once a second tone has been met. *)
Fixpoint ToneModScan (states : list CharState) (i : nat) (anyMod : bool)
    (toneIdx : option nat) : option (bool * option nat) :=
  match states with
  | [] => Some (anyMod, toneIdx)
  | s :: rest =>
      if negb (IsVowel s) then ToneModScan rest (S i) anyMod toneIdx
      else
        let anyMod := anyMod || HasModifier s in
        if HasTone s then
          match toneIdx with
          | Some _ => None
          | None => ToneModScan rest (S i) anyMod (Some i)
          end
        else ToneModScan rest (S i) anyMod toneIdx
  end.

Definition CheckToneModInvariant (states : list CharState) : bool :=
  match ToneModScan states 0 false None with
  | None => false
  | Some (anyMod, Some toneIdx) =>
      negb (anyMod && negb (HasModifier (states !!! toneIdx)))
  | Some (_, None) => true
  end.

Definition ValidateSyllableState (states : list CharState) (allowZwjf : bool) : SyllableState :=
  let r := ValidateImpl states allowZwjf in
  if (r != Invalid) && negb (CheckToneModInvariant states) then Invalid else r.
