(* ===== verification/TonePosition.v ===== *)
(** * Tone placement (src/src/core/engine/Phonotactics.cpp)

    [FindTonePosition] maps a rendered vowel nucleus and a coda to the index of
    the vowel that carries the tone mark. *)

From S2P Require Import Prelude Tables.
Open Scope Z_scope.

Inductive VowelMod := VMNone | VMCircumflex | VMBreve | VMHorn.
#[export] Instance VowelMod_eq_dec : EqDecision VowelMod.
Proof. solve_decision. Defined.

Record VowelInfo := mkVI { vi_base : wchar; vi_mod : VowelMod }.
#[export] Instance VowelInfo_inhabited : Inhabited VowelInfo := populate (mkVI 0 VMNone).

Definition Decompose (c : wchar) : VowelInfo :=
  if c =w L "a" then mkVI (L "a") VMNone
  else if c =w 0x103 then mkVI (L "a") VMBreve
  else if c =w 0xE2 then mkVI (L "a") VMCircumflex
  else if c =w L "e" then mkVI (L "e") VMNone
  else if c =w 0xEA then mkVI (L "e") VMCircumflex
  else if c =w L "i" then mkVI (L "i") VMNone
  else if c =w L "o" then mkVI (L "o") VMNone
  else if c =w 0xF4 then mkVI (L "o") VMCircumflex
  else if c =w 0x1A1 then mkVI (L "o") VMHorn
  else if c =w L "u" then mkVI (L "u") VMNone
  else if c =w 0x1B0 then mkVI (L "u") VMHorn
  else if c =w L "y" then mkVI (L "y") VMNone
  else mkVI 0 VMNone.

(** The fixed 16-entry array: the first 16 characters that decompose. *)
Definition CollectVowels (vowelSeq : wstring) : list VowelInfo :=
  take 16 (List.filter (fun vi => vi_base vi <>w 0) (map Decompose vowelSeq)).

Definition diphthong_rule (modernOrtho : bool) (i j : nat) : Z :=
  table_at (if modernOrtho then kDiphthongModern else kDiphthongClassic) i j.

(** The rules for nuclei with no modified vowel, [count >= 2]. *)
Definition FindPlainTonePosition (vowels : list VowelInfo) (codaEmpty modernOrtho : bool) : nat :=
  let count := length vowels in
  let b i := vi_base (vowels !!! i) in
  let unmarked i := vi_mod (vowels !!! i) == VMNone in
  if modernOrtho && (3 <=? count)%nat &&
     IsTriphthong (b (count - 3)%nat) (b (count - 2)%nat) (b (count - 1)%nat)
  then (count - 2)%nat
  else if (count == 3%nat) && unmarked 0%nat && unmarked 1%nat && unmarked 2%nat &&
          IsBareSmartTriphthongTail (b 0%nat) (b 1%nat) (b 2%nat)
  then (count - 1)%nat
  else
    let firstDiph := DiphthongVowelIndex (b (count - 2)%nat) in
    let lastDiph := DiphthongVowelIndex (b (count - 1)%nat) in
    (* the first two vowels of three, when they form a known diphthong *)
    let shift :=
      if (3 <=? count)%nat then
        match DiphthongVowelIndex (b (count - 3)%nat), firstDiph with
        | Some sf, Some fd => if diphthong_rule modernOrtho sf fd <>w 0 then Some (sf, fd) else None
        | _, _ => None
        end
      else None in
    let '(firstIdx, lastIdx, firstPos, lastPos, shifted) :=
      match shift with
      | Some (sf, fd) => (Some sf, Some fd, (count - 3)%nat, (count - 2)%nat, true)
      | None => (firstDiph, lastDiph, (count - 2)%nat, (count - 1)%nat, false)
      end in
    match firstIdx, lastIdx with
    | Some fi, Some li =>
        let rule := diphthong_rule modernOrtho fi li in
        let rule :=
          if rule =w 3 then
            if shifted && (b (count - 1)%nat =w b (count - 2)%nat) then 1
            else if (S lastPos <? count)%nat || negb codaEmpty then 2 else 1
          else rule in
        if rule =w 1 then firstPos
        else if rule =w 2 then lastPos
        else (count - 1)%nat
    | _, _ => (count - 1)%nat
    end.

Definition FindTonePosition (vowelSeq coda : wstring) (modernOrtho : bool) : option nat :=
  let vowels := CollectVowels vowelSeq in
  let count := length vowels in
  let md i := vi_mod (vowels !!! i) in
  if count == 0%nat then None
  else match find_bwd (fun i => md i == VMHorn) count with
  | Some i => Some i
  | None =>
      match find_fwd (fun i => (md i == VMCircumflex) || (md i == VMBreve)) count with
      | Some i => Some i
      | None =>
          if (2 <=? count)%nat
          then Some (FindPlainTonePosition vowels (length coda == 0%nat) modernOrtho)
          else Some (count - 1)%nat
      end
  end.
