(* ===== verification/English.v ===== *)
(** * English protection (src/src/core/engine/EnglishProtection.h)

    Pattern tests over the buffer and the bias state they update.  A template
    over [const CharStateT* states, size_t count] takes the list of the first
    [count] states. *)

From S2P Require Import Prelude Tables CharState.
Open Scope Z_scope.

Inductive LanguageBias := BiasUnknown | HardEnglish | SoftEnglish | BiasVietnamese.
#[export] Instance LanguageBias_eq_dec : EqDecision LanguageBias.
Proof. solve_decision. Defined.

Record EnglishProtectionState := mkEP {
  bias : LanguageBias; lastToneKey : wchar; sameToneKeyCount : Z
}.

Definition EP_reset : EnglishProtectionState := mkEP BiasUnknown 0 0.
Definition set_bias (b : LanguageBias) (p : EnglishProtectionState) : EnglishProtectionState :=
  mkEP b (lastToneKey p) (sameToneKeyCount p).

(** ** Tier 1: impossible clusters *)

Definition HardStarts : list (wchar * wchar) :=
  [(L "c", L "l"); (L "c", L "r"); (L "b", L "r"); (L "b", L "l"); (L "d", L "r");
   (L "f", L "r"); (L "f", L "l"); (L "g", L "r"); (L "g", L "l"); (L "p", L "r");
   (L "p", L "l"); (L "s", L "m"); (L "s", L "n"); (L "s", L "p"); (L "s", L "w");
   (L "s", L "t"); (L "s", L "c"); (L "s", L "k"); (L "s", L "l"); (L "w", L "h");
   (L "w", L "r"); (L "k", L "n"); (L "p", L "n"); (L "p", L "s")].

Definition IsHardEnglishStart (c0 c1 : wchar) : bool :=
  let c0 := towlower c0 in
  let c1 := towlower c1 in
  existsb (fun p => (c0 =w fst p) && (c1 =w snd p)) HardStarts.

Definition IsHardEnglishRawStart (raw : wstring) : bool :=
  if (length raw <? 2)%nat then false
  else IsHardEnglishStart (raw !!! 0%nat) (raw !!! 1%nat).

Definition IsHardEnglishEnd (c : wchar) : bool :=
  let c := towlower c in
  (c =w L "x") || (c =w L "r") || (c =w L "z") || (c =w L "f") || (c =w L "s") || (c =w L "j").

Definition IsQWithoutU (c0 c1 : wchar) : bool :=
  (towlower c0 =w L "q") && (towlower c1 <>w L "u").

(** ** Tier 2: y and a vowel *)

Definition IsValidVietnameseYSequence (states : list CharState) : bool :=
  let count := length states in
  if (count <? 2)%nat then false
  else if towlower (cs_base (states !!! 0%nat)) <>w L "y" then false
  else
    let s1 := states !!! 1%nat in
    if (cs_base s1 =w L "e") && HasModifier s1 then
      if count == 2%nat then true
      else
        let c2 := towlower (cs_base (states !!! 2%nat)) in
        (c2 =w L "u") || (c2 =w L "n") || (c2 =w L "m") || (c2 =w L "t")
    else false.

Definition CheckSoftEnglishBias (states : list CharState) : bool :=
  if (length states <? 2)%nat then false
  else if towlower (cs_base (states !!! 0%nat)) <>w L "y" then false
  else
    let s1 := states !!! 1%nat in
    let c1 := towlower (cs_base s1) in
    let isAmbiguous := IsVowel s1 && ((c1 =w L "a") || (c1 =w L "o") || (c1 =w L "e")) in
    isAmbiguous && negb (IsValidVietnameseYSequence states).

(** ** Tier 3: the same tone key twice *)

Definition UpdateToneInsistence (toneKey : wchar) (p : EnglishProtectionState)
    : EnglishProtectionState * bool :=
  let p' := if toneKey =w lastToneKey p
            then mkEP (bias p) (lastToneKey p) (sameToneKeyCount p + 1)
            else mkEP (bias p) toneKey 1 in
  (p', 2 <=? sameToneKeyCount p').

(** ** Structural V+C+V

    Leading states that satisfy [f], and the rest. *)
Fixpoint span (f : CharState -> bool) (l : list CharState) : list CharState * list CharState :=
  match l with
  | [] => ([], [])
  | s :: rest => if f s then let '(a, b) := span f rest in (s :: a, b) else ([], l)
  end.

Definition is_single_coda (c : wchar) : bool :=
  (c =w L "c") || (c =w L "k") || (c =w L "m") || (c =w L "n") || (c =w L "p") || (c =w L "t").

(** The exception of the scan: a modified vowel group, then one coda consonant. *)
Definition VCVException (vowels consonants : list CharState) : bool :=
  (length consonants == 1%nat) && existsb HasModifier vowels &&
  is_single_coda (cs_base (consonants !!! 0%nat)).

(** The while loop: each round consumes a vowel group and the consonants after
    it; [fuel] is the number of states, and every round consumes at least one. *)
Fixpoint VCVScan (fuel : nat) (states : list CharState) : bool :=
  match fuel with
  | O => false
  | S k =>
      match states with
      | [] => false
      | s :: rest =>
          if negb (IsVowel s) then VCVScan k rest
          else
            let '(vowels, after) := span IsVowel states in
            let '(consonants, tail) := span (fun s => negb (IsVowel s)) after in
            if (1 <=? length consonants)%nat && negb (length tail == 0%nat) &&
               negb (VCVException vowels consonants)
            then true
            else VCVScan k tail
      end
  end.

Definition HasStructuralVCVPattern (states : list CharState) : bool :=
  if (length states <? 4)%nat then false else VCVScan (length states) states.

Definition IsHardEnglishToneContext (states : list CharState) (toneKey : wchar) : bool :=
  if negb (IsHardEnglishEnd toneKey) then false else HasStructuralVCVPattern states.

(** ** Cluster consonants: the i of gi and the u of qu *)

Definition IsClusterConsonant (states : list CharState) (i : nat) : bool :=
  if i == 0%nat then false
  else
    let s := states !!! i in
    let prev := states !!! (i - 1)%nat in
    if (cs_base s =w L "i") && (cs_base prev =w L "g") &&
       (S i <? length states)%nat && IsVowel (states !!! S i) then true
    else if (cs_base s =w L "u") && (cs_base prev =w L "q") then true
    else false.

Definition HasInvalidAdjacentVowelPair (states : list CharState) : bool :=
  exists_upto (fun i =>
    let s := states !!! i in
    let s' := states !!! S i in
    if negb (IsVowel s) || negb (IsVowel s') then false
    else if HasModifier s || HasModifier s' then false
    else if IsClusterConsonant states i then false
    else match DiphthongVowelIndex (cs_base s), DiphthongVowelIndex (cs_base s') with
    | Some v0, Some v1 =>
        if (v0 == 2%nat) && (v1 == 1%nat) then false
        else if (v0 == 5%nat) && (v1 == 0%nat) then false
        else if (v0 == 5%nat) && (v1 == 1%nat) then false
        else if (v0 == 3%nat) && (v1 == 3%nat) then false
        else (table_at kDiphthongClassic v0 v1 =w 0) && (table_at kDiphthongModern v0 v1 =w 0)
    | _, _ => false
    end) (length states - 1).

(** ** Tier 1: impossible codas *)

Definition IsInvalidVietnameseCoda (states : list CharState) : bool :=
  let count := length states in
  if (count <? 3)%nat then false
  else
    let stop i := IsVowel (states !!! i) || (IsD (states !!! i) && (i == 0%nat)) in
    match find_bwd stop count with
    | None => false
    | Some i =>
        let codaLen := (count - S i)%nat in
        if (codaLen <? 2)%nat then false
        else if (3 <=? codaLen)%nat then true
        else
          let c1 := towlower (cs_base (states !!! (count - 2)%nat)) in
          let c2 := towlower (cs_base (states !!! (count - 1)%nat)) in
          let validDigraph := ((c1 =w L "c") && (c2 =w L "h")) ||
                              ((c1 =w L "n") && (c2 =w L "g")) ||
                              ((c1 =w L "n") && (c2 =w L "h")) in
          negb validDigraph
    end.

Definition HardStartCluster (states : list CharState) : bool :=
  let s0 := states !!! 0%nat in
  let s1 := states !!! 1%nat in
  (2 <=? length states)%nat && negb (IsVowel s0) && negb (IsVowel s1) && negb (IsD s0) &&
  (IsHardEnglishStart (cs_base s0) (cs_base s1) || IsQWithoutU (cs_base s0) (cs_base s1)).

Definition HardEndConsonant (states : list CharState) : bool :=
  let count := length states in
  let last := states !!! (count - 1)%nat in
  let prev := states !!! (count - 2)%nat in
  (3 <=? count)%nat && negb (IsVowel last) && negb (IsD last) &&
  IsVowel prev && IsHardEnglishEnd (cs_base last).

Definition CheckEnglishBias (states : list CharState) (p : EnglishProtectionState)
    : EnglishProtectionState :=
  if bias p == BiasVietnamese then p
  else if HardStartCluster states then set_bias HardEnglish p
  else if HardEndConsonant states then set_bias HardEnglish p
  else if IsInvalidVietnameseCoda states then set_bias HardEnglish p
  else if (bias p == BiasUnknown) && CheckSoftEnglishBias states then set_bias SoftEnglish p
  else p.

(** ** Raw prefixes of blocked English words *)

Definition kBlockedTonePrefixes : list wstring :=
  [[L "p"; L "a"; L "s"]; [L "g"; L "u"; L "e"; L "s"]; [L "p"; L "e"; L "r"]].
Definition kBlockedModifierPrefixes : list wstring :=
  [[L "p"; L "o"; L "w"]; [L "u"; L "p"; L "w"]].

Definition MatchesRawPrefix (raw : wstring) (rules : list wstring) : bool :=
  existsb (fun pat =>
    (length pat <=? length raw)%nat &&
    forallb (fun i => towlower (raw !!! i) =w (pat !!! i)) (seq 0 (length pat))) rules.

Definition IsBlockedEnglishTone (raw : wstring) : bool :=
  MatchesRawPrefix raw kBlockedTonePrefixes.
Definition IsBlockedEnglishModifier (raw : wstring) : bool :=
  MatchesRawPrefix raw kBlockedModifierPrefixes.
