(* ===== verification/Helpers.v ===== *)
(** * Engine helpers (src/src/core/engine/EngineHelpers.h)

    The template helpers of the engine, instantiated at [CharState] and
    [TypingEngine::Compose], the only instance the source uses. *)

From S2P Require Import Prelude Tables Config CharState Validator English.
Open Scope Z_scope.

(** ** Escape and quick-consonant state *)

Inductive EscapeKind :=
| EscNone | EscTone | EscCircumflex | EscHorn | EscBreve | EscStroke | EscModifier.
#[export] Instance EscapeKind_eq_dec : EqDecision EscapeKind.
Proof. solve_decision. Defined.

Definition isEscaped (k : EscapeKind) : bool := k != EscNone.

Record QuickConsonantState := mkQC {
  qc_resultIndex : option nat; qc_lastKey : wchar; qc_onlyQC : bool; qc_escaped : bool
}.

Definition QC_Reset : QuickConsonantState := mkQC None 0 false false.
Definition QC_clearActive (q : QuickConsonantState) : QuickConsonantState :=
  mkQC None 0 (qc_onlyQC q) (qc_escaped q).
Definition QC_markEscaped (q : QuickConsonantState) : QuickConsonantState :=
  QC_clearActive (mkQC (qc_resultIndex q) (qc_lastKey q) (qc_onlyQC q) true).
Definition QC_hasActive (q : QuickConsonantState) : bool := qc_resultIndex q != None.

(** ** Spell exclusions *)

(** The 16-entry stack buffer of lowercased rendered letters. *)
Definition kMaxBuf : nat := 16.
Definition ExclusionBuf (rendered : wstring) : wstring :=
  take kMaxBuf (map towlower (List.filter (fun ch => ch <>w 0) rendered)).

Definition IsSpellExcluded (states : list CharState) (exclusions : list wstring) : bool :=
  if (length exclusions == 0%nat) || (length states == 0%nat) then false
  else
    let buf := ExclusionBuf (map Compose states) in
    existsb (fun pat =>
      (2 <=? length pat)%nat && (length pat <=? length buf)%nat &&
      forallb (fun i => (pat !!! i) =w (buf !!! i)) (seq 0 (length pat))) exclusions.

Definition UpdateSpellCheck (states : list CharState) (cfg : TypingConfig) : bool :=
  if negb (spellCheckEnabled cfg) || (length states == 0%nat) then false
  else if IsSpellExcluded states (spellExclusions cfg) then false
  else ValidateSyllableState states (allowZwjf cfg) == Invalid.

Definition MatchExclusionBuf (cmp : wchar -> wchar -> bool) (buf : wstring)
    (exclusions : list wstring) : bool :=
  existsb (fun pat =>
    let cmpLen := Nat.min (length buf) (length pat) in
    (2 <=? length pat)%nat && negb (cmpLen == 0%nat) &&
    forallb (fun i => cmp (pat !!! i) (buf !!! i)) (seq 0 cmpLen)) exclusions.

Definition MatchExclusionBufIgnoreTone (buf : wstring) (exclusions : list wstring) : bool :=
  MatchExclusionBuf (fun a b => StripTone a =w StripTone b) buf exclusions.

Definition BuildExclusionBuf (states : list CharState) (overrideIdx : nat)
    (overrideChar : wchar) : wstring :=
  ExclusionBuf (imap (fun i s => if i == overrideIdx then overrideChar else Compose s) states).

(** ** Auto-restore at commit *)

Definition ShouldAutoRestore (raw composed : wstring) : bool :=
  if raw == composed then false
  else if existsb (fun ch => 0x7F <? ch) composed then true
  else (length raw <=? length composed)%nat.

Definition is_ascii_vowel (c : wchar) : bool :=
  (c =w L "a") || (c =w L "e") || (c =w L "i") || (c =w L "o") || (c =w L "u") || (c =w L "y").

Definition HasRawDD (raw : wstring) : bool :=
  exists_upto (fun i =>
    let ch := raw !!! i in
    let next := raw !!! S i in
    ((ch =w L "d") || (ch =w L "D")) &&
    ((next =w L "d") || (next =w L "D") || (next =w L "9"))) (length raw - 1).

Definition HasIntentionalStrokeD (raw composed : wstring) : bool :=
  if negb (HasRawDD raw) then false
  else
    match last_idx (fun i => ((composed !!! i) =w 0x111) || ((composed !!! i) =w 0x110))
            (length composed) with
    | None => false
    | Some lastStrokeD =>
        negb (existsb (fun ch => is_ascii_vowel (towlower ch)) (drop (S lastStrokeD) composed))
    end.

(** ** The uo and stroke-d helpers *)

Definition IsUOEdgeCasePrefix (states : list CharState) (uIdx : nat) : bool :=
  let c0 := towlower (cs_base (states !!! 0%nat)) in
  let c1 := towlower (cs_base (states !!! 1%nat)) in
  if (uIdx == 1%nat) && (c0 =w L "h") then true
  else if uIdx == 2%nat then
    (c1 =w L "h") && ((c0 =w L "t") || (c0 =w L "k"))
  else false.

Definition UndoHornU (states : list CharState) (oIndex : nat) : list CharState :=
  let o := states !!! oIndex in
  let u := states !!! (oIndex - 1)%nat in
  if (0 <? oIndex)%nat && (cs_base o =w L "o") && HasModifier o &&
     (cs_base u =w L "u") && HasModifier u
  then alter (set_mod ModNone) (oIndex - 1)%nat states
  else states.

(** The replay over every prefix of length 2 to [count]. *)
Definition RecalcEnglishBias (states : list CharState) : EnglishProtectionState :=
  fold_left (fun p len => CheckEnglishBias (take len states) p)
    (seq 2 (length states - 1)) EP_reset.

Definition CheckZwjfInitialBias (states : list CharState) (cfg : TypingConfig)
    (p : EnglishProtectionState) : EnglishProtectionState :=
  if allowZwjf cfg || negb (spellCheckEnabled cfg) || (length states == 0%nat) then p
  else if bias p == BiasVietnamese then p
  else if IsVowel (states !!! 0%nat) then p
  else
    let initialChar := cs_base (states !!! 0%nat) in
    if (initialChar =w L "w") || (initialChar =w L "z") ||
       (initialChar =w L "j") || (initialChar =w L "f")
    then set_bias HardEnglish p else p.

(** The start of the contiguous run of d ending at [i]. *)
Fixpoint DClusterStart (states : list CharState) (i : nat) : nat :=
  match i with
  | O => O
  | S k => if IsD (states !!! k) then DClusterStart states k else i
  end.

Definition FindStrokeDTarget (states : list CharState) : option nat :=
  match find_bwd (fun i => IsD (states !!! i)) (length states) with
  | None => None
  | Some dIdx =>
      if (0 <? dIdx)%nat then
        let checkIdx := DClusterStart states dIdx in
        if (0 <? checkIdx)%nat && IsVowel (states !!! (checkIdx - 1)%nat) then None
        else Some dIdx
      else Some dIdx
  end.

Definition HasVowelState (states : list CharState) : bool := existsb IsVowel states.

Definition IsStrokeDBlockedByCoda (states : list CharState) (dTarget : nat) : bool :=
  let isSimpleOnsetVowelCoda :=
    (dTarget == 0%nat) && (1 <? length states)%nat && IsVowel (states !!! 1%nat) in
  if isSimpleOnsetVowelCoda then false
  else
    let codaLen :=
      match find_bwd (fun j => IsVowel (states !!! j) || IsD (states !!! j)) (length states) with
      | Some j => (length states - S j)%nat
      | None => length states
      end in
    (1 <=? codaLen)%nat.

Definition ShouldBlockStrokeDAsEnglish (states : list CharState) (dTarget : nat) : bool :=
  if IsStrokeDBlockedByCoda states dTarget then true
  else (dTarget == 0%nat) && HasStructuralVCVPattern states.

Definition IsStrokeDEscapeAllowed (count dIdx : nat) : bool :=
  if (0 <? count)%nat && (dIdx == (count - 1)%nat) then true
  else (dIdx == 0%nat) && (2 <=? count)%nat.

(** ** Would a key produce an excluded word? *)

Definition WouldStrokeDMatchExclusion (states : list CharState) (exclusions : list wstring) : bool :=
  if (length exclusions == 0%nat) || (length states == 0%nat) then false
  else match FindStrokeDTarget states with
  | None => false
  | Some dIdx => MatchExclusionBuf Z.eqb (BuildExclusionBuf states dIdx 0x111) exclusions
  end.

Definition WouldToneMatchExclusion (states : list CharState) (exclusions : list wstring)
    (toneIdx : nat) (tonedChar : wchar) : bool :=
  if (length exclusions == 0%nat) || (length states == 0%nat) || (length states <=? toneIdx)%nat
  then false
  else MatchExclusionBuf Z.eqb (BuildExclusionBuf states toneIdx tonedChar) exclusions.

Definition WouldModifierMatchExclusion (states : list CharState) (exclusions : list wstring)
    (targetIdx : nat) (m : Modifier) : bool :=
  if (length exclusions == 0%nat) || (length states == 0%nat) || (length states <=? targetIdx)%nat
  then false
  else
    let modChar := Compose (set_mod m (states !!! targetIdx)) in
    MatchExclusionBufIgnoreTone (BuildExclusionBuf states targetIdx modChar) exclusions.

Definition WouldAnyModifierMatchExclusion (states : list CharState) (exclusions : list wstring)
    (m : Modifier) (eligibleBases : wstring) : bool :=
  if (length exclusions == 0%nat) || (length states == 0%nat) then false
  else exists_upto (fun i =>
    let s := states !!! i in
    if negb (IsVowel s) || (cs_mod s != ModNone) then false
    else if negb (existsb (fun b => cs_base s =w b) eligibleBases) then false
    else WouldModifierMatchExclusion states exclusions i m) (length states).

(** ** Codas, modifiers and tones in the buffer *)

(** The backward loop of [HasStopFinalCoda]: index just past the last vowel. *)
Definition CodaStart (states : list CharState) : nat :=
  match find_bwd (fun i => IsVowel (states !!! i)) (length states) with
  | Some i => S i
  | None => 0%nat
  end.

Definition HasStopFinalCoda (states : list CharState) : bool :=
  if (length states <? 2)%nat then false
  else
    let codaStart := CodaStart states in
    let codaLen := (length states - codaStart)%nat in
    if codaStart == 0%nat then false
    else if codaLen == 1%nat then
      let c := towlower (cs_base (states !!! codaStart)) in
      (c =w L "c") || (c =w L "k") || (c =w L "p") || (c =w L "t")
    else if codaLen == 2%nat then
      (towlower (cs_base (states !!! codaStart)) =w L "c") &&
      (towlower (cs_base (states !!! S codaStart)) =w L "h")
    else false.

Definition HasEscapableModifier (states : list CharState) (m : Modifier) (isStroke : bool) : bool :=
  existsb (fun s => (if isStroke then IsD s else IsVowel s) && (cs_mod s == m)) states.

Definition FindTonedVowelIndex (states : list CharState) : option nat :=
  find_fwd (fun i => IsVowel (states !!! i) && HasTone (states !!! i)) (length states).

Definition HasConsonantBetween (states : list CharState) (fromIdx toIdx : nat) : bool :=
  let '(lo, hi) := if (toIdx <? fromIdx)%nat then (toIdx, fromIdx) else (fromIdx, toIdx) in
  existsb (fun i => negb (IsVowel (states !!! i))) (seq (S lo) (hi - S lo)).

(** A vowel of the nucleus: not the i of gi, not the u of qu. *)
Definition IsNucleusVowel (states : list CharState) (i : nat) : bool :=
  IsVowel (states !!! i) && negb (IsClusterConsonant states i).

Definition IsToneRelocBlockedByP4 (states : list CharState) (targetIdx : nat)
    (modern : bool) : bool :=
  if HasModifier (states !!! targetIdx) then false
  else
    match find_bwd (IsNucleusVowel states) (length states) with
    | None => false
    | Some vLast =>
        match find_bwd (IsNucleusVowel states) vLast with
        | None => false
        | Some v2nd =>
            if (targetIdx != vLast) || (vLast != S v2nd) then false
            else match DiphthongVowelIndex (cs_base (states !!! v2nd)),
                       DiphthongVowelIndex (cs_base (states !!! vLast)) with
            | Some fi, Some li =>
                table_at (if modern then kDiphthongModern else kDiphthongClassic) fi li =w 0
            | _, _ => false
            end
        end
    end.
