(* ===== verification/Engine.v ===== *)
(** * The engine state and its primitives
    (src/src/core/engine/TypingEngine.h, TypingEngine.cpp)

    [Engine] is the object's mutable state; a method is a function from it.
    Methods that only touch [states_] are functions on the list of states. *)

From S2P Require Import Prelude Tables Action Config CharState Validator.
From S2P Require Import TonePosition English Helpers.
Open Scope Z_scope.

(** [kVowelCap]: the size of every stack snapshot of a syllable. *)
Definition kVowelCap : nat := 16.

Record Engine := mkEngine {
  states : list CharState;
  rawInput : wstring;
  escRawHistory : wstring;
  config : TypingConfig;
  spellCheckDisabled : bool;
  qc : QuickConsonantState;
  escape : EscapeKind;
  activeKeyUppercase : bool;
  quickStartKey : wchar;
  engProt : EnglishProtectionState
}.

Definition set_states (l : list CharState) (e : Engine) : Engine :=
  mkEngine l (rawInput e) (escRawHistory e) (config e) (spellCheckDisabled e) (qc e)
    (escape e) (activeKeyUppercase e) (quickStartKey e) (engProt e).
Definition set_rawInput (r : wstring) (e : Engine) : Engine :=
  mkEngine (states e) r (escRawHistory e) (config e) (spellCheckDisabled e) (qc e)
    (escape e) (activeKeyUppercase e) (quickStartKey e) (engProt e).
Definition set_escRawHistory (r : wstring) (e : Engine) : Engine :=
  mkEngine (states e) (rawInput e) r (config e) (spellCheckDisabled e) (qc e)
    (escape e) (activeKeyUppercase e) (quickStartKey e) (engProt e).
Definition set_spellCheckDisabled (b : bool) (e : Engine) : Engine :=
  mkEngine (states e) (rawInput e) (escRawHistory e) (config e) b (qc e)
    (escape e) (activeKeyUppercase e) (quickStartKey e) (engProt e).
Definition set_qc (q : QuickConsonantState) (e : Engine) : Engine :=
  mkEngine (states e) (rawInput e) (escRawHistory e) (config e) (spellCheckDisabled e) q
    (escape e) (activeKeyUppercase e) (quickStartKey e) (engProt e).
Definition set_escape (k : EscapeKind) (e : Engine) : Engine :=
  mkEngine (states e) (rawInput e) (escRawHistory e) (config e) (spellCheckDisabled e) (qc e)
    k (activeKeyUppercase e) (quickStartKey e) (engProt e).
Definition set_activeKeyUppercase (b : bool) (e : Engine) : Engine :=
  mkEngine (states e) (rawInput e) (escRawHistory e) (config e) (spellCheckDisabled e) (qc e)
    (escape e) b (quickStartKey e) (engProt e).
Definition set_quickStartKey (c : wchar) (e : Engine) : Engine :=
  mkEngine (states e) (rawInput e) (escRawHistory e) (config e) (spellCheckDisabled e) (qc e)
    (escape e) (activeKeyUppercase e) c (engProt e).
Definition set_engProt (p : EnglishProtectionState) (e : Engine) : Engine :=
  mkEngine (states e) (rawInput e) (escRawHistory e) (config e) (spellCheckDisabled e) (qc e)
    (escape e) (activeKeyUppercase e) (quickStartKey e) p.
Definition set_engBias (b : LanguageBias) (e : Engine) : Engine :=
  set_engProt (set_bias b (engProt e)) e.

Definition back (l : list CharState) : CharState := l !!! (length l - 1)%nat.
Definition pop_back {A} (l : list A) : list A := take (length l - 1) l.

(** ** Mode helpers *)

Definition IsTelexMode (cfg : TypingConfig) : bool :=
  (inputMethod cfg != VNI) && (inputMethod cfg != UserDefined).
Definition IsVniMode (cfg : TypingConfig) : bool :=
  (inputMethod cfg == VNI) || (inputMethod cfg == Combined).

(** ** Tone target *)

(** A nucleus vowel as [FindTonePosition] sees it: lowercase, toneless. *)
Definition canonical (s : CharState) : CharState := set_isUpper false (set_tone ToneNone s).

Definition NucleusVowels (l : list CharState) : list (nat * wchar) :=
  take kVowelCap
    (List.filter (fun p => snd p <>w 0)
      (map (fun i => (i, Compose (canonical (l !!! i))))
        (List.filter (IsNucleusVowel l) (seq 0 (length l))))).

Definition CodaLetters (l : list CharState) (lastVowelStateIdx : nat) : wstring :=
  take kVowelCap
    (List.filter (fun ch => ch <>w 0)
      (map (fun s => Compose (set_isUpper false s)) (drop (S lastVowelStateIdx) l))).

Definition FindToneTarget (modern : bool) (l : list CharState) : option nat :=
  let vs := NucleusVowels l in
  match list.last vs with
  | None => None
  | Some (lastVowelStateIdx, _) =>
      match FindTonePosition (map snd vs) (CodaLetters l lastVowelStateIdx) modern with
      | None => None
      | Some vowelIdx =>
          if (length vs <=? vowelIdx)%nat then None else Some (fst (vs !!! vowelIdx))
      end
  end.

Definition IsToneStopCodaMismatch (l : list CharState) : bool :=
  if negb (HasStopFinalCoda l) then false
  else match List.find HasTone l with
  | Some s => (cs_tone s == Grave) || (cs_tone s == Hook) || (cs_tone s == Tilde)
  | None => false
  end.

(** ** Tone relocation *)

Definition RelocateToneToTarget (modern : bool) (l : list CharState) : list CharState :=
  match FindTonedVowelIndex l with
  | None => l
  | Some tonedIdx =>
      match FindToneTarget modern l with
      | None => l
      | Some targetIdx =>
          if targetIdx == tonedIdx then l
          else if HasConsonantBetween l tonedIdx targetIdx then l
          else if IsToneRelocBlockedByP4 l targetIdx modern then l
          else
            let toned := l !!! tonedIdx in
            let l := alter (set_tone (cs_tone toned)) targetIdx l in
            let l := alter (set_toneRawIdx (cs_toneRawIdx toned)) targetIdx l in
            let l := alter (set_tone ToneNone) tonedIdx l in
            alter (set_toneRawIdx None) tonedIdx l
      end
  end.

Definition RelocateToneToHornVowel (l : list CharState) : list CharState :=
  let hornIdx := last_idx (fun i => IsVowel (l !!! i) && (cs_mod (l !!! i) == Horn)) (length l) in
  let tonedIdx := last_idx (fun i => IsVowel (l !!! i) && HasTone (l !!! i)) (length l) in
  match hornIdx, tonedIdx with
  | Some h, Some t =>
      if (h != t) && ((cs_mod (l !!! t) == ModNone) || (cs_mod (l !!! t) == Horn)) &&
         negb (HasConsonantBetween l t h)
      then
        let l' := alter (set_tone (cs_tone (l !!! t))) h l in
        alter (set_tone ToneNone) t l'
      else l
  | _, _ => l
  end.

(** ** Auto ươ *)

Definition AutoUOStep (modern : bool) (l : list CharState) (i : nat) : list CharState :=
  if (0 <? i)%nat && (cs_base (l !!! i) =w L "u") && (cs_base (l !!! (i - 1)%nat) =w L "q")
  then l
  else
    let l := if (cs_base (l !!! i) =w L "u") && (cs_mod (l !!! i) == ModNone) &&
                (cs_base (l !!! S i) =w L "o") && (cs_mod (l !!! S i) == Horn)
             then alter (set_mod Horn) i l else l in
    if (cs_base (l !!! i) =w L "u") && (cs_mod (l !!! i) == Horn) &&
       (cs_base (l !!! S i) =w L "o") && (cs_mod (l !!! S i) == ModNone)
    then RelocateToneToTarget modern (alter (set_mod Horn) (S i) l)
    else l.

Definition ApplyAutoUO (modern : bool) (l : list CharState) : list CharState :=
  let n := length l in
  if (n <? 3)%nat then l
  else
    let start := if (4 <? n)%nat then (n - 4)%nat else 0%nat in
    fold_left (AutoUOStep modern) (seq start (n - 2 - start)) l.

(** ** Speculation: would a modifier leave a plausible syllable?

    The methods mutate [states_], validate, and write the saved fields back;
    the first component is what [states_] holds on return. *)

Definition SetVowelMod (l : list CharState) (idx : nat) (m : Modifier) : list CharState :=
  let l := alter (set_mod m) idx l in
  if m == Circumflex then UndoHornU l idx else l.

Definition WouldModifierKeyMatchExclusion (cfg : TypingConfig) (l : list CharState)
    (lower : wchar) : bool :=
  let ex := spellExclusions cfg in
  if lower =w L "d" then WouldStrokeDMatchExclusion l ex
  else if lower =w L "w" then
    WouldAnyModifierMatchExclusion l ex Horn [L "u"; L "o"] ||
    WouldAnyModifierMatchExclusion l ex Breve [L "a"]
  else if (lower =w L "a") || (lower =w L "e") || (lower =w L "o") then
    WouldAnyModifierMatchExclusion l ex Circumflex [L "a"; L "e"; L "o"]
  else if lower =w L "6" then
    WouldAnyModifierMatchExclusion l ex Circumflex [L "a"; L "e"; L "o"]
  else if lower =w L "7" then WouldAnyModifierMatchExclusion l ex Horn [L "u"; L "o"]
  else if lower =w L "8" then WouldAnyModifierMatchExclusion l ex Breve [L "a"]
  else if lower =w L "9" then WouldStrokeDMatchExclusion l ex
  else false.

Definition clear_circumflex (idx : option nat) (l : list CharState) : list CharState * bool :=
  match idx with
  | Some i => if (i <? length l)%nat && (cs_mod (l !!! i) == Circumflex)
              then (alter (set_mod ModNone) i l, true) else (l, false)
  | None => (l, false)
  end.

Definition verdict (cfg : TypingConfig) (l : list CharState) : bool :=
  let result := ValidateSyllableState l (allowZwjf cfg) in
  let recoverableMismatch := (result == Invalid) && IsToneStopCodaMismatch l in
  (result != Invalid) || recoverableMismatch.

Definition WouldBeValidSyllable_run (cfg : TypingConfig) (l : list CharState)
    (targetIdx : nat) (newMod : Modifier) (clearCircumflexIdx : option nat)
    (speculateRelocateTone : bool) : list CharState * bool :=
  if negb (spellCheckEnabled cfg) then (l, true)
  else if (length l <=? targetIdx)%nat then (l, true)
  else if speculateRelocateTone then
    if (kVowelCap <? length l)%nat then (l, true)
    else
      let saved := l in
      let l1 := SetVowelMod l targetIdx newMod in
      let l2 := match clearCircumflexIdx with
                | Some i => if (i <? length l)%nat && (cs_mod (saved !!! i) == Circumflex)
                            then alter (set_mod ModNone) i l1 else l1
                | None => l1
                end in
      let l3 := RelocateToneToTarget (modernOrtho cfg) l2 in
      (* copy_n(saved, bufferLen, states_) *)
      (saved ++ drop (length l) l3, verdict cfg l3)
  else
    let saved := cs_mod (l !!! targetIdx) in
    let savedCompanion := if (0 <? targetIdx)%nat then cs_mod (l !!! (targetIdx - 1)%nat)
                          else ModNone in
    let l1 := SetVowelMod l targetIdx newMod in
    let '(l2, didClear) := clear_circumflex clearCircumflexIdx l1 in
    let ok := verdict cfg l2 in
    let l3 := if didClear then
                match clearCircumflexIdx with
                | Some i => alter (set_mod Circumflex) i l2
                | None => l2
                end
              else l2 in
    let l4 := alter (set_mod saved) targetIdx l3 in
    let l5 := if (0 <? targetIdx)%nat then alter (set_mod savedCompanion) (targetIdx - 1)%nat l4
              else l4 in
    (l5, ok).

(** What a caller reads; that [states_] is untouched is a theorem below. *)
Definition WouldBeValidSyllable (cfg : TypingConfig) (l : list CharState)
    (targetIdx : nat) (newMod : Modifier) (clearCircumflexIdx : option nat)
    (speculateRelocateTone : bool) : bool :=
  snd (WouldBeValidSyllable_run cfg l targetIdx newMod clearCircumflexIdx speculateRelocateTone).

Definition ShouldRejectModifier (cfg : TypingConfig) (l : list CharState) (targetIdx : nat)
    (newMod : Modifier) (key : wchar) : bool :=
  if negb (spellCheckEnabled cfg) then false
  else negb (WouldBeValidSyllable cfg l targetIdx newMod None false) &&
       negb (WouldModifierKeyMatchExclusion cfg l key).

(** ** Buffer scans used by the modifier handlers *)

Definition HasNonClusterVowel (l : list CharState) : bool :=
  exists_upto (fun i =>
    IsVowel (l !!! i) &&
    negb ((cs_base (l !!! i) =w L "i") && (0 <? i)%nat &&
          (cs_base (l !!! (i - 1)%nat) =w L "g"))) (length l).

Definition IsInQUCluster (l : list CharState) : bool :=
  exists_upto (fun i =>
    (cs_base (l !!! i) =w L "q") && (cs_base (l !!! S i) =w L "u") &&
    (cs_mod (l !!! S i) == ModNone)) (length l - 1).

Section Methods.
Context {P : Platform}.

(** ** Appending and restoring characters *)

Definition raw_last_idx (e : Engine) : nat :=
  match rawInput e with [] => 0%nat | _ => (length (rawInput e) - 1)%nat end.

Definition ProcessChar (lower : wchar) (isUpper : bool) (e : Engine) : Engine :=
  set_states (states e ++
    [mkCS lower ModNone ToneNone isUpper false (raw_last_idx e) None]) e.

Definition ProcessChar1 (keyChar : wchar) (e : Engine) : Engine :=
  ProcessChar (towlower keyChar) (iswupper keyChar) e.

Definition UpdateSpellState (e : Engine) : Engine :=
  set_spellCheckDisabled (UpdateSpellCheck (states e) (config e)) e.

Definition shift_index (idx i : nat) : nat := if (idx <? i)%nat then (i - 1)%nat else i.

Definition EraseConsumedRaw (idx : nat) (e : Engine) : Engine :=
  if (length (rawInput e) <=? idx)%nat then e
  else
    let e := set_rawInput (delete idx (rawInput e)) e in
    set_states (map (fun s =>
      set_toneRawIdx (option_map (shift_index idx) (cs_toneRawIdx s))
        (set_rawIdx (shift_index idx (cs_rawIdx s)) s)) (states e)) e.

Definition raw_back (e : Engine) : wchar := rawInput e !!! (length (rawInput e) - 1)%nat.

Definition RestoreConsumedKeyInPlace (consumedRawIdx : option nat) (escapeKey : wchar)
    (e : Engine) : Engine :=
  let in_range := match consumedRawIdx with
                  | Some i => (i <? length (rawInput e))%nat
                  | None => false end in
  match consumedRawIdx with
  | Some consumed =>
      if negb in_range || (length (rawInput e) == 0%nat) ||
         (towlower (raw_back e) <>w towlower escapeKey)
      then ProcessChar1 escapeKey (if in_range then EraseConsumedRaw consumed e else e)
      else
        let e := EraseConsumedRaw (length (rawInput e) - 1) e in
        let e := set_rawInput (<[consumed := escapeKey]> (rawInput e)) e in
        let s := mkCS (towlower escapeKey) ModNone ToneNone (iswupper escapeKey) false
                   consumed None in
        let at_ := match find_fwd (fun i => (consumed <? cs_rawIdx (states e !!! i))%nat)
                           (length (states e)) with
                   | Some i => i | None => length (states e) end in
        set_states (take at_ (states e) ++ [s] ++ drop at_ (states e)) e
  | None => ProcessChar1 escapeKey e
  end.

(** ** Provisional oo tones *)

Definition RevertProvisionalOoTone (lower : wchar) (e : Engine) : Engine * bool :=
  let l := states e in
  let count := length l in
  let firstO := l !!! (count - 2)%nat in
  let secondO := l !!! (count - 1)%nat in
  if (count <? 2)%nat then (e, false)
  else if (cs_base firstO <>w L "o") || (cs_base secondO <>w L "o") then (e, false)
  else if (cs_mod firstO != ModNone) || (cs_mod secondO != ModNone) then (e, false)
  else if negb (HasTone secondO) || HasTone firstO then (e, false)
  else if (lower =w L "c") || (lower =w L "n") then (e, false)
  else
    let consumedRawIdx := cs_toneRawIdx secondO in
    let toneKey := match consumedRawIdx with
                   | Some i => if (i <? length (rawInput e))%nat then rawInput e !!! i else 0
                   | None => 0 end in
    let l := alter (set_toneRawIdx None) (count - 1)%nat
               (alter (set_tone ToneNone) (count - 1)%nat l) in
    let l := if toneKey <>w 0 then
               l ++ [mkCS (towlower toneKey) ModNone ToneNone (iswupper toneKey) false
                       (default 0%nat consumedRawIdx) None]
             else l in
    let e := set_states l e in
    if (toneKey <>w 0) && (towlower toneKey =w lower)
    then (set_escape EscTone e, true)
    else (e, false).

(** ** Applying and clearing a tone *)

Definition ToneMatchesExclusion (cfg : TypingConfig) (l : list CharState)
    (targetIdx : option nat) (requestedTone : Tone) : bool :=
  match targetIdx with
  | Some t =>
      if length (spellExclusions cfg) == 0%nat then false
      else
        let tonedCh := Compose (set_tone requestedTone (l !!! t)) in
        WouldToneMatchExclusion l (spellExclusions cfg) t tonedCh
  | None => false
  end.

Definition ProcessTone (newTone : Tone) (keyChar : wchar) (cachedTarget : option nat)
    (e : Engine) : Engine * bool :=
  if newTone == ToneNone then (e, false)
  else
    let targetIdx := match cachedTarget with
                     | Some t => Some t
                     | None => FindToneTarget (modernOrtho (config e)) (states e) end in
    match targetIdx with
    | None => (e, false)
    | Some t =>
        let target := states e !!! t in
        if cs_tone target == newTone then
          let consumedRawIdx := cs_toneRawIdx target in
          let e := set_states (alter (set_toneRawIdx None) t
                                 (alter (set_tone ToneNone) t (states e))) e in
          let e := RestoreConsumedKeyInPlace consumedRawIdx keyChar e in
          (set_escape EscTone e, true)
        else
          let e := set_states (alter (set_toneRawIdx (Some (length (rawInput e) - 1)%nat)) t
                                 (alter (set_tone newTone) t (states e))) e in
          (set_escape EscNone e, true)
    end.

Definition ProcessClearTone (e : Engine) : Engine * bool :=
  match FindToneTarget (modernOrtho (config e)) (states e) with
  | None => (e, false)
  | Some t =>
      if cs_tone (states e !!! t) == ToneNone then (e, false)
      else (set_states (alter (set_toneRawIdx None) t
                          (alter (set_tone ToneNone) t (states e))) e, true)
  end.

End Methods.
