(* ===== verification/Modifiers.v ===== *)
(** * The modifier handlers (src/src/core/engine/TypingEngine.cpp)

    One definition per handler; the long ones are split at the source's own
    section comments.  A piece that may fall through to the next returns
    [option]: [Some (e, b)] is the source's [return b], [None] is fall-through. *)

From S2P Require Import Prelude Tables Action Config CharState Validator.
From S2P Require Import TonePosition English Helpers Engine.
Open Scope Z_scope.

Section Modifiers.
Context {P : Platform}.

Definition alter_mod (m : Modifier) (i : nat) (e : Engine) : Engine :=
  set_states (alter (set_mod m) i (states e)) e.
Definition relocate_target (e : Engine) : Engine :=
  set_states (RelocateToneToTarget (modernOrtho (config e)) (states e)) e.
Definition relocate_horn (e : Engine) : Engine :=
  set_states (RelocateToneToHornVowel (states e)) e.

(** [ProcessChar(c); escape_.escape(k); return true]. *)
Definition literal_escape (c : wchar) (k : EscapeKind) (e : Engine) : Engine * bool :=
  (set_escape k (ProcessChar1 c e), true).

Definition push_state (base : wchar) (m : Modifier) (upper synthetic : bool) (e : Engine) : Engine :=
  set_states (states e ++ [mkCS base m ToneNone upper synthetic (raw_last_idx e) None]) e.

(** The doubled-key test shared by the insert handlers. *)
Definition doubled_key (c : wchar) (e : Engine) : bool :=
  negb (length (states e) == 0%nat) && (2 <=? length (rawInput e))%nat &&
  (towlower (rawInput e !!! (length (rawInput e) - 2)%nat) =w towlower c).

(** Undo the last inserted glyph and emit the key. *)
Definition undo_insert (c : wchar) (k : EscapeKind) (e : Engine) : Engine * bool :=
  let consumedIdx := cs_rawIdx (back (states e)) in
  let e := set_states (pop_back (states e)) e in
  let e := EraseConsumedRaw consumedIdx e in
  literal_escape c k e.

(** ** HornInsert: the Telex bracket keys *)

Definition HandleHornInsert (action : TypingAction) (c : wchar) (e : Engine) : Engine * bool :=
  if inputMethod (config e) == SimpleTelex then (e, false)
  else
    let baseVowel := if action == HornInsertO then L "o" else L "u" in
    let last := back (states e) in
    if doubled_key c e && (cs_base last =w baseVowel) && (cs_mod last == Horn)
    then undo_insert c EscHorn e
    else (push_state baseVowel Horn (activeKeyUppercase e) false e, true).

(** ** Direct insertion of a letter *)

Definition InsertCharTarget (action : TypingAction) : option (wchar * Modifier * bool) :=
  match action with
  | InsertABreve => Some (L "a", Breve, false)
  | InsertABreveUpper => Some (L "a", Breve, true)
  | InsertACircumflex => Some (L "a", Circumflex, false)
  | InsertACircumflexUpper => Some (L "a", Circumflex, true)
  | InsertDStroke => Some (L "d", Stroke, false)
  | InsertDStrokeUpper => Some (L "d", Stroke, true)
  | InsertECircumflex => Some (L "e", Circumflex, false)
  | InsertECircumflexUpper => Some (L "e", Circumflex, true)
  | InsertOCircumflex => Some (L "o", Circumflex, false)
  | InsertOCircumflexUpper => Some (L "o", Circumflex, true)
  | InsertOHorn => Some (L "o", Horn, false)
  | InsertOHornUpper => Some (L "o", Horn, true)
  | InsertUHorn => Some (L "u", Horn, false)
  | InsertUHornUpper => Some (L "u", Horn, true)
  | _ => None
  end.

Definition insert_escape_kind (m : Modifier) : EscapeKind :=
  match m with
  | Horn => EscHorn
  | Circumflex => EscCircumflex
  | Breve => EscBreve
  | Stroke => EscStroke
  | ModNone => EscModifier
  end.

Definition HandleInsertChar (action : TypingAction) (keyChar : wchar) (e : Engine)
    : Engine * bool :=
  match InsertCharTarget action with
  | None => (e, false)
  | Some (base, m, upper) =>
      let last := back (states e) in
      if doubled_key keyChar e && (cs_base last =w base) && (cs_mod last == m)
      then undo_insert keyChar (insert_escape_kind m) e
      else (push_state base m upper false e, true)
  end.

(** ** UndoAllMarks *)

Definition clear_marks (s : CharState) : CharState :=
  if (cs_mod s != ModNone) || (cs_tone s != ToneNone)
  then set_toneRawIdx None (set_tone ToneNone (set_mod ModNone s))
  else s.

Definition HandleUndoAllMarks (e : Engine) : Engine * bool :=
  if length (states e) == 0%nat then (e, false)
  else
    let modified := existsb (fun s => (cs_mod s != ModNone) || (cs_tone s != ToneNone)) (states e) in
    let e := set_states (map clear_marks (states e)) e in
    if modified then (set_escape EscTone e, true) else (e, false).

(** ** Stroke d *)

Definition HandleStrokeD (c : wchar) (e : Engine) : Engine * bool :=
  if escape e == EscStroke then (e, false)
  else match FindStrokeDTarget (states e) with
  | None => (e, false)
  | Some dIdx =>
      let target := states e !!! dIdx in
      if cs_mod target == ModNone then (alter_mod Stroke dIdx e, true)
      else if cs_mod target == Stroke then
        if negb (IsStrokeDEscapeAllowed (length (states e)) dIdx) then (e, false)
        else if (dIdx == 0%nat) && negb (length (spellExclusions (config e)) == 0%nat) &&
                WouldModifierKeyMatchExclusion (config e) (states e) (towlower c)
        then (e, false)
        else
          let e := set_escape EscStroke (alter_mod ModNone dIdx e) in
          (ProcessChar1 c e, true)
      else (e, false)
  end.

(** ** Adjacent circumflex: aa, ee, oo and free marking *)

(** "use" + e: the literal s becomes an acute tone on ê. *)
Definition is_use_plus_e (action : TypingAction) (e : Engine) : bool :=
  let s i := states e !!! i in
  let r i := towlower (rawInput e !!! i) in
  (action == CircumflexE) && (length (states e) == 3%nat) &&
  (towlower (cs_base (s 0%nat)) =w L "u") && (cs_mod (s 0%nat) == ModNone) &&
  (towlower (cs_base (s 1%nat)) =w L "s") &&
  (towlower (cs_base (s 2%nat)) =w L "e") && (cs_mod (s 2%nat) == ModNone) &&
  (4 <=? length (rawInput e))%nat &&
  (r 0%nat =w L "u") && (r 1%nat =w L "s") && (r 2%nat =w L "e").

Definition UseToUe (e : Engine) : Engine :=
  let l := delete 1%nat (states e) in
  let l := SetVowelMod l 1%nat Circumflex in
  let l := alter (set_toneRawIdx (Some 1%nat)) 1%nat (alter (set_tone Acute) 1%nat l) in
  let l := RelocateToneToTarget (modernOrtho (config e)) l in
  set_engBias BiasVietnamese (set_states l e).

(** The last state is the target vowel. *)
Definition AdjacentCircumflex_last (targetBase c : wchar) (e : Engine) : Engine * bool :=
  let l := states e in
  let n := length l in
  let last := back l in
  if (3 <=? n)%nat && IsVowel (l !!! (n - 3)%nat) && IsVowel (l !!! (n - 2)%nat) &&
     IsTriphthong (cs_base (l !!! (n - 3)%nat)) (cs_base (l !!! (n - 2)%nat)) (cs_base last)
  then (e, true)
  else if cs_mod last == Circumflex then
    let e := ProcessChar1 c (alter_mod ModNone (n - 1)%nat e) in
    (if spellCheckEnabled (config e) then set_escape EscCircumflex e else e, true)
  else
    let needsRelocate := ValidateSyllableState l (allowZwjf (config e)) == ValidPrefix in
    let reject :=
      if needsRelocate then
        negb (WouldBeValidSyllable (config e) l (n - 1)%nat Circumflex None true) &&
        negb (WouldModifierKeyMatchExclusion (config e) l c)
      else ShouldRejectModifier (config e) l (n - 1)%nat Circumflex targetBase in
    if reject then (e, false)
    else (relocate_target (set_states (SetVowelMod l (n - 1)%nat Circumflex) e), true).

(** The reverse scan of free marking: the nearest state from the end whose base
    is the target vowel, with what was crossed on the way. *)
Fixpoint FreeMarkScan (l : list CharState) (targetBase : wchar) (i : nat)
    (needsValidation : bool) (consonantsCrossed : nat) (singleCoda : wchar)
    : option (nat * bool * nat * wchar) :=
  match i with
  | O => None
  | S k =>
      let s := l !!! k in
      if IsVowel s && (cs_base s <>w targetBase)
      then FreeMarkScan l targetBase k true consonantsCrossed singleCoda
      else if negb (IsVowel s)
      then FreeMarkScan l targetBase k needsValidation (S consonantsCrossed)
             (if consonantsCrossed == 0%nat then cs_base s else singleCoda)
      else Some (k, needsValidation, consonantsCrossed, singleCoda)
  end.

(** An unmodified target vowel: [Some e'] is the [break] that rejects, with the
    state it leaves; [None] lets the circumflex apply. *)
Definition FreeMarkReject (i : nat) (needsValidation : bool) (consonantsCrossed : nat)
    (singleCoda targetBase : wchar) (e : Engine) : option Engine :=
  let cfg := config e in
  let spell := spellCheckEnabled cfg in
  if needsValidation then
    if spell then
      if ShouldRejectModifier cfg (states e) i Circumflex targetBase then Some e else None
    else if (1 <=? consonantsCrossed)%nat then Some (set_engBias HardEnglish e)
    else None
  else if negb spell && (consonantsCrossed == 1%nat) then
    if negb (is_single_coda singleCoda) then Some (set_engBias HardEnglish e) else None
  else if spell && (1 <=? consonantsCrossed)%nat then
    if negb (WouldBeValidSyllable cfg (states e) i Circumflex None true) then Some e else None
  else None.

Definition AdjacentCircumflex_free (targetBase c : wchar) (e : Engine) : Engine * bool :=
  let l := states e in
  let n := length l in
  if (2 <=? n)%nat && IsVowel (l !!! (n - 1)%nat) && IsVowel (l !!! (n - 2)%nat) &&
     IsTriphthong (cs_base (l !!! (n - 2)%nat)) (cs_base (l !!! (n - 1)%nat)) targetBase
  then (e, false)
  else match FreeMarkScan l targetBase n false 0 0 with
  | None => (e, false)
  | Some (i, needsValidation, consonantsCrossed, singleCoda) =>
      let m := cs_mod (l !!! i) in
      if needsValidation && (m != Horn) && (m != ModNone) && (m != Circumflex) then (e, false)
      else if m == Circumflex then literal_escape c EscCircumflex (alter_mod ModNone i e)
      else if (m == Breve) && (targetBase =w L "a") then
        (relocate_target (alter_mod Circumflex i e), true)
      else if (m == Horn) && (targetBase =w L "o") then
        (relocate_target (set_states (SetVowelMod l i Circumflex) e), true)
      else if m == ModNone then
        match FreeMarkReject i needsValidation consonantsCrossed singleCoda targetBase e with
        | Some e' => (e', false)
        | None => (relocate_target (alter_mod Circumflex i e), true)
        end
      else (e, false)
  end.

Definition HandleAdjacentCircumflex (action : TypingAction) (c : wchar) (e : Engine)
    : Engine * bool :=
  if length (states e) == 0%nat then (e, false)
  else
    let lower := towlower c in
    if is_use_plus_e action e then (UseToUe e, true)
    else
      let targetBase := if inputMethod (config e) == UserDefined then ActionToVowel action
                        else lower in
      let last := back (states e) in
      if IsVowel last && (cs_base last =w targetBase)
      then AdjacentCircumflex_last targetBase c e
      else AdjacentCircumflex_free targetBase c e.

(** ** HornW: Telex w, priorities P1 to P8 *)

Definition isQUClusterU (l : list CharState) (i : nat) : bool :=
  (0 <? i)%nat && (cs_base (l !!! i) =w L "u") && (cs_mod (l !!! i) == ModNone) &&
  (cs_base (l !!! (i - 1)%nat) =w L "q").

Record HornScan := mkHornScan {
  hs_uIdx : option nat; hs_firstUIdx : option nat; hs_oIdx : option nat; hs_aIdx : option nat;
  hs_hornedIdx : option nat; hs_brevedIdx : option nat
}.

Definition HornScan_step (l : list CharState) (h : HornScan) (i : nat) : HornScan :=
  let s := l !!! i in
  if negb (IsVowel s) then h
  else if isQUClusterU l i then h
  else
    let '(mkHornScan u fu o a hn br) := h in
    let b := cs_base s in
    let m := cs_mod s in
    if b =w L "u" then
      if m == Horn then mkHornScan u fu o a (Some i) br
      else if m == ModNone then
        mkHornScan (Some i) (if fu == None then Some i else fu) o a hn br
      else h
    else if b =w L "o" then
      if m == Horn then mkHornScan u fu o a (Some i) br
      else if (m == ModNone) || (m == Circumflex) then mkHornScan u fu (Some i) a hn br
      else h
    else if b =w L "a" then
      if m == Breve then mkHornScan u fu o a hn (Some i)
      else if (m == ModNone) || (m == Circumflex) then mkHornScan u fu o (Some i) hn br
      else h
    else h.

Definition ScanHorn (l : list CharState) : HornScan :=
  fold_left (HornScan_step l) (seq 0 (length l)) (mkHornScan None None None None None None).

(** Adjacent vowels with bases [x] and [y], the first not a qu glide. *)
Definition vowel_pair_at (l : list CharState) (x y : wchar) (i : nat) : bool :=
  IsVowel (l !!! i) && IsVowel (l !!! S i) && negb (isQUClusterU l i) &&
  (cs_base (l !!! i) =w x) && (cs_base (l !!! S i) =w y).
Definition has_vowel_pair (l : list CharState) (x y : wchar) : bool :=
  exists_upto (vowel_pair_at l x y) (length l - 1).
(** [pairU]: the last uo pair ([pairO] is [pairU + 1]). *)
Definition uo_pair (l : list CharState) : option nat :=
  last_idx (vowel_pair_at l (L "u") (L "o")) (length l - 1).

(** [if (aIdx != SIZE_MAX && states_[aIdx].mod == Circumflex) mod = None]. *)
Definition clear_sister_circumflex (aIdx : option nat) (l : list CharState) : list CharState :=
  match aIdx with
  | Some a => if cs_mod (l !!! a) == Circumflex then alter (set_mod ModNone) a l else l
  | None => l
  end.

(** P1: ua, horn on u. *)
Definition HornW_P1 (h : HornScan) (e : Engine) : option (Engine * bool) :=
  match hs_uIdx h with
  | Some u =>
      if has_vowel_pair (states e) (L "u") (L "a") then
        let l := clear_sister_circumflex (hs_aIdx h) (alter (set_mod Horn) u (states e)) in
        Some (relocate_horn (set_states l e), true)
      else None
  | None => None
  end.

(** P2: the uo pair cycle. *)
Definition HornW_P2 (c : wchar) (e : Engine) : option (Engine * bool) :=
  match uo_pair (states e) with
  | None => None
  | Some pairU =>
      let pairO := S pairU in
      let l := states e in
      let uMod := cs_mod (l !!! pairU) in
      let oMod := cs_mod (l !!! pairO) in
      let isEdge := IsUOEdgeCasePrefix l pairU in
      if (uMod != Horn) && ((oMod == ModNone) || (oMod == Circumflex)) then
        let e := if isEdge then alter_mod Horn pairO e
                 else alter_mod Horn pairO (alter_mod Horn pairU e) in
        Some (relocate_horn e, true)
      else if (uMod == Horn) && (oMod == ModNone) then
        Some (relocate_horn (alter_mod Horn pairO e), true)
      else if (uMod == ModNone) && (oMod == Horn) && isEdge then
        Some (relocate_horn (alter_mod Horn pairU e), true)
      else if (uMod == Horn) && (oMod == Horn) then
        Some (literal_escape c EscHorn (alter_mod ModNone pairO (alter_mod ModNone pairU e)))
      else if (uMod == ModNone) && (oMod == Horn) then
        Some (literal_escape c EscHorn (alter_mod ModNone pairO e))
      else None
  end.

(** P3: oa, breve on a. *)
Definition HornW_P3 (h : HornScan) (e : Engine) : option (Engine * bool) :=
  match hs_aIdx h with
  | Some a => if has_vowel_pair (states e) (L "o") (L "a")
              then Some (alter_mod Breve a e, true) else None
  | None => None
  end.

(** P4: a second w clears the horn or the breve. *)
Definition HornW_P4 (h : HornScan) (c : wchar) (e : Engine) : option (Engine * bool) :=
  let l := states e in
  match hs_hornedIdx h with
  | Some hi =>
      if cs_synthetic (l !!! hi) && (hi == (length l - 1)%nat) then
        let origUpper := cs_isUpper (l !!! hi) in
        let e := set_states (delete hi l) e in
        Some (literal_escape (if origUpper then towupper c else towlower c) EscHorn e)
      else
        let e := alter_mod ModNone hi (set_states (UndoHornU l hi) e) in
        Some (literal_escape c EscHorn e)
  | None =>
      match hs_brevedIdx h with
      | Some b => Some (literal_escape c EscBreve (alter_mod ModNone b e))
      | None => None
      end
  end.

Definition hasNonVowelAfter (l : list CharState) (idx : nat) : bool :=
  existsb (fun s => negb (IsVowel s)) (drop (S idx) l).

(** P5 to P7: a standalone u, o or a. *)
Definition HornW_P5 (h : HornScan) (e : Engine) : option (Engine * bool) :=
  match hs_uIdx h with
  | None => None
  | Some u =>
      let l := states e in
      let targetU := match hs_firstUIdx h with
                     | Some f => if has_vowel_pair l (L "u") (L "u") then f else u
                     | None => u end in
      if hasNonVowelAfter l targetU &&
         negb (WouldBeValidSyllable (config e) l targetU Horn (hs_aIdx h) false)
      then Some (e, false)
      else
        let l := clear_sister_circumflex (hs_aIdx h) (alter (set_mod Horn) targetU l) in
        Some (relocate_horn (set_states l e), true)
  end.

Definition HornW_P6 (h : HornScan) (e : Engine) : option (Engine * bool) :=
  match hs_oIdx h with
  | None => None
  | Some o =>
      let l := states e in
      if has_vowel_pair l (L "o") (L "a") then None
      else if hasNonVowelAfter l o && negb (WouldBeValidSyllable (config e) l o Horn None false)
      then Some (e, false)
      else Some (relocate_horn (alter_mod Horn o e), true)
  end.

Definition HornW_P7 (h : HornScan) (e : Engine) : option (Engine * bool) :=
  match hs_aIdx h with
  | None => None
  | Some a =>
      let l := states e in
      let m := cs_mod (l !!! a) in
      if (m == ModNone) || (m == Circumflex) then
        if hasNonVowelAfter l a && negb (WouldBeValidSyllable (config e) l a Breve None false)
        then Some (e, false)
        else Some (alter_mod Breve a e, true)
      else None
  end.

(** P8: a standalone w inserts a synthetic ư. *)
Definition HornW_P8 (c : wchar) (e : Engine) : Engine * bool :=
  let m := inputMethod (config e) in
  if (m != SimpleTelex) && (m != UserDefined) && negb (IsInQUCluster (states e)) &&
     negb (HasNonClusterVowel (states e))
  then (push_state (L "u") Horn (iswupper c) true e, true)
  else (e, false).

(** [a] returns, or falls through to [b]. *)
Definition or_else {A} (a : option A) (b : A) : A :=
  match a with Some x => x | None => b end.

Definition HandleHornW (c : wchar) (e : Engine) : Engine * bool :=
  let l := states e in
  let hasVowelContext := existsb (fun s => IsVowel s &&
    ((cs_base s =w L "a") || (cs_base s =w L "o") || (cs_base s =w L "u"))) l in
  if (inputMethod (config e) == SimpleTelex) && negb hasVowelContext then (e, false)
  else
    let h := ScanHorn l in
    or_else (HornW_P1 h e) (or_else (HornW_P2 c e) (or_else (HornW_P3 h e)
    (or_else (HornW_P4 h c e) (or_else (HornW_P5 h e) (or_else (HornW_P6 h e)
    (or_else (HornW_P7 h e) (HornW_P8 c e))))))).

(** ** User-defined horn or ư *)

Definition HandleHornOrInsertU (action : TypingAction) (keyChar : wchar) (e : Engine)
    : Engine * bool :=
  if (action == HornOrInsertUNoStart) && (length (states e) == 0%nat) then (e, false)
  else
    let '(e, done_) := HandleHornW keyChar e in
    if done_ then (e, true)
    else if HasNonClusterVowel (states e) then (e, false)
    else
      let beforeSize := length (states e) in
      let '(e, inserted) := HandleHornInsert HornInsertU keyChar e in
      if inserted then
        if (beforeSize <? length (states e))%nat then
          let i := (length (states e) - 1)%nat in
          (set_states (alter (set_isUpper (iswupper keyChar)) i
                         (alter (set_synthetic true) i (states e))) e, true)
        else (e, true)
      else (e, false).

(** ** VNI vowel modifiers *)

Definition vni_eligible (m : Modifier) (base : wchar) : bool :=
  match m with
  | Circumflex => (base =w L "a") || (base =w L "e") || (base =w L "o")
  | Horn => (base =w L "o") || (base =w L "u")
  | Breve => base =w L "a"
  | _ => false
  end.

(** Pass 1: rightmost unmodified eligible vowel. *)
Definition VniPass1 (targetMod : Modifier) (key : wchar) (e : Engine) : option (Engine * bool) :=
  let l := states e in
  let needsRelocate := ValidateSyllableState l (allowZwjf (config e)) == ValidPrefix in
  match find_bwd (fun i => IsNucleusVowel l i && vni_eligible targetMod (cs_base (l !!! i)) &&
                           (cs_mod (l !!! i) == ModNone)) (length l) with
  | None => None
  | Some i =>
      let reject :=
        if needsRelocate then
          negb (WouldBeValidSyllable (config e) l i targetMod None true) &&
          negb (WouldModifierKeyMatchExclusion (config e) l key)
        else ShouldRejectModifier (config e) l i targetMod key in
      if reject then Some (e, false)
      else
        let e := set_states (SetVowelMod l i targetMod) e in
        Some (if needsRelocate then relocate_target e else e, true)
  end.

Definition can_switch (base : wchar) (curMod targetMod : Modifier) : bool :=
  ((base =w L "a") && (((curMod == Circumflex) && (targetMod == Breve)) ||
                       ((curMod == Breve) && (targetMod == Circumflex)))) ||
  ((base =w L "o") && (((curMod == Circumflex) && (targetMod == Horn)) ||
                       ((curMod == Horn) && (targetMod == Circumflex)))).

(** Pass 1.5: switch a compatible modifier. *)
Definition VniPass15 (targetMod : Modifier) (e : Engine) : option (Engine * bool) :=
  let l := states e in
  match find_bwd (fun i => IsNucleusVowel l i && HasModifier (l !!! i) &&
                   can_switch (cs_base (l !!! i)) (cs_mod (l !!! i)) targetMod) (length l) with
  | None => None
  | Some i => Some (relocate_target (set_states (SetVowelMod l i targetMod) e), true)
  end.

(** Pass 2: escape. *)
Definition VniPass2 (targetMod : Modifier) (key : wchar) (e : Engine) : Engine * bool :=
  let l := states e in
  match find_bwd (fun i => IsNucleusVowel l i && (cs_mod (l !!! i) == targetMod)) (length l) with
  | None => (e, false)
  | Some i =>
      literal_escape key EscModifier (alter_mod ModNone i (set_states (UndoHornU l i) e))
  end.

Definition ProcessVniVowelModifier (targetMod : Modifier) (key : wchar) (e : Engine)
    : Engine * bool :=
  if length (states e) == 0%nat then (e, false)
  else or_else (VniPass1 targetMod key e)
        (or_else (VniPass15 targetMod e) (VniPass2 targetMod key e)).

(** The uo pair of [HandleVniHorn]: last nucleus u and last nucleus o, adjacent. *)
Definition VniHorn_uo (c : wchar) (e : Engine) : option (Engine * bool) :=
  let l := states e in
  match last_idx (fun i => IsNucleusVowel l i && (cs_base (l !!! i) =w L "u")) (length l),
        last_idx (fun i => IsNucleusVowel l i && (cs_base (l !!! i) =w L "o")) (length l) with
  | Some uIdx, Some oIdx =>
      if oIdx == S uIdx then
        let isEdge := IsUOEdgeCasePrefix l uIdx in
        let uHorn := IsHorn (l !!! uIdx) in
        let oHorn := IsHorn (l !!! oIdx) in
        if negb uHorn && negb oHorn then
          let e := if isEdge then alter_mod Horn oIdx e
                   else alter_mod Horn oIdx (alter_mod Horn uIdx e) in
          Some (relocate_target e, true)
        else if uHorn && negb oHorn then
          Some (relocate_target (alter_mod Horn oIdx e), true)
        else if isEdge && negb uHorn && oHorn then
          Some (relocate_target (alter_mod Horn uIdx e), true)
        else if uHorn && oHorn then
          Some (literal_escape c EscHorn (alter_mod ModNone oIdx (alter_mod ModNone uIdx e)))
        else None
      else None
  | _, _ => None
  end.

Definition VniHorn_uu (c : wchar) (e : Engine) : option (Engine * bool) :=
  let l := states e in
  let is_u i := (cs_base (l !!! i) =w L "u") && IsNucleusVowel l i in
  match find_fwd is_u (length l), last_idx is_u (length l) with
  | Some firstU, Some lastU =>
      let uCount := length (List.filter is_u (seq 0 (length l))) in
      if (2 <=? uCount)%nat && (firstU != lastU) then
        if (cs_mod (l !!! firstU) == ModNone) && (cs_mod (l !!! lastU) == ModNone) then
          Some (relocate_target (alter_mod Horn firstU e), true)
        else if cs_mod (l !!! firstU) == Horn then
          Some (literal_escape c EscHorn (alter_mod ModNone firstU e))
        else None
      else None
  | _, _ => None
  end.

Definition HandleVniHorn (c : wchar) (e : Engine) : Engine * bool :=
  if length (states e) == 0%nat then (e, false)
  else or_else (VniHorn_uo c e)
        (or_else (VniHorn_uu c e) (ProcessVniVowelModifier Horn c e)).

(** The VNI entry points, each fixed to its modifier; VNI 9 is the Telex stroke. *)
Definition HandleVniCircumflex (c : wchar) (e : Engine) : Engine * bool :=
  ProcessVniVowelModifier Circumflex c e.
Definition HandleVniBreve (c : wchar) (e : Engine) : Engine * bool :=
  ProcessVniVowelModifier Breve c e.
Definition HandleVniStroke (c : wchar) (e : Engine) : Engine * bool := HandleStrokeD c e.

(** ** The dispatcher *)

Definition ProcessModifier (action : TypingAction) (c : wchar) (e : Engine) : Engine * bool :=
  match action with
  | HornInsertO | HornInsertU => HandleHornInsert action c e
  | HornW => HandleHornW c e
  | CircumflexA | CircumflexE | CircumflexO => HandleAdjacentCircumflex action c e
  | StrokeD => HandleStrokeD c e
  | VniCircumflex => HandleVniCircumflex c e
  | VniHorn => HandleVniHorn c e
  | VniBreve => HandleVniBreve c e
  | VniStroke => HandleVniStroke c e
  | HornOrInsertU | HornOrInsertUNoStart => HandleHornOrInsertU action c e
  | UndoAllMarks => HandleUndoAllMarks e
  | InsertABreve | InsertABreveUpper | InsertACircumflex | InsertACircumflexUpper
  | InsertDStroke | InsertDStrokeUpper | InsertECircumflex | InsertECircumflexUpper
  | InsertOCircumflex | InsertOCircumflexUpper | InsertOHorn | InsertOHornUpper
  | InsertUHorn | InsertUHornUpper => HandleInsertChar action c e
  | _ => (e, false)
  end.

End Modifiers.
