(* ===== verification/Rules.v ===== *)
(** * The rule registry and the rule executors
    (src/src/core/engine/rule/, src/src/core/pipeline/GateMask.h, TypingEngine.cpp)

    Four rules are registered by the engine's constructor; each keystroke is
    dispatched through two phases.  A rule's [Apply] receives the scalar
    snapshot of the context and the live engine (the context's reference
    fields), and returns the engine it leaves. *)

From S2P Require Import Prelude Sorting Tables Action Config CharState Validator.
From S2P Require Import TonePosition English Helpers Engine Modifiers.
From S2P Require Export Gates.
Open Scope Z_scope.

(** ** Phases and results *)

Inductive Phase := PreClassify | PostClassify.
Inductive Result := RPass | RHandled | RVeto.
#[export] Instance Phase_eq_dec : EqDecision Phase.
Proof. solve_decision. Defined.
#[export] Instance Result_eq_dec : EqDecision Result.
Proof. solve_decision. Defined.

(** The by-value fields of [EngineRuleContext]. *)
Record RuleContext := mkCtx {
  cx_keyChar : wchar; cx_lower : wchar; cx_isUpper : bool; cx_action : TypingAction;
  cx_spellCheckDisabled : bool; cx_allowEnglishBypass : bool;
  cx_escapeActive : bool; cx_escapeKind : EscapeKind; cx_bias : LanguageBias;
  cx_isVniDigitSeq : bool
}.

Record Rule := mkRule {
  rulePhase : Phase; priority : Z; requires : Z;
  applyRule : RuleContext -> Engine -> Engine * Result
}.

(** ** The registry *)

Record Registry := mkRegistry { preRules : list Rule; postRules : list Rule }.
Definition empty_registry : Registry := mkRegistry [] [].

Definition bucket (p : Phase) (r : Registry) : list Rule :=
  match p with PreClassify => preRules r | PostClassify => postRules r end.

Definition by_priority (a b : Rule) : bool := priority a <? priority b.

Definition Register (rule : Rule) (r : Registry) : Registry :=
  match rulePhase rule with
  | PreClassify => mkRegistry (stable_sort by_priority (preRules r ++ [rule])) (postRules r)
  | PostClassify => mkRegistry (preRules r) (stable_sort by_priority (postRules r ++ [rule]))
  end.

Definition EvaluateGates (cfg : TypingConfig) (ctx : RuleContext) : Z :=
  let raised := 0 in
  let raised := if (cx_bias ctx == HardEnglish) && negb (cx_allowEnglishBypass ctx)
                then Z.lor raised (GateMaskFor GateEnglishBias) else raised in
  let raised := if cx_spellCheckDisabled ctx && spellCheckEnabled cfg &&
                   negb (cx_allowEnglishBypass ctx)
                then Z.lor raised (GateMaskFor GateSpellCheck) else raised in
  let raised := if cx_escapeActive ctx && (cx_escapeKind ctx != EscCircumflex)
                then Z.lor raised (GateMaskFor GateToneEscape) else raised in
  raised.

Fixpoint DispatchRules (raised : Z) (ctx : RuleContext) (rules : list Rule) (e : Engine)
    : Engine * Result :=
  match rules with
  | [] => (e, RPass)
  | rule :: rest =>
      if Z.land (requires rule) raised <>w 0 then DispatchRules raised ctx rest e
      else
        let '(e, r) := applyRule rule ctx e in
        match r with
        | RHandled => (e, RHandled)
        | RVeto => (e, RVeto)
        | RPass => DispatchRules raised ctx rest e
        end
  end.

Definition DispatchAtPhase (reg : Registry) (phase : Phase) (ctx : RuleContext) (e : Engine)
    : Engine * Result :=
  let raised := EvaluateGates (config e) ctx in
  DispatchRules raised ctx (bucket phase reg) e.

Definition RuleCountAtPhase (reg : Registry) (p : Phase) : nat := length (bucket p reg).
Definition RuleCount (reg : Registry) : nat := (length (preRules reg) + length (postRules reg))%nat.

Section Executors.
Context {P : Platform}.

(** ** The tone executor *)

Definition ToneClear (action : TypingAction) (keyChar : wchar) (eff : bool) (e : Engine)
    : option (Engine * bool) :=
  if (action == ClearTone) && negb (length (states e) == 0%nat) then
    if eff && spellCheckDisabled e then
      Some (UpdateSpellState (ProcessChar1 keyChar e), true)
    else
      let '(e', done_) := ProcessClearTone e in
      if done_ then Some (UpdateSpellState e', true) else None
  else None.

(** The whole buffer with [t] on the target, as the validator sees it. *)
Definition tone_validates (cfg : TypingConfig) (l : list CharState) (t : nat) (tone : Tone) : bool :=
  ValidateSyllableState (alter (set_tone tone) t l) (allowZwjf cfg) == Valid.

(** The spell-check gate: may the tone reach an invalid buffer? *)
Definition SpellGateAllows (cfg : TypingConfig) (l : list CharState) (target : option nat)
    (requestedTone : Tone) : bool :=
  let isEscape := match target with
                  | Some t => cs_tone (l !!! t) == requestedTone | None => false end in
  let matchesExclusion := negb isEscape && ToneMatchesExclusion cfg l target requestedTone in
  let wouldRecover :=
    match target with
    | Some t => negb isEscape && negb matchesExclusion && HasTone (l !!! t) &&
                tone_validates cfg l t requestedTone
    | None => false
    end in
  isEscape || matchesExclusion || wouldRecover.

(** [toneWouldValidate]: a same tone is an escape, not a save. *)
Definition ToneWouldValidate (cfg : TypingConfig) (l : list CharState) (target : option nat)
    (requestedTone : Tone) : bool :=
  match target with
  | Some t =>
      if (length l <=? t)%nat then false
      else if cs_tone (l !!! t) == requestedTone then false
      else tone_validates cfg l t requestedTone
  | None => false
  end.

(** The English gates, [allowEnglishBypass] off: the engine left and whether the
    key is to be treated as a literal. *)
Definition EnglishToneGate (keyChar : wchar) (isTelexTone : bool) (target : option nat)
    (requestedTone : Tone) (e : Engine) : Engine * bool :=
  let l := states e in
  if ToneWouldValidate (config e) l target requestedTone
  then (set_engBias BiasVietnamese e, false)
  else if bias (engProt e) == HardEnglish then (e, true)
  else
    let '(e, stop) :=
      if bias (engProt e) == SoftEnglish then
        let '(p, insisted) := UpdateToneInsistence keyChar (engProt e) in
        (set_engProt p e, negb insisted)
      else (e, false) in
    if stop then (e, true)
    else if isTelexTone && IsHardEnglishToneContext l keyChar
    then (set_engBias HardEnglish e, true)
    else if negb isTelexTone && (4 <=? length l)%nat && HasStructuralVCVPattern l
    then (set_engBias HardEnglish e, true)
    else if HasInvalidAdjacentVowelPair l
    then (set_engBias HardEnglish e, true)
    else (e, false).

(** The tail of the tone path: apply the tone, then settle bias and spelling. *)
Definition ApplyToneKey (requestedTone : Tone) (keyChar : wchar) (cached : option nat) (e : Engine)
    : Engine * bool :=
  let '(e, done_) := ProcessTone requestedTone keyChar cached e in
  if done_ then
    let e :=
      if negb (isEscaped (escape e)) then set_engBias BiasVietnamese e
      else
        let e := set_engProt (RecalcEnglishBias (states e)) e in
        if IsTelexMode (config e)
        then set_engProt (CheckZwjfInitialBias (states e) (config e) (engProt e)) e
        else e in
    let e := set_states (ApplyAutoUO (modernOrtho (config e)) (states e)) e in
    (UpdateSpellState e, true)
  else (e, false).

Definition HandleToneFsm (action : TypingAction) (keyChar lower : wchar) (isUpper : bool)
    (e : Engine) : Engine * bool :=
  let cfg := config e in
  let eff := spellCheckEnabled cfg && negb (allowEnglishBypass cfg) in
  match ToneClear action keyChar eff e with
  | Some r => r
  | None =>
    let requestedTone := if length (states e) == 0%nat then ToneNone else ActionToTone action in
    if requestedTone == ToneNone then (e, false)
    else
      let isTelexTone := (lower <? L "0") || (L "9" <? lower) in
      let asLiteral e := (UpdateSpellState (ProcessChar lower isUpper e), true) in
      let l := states e in
      let find_target (_ : unit) := FindToneTarget (modernOrtho cfg) l in
      (* gate 1: fills the cache *)
      let hasCached := eff && spellCheckDisabled e in
      let cached := if hasCached then find_target tt else None in
      if hasCached && negb (SpellGateAllows cfg l cached requestedTone) then asLiteral e
      else if isEscaped (escape e) && (escape e != EscCircumflex) then asLiteral e
      else
        (* gate 2: raw English prefix, Telex keys only *)
        let blocked := isTelexTone && eff && IsBlockedEnglishTone (rawInput e) in
        let fill := blocked && negb (length (spellExclusions cfg) == 0%nat) && negb hasCached in
        let cached := if fill then find_target tt else cached in
        let hasCached := hasCached || fill in
        let overridden := blocked && negb (length (spellExclusions cfg) == 0%nat) &&
                          ToneMatchesExclusion cfg l cached requestedTone in
        if blocked && negb overridden then asLiteral e
        else
          (* gate 3: English protection *)
          let target := if hasCached then cached else find_target tt in
          let '(e, literal) :=
            if negb (allowEnglishBypass cfg)
            then EnglishToneGate keyChar isTelexTone target requestedTone e
            else (e, false) in
          if literal then asLiteral e
          else if eff && negb (spellCheckDisabled e) &&
                  ((requestedTone == Grave) || (requestedTone == Hook) || (requestedTone == Tilde)) &&
                  HasStopFinalCoda (states e)
          then asLiteral e
          else ApplyToneKey requestedTone keyChar (if hasCached then cached else None) e
  end.

(** ** The modifier executor *)

Definition WouldModifierRecoverOrEscape (action : TypingAction) (keyChar lower : wchar)
    (e : Engine) : bool :=
  let l := states e in
  let strokeEscape :=
    HasEscapableModifier l Stroke true || (FindStrokeDTarget l != None) in
  let canEscape :=
    if IsTelexModifierAction action then
      if lower =w L "w" then
        HasEscapableModifier l Horn false || HasEscapableModifier l Breve false
      else if lower =w L "d" then strokeEscape
      else if IsVowelChar keyChar && negb (length l == 0%nat) then
        let last := back l in
        IsVowel last && (cs_base last =w lower) && (cs_mod last == Circumflex)
      else if ((action == HornInsertO) || (action == HornInsertU)) &&
              negb (length l == 0%nat) && (2 <=? length (rawInput e))%nat &&
              (towlower (rawInput e !!! (length (rawInput e) - 2)%nat) =w lower) then
        let baseVowel := if action == HornInsertO then L "o" else L "u" in
        let last := back l in
        (cs_base last =w baseVowel) && (cs_mod last == Horn)
      else false
    else
      let escMod := ActionToVniModifier action in
      if escMod == Stroke then strokeEscape
      else if escMod != ModNone then HasEscapableModifier l escMod false
      else false in
  let canEscape := if negb canEscape then WouldModifierKeyMatchExclusion (config e) l lower
                   else canEscape in
  canEscape || IsToneStopCodaMismatch l.

(** A stroke that would make an English word latches the bias first. *)
Definition StrokePreCheck (stroke : bool) (e : Engine) : Engine :=
  let l := states e in
  if stroke && (bias (engProt e) != HardEnglish) && (3 <=? length l)%nat then
    match FindStrokeDTarget l with
    | Some d => if (cs_mod (l !!! d) == ModNone) && ShouldBlockStrokeDAsEnglish l d
                then set_engBias HardEnglish e else e
    | None => e
    end
  else e.

Definition AcceptModifier (e : Engine) : Engine :=
  let e := set_engBias BiasVietnamese e in
  let e := set_states (ApplyAutoUO (modernOrtho (config e)) (states e)) e in
  UpdateSpellState e.

(** [canApply && ProcessModifier(...)], then the common tail. *)
Definition TryModifier (checkSpell : bool) (action : TypingAction) (keyChar lower : wchar)
    (e : Engine) : Engine * bool :=
  let canApply := if checkSpell && spellCheckDisabled e
                  then WouldModifierRecoverOrEscape action keyChar lower e else true in
  if canApply then
    let '(e, done_) := ProcessModifier action keyChar e in
    if done_ then (AcceptModifier e, true) else (e, false)
  else (e, false).

(** 2a: Telex-style modifiers. *)
Definition HandleTelexModifier (action : TypingAction) (keyChar lower : wchar) (eff : bool)
    (e : Engine) : Engine * bool :=
  let cfg := config e in
  let e := StrokePreCheck (action == StrokeD) e in
  let l := states e in
  let isUseCircumflexE :=
    (action == CircumflexE) && (length l == 3%nat) &&
    (towlower (cs_base (l !!! 0%nat)) =w L "u") && (towlower (cs_base (l !!! 1%nat)) =w L "s") &&
    (towlower (cs_base (l !!! 2%nat)) =w L "e") in
  let escaped := isEscaped (escape e) in
  let block := escaped || (negb (allowEnglishBypass cfg) && (bias (engProt e) == HardEnglish) &&
                           negb isUseCircumflexE) in
  let block := if negb block && eff && IsBlockedEnglishModifier (rawInput e) then true else block in
  let block := if block && negb escaped && (action == StrokeD) && negb (HasVowelState l)
               then false else block in
  let block := if block && negb escaped && negb (length (spellExclusions cfg) == 0%nat) &&
                  WouldModifierKeyMatchExclusion cfg l lower then false else block in
  if negb block then TryModifier eff action keyChar lower e else (e, false).

(** 2b: VNI-style modifiers. *)
Definition HandleVniModifier (action : TypingAction) (keyChar lower : wchar) (eff : bool)
    (e : Engine) : Engine * bool :=
  let cfg := config e in
  let e := StrokePreCheck (action == VniStroke) e in
  let l := states e in
  let escaped := isEscaped (escape e) in
  let block := escaped || (negb (allowEnglishBypass cfg) && (bias (engProt e) == HardEnglish)) in
  let block := if block && negb escaped && (action == VniStroke) && negb (HasVowelState l)
               then false else block in
  let block := if block && negb escaped && negb (length (spellExclusions cfg) == 0%nat) &&
                  WouldModifierKeyMatchExclusion cfg l lower then false else block in
  if negb block then TryModifier eff action keyChar lower e else (e, false).

(** 2d: user-defined actions. *)
Definition HandleUserModifier (action : TypingAction) (keyChar lower : wchar) (eff : bool)
    (e : Engine) : Engine * bool :=
  let cfg := config e in
  let l := states e in
  let escaped := isEscaped (escape e) in
  let block := escaped || (negb (allowEnglishBypass cfg) && (bias (engProt e) == HardEnglish)) in
  let block := if negb block && eff && IsBlockedEnglishModifier (rawInput e) then true else block in
  let block := if block && negb escaped && negb (length (spellExclusions cfg) == 0%nat) &&
                  WouldModifierKeyMatchExclusion cfg l lower then false else block in
  if negb block then TryModifier false action keyChar lower e else (e, false).

Definition HandleModifierAction (action : TypingAction) (keyChar lower : wchar) (e : Engine)
    : Engine * bool :=
  let cfg := config e in
  let isTelexModifier := IsTelexModifierAction action in
  let isVniModifier := IsVniModifierAction action in
  let isUserOnly := IsUserDefinedOnlyAction action in
  if negb isTelexModifier && negb isVniModifier && negb isUserOnly then (e, false)
  else
    let user := inputMethod cfg == UserDefined in
    let eff := spellCheckEnabled cfg && negb (allowEnglishBypass cfg) in
    let '(e, done_) :=
      if (IsTelexMode cfg || user) && isTelexModifier
      then HandleTelexModifier action keyChar lower eff e else (e, false) in
    if done_ then (e, true)
    else
      let '(e, done_) :=
        if (IsVniMode cfg || user) && isVniModifier
        then HandleVniModifier action keyChar lower eff e else (e, false) in
      if done_ then (e, true)
      else if user && isUserOnly then HandleUserModifier action keyChar lower eff e
      else (e, false).

(** ** Finalization of a regular character *)

Definition RevertSyntheticW (e : Engine) : Engine :=
  let l := states e in
  let s0 := l !!! 0%nat in
  if (inputMethod (config e) == Telex) && (bias (engProt e) != HardEnglish) &&
     negb (length l == 0%nat) && cs_synthetic s0 && (cs_base s0 =w L "u") &&
     (cs_mod s0 == Horn) && (cs_tone s0 == ToneNone) && IsHardEnglishRawStart (rawInput e)
  then
    let l := alter (set_synthetic false) 0%nat
               (alter (set_mod ModNone) 0%nat (alter (set_base (L "w")) 0%nat l)) in
    set_states l (set_engBias HardEnglish e)
  else e.

Definition RevertUsePrefix (e : Engine) : Engine :=
  let cfg := config e in
  let l := states e in
  let s0 := l !!! 0%nat in
  let s1 := l !!! 1%nat in
  let r i := towlower (rawInput e !!! i) in
  if spellCheckEnabled cfg && negb (allowEnglishBypass cfg) && IsTelexMode cfg &&
     (bias (engProt e) != HardEnglish) && (length l == 2%nat) &&
     (towlower (cs_base s0) =w L "u") && (cs_mod s0 == ModNone) &&
     (towlower (cs_base s1) =w L "e") && (cs_mod s1 == ModNone) &&
     ((cs_tone s0 == Acute) || (cs_tone s1 == Acute)) &&
     (3 <=? length (rawInput e))%nat &&
     (r 0%nat =w L "u") && (r 1%nat =w L "s") && (r 2%nat =w L "e")
  then
    let clear s := set_toneRawIdx None (set_tone ToneNone s) in
    let sState := mkCS (L "s") ModNone ToneNone (iswupper (rawInput e !!! 1%nat)) false 1%nat None in
    set_engBias HardEnglish (set_states [clear s0; sState; clear s1] e)
  else e.

Definition FinalizeRegularChar (e : Engine) : Engine :=
  let modern := modernOrtho (config e) in
  let e := set_states (RelocateToneToTarget modern (states e)) e in
  let e := set_states (ApplyAutoUO modern (states e)) e in
  let e := UpdateSpellState e in
  let e := set_engProt (CheckEnglishBias (states e) (engProt e)) e in
  let e := RevertSyntheticW e in
  let e := RevertUsePrefix e in
  if IsTelexMode (config e)
  then set_engProt (CheckZwjfInitialBias (states e) (config e) (engProt e)) e
  else e.

(** ** The quick-consonant executors *)

(** 0a: f to ph, j to gi, w to qu at word start. *)
Definition QuickStartPair (lower : wchar) : option (wchar * wchar) :=
  if lower =w L "f" then Some (L "p", L "h")
  else if lower =w L "j" then Some (L "g", L "i")
  else if lower =w L "w" then Some (L "q", L "u")
  else None.

(** 0a-cont: a non-vowel after a quick start takes it back. *)
Definition UndoQuickStart (keyChar : wchar) (e : Engine) : Engine :=
  if quickStartKey e <>w 0 then
    let savedKey := quickStartKey e in
    let e := set_quickStartKey 0 e in
    if negb (IsVowelChar keyChar) then
      let e := set_rawInput [savedKey] (set_states [] e) in
      let e := ProcessChar1 savedKey e in
      set_rawInput (rawInput e ++ [keyChar]) e
    else e
  else e.

Definition QuickReplacement (base lower : wchar) : wchar :=
  if (base =w L "c") && (lower =w L "c") then L "h"
  else if (base =w L "g") && (lower =w L "g") then L "i"
  else if (base =w L "n") && (lower =w L "n") then L "g"
  else if (base =w L "k") && (lower =w L "k") then L "h"
  else if (base =w L "q") && (lower =w L "q") then L "u"
  else if (base =w L "p") && (lower =w L "p") then L "h"
  else if (base =w L "t") && (lower =w L "t") then L "h"
  else 0.

(** 0b: cc to ch and its family, and uu to ươ. *)
Definition QuickConsonant (lower : wchar) (isUpper : bool) (e : Engine) : Engine * Result :=
  let l := states e in
  let n := length l in
  let last := back l in
  if negb (IsVowel last) && negb (IsD last) then
    let replacement := QuickReplacement (cs_base last) lower in
    if replacement <>w 0 then
      let q := qc e in
      let e := set_qc (mkQC (Some n) lower (if n == 1%nat then true else qc_onlyQC q)
                         (qc_escaped q)) e in
      let newKey := if isUpper then towupper replacement else replacement in
      let e := ProcessChar (towlower newKey) (iswupper newKey) e in
      (FinalizeRegularChar e, RVeto)
    else (e, RPass)
  else if IsVowel last && (cs_base last =w L "u") && (cs_mod last == ModNone) &&
          (lower =w L "u") then
    let triphthong :=
      (3 <=? n)%nat && IsVowel (l !!! (n - 3)%nat) && IsVowel (l !!! (n - 2)%nat) &&
      IsTriphthong (cs_base (l !!! (n - 3)%nat)) (cs_base (l !!! (n - 2)%nat)) (cs_base last) in
    if negb triphthong then
      let e := push_state (L "o") Horn isUpper false (alter_mod Horn (n - 1)%nat e) in
      let q := qc e in
      let e := set_qc (mkQC (Some (length (states e) - 1)%nat) lower
                         (if length (states e) == 2%nat then true else qc_onlyQC q)
                         (qc_escaped q)) e in
      (UpdateSpellState e, RVeto)
    else (e, RPass)
  else (e, RPass).

Definition HandleQuickStartConsonant (keyChar lower : wchar) (isUpper : bool) (e : Engine)
    : Engine * Result :=
  match (if quickStartConsonant (config e) && (length (states e) == 0%nat)
         then QuickStartPair lower else None) with
  | Some (first, second) =>
      let e := ProcessChar1 (if isUpper then towupper first else first) e in
      let e := ProcessChar1 second e in
      (UpdateSpellState (set_quickStartKey keyChar e), RVeto)
  | None =>
      let e := UndoQuickStart keyChar e in
      let q := qc e in
      let quickEscaped := qc_escaped q in
      let q := mkQC (qc_resultIndex q) (qc_lastKey q) (qc_onlyQC q) false in
      let '(q, quickEscaped) :=
        if qc_lastKey q <>w 0 then
          if lower =w qc_lastKey q then (q, true)
          else (mkQC (qc_resultIndex q) 0 (qc_onlyQC q) (qc_escaped q), quickEscaped)
        else (q, quickEscaped) in
      let e := set_qc q e in
      if quickConsonant (config e) && negb (length (states e) == 0%nat) && negb quickEscaped
      then QuickConsonant lower isUpper e
      else (e, RPass)
  end.

Definition HandleQuickEndConsonant (lower : wchar) (e : Engine) : Engine * bool :=
  let pair := if lower =w L "g" then Some (L "n", L "g")
              else if lower =w L "h" then Some (L "n", L "h")
              else if lower =w L "k" then Some (L "c", L "h")
              else None in
  match pair with
  | Some (first, second) =>
      (UpdateSpellState (ProcessChar1 second (ProcessChar1 first e)), true)
  | None => (e, false)
  end.

(** ** The four rules *)

Definition veto_if (r : Engine * bool) : Engine * Result :=
  let '(e, b) := r in (e, if b then RVeto else RPass).

Definition ToneRule : Rule := mkRule PostClassify 10 (GateMaskFor GateToneEscape)
  (fun ctx e =>
     if negb (IsToneAction (cx_action ctx)) then (e, RPass)
     else veto_if (HandleToneFsm (cx_action ctx) (cx_keyChar ctx) (cx_lower ctx)
                     (cx_isUpper ctx) e)).

Definition ModifierRule : Rule := mkRule PostClassify 20 0
  (fun ctx e =>
     if negb (IsTelexModifierAction (cx_action ctx)) &&
        negb (IsVniModifierAction (cx_action ctx)) &&
        negb (IsUserDefinedOnlyAction (cx_action ctx)) then (e, RPass)
     else veto_if (HandleModifierAction (cx_action ctx) (cx_keyChar ctx) (cx_lower ctx) e)).

Definition QuickStartConsonantRule : Rule := mkRule PreClassify 5 0
  (fun ctx e => HandleQuickStartConsonant (cx_keyChar ctx) (cx_lower ctx) (cx_isUpper ctx) e).

Definition QuickEndConsonantRule : Rule := mkRule PostClassify 30 0
  (fun ctx e =>
     if negb (quickEndConsonant (config e)) then (e, RPass)
     else if (length (states e) == 0%nat) || negb (IsVowel (back (states e))) then (e, RPass)
     else if (cx_lower ctx <>w L "g") && (cx_lower ctx <>w L "h") && (cx_lower ctx <>w L "k")
     then (e, RPass)
     else veto_if (HandleQuickEndConsonant (cx_lower ctx) e)).

(** The registrations of the constructor. *)
Definition engine_registry : Registry :=
  Register QuickEndConsonantRule
    (Register QuickStartConsonantRule
      (Register ModifierRule (Register ToneRule empty_registry))).

End Executors.
