(* ===== verification/TypingEngine.v ===== *)
(** * The engine's public operations (src/src/core/engine/TypingEngine.cpp)

    [PushKey], [Backspace], [Peek], [Commit], [Reset] and [SeedFromText]. *)

From S2P Require Import Prelude Tables Action Config CharState Validator.
From S2P Require Import TonePosition English Helpers Engine Modifiers Rules.
Open Scope Z_scope.

Section Api.
Context {P : Platform}.

Definition Reset (e : Engine) : Engine :=
  mkEngine [] [] [] (config e) false QC_Reset EscNone (activeKeyUppercase e) 0 EP_reset.

(** The constructor: members at their initial values, then [Reset]. *)
Definition NewEngine (cfg : TypingConfig) : Engine :=
  Reset (mkEngine [] [] [] cfg false QC_Reset EscNone false 0 EP_reset).

(** ** Keystrokes *)

Definition IsVniDigitSequence (keyChar : wchar) (e : Engine) : bool :=
  IsVniMode (config e) && (L "0" <=? keyChar) && (keyChar <=? L "9") &&
  negb (length (states e) == 0%nat) &&
  (L "0" <=? cs_base (back (states e))) && (cs_base (back (states e)) <=? L "9").

Definition keymap_at (cfg : TypingConfig) (c : wchar) : TypingAction :=
  nth (Z.to_nat (c mod 256)) (customKeyMap cfg) ActNone.

Definition ResolveAction (lower : wchar) (cfg : TypingConfig) : TypingAction :=
  let overrideAction :=
    if (lower <? 128) && (inputMethod cfg == UserDefined) then
      let a := keymap_at cfg lower in
      let canonical := CanonicalBracketKey lower in
      if (a == ActNone) && (canonical <>w lower) then keymap_at cfg canonical else a
    else ActNone in
  if overrideAction != ActNone then overrideAction
  else ClassifyKey lower (IsTelexMode cfg) (IsVniMode cfg).

Definition snapshot (keyChar lower : wchar) (isUpper : bool) (action : TypingAction)
    (digits : bool) (e : Engine) : RuleContext :=
  mkCtx keyChar lower isUpper action (spellCheckDisabled e) (allowEnglishBypass (config e))
    (isEscaped (escape e)) (escape e) (bias (engProt e)) digits.

Definition set_onlyQC (b : bool) (q : QuickConsonantState) : QuickConsonantState :=
  mkQC (qc_resultIndex q) (qc_lastKey q) b (qc_escaped q).

(** The entry of [PushKey]: record the key, clear [onlyQC], note the case. *)
Definition RecordKey (keyChar : wchar) (uppercase : bool) (e : Engine) : Engine :=
  let e := set_rawInput (rawInput e ++ [keyChar]) e in
  let e := set_escRawHistory (escRawHistory e ++ [keyChar]) e in
  let e := set_qc (set_onlyQC false (qc e)) e in
  set_activeKeyUppercase uppercase e.

(** From the classification on. *)
Definition ClassifyAndApply (keyChar lower : wchar) (isUpper : bool) (e : Engine) : Engine :=
  let digits := IsVniDigitSequence keyChar e in
  let action := if digits then ActNone else ResolveAction lower (config e) in
  let '(e, r) := DispatchAtPhase engine_registry PostClassify
                   (snapshot keyChar lower isUpper action digits e) e in
  if r == RVeto then e
  else FinalizeRegularChar (ProcessChar lower isUpper e).

Definition PushKey (keyChar : wchar) (uppercase : bool) (e : Engine) : Engine :=
  let e := RecordKey keyChar uppercase e in
  let lower := towlower keyChar in
  let '(e, swallowed) := RevertProvisionalOoTone lower e in
  if swallowed then
    let e := UpdateSpellState e in
    set_engProt (RecalcEnglishBias (states e)) e
  else
    let '(e, r) := DispatchAtPhase engine_registry PreClassify
                     (snapshot keyChar lower uppercase ActNone false e) e in
    if r == RVeto then e
    else ClassifyAndApply keyChar lower uppercase e.

Definition PushChar (keyChar : wchar) (e : Engine) : Engine :=
  PushKey keyChar (iswupper keyChar || (keyChar =w L "{") || (keyChar =w L "}")) e.

(** ** Backspace *)

Definition recalc_bias (e : Engine) : Engine :=
  let e := set_engProt (RecalcEnglishBias (states e)) e in
  if IsTelexMode (config e)
  then set_engProt (CheckZwjfInitialBias (states e) (config e) (engProt e)) e
  else e.

Definition BackspaceQuick (e : Engine) : Engine :=
  let e := set_states (UndoHornU (states e) (length (states e) - 1)) e in
  let originalKey := qc_lastKey (qc e) in
  let e := set_qc (QC_markEscaped (qc e)) e in
  let e := set_states (pop_back (states e)) e in
  let e := if originalKey <>w 0 then ProcessChar1 originalKey e else e in
  recalc_bias (UpdateSpellState e).

Definition BackspaceRegular (e : Engine) : Engine :=
  let e := set_qc (QC_clearActive (qc e)) e in
  let rawTarget := cs_rawIdx (back (states e)) in
  let e := set_states (pop_back (states e)) e in
  let e := if (rawTarget <? length (rawInput e))%nat
           then set_rawInput (take rawTarget (rawInput e)) e else e in
  let e := if negb (length (escRawHistory e) == 0%nat)
           then set_escRawHistory (pop_back (escRawHistory e)) e else e in
  let e := if length (states e) == 0%nat then set_escRawHistory [] e else e in
  recalc_bias (UpdateSpellState e).

Definition Backspace (e : Engine) : Engine :=
  if length (states e) == 0%nat then e
  else
    let e := set_escape EscNone e in
    if (quickStartKey e <>w 0) && (length (states e) == 2%nat) then
      let e := set_rawInput [quickStartKey e] (set_states [] e) in
      let e := ProcessChar1 (quickStartKey e) e in
      UpdateSpellState (set_quickStartKey 0 e)
    else
      let e := set_quickStartKey 0 e in
      if QC_hasActive (qc e) && (Some (length (states e) - 1)%nat == qc_resultIndex (qc e))
      then BackspaceQuick e
      else BackspaceRegular e.

(** ** Composition *)

Definition Peek (e : Engine) : wstring := ComposeStates (states e).
Definition PeekRaw (e : Engine) : wstring := escRawHistory e.
Definition Count (e : Engine) : nat := length (states e).
Definition HasActiveQuickConsonant (e : Engine) : bool := QC_hasActive (qc e).
Definition IsEnglishWord (e : Engine) : bool := bias (engProt e) == HardEnglish.
Definition IsToneEscaped (e : Engine) : bool := isEscaped (escape e).

(** ** Commit *)

(** [raw[0] = towupper(raw[0])] when the composed text starts with a capital. *)
Definition capitalize_like (raw composed : wstring) : wstring :=
  match raw, composed with
  | r :: rest, c :: _ => if iswupper c then towupper r :: rest else raw
  | _, _ => raw
  end.

(** The spelling part of [Commit]: the text to return instead of [composed]. *)
Definition SpellRestore (composed : wstring) (e : Engine) : option wstring :=
  let cfg := config e in
  let l := states e in
  if negb (spellCheckEnabled cfg) || negb (autoRestoreEnabled cfg) || QC_hasActive (qc e)
  then None
  else
    let isBareCircumflexA :=
      (length l == 1%nat) && (cs_base (l !!! 0%nat) =w L "a") && (cs_mod (l !!! 0%nat) == Circumflex) in
    let prefix :=
      negb (spellCheckDisabled e) && negb (length l == 0%nat) &&
      (ValidateSyllableState l (allowZwjf cfg) == ValidPrefix) && negb isBareCircumflexA in
    let shouldRestore := spellCheckDisabled e || prefix in
    let unfinishedNucleus := prefix && existsb IsVowel l in
    if shouldRestore then
      let excluded := IsSpellExcluded l (spellExclusions cfg) in
      let keepComposed :=
        excluded || (negb unfinishedNucleus && HasIntentionalStrokeD (rawInput e) composed) in
      if negb keepComposed then
        let raw := capitalize_like (rawInput e) composed in
        if raw == composed then None
        else if ShouldAutoRestore raw composed then Some raw else None
      else None
    else None.

Definition CommitText (e : Engine) : wstring :=
  let composed := ComposeStates (states e) in
  let raw := rawInput e in
  if (quickStartKey e <>w 0) && (length raw == 1%nat) && ShouldAutoRestore raw composed then raw
  else if qc_onlyQC (qc e) && ShouldAutoRestore raw composed then raw
  else match SpellRestore composed e with
  | Some text => text
  | None => composed
  end.

Definition Commit (e : Engine) : wstring * Engine :=
  let e := fst (RevertProvisionalOoTone (L " ") e) in
  (CommitText e, Reset e).

(** ** Seeding from rendered text *)

Fixpoint SeedLoop (text : wstring) (e : Engine) : option Engine :=
  match text with
  | [] => Some e
  | ch :: rest =>
      match DecomposeVietChar ch with
      | None => None
      | Some d =>
          let st := FromDecomposed d (length (rawInput e)) in
          let r := if dc_isUpper d then towupper (dc_base d) else dc_base d in
          SeedLoop rest (set_states (states e ++ [st]) (set_rawInput (rawInput e ++ [r]) e))
      end
  end.

Definition SeedFromText (text : wstring) (e : Engine) : Engine * bool :=
  let e := Reset e in
  match SeedLoop text e with
  | None => (Reset e, false)
  | Some e =>
      let e := UpdateSpellState e in
      (set_engProt (CheckEnglishBias (states e) (engProt e)) e, true)
  end.

End Api.

(** ** Running a session *)

Definition PushChars `{Platform} (keys : wstring) (e : Engine) : Engine :=
  fold_left (fun e c => PushChar c e) keys e.
