(* ===== verification/Invariant.v ===== *)
(** * The well-formedness invariant and the frame of every engine step

    [wf_state]: a letter carries only the marks Vietnamese has for it.  [Keeps
    e e'] says that [e'] is reached from [e] without touching the configuration
    or the raw history and with every letter still well formed; each primitive
    has a lemma of the form [Keeps e0 e -> Keeps e0 (op e)], so a handler's
    lemma is backward chaining through its body. *)

From S2P Require Import Prelude Tables Action Config CharState Validator.
From S2P Require Import TonePosition English Helpers Engine Modifiers Rules.
From S2P Require Import TypingEngine.
Open Scope Z_scope.

(** ** Well-formed letters *)

(** The bases a modifier fits. *)
Definition mod_fits (m : Modifier) (b : wchar) : bool :=
  match m with
  | ModNone => true
  | Circumflex => (b =w L "a") || (b =w L "e") || (b =w L "o")
  | Breve => b =w L "a"
  | Horn => (b =w L "o") || (b =w L "u")
  | Stroke => b =w L "d"
  end.

Definition tone_fits (t : Tone) (b : wchar) : bool := (t == ToneNone) || is_vowel_base b.

Definition wf_state (s : CharState) : Prop :=
  cs_base s <> 0 /\ towlower (cs_base s) = cs_base s /\
  mod_fits (cs_mod s) (cs_base s) = true /\ tone_fits (cs_tone s) (cs_base s) = true.

#[export] Instance wf_state_dec s : Decision (wf_state s).
Proof. unfold wf_state. apply _. Defined.

Definition wf_states (l : list CharState) : Prop := Forall wf_state l.
Definition WF (e : Engine) : Prop := wf_states (states e).

Lemma wf_plain c u sy r t : c <> 0 -> wf_state (mkCS (towlower c) ModNone ToneNone u sy r t).
Proof.
  intros Hc. repeat split; simpl; auto using towlower_nonzero, towlower_idemp.
Qed.

Lemma wf_states_app l1 l2 : wf_states l1 -> wf_states l2 -> wf_states (l1 ++ l2).
Proof. apply Forall_app_2. Qed.

Lemma wf_states_snoc l s : wf_states l -> wf_state s -> wf_states (l ++ [s]).
Proof. intros. apply Forall_app. eauto. Qed.

Lemma wf_states_take n l : wf_states l -> wf_states (take n l).
Proof. apply Forall_take. Qed.
Lemma wf_states_drop n l : wf_states l -> wf_states (drop n l).
Proof. apply Forall_drop. Qed.
Lemma wf_states_delete i l : wf_states l -> wf_states (delete i l).
Proof. apply Forall_delete. Qed.
Lemma wf_states_pop_back l : wf_states l -> wf_states (pop_back l).
Proof. apply Forall_take. Qed.

Lemma wf_lookup l i s : wf_states l -> l !! i = Some s -> wf_state s.
Proof. intros H ?. eapply Forall_lookup_1; eauto. Qed.

(** An update is judged on the base of the letter it meets. *)
Lemma wf_alter f l i :
  wf_states l -> (i < length l -> wf_state (l !!! i) -> wf_state (f (l !!! i)))%nat ->
  wf_states (alter f i l).
Proof.
  intros Hl Hf. apply Forall_alter_keep; [done|]. intros s Hs Hw.
  pose proof (lookup_lt_Some _ _ _ Hs). rewrite (list_lookup_total_correct _ _ _ Hs) in Hf. auto.
Qed.

Lemma wf_alter_mod m l i :
  wf_states l -> mod_fits m (cs_base (l !!! i)) = true -> wf_states (alter (set_mod m) i l).
Proof. intros Hl Hm. apply wf_alter; [done|]. intros _ (?&?&?&?). by repeat split. Qed.

Lemma wf_alter_mod_none l i : wf_states l -> wf_states (alter (set_mod ModNone) i l).
Proof. intros Hl. by apply wf_alter_mod. Qed.

Lemma wf_alter_tone t l i :
  wf_states l -> tone_fits t (cs_base (l !!! i)) = true -> wf_states (alter (set_tone t) i l).
Proof. intros Hl Hm. apply wf_alter; [done|]. intros _ (?&?&?&?). by repeat split. Qed.

Lemma wf_alter_tone_none l i : wf_states l -> wf_states (alter (set_tone ToneNone) i l).
Proof. intros Hl. by apply wf_alter_tone. Qed.

Lemma wf_alter_toneRawIdx x l i : wf_states l -> wf_states (alter (set_toneRawIdx x) i l).
Proof. intros Hl. by apply wf_alter. Qed.
Lemma wf_alter_isUpper x l i : wf_states l -> wf_states (alter (set_isUpper x) i l).
Proof. intros Hl. by apply wf_alter. Qed.
Lemma wf_alter_synthetic x l i : wf_states l -> wf_states (alter (set_synthetic x) i l).
Proof. intros Hl. by apply wf_alter. Qed.

#[export] Hint Resolve wf_plain wf_states_app wf_states_snoc wf_states_take wf_states_drop
  wf_states_delete wf_states_pop_back wf_alter_mod_none wf_alter_tone_none
  wf_alter_toneRawIdx wf_alter_isUpper wf_alter_synthetic : vkey.

(** Marks never change a base. *)
Create Rewrite HintDb vkey_bases.

Lemma base_alter f i (l : list CharState) j :
  (forall s, cs_base (f s) = cs_base s) -> cs_base (alter f i l !!! j) = cs_base (l !!! j).
Proof.
  intros Hf. rewrite !list_lookup_total_alt.
  destruct (decide (i = j)) as [->|].
  - rewrite list_lookup_alter_eq. destruct (l !! j); simpl; auto.
  - by rewrite list_lookup_alter_ne.
Qed.

Lemma base_alter_mod m i (l : list CharState) j : cs_base (alter (set_mod m) i l !!! j) = cs_base (l !!! j).
Proof. by apply base_alter. Qed.
Lemma base_alter_tone m i (l : list CharState) j : cs_base (alter (set_tone m) i l !!! j) = cs_base (l !!! j).
Proof. by apply base_alter. Qed.
Lemma base_alter_toneRawIdx m i (l : list CharState) j :
  cs_base (alter (set_toneRawIdx m) i l !!! j) = cs_base (l !!! j).
Proof. by apply base_alter. Qed.
#[export] Hint Rewrite base_alter_mod base_alter_tone base_alter_toneRawIdx : vkey_bases.

Lemma base_UndoHornU l o j : cs_base (UndoHornU l o !!! j) = cs_base (l !!! j).
Proof. unfold UndoHornU. case_match; [apply base_alter_mod|done]. Qed.
#[export] Hint Rewrite base_UndoHornU : vkey_bases.

Lemma base_of_eq b c : (b =w c) = true -> b = c.
Proof. apply Z.eqb_eq. Qed.

(** The bases of [wf] letters are their own lowercase. *)
Lemma wf_base_lower l i :
  wf_states l -> towlower (cs_base (l !!! i)) = cs_base (l !!! i).
Proof.
  intros Hl. destruct (decide (i < length l)%nat) as [Hi|Hi].
  - by destruct (wf_lookup l i _ Hl (lookup_total_lt l i Hi)) as (?&?&?).
  - rewrite list_lookup_total_alt, lookup_ge_None_2 by lia. done.
Qed.

(** ** State-level operations preserve well-formed letters *)

Lemma wf_UndoHornU l i : wf_states l -> wf_states (UndoHornU l i).
Proof. intros. unfold UndoHornU. case_match; auto with vkey. Qed.
#[export] Hint Resolve wf_UndoHornU : vkey.

Lemma wf_SetVowelMod m l i :
  wf_states l -> mod_fits m (cs_base (l !!! i)) = true -> wf_states (SetVowelMod l i m).
Proof. intros. unfold SetVowelMod. case_match; auto using wf_alter_mod with vkey. Qed.

Lemma NucleusVowels_spec l i ch :
  (i, ch) ∈ NucleusVowels l -> (i < length l)%nat /\ IsNucleusVowel l i = true.
Proof.
  unfold NucleusVowels. intros (k & H & _)%elem_of_take.
  apply list_elem_of_lookup_2 in H.
  apply list_elem_of_In, filter_In in H as [H _]. apply in_map_iff in H as (j & [= -> <-] & H).
  apply filter_In in H as [H ?]. apply in_seq in H. split; [lia|done].
Qed.

Lemma FindToneTarget_nucleus modern l t :
  FindToneTarget modern l = Some t -> (t < length l)%nat /\ IsNucleusVowel l t = true.
Proof.
  unfold FindToneTarget. destruct (list.last _) as [[? ?]|]; [|done].
  destruct (FindTonePosition _ _ _) as [k|]; [|done].
  case_match eqn:Hk; [done|]. intros [= <-]. apply Nat.leb_gt in Hk.
  eapply NucleusVowels_spec. rewrite <- surjective_pairing.
  by apply list_elem_of_lookup_total_2.
Qed.

Lemma FindToneTarget_vowel modern l t :
  FindToneTarget modern l = Some t -> is_vowel_base (cs_base (l !!! t)) = true.
Proof.
  intros [_ H]%FindToneTarget_nucleus. unfold IsNucleusVowel, IsVowel in H. by bool_hyps.
Qed.

Lemma tone_fits_vowel t b : is_vowel_base b = true -> tone_fits t b = true.
Proof. intros H. unfold tone_fits. rewrite H. apply orb_true_r. Qed.
#[export] Hint Resolve tone_fits_vowel FindToneTarget_vowel : vkey.

Lemma wf_RelocateToneToTarget modern l :
  wf_states l -> wf_states (RelocateToneToTarget modern l).
Proof.
  intros Hl. unfold RelocateToneToTarget. repeat case_match; auto.
  apply wf_alter_toneRawIdx, wf_alter_tone_none, wf_alter_toneRawIdx, wf_alter_tone; eauto with vkey.
Qed.

Lemma wf_RelocateToneToHornVowel l : wf_states l -> wf_states (RelocateToneToHornVowel l).
Proof.
  intros Hl. unfold RelocateToneToHornVowel. cbv zeta.
  case_match eqn:Hh; [|done]. case_match eqn:Ht; [|done]. case_match; [|done]. rewrite last_idx_find_bwd in Hh. apply find_bwd_true in Hh.
  unfold IsVowel in Hh. bool_hyps. apply wf_alter_tone_none, wf_alter_tone; auto with vkey.
Qed.
#[export] Hint Resolve wf_RelocateToneToTarget wf_RelocateToneToHornVowel : vkey.

(** [b = 'x'] from the handlers' tests decides a modifier's fit. *)
Ltac mod_fit :=
  cbn [alter_mod set_states states]; autorewrite with vkey_bases; bool_hyps;
  repeat match goal with H : cs_base (_ !!! _) = _ |- _ => rewrite H end; reflexivity.

Lemma wf_AutoUOStep modern l i : wf_states l -> wf_states (AutoUOStep modern l i).
Proof.
  intros Hl. unfold AutoUOStep. case_match; [done|].
  match goal with |- context [if ?b then alter ?f i l else l] =>
    set (l' := if b then alter f i l else l) end.
  assert (wf_states l').
  { subst l'. case_match; [|done]. apply wf_alter_mod; [done|mod_fit]. }
  case_match; [|done]. apply wf_RelocateToneToTarget, wf_alter_mod; [done|mod_fit].
Qed.

Lemma wf_ApplyAutoUO modern l : wf_states l -> wf_states (ApplyAutoUO modern l).
Proof.
  intros Hl. unfold ApplyAutoUO. case_match; [done|].
  generalize (seq (if (4 <? length l)%nat then length l - 4 else 0)%nat
                (length l - 2 - (if (4 <? length l)%nat then length l - 4 else 0))%nat).
  intros idx. clear -Hl. revert l Hl.
  induction idx; intros l Hl; simpl; auto using wf_AutoUOStep.
Qed.
#[export] Hint Resolve wf_ApplyAutoUO : vkey.

(** ** The frame relation *)

Record Keeps (e e' : Engine) : Prop := {
  keeps_config : config e' = config e;
  keeps_history : escRawHistory e' = escRawHistory e;
  keeps_wf : WF e -> WF e'
}.

#[export] Instance Keeps_preorder : PreOrder Keeps.
Proof.
  split; [by split|]. intros a b c [Hab1 Hab2 Hab3] [Hbc1 Hbc2 Hbc3].
  split; [congruence|congruence|auto].
Qed.

Lemma keeps_refl e : Keeps e e.
Proof. reflexivity. Qed.

Section Frame.
Context {P : Platform}.

(** The fields outside the frame. *)
Lemma keeps_rawInput e0 e r : Keeps e0 e -> Keeps e0 (set_rawInput r e).
Proof. by intros []. Qed.
Lemma keeps_spell e0 e b : Keeps e0 e -> Keeps e0 (set_spellCheckDisabled b e).
Proof. by intros []. Qed.
Lemma keeps_qc e0 e q : Keeps e0 e -> Keeps e0 (set_qc q e).
Proof. by intros []. Qed.
Lemma keeps_escape e0 e k : Keeps e0 e -> Keeps e0 (set_escape k e).
Proof. by intros []. Qed.
Lemma keeps_quickStartKey e0 e c : Keeps e0 e -> Keeps e0 (set_quickStartKey c e).
Proof. by intros []. Qed.
Lemma keeps_engProt e0 e p : Keeps e0 e -> Keeps e0 (set_engProt p e).
Proof. by intros []. Qed.
Lemma keeps_engBias e0 e b : Keeps e0 e -> Keeps e0 (set_engBias b e).
Proof. by intros []. Qed.
Lemma keeps_UpdateSpellState e0 e : Keeps e0 e -> Keeps e0 (UpdateSpellState e).
Proof. by intros []. Qed.
Lemma keeps_states e0 e l :
  Keeps e0 e -> (WF e -> wf_states l) -> Keeps e0 (set_states l e).
Proof. intros [? ? Hw] Hl. split; [done|done|]. intros ?. apply Hl. auto. Qed.

Lemma keeps_relocate_target e0 e : Keeps e0 e -> Keeps e0 (relocate_target e).
Proof. intros. apply keeps_states; auto with vkey. Qed.
Lemma keeps_relocate_horn e0 e : Keeps e0 e -> Keeps e0 (relocate_horn e).
Proof. intros. apply keeps_states; auto with vkey. Qed.
Lemma keeps_alter_mod e0 e m i :
  Keeps e0 e -> mod_fits m (cs_base (states e !!! i)) = true -> Keeps e0 (alter_mod m i e).
Proof. intros. apply keeps_states; auto using wf_alter_mod with vkey. Qed.
Lemma keeps_alter_mod_none e0 e i : Keeps e0 e -> Keeps e0 (alter_mod ModNone i e).
Proof. intros. by apply keeps_alter_mod. Qed.

Lemma keeps_ProcessChar e0 e c u :
  c <> 0 -> Keeps e0 e -> Keeps e0 (ProcessChar (towlower c) u e).
Proof. intros. apply keeps_states; auto with vkey. Qed.
Lemma keeps_ProcessChar1 e0 e c : c <> 0 -> Keeps e0 e -> Keeps e0 (ProcessChar1 c e).
Proof. apply keeps_ProcessChar. Qed.

Lemma keeps_push_state e0 e b m u sy :
  b <> 0 -> towlower b = b -> mod_fits m b = true ->
  Keeps e0 e -> Keeps e0 (push_state b m u sy e).
Proof.
  intros ? ? ? H. apply keeps_states; [done|]. intros ?. apply wf_states_snoc; [done|].
  by repeat split.
Qed.

Lemma keeps_EraseConsumedRaw e0 e i : Keeps e0 e -> Keeps e0 (EraseConsumedRaw i e).
Proof.
  intros H. unfold EraseConsumedRaw. case_match; [done|].
  apply keeps_states; [by apply keeps_rawInput|]. intros Hl.
  apply Forall_map. revert Hl. by apply Forall_impl.
Qed.

Lemma keeps_literal_escape e0 e c k :
  c <> 0 -> Keeps e0 e -> Keeps e0 (fst (literal_escape c k e)).
Proof. intros. by apply keeps_escape, keeps_ProcessChar1. Qed.

Lemma keeps_undo_insert e0 e c k :
  c <> 0 -> Keeps e0 e -> Keeps e0 (fst (undo_insert c k e)).
Proof.
  intros. apply keeps_literal_escape; [done|].
  apply keeps_EraseConsumedRaw, keeps_states; auto with vkey.
Qed.
End Frame.

#[export] Hint Resolve keeps_refl : vkey.

(** Name the engine a call returns: [f = (e', b)] becomes [fst f] and [snd f]. *)
Ltac name_pairs :=
  repeat match goal with
  | H : ?f = (?a, ?b) |- _ =>
      is_var a; is_var b;
      assert (a = fst f) by (rewrite H; done); assert (b = snd f) by (rewrite H; done);
      clear H; subst a b
  end.

(** Split the outermost test of a handler's result. *)
Ltac head_if :=
  match goal with
  | |- Keeps _ (fst (if ?b then _ else _)) => destruct b eqn:?
  | |- Keeps _ (if ?b then _ else _) => destruct b eqn:?
  end.

(** Backward chaining through a handler's body, once its tests are split. *)
Ltac keeps_chain :=
  simpl;
  repeat first
    [ assumption
    | simple apply keeps_refl
    | simple apply keeps_rawInput | simple apply keeps_spell | simple apply keeps_qc
    | simple apply keeps_escape | simple apply keeps_quickStartKey
    | simple apply keeps_engProt | simple apply keeps_engBias
    | simple apply keeps_UpdateSpellState | simple apply keeps_relocate_target
    | simple apply keeps_relocate_horn | simple apply keeps_alter_mod_none
    | simple apply keeps_EraseConsumedRaw
    | simple apply keeps_ProcessChar; [assumption|]
    | simple apply keeps_ProcessChar1; [assumption|]
    | simple apply keeps_literal_escape; [assumption|]
    | simple apply keeps_undo_insert; [assumption|]
    | simple apply keeps_alter_mod; [|mod_fit]
    | simple apply keeps_push_state; [done|reflexivity|reflexivity|]
    | progress eauto 3 with vkey
    | simple apply keeps_states; [|intros; eauto 6 with vkey] ].

(** ** Tone handlers and raw-key restoration *)

Section Tones.
Context {P : Platform}.

Lemma keeps_RestoreConsumedKeyInPlace e0 e i c :
  c <> 0 -> Keeps e0 e -> Keeps e0 (RestoreConsumedKeyInPlace i c e).
Proof.
  intros Hc H. unfold RestoreConsumedKeyInPlace. destruct i as [i|]; [|keeps_chain].
  cbv zeta. case_match; [case_match; keeps_chain|].
  apply keeps_states; [keeps_chain|]. intros ?.
  repeat apply wf_states_app; [by apply wf_states_take| |by apply wf_states_drop].
  repeat constructor; simpl; auto using towlower_nonzero, towlower_idemp.
Qed.

Lemma keeps_RevertProvisionalOoTone e0 e c :
  Keeps e0 e -> Keeps e0 (fst (RevertProvisionalOoTone c e)).
Proof.
  intros H. unfold RevertProvisionalOoTone. cbv zeta.
  do 5 (case_match; [done|]).
  match goal with |- context [if ?b then ?l ++ ?s else ?l] =>
    assert (WF e -> wf_states (if b then l ++ s else l)) as Hw; [|generalize dependent (if b then l ++ s else l)] end.
  { intros Hw. case_match; auto 6 with vkey. bool_hyps. auto 8 with vkey. }
  intros l Hl. case_match; keeps_chain.
Qed.

Definition tone_target_ok (l : list CharState) (cached : option nat) : Prop :=
  forall t, cached = Some t -> is_vowel_base (cs_base (l !!! t)) = true.

Lemma tone_target_ok_None l : tone_target_ok l None.
Proof. done. Qed.
Lemma tone_target_ok_find modern l : tone_target_ok l (FindToneTarget modern l).
Proof. intros t. eauto with vkey. Qed.

Lemma keeps_ProcessTone e0 e t c cached :
  c <> 0 -> tone_target_ok (states e) cached -> Keeps e0 e ->
  Keeps e0 (fst (ProcessTone t c cached e)).
Proof.
  intros Hc Ht H. unfold ProcessTone. case_match; [done|].
  match goal with |- context [match ?x with Some t => Some t | None => ?y end] =>
    assert (tone_target_ok (states e) (match x with Some t => Some t | None => y end)) as Hok
      by (destruct cached; [done|apply tone_target_ok_find]);
    destruct (match x with Some t => Some t | None => y end) as [i|] end; [|done].
  specialize (Hok i eq_refl). cbv zeta. case_match; simpl.
  - apply keeps_escape, keeps_RestoreConsumedKeyInPlace; [done|]. keeps_chain.
  - apply keeps_escape, keeps_states; [done|]. intros Hw.
    apply wf_alter_toneRawIdx, wf_alter_tone; auto with vkey.
Qed.

Lemma keeps_ProcessClearTone e0 e : Keeps e0 e -> Keeps e0 (fst (ProcessClearTone e)).
Proof. intros H. unfold ProcessClearTone. repeat case_match; keeps_chain. Qed.
End Tones.

#[export] Hint Resolve keeps_RestoreConsumedKeyInPlace keeps_RevertProvisionalOoTone
  keeps_ProcessTone keeps_ProcessClearTone tone_target_ok_None tone_target_ok_find : vkey.
