(* ===== verification/RulesFrame.v ===== *)
(** * The handlers, the rules and the public operations keep the frame

    One lemma [keeps_<handler>] per handler of Modifiers.v: configuration and raw
    history untouched, letters still well formed. *)

From S2P Require Import Prelude Tables Action Config CharState Validator.
From S2P Require Import TonePosition English Helpers Engine Modifiers Rules.
From S2P Require Import TypingEngine Invariant.
Open Scope Z_scope.

(** What the caller guarantees of the key: in the built-in methods a circumflex
    action comes from its own vowel key. *)
Definition action_fits (cfg : TypingConfig) (action : TypingAction) (lower : wchar) : Prop :=
  inputMethod cfg <> UserDefined ->
  match action with
  | CircumflexA | CircumflexE | CircumflexO =>
      (lower =w L "a") || (lower =w L "e") || (lower =w L "o") = true
  | _ => True
  end.

Section ModifierFrame.
Context {P : Platform}.

Lemma keeps_HandleHornInsert e0 e a c :
  c <> 0 -> Keeps e0 e -> Keeps e0 (fst (HandleHornInsert a c e)).
Proof.
  intros Hc H. unfold HandleHornInsert. case_match; [done|]. cbv zeta.
  case_match; [keeps_chain|]. simpl. case_match; keeps_chain.
Qed.

Lemma InsertCharTarget_fits a b m u :
  InsertCharTarget a = Some (b, m, u) -> b <> 0 /\ towlower b = b /\ mod_fits m b = true.
Proof. destruct a; simpl; intros; simplify_eq; done. Qed.

Lemma keeps_HandleInsertChar e0 e a c :
  c <> 0 -> Keeps e0 e -> Keeps e0 (fst (HandleInsertChar a c e)).
Proof.
  intros Hc H. unfold HandleInsertChar.
  destruct (InsertCharTarget a) as [[[b m] u]|] eqn:Ht; [|done].
  apply InsertCharTarget_fits in Ht as (?&?&?). cbv zeta.
  case_match; [keeps_chain|]. by apply keeps_push_state.
Qed.

Lemma keeps_HandleUndoAllMarks e0 e : Keeps e0 e -> Keeps e0 (fst (HandleUndoAllMarks e)).
Proof.
  intros H. unfold HandleUndoAllMarks. case_match; [done|]. cbv zeta.
  assert (Keeps e0 (set_states (map clear_marks (states e)) e)).
  { apply keeps_states; [done|]. intros Hl. apply Forall_map. revert Hl. apply Forall_impl.
    intros s (?&?&?&?). unfold clear_marks. case_match; by repeat split. }
  case_match; keeps_chain.
Qed.

(** ** Stroke d *)

Lemma FindStrokeDTarget_d l i : FindStrokeDTarget l = Some i -> cs_base (l !!! i) = L "d".
Proof.
  unfold FindStrokeDTarget. destruct (find_bwd _ _) as [k|] eqn:Hk; [|done].
  apply find_bwd_true in Hk. unfold IsD in Hk. bool_hyps.
  repeat case_match; intros; simplify_eq; done.
Qed.

Lemma keeps_HandleStrokeD e0 e c :
  c <> 0 -> Keeps e0 e -> Keeps e0 (fst (HandleStrokeD c e)).
Proof.
  intros Hc H. unfold HandleStrokeD. case_match; [done|].
  destruct (FindStrokeDTarget _) as [i|] eqn:Hi; [|done]. apply FindStrokeDTarget_d in Hi.
  cbv zeta. repeat case_match; keeps_chain.
Qed.

(** ** Circumflex *)

Lemma keeps_SetVowelMod e0 e m i :
  Keeps e0 e -> mod_fits m (cs_base (states e !!! i)) = true ->
  Keeps e0 (set_states (SetVowelMod (states e) i m) e).
Proof. intros. apply keeps_states; auto using wf_SetVowelMod. Qed.

Definition circumflex_vowel (b : wchar) : Prop := mod_fits Circumflex b = true.

Lemma FreeMarkScan_base l b i nv n sc k nv' n' sc' :
  FreeMarkScan l b i nv n sc = Some (k, nv', n', sc') -> cs_base (l !!! k) = b.
Proof.
  revert nv n sc. induction i as [|i IH]; intros nv n sc; simpl; [done|].
  destruct (IsVowel (l !!! i)) eqn:Hv; simpl; [|eauto].
  destruct (cs_base (l !!! i) =w b) eqn:Hb; simpl; [|eauto].
  intros; simplify_eq. by apply Z.eqb_eq.
Qed.

Lemma keeps_FreeMarkReject e0 e i nv n sc b e' :
  FreeMarkReject i nv n sc b e = Some e' -> Keeps e0 e -> Keeps e0 e'.
Proof.
  intros Hr H. unfold FreeMarkReject in Hr. cbv zeta in Hr.
  repeat case_match; simplify_eq; keeps_chain.
Qed.

Lemma keeps_AdjacentCircumflex_last e0 e b c :
  c <> 0 -> circumflex_vowel b -> (cs_base (back (states e)) =w b) = true ->
  Keeps e0 e -> Keeps e0 (fst (AdjacentCircumflex_last b c e)).
Proof.
  intros Hc Hb Hl H. unfold AdjacentCircumflex_last, circumflex_vowel in *. cbv zeta.
  case_match; [done|]. case_match.
  - simpl. case_match; keeps_chain.
  - case_match; [done|]. simpl. apply keeps_relocate_target, keeps_SetVowelMod; [done|].
    unfold back in Hl. apply Z.eqb_eq in Hl. by rewrite Hl.
Qed.

Lemma keeps_AdjacentCircumflex_free e0 e b c :
  c <> 0 -> circumflex_vowel b ->
  Keeps e0 e -> Keeps e0 (fst (AdjacentCircumflex_free b c e)).
Proof.
  intros Hc Hb H. unfold AdjacentCircumflex_free. cbv zeta.
  case_match; [done|]. destruct (FreeMarkScan _ _ _ _ _ _) as [[[[i nv] n] sc]|] eqn:Hs; [|done].
  apply FreeMarkScan_base in Hs.
  assert (mod_fits Circumflex (cs_base (states e !!! i)) = true) by by rewrite Hs.
  case_match; [done|]. case_match; [keeps_chain|].
  case_match; [by apply keeps_relocate_target, keeps_alter_mod|].
  case_match; [by apply keeps_relocate_target, keeps_SetVowelMod|].
  case_match; [|done]. case_match eqn:Hr.
  - eapply keeps_FreeMarkReject; eauto.
  - by apply keeps_relocate_target, keeps_alter_mod.
Qed.

Lemma keeps_UseToUe e0 e a :
  is_use_plus_e a e = true -> Keeps e0 e -> Keeps e0 (UseToUe e).
Proof.
  intros Hu H. unfold UseToUe. apply keeps_engBias, keeps_states; [done|]. intros Hw.
  assert (cs_base (delete 1%nat (states e) !!! 1%nat) = L "e") as Hb.
  { unfold is_use_plus_e in Hu. cbv zeta in Hu. bool_hyps.
    rewrite wf_base_lower in * by done. rewrite list_lookup_total_alt, list_lookup_delete_ge by lia.
    by rewrite <- list_lookup_total_alt. }
  apply wf_RelocateToneToTarget, wf_alter_toneRawIdx, wf_alter_tone;
    [apply wf_SetVowelMod; auto with vkey|]; unfold SetVowelMod; simpl;
    autorewrite with vkey_bases; by rewrite Hb.
Qed.

Lemma keeps_HandleAdjacentCircumflex e0 e a c :
  c <> 0 -> In a [CircumflexA; CircumflexE; CircumflexO] ->
  action_fits (config e) a (towlower c) ->
  Keeps e0 e -> Keeps e0 (fst (HandleAdjacentCircumflex a c e)).
Proof.
  intros Hc Ha Hf H. unfold HandleAdjacentCircumflex. case_match; [done|]. cbv zeta.
  case_match; [eapply keeps_UseToUe; eauto|].
  assert (circumflex_vowel (if inputMethod (config e) == UserDefined
                            then ActionToVowel a else towlower c)) as Hv.
  { unfold circumflex_vowel, mod_fits. case_match eqn:Hm; bool_hyps.
    - destruct Ha as [<-|[<-|[<-|[]]]]; done.
    - specialize (Hf Hm). destruct Ha as [<-|[<-|[<-|[]]]]; done. }
  destruct (IsVowel _ && _) eqn:Hl; bool_hyps.
  - apply keeps_AdjacentCircumflex_last; auto. by apply Z.eqb_eq.
  - by apply keeps_AdjacentCircumflex_free.
Qed.

(** ** HornW: what its scan finds *)

Definition base_is (l : list CharState) (i : option nat) (b : wchar) : Prop :=
  forall k, i = Some k -> cs_base (l !!! k) = b.

Record scan_ok (l : list CharState) (h : HornScan) : Prop := {
  scan_u : base_is l (hs_uIdx h) (L "u");
  scan_firstU : base_is l (hs_firstUIdx h) (L "u");
  scan_o : base_is l (hs_oIdx h) (L "o");
  scan_a : base_is l (hs_aIdx h) (L "a")
}.

Lemma base_is_Some l i b : cs_base (l !!! i) = b -> base_is l (Some i) b.
Proof. intros H k [= <-]. done. Qed.

Lemma HornScan_step_ok l h i : scan_ok l h -> scan_ok l (HornScan_step l h i).
Proof.
  intros [Hu Hf Ho Ha]. unfold HornScan_step. destruct h as [u fu o a hn br].
  repeat case_match; bool_hyps; split; simpl in *; auto using base_is_Some.
Qed.

Lemma ScanHorn_ok l : scan_ok l (ScanHorn l).
Proof.
  unfold ScanHorn.
  assert (forall idx h, scan_ok l h -> scan_ok l (fold_left (HornScan_step l) idx h)) as Hf.
  { induction idx; simpl; auto using HornScan_step_ok. }
  by apply Hf.
Qed.

Lemma uo_pair_bases l i :
  uo_pair l = Some i -> cs_base (l !!! i) = L "u" /\ cs_base (l !!! S i) = L "o".
Proof.
  unfold uo_pair. rewrite last_idx_find_bwd. intros H%find_bwd_true.
  unfold vowel_pair_at in H. bool_hyps. done.
Qed.

Lemma wf_clear_sister_circumflex i l : wf_states l -> wf_states (clear_sister_circumflex i l).
Proof. intros. unfold clear_sister_circumflex. repeat case_match; auto with vkey. Qed.
Hint Resolve wf_clear_sister_circumflex : vkey.

(** ** HornW: its eight priorities *)

Lemma keeps_or_else e0 (o : option (Engine * bool)) x :
  (forall r, o = Some r -> Keeps e0 (fst r)) -> Keeps e0 (fst x) -> Keeps e0 (fst (or_else o x)).
Proof. destruct o; simpl; auto. Qed.

Lemma keeps_HornW_P1 e0 e h r :
  scan_ok (states e) h -> Keeps e0 e -> HornW_P1 h e = Some r -> Keeps e0 (fst r).
Proof.
  intros Hs H. unfold HornW_P1. case_match eqn:Hu; [|done]. case_match; [|done].
  intros [= <-]. simpl. apply keeps_relocate_horn, keeps_states; [done|]. intros ?.
  apply wf_clear_sister_circumflex, wf_alter_mod; [done|]. by rewrite (scan_u _ _ Hs _ Hu).
Qed.

Lemma keeps_HornW_P2 e0 e c r :
  c <> 0 -> Keeps e0 e -> HornW_P2 c e = Some r -> Keeps e0 (fst r).
Proof.
  intros Hc H. unfold HornW_P2. case_match eqn:Hp; [|done].
  apply uo_pair_bases in Hp as [Hu Ho]. cbv zeta.
  repeat case_match; intros; simplify_eq; keeps_chain.
Qed.

Lemma keeps_HornW_P3 e0 e h r :
  scan_ok (states e) h -> Keeps e0 e -> HornW_P3 h e = Some r -> Keeps e0 (fst r).
Proof.
  intros Hs H. unfold HornW_P3. case_match eqn:Ha; [|done]. case_match; [|done].
  intros [= <-]. simpl. apply keeps_alter_mod; [done|]. by rewrite (scan_a _ _ Hs _ Ha).
Qed.

Lemma keeps_HornW_P4 e0 e h c r :
  c <> 0 -> Keeps e0 e -> HornW_P4 h c e = Some r -> Keeps e0 (fst r).
Proof.
  intros Hc H. unfold HornW_P4. cbv zeta.
  repeat case_match; intros; simplify_eq; simpl; apply keeps_escape.
  1,2: apply keeps_ProcessChar1; [auto using towupper_nonzero, towlower_nonzero|].
  all: keeps_chain.
Qed.

Lemma keeps_HornW_P5 e0 e h r :
  scan_ok (states e) h -> Keeps e0 e -> HornW_P5 h e = Some r -> Keeps e0 (fst r).
Proof.
  intros Hs H. unfold HornW_P5. case_match eqn:Hu; [|done]. cbv zeta.
  apply (scan_u _ _ Hs) in Hu. destruct (hs_firstUIdx h) eqn:Hf;
    [apply (scan_firstU _ _ Hs) in Hf; destruct (has_vowel_pair _ _ _)|].
  all: case_match; intros [= <-]; [done|]; simpl.
  all: apply keeps_relocate_horn, keeps_states; [done|]; intros ?.
  all: apply wf_clear_sister_circumflex, wf_alter_mod; [done|mod_fit].
Qed.

Lemma keeps_HornW_P6 e0 e h r :
  scan_ok (states e) h -> Keeps e0 e -> HornW_P6 h e = Some r -> Keeps e0 (fst r).
Proof.
  intros Hs H. unfold HornW_P6. case_match eqn:Ho; [|done]. cbv zeta.
  apply (scan_o _ _ Hs) in Ho. repeat case_match; intros; simplify_eq; keeps_chain.
Qed.

Lemma keeps_HornW_P7 e0 e h r :
  scan_ok (states e) h -> Keeps e0 e -> HornW_P7 h e = Some r -> Keeps e0 (fst r).
Proof.
  intros Hs H. unfold HornW_P7. case_match eqn:Ho; [|done]. cbv zeta.
  apply (scan_a _ _ Hs) in Ho. repeat case_match; intros; simplify_eq; keeps_chain.
Qed.

Lemma keeps_HornW_P8 e0 e c : Keeps e0 e -> Keeps e0 (fst (HornW_P8 c e)).
Proof. intros H. unfold HornW_P8. cbv zeta. case_match; keeps_chain. Qed.

Lemma keeps_HandleHornW e0 e c :
  c <> 0 -> Keeps e0 e -> Keeps e0 (fst (HandleHornW c e)).
Proof.
  intros Hc H. unfold HandleHornW. cbv zeta. case_match; [done|].
  pose proof (ScanHorn_ok (states e)).
  repeat apply keeps_or_else; eauto using keeps_HornW_P1, keeps_HornW_P2, keeps_HornW_P3,
    keeps_HornW_P4, keeps_HornW_P5, keeps_HornW_P6, keeps_HornW_P7, keeps_HornW_P8.
Qed.

Lemma keeps_HandleHornOrInsertU e0 e a c :
  c <> 0 -> Keeps e0 e -> Keeps e0 (fst (HandleHornOrInsertU a c e)).
Proof.
  intros Hc H. unfold HandleHornOrInsertU. case_match; [done|].
  destruct (HandleHornW c e) as [e1 b] eqn:E. name_pairs.
  pose proof (keeps_HandleHornW e0 e c Hc H) as H1. case_match; [done|]. case_match; [done|].
  cbv zeta. destruct (HandleHornInsert _ _ _) as [e2 b2] eqn:E2. name_pairs.
  pose proof (keeps_HandleHornInsert e0 _ HornInsertU c Hc H1).
  repeat case_match; keeps_chain.
Qed.

(** ** VNI *)

Lemma vni_eligible_fits m b : vni_eligible m b = true -> mod_fits m b = true.
Proof. by destruct m. Qed.

Lemma can_switch_fits b m m' : can_switch b m m' = true -> mod_fits m' b = true.
Proof.
  unfold can_switch. rewrite orb_true_iff, !andb_true_iff, !orb_true_iff, !andb_true_iff,
    !bool_decide_eq_true, !Z.eqb_eq.
  intros [[-> [[? ->]|[? ->]]]|[-> [[? ->]|[? ->]]]]; done.
Qed.

Lemma keeps_VniPass1 e0 e m c r :
  Keeps e0 e -> VniPass1 m c e = Some r -> Keeps e0 (fst r).
Proof.
  intros H. unfold VniPass1. cbv zeta. case_match eqn:Hi; [|done].
  apply find_bwd_true in Hi. bool_hyps.
  match goal with H : vni_eligible _ _ = true |- _ => apply vni_eligible_fits in H end.
  case_match; intros [= <-]; [done|]. simpl.
  match goal with |- context [set_states ?x e] =>
    assert (Keeps e0 (set_states x e)) by (by apply keeps_SetVowelMod) end.
  case_match; keeps_chain.
Qed.

Lemma keeps_VniPass15 e0 e m r :
  Keeps e0 e -> VniPass15 m e = Some r -> Keeps e0 (fst r).
Proof.
  intros H. unfold VniPass15. cbv zeta. case_match eqn:Hi; [|done].
  apply find_bwd_true in Hi. bool_hyps. intros [= <-].
  apply keeps_relocate_target, keeps_SetVowelMod; eauto using can_switch_fits.
Qed.

Lemma keeps_VniPass2 e0 e m c :
  c <> 0 -> Keeps e0 e -> Keeps e0 (fst (VniPass2 m c e)).
Proof. intros Hc H. unfold VniPass2. cbv zeta. case_match; keeps_chain. Qed.

Lemma keeps_ProcessVniVowelModifier e0 e m c :
  c <> 0 -> Keeps e0 e -> Keeps e0 (fst (ProcessVniVowelModifier m c e)).
Proof.
  intros. unfold ProcessVniVowelModifier. case_match; [done|].
  repeat apply keeps_or_else; eauto using keeps_VniPass1, keeps_VniPass15, keeps_VniPass2.
Qed.

Lemma keeps_VniHorn_uo e0 e c r :
  c <> 0 -> Keeps e0 e -> VniHorn_uo c e = Some r -> Keeps e0 (fst r).
Proof.
  intros Hc H. unfold VniHorn_uo. cbv zeta.
  case_match eqn:Hu; [|done]. case_match eqn:Ho; [|done]. case_match; [|done].
  rewrite last_idx_find_bwd in Hu, Ho. apply find_bwd_true in Hu, Ho. bool_hyps.
  repeat case_match; intros; simplify_eq; keeps_chain.
Qed.

Lemma keeps_VniHorn_uu e0 e c r :
  c <> 0 -> Keeps e0 e -> VniHorn_uu c e = Some r -> Keeps e0 (fst r).
Proof.
  intros Hc H. unfold VniHorn_uu. cbv zeta.
  case_match eqn:Hu; [|done]. case_match; [|done]. case_match; [|done].
  apply find_fwd_true in Hu. bool_hyps.
  repeat case_match; intros; simplify_eq; keeps_chain.
Qed.

Lemma keeps_HandleVniHorn e0 e c :
  c <> 0 -> Keeps e0 e -> Keeps e0 (fst (HandleVniHorn c e)).
Proof.
  intros. unfold HandleVniHorn. case_match; [done|].
  repeat apply keeps_or_else; eauto using keeps_VniHorn_uo, keeps_VniHorn_uu,
    keeps_ProcessVniVowelModifier.
Qed.

(** ** The dispatcher *)

Lemma keeps_ProcessModifier e0 e a c :
  c <> 0 -> action_fits (config e) a (towlower c) ->
  Keeps e0 e -> Keeps e0 (fst (ProcessModifier a c e)).
Proof.
  intros Hc Ha H. unfold ProcessModifier, HandleVniCircumflex, HandleVniBreve, HandleVniStroke.
  destruct a; try exact H;
    first [by apply keeps_HandleInsertChar | by apply keeps_HandleHornInsert
          | by apply keeps_HandleHornW | by apply keeps_HandleStrokeD
          | by apply keeps_HandleVniHorn | by apply keeps_ProcessVniVowelModifier
          | by apply keeps_HandleHornOrInsertU | by apply keeps_HandleUndoAllMarks
          | by apply keeps_HandleAdjacentCircumflex; simpl; auto].
Qed.
End ModifierFrame.

(** ** The rules and the public operations keep the frame

    [PushKey] and [Backspace] never touch the configuration and preserve
    well-formed letters; their effect on the raw history is exact. *)

Section RulesFrame.
Context {P : Platform}.

(** ** Tone keys *)

Lemma keeps_ToneClear e0 e a c eff r :
  c <> 0 -> Keeps e0 e -> ToneClear a c eff e = Some r -> Keeps e0 (fst r).
Proof.
  intros Hc H. unfold ToneClear. case_match; [|done].
  case_match; [intros [= <-]; keeps_chain|].
  destruct (ProcessClearTone e) as [e1 b] eqn:E. name_pairs.
  case_match; intros [= <-]. apply keeps_UpdateSpellState. by apply keeps_ProcessClearTone.
Qed.

(** The English gates move the bias only. *)
Lemma EnglishToneGate_states c tt t rt e :
  states (fst (EnglishToneGate c tt t rt e)) = states e.
Proof. unfold EnglishToneGate. cbv zeta. repeat case_match; simplify_eq; done. Qed.

Lemma keeps_EnglishToneGate e0 e c tt t rt :
  Keeps e0 e -> Keeps e0 (fst (EnglishToneGate c tt t rt e)).
Proof. intros H. unfold EnglishToneGate. cbv zeta. repeat case_match; simplify_eq; keeps_chain. Qed.

Lemma keeps_ApplyToneKey e0 e t c cached :
  c <> 0 -> tone_target_ok (states e) cached -> Keeps e0 e ->
  Keeps e0 (fst (ApplyToneKey t c cached e)).
Proof.
  intros Hc Ht H. unfold ApplyToneKey.
  destruct (ProcessTone t c cached e) as [e1 b] eqn:E. name_pairs.
  pose proof (keeps_ProcessTone e0 e t c cached Hc Ht H). case_match; [|done].
  simpl. apply keeps_UpdateSpellState, keeps_states.
  - repeat case_match; keeps_chain.
  - intros. by apply wf_ApplyAutoUO.
Qed.

Lemma tone_target_ok_if (b : bool) l x y :
  tone_target_ok l x -> tone_target_ok l y -> tone_target_ok l (if b then x else y).
Proof. by destruct b. Qed.

Lemma keeps_HandleToneFsm e0 e a c u :
  c <> 0 -> Keeps e0 e -> Keeps e0 (fst (HandleToneFsm a c (towlower c) u e)).
Proof.
  intros Hc H. unfold HandleToneFsm. case_match eqn:Hcl; [eauto using keeps_ToneClear|].
  cbv zeta. generalize (if length (states e) == 0%nat then ToneNone else ActionToTone a) as rt.
  intros rt. case_match; [done|].
  assert (forall e', Keeps e0 e' ->
    Keeps e0 (fst (UpdateSpellState (ProcessChar (towlower c) u e'), true))) as Hlit.
  { intros. keeps_chain. }
  do 3 (head_if; [by apply Hlit|]).
  match goal with |- context [let '(_, _) := ?x in _] => destruct x as [e1 lit] eqn:Hg end.
  assert (Keeps e0 e1 /\ states e1 = states e) as [H1 Hs].
  { case_match; simplify_eq; [|done]. name_pairs.
    split; [by apply keeps_EnglishToneGate|apply EnglishToneGate_states]. }
  do 2 (head_if; [by apply Hlit|]).
  apply keeps_ApplyToneKey; [done| |done]. rewrite Hs.
  repeat apply tone_target_ok_if; auto with vkey.
Qed.

(** ** Modifier keys *)

Lemma keeps_StrokePreCheck e0 e b : Keeps e0 e -> Keeps e0 (StrokePreCheck b e).
Proof. intros H. unfold StrokePreCheck. cbv zeta. repeat case_match; keeps_chain. Qed.

Lemma keeps_AcceptModifier e0 e : Keeps e0 e -> Keeps e0 (AcceptModifier e).
Proof.
  intros H. unfold AcceptModifier. apply keeps_UpdateSpellState, keeps_states; [keeps_chain|].
  intros. by apply wf_ApplyAutoUO.
Qed.

Lemma keeps_TryModifier e0 e b a c l :
  c <> 0 -> action_fits (config e) a (towlower c) ->
  Keeps e0 e -> Keeps e0 (fst (TryModifier b a c l e)).
Proof.
  intros Hc Ha H. unfold TryModifier. cbv zeta. head_if; [|done].
  destruct (ProcessModifier a c e) as [e1 r] eqn:E. name_pairs.
  pose proof (keeps_ProcessModifier e0 e a c Hc Ha H).
  head_if; [by apply keeps_AcceptModifier|done].
Qed.

Lemma StrokePreCheck_config b e : config (StrokePreCheck b e) = config e.
Proof. unfold StrokePreCheck. cbv zeta. by repeat case_match. Qed.

Lemma keeps_HandleTelexModifier e0 e a c l eff :
  c <> 0 -> action_fits (config e) a (towlower c) ->
  Keeps e0 e -> Keeps e0 (fst (HandleTelexModifier a c l eff e)).
Proof.
  intros Hc Ha H. unfold HandleTelexModifier. cbv zeta. head_if; [|by apply keeps_StrokePreCheck].
  apply keeps_TryModifier; [done|by rewrite StrokePreCheck_config|by apply keeps_StrokePreCheck].
Qed.

Lemma keeps_HandleVniModifier e0 e a c l eff :
  c <> 0 -> action_fits (config e) a (towlower c) ->
  Keeps e0 e -> Keeps e0 (fst (HandleVniModifier a c l eff e)).
Proof.
  intros Hc Ha H. unfold HandleVniModifier. cbv zeta. head_if; [|by apply keeps_StrokePreCheck].
  apply keeps_TryModifier; [done|by rewrite StrokePreCheck_config|by apply keeps_StrokePreCheck].
Qed.

Lemma keeps_HandleUserModifier e0 e a c l eff :
  c <> 0 -> action_fits (config e) a (towlower c) ->
  Keeps e0 e -> Keeps e0 (fst (HandleUserModifier a c l eff e)).
Proof.
  intros Hc Ha H. unfold HandleUserModifier. cbv zeta. head_if; [|done].
  by apply keeps_TryModifier.
Qed.

Lemma keeps_HandleModifierAction e0 e a c l :
  c <> 0 -> action_fits (config e) a (towlower c) ->
  Keeps e0 e -> Keeps e0 (fst (HandleModifierAction a c l e)).
Proof.
  intros Hc Ha H. unfold HandleModifierAction. cbv zeta. head_if; [done|].
  match goal with |- context [let '(_, _) := ?x in _] => destruct x as [e1 b1] eqn:E1 end.
  assert (Keeps e0 e1 /\ config e1 = config e) as [H1 Hc1].
  { case_match; simplify_eq; [|done]. name_pairs.
    split; [|apply (keeps_config e)]; by apply keeps_HandleTelexModifier. }
  destruct b1; [done|].
  match goal with |- context [let '(_, _) := ?x in _] => destruct x as [e2 b2] eqn:E2 end.
  assert (Keeps e0 e2 /\ config e2 = config e1) as [H2 Hc2].
  { case_match; simplify_eq; [|done]. name_pairs.
    split; [|apply (keeps_config e1)]; apply keeps_HandleVniModifier; auto with vkey; by rewrite Hc1. }
  destruct b2; [done|]. head_if; [|done].
  apply keeps_HandleUserModifier; auto. by rewrite Hc2, Hc1.
Qed.

(** ** Finalization *)

Lemma keeps_RevertSyntheticW e0 e : Keeps e0 e -> Keeps e0 (RevertSyntheticW e).
Proof.
  intros H. unfold RevertSyntheticW. cbv zeta. case_match; [|done]. bool_hyps.
  apply keeps_states; [keeps_chain|]. intros Hw. apply wf_alter_synthetic.
  change (wf_states (states e)) in Hw.
  destruct (states e) as [|s l] eqn:E; [done|]. inversion_clear Hw. simpl in *.
  constructor; [|done].
  match goal with H : cs_tone s = _ |- _ => repeat split; simpl; rewrite ?H; done end.
Qed.

Lemma keeps_RevertUsePrefix e0 e : Keeps e0 e -> Keeps e0 (RevertUsePrefix e).
Proof.
  intros H. unfold RevertUsePrefix. cbv zeta. case_match; [|done]. bool_hyps.
  apply keeps_engBias, keeps_states; [done|]. intros Hw.
  change (wf_states (states e)) in Hw.
  destruct (states e) as [|s0 [|s1 [|? ?]]] eqn:E; try done.
  inversion_clear Hw as [|? ? Hw0 Hw']. inversion_clear Hw' as [|? ? Hw1 _].
  destruct Hw0 as (?&?&?&?), Hw1 as (?&?&?&?).
  repeat constructor; done.
Qed.

Lemma keeps_FinalizeRegularChar e0 e : Keeps e0 e -> Keeps e0 (FinalizeRegularChar e).
Proof.
  intros H. unfold FinalizeRegularChar. cbv zeta.
  match goal with |- context [RevertUsePrefix ?x] => assert (Keeps e0 (RevertUsePrefix x)) end.
  { apply keeps_RevertUsePrefix, keeps_RevertSyntheticW. keeps_chain; intros; auto 6 with vkey. }
  head_if; [by apply keeps_engProt|done].
Qed.

(** ** Quick consonants *)

Lemma keeps_UndoQuickStart e0 e c : Keeps e0 e -> Keeps e0 (UndoQuickStart c e).
Proof.
  intros H. unfold UndoQuickStart. case_match; [|done]. bool_hyps. cbv zeta. case_match; [|keeps_chain].
  apply keeps_rawInput, keeps_ProcessChar1; [done|]. keeps_chain. constructor.
Qed.

Lemma QuickReplacement_cases b c :
  QuickReplacement b c <> 0 -> In (QuickReplacement b c) [L "h"; L "i"; L "g"; L "u"].
Proof. unfold QuickReplacement. intros H. repeat case_match; simpl; auto 10. Qed.

Lemma keeps_QuickConsonant e0 e c u : Keeps e0 e -> Keeps e0 (fst (QuickConsonant c u e)).
Proof.
  intros H. unfold QuickConsonant. cbv zeta. case_match.
  - case_match eqn:Hr; [|done]. bool_hyps. apply keeps_FinalizeRegularChar.
    apply QuickReplacement_cases in Hr.
    apply keeps_ProcessChar; [case_match; auto using towupper_nonzero|keeps_chain].
    + destruct Hr as [<-|[<-|[<-|[<-|[]]]]]; done.
    + destruct Hr as [<-|[<-|[<-|[<-|[]]]]]; done.
  - case_match; [|done]. case_match; [|done]. simpl. bool_hyps.
    apply keeps_UpdateSpellState, keeps_qc, keeps_push_state; try done.
    unfold back in *. keeps_chain.
Qed.

Lemma QuickStartPair_nonzero c x y : QuickStartPair c = Some (x, y) -> x <> 0 /\ y <> 0.
Proof. unfold QuickStartPair. repeat case_match; intros; simplify_eq; done. Qed.

Lemma keeps_HandleQuickStartConsonant e0 e c l u :
  Keeps e0 e -> Keeps e0 (fst (HandleQuickStartConsonant c l u e)).
Proof.
  intros H. unfold HandleQuickStartConsonant. case_match eqn:Hq.
  - destruct p as [x y]. case_match; [|done]. apply QuickStartPair_nonzero in Hq as [Hx Hy].
    cbv zeta. apply keeps_UpdateSpellState, keeps_quickStartKey, keeps_ProcessChar1; [done|].
    apply keeps_ProcessChar1; [case_match; auto using towupper_nonzero|done].
  - cbv zeta. match goal with |- context [let '(_, _) := ?x in _] => destruct x as [q b] end.
    match goal with |- context [if ?b then QuickConsonant _ _ ?x else _] =>
      assert (Keeps e0 x) by (apply keeps_qc; by apply keeps_UndoQuickStart) end.
    head_if; [by apply keeps_QuickConsonant|done].
Qed.

Lemma keeps_HandleQuickEndConsonant e0 e l :
  Keeps e0 e -> Keeps e0 (fst (HandleQuickEndConsonant l e)).
Proof.
  intros H. unfold HandleQuickEndConsonant. cbv zeta.
  repeat case_match; simplify_eq; try done;
    apply keeps_UpdateSpellState; repeat (apply keeps_ProcessChar1; [done|]); done.
Qed.

(** ** Dispatch *)

Record ctx_ok (cfg : TypingConfig) (ctx : RuleContext) : Prop := {
  ctx_key : cx_keyChar ctx <> 0;
  ctx_lower : cx_lower ctx = towlower (cx_keyChar ctx);
  ctx_action : action_fits cfg (cx_action ctx) (cx_lower ctx)
}.

Definition rule_keeps (r : Rule) : Prop :=
  forall ctx e0 e, ctx_ok (config e) ctx -> Keeps e0 e -> Keeps e0 (fst (applyRule r ctx e)).

Lemma veto_if_fst r : fst (veto_if r) = fst r.
Proof. by destruct r. Qed.

Lemma ToneRule_keeps : rule_keeps ToneRule.
Proof.
  intros ctx e0 e [Hk Hl Ha] H. simpl. head_if; [done|]. rewrite veto_if_fst, Hl.
  by apply keeps_HandleToneFsm.
Qed.

Lemma ModifierRule_keeps : rule_keeps ModifierRule.
Proof.
  intros ctx e0 e [Hk Hl Ha] H. simpl. head_if; [done|]. rewrite veto_if_fst.
  apply keeps_HandleModifierAction; [done|by rewrite <- Hl|done].
Qed.

Lemma QuickStartConsonantRule_keeps : rule_keeps QuickStartConsonantRule.
Proof. intros ctx e0 e _ H. by apply keeps_HandleQuickStartConsonant. Qed.

Lemma QuickEndConsonantRule_keeps : rule_keeps QuickEndConsonantRule.
Proof.
  intros ctx e0 e _ H. simpl. do 3 (head_if; [done|]). rewrite veto_if_fst.
  by apply keeps_HandleQuickEndConsonant.
Qed.

Lemma engine_registry_buckets :
  preRules engine_registry = [QuickStartConsonantRule] /\
  postRules engine_registry = [ToneRule; ModifierRule; QuickEndConsonantRule].
Proof. done. Qed.

Lemma engine_registry_keeps p : Forall rule_keeps (bucket p engine_registry).
Proof.
  destruct engine_registry_buckets as [Hpre Hpost].
  destruct p; simpl; rewrite ?Hpre, ?Hpost;
    repeat apply List.Forall_cons; try apply List.Forall_nil; auto using ToneRule_keeps, ModifierRule_keeps,
      QuickStartConsonantRule_keeps, QuickEndConsonantRule_keeps.
Qed.

Lemma keeps_DispatchRules raised ctx rules e0 e :
  Forall rule_keeps rules -> ctx_ok (config e) ctx -> Keeps e0 e ->
  Keeps e0 (fst (DispatchRules raised ctx rules e)).
Proof.
  intros Hr. revert e. induction Hr as [|r rules Hr Hrs IH]; intros e Hx H; simpl; [done|].
  head_if; [by apply IH|].
  pose proof (Hr ctx e0 e Hx H). pose proof (keeps_config _ _ (Hr ctx e e Hx (keeps_refl e))) as Hc.
  destruct (applyRule r ctx e) as [e1 res]. simpl in *.
  destruct res; simpl; [|done|done]. apply IH; [by rewrite Hc|done].
Qed.

Lemma keeps_DispatchAtPhase p ctx e0 e :
  ctx_ok (config e) ctx -> Keeps e0 e ->
  Keeps e0 (fst (DispatchAtPhase engine_registry p ctx e)).
Proof. intros. by apply keeps_DispatchRules; [apply engine_registry_keeps|..]. Qed.

(** ** PushKey *)

Lemma ClassifyKey_circumflex c b1 b2 :
  In (ClassifyKey c b1 b2) [CircumflexA; CircumflexE; CircumflexO] ->
  (c =w L "a") || (c =w L "e") || (c =w L "o") = true.
Proof.
  unfold ClassifyKey, CanonicalBracketKey. cbv zeta. intros H.
  repeat case_match; bool_hyps; subst; try done; simpl in H; intuition discriminate.
Qed.

Lemma ResolveAction_fits c cfg : action_fits cfg (ResolveAction c cfg) c.
Proof.
  intros Hm. unfold ResolveAction. cbv zeta.
  rewrite (bool_decide_eq_false_2 (inputMethod cfg = UserDefined)) by done.
  rewrite andb_false_r. simpl.
  pose proof (ClassifyKey_circumflex c (IsTelexMode cfg) (IsVniMode cfg)) as Hc.
  destruct (ClassifyKey _ _ _); simpl in *; tauto.
Qed.

Lemma snapshot_ok c u a d e :
  c <> 0 -> action_fits (config e) a (towlower c) ->
  ctx_ok (config e) (snapshot c (towlower c) u a d e).
Proof. by split. Qed.

Lemma keeps_ClassifyAndApply e0 e c u :
  c <> 0 -> Keeps e0 e -> Keeps e0 (ClassifyAndApply c (towlower c) u e).
Proof.
  intros Hc H. unfold ClassifyAndApply. cbv zeta.
  match goal with |- context [DispatchAtPhase _ _ ?x e] =>
    assert (ctx_ok (config e) x) as Hx end.
  { apply snapshot_ok; [done|]. case_match; [done|apply ResolveAction_fits]. }
  pose proof (keeps_DispatchAtPhase PostClassify _ e0 e Hx H).
  destruct (DispatchAtPhase _ _ _ e) as [e1 r]. simpl in *. head_if; [done|].
  apply keeps_FinalizeRegularChar. by apply keeps_ProcessChar.
Qed.

(** Everything after the key has been recorded. *)
Lemma keeps_PushKey e c u :
  c <> 0 -> Keeps (RecordKey c u e) (PushKey c u e).
Proof.
  intros Hc. unfold PushKey. cbv zeta.
  pose proof (keeps_RevertProvisionalOoTone _ _ (towlower c) (keeps_refl (RecordKey c u e))) as H1.
  destruct (RevertProvisionalOoTone _ _) as [e1 b]. simpl in H1.
  head_if; [keeps_chain|].
  assert (ctx_ok (config e1) (snapshot c (towlower c) u ActNone false e1)) as Hx
    by by apply snapshot_ok.
  pose proof (keeps_DispatchAtPhase PreClassify _ _ e1 Hx H1).
  destruct (DispatchAtPhase _ _ _ e1) as [e2 r]. simpl in *. head_if; [done|].
  by apply keeps_ClassifyAndApply.
Qed.

Lemma PushKey_config e c u : c <> 0 -> config (PushKey c u e) = config e.
Proof. intros Hc. by rewrite (keeps_config _ _ (keeps_PushKey e c u Hc)). Qed.
Lemma PushKey_history e c u :
  c <> 0 -> escRawHistory (PushKey c u e) = escRawHistory e ++ [c].
Proof. intros Hc. by rewrite (keeps_history _ _ (keeps_PushKey e c u Hc)). Qed.
Lemma PushKey_WF e c u : c <> 0 -> WF e -> WF (PushKey c u e).
Proof. intros Hc. by apply (keeps_wf _ _ (keeps_PushKey e c u Hc)). Qed.

(** ** Backspace, commit and seeding *)

Lemma recalc_bias_states e : states (recalc_bias e) = states e.
Proof. unfold recalc_bias. by case_match. Qed.
Lemma recalc_bias_config e : config (recalc_bias e) = config e.
Proof. unfold recalc_bias. by case_match. Qed.
Lemma recalc_bias_history e : escRawHistory (recalc_bias e) = escRawHistory e.
Proof. unfold recalc_bias. by case_match. Qed.
Lemma recalc_bias_WF e : WF e -> WF (recalc_bias e).
Proof. unfold WF. by rewrite recalc_bias_states. Qed.

Lemma keeps_recalc_bias e0 e : Keeps e0 e -> Keeps e0 (recalc_bias e).
Proof. intros. unfold recalc_bias. cbv zeta. head_if; keeps_chain. Qed.

Lemma keeps_BackspaceQuick e0 e : Keeps e0 e -> Keeps e0 (BackspaceQuick e).
Proof.
  intros H. unfold BackspaceQuick. cbv zeta. apply keeps_recalc_bias, keeps_UpdateSpellState.
  match goal with |- Keeps _ (if _ then ProcessChar1 _ ?x else _) => assert (Keeps e0 x) end.
  { apply keeps_states; [apply keeps_qc, keeps_states; auto with vkey|]. auto with vkey. }
  head_if; [|done]. bool_hyps. by apply keeps_ProcessChar1.
Qed.

Lemma BackspaceRegular_states e : states (BackspaceRegular e) = pop_back (states e).
Proof.
  unfold BackspaceRegular. cbv zeta. rewrite recalc_bias_states. simpl.
  repeat case_match; done.
Qed.

Lemma BackspaceRegular_config e : config (BackspaceRegular e) = config e.
Proof.
  unfold BackspaceRegular. cbv zeta. rewrite recalc_bias_config. simpl.
  repeat case_match; done.
Qed.

Lemma Backspace_config e : config (Backspace e) = config e.
Proof.
  unfold Backspace. cbv zeta. repeat case_match; try done.
  - by rewrite (keeps_config _ _ (keeps_BackspaceQuick _ _ (keeps_refl _))).
  - by rewrite BackspaceRegular_config.
Qed.

Lemma Backspace_WF e : WF e -> WF (Backspace e).
Proof.
  intros Hw. unfold Backspace. cbv zeta. case_match; [done|]. case_match eqn:Hq; [|case_match].
  - bool_hyps. apply wf_states_snoc; [constructor|]. by apply wf_plain.
  - apply (keeps_wf _ _ (keeps_BackspaceQuick _ _ (keeps_refl _))). done.
  - unfold WF. rewrite BackspaceRegular_states. by apply wf_states_pop_back.
Qed.

Lemma Commit_engine e :
  snd (Commit e) = Reset (fst (RevertProvisionalOoTone (L " ") e)).
Proof. done. Qed.

Lemma Commit_config e : config (snd (Commit e)) = config e.
Proof.
  rewrite Commit_engine. simpl.
  apply (keeps_config _ _ (keeps_RevertProvisionalOoTone _ _ _ (keeps_refl e))).
Qed.

Lemma Reset_WF e : WF (Reset e).
Proof. constructor. Qed.
End RulesFrame.
