(* ===== verification/ComposeFacts.v ===== *)
(** * Composition and decomposition are inverse

    Facts on [Compose], [DecomposeVietChar] and [FromDecomposed], and on
    [SeedFromText] which replays them over a word. *)

From S2P Require Import Prelude Tables Action Config CharState Validator.
From S2P Require Import TonePosition English Helpers Engine Modifiers Rules.
From S2P Require Import TypingEngine Invariant RulesFrame.
Open Scope Z_scope.

(** ** Composition of a well-formed letter *)

Lemma ToUpperVietnamese_nonzero c : c <> 0 -> ToUpperVietnamese c <> 0.
Proof.
  intros Hc. unfold ToUpperVietnamese.
  repeat case_match; bool_hyps; try lia; auto using towupper_nonzero.
Qed.

Lemma ToneBaseIndex_lt c i : ToneBaseIndex c = Some i -> (i < 12)%nat.
Proof. unfold ToneBaseIndex. repeat case_match; intros; simplify_eq; lia. Qed.
Lemma ToneIndex_lt t i : ToneIndex t = Some i -> (i < 5)%nat.
Proof. destruct t; simpl; intros; simplify_eq; lia. Qed.

Lemma kTonedVowel_nonzero i j :
  (i < 12)%nat -> (j < 5)%nat -> table_at kTonedVowel i j <> 0.
Proof.
  intros Hi Hj.
  assert (forallb (fun i => forallb (fun j => table_at kTonedVowel i j <>w 0) (seq 0 5)) (seq 0 12)
          = true) as H by reflexivity.
  rewrite forallb_forall in H. specialize (H i). rewrite in_seq, forallb_forall in H.
  specialize (H ltac:(lia) j). rewrite in_seq in H. specialize (H ltac:(lia)). by bool_hyps.
Qed.

Lemma apply_tone_nonzero t c : c <> 0 -> apply_tone t c <> 0.
Proof.
  intros Hc. unfold apply_tone. case_match; [|done].
  destruct (ToneBaseIndex c) eqn:Hb; [|done]. destruct (ToneIndex t) eqn:Ht; [|done].
  apply kTonedVowel_nonzero; [eapply ToneBaseIndex_lt|eapply ToneIndex_lt]; done.
Qed.

Lemma apply_modifier_nonzero s : cs_base s <> 0 -> apply_modifier s <> 0.
Proof.
  intros Hs. unfold apply_modifier. case_match; [|done].
  destruct (VowelBaseIndex _); [|done]. destruct (ModifierIndex _); [|done].
  cbv zeta. case_match; bool_hyps; done.
Qed.

Lemma Compose_nonzero s : cs_base s <> 0 -> Compose s <> 0.
Proof.
  intros Hs. unfold Compose, IsEmpty. rewrite (proj2 (Z.eqb_neq _ _) Hs). cbv zeta.
  repeat case_match; try done;
    auto using ToUpperVietnamese_nonzero, apply_tone_nonzero, apply_modifier_nonzero.
Qed.

Lemma ComposeStates_map l :
  Forall (fun s => cs_base s <> 0) l -> ComposeStates l = map Compose l.
Proof.
  unfold ComposeStates. induction 1 as [|s l Hs Hl IH]; simpl; [done|].
  apply Compose_nonzero, Z.eqb_neq in Hs. rewrite Hs. simpl. by rewrite IH.
Qed.

Lemma wf_ComposeStates l : wf_states l -> ComposeStates l = map Compose l.
Proof. intros H. apply ComposeStates_map. revert H. apply Forall_impl. by intros s []. Qed.

(** ** The two case maps *)

Lemma ToLowerVietnamese_range c : ToLowerVietnamese c <> c -> 0 <= c < 7930.
Proof. unfold ToLowerVietnamese, towlower. repeat case_match; bool_hyps; lia. Qed.

(** Lowercasing that changed something is undone by uppercasing. *)
Lemma ToUpper_ToLower c :
  ToLowerVietnamese c <> c -> ToUpperVietnamese (ToLowerVietnamese c) = c.
Proof.
  intros H.
  assert ((ToLowerVietnamese c =w c) || (ToUpperVietnamese (ToLowerVietnamese c) =w c) = true) as Hc.
  { pattern c. revert c H. intros c H%ToLowerVietnamese_range.
    apply (forall_units (fun c => (ToLowerVietnamese c =w c) ||
      (ToUpperVietnamese (ToLowerVietnamese c) =w c)) 0 7930); [vm_compute; reflexivity|lia]. }
  apply orb_true_iff in Hc as [Hc|Hc]; by bool_hyps.
Qed.

(** ** Decomposition *)

(** [DecomposeVietChar] once the letter has been lowercased. *)
Definition decompose_low (lower : wchar) (isUpper : bool) : option Decomposed :=
  if lower =w 0x111 then Some (mkDecomposed (L "d") 3 (-1) isUpper)
  else match FindToned lower with
  | Some (i, j) =>
      match decomposeToneBase (nth i kToneBase 0) with
      | Some (b, m) => Some (mkDecomposed b m (Z.of_nat j) isUpper)
      | None => None
      end
  | None =>
      match decomposeToneBase lower with
      | Some (b, m) => Some (mkDecomposed b m (-1) isUpper)
      | None =>
          if (L "a" <=? lower) && (lower <=? L "z")
          then Some (mkDecomposed lower (-1) (-1) isUpper)
          else None
      end
  end.

Lemma DecomposeVietChar_low c :
  DecomposeVietChar c = decompose_low (ToLowerVietnamese c) (ToLowerVietnamese c <>w c).
Proof. done. Qed.

(** Where rendered Vietnamese letters live: below Latin Extended-B, and in the
    Vietnamese part of Latin Extended Additional. *)
Definition viet_range (c : wchar) : Prop := 0 <= c < 0x1C0 \/ 0x1EA0 <= c < 0x1EFA.

Lemma FindToned_range c p : FindToned c = Some p -> viet_range c.
Proof.
  unfold FindToned. case_match eqn:H; [|done]. intros _. apply find_fwd_Some in H as (Hn & H & _).
  assert (forallb (fun k => let c := table_at kTonedVowel (k / 5) (k mod 5) in
    (0 <=? c) && (c <? 0x1C0) || (0x1EA0 <=? c) && (c <? 0x1EFA)) (seq 0 60) = true) as Hf
    by reflexivity.
  rewrite forallb_forall in Hf. specialize (Hf n). rewrite in_seq in Hf.
  specialize (Hf ltac:(lia)). apply orb_true_iff in Hf.
  unfold viet_range. destruct Hf; bool_hyps; lia.
Qed.

Lemma decompose_low_range c u d : decompose_low c u = Some d -> viet_range c.
Proof.
  unfold decompose_low, decomposeToneBase. case_match; bool_hyps; [unfold viet_range; lia|].
  destruct (FindToned c) as [p|] eqn:Hp; [intros _; by eapply FindToned_range|].
  unfold viet_range. repeat case_match; intros; simplify_eq; bool_hyps; lia.
Qed.

Definition is_letter (b : wchar) : bool := (L "a" <=? b) && (b <=? L "z").

(** The letter a decomposition names, checked for every code unit. *)
Definition recomposes (u : bool) (c : wchar) : bool :=
  match decompose_low c u with
  | Some d => bool_decide (wf_state (FromDecomposed d 0)) &&
              (Compose (FromDecomposed d 0) =w (if u then ToUpperVietnamese c else c)) &&
              is_letter (cs_base (FromDecomposed d 0))
  | None => true
  end.

Lemma decompose_low_recomposes c u : recomposes u c = true.
Proof.
  destruct (decompose_low c u) as [d|] eqn:H.
  - apply decompose_low_range in H as [H|H]; destruct u; revert c H; apply forall_units;
      vm_compute; reflexivity.
  - unfold recomposes. by rewrite H.
Qed.

Lemma DecomposeVietChar_sound c d r :
  DecomposeVietChar c = Some d ->
  wf_state (FromDecomposed d r) /\ Compose (FromDecomposed d r) = c /\
  is_letter (cs_base (FromDecomposed d r)) = true.
Proof.
  rewrite DecomposeVietChar_low. intros H.
  pose proof (decompose_low_recomposes (ToLowerVietnamese c) (ToLowerVietnamese c <>w c)) as Hr.
  unfold recomposes in Hr. rewrite H in Hr. bool_hyps. split; [done|]. split; [|done].
  change (Compose (FromDecomposed d r)) with (Compose (FromDecomposed d 0)).
  match goal with H : Compose _ = _ |- _ => rewrite H end.
  destruct (ToLowerVietnamese c =w c) eqn:E; simpl; [by apply Z.eqb_eq|].
  apply ToUpper_ToLower. by apply Z.eqb_neq.
Qed.

(** ** What a rendered letter remembers

    [visible]: base, marks and case, without the keystroke bookkeeping. *)

Definition visible (s : CharState) : CharState :=
  mkCS (cs_base s) (cs_mod s) (cs_tone s) (cs_isUpper s) false 0%nat None.

(** The two capitals [ToLowerVietnamese] does not know: U+0128 and U+0168. *)
Definition capital_i_u_tilde (s : CharState) : bool :=
  cs_isUpper s && (cs_mod s == ModNone) && (cs_tone s == Tilde) &&
  ((cs_base s =w L "i") || (cs_base s =w L "u")).

Definition all_mods : list Modifier := [ModNone; Circumflex; Breve; Horn; Stroke].
Definition all_tones : list Tone := [ToneNone; Acute; Grave; Hook; Tilde; Dot].

Definition decomposes_back (s : CharState) : bool :=
  match DecomposeVietChar (Compose s) with
  | Some d => negb (capital_i_u_tilde s) && (FromDecomposed d 0 == s)
  | None => capital_i_u_tilde s
  end.

Lemma decomposes_back_all :
  forallb (fun m => forallb (fun t => forallb (fun u => forallb (fun i =>
    let s := mkCS (L "a" + Z.of_nat i) m t u false 0%nat None in
    negb (mod_fits m (cs_base s)) || negb (tone_fits t (cs_base s)) || decomposes_back s)
    (seq 0 26)) [true; false]) all_tones) all_mods = true.
Proof. vm_compute. reflexivity. Qed.

Lemma Compose_visible s : Compose (visible s) = Compose s.
Proof. done. Qed.

Lemma decomposes_back_wf s :
  wf_state s -> is_letter (cs_base s) = true -> decomposes_back (visible s) = true.
Proof.
  intros (_ & _ & Hm & Ht) Hb. unfold is_letter in Hb. bool_hyps.
  pose proof decomposes_back_all as Hall. rewrite forallb_forall in Hall.
  specialize (Hall (cs_mod s)). rewrite forallb_forall in Hall.
  specialize (Hall ltac:(destruct (cs_mod s); simpl; tauto) (cs_tone s)). rewrite forallb_forall in Hall.
  specialize (Hall ltac:(destruct (cs_tone s); simpl; tauto) (cs_isUpper s)).
  rewrite forallb_forall in Hall.
  specialize (Hall ltac:(destruct (cs_isUpper s); simpl; tauto) (Z.to_nat (cs_base s - 97))).
  rewrite in_seq in Hall. specialize (Hall ltac:(lia)). cbv zeta in Hall.
  replace (97 + Z.of_nat (Z.to_nat (cs_base s - 97))) with (cs_base s) in Hall by lia.
  simpl in Hall. rewrite Hm, Ht in Hall. exact Hall.
Qed.

Lemma Decompose_Compose s :
  wf_state s -> is_letter (cs_base s) = true -> capital_i_u_tilde s = false ->
  exists d, DecomposeVietChar (Compose s) = Some d /\ FromDecomposed d 0 = visible s /\
    dc_base d = cs_base s /\ dc_isUpper d = cs_isUpper s.
Proof.
  intros Hw Hb Hc. pose proof (decomposes_back_wf s Hw Hb) as H.
  unfold decomposes_back in H. rewrite Compose_visible in H.
  change (capital_i_u_tilde (visible s)) with (capital_i_u_tilde s) in H. rewrite Hc in H.
  destruct (DecomposeVietChar (Compose s)) as [d|]; [|done]. simpl in H. bool_hyps.
  exists d. repeat split; [done|..].
  - change (cs_base s) with (cs_base (visible s)).
    match goal with H : _ = visible s |- _ => by rewrite <- H end.
  - change (cs_isUpper s) with (cs_isUpper (visible s)).
    match goal with H : _ = visible s |- _ => by rewrite <- H end.
Qed.

(** ** Seeding *)

Lemma FromDecomposed_rawIdx d r : FromDecomposed d r = set_rawIdx r (FromDecomposed d 0).
Proof. done. Qed.

Definition seed_key (d : Decomposed) : wchar :=
  if dc_isUpper d then towupper (dc_base d) else dc_base d.

(** The loop appends one letter and one raw key per decomposed character. *)
Lemma SeedLoop_Some text e ds :
  map DecomposeVietChar text = map Some ds ->
  SeedLoop text e = Some
    (set_states (states e ++ imap (fun i d => FromDecomposed d (length (rawInput e) + i)) ds)
      (set_rawInput (rawInput e ++ map seed_key ds) e)).
Proof.
  revert e ds. induction text as [|c text IH]; intros e [|d ds] H; try done; simpl in *.
  - rewrite !app_nil_r. by destruct e.
  - injection H as Hc Ht. rewrite Hc, (IH _ ds Ht). simpl. rewrite length_app, <- !app_assoc. simpl.
    f_equal. unfold set_states, set_rawInput. simpl. f_equal. f_equal. f_equal; [f_equal; lia|].
    apply imap_ext. intros i d' _. simpl. f_equal. lia.
Qed.

Lemma SeedLoop_None text e :
  Exists (fun c => DecomposeVietChar c = None) text -> SeedLoop text e = None.
Proof.
  intros H. revert e. induction H as [c text Hc|c text H IH]; intros e; simpl; [by rewrite Hc|].
  destruct (DecomposeVietChar c); auto.
Qed.

Lemma decompose_all_or_fail text :
  (exists ds, map DecomposeVietChar text = map Some ds) \/
  Exists (fun c => DecomposeVietChar c = None) text.
Proof.
  induction text as [|c text [[ds H]|H]]; [left; by exists []| |right; by constructor].
  destruct (DecomposeVietChar c) as [d|] eqn:E; [left; exists (d :: ds)|right; by constructor].
  simpl. by rewrite E, H.
Qed.

Section Seed.
Context {P : Platform}.

Lemma SeedFromText_Some text e ds :
  map DecomposeVietChar text = map Some ds ->
  snd (SeedFromText text e) = true /\
  states (fst (SeedFromText text e)) = imap (fun i d => FromDecomposed d i) ds /\
  rawInput (fst (SeedFromText text e)) = map seed_key ds /\
  config (fst (SeedFromText text e)) = config e.
Proof. intros H. unfold SeedFromText. cbv zeta. by rewrite (SeedLoop_Some _ _ _ H). Qed.

Lemma SeedFromText_None text e :
  Exists (fun c => DecomposeVietChar c = None) text ->
  snd (SeedFromText text e) = false /\ states (fst (SeedFromText text e)) = [] /\
  config (fst (SeedFromText text e)) = config e.
Proof. intros H. unfold SeedFromText. cbv zeta. by rewrite SeedLoop_None. Qed.

Lemma seeded_letters ds text :
  map DecomposeVietChar text = map Some ds ->
  wf_states (imap (fun i d => FromDecomposed d i) ds) /\
  map Compose (imap (fun i d => FromDecomposed d i) ds) = text.
Proof.
  intros H. change (fun i d => FromDecomposed d i) with (fun i d => FromDecomposed d (0 + i)).
  generalize 0%nat. revert ds H. induction text as [|c text IH]; intros [|d ds] H n; try done; simpl in *.
  - split; [constructor|done].
  - injection H as Hd Ht. destruct (DecomposeVietChar_sound c d (n + 0) Hd) as (Hw & Hc & _).
    destruct (IH ds Ht (S n)) as [IH1 IH2].
    rewrite (imap_ext _ (fun i d => FromDecomposed d (S n + i)))
      by (intros; simpl; f_equal; lia).
    split; [by constructor|]. by rewrite Hc, IH2.
Qed.

Lemma SeedFromText_WF text e : WF (fst (SeedFromText text e)).
Proof.
  unfold WF. destruct (decompose_all_or_fail text) as [[ds H]|H].
  - destruct (SeedFromText_Some text e ds H) as (_ & -> & _). by apply (seeded_letters ds text).
  - destruct (SeedFromText_None text e H) as (_ & -> & _). constructor.
Qed.

Lemma SeedFromText_config text e : config (fst (SeedFromText text e)) = config e.
Proof.
  destruct (decompose_all_or_fail text) as [[ds H]|H].
  - by apply (SeedFromText_Some text e ds).
  - by apply (SeedFromText_None text e).
Qed.
End Seed.
