(* ===== verification/ValidatorFacts.v ===== *)
(** * What the validator accepts

    An abstract grammar of the syllable - onset, nucleus, coda, tone - and the
    proof that the decision procedure of Validator.v implements it. *)

From stdpp Require Import sets.
From S2P Require Import Prelude CharState Validator.
Open Scope Z_scope.

(** ** The grammar *)

(** The onsets, as the letters typed; z j w f count only when allowed. *)
Definition onsets (allowZwjf : bool) : list wstring :=
  [[]] ++
  map (fun c => [c]) ([L "b"; L "c"; L "d"; L "g"; L "h"; L "k"; L "l"; L "m"; L "n"; L "p";
    L "q"; L "r"; L "s"; L "t"; L "v"; L "x"] ++
    (if allowZwjf then [L "z"; L "j"; L "w"; L "f"] else [])) ++
  [[L "c"; L "h"]; [L "g"; L "h"]; [L "g"; L "i"]; [L "k"; L "h"]; [L "n"; L "g"];
   [L "n"; L "h"]; [L "p"; L "h"]; [L "q"; L "u"]; [L "t"; L "h"]; [L "t"; L "r"]] ++
  [[L "n"; L "g"; L "h"]].

Definition codas : list wstring :=
  [[L "c"]; [L "k"]; [L "m"]; [L "n"]; [L "p"]; [L "t"];
   [L "c"; L "h"]; [L "n"; L "g"]; [L "n"; L "h"]].

(** Codas that stop the voice, which take no tone but acute and dot. *)
Definition stop_coda (coda : wstring) : bool :=
  match coda with
  | c :: _ => (c =w L "p") || (c =w L "t") || (c =w L "c") || (c =w L "k")
  | [] => false
  end.

Definition letters (l : list CharState) : wstring := map cs_base l.

(** [rhyme l n c]: nucleus [n] and coda [c] form a complete rhyme of the buffer
    [l], whose tone may sit anywhere in it. *)
Record rhyme (l nucleus coda : list CharState) : Prop := {
  rh_vowels : Forall (fun s => IsVowel s = true) nucleus;
  rh_nonempty : nucleus <> [];
  rh_entry : exists key entry, NucleusKey nucleus (length nucleus) = Some key /\
    FindVowel key = Some entry /\
    (coda = [] -> ve_requiresEnd entry = false) /\
    (coda <> [] ->
       ve_canEnd entry = true /\ letters coda ∈ codas /\
       (GetAllowedFinals key = 0 \/
        Z.land (GetAllowedFinals key) (FinalConsonantBit coda (length coda)) <> 0));
  (* only ak, with a breve, takes the coda k *)
  rh_k : letters coda = [L "k"] ->
    exists a, nucleus = [a] /\ cs_base a = L "a" /\ ModOrdinal (cs_mod a) = kBrev;
  rh_stop : stop_coda (letters coda) = true -> GetTone l ∈ [ToneNone; Acute; Dot]
}.

(** ** Runs of vowels *)

Lemma VowelRun_le l : (VowelRun l <= length l)%nat.
Proof. induction l as [|s l IH]; simpl; [lia|]. case_match; simpl; lia. Qed.

Lemma VowelRun_vowels l : Forall (fun s => IsVowel s = true) (take (VowelRun l) l).
Proof.
  induction l as [|s l IH]; simpl; [constructor|]. case_match eqn:H; simpl; constructor; auto.
Qed.

Lemma VowelRun_app n c :
  Forall (fun s => IsVowel s = true) n ->
  (c = [] \/ exists s c', c = s :: c' /\ IsVowel s = false) ->
  VowelRun (n ++ c) = length n.
Proof.
  intros Hn Hc. induction Hn as [|s n Hs Hn IH]; simpl.
  - destruct Hc as [->|(s & c' & -> & Hs)]; [done|]. simpl. by rewrite Hs.
  - by rewrite Hs, IH.
Qed.

(** The nucleus key reads the nucleus only. *)
Lemma NucleusKey_take l n :
  NucleusKey (take n l) n = NucleusKey l n.
Proof.
  unfold NucleusKey. cbv zeta.
  destruct (decide (n = 1)%nat) as [->|]; [by destruct l|].
  destruct (decide (n = 2)%nat) as [->|]; [by destruct l as [|? [|? ?]]|].
  destruct (decide (n = 3)%nat) as [->|]; [by destruct l as [|? [|? [|? ?]]]|].
  by rewrite !bool_decide_eq_false_2 by done.
Qed.

Lemma NucleusKey_length l n key : NucleusKey l n = Some key -> (1 <= n <= 3)%nat.
Proof. unfold NucleusKey. cbv zeta. repeat case_match; bool_hyps; subst; try done; lia. Qed.

(** ** Codas *)

Lemma ParseFinalConsonant_le coda : (ParseFinalConsonant coda <= length coda)%nat.
Proof.
  destruct coda as [|s [|s1 coda]]; unfold ParseFinalConsonant; cbv zeta; simpl;
    repeat case_match; simpl; lia.
Qed.

(** A coda parsed to its end is one of the grammar's. *)
Lemma ParseFinalConsonant_codas coda :
  coda <> [] -> ParseFinalConsonant coda = length coda -> letters coda ∈ codas.
Proof.
  destruct coda as [|s0 [|s1 [|s2 coda]]]; [done|..]; intros _;
    unfold ParseFinalConsonant, is_pair; cbv zeta; simpl.
  - intros H. unfold letters. simpl. repeat case_match; try done.
    repeat match goal with H : _ || _ = true |- _ => apply orb_true_iff in H as [H|H] end;
      bool_hyps; match goal with H : cs_base s0 = _ |- _ => rewrite H end; set_solver.
  - unfold letters. simpl. intros H. repeat case_match; try done. bool_hyps.
    repeat match goal with H : _ || _ = true |- _ => apply orb_true_iff in H as [H|H] end;
      bool_hyps; repeat match goal with H : cs_base _ = _ |- _ => rewrite H end; set_solver.
  - intros H. repeat case_match; done.
Qed.

Lemma consonant_coda s c : letters (s :: c) ∈ codas -> IsVowel s = false.
Proof.
  unfold letters, codas, IsVowel. simpl. rewrite !elem_of_cons. intros H.
  destruct_or! H; simplify_eq;
    try match goal with H : cs_base s = _ |- _ => by rewrite H end.
  by apply elem_of_nil in H.
Qed.

Lemma codas_nonempty coda : letters coda ∈ codas -> coda <> [].
Proof.
  intros H ->. unfold letters, codas in H. simpl in H. rewrite !elem_of_cons in H.
  destruct_or! H; try done. by apply elem_of_nil in H.
Qed.

Lemma codas_ParseFinalConsonant coda :
  letters coda ∈ codas -> ParseFinalConsonant coda = length coda.
Proof.
  destruct coda as [|s0 [|s1 [|s2 coda]]]; unfold letters, codas; simpl;
    rewrite !elem_of_cons; intros H; destruct_or! H; simplify_eq;
    try (by apply elem_of_nil in H);
    unfold ParseFinalConsonant, is_pair, IsVowel; simpl;
    repeat match goal with H : cs_base _ = _ |- _ => rewrite H end; reflexivity.
Qed.

(** ** One decomposition against the grammar *)

Lemma is_stop_coda coda :
  coda <> [] -> IsStopFinal coda (length coda) = stop_coda (letters coda).
Proof.
  destruct coda as [|s c]; [done|]. intros _. unfold IsStopFinal. simpl.
  by destruct (cs_base s =w 112), (cs_base s =w 116), (cs_base s =w 99), (cs_base s =w 107).
Qed.

Lemma tone_allowed t :
  (t != ToneNone) && (ToneOrd t <>w 1) && (ToneOrd t <>w 5) = false <->
  t ∈ [ToneNone; Acute; Dot].
Proof.
  rewrite <- (bool_decide_eq_true (t ∈ [ToneNone; Acute; Dot])). by destruct t.
Qed.

(** The stop-coda test of [ValidateCoda]. *)
Lemma stop_test l coda :
  coda <> [] ->
  IsStopFinal coda (length coda) && (GetTone l != ToneNone) &&
    (ToneOrd (GetTone l) <>w 1) && (ToneOrd (GetTone l) <>w 5) = false <->
  (stop_coda (letters coda) = true -> GetTone l ∈ [ToneNone; Acute; Dot]).
Proof.
  intros Hc. rewrite is_stop_coda by done. rewrite <- tone_allowed.
  destruct (stop_coda (letters coda)); simpl; [tauto|]. split; done.
Qed.

Lemma k_test (nucleus coda : list CharState) n :
  n = length nucleus -> (1 <= n)%nat ->
  (length coda == 1%nat) && (cs_base (coda !!! 0%nat) =w L "k") &&
    negb ((n == 1%nat) && (cs_base (nucleus !!! 0%nat) =w L "a") &&
          (ModOrdinal (cs_mod (nucleus !!! 0%nat)) =w kBrev)) = false <->
  (letters coda = [L "k"] ->
   exists a, nucleus = [a] /\ cs_base a = L "a" /\ ModOrdinal (cs_mod a) = kBrev).
Proof.
  intros -> Hn. destruct coda as [|k [|? ?]]; simpl.
  - split; done.
  - destruct (Z.eqb_spec (cs_base k) 107) as [Hk|Hk]; simpl; [|split; [|done]; congruence].
    destruct nucleus as [|a [|b nucleus]]; [simpl in Hn; lia|..]; simpl.
    + rewrite negb_false_iff, andb_true_iff, !Z.eqb_eq. rewrite Hk.
      split; [|intros H; destruct (H eq_refl) as (? & [= <-] & ?); tauto]. intros [? ?] _. by exists a.
    + rewrite Hk. split; [done|]. intros H. destruct (H eq_refl) as (? & ? & _). done.
  - split; done.
Qed.

Lemma FinalConsonantBit_coda coda :
  letters coda ∈ codas -> FinalConsonantBit coda (length coda) <> 0.
Proof.
  intros Hc. unfold FinalConsonantBit.
  destruct coda as [|s0 [|s1 [|s2 coda]]]; revert Hc; unfold letters, codas; simpl;
    rewrite !elem_of_cons; intros H; destruct_or! H; simplify_eq;
    try (by apply elem_of_nil in H); repeat match goal with H : cs_base _ = _ |- _ => rewrite H end;
    done.
Qed.

(** [ValidateCoda] says Valid exactly when the coda fits nucleus and tone. *)
Lemma ValidateCoda_Valid l nucleus coda key :
  nucleus <> [] -> letters coda ∈ codas ->
  ValidateCoda l nucleus coda (length nucleus) (length coda) key = Valid <->
  (letters coda = [L "k"] ->
     exists a, nucleus = [a] /\ cs_base a = L "a" /\ ModOrdinal (cs_mod a) = kBrev) /\
  (GetAllowedFinals key = 0 \/
     Z.land (GetAllowedFinals key) (FinalConsonantBit coda (length coda)) <> 0) /\
  (stop_coda (letters coda) = true -> GetTone l ∈ [ToneNone; Acute; Dot]).
Proof.
  intros Hn Hc. pose proof (codas_nonempty _ Hc) as Hne.
  rewrite <- (k_test nucleus coda (length nucleus)), <- (stop_test l coda);
    [|done|done|destruct nucleus; [done|simpl; lia]].
  unfold ValidateCoda. cbv zeta.
  match goal with |- context [if ?b then Invalid else _] => destruct b end;
    [split; [done|by intros []]|].
  pose proof (FinalConsonantBit_coda _ Hc) as Hb.
  rewrite (proj2 (Z.eqb_neq _ _) Hb). simpl. rewrite andb_true_r.
  destruct (Z.eqb_spec (GetAllowedFinals key) 0) as [Ha|Ha]; simpl.
  { match goal with |- context [if ?b then Invalid else _] => destruct b end;
      split; try done; try tauto. by intros (_ & _ & ?). }
  destruct (Z.eqb_spec (Z.land (GetAllowedFinals key) (FinalConsonantBit coda (length coda))) 0)
    as [Hl|Hl].
  { match goal with |- context [if ?b then Invalid else ValidPrefix] => destruct b end;
      (split; [done|]); intros (_ & [?|?] & _); done. }
  match goal with |- context [if ?b then Invalid else _] => destruct b end;
    split; try done; try tauto. by intros (_ & _ & ?).
Qed.

(** The decomposition's split: the maximal run of vowels, then the rest. *)
Lemma rhyme_split l nucleus coda r :
  r = nucleus ++ coda -> rhyme l nucleus coda ->
  VowelRun r = length nucleus /\ take (VowelRun r) r = nucleus /\ drop (VowelRun r) r = coda.
Proof.
  intros -> H.
  assert (VowelRun (nucleus ++ coda) = length nucleus) as ->.
  { apply VowelRun_app; [apply H|]. destruct coda as [|s c]; [by left|right].
    exists s, c. split; [done|]. destruct (rh_entry _ _ _ H) as (?&?&_&_&_&Hc).
    destruct Hc as (_ & Hc & _); [done|]. by eapply consonant_coda. }
  split; [done|]. split; [by apply take_app_length|by apply drop_app_length].
Qed.

Lemma ValidateCoda_take l r coda n m key :
  (1 <= n)%nat -> ValidateCoda l (take n r) coda n m key = ValidateCoda l r coda n m key.
Proof. intros Hn. destruct n; [lia|]. by destruct r. Qed.

Lemma rhyme_intro l nucleus coda key entry :
  Forall (fun s => IsVowel s = true) nucleus -> nucleus <> [] ->
  NucleusKey nucleus (length nucleus) = Some key -> FindVowel key = Some entry ->
  rhyme l nucleus coda <->
  (coda = [] /\ ve_requiresEnd entry = false) \/
  (coda <> [] /\ ve_canEnd entry = true /\ letters coda ∈ codas /\
   ValidateCoda l nucleus coda (length nucleus) (length coda) key = Valid).
Proof.
  intros Hv Hn Hk He. split.
  - intros [_ _ (key' & entry' & Hk' & He' & Hr & Hc) Hkk Hs].
    assert (key' = key) as -> by congruence. assert (entry' = entry) as -> by congruence.
    destruct (decide (coda = [])) as [->|Hne]; [left; auto|right].
    destruct (Hc Hne) as (? & Hcod & ?). rewrite ValidateCoda_Valid by done. tauto.
  - intros [[-> Hr]|(Hne & Hend & Hcod & Hc)].
    + split; try done. by exists key, entry.
    + rewrite ValidateCoda_Valid in Hc by done. destruct Hc as (? & ? & ?).
      split; try done. exists key, entry. by repeat split.
Qed.

(** The validator's verdict on one decomposition is the grammar's rhyme. *)
Lemma decomposition_rhyme l r :
  VowelRun r <> 0%nat ->
  match NucleusKey r (VowelRun r) with
  | None => Invalid
  | Some vowelKey =>
      let coda := drop (VowelRun r) r in
      match FindVowel vowelKey with
      | None => Invalid
      | Some entry =>
          if length coda == 0%nat then if ve_requiresEnd entry then ValidPrefix else Valid
          else if negb (ve_canEnd entry) then Invalid
          else if ParseFinalConsonant coda == 0%nat then Invalid
          else if (ParseFinalConsonant coda <? length coda)%nat then Invalid
          else ValidateCoda l r coda (VowelRun r) (ParseFinalConsonant coda) vowelKey
      end
  end = Valid <-> rhyme l (take (VowelRun r) r) (drop (VowelRun r) r).
Proof.
  intros Hn. set (n := VowelRun r) in *.
  assert (length (take n r) = n) as Hlen.
  { rewrite length_take. pose proof (VowelRun_le r). subst n. lia. }
  assert (take n r <> []) as Hne by (intros E; rewrite E in Hlen; simpl in Hlen; congruence).
  destruct (NucleusKey r n) as [key|] eqn:Hk.
  2: { split; [done|]. intros [_ _ (? & ? & Hk' & _) _ _].
       rewrite Hlen, NucleusKey_take in Hk'. congruence. }
  cbv zeta. destruct (FindVowel key) as [entry|] eqn:He.
  2: { split; [done|]. intros [_ _ (? & ? & Hk' & He' & _) _ _].
       rewrite Hlen, NucleusKey_take in Hk'. congruence. }
  rewrite (rhyme_intro l (take n r) (drop n r) key entry);
    [|apply VowelRun_vowels|done|by rewrite Hlen, NucleusKey_take|done].
  rewrite Hlen, ValidateCoda_take by lia. set (coda := drop n r).
  destruct (decide (coda = [])) as [->|Hc].
  { simpl. destruct (ve_requiresEnd entry);
      (split; [intros H; left; done|intros [[_ ?]|(?&_)]; done]). }
  rewrite bool_decide_eq_false_2 by (destruct coda; done).
  destruct (ve_canEnd entry) eqn:Hend; simpl; [|split; [done|by intros [[??]|(?&?&?)]]].
  destruct (decide (letters coda ∈ codas)) as [Hcod|Hcod].
  - rewrite (codas_ParseFinalConsonant _ Hcod).
    rewrite bool_decide_eq_false_2 by (destruct coda; done).
    rewrite Nat.ltb_irrefl. tauto.
  - pose proof (ParseFinalConsonant_le coda).
    destruct (decide (ParseFinalConsonant coda = length coda)) as [E|E].
    + destruct Hcod. by apply ParseFinalConsonant_codas.
    + rewrite (proj2 (Nat.ltb_lt _ _)) by lia.
      destruct (_ == _); (split; [done|]); intros [[??]|(?&?&?&?)]; done.
Qed.

Lemma ValidateDecomposition_rhyme l k :
  ValidateDecomposition l k = Valid <->
  exists nucleus coda, drop k l = nucleus ++ coda /\ rhyme l nucleus coda.
Proof.
  transitivity (VowelRun (drop k l) <> 0%nat /\
    rhyme l (take (VowelRun (drop k l)) (drop k l)) (drop (VowelRun (drop k l)) (drop k l))).
  2: { split.
    - intros [_ H]. eexists _, _. split; [|exact H]. by rewrite take_drop.
    - intros (n & c & Hd & Hr). pose proof (rhyme_split _ _ _ _ Hd Hr) as (Hl & -> & ->).
      split; [|done]. rewrite Hl. destruct n; [by destruct (rh_nonempty _ _ _ Hr)|done]. }
  unfold ValidateDecomposition. cbv zeta.
  case_bool_decide as Hk.
  { split; [done|]. intros [Hv _]. destruct Hv.
    rewrite drop_ge by lia. done. }
  case_bool_decide as Hv; [split; [done|]; intros [? _]; done|].
  pose proof (decomposition_rhyme l (drop k l) Hv) as <-. cbv zeta.
  destruct (NucleusKey _ _) as [key|]; [|tauto].
  destruct (FindVowel key) as [entry|]; [|repeat case_match; split; try done; by intros [_ ?]].
  case_match; [tauto|]. case_match; [case_match; split; try done; by intros [_ ?]|].
  tauto.
Qed.

(** ** Onsets *)

Lemma onset_nil z : @nil wchar ∈ onsets z.
Proof. unfold onsets. set_solver. Qed.

Ltac onset_in :=
  match goal with |- _ ∈ onsets ?z =>
    destruct z; refine (bool_decide_unpack _ _); vm_compute; exact I end.

Lemma onset_single c z :
  In c ([L "b"; L "c"; L "d"; L "g"; L "h"; L "k"; L "l"; L "m"; L "n"; L "p";
    L "q"; L "r"; L "s"; L "t"; L "v"; L "x"] ++
    (if (z : bool) then [L "z"; L "j"; L "w"; L "f"] else [])) -> [c] ∈ onsets z.
Proof.
  intros H. unfold onsets. rewrite !elem_of_app. right. left.
  apply list_elem_of_In, in_map_iff. by exists c.
Qed.

Ltac split_ors :=
  repeat match goal with H : _ || _ = true |- _ => apply orb_true_iff in H as [H|H] end.

Lemma ParseInitialConsonant_onset l z :
  letters (take (ParseInitialConsonant l z) l) ∈ onsets z.
Proof.
  destruct l as [|s0 l]; [apply onset_nil|]. unfold ParseInitialConsonant, is_pair. cbv zeta.
  case_match.
  { bool_hyps. unfold letters, IsD in *. simpl. bool_hyps.
    match goal with H : cs_base s0 = _ |- _ => rewrite H end.
    rewrite ?take_0. apply onset_single. simpl. tauto. }
  case_match; [apply onset_nil|]. case_match.
  { bool_hyps. destruct l as [|s1 [|s2 l]]; try done. unfold letters. simpl in *.
    rewrite ?take_0. simpl.
    repeat match goal with H : cs_base _ = _ |- _ => rewrite H end. onset_in. }
  case_match.
  { bool_hyps. destruct l as [|s1 l]; [done|]. unfold letters. simpl in *. rewrite ?take_0. simpl.
    split_ors; bool_hyps; repeat match goal with H : cs_base _ = _ |- _ => rewrite H end;
      onset_in. }
  case_match; [|apply onset_nil]. unfold letters. simpl. rewrite ?take_0. simpl.
  apply onset_single. apply in_or_app.
  split_ors; bool_hyps; try (match goal with H : cs_base _ = _ |- _ => rewrite H end; left; simpl; tauto).
  split_ors; bool_hyps; subst; match goal with H : cs_base _ = _ |- _ => rewrite H end; right; simpl; tauto.
Qed.

Lemma ParseInitialConsonant_le l z : (ParseInitialConsonant l z <= 3)%nat.
Proof.
  destruct l; unfold ParseInitialConsonant; cbv zeta; [lia|]. repeat case_match; lia.
Qed.

(** ** The whole buffer *)

Record syllable (z : bool) (l onset nucleus coda : list CharState) : Prop := {
  sy_split : l = onset ++ nucleus ++ coda;
  sy_onset : letters onset ∈ onsets z;
  sy_rhyme : rhyme l nucleus coda
}.

Lemma decomposition_syllable z l k :
  letters (take k l) ∈ onsets z -> ValidateDecomposition l k = Valid ->
  exists onset nucleus coda, syllable z l onset nucleus coda.
Proof.
  intros Ho (n & c & Hd & Hr)%ValidateDecomposition_rhyme. exists (take k l), n, c.
  split; [|done|done]. by rewrite <- Hd, take_drop.
Qed.

Lemma lookup_letters (l : list CharState) i : (i < length l)%nat -> letters l !! i = Some (cs_base (l !!! i)).
Proof.
  intros Hi. unfold letters. rewrite list_lookup_fmap, lookup_total_lt by done. done.
Qed.

(** The double readings of gi and qu are readings of the grammar too. *)
Lemma ResolveGiQu_Valid z l r :
  ResolveGiQu l r = Valid -> r <> Valid ->
  exists k, (k = 1 \/ k = 2)%nat /\ letters (take k l) ∈ onsets z /\ ValidateDecomposition l k = Valid.
Proof.
  unfold ResolveGiQu. cbv zeta. intros H Hr.
  destruct l as [|s0 [|s1 l]]; try done. simpl in H.
  destruct ((cs_base s0 =w 103) && (cs_base s1 =w 105) && IsVowel s1) eqn:Hg.
  - simpl in H. bool_hyps.
    assert (letters (take 1 (s0 :: s1 :: l)) ∈ onsets z) as Ho1.
    { unfold letters. simpl. match goal with H : cs_base s0 = _ |- _ => rewrite H end.
      apply onset_single. simpl. tauto. }
    assert (letters (take 2 (s0 :: s1 :: l)) ∈ onsets z) as Ho2.
    { unfold letters. simpl. rewrite ?take_0. simpl.
      match goal with H : cs_base s0 = _, H' : cs_base s1 = _ |- _ => rewrite H, H' end.
      onset_in. }
    destruct (decide (ValidateDecomposition (s0 :: s1 :: l) 1 = Valid)) as [E1|E1]; [by eauto|].
    destruct (decide (ValidateDecomposition (s0 :: s1 :: l) 2 = Valid)) as [E2|E2]; [by eauto|].
    rewrite !(bool_decide_eq_false_2 _ E1), !(bool_decide_eq_false_2 _ E2) in H.
    simpl in H. repeat case_match; done.
  - simpl in H. destruct ((cs_base s0 =w 113) && (cs_base s1 =w 117)) eqn:Hq; [|done]. bool_hyps.
    assert (letters (take 2 (s0 :: s1 :: l)) ∈ onsets z) as Ho2.
    { unfold letters. simpl. rewrite ?take_0. simpl.
      match goal with H : cs_base s0 = _, H' : cs_base s1 = _ |- _ => rewrite H, H' end.
      onset_in. }
    destruct (decide (ValidateDecomposition (s0 :: s1 :: l) 2 = Valid)) as [E2|E2]; [by eauto|].
    rewrite !(bool_decide_eq_false_2 _ E2) in H. simpl in H. repeat case_match; done.
Qed.

Lemma ValidateImpl_Valid l z :
  ValidateImpl l z = Valid -> exists onset nucleus coda, syllable z l onset nucleus coda.
Proof.
  unfold ValidateImpl. cbv zeta. intros Hv0. case_match eqn:Hl0; [done|]. revert Hv0.
  set (stuck := (ParseInitialConsonant l z == 0%nat) && negb (IsVowel (l !!! 0%nat))).
  destruct (stuck && _) eqn:Hs; [done|].
  set (k := if stuck then 1%nat else ParseInitialConsonant l z).
  assert (letters (take k l) ∈ onsets z) as Hk.
  { subst k. destruct stuck; [|apply ParseInitialConsonant_onset].
    simpl in Hs. unfold IsD in Hs. bool_hyps. destruct l as [|s0 l]; [done|].
    unfold letters. simpl in *. rewrite ?take_0. simpl.
    match goal with H : cs_base s0 = _ |- _ => rewrite H end. apply onset_single. simpl. tauto. }
  clearbody k. intros Hv0. repeat case_match; try done.
  destruct (decide (ValidateDecomposition l k = Valid)) as [Hv|Hv].
  - by eapply decomposition_syllable.
  - destruct (ResolveGiQu_Valid z _ _ Hv0 Hv) as (k' & _ & ? & ?). by eapply decomposition_syllable.
Qed.

(** ** The tone and modifier invariant *)

(** At most one vowel has a tone, and if any vowel has a modifier, the toned one does. *)
Definition toned (s : CharState) : bool := IsVowel s && HasTone s.
Definition modified (s : CharState) : bool := IsVowel s && HasModifier s.

Definition tone_mod_ok (l : list CharState) : Prop :=
  (length (List.filter toned l) <= 1)%nat /\
  forall s, s ∈ l -> toned s = true -> existsb modified l = true -> HasModifier s = true.

Definition first_toned (l : list CharState) : nat :=
  default 0%nat (find_fwd (fun j => toned (l !!! j)) (length l)).

Lemma find_toned_cons s l :
  find_fwd (fun j => toned ((s :: l) !!! j)) (length (s :: l)) =
    if toned s then Some 0%nat
    else option_map S (find_fwd (fun j => toned (l !!! j)) (length l)).
Proof.
  unfold find_fwd. simpl. case_match; [done|].
  generalize 0%nat as k. generalize (length l) as n. induction n as [|n IHn]; intros k; simpl; [done|].
  rewrite IHn. by case_match.
Qed.

Lemma find_toned_some l s :
  In s (List.filter toned l) -> find_fwd (fun j => toned (l !!! j)) (length l) <> None.
Proof.
  intros [Hin Hs]%filter_In. apply list_elem_of_In, list_elem_of_lookup_1 in Hin as [j Hj].
  rewrite find_fwd_None. intros E. rewrite <- (list_lookup_total_correct _ _ _ Hj) in Hs.
  rewrite E in Hs; [done|]. by apply lookup_lt_Some in Hj.
Qed.

Lemma first_toned_cons s l :
  toned s = false -> List.filter toned l <> [] -> first_toned (s :: l) = S (first_toned l).
Proof.
  intros Hs Hl. unfold first_toned. rewrite find_toned_cons, Hs.
  destruct (List.filter toned l) as [|s' l'] eqn:E; [done|].
  pose proof (find_toned_some l s') as Hf. rewrite E in Hf. specialize (Hf (or_introl eq_refl)).
  by destruct (find_fwd _ _).
Qed.

Lemma ToneModScan_spec l i anyMod t :
  ToneModScan l i anyMod t =
    match t, List.filter toned l with
    | None, [] => Some (anyMod || existsb modified l, None)
    | None, [_] => Some (anyMod || existsb modified l, Some (i + first_toned l)%nat)
    | Some k, [] => Some (anyMod || existsb modified l, Some k)
    | _, _ => None
    end.
Proof.
  revert i anyMod t. induction l as [|s l IH]; intros i anyMod t; simpl.
  { destruct t; by rewrite orb_false_r. }
  destruct (IsVowel s) eqn:Hv; simpl.
  - destruct (HasTone s) eqn:Ht; simpl.
    + assert (toned s = true) as -> by (unfold toned; by rewrite Hv, Ht).
      assert (modified s = HasModifier s) as -> by (unfold modified; by rewrite Hv).
      destruct t as [k|]; [by destruct (List.filter toned l)|].
      rewrite IH. destruct (List.filter toned l) eqn:E; [|done].
      unfold first_toned. rewrite find_toned_cons.
      assert (toned s = true) as -> by (unfold toned; by rewrite Hv, Ht).
      simpl. by rewrite orb_assoc, Nat.add_0_r.
    + assert (toned s = false) as Hs by (unfold toned; by rewrite Hv, Ht). rewrite Hs.
      assert (modified s = HasModifier s) as -> by (unfold modified; by rewrite Hv).
      rewrite IH, orb_assoc. destruct t as [k|]; [done|].
      destruct (List.filter toned l) as [|s' [|? ?]] eqn:Hf; [done| |done].
      rewrite first_toned_cons by (try done; congruence). by rewrite <- plus_n_Sm.
  - assert (toned s = false) as Hs by (unfold toned; by rewrite Hv). rewrite Hs.
    assert (modified s = false) as -> by (unfold modified; by rewrite Hv).
    rewrite IH. destruct t as [k|]; [done|].
    destruct (List.filter toned l) as [|s' [|? ?]] eqn:Hf; [done| |done].
    rewrite first_toned_cons by (try done; congruence). by rewrite <- plus_n_Sm.
Qed.

Lemma first_toned_lookup l s :
  List.filter toned l = [s] -> l !! first_toned l = Some s.
Proof.
  intros Hf. unfold first_toned.
  pose proof (find_toned_some l s) as Hn. rewrite Hf in Hn. specialize (Hn (or_introl eq_refl)).
  destruct (find_fwd _ _) as [j|] eqn:E; [|done]. simpl.
  apply find_fwd_Some in E as (Hj & Ht & _).
  assert (In (l !!! j) (List.filter toned l)) as Hin.
  { apply filter_In. split; [|done]. by apply list_elem_of_In, list_elem_of_lookup_total_2. }
  rewrite Hf in Hin. destruct Hin as [->|[]]. by apply lookup_total_lt.
Qed.

Lemma CheckToneModInvariant_ok l : CheckToneModInvariant l = true <-> tone_mod_ok l.
Proof.
  unfold CheckToneModInvariant, tone_mod_ok. rewrite ToneModScan_spec. simpl.
  assert (forall s, In s (List.filter toned l) <-> s ∈ l /\ toned s = true) as Hin.
  { intros s. rewrite filter_In, list_elem_of_In. done. }
  destruct (List.filter toned l) as [|s [|s' f]] eqn:Hf.
  - split; [|done]. intros _. split; [simpl; lia|]. intros s Hs Ht. destruct (proj2 (Hin s)); auto.
  - pose proof (first_toned_lookup l s Hf) as Hl. rewrite (list_lookup_total_correct _ _ _ Hl).
    rewrite negb_true_iff, andb_false_iff, negb_false_iff. split.
    + intros H. split; [simpl; lia|]. intros s0 H0 H1 H2. rewrite H2 in H.
      destruct (proj2 (Hin s0)) as [->|[]]; [done|]. by destruct H.
    + intros [_ H]. destruct (existsb modified l) eqn:E; [right|by left].
      destruct (proj1 (Hin s)) as [? ?]; [by left|]. auto.
  - split; [done|]. simpl. intros [? _]. lia.
Qed.

(** ** How long a plausible syllable is *)

Lemma TryModifiedVowels_length v n p : TryModifiedVowels v n p = true -> (1 <= n <= 3)%nat.
Proof.
  unfold TryModifiedVowels. case_match eqn:H; [done|]. intros _.
  apply orb_false_iff in H as [H1 H2]. rewrite Nat.ltb_ge in *. lia.
Qed.

Lemma ParseFinalConsonant_2 coda : (ParseFinalConsonant coda <= 2)%nat.
Proof. unfold ParseFinalConsonant. cbv zeta. repeat case_match; lia. Qed.

(** Whatever predicate the repair attempt uses, it accepts only parsed codas. *)
Lemma TryModifiedVowels_coda v n (p : VowelEntry -> bool) coda :
  (forall e, p e = true -> (ParseFinalConsonant coda = length coda)%nat \/ coda = []) ->
  TryModifiedVowels v n p = true -> (length coda <= 2)%nat.
Proof.
  intros Hp H. assert (exists e, p e = true) as [e He].
  { unfold TryModifiedVowels in H. cbv zeta in H. case_match; [done|]. case_match; [done|].
    match type of H with (if ?b then _ else _) = _ => destruct b eqn:E end.
    - apply exists_upto_true in E as (i & _ & E). bool_hyps.
      match goal with H : existsb _ [1; 2; 3] = true |- _ =>
        apply existsb_exists in H as (m & _ & H) end.
      destruct (FindVowel _); [eauto|done].
    - bool_hyps. destruct (FindVowel _); [eauto|done]. }
  pose proof (ParseFinalConsonant_2 coda). destruct (Hp e He) as [E|E]; [lia|subst; simpl; lia].
Qed.

Lemma ValidateDecomposition_length l k :
  ValidateDecomposition l k <> Invalid -> (length l - k <= 5)%nat.
Proof.
  unfold ValidateDecomposition. cbv zeta.
  case_bool_decide as Hk; [lia|]. case_bool_decide as Hv; [done|].
  set (r := drop k l). set (n := VowelRun r). set (coda := drop n r).
  assert (length l - k = n + length coda)%nat as ->.
  { subst coda n r. rewrite !length_drop. pose proof (VowelRun_le (drop k l)) as H.
    rewrite length_drop in H. lia. }
  destruct (NucleusKey r n) as [key|] eqn:Hkey; [|done]. apply NucleusKey_length in Hkey.
  pose proof (ParseFinalConsonant_2 coda). intros H0.
  enough (length coda <= 2)%nat by lia.
  destruct (FindVowel key) as [entry|].
  - case_bool_decide; [lia|].
    destruct (ve_canEnd entry); simpl in H0.
    + case_bool_decide; [done|]. destruct (Nat.ltb_spec (ParseFinalConsonant coda) (length coda)); [done|lia].
    + match type of H0 with (if ?b then _ else _) <> _ => destruct b eqn:E; [|done] end.
      eapply TryModifiedVowels_coda, E. intros e; simpl. case_match; [done|]. intros ?. bool_hyps. by left.
  - match type of H0 with (if ?b then _ else _) <> _ => destruct b eqn:E end.
    + bool_hyps. match goal with H : length coda = _ |- _ => rewrite H end. lia.
    + match type of H0 with (if ?b then _ else _) <> _ => destruct b eqn:E2; [|done] end.
      eapply TryModifiedVowels_coda, E2. intros e; simpl. case_bool_decide as E3.
      * intros _. right. by destruct coda.
      * case_match; [|done]. intros ?. bool_hyps. by left.
Qed.

Lemma IsValidConsonantPrefix_length l z : IsValidConsonantPrefix l z = true -> (length l <= 3)%nat.
Proof.
  unfold IsValidConsonantPrefix. cbv zeta.
  repeat case_match; intros; bool_hyps; try done; try lia;
    repeat match goal with H : length l = _ |- _ => rewrite H end; lia.
Qed.

Lemma ResolveGiQu_length l r :
  ResolveGiQu l r <> Invalid -> (r <> Invalid -> length l <= 8)%nat -> (length l <= 8)%nat.
Proof.
  intros H Hr. destruct (decide (length l <= 8)%nat) as [|Hl]; [done|exfalso].
  assert (ValidateDecomposition l 1 = Invalid) as H1.
  { destruct (decide (ValidateDecomposition l 1 = Invalid)) as [|E]; [done|].
    apply ValidateDecomposition_length in E. lia. }
  assert (ValidateDecomposition l 2 = Invalid) as H2.
  { destruct (decide (ValidateDecomposition l 2 = Invalid)) as [|E]; [done|].
    apply ValidateDecomposition_length in E. lia. }
  assert (r = Invalid) as -> by (destruct (decide (r = Invalid)); [done|exfalso; auto]).
  unfold ResolveGiQu in H. cbv zeta in H. rewrite H1, H2 in H. simpl in H.
  rewrite (bool_decide_eq_false_2 (length l = 2%nat)) in H by lia.
  repeat case_match; done.
Qed.

Lemma ValidateImpl_length l z : ValidateImpl l z <> Invalid -> (length l <= 8)%nat.
Proof.
  unfold ValidateImpl. cbv zeta. case_bool_decide; [lia|]. case_match eqn:Hs; [done|].
  set (k := if (ParseInitialConsonant l z == 0%nat) && negb (IsVowel (l !!! 0%nat))
            then 1%nat else ParseInitialConsonant l z).
  assert (k <= 3)%nat as Hk.
  { subst k. case_match; [lia|apply ParseInitialConsonant_le]. }
  clearbody k. case_match eqn:H1.
  { bool_hyps. subst. intros _. lia. }
  case_match eqn:H2.
  { intros Hp. case_match eqn:H3; [|done]. apply IsValidConsonantPrefix_length in H3. lia. }
  case_match; [done|]. intros Hp. eapply ResolveGiQu_length; [done|]. intros Hd.
  apply ValidateDecomposition_length in Hd. lia.
Qed.

(** ** The packed keys *)

(** The length byte and the slots of a key, low slot last. *)
Definition decode_key (key : Z) : list Z :=
  let n := Z.shiftr key 24 in
  let s i := Z.land (Z.shiftr key (8 * i)) 0xFF in
  if n =w 1 then [s 0] else if n =w 2 then [s 1; s 0] else [s 2; s 1; s 0].

Definition slots : list Z := map Z.of_nat (seq 0 24).

Lemma decode_key_all :
  forallb (fun a => (decode_key (Key1 a) == [a]) &&
    forallb (fun b => (decode_key (Key2 a b) == [a; b]) &&
      forallb (fun c => decode_key (Key3 a b c) == [a; b; c]) slots) slots) slots = true.
Proof. vm_compute. reflexivity. Qed.

Lemma ModOrdinal_range m : 0 <= ModOrdinal m < 4.
Proof. destruct m; vm_compute; split; congruence. Qed.

Lemma VowelSlot_slot b m :
  BaseIndex b <> 0xFF -> In (VowelSlot (BaseIndex b) (ModOrdinal m)) slots.
Proof.
  intros Hb. unfold BaseIndex in *. destruct m; repeat case_match; try done; vm_compute; tauto.
Qed.

(** The slot of a vowel determines its base and its modifier. *)
Definition slot_of (s : CharState) : Z := VowelSlot (BaseIndex (cs_base s)) (ModOrdinal (cs_mod s)).

Lemma NucleusKey_decode l n key :
  NucleusKey l n = Some key -> (n <= length l)%nat -> decode_key key = map slot_of (take n l).
Proof.
  intros H Hn. pose proof decode_key_all as Hall. rewrite forallb_forall in Hall.
  assert (forall i, BaseIndex (cs_base (l !!! i)) <> 0xFF -> In (slot_of (l !!! i)) slots) as Hs
    by (intros; by apply VowelSlot_slot).
  unfold NucleusKey in H. cbv zeta in H.
  case_bool_decide as E1; [|case_bool_decide as E2; [|case_bool_decide as E3; [|done]]];
    subst n; case_match eqn:Hb; bool_hyps; simplify_eq.
  - pose proof (Hall _ (Hs 0%nat ltac:(done))) as Ha. bool_hyps.
    destruct l; [simpl in Hn; lia|]. simpl. by rewrite ?take_0.
  - pose proof (Hall _ (Hs 0%nat ltac:(done))) as Ha. bool_hyps.
    match goal with H : forallb _ slots = true |- _ => rewrite forallb_forall in H;
      pose proof (H _ (Hs 1%nat ltac:(done))) as Hb2 end. bool_hyps.
    destruct l as [|? [|? l]]; [simpl in Hn; lia..|]. simpl. by rewrite ?take_0.
  - pose proof (Hall _ (Hs 0%nat ltac:(done))) as Ha. bool_hyps.
    match goal with H : forallb _ slots = true |- _ => rewrite forallb_forall in H;
      pose proof (H _ (Hs 1%nat ltac:(done))) as Hb2 end. bool_hyps.
    match goal with H : forallb _ slots = true |- _ => rewrite forallb_forall in H;
      pose proof (H _ (Hs 2%nat ltac:(done))) as Hc3 end. bool_hyps.
    destruct l as [|? [|? [|? l]]]; [simpl in Hn; lia..|]. simpl. by rewrite ?take_0.
Qed.

(** ** Properties *)

(** C17. Soundness against the grammar: a buffer judged Valid is an onset of the
    language, a nucleus of the vowel table and a coda the nucleus admits, with a
    tone its coda admits, at most one tone in all, and the tone on a marked
    vowel if there is a marked vowel. *)
Theorem ValidateSyllableState_sound l z :
  ValidateSyllableState l z = Valid ->
  (exists onset nucleus coda, syllable z l onset nucleus coda) /\ tone_mod_ok l.
Proof.
  unfold ValidateSyllableState. cbv zeta. intros H. case_match eqn:E; [done|].
  split; [by apply ValidateImpl_Valid|]. rewrite H in E. simpl in E.
  apply negb_false_iff in E. by apply CheckToneModInvariant_ok.
Qed.

(** The letters of "việt": v, i, ê with a dot, t. *)
Definition viet_sample : list CharState :=
  [mkCS (L "v") ModNone ToneNone false false 0 None; mkCS (L "i") ModNone ToneNone false false 1 None;
   mkCS (L "e") Circumflex Dot false false 2 None; mkCS (L "t") ModNone ToneNone false false 3 None].

Lemma ValidateSyllableState_sound_witness :
  ValidateSyllableState viet_sample false = Valid /\ tone_mod_ok viet_sample.
Proof.
  split; [vm_compute; reflexivity|].
  exact (proj2 (ValidateSyllableState_sound viet_sample false ltac:(vm_compute; reflexivity))).
Defined.

(** C33. One decomposition, exactly: with the onset of [k] letters taken off, the
    validator says Valid if and only if the rest splits into a nucleus and a
    coda that form a rhyme of the grammar. *)
Theorem ValidateDecomposition_iff_rhyme l k :
  ValidateDecomposition l k = Valid <->
  exists nucleus coda, drop k l = nucleus ++ coda /\ rhyme l nucleus coda.
Proof. apply ValidateDecomposition_rhyme. Qed.

(** The second stage of the validator decides the tone and modifier
    invariant: at most one toned vowel, sitting on a marked vowel if any. *)
Theorem CheckToneModInvariant_spec l : CheckToneModInvariant l = true <-> tone_mod_ok l.
Proof. apply CheckToneModInvariant_ok. Qed.

(** A buffer that is not Invalid holds at most 8 letters, so every 16-entry
    stack snapshot of the engine holds a whole plausible syllable. *)
Theorem ValidateSyllableState_length l z :
  ValidateSyllableState l z <> Invalid -> (length l <= 8)%nat.
Proof.
  unfold ValidateSyllableState. cbv zeta. intros H.
  apply (ValidateImpl_length l z). case_match; done.
Qed.

Lemma ValidateSyllableState_length_witness : (length viet_sample <= 8)%nat.
Proof. apply (ValidateSyllableState_length viet_sample false). vm_compute. congruence. Defined.

(** The packed 32-bit nucleus key never confuses two nuclei: equal keys come
    from nuclei of the same length, bases and modifiers. *)
Theorem NucleusKey_injective l l' n n' key :
  NucleusKey l n = Some key -> NucleusKey l' n' = Some key ->
  (n <= length l)%nat -> (n' <= length l')%nat ->
  n = n' /\ map slot_of (take n l) = map slot_of (take n' l').
Proof.
  intros H H' Hn Hn'. apply NucleusKey_decode in H, H'; [|done..].
  assert (map slot_of (take n l) = map slot_of (take n' l')) as E by congruence. split; [|done].
  apply (f_equal length) in E. rewrite !length_map, !length_take in E. lia.
Qed.

Lemma NucleusKey_injective_witness :
  exists key, NucleusKey (drop 1 viet_sample) 2 = Some key /\ 2%nat = 2%nat.
Proof.
  eexists. split; [vm_compute; reflexivity|].
  refine (proj1 (NucleusKey_injective (drop 1 viet_sample) (drop 1 viet_sample) 2 2 _ _ _ _ _));
    try (vm_compute; reflexivity); simpl; lia.
Defined.
