(* ===== verification/ToneFacts.v ===== *)
(** * Where the tone goes

    Facts and theorems on [FindTonePosition], [FindToneTarget], the relocation of
    a tone and the automatic ươ pair. *)

From stdpp Require Import sets.
From S2P Require Import Prelude Tables Action Config CharState Validator.
From S2P Require Import TonePosition English Helpers Engine Invariant ComposeFacts.
Open Scope Z_scope.

(** ** The tone position within a nucleus *)

Lemma CollectVowels_le v : (length (CollectVowels v) <= 16)%nat.
Proof. unfold CollectVowels. rewrite length_take. lia. Qed.

Lemma FindPlainTonePosition_lt v c m :
  (2 <= length v)%nat ->
  (length v - 3 <= FindPlainTonePosition v c m < length v)%nat.
Proof.
  intros Hv. unfold FindPlainTonePosition. cbv zeta.
  case_match; [lia|]. case_match; [lia|].
  match goal with |- context [if (3 <=? length v)%nat then ?a else ?b] =>
    destruct (if (3 <=? length v)%nat then a else b) as [[sf fd]|] eqn:E end.
  - assert (3 <= length v)%nat by (destruct (Nat.leb_spec 3 (length v)); done).
    repeat case_match; simplify_eq; lia.
  - repeat case_match; simplify_eq; lia.
Qed.

(** ** Letters without their tone *)

Definition untone (s : CharState) : CharState := set_toneRawIdx None (set_tone ToneNone s).
Definition bones (l : list CharState) : list CharState := map untone l.

Lemma total_map (f : CharState -> CharState) l i :
  f defaultCS = defaultCS -> map f l !!! i = f (l !!! i).
Proof.
  intros Hf. rewrite !list_lookup_total_alt. change (map f l) with (f <$> l).
  rewrite list_lookup_fmap. destruct (l !! i); simpl; [done|]. by rewrite Hf.
Qed.

Lemma bones_total l i : bones l !!! i = untone (l !!! i).
Proof. by apply total_map. Qed.

Lemma bones_length l : length (bones l) = length l.
Proof. apply length_map. Qed.

Lemma bones_IsClusterConsonant l i : IsClusterConsonant (bones l) i = IsClusterConsonant l i.
Proof.
  unfold IsClusterConsonant. cbv zeta. by rewrite !bones_total, bones_length.
Qed.

Lemma bones_IsNucleusVowel l i : IsNucleusVowel (bones l) i = IsNucleusVowel l i.
Proof. unfold IsNucleusVowel. by rewrite bones_IsClusterConsonant, bones_total. Qed.

Lemma filter_ext_all {A} (p q : A -> bool) l :
  (forall x, p x = q x) -> List.filter p l = List.filter q l.
Proof. intros H. induction l; simpl; [done|]. by rewrite H, IHl. Qed.

Lemma bones_NucleusVowels l : NucleusVowels (bones l) = NucleusVowels l.
Proof.
  unfold NucleusVowels. rewrite bones_length. do 2 f_equal.
  rewrite (filter_ext_all _ _ _ (bones_IsNucleusVowel l)).
  apply map_ext. intros i. by rewrite bones_total.
Qed.

Lemma Compose_empty s : (Compose s <>w 0) = (cs_base s <>w 0).
Proof.
  destruct (Z.eqb_spec (cs_base s) 0) as [H|H].
  - unfold Compose, IsEmpty. by rewrite H.
  - apply Compose_nonzero, Z.eqb_neq in H. by rewrite H.
Qed.

(** The coda counts by whether it is empty, whatever its letters carry. *)
Lemma CodaLetters_length l i :
  length (CodaLetters l i) =
    Nat.min kVowelCap (length (List.filter (fun s => cs_base s <>w 0) (drop (S i) l))).
Proof.
  unfold CodaLetters. rewrite length_take. f_equal.
  induction (drop (S i) l) as [|s r IH]; [done|]. cbn [map List.filter].
  rewrite Compose_empty. change (cs_base (set_isUpper false s)) with (cs_base s).
  destruct (cs_base s <>w 0); simpl; congruence.
Qed.

Lemma bones_CodaLetters l i : length (CodaLetters (bones l) i) = length (CodaLetters l i).
Proof.
  rewrite !CodaLetters_length. f_equal. unfold bones. rewrite <- fmap_drop.
  induction (drop (S i) l) as [|s r IH]; [done|]. cbn [fmap list_fmap List.filter].
  change (cs_base (untone s)) with (cs_base s). destruct (cs_base s <>w 0); simpl; congruence.
Qed.

Lemma FindTonePosition_coda v c c' m :
  length c = length c' -> FindTonePosition v c m = FindTonePosition v c' m.
Proof. intros H. unfold FindTonePosition. by rewrite H. Qed.

(** Where a tone goes does not depend on where tones are. *)
Lemma bones_FindToneTarget m l : FindToneTarget m (bones l) = FindToneTarget m l.
Proof.
  unfold FindToneTarget. rewrite bones_NucleusVowels. cbv zeta.
  destruct (list.last _) as [[i ?]|]; [|done].
  by rewrite (FindTonePosition_coda _ _ (CodaLetters l i)) by apply bones_CodaLetters.
Qed.

Lemma FindToneTarget_bones m l l' : bones l = bones l' -> FindToneTarget m l = FindToneTarget m l'.
Proof. intros H. by rewrite <- bones_FindToneTarget, H, bones_FindToneTarget. Qed.

(** ** Every nucleus has a target *)

(** A well-formed vowel, lowercase and toneless, is one of the twelve the tone
    rules know. *)
Lemma canonical_decomposes s :
  wf_state s -> IsVowel s = true ->
  Compose (canonical s) <> 0 /\ vi_base (Decompose (Compose (canonical s))) <> 0.
Proof.
  intros (Hb & _ & Hm & _) Hv. unfold IsVowel, is_vowel_base in Hv.
  rewrite !orb_true_iff, !Z.eqb_eq in Hv. destruct s as [b m t u sy r tr]. simpl in *.
  destruct_or! Hv; subst; destruct m; simpl in Hm; try done; vm_compute; split; congruence.
Qed.

Lemma filter_all {A} (p : A -> bool) l : (forall x, In x l -> p x = true) -> List.filter p l = l.
Proof.
  induction l as [|a l IH]; simpl; [done|]. intros H. rewrite H by auto. f_equal. auto.
Qed.

(** The nucleus positions of a buffer. *)
Definition nucleus_positions (l : list CharState) : list nat :=
  List.filter (IsNucleusVowel l) (seq 0 (length l)).

Lemma nucleus_positions_wf l i :
  wf_states l -> In i (nucleus_positions l) -> wf_state (l !!! i) /\ IsVowel (l !!! i) = true.
Proof.
  intros Hl [Hi Hn]%filter_In. apply in_seq in Hi. unfold IsNucleusVowel in Hn. bool_hyps.
  split; [|done]. eapply wf_lookup; [done|]. apply lookup_total_lt. lia.
Qed.

Lemma NucleusVowels_wf l :
  wf_states l ->
  NucleusVowels l =
    take kVowelCap (map (fun i => (i, Compose (canonical (l !!! i)))) (nucleus_positions l)).
Proof.
  intros Hl. unfold NucleusVowels. f_equal. apply filter_all.
  intros [i c] Hi%in_map_iff. destruct Hi as (j & [= -> <-] & Hj).
  destruct (nucleus_positions_wf l i Hl Hj) as [Hw Hv].
  destruct (canonical_decomposes _ Hw Hv) as [H _]. simpl. by apply negb_true_iff, Z.eqb_neq.
Qed.

Lemma CollectVowels_wf l :
  wf_states l -> length (CollectVowels (map snd (NucleusVowels l))) = length (NucleusVowels l).
Proof.
  intros Hl. unfold CollectVowels. rewrite filter_all.
  - rewrite length_take, !length_map.
    assert (length (NucleusVowels l) <= 16)%nat by (unfold NucleusVowels; rewrite length_take; unfold kVowelCap; lia).
    lia.
  - intros vi Hvi. rewrite NucleusVowels_wf in Hvi by done.
    apply in_map_iff in Hvi as (c & <- & Hc). apply in_map_iff in Hc as ([i c'] & <- & Hic). simpl.
    apply list_elem_of_In, elem_of_take in Hic as (k & Hk & _).
    apply list_elem_of_lookup_2, list_elem_of_In, in_map_iff in Hk as (j & [= -> <-] & Hj).
    destruct (nucleus_positions_wf l i Hl Hj) as [Hw Hv].
    destruct (canonical_decomposes _ Hw Hv) as [_ H]. by apply negb_true_iff, Z.eqb_neq.
Qed.

Lemma FindTonePosition_lt v c m i :
  FindTonePosition v c m = Some i -> (i < length (CollectVowels v))%nat.
Proof.
  unfold FindTonePosition. cbv zeta. case_bool_decide; [done|].
  case_match eqn:E; [intros [= <-]; eauto with vkey|].
  case_match eqn:E2; [intros [= <-]; eauto with vkey|].
  destruct (Nat.leb_spec 2 (length (CollectVowels v))); intros [= <-]; [|lia].
  by apply FindPlainTonePosition_lt.
Qed.

Lemma FindTonePosition_None v c m :
  FindTonePosition v c m = None <-> CollectVowels v = [].
Proof.
  unfold FindTonePosition. cbv zeta. case_bool_decide as H.
  - split; [|done]. intros _. by destruct (CollectVowels v).
  - split; [|intros E; by rewrite E in H]. repeat case_match; done.
Qed.

Lemma FindToneTarget_total m l :
  wf_states l -> FindToneTarget m l = None <-> nucleus_positions l = [].
Proof.
  intros Hl. pose proof (CollectVowels_wf l Hl) as Hlen. unfold FindToneTarget. cbv zeta.
  assert (NucleusVowels l = [] <-> nucleus_positions l = []) as Hnil.
  { rewrite NucleusVowels_wf by done. by destruct (nucleus_positions l). }
  destruct (list.last (NucleusVowels l)) as [[i c]|] eqn:E.
  2: { apply last_None in E. tauto. }
  assert (NucleusVowels l <> []) as Hne by (intros H; by rewrite H in E).
  split; [|intros H; tauto]. intros H. exfalso.
  destruct (FindTonePosition _ _ _) as [k|] eqn:Ek.
  - apply FindTonePosition_lt in Ek. rewrite Hlen in Ek.
    rewrite (proj2 (Nat.leb_gt _ _)) in H by done. done.
  - apply FindTonePosition_None in Ek. rewrite Ek in Hlen. by destruct (NucleusVowels l).
Qed.

(** ** Relocation *)

Lemma map_alter_bones f i (l : list CharState) :
  (forall s, untone (f s) = untone s) -> bones (alter f i l) = bones l.
Proof. apply map_alter_same. Qed.

Lemma bones_Relocate m l : bones (RelocateToneToTarget m l) = bones l.
Proof.
  unfold RelocateToneToTarget. repeat case_match; try done.
  by rewrite !map_alter_bones.
Qed.

Lemma bones_RelocateHorn l : bones (RelocateToneToHornVowel l) = bones l.
Proof.
  unfold RelocateToneToHornVowel. cbv zeta. repeat case_match; try done.
  by rewrite !map_alter_bones.
Qed.

Lemma length_bones_eq l l' : bones l = bones l' -> length l = length l'.
Proof. intros H. by rewrite <- (bones_length l), H, bones_length. Qed.

Lemma length_Relocate m l : length (RelocateToneToTarget m l) = length l.
Proof. apply length_bones_eq, bones_Relocate. Qed.

Lemma bones_mod l l' i : bones l = bones l' -> cs_mod (l !!! i) = cs_mod (l' !!! i).
Proof.
  intros H. change (cs_mod (untone (l !!! i)) = cs_mod (untone (l' !!! i))).
  by rewrite <- !bones_total, H.
Qed.
Lemma bones_base l l' i : bones l = bones l' -> cs_base (l !!! i) = cs_base (l' !!! i).
Proof.
  intros H. change (cs_base (untone (l !!! i)) = cs_base (untone (l' !!! i))).
  by rewrite <- !bones_total, H.
Qed.

(** At most one letter of the buffer has a tone. *)
Definition one_tone (l : list CharState) : Prop :=
  forall i j, HasTone (l !!! i) = true -> HasTone (l !!! j) = true -> i = j.

(** The tone and its key, as the relocation moves them. *)
Definition tone_of (s : CharState) : Tone * option nat := (cs_tone s, cs_toneRawIdx s).
Definition tone_at (l : list CharState) (i : nat) : Tone := cs_tone (l !!! i).

Lemma tone_alter_eq (f : CharState -> CharState) l i :
  (i < length l)%nat -> alter f i l !!! i = f (l !!! i).
Proof.
  intros Hi. rewrite list_lookup_total_alt, list_lookup_alter_eq, lookup_total_lt by done. done.
Qed.
Lemma tone_alter_ne (f : CharState -> CharState) (l : list CharState) i j :
  i <> j -> alter f i l !!! j = l !!! j.
Proof. intros. rewrite !list_lookup_total_alt. by rewrite list_lookup_alter_ne. Qed.

Lemma FindTonedVowelIndex_Some l i :
  FindTonedVowelIndex l = Some i ->
  (i < length l)%nat /\ IsVowel (l !!! i) = true /\ HasTone (l !!! i) = true.
Proof. intros (? & H & _)%find_fwd_Some. by apply andb_true_iff in H. Qed.

(** What a relocation does: nothing, or move the tone and its key to the target. *)
Lemma Relocate_cases m l :
  RelocateToneToTarget m l = l \/
  exists i t, FindTonedVowelIndex l = Some i /\ FindToneTarget m l = Some t /\ i <> t /\
    (i < length l)%nat /\ (t < length l)%nat /\
    RelocateToneToTarget m l !!! t =
      set_toneRawIdx (cs_toneRawIdx (l !!! i)) (set_tone (cs_tone (l !!! i)) (l !!! t)) /\
    RelocateToneToTarget m l !!! i = untone (l !!! i) /\
    (forall j, j <> i -> j <> t -> RelocateToneToTarget m l !!! j = l !!! j).
Proof.
  unfold RelocateToneToTarget.
  destruct (FindTonedVowelIndex l) as [i|] eqn:Ei; [|by left].
  destruct (FindToneTarget m l) as [t|] eqn:Et; [|by left].
  case_bool_decide as Hit; [by left|]. case_match; [by left|]. case_match; [by left|].
  apply FindTonedVowelIndex_Some in Ei as Hi. apply FindToneTarget_nucleus in Et as Ht.
  destruct Hi as [Hi _], Ht as [Ht _]. right. exists i, t. cbv zeta.
  split_and!; try done; try congruence.
  - rewrite !(tone_alter_ne _ _ i t) by congruence.
    rewrite !tone_alter_eq by (rewrite ?length_alter; done). done.
  - rewrite !tone_alter_eq by (rewrite ?length_alter; done).
    by rewrite !(tone_alter_ne _ _ t i) by congruence.
  - intros j Hji Hjt. by rewrite !tone_alter_ne by congruence.
Qed.

Lemma Relocate_one_tone m l : one_tone l -> one_tone (RelocateToneToTarget m l).
Proof.
  intros H. destruct (Relocate_cases m l) as [->|(i & t & Hi & Ht & Hne & _ & _ & Et & Ei & Ej)]; [done|].
  apply FindTonedVowelIndex_Some in Hi as (_ & _ & Hi).
  assert (forall j, HasTone (RelocateToneToTarget m l !!! j) = true -> j = t) as Hu.
  { intros j. destruct (decide (j = i)) as [->|Hji]; [by rewrite Ei|].
    destruct (decide (j = t)) as [->|Hjt]; [done|]. rewrite Ej by done. intros Hj.
    destruct Hji. auto. }
  intros a b Ha Hb. by rewrite (Hu a Ha), (Hu b Hb).
Qed.

Lemma Relocate_idempotent_one m l :
  one_tone l -> RelocateToneToTarget m (RelocateToneToTarget m l) = RelocateToneToTarget m l.
Proof.
  intros H1. pose proof (Relocate_one_tone m l H1) as H1'.
  pose proof (FindToneTarget_bones m _ _ (bones_Relocate m l)) as Hbt.
  destruct (Relocate_cases m l) as [E|(i & t & Hi & Ht & Hne & _ & Hlt & Et & Ei & Ej)];
    [by rewrite !E|].
  set (l' := RelocateToneToTarget m l) in *.
  assert (HasTone (l' !!! t) = true) as Htt.
  { rewrite Et. apply FindTonedVowelIndex_Some in Hi as (_ & _ & Hi). exact Hi. }
  destruct (Relocate_cases m l') as [E|(i' & t' & Hi' & Ht' & Hne' & _)]; [done|].
  rewrite Hbt, Ht in Ht'. simplify_eq. exfalso. apply Hne'.
  apply FindTonedVowelIndex_Some in Hi' as (_ & _ & Hi'). auto.
Qed.

(** The one tone stays, or sits on the target and nowhere else. *)
Lemma Relocate_moves m l :
  one_tone l ->
  RelocateToneToTarget m l = l \/
  exists i t, FindToneTarget m l = Some t /\ tone_at (RelocateToneToTarget m l) t = tone_at l i /\
    tone_at l i <> ToneNone /\ (forall j, j <> t -> tone_at (RelocateToneToTarget m l) j = ToneNone).
Proof.
  intros H1. destruct (Relocate_cases m l) as [->|(i & t & Hi & Ht & Hne & _ & _ & Et & Ei & Ej)]; [by left|].
  right. exists i, t. apply FindTonedVowelIndex_Some in Hi as (_ & _ & Hi). unfold tone_at.
  assert (cs_tone (l !!! i) <> ToneNone) as Hti by (unfold HasTone in Hi; by bool_hyps).
  repeat split; [done|by rewrite Et|done|]. intros j Hj.
  destruct (decide (j = i)) as [->|Hji]; [by rewrite Ei|]. rewrite Ej by done.
  destruct (decide (cs_tone (l !!! j) = ToneNone)) as [|Hn]; [done|]. destruct Hji. apply H1; [|done].
  unfold HasTone. by rewrite bool_decide_eq_false_2.
Qed.

(** ** The automatic ươ *)

(** The half-horned pair the pass repairs, at [i]. *)
Definition half_uo (l : list CharState) (i : nat) : bool :=
  (cs_base (l !!! i) =w L "u") && (cs_base (l !!! S i) =w L "o") &&
  (((cs_mod (l !!! i) == ModNone) && (cs_mod (l !!! S i) == Horn)) ||
   ((cs_mod (l !!! i) == Horn) && (cs_mod (l !!! S i) == ModNone))).
Definition after_q (l : list CharState) (i : nat) : bool :=
  (0 <? i)%nat && (cs_base (l !!! (i - 1)%nat) =w L "q").

Lemma half_uo_bones l l' i : bones l = bones l' -> half_uo l i = half_uo l' i.
Proof.
  intros H. unfold half_uo.
  by rewrite !(bones_base l l' _ H), !(bones_mod l l' _ H).
Qed.

Lemma mod_alter_eq m (l : list CharState) i :
  (i < length l)%nat -> cs_mod (alter (set_mod m) i l !!! i) = m.
Proof. intros. by rewrite tone_alter_eq. Qed.

Lemma bones_alter_mod m i l : bones (alter (set_mod m) i l) = alter (set_mod m) i (bones l).
Proof.
  unfold bones. revert i. induction l as [|s l IH]; intros [|i]; csimpl; try done. by rewrite IH.
Qed.

(** One step repairs the pair at [i], or leaves the letters alone. *)
Lemma AutoUOStep_cases m l i :
  (S i < length l)%nat ->
  (AutoUOStep m l i = l /\ (after_q l i = true \/ half_uo l i = false)) \/
  (half_uo l i = true /\ exists k, (k = i \/ k = S i) /\
     bones (AutoUOStep m l i) = bones (alter (set_mod Horn) k l) /\
     cs_mod (AutoUOStep m l i !!! i) = Horn /\ cs_mod (AutoUOStep m l i !!! S i) = Horn).
Proof.
  intros Hi. unfold AutoUOStep, after_q, half_uo.
  destruct (Z.eqb_spec (cs_base (l !!! i)) 117) as [Hu|Hu].
  2: { left. cbv zeta. rewrite andb_false_r. simpl.
       rewrite (proj2 (Z.eqb_neq _ _) Hu). simpl. auto. }
  rewrite andb_true_r. destruct (_ && _) eqn:Hq; [by left; auto|].
  destruct (Z.eqb_spec (cs_base (l !!! S i)) 111) as [Ho|Ho].
  2: { left. cbv zeta. rewrite !andb_false_r. simpl. rewrite (proj2 (Z.eqb_neq _ _) Ho).
       rewrite !andb_false_r. simpl. auto. }
  rewrite !andb_true_r. simpl.
  destruct (decide (cs_mod (l !!! i) = ModNone)) as [Hn|Hn].
  - rewrite Hn. simpl. destruct (decide (cs_mod (l !!! S i) = Horn)) as [Hh|Hh].
    + rewrite Hh. simpl. right. split; [done|]. exists i. cbv zeta.
      rewrite !base_alter_mod, mod_alter_eq by lia. rewrite !tone_alter_ne by lia.
      rewrite Hh, Hu, Ho. simpl. rewrite mod_alter_eq by lia. rewrite tone_alter_ne by lia. auto.
    + left. rewrite (bool_decide_eq_false_2 _ Hh). simpl. rewrite Hn. simpl.
      rewrite !andb_false_r. auto.
  - rewrite (bool_decide_eq_false_2 _ Hn). simpl.
    destruct (decide (cs_mod (l !!! i) = Horn)) as [Hh|Hh].
    + rewrite Hh. simpl. destruct (decide (cs_mod (l !!! S i) = ModNone)) as [Ho'|Ho'].
      * rewrite Ho'. right. split; [done|]. exists (S i). rewrite Hu, Ho. simpl.
        pose proof (bones_Relocate m (alter (set_mod Horn) (S i) l)) as Hb.
        rewrite !(bones_mod _ _ _ Hb), mod_alter_eq by lia. rewrite tone_alter_ne by lia. auto.
      * left. rewrite (bool_decide_eq_false_2 _ Ho'). rewrite !andb_false_r. auto.
    + left. rewrite (bool_decide_eq_false_2 _ Hh). rewrite !andb_false_r. auto.
Qed.

Lemma AutoUOStep_base m l i j :
  (S i < length l)%nat -> cs_base (AutoUOStep m l i !!! j) = cs_base (l !!! j).
Proof.
  intros Hi. destruct (AutoUOStep_cases m l i Hi) as [[-> _]|(_ & k & _ & Hb & _)]; [done|].
  rewrite (bones_base _ _ _ Hb). apply base_alter_mod.
Qed.

Lemma AutoUOStep_length m l i :
  (S i < length l)%nat -> length (AutoUOStep m l i) = length l.
Proof.
  intros Hi. destruct (AutoUOStep_cases m l i Hi) as [[-> _]|(_ & k & _ & Hb & _)]; [done|].
  rewrite (length_bones_eq _ _ Hb). apply length_alter.
Qed.

Definition uo_good (l : list CharState) (j : nat) : Prop := after_q l j = true \/ half_uo l j = false.

Lemma AutoUOStep_good m l i :
  (S i < length l)%nat -> uo_good (AutoUOStep m l i) i.
Proof.
  intros Hi. destruct (AutoUOStep_cases m l i Hi) as [[-> ?]|(_ & k & _ & _ & Hu & Ho)]; [done|].
  right. unfold half_uo. rewrite Hu, Ho. simpl. by rewrite andb_false_r.
Qed.

Lemma AutoUOStep_keeps_good m l i j :
  (S i < length l)%nat -> (j < i)%nat -> uo_good l j -> uo_good (AutoUOStep m l i) j.
Proof.
  intros Hi Hj Hg. destruct (AutoUOStep_cases m l i Hi) as [[-> _]|(Hh & k & Hk & Hb & _)]; [done|].
  destruct Hg as [Hg|Hg]; [left|right].
  - unfold after_q in *. by rewrite AutoUOStep_base.
  - rewrite (half_uo_bones _ _ j Hb). unfold half_uo in *. rewrite !base_alter_mod.
    destruct (decide (S j = i)) as [Hji|Hji].
    + rewrite Hji. bool_hyps. match goal with H : cs_base (l !!! i) = 117 |- _ => rewrite H end.
      by rewrite andb_false_r.
    + by rewrite !tone_alter_ne by lia.
Qed.

Lemma AutoUO_fold m n : forall k l i,
  (i + n < length l)%nat -> (forall j, (k <= j < i)%nat -> uo_good l j) ->
  forall j, (k <= j < i + n)%nat -> uo_good (fold_left (AutoUOStep m) (seq i n) l) j.
Proof.
  induction n as [|n IH]; intros k l i Hi Hg j Hj; simpl; [apply Hg; lia|].
  apply (IH k); [rewrite AutoUOStep_length; lia| |lia].
  intros j' Hj'. destruct (decide (j' = i)) as [->|]; [apply AutoUOStep_good; lia|].
  apply AutoUOStep_keeps_good; [lia|lia|]. apply Hg. lia.
Qed.

Lemma AutoUO_base m n : forall l i j,
  (i + n < length l)%nat ->
  length (fold_left (AutoUOStep m) (seq i n) l) = length l /\
  cs_base (fold_left (AutoUOStep m) (seq i n) l !!! j) = cs_base (l !!! j).
Proof.
  induction n as [|n IH]; intros l i j Hi; simpl; [done|].
  destruct (IH (AutoUOStep m l i) (S i) j) as [IH1 IH2]; [rewrite AutoUOStep_length; lia|].
  rewrite IH1, IH2. rewrite AutoUOStep_base by lia. rewrite AutoUOStep_length by lia. done.
Qed.

(** ** Properties *)

(** The nucleus letters and their modifiers, seen by the position rules. *)
Definition vmod (v : wstring) (i : nat) : VowelMod := vi_mod (CollectVowels v !!! i).
Definition is_mark (x : VowelMod) : bool := (x == VMCircumflex) || (x == VMBreve).

(** Tone placement, by priority: no vowel, no position; else the last horned
    vowel; else, with no horn, the first circumflex or breve; else, with no mark
    at all, one of the last three vowels.  The answer is always in bounds. *)
Theorem FindTonePosition_priority v coda modern :
  let n := length (CollectVowels v) in
  match FindTonePosition v coda modern with
  | None => n = 0%nat
  | Some i => (i < n)%nat /\
      ((vmod v i = VMHorn /\ forall j, (i < j < n)%nat -> vmod v j <> VMHorn) \/
       ((forall j, (j < n)%nat -> vmod v j <> VMHorn) /\ is_mark (vmod v i) = true /\
        forall j, (j < i)%nat -> is_mark (vmod v j) = false) \/
       ((forall j, (j < n)%nat -> vmod v j = VMNone) /\ (n - 3 <= i)%nat))
  end.
Proof.
  intros n. destruct (FindTonePosition v coda modern) as [i|] eqn:E.
  2: { apply FindTonePosition_None in E. subst n. by rewrite E. }
  split; [by eapply FindTonePosition_lt|]. unfold FindTonePosition in E. cbv zeta in E.
  fold n in E. case_bool_decide as Hn0; [done|].
  destruct (find_bwd _ n) as [h|] eqn:Hh.
  { simplify_eq. left. apply find_bwd_Some in Hh as (_ & Hi & Hj). bool_hyps. split; [done|].
    intros j Hjn Hm. specialize (Hj j Hjn). by apply bool_decide_eq_false_1 in Hj. }
  assert (forall j, (j < n)%nat -> vmod v j <> VMHorn) as Hno.
  { intros j Hj Hm. rewrite find_bwd_None in Hh. specialize (Hh j Hj).
    by apply bool_decide_eq_false_1 in Hh. }
  right. destruct (find_fwd _ n) as [f|] eqn:Hf.
  { simplify_eq. left. apply find_fwd_Some in Hf as (_ & Hi & Hj). split; [done|]. split; [done|].
    exact Hj. }
  right. split.
  - intros j Hj. rewrite find_fwd_None in Hf. specialize (Hf j Hj). specialize (Hno j Hj).
    unfold vmod in *. by destruct (vi_mod (CollectVowels v !!! j)).
  - destruct (Nat.leb_spec 2 n); simplify_eq; [|lia].
    by apply (FindPlainTonePosition_lt (CollectVowels v)).
Qed.

(** The tone target of a well-formed buffer exists exactly when the buffer
    has a nucleus vowel, and it is one: in bounds, a vowel, and neither the i of
    gi nor the u of qu. *)
Theorem FindToneTarget_spec modern l :
  wf_states l ->
  match FindToneTarget modern l with
  | Some t => (t < length l)%nat /\ IsVowel (l !!! t) = true /\ IsClusterConsonant l t = false
  | None => forall i, (i < length l)%nat -> IsNucleusVowel l i = false
  end.
Proof.
  intros Hl. pose proof (FindToneTarget_total modern l Hl) as Ht.
  destruct (FindToneTarget modern l) as [t|] eqn:E.
  - apply FindToneTarget_nucleus in E as [? E]. unfold IsNucleusVowel in E. bool_hyps. auto.
  - intros i Hi. destruct (IsNucleusVowel l i) eqn:Hn; [|done].
    destruct Ht as [Ht _]. specialize (Ht eq_refl).
    assert (In i (nucleus_positions l)) as Hin by (apply filter_In; split; [apply in_seq; lia|done]).
    by rewrite Ht in Hin.
Qed.

(** "toan": the target is the a, at 2. *)
Definition toan_sample : list CharState :=
  [mkCS (L "t") ModNone ToneNone false false 0 None; mkCS (L "o") ModNone Acute false false 1 (Some 4%nat);
   mkCS (L "a") ModNone ToneNone false false 2 None; mkCS (L "n") ModNone ToneNone false false 3 None].

Lemma FindToneTarget_spec_witness :
  FindToneTarget true toan_sample = Some 2%nat /\
  IsVowel (toan_sample !!! 2%nat) = true.
Proof.
  split; [vm_compute; reflexivity|].
  assert (wf_states toan_sample) as Hw by (apply (bool_decide_unpack _); vm_compute; exact I).
  exact (proj1 (proj2 (FindToneTarget_spec true toan_sample Hw))).
Defined.

(** Relocating a tone touches nothing else: bases, modifiers, case and order
    stay, and so does the place the next tone would go. *)
Theorem RelocateToneToTarget_frame modern l :
  bones (RelocateToneToTarget modern l) = bones l /\
  FindToneTarget modern (RelocateToneToTarget modern l) = FindToneTarget modern l.
Proof.
  split; [apply bones_Relocate|]. apply FindToneTarget_bones, bones_Relocate.
Qed.

(** A buffer with one tone keeps one tone under relocation: either nothing
    moved, or that very tone now sits on the target and nowhere else. *)
Theorem RelocateToneToTarget_moves modern l :
  one_tone l ->
  RelocateToneToTarget modern l = l \/
  exists i t, FindToneTarget modern l = Some t /\
    tone_at (RelocateToneToTarget modern l) t = tone_at l i /\ tone_at l i <> ToneNone /\
    forall j, j <> t -> tone_at (RelocateToneToTarget modern l) j = ToneNone.
Proof. apply Relocate_moves. Qed.

(** Relocation settles at once: a second pass changes nothing. *)
Theorem RelocateToneToTarget_idempotent modern l :
  one_tone l ->
  RelocateToneToTarget modern (RelocateToneToTarget modern l) = RelocateToneToTarget modern l.
Proof. apply Relocate_idempotent_one. Qed.

(** After the automatic ươ pass no u-o pair of its window is left with one
    horn, but for the u of qu; letters keep their bases and their number. *)
Theorem ApplyAutoUO_repairs modern l i :
  (3 <= length l)%nat ->
  (length l - 4 <= i)%nat -> (i < length l - 2)%nat ->
  let l' := ApplyAutoUO modern l in
  map cs_base l' = map cs_base l /\ (after_q l' i = true \/ half_uo l' i = false).
Proof.
  intros Hn Hi Hi'. unfold ApplyAutoUO. cbv zeta. rewrite (proj2 (Nat.ltb_ge _ _)) by done.
  set (st := if (4 <? length l)%nat then (length l - 4)%nat else 0%nat).
  assert (st <= i /\ st = length l - 4)%nat as [Hst Hst'].
  { subst st. destruct (Nat.ltb_spec 4 (length l)); lia. }
  clearbody st. split.
  - apply list_eq. intros j.
    destruct (AutoUO_base modern (length l - 2 - st) l st j) as [Hlen Hb]; [lia|].
    change (map cs_base) with (fmap (M:=list) cs_base). rewrite !list_lookup_fmap.
    destruct (decide (j < length l)%nat).
    + rewrite !lookup_total_lt by (rewrite ?Hlen; done). simpl. by rewrite Hb.
    + by rewrite !lookup_ge_None_2 by (rewrite ?Hlen; lia).
  - apply (AutoUO_fold modern _ st); [lia|lia|lia].
Qed.

(** "tuơn" becomes "tươn". *)
Definition tuon_sample : list CharState :=
  [mkCS (L "t") ModNone ToneNone false false 0 None; mkCS (L "u") ModNone ToneNone false false 1 None;
   mkCS (L "o") Horn ToneNone false false 2 None; mkCS (L "n") ModNone ToneNone false false 4 None].

Lemma one_tone_check l :
  length (List.filter HasTone l) = 1%nat -> one_tone l.
Proof.
  intros Hf i j Hi Hj.
  destruct (decide (i < length l)%nat) as [Hli|Hli].
  2: { rewrite list_lookup_total_alt, lookup_ge_None_2 in Hi by lia. done. }
  destruct (decide (j < length l)%nat) as [Hlj|Hlj].
  2: { rewrite list_lookup_total_alt, lookup_ge_None_2 in Hj by lia. done. }
  revert i j Hi Hj Hli Hlj. induction l as [|s l IH]; [done|].
  assert (List.filter HasTone l = [] -> forall k, (k < length l)%nat -> HasTone (l !!! k) = true -> False) as Hnil.
  { intros E k Hk Ht. assert (In (l !!! k) (List.filter HasTone l)) as Hin.
    { apply filter_In. split; [|done]. by apply list_elem_of_In, list_elem_of_lookup_total_2. }
    by rewrite E in Hin. }
  intros [|i] [|j]; simpl in *; intros Hi Hj Hli Hlj; try done.
  - rewrite Hi in Hf. simpl in Hf. destruct (List.filter HasTone l) eqn:E; [|done].
    destruct (Hnil eq_refl j); [lia|done].
  - rewrite Hj in Hf. simpl in Hf. destruct (List.filter HasTone l) eqn:E; [|done].
    destruct (Hnil eq_refl i); [lia|done].
  - destruct (HasTone s) eqn:Hs; simpl in Hf.
    + destruct (List.filter HasTone l) eqn:E; [|done]. destruct (Hnil eq_refl i); [lia|done].
    + f_equal. apply IH; try done; lia.
Qed.

Lemma RelocateToneToTarget_moves_witness :
  one_tone toan_sample /\
  (RelocateToneToTarget true toan_sample = toan_sample \/
   exists i t, FindToneTarget true toan_sample = Some t /\
    tone_at (RelocateToneToTarget true toan_sample) t = tone_at toan_sample i /\
    tone_at toan_sample i <> ToneNone /\
    forall j, j <> t -> tone_at (RelocateToneToTarget true toan_sample) j = ToneNone).
Proof.
  assert (one_tone toan_sample) as H by (apply one_tone_check; reflexivity).
  split; [exact H|exact (RelocateToneToTarget_moves true toan_sample H)].
Defined.

Lemma RelocateToneToTarget_idempotent_witness :
  RelocateToneToTarget true toan_sample <> toan_sample /\
  RelocateToneToTarget true (RelocateToneToTarget true toan_sample) =
    RelocateToneToTarget true toan_sample.
Proof.
  split; [vm_compute; congruence|].
  apply (RelocateToneToTarget_idempotent true toan_sample). apply one_tone_check. reflexivity.
Defined.

Lemma ApplyAutoUO_repairs_witness :
  half_uo tuon_sample 1 = true /\ half_uo (ApplyAutoUO true tuon_sample) 1 = false.
Proof.
  split; [vm_compute; reflexivity|].
  destruct (ApplyAutoUO_repairs true tuon_sample 1) as [_ [H|H]];
    [simpl; lia|simpl; lia|simpl; lia|discriminate H|exact H].
Defined.
