(* ===== verification/BufferFacts.v ===== *)
(** * Speculation, exclusions and English patterns

    [WouldBeValidSyllable] mutates and restores; [IsSpellExcluded] is a prefix
    match; the V+C+V scan and the bias update against their specifications. *)

From S2P Require Import Prelude Tables Action Config CharState Validator.
From S2P Require Import TonePosition English Helpers Engine Invariant ComposeFacts.
From S2P Require Import ToneFacts.
Open Scope Z_scope.

(** ** Speculation restores the buffer *)

Lemma length_SetVowelMod l i m : length (SetVowelMod l i m) = length l.
Proof.
  unfold SetVowelMod, UndoHornU. repeat case_match; by rewrite ?length_alter.
Qed.

Lemma states_eq (l l' : list CharState) :
  length l = length l' -> (forall i, (i < length l)%nat -> l !!! i = l' !!! i) -> l = l'.
Proof.
  intros Hlen H. apply list_eq. intros i. destruct (decide (i < length l)%nat).
  - rewrite !lookup_total_lt by congruence. by rewrite H.
  - by rewrite !lookup_ge_None_2 by lia.
Qed.

Lemma set_mod_same s : set_mod (cs_mod s) s = s.
Proof. by destruct s. Qed.

(** [SetVowelMod] writes the modifiers at [i] and [i - 1] only. *)
Lemma SetVowelMod_other l i m j :
  j <> i -> (i = 0 \/ j <> i - 1)%nat -> SetVowelMod l i m !!! j = l !!! j.
Proof.
  intros Hj Hj'. unfold SetVowelMod, UndoHornU.
  destruct (m == Circumflex); [|by rewrite tone_alter_ne by done].
  destruct (0 <? i)%nat eqn:Hi; simpl; [|by rewrite tone_alter_ne by done].
  apply Nat.ltb_lt in Hi. case_match; rewrite !tone_alter_ne by lia; done.
Qed.

Lemma SetVowelMod_mod_only l i m j m' :
  set_mod m' (SetVowelMod l i m !!! j) = set_mod m' (l !!! j).
Proof.
  assert (forall f k (v : list CharState), (forall s, set_mod m' (f s) = set_mod m' s) ->
    set_mod m' (alter f k v !!! j) = set_mod m' (v !!! j)) as Ha.
  { intros f k v Hf. destruct (decide (k = j)) as [->|]; [|by rewrite tone_alter_ne].
    destruct (decide (j < length v)%nat).
    - by rewrite tone_alter_eq.
    - rewrite !list_lookup_total_alt, !lookup_ge_None_2 by (rewrite ?length_alter; lia). done. }
  unfold SetVowelMod, UndoHornU. repeat case_match; rewrite ?Ha; done.
Qed.

(** Writing the saved modifiers at [i] and [i - 1] undoes [SetVowelMod]. *)
Lemma restore_SetVowelMod l i m :
  (i < length l)%nat ->
  let l1 := alter (set_mod (cs_mod (l !!! i))) i (SetVowelMod l i m) in
  (if (0 <? i)%nat
   then alter (set_mod (cs_mod (l !!! (i - 1)%nat))) (i - 1)%nat l1 else l1) = l.
Proof.
  intros Hi l1. assert (length l1 = length l) as Hl1.
  { subst l1. by rewrite length_alter, length_SetVowelMod. }
  assert (forall j, j <> (i - 1)%nat \/ i = 0%nat -> (j < length l)%nat -> l1 !!! j = l !!! j) as Hj.
  { intros j Hj Hjl. subst l1. destruct (decide (j = i)) as [->|Hji].
    - rewrite tone_alter_eq by (by rewrite length_SetVowelMod).
      by rewrite SetVowelMod_mod_only, set_mod_same.
    - rewrite tone_alter_ne by done. apply SetVowelMod_other; [done|]. lia. }
  case_match eqn:H0; [apply Nat.ltb_lt in H0|apply Nat.ltb_ge in H0].
  - apply states_eq; rewrite ?length_alter; [done|]. rewrite Hl1. intros j Hjl.
    destruct (decide (j = i - 1)%nat) as [->|Hji].
    + rewrite tone_alter_eq by lia. subst l1. rewrite tone_alter_ne by lia.
      by rewrite SetVowelMod_mod_only, set_mod_same.
    + rewrite tone_alter_ne by lia. apply Hj; [by left|done].
  - apply states_eq; [done|]. rewrite Hl1. intros j Hjl. apply Hj; [by right; lia|done].
Qed.

(** Clearing a circumflex and writing it back is the identity. *)
Lemma clear_circumflex_restore idx l l' :
  clear_circumflex idx l = (l', true) ->
  exists i, idx = Some i /\ alter (set_mod Circumflex) i l' = l.
Proof.
  unfold clear_circumflex. destruct idx as [i|]; [|done]. case_match eqn:H; [|done].
  apply andb_true_iff in H as [Hi Hm]. apply Nat.ltb_lt in Hi. bool_hyps.
  intros [= <-]. exists i. split; [done|]. apply states_eq; rewrite !length_alter; [done|].
  intros j Hj. destruct (decide (j = i)) as [->|Hji]; [|by rewrite !tone_alter_ne].
  rewrite !tone_alter_eq by (rewrite ?length_alter; done). rewrite <- Hm. by destruct (l !!! i).
Qed.

Lemma clear_circumflex_false idx l l' : clear_circumflex idx l = (l', false) -> l' = l.
Proof. unfold clear_circumflex. repeat case_match; congruence. Qed.

Lemma length_relocated_drop modern (l l2 : list CharState) :
  length l2 = length l -> drop (length l) (RelocateToneToTarget modern l2) = [].
Proof. intros H. apply drop_ge. rewrite length_Relocate. lia. Qed.

(** Speculation is pure: after [WouldBeValidSyllable] has changed modifiers,
    cleared a circumflex, even relocated a tone, and validated the result, the
    buffer is exactly what it was, on every path. *)
Theorem WouldBeValidSyllable_restores cfg l i m clear relocate :
  fst (WouldBeValidSyllable_run cfg l i m clear relocate) = l.
Proof.
  unfold WouldBeValidSyllable_run. case_match; [done|].
  destruct (Nat.leb_spec (length l) i) as [|Hi]; [done|]. destruct relocate.
  - case_match; [done|]. cbn [fst]. rewrite length_relocated_drop; [apply app_nil_r|].
    repeat case_match; by rewrite ?length_alter, ?length_SetVowelMod.
  - destruct (clear_circumflex _ _) as [l2 did] eqn:Hc. cbv zeta. simpl.
    pose proof (restore_SetVowelMod l i m Hi) as Hr. cbv zeta in Hr.
    destruct did.
    + apply clear_circumflex_restore in Hc as (k & -> & ->).
      destruct (0 <? i)%nat; exact Hr.
    + apply clear_circumflex_false in Hc as ->. destruct (0 <? i)%nat; exact Hr.
Qed.

(** ** Exclusions *)

Lemma forallb_seq_prefix (pat buf : wstring) :
  (length pat <= length buf)%nat ->
  forallb (fun i => (pat !!! i) =w (buf !!! i)) (seq 0 (length pat)) = true <->
  take (length pat) buf = pat.
Proof.
  intros Hl. rewrite forallb_forall. split.
  - intros H. apply list_eq. intros i. destruct (decide (i < length pat)%nat) as [Hi|Hi].
    + rewrite lookup_take_lt by done.
      rewrite (list_lookup_lookup_total_lt buf), (list_lookup_lookup_total_lt pat) by lia.
      f_equal. symmetry. apply Z.eqb_eq, H, in_seq. lia.
    + rewrite !lookup_ge_None_2; [done|lia|]. rewrite length_take. lia.
  - intros <- i Hi%in_seq. apply Z.eqb_eq. rewrite length_take in Hi.
    rewrite !list_lookup_total_alt, lookup_take_lt by lia. done.
Qed.

(** A word is exempt from spell check exactly when some exclusion of at
    least two letters is a prefix of its first sixteen rendered letters,
    lowercased. *)
Theorem IsSpellExcluded_spec l exclusions :
  IsSpellExcluded l exclusions = true <->
  l <> [] /\ exists pat, In pat exclusions /\ (2 <= length pat)%nat /\
    take (length pat) (take 16 (map towlower (ComposeStates l))) = pat.
Proof.
  unfold IsSpellExcluded. case_bool_decide as He; cbn [orb].
  { split; [done|]. intros (_ & pat & Hin & _). by destruct exclusions. }
  case_bool_decide as Hl.
  { split; [done|]. intros [Hn _]. by destruct l. }
  change (ExclusionBuf (map Compose l)) with (take 16 (map towlower (ComposeStates l))).
  set (buf := take 16 (map towlower (ComposeStates l))).
  rewrite existsb_exists. split.
  - intros (pat & Hin & H). split; [by intros ->|]. exists pat.
    apply andb_true_iff in H as [H Hp]. apply andb_true_iff in H as [H2 Hb].
    apply Nat.leb_le in H2, Hb. by apply forallb_seq_prefix in Hp.
  - intros (_ & pat & Hin & H2 & Hp). exists pat. split; [done|].
    assert (length pat <= length buf)%nat as Hb.
    { rewrite <- Hp at 1. rewrite length_take. lia. }
    rewrite (proj2 (Nat.leb_le _ _) H2), (proj2 (Nat.leb_le _ _) Hb). cbn [andb].
    by apply forallb_seq_prefix.
Qed.

(** ** The vowel, consonant, vowel scan *)

(** A run boundary: the start of the buffer, or just after a consonant. *)
Definition ends_consonant (l : list CharState) : Prop :=
  exists p s, l = p ++ [s] /\ IsVowel s = false.
Definition boundary (l : list CharState) : Prop := l = [] \/ ends_consonant l.

Record vcv_at (l pre v c : list CharState) (w : CharState) (post : list CharState) : Prop := {
  vcv_split : l = pre ++ v ++ c ++ w :: post;
  vcv_pre : boundary pre;
  vcv_v : v <> [] /\ Forall (fun s => IsVowel s = true) v;
  vcv_c : c <> [] /\ Forall (fun s => IsVowel s = false) c;
  vcv_w : IsVowel w = true;
  vcv_english : VCVException v c = false
}.

Lemma span_spec f l a b :
  span f l = (a, b) ->
  l = a ++ b /\ Forall (fun s => f s = true) a /\
  (b = [] \/ exists s b', b = s :: b' /\ f s = false).
Proof.
  revert a b. induction l as [|s l IH]; intros a b; simpl.
  - intros [= <- <-]. split; [done|]. split; [constructor|by left].
  - destruct (f s) eqn:Hf.
    + destruct (span f l) as [a' b']. intros [= <- <-].
      destruct (IH a' b' eq_refl) as (-> & ? & ?). split; [done|]. split; [by constructor|done].
    + intros [= <- <-]. split; [done|]. split; [constructor|]. right. by exists s, l.
Qed.

Lemma span_app f a b :
  Forall (fun s => f s = true) a -> (b = [] \/ exists s b', b = s :: b' /\ f s = false) ->
  span f (a ++ b) = (a, b).
Proof.
  intros Ha Hb. induction Ha as [|s a Hs Ha IH]; simpl.
  - destruct Hb as [->|(s & b' & -> & Hs)]; [done|]. simpl. by rewrite Hs.
  - by rewrite Hs, IH.
Qed.

Lemma ends_consonant_cons s l : l <> [] -> ends_consonant (s :: l) <-> ends_consonant l.
Proof.
  intros Hl. split.
  - intros ([|x p] & s' & H & Hs); simplify_eq/=. by exists p, s'.
  - intros (p & s' & -> & Hs). by exists (s :: p), s'.
Qed.

Lemma ends_consonant_app a b : ends_consonant b -> ends_consonant (a ++ b).
Proof. intros (p & s & -> & Hs). exists (a ++ p), s. by rewrite app_assoc. Qed.

Lemma boundary_app_r a b : boundary (a ++ b) -> boundary b.
Proof.
  intros [H|H]; [left; by destruct a, b|].
  induction a as [|s a IH]; [by right|]. simpl in H. destruct (a ++ b) as [|x r] eqn:E.
  - left. by destruct a, b.
  - apply IH. apply ends_consonant_cons in H; [|done]. exact H.
Qed.

Lemma consonants_boundary c : Forall (fun s => IsVowel s = false) c -> boundary c.
Proof.
  intros Hc. destruct c as [|s c] using rev_ind; [by left|right].
  apply Forall_app in Hc as [_ Hs]. inversion_clear Hs. by exists c, s.
Qed.

(** A prefix that ends in a consonant swallows the leading vowels. *)
Lemma vowels_prefix v r pre x :
  Forall (fun s => IsVowel s = true) v -> v ++ r = pre ++ x -> ends_consonant pre ->
  exists pre1, pre = v ++ pre1 /\ r = pre1 ++ x.
Proof.
  intros Hv. revert pre. induction Hv as [|s v Hs Hv IH]; intros pre H He; simpl in *.
  - by exists pre.
  - destruct pre as [|p pre]; [destruct He as ([|? ?] & ? & ? & _); done|]. injection H as <- H.
    destruct pre as [|p' pre].
    + destruct He as ([|? [|? ?]] & s' & E & Hs'); simplify_eq/=; congruence.
    + destruct (IH _ H) as (pre1 & E & ?); [by apply ends_consonant_cons in He|].
      exists pre1. split; [by rewrite <- E|done].
Qed.

(** A prefix followed by a vowel swallows the leading consonants. *)
Lemma consonants_prefix c r pre w x :
  Forall (fun s => IsVowel s = false) c -> IsVowel w = true -> c ++ r = pre ++ w :: x ->
  exists pre1, pre = c ++ pre1 /\ r = pre1 ++ w :: x.
Proof.
  intros Hc Hw. revert pre. induction Hc as [|s c Hs Hc IH]; intros pre H; simpl in *.
  - by exists pre.
  - destruct pre as [|p pre]; injection H as <- H; [congruence|].
    destruct (IH _ H) as (pre1 & -> & ?). by exists pre1.
Qed.

Definition has_vcv (l : list CharState) : Prop :=
  exists pre v c w post, vcv_at l pre v c w post.

Lemma vcv_nil : has_vcv [] -> False.
Proof. intros (pre & v & c & w & post & [H _ [Hv _] _ _ _]). by destruct pre, v. Qed.

(** A leading consonant is no part of a pattern. *)
Lemma vcv_cons_consonant s l : IsVowel s = false -> has_vcv (s :: l) <-> has_vcv l.
Proof.
  intros Hs. split.
  - intros (pre & v & c & w & post & [E Hb [Hv1 Hv2] Hc Hw He]).
    destruct pre as [|p pre].
    { destruct v as [|x v]; [done|]. inversion_clear Hv2. injection E as <- _. congruence. }
    injection E as <- E. exists pre, v, c, w, post. split; try done.
    by apply (boundary_app_r [s] pre).
  - intros (pre & v & c & w & post & [-> Hb Hv Hc Hw He]).
    exists (s :: pre), v, c, w, post. split; try done. right.
    destruct Hb as [->|(p & x & -> & Hx)]; [by exists [], s|by exists (s :: p), x].
Qed.

(** A leading pattern is made of the first two runs of the buffer. *)
Lemma vcv_head_runs v c tail v' c' w post :
  Forall (fun s => IsVowel s = true) v ->
  (c ++ tail = [] \/ exists x b, c ++ tail = x :: b /\ IsVowel x = false) ->
  Forall (fun s => negb (IsVowel s) = true) c ->
  (tail = [] \/ exists x b, tail = x :: b /\ negb (IsVowel x) = false) ->
  vcv_at (v ++ c ++ tail) [] v' c' w post -> v = v' /\ c = c' /\ tail = w :: post.
Proof.
  intros Hv Hafter Hc Htail [E _ [Hv1 Hv2] [Hc1 Hc2] Hw _]. simpl in E.
  assert (span IsVowel (v' ++ c' ++ w :: post) = (v', c' ++ w :: post)) as E1.
  { apply span_app; [done|right]. destruct c' as [|x c']; [done|].
    inversion_clear Hc2. by exists x, (c' ++ w :: post). }
  assert (span (fun s => negb (IsVowel s)) (c' ++ w :: post) = (c', w :: post)) as E2.
  { apply span_app; [|right; exists w, post; by rewrite Hw].
    revert Hc2. apply Forall_impl. intros x ->. done. }
  rewrite <- E, (span_app _ v (c ++ tail) Hv Hafter) in E1. injection E1 as <- Ect.
  rewrite <- Ect, (span_app _ c tail Hc Htail) in E2. by injection E2 as <- <-.
Qed.

(** After a run of vowels and one of consonants the pattern can start afresh. *)
Lemma vcv_after_runs v0 c tail :
  Forall (fun s => IsVowel s = false) c -> (tail = [] \/ c <> []) ->
  has_vcv tail -> has_vcv (v0 ++ c ++ tail).
Proof.
  intros Hc Hne Ht. destruct Hne as [->|Hne]; [by apply vcv_nil in Ht|].
  destruct Ht as (pre & v & c1 & w & post & [-> Hb Hv Hc1 Hw He]).
  exists (v0 ++ c ++ pre), v, c1, w, post. split; try done.
  - by rewrite <- !app_assoc.
  - right. destruct Hb as [->|Hb]; [|by do 2 apply ends_consonant_app].
    rewrite app_nil_r. apply ends_consonant_app. by destruct (consonants_boundary c Hc).
Qed.

(** A pattern that does not lead the buffer lies after its first two runs. *)
Lemma vcv_skip_runs v0 c tail pre v c1 w post :
  Forall (fun s => IsVowel s = true) v0 -> Forall (fun s => IsVowel s = false) c ->
  ends_consonant pre -> vcv_at (v0 ++ c ++ tail) pre v c1 w post -> has_vcv tail.
Proof.
  intros Hv0 Hc Hb [E _ [Hv1 Hv2] Hc1 Hw He].
  destruct (vowels_prefix v0 (c ++ tail) pre _ Hv0 E Hb) as (pre1 & -> & E1).
  destruct v as [|x v]; [done|]. inversion_clear Hv2 as [|? ? Hx Hv2'].
  destruct (consonants_prefix c tail pre1 x _ Hc Hx E1) as (pre2 & -> & E2).
  exists pre2, (x :: v), c1, w, post. split; try done; [|split; [done|by constructor]].
  eapply boundary_app_r, boundary_app_r. right. exact Hb.
Qed.

(** One round of the scan: the first two runs, then the rest. *)
Lemma vcv_round v c tail :
  v <> [] -> Forall (fun s => IsVowel s = true) v ->
  (c ++ tail = [] \/ exists x b, c ++ tail = x :: b /\ IsVowel x = false) ->
  Forall (fun s => negb (IsVowel s) = true) c ->
  (tail = [] \/ exists x b, tail = x :: b /\ negb (IsVowel x) = false) ->
  has_vcv (v ++ c ++ tail) <->
  (c <> [] /\ tail <> [] /\ VCVException v c = false) \/ has_vcv tail.
Proof.
  intros Hn Hv Hafter Hc Htail.
  assert (Forall (fun s => IsVowel s = false) c) as Hc'.
  { revert Hc. apply Forall_impl. intros x. apply negb_true_iff. }
  split.
  - intros (pre & v' & c' & w & post & H). destruct (vcv_pre _ _ _ _ _ _ H) as [->|Hb].
    + left. destruct (vcv_head_runs _ _ _ _ _ _ _ Hv Hafter Hc Htail H) as (-> & -> & ->).
      destruct H as [_ _ _ [? _] _ ?]. done.
    + right. by eapply vcv_skip_runs.
  - intros [(Hcn & Htn & He)|Ht].
    + destruct Htail as [->|(w & post & -> & Hw)]; [done|]. apply negb_false_iff in Hw.
      exists [], v, c, w, post. split; try done. by left.
    + apply vcv_after_runs; [done| |done]. destruct c as [|x c]; [left|by right].
      destruct Hafter as [?|(x & b & E & Hx)]; [done|]. simpl in E.
      destruct Htail as [->|(y & b' & -> & Hy)]; [done|]. simplify_eq. by rewrite Hx in Hy.
Qed.

Lemma VCVScan_spec k l : (length l <= k)%nat -> VCVScan k l = true <-> has_vcv l.
Proof.
  revert l. induction k as [|k IH]; intros l Hk.
  { destruct l; [|simpl in Hk; lia]. split; [done|]. by intros ?%vcv_nil. }
  destruct l as [|s l]; [split; [done|]; by intros ?%vcv_nil|]. simpl in *.
  destruct (IsVowel s) eqn:Hs; simpl; [|rewrite (IH l ltac:(lia)), vcv_cons_consonant by done; done].
  destruct (span IsVowel l) as [v0 after] eqn:Ev.
  destruct (span (fun s => negb (IsVowel s)) after) as [c tail] eqn:Ec.
  apply span_spec in Ev as (-> & Hv0 & Hafter). apply span_spec in Ec as (-> & Hc & Htail).
  assert (length tail <= k)%nat as Hlt by (rewrite !length_app in Hk; lia).
  change (s :: v0 ++ c ++ tail) with ((s :: v0) ++ c ++ tail).
  rewrite vcv_round by (try done; by constructor).
  destruct (_ && _ && _) eqn:Ht.
  - split; [intros _; left|done]. bool_hyps. split_and!; try done; by intros ->.
  - rewrite (IH tail Hlt). split; [by right|]. intros [(Hcn & Htn & He)|?]; [|done].
    exfalso. rewrite He in Ht. by destruct c, tail.
Qed.

(** The structural English test, exactly: with four letters or more, it
    answers true if and only if, starting at a run boundary, vowels, consonants
    and another vowel follow each other, unless the vowels carry a modifier and
    the one consonant between is a coda. *)
Theorem HasStructuralVCVPattern_spec l :
  (4 <= length l)%nat ->
  HasStructuralVCVPattern l = true <-> exists pre v c w post, vcv_at l pre v c w post.
Proof.
  intros Hl. unfold HasStructuralVCVPattern. rewrite (proj2 (Nat.ltb_ge _ _)) by done.
  by apply VCVScan_spec.
Qed.

(** "data": a, t, a. *)
Definition data_sample : list CharState :=
  [mkCS (L "d") ModNone ToneNone false false 0 None; mkCS (L "a") ModNone ToneNone false false 1 None;
   mkCS (L "t") ModNone ToneNone false false 2 None; mkCS (L "a") ModNone ToneNone false false 3 None].

Lemma HasStructuralVCVPattern_spec_witness :
  exists pre v c w post, vcv_at data_sample pre v c w post.
Proof.
  apply (HasStructuralVCVPattern_spec data_sample); [simpl; lia|vm_compute; reflexivity].
Defined.

(** ** The bias *)

Lemma CheckEnglishBias_cases l p :
  CheckEnglishBias l p = p \/
  (bias p <> BiasVietnamese /\ exists b, b <> BiasUnknown /\ b <> BiasVietnamese /\
    CheckEnglishBias l p = set_bias b p /\ (b = SoftEnglish -> bias p = BiasUnknown)).
Proof.
  unfold CheckEnglishBias. case_bool_decide; [by left|].
  do 3 (case_match; [right; split; [done|]; by exists HardEnglish|]).
  case_match eqn:Hsoft; [|by left]. bool_hyps. right. split; [done|]. by exists SoftEnglish.
Qed.

(** The bias only sharpens: an established Vietnamese or hard-English verdict
    survives every later look at the buffer, and only an unknown one can become
    soft English. *)
Theorem CheckEnglishBias_latches l p :
  (bias p = BiasVietnamese -> CheckEnglishBias l p = p) /\
  (bias p = HardEnglish -> bias (CheckEnglishBias l p) = HardEnglish) /\
  (bias (CheckEnglishBias l p) = SoftEnglish -> bias p = SoftEnglish \/ bias p = BiasUnknown) /\
  (bias (CheckEnglishBias l p) = BiasVietnamese -> bias p = BiasVietnamese).
Proof.
  destruct (CheckEnglishBias_cases l p) as [->|(Hp & b & Hu & Hv & -> & Hs)]; [tauto|].
  simpl. repeat split; [done|..|done].
  - intros Hh. destruct b; try done. by rewrite Hs in Hh.
  - intros ->. right. auto.
Qed.

(** The replay over the prefixes is one more look per letter. *)
Lemma RecalcEnglishBias_step l s :
  (1 <= length l)%nat ->
  RecalcEnglishBias (l ++ [s]) = CheckEnglishBias (l ++ [s]) (RecalcEnglishBias l).
Proof.
  intros Hl. unfold RecalcEnglishBias. rewrite length_app. simpl.
  replace (length l + 1 - 1)%nat with (S (length l - 1)) by lia.
  rewrite seq_S, fold_left_app. cbn [fold_left].
  rewrite (take_ge (l ++ [s])) by (rewrite length_app; simpl; lia). f_equal.
  assert (forall idx p, (forall i, In i idx -> (i <= length l)%nat) ->
    fold_left (fun p len => CheckEnglishBias (take len (l ++ [s])) p) idx p =
    fold_left (fun p len => CheckEnglishBias (take len l) p) idx p) as Hf.
  { induction idx as [|i idx IH]; intros p Hi; simpl; [done|].
    rewrite take_app_le by (apply Hi; by left). apply IH. intros. apply Hi. by right. }
  apply Hf. intros i Hi%in_seq. lia.
Qed.

(** The bias recomputed after a backspace is the bias the engine had built
    letter by letter: the replay of a buffer is one [CheckEnglishBias] on the
    whole buffer after the replay of all its letters but the last. *)
Theorem RecalcEnglishBias_incremental l s :
  (1 <= length l)%nat ->
  RecalcEnglishBias (l ++ [s]) = CheckEnglishBias (l ++ [s]) (RecalcEnglishBias l).
Proof. apply RecalcEnglishBias_step. Qed.

Lemma RecalcEnglishBias_incremental_witness :
  RecalcEnglishBias (data_sample ++ [defaultCS]) =
    CheckEnglishBias (data_sample ++ [defaultCS]) (RecalcEnglishBias data_sample).
Proof. apply (RecalcEnglishBias_incremental data_sample defaultCS). simpl. lia. Defined.
