(* ===== verification/Session.v ===== *)
(** * Sessions of the engine

    The engine as a state machine: its public operations as steps, the states
    reachable from the constructor, and what every session keeps. *)

From S2P Require Import Prelude Tables Action Config CharState Validator.
From S2P Require Import TonePosition English Helpers Engine Modifiers Rules.
From S2P Require Import TypingEngine Invariant RulesFrame ComposeFacts.
From S2P Require Import ToneFacts.
Open Scope Z_scope.

(** ** Steps *)

Inductive Op :=
| OpKey (c : wchar) (uppercase : bool)
| OpBackspace
| OpCommit
| OpReset
| OpSeed (text : wstring).

(** A key is a character: never the null code unit. *)
Definition op_ok (o : Op) : Prop := match o with OpKey c _ => c <> 0 | _ => True end.

Section Sessions.
Context {P : Platform}.

Definition run_op (o : Op) (e : Engine) : Engine :=
  match o with
  | OpKey c u => PushKey c u e
  | OpBackspace => Backspace e
  | OpCommit => snd (Commit e)
  | OpReset => Reset e
  | OpSeed text => fst (SeedFromText text e)
  end.

Inductive reachable (cfg : TypingConfig) : Engine -> Prop :=
| reach_new : reachable cfg (NewEngine cfg)
| reach_step e o : reachable cfg e -> op_ok o -> reachable cfg (run_op o e).

Lemma run_op_config o e : op_ok o -> config (run_op o e) = config e.
Proof.
  destruct o; simpl; intros Ho.
  - by apply PushKey_config.
  - apply Backspace_config.
  - apply Commit_config.
  - done.
  - apply SeedFromText_config.
Qed.

Lemma run_op_WF o e : op_ok o -> WF e -> WF (run_op o e).
Proof.
  destruct o; simpl; intros Ho Hw.
  - by apply PushKey_WF.
  - by apply Backspace_WF.
  - constructor.
  - constructor.
  - apply SeedFromText_WF.
Qed.

Lemma reachable_inv cfg e : reachable cfg e -> config e = cfg /\ WF e.
Proof.
  induction 1 as [|e o _ [IHc IHw] Ho]; [split; [done|constructor]|].
  split; [by rewrite run_op_config|by apply run_op_WF].
Qed.

Lemma PushChars_cons c keys e : PushChars (c :: keys) e = PushChars keys (PushChar c e).
Proof. done. Qed.

Lemma reachable_keys cfg keys e :
  Forall (fun c => c <> 0) keys -> reachable cfg e -> reachable cfg (PushChars keys e).
Proof.
  intros Hk. revert e. induction Hk as [|c keys Hc Hk IH]; intros e He; [done|].
  rewrite PushChars_cons. apply IH. unfold PushChar.
  match goal with |- reachable _ (PushKey _ ?u _) =>
    exact (reach_step cfg e (OpKey c u) He Hc) end.
Qed.

Lemma PushChars_history keys e :
  Forall (fun c => c <> 0) keys -> escRawHistory (PushChars keys e) = escRawHistory e ++ keys.
Proof.
  intros Hk. revert e. induction Hk as [|c keys Hc Hk IH]; intros e; [by rewrite app_nil_r|].
  rewrite PushChars_cons, IH. unfold PushChar. rewrite PushKey_history by done.
  by rewrite <- app_assoc.
Qed.

Lemma WF_Peek e : WF e -> Peek e = map Compose (states e).
Proof. apply wf_ComposeStates. Qed.

(** ** Properties *)

(** C4. The engine's type invariant: through any sequence of keys, backspaces,
    commits, resets and seedings, in every input method and configuration, the
    configuration is the constructor's and every letter carries only marks that
    Vietnamese has for it: stroke on d, circumflex on a e o, breve on a, horn on
    o u, tones on vowels. *)
Theorem reachable_well_formed cfg e : reachable cfg e -> config e = cfg /\ wf_states (states e).
Proof. apply reachable_inv. Qed.

(** The rendered text has exactly one code unit per letter of the buffer, the
    letter's composition: the caller's [Count] is the number of characters on
    screen, and no letter renders to nothing. *)
Theorem Peek_one_unit_per_letter cfg e :
  reachable cfg e ->
  length (Peek e) = Count e /\
  forall i, (i < Count e)%nat -> Peek e !! i = Some (Compose (states e !!! i)) /\
                                 Compose (states e !!! i) <> 0.
Proof.
  intros [_ Hw]%reachable_inv. rewrite WF_Peek by done. split; [by rewrite length_map|].
  unfold Count. intros i Hi. change (map Compose) with (fmap (M:=list) Compose).
  rewrite list_lookup_fmap, lookup_total_lt by done. split; [done|].
  apply Compose_nonzero. destruct (wf_lookup _ i _ Hw (lookup_total_lt _ i Hi)) as [H _]. exact H.
Qed.

(** The raw history is the keys themselves: whatever the engine makes of
    them - composing, escaping, replacing, reverting - a run of keys appends
    exactly itself to what [PeekRaw] returns, so the escape key can restore it. *)
Theorem PeekRaw_appends_keys keys e :
  Forall (fun c => c <> 0) keys -> PeekRaw (PushChars keys e) = PeekRaw e ++ keys.
Proof. apply PushChars_history. Qed.

(** Seeding from text succeeds exactly when every character is a Vietnamese
    letter; the engine then shows that very text, one letter per character with
    the base letters as raw keys, and on failure it is empty. *)
Theorem SeedFromText_spec text e :
  if snd (SeedFromText text e)
  then Peek (fst (SeedFromText text e)) = text /\
       Count (fst (SeedFromText text e)) = length text /\
       length (rawInput (fst (SeedFromText text e))) = length text /\
       Forall (fun c => DecomposeVietChar c <> None) text
  else states (fst (SeedFromText text e)) = [] /\
       Exists (fun c => DecomposeVietChar c = None) text.
Proof.
  destruct (decompose_all_or_fail text) as [[ds H]|H].
  - destruct (SeedFromText_Some text e ds H) as (-> & Hs & Hr & _).
    destruct (seeded_letters ds text H) as [Hw Ht].
    assert (length ds = length text) as Hlen
      by (apply (f_equal length) in H; by rewrite !length_map in H).
    unfold Peek, Count. rewrite Hs, Hr, wf_ComposeStates, length_imap, length_map by done.
    repeat split; try done. clear -H. revert ds H.
    induction text as [|c text IH]; intros [|d ds] H; try done; constructor; simpl in H.
    + injection H as -> _. done.
    + injection H as _ H. eauto.
  - destruct (SeedFromText_None text e H) as (-> & -> & _). done.
Qed.

(** C30. What is shown can be taken back: a well-formed buffer of letters a-z with
    their marks, seeded anew from its own rendering, gives the same letters -
    base, modifier, tone and case - unless it holds a capital ĩ or ũ. *)
Theorem SeedFromText_Peek_roundtrip l e :
  wf_states l -> Forall (fun s => is_letter (cs_base s) = true) l ->
  Forall (fun s => capital_i_u_tilde s = false) l ->
  snd (SeedFromText (ComposeStates l) e) = true /\
  map visible (states (fst (SeedFromText (ComposeStates l) e))) = map visible l.
Proof.
  intros Hw Hl Hc. rewrite wf_ComposeStates by done.
  assert (exists ds, map DecomposeVietChar (map Compose l) = map Some ds /\
    map (fun d => FromDecomposed d 0) ds = map visible l) as (ds & Hds & Hv).
  { revert Hl Hc. induction Hw as [|s l Hs Hw IH]; intros Hl Hc; [by exists []|].
    inversion_clear Hl as [|? ? Hsl Hl']. inversion_clear Hc as [|? ? Hsc Hc'].
    destruct (Decompose_Compose s Hs Hsl Hsc) as (d & Hd & Hf & _).
    destruct (IH Hl' Hc') as (ds & Hds & Hv). exists (d :: ds). simpl. by rewrite Hd, Hds, Hf, Hv. }
  destruct (SeedFromText_Some _ e ds Hds) as (-> & Hs & _). split; [done|]. rewrite Hs, <- Hv.
  clear.
  assert (forall k, map visible (imap (fun i d => FromDecomposed d (k + i)) ds) =
    map (fun d => FromDecomposed d 0) ds) as H.
  { induction ds as [|d ds IH]; intros k; simpl; [done|]. f_equal.
    rewrite (imap_ext _ (fun i d => FromDecomposed d (S k + i))) by (intros; simpl; f_equal; lia).
    apply IH. }
  exact (H 0%nat).
Qed.
End Sessions.

(** ** Sample sessions, in the POSIX locale *)

(** The default configuration with spell check on, and with classic ortho. *)
Definition telex_cfg : TypingConfig := engine_config Telex true false false true false [].
Definition classic_cfg : TypingConfig := engine_config Telex true false false false false [].

Definition type_keys (cfg : TypingConfig) (keys : wstring) : Engine :=
  @PushChars posix_c_locale keys (NewEngine cfg).

(** t i e e s n g: "tiếng". *)
Definition tieng_keys : wstring := [L "t"; L "i"; L "e"; L "e"; L "s"; L "n"; L "g"].
Definition tieng : Engine := type_keys telex_cfg tieng_keys.

Lemma tieng_keys_ok : Forall (fun c => c <> 0) tieng_keys.
Proof. repeat constructor; discriminate. Qed.

Lemma tieng_reachable : reachable (P := posix_c_locale) telex_cfg tieng.
Proof.
  apply (reachable_keys (P := posix_c_locale)); [apply tieng_keys_ok|].
  apply (reach_new (P := posix_c_locale)).
Qed.

Lemma reachable_well_formed_witness :
  Peek tieng = [L "t"; L "i"; 0x1EBF; L "n"; L "g"] /\ wf_states (states tieng).
Proof.
  split; [vm_compute; reflexivity|].
  exact (proj2 (reachable_well_formed (P := posix_c_locale) telex_cfg tieng tieng_reachable)).
Defined.

Lemma Peek_one_unit_per_letter_witness : length (Peek tieng) = 5%nat.
Proof.
  exact (proj1 (Peek_one_unit_per_letter (P := posix_c_locale) telex_cfg tieng tieng_reachable)).
Defined.

Lemma PeekRaw_appends_keys_witness : PeekRaw tieng = tieng_keys.
Proof.
  exact (PeekRaw_appends_keys (P := posix_c_locale) tieng_keys (NewEngine telex_cfg) tieng_keys_ok).
Defined.

Lemma SeedFromText_Peek_roundtrip_witness :
  snd (SeedFromText (ComposeStates (states tieng)) (NewEngine telex_cfg)) = true.
Proof.
  refine (proj1 (SeedFromText_Peek_roundtrip (states tieng)
    (NewEngine telex_cfg) _ _ _));
    apply (bool_decide_unpack _); vm_compute; exact I.
Defined.

(** ** What modelling showed *)

(** Composition does not always decompose: among well-formed letters, exactly
    the capitals Ĩ (U+0128) and Ũ (U+0168) that [Compose] renders are rejected by
    [DecomposeVietChar], because [ToLowerVietnamese] lacks the two entries that
    [ToUpperVietnamese] has. *)
Theorem DecomposeVietChar_Compose_fails s :
  wf_state s -> is_letter (cs_base s) = true ->
  DecomposeVietChar (Compose s) = None <-> capital_i_u_tilde s = true.
Proof.
  intros Hw Hl. pose proof (decomposes_back_wf s Hw Hl) as H. unfold decomposes_back in H.
  rewrite Compose_visible in H.
  change (capital_i_u_tilde (visible s)) with (capital_i_u_tilde s) in H.
  destruct (DecomposeVietChar (Compose s)) as [d|]; [|tauto].
  apply andb_true_iff in H as [H _]. apply negb_true_iff in H. rewrite H. done.
Qed.

Lemma DecomposeVietChar_Compose_fails_witness :
  DecomposeVietChar (Compose (mkCS (L "i") ModNone Tilde true false 0 None)) = None.
Proof.
  refine (proj2 (DecomposeVietChar_Compose_fails (mkCS (L "i") ModNone Tilde true false 0 None) _ _) _);
    [apply (bool_decide_unpack _); vm_compute; exact I|vm_compute; reflexivity..].
Defined.

(** m u s o w, classic: the tone moves from ư to ơ with the horn. *)
Definition musow : Engine := type_keys classic_cfg [L "m"; L "u"; L "s"; L "o"; L "w"].

(** [RelocateToneToHornVowel] moves the tone but not the index of the key it
    came from: the letter ơ has the tone and no key, the letter ư the key and no
    tone.  Typing the tone key again therefore restores nothing in the raw
    input, which keeps both presses ("musows"), where the same word typed with
    the tone last ("muosws") gives back the consumed one. *)
Theorem RelocateToneToHornVowel_loses_key :
  map cs_tone (states musow) = [ToneNone; ToneNone; Acute] /\
  map cs_toneRawIdx (states musow) = [None; Some 2%nat; None] /\
  rawInput (@PushChar posix_c_locale (L "s") musow) =
    [L "m"; L "u"; L "s"; L "o"; L "w"; L "s"] /\
  rawInput (type_keys classic_cfg [L "m"; L "u"; L "o"; L "s"; L "w"; L "s"]) =
    [L "m"; L "u"; L "o"; L "s"; L "w"] /\
  Peek (@PushChar posix_c_locale (L "s") musow) =
    Peek (type_keys classic_cfg [L "m"; L "u"; L "o"; L "s"; L "w"; L "s"]).
Proof. vm_compute. repeat split. Qed.

(** m u a s, backspace, n, and the second s as [PushKey] has recorded it. *)
Definition muas_bs_n : Engine :=
  @PushChar posix_c_locale (L "n")
    (Backspace (P := posix_c_locale) (type_keys telex_cfg [L "m"; L "u"; L "a"; L "s"])).
Definition muas_bs_n_s : Engine :=
  @RecordKey (L "s") false muas_bs_n.

(** A backspace can leave a tone key's index pointing past the raw input it
    trims; two keys later the index looks valid again, and the escape writes one
    past the end: the vowel's tone key index is 3, the raw input of 4 keys ends
    in the same key, so [RestoreConsumedKeyInPlace] erases the last key and then
    assigns element 3 of a string of 3. *)
Theorem Backspace_leaves_stale_tone_index :
  map cs_toneRawIdx (states muas_bs_n) = [None; Some 3%nat; None] /\
  length (rawInput muas_bs_n) = 3%nat /\
  FindToneTarget (modernOrtho (config muas_bs_n_s)) (states muas_bs_n_s) = Some 1%nat /\
  length (rawInput muas_bs_n_s) = 4%nat /\
  towlower (raw_back muas_bs_n_s) = L "s" /\
  length (rawInput (EraseConsumedRaw 3 muas_bs_n_s)) = 3%nat.
Proof. vm_compute. repeat split. Qed.
