(* ===== verification/Operations.v ===== *)
(** * What each operation does

    Backspace, commit, the tone toggle, the gates and the dispatcher, the undo of
    all marks: the functional behaviour of the engine's operations. *)

From S2P Require Import Prelude Tables Action Config CharState Validator.
From S2P Require Import TonePosition English Helpers Engine Modifiers Rules.
From S2P Require Import TypingEngine Invariant RulesFrame ComposeFacts.
From S2P Require Import ToneFacts BufferFacts Session.
Open Scope Z_scope.

Section Operations.
Context {P : Platform}.

(** ** Backspace *)

Lemma pop_back_snoc {A} (l : list A) x : pop_back (l ++ [x]) = l.
Proof. unfold pop_back. rewrite length_app. simpl. by rewrite Nat.add_sub, take_app_length. Qed.

Lemma recalc_bias_rawInput e : rawInput (recalc_bias e) = rawInput e.
Proof. unfold recalc_bias. by case_match. Qed.

Lemma BackspaceRegular_rawInput e :
  rawInput (BackspaceRegular e) =
    if (cs_rawIdx (back (states e)) <? length (rawInput e))%nat
    then take (cs_rawIdx (back (states e))) (rawInput e) else rawInput e.
Proof.
  unfold BackspaceRegular. cbv zeta. rewrite recalc_bias_rawInput. simpl.
  by split_ifs.
Qed.

Lemma recalc_bias_qc e : qc (recalc_bias e) = qc e.
Proof. unfold recalc_bias. by split_ifs. Qed.
Lemma recalc_bias_escape e : escape (recalc_bias e) = escape e.
Proof. unfold recalc_bias. by split_ifs. Qed.

Lemma BackspaceRegular_qc e : qc (BackspaceRegular e) = QC_clearActive (qc e).
Proof. unfold BackspaceRegular. cbv zeta. rewrite recalc_bias_qc. simpl. by split_ifs. Qed.
Lemma BackspaceRegular_escape e : escape (BackspaceRegular e) = escape e.
Proof. unfold BackspaceRegular. cbv zeta. rewrite recalc_bias_escape. simpl. by split_ifs. Qed.

Lemma BackspaceRegular_history e :
  escRawHistory (BackspaceRegular e) =
    if length (pop_back (states e)) == 0%nat then [] else pop_back (escRawHistory e).
Proof.
  unfold BackspaceRegular. cbv zeta. rewrite recalc_bias_history.
  set (e1 := set_states (pop_back (states e)) (set_qc (QC_clearActive (qc e)) e)).
  assert (forall x : Engine, escRawHistory (UpdateSpellState x) = escRawHistory x) as -> by done.
  change (states (set_qc (QC_clearActive (qc e)) e)) with (states e). fold e1.
  set (e2 := if (cs_rawIdx (back (states e)) <? length (rawInput e1))%nat
             then set_rawInput (take (cs_rawIdx (back (states e))) (rawInput e1)) e1 else e1).
  assert (escRawHistory e2 = escRawHistory e /\ states e2 = pop_back (states e)) as [Hh Hs].
  { subst e2. by case_match. }
  clearbody e2.
  assert (forall x, states x = pop_back (states e) -> escRawHistory x = pop_back (escRawHistory e) ->
    escRawHistory (if length (states x) == 0%nat then set_escRawHistory [] x else x) =
    if length (pop_back (states e)) == 0%nat then [] else pop_back (escRawHistory e)) as Hx.
  { intros x -> Hx. by case_match. }
  apply Hx.
  - destruct (length (escRawHistory e2) != 0%nat); exact Hs.
  - rewrite Hh. destruct (escRawHistory e) eqn:E; [exact Hh|done].
Qed.

(** What [Backspace] runs on a letter that no quick consonant made. *)
Lemma Backspace_regular_eq e :
  states e <> [] -> quickStartKey e = 0 \/ Count e <> 2%nat ->
  qc_resultIndex (qc e) <> Some (Count e - 1)%nat ->
  Backspace e = BackspaceRegular (set_quickStartKey 0 (set_escape EscNone e)).
Proof.
  intros Hs Hq Hi. unfold Backspace. cbv zeta.
  rewrite bool_decide_eq_false_2 by (by destruct (states e)).
  assert ((quickStartKey (set_escape EscNone e) <>w 0) &&
    (length (states (set_escape EscNone e)) == 2%nat) = false) as ->.
  { destruct Hq as [Hq|Hq]; simpl; [by rewrite Hq|].
    rewrite (bool_decide_eq_false_2 _ Hq). apply andb_false_r. }
  unfold QC_hasActive. simpl. unfold Count in Hi.
  rewrite (bool_decide_eq_false_2 (Some _ = _)) by congruence. by rewrite andb_false_r.
Qed.

(** Backspace on an ordinary letter takes that letter and nothing else: the
    rendered text loses its last character, the raw input the keys the letter
    was made of, and the raw history its last key (all of it, when the buffer
    empties). *)
Theorem Backspace_regular e :
  states e <> [] -> quickStartKey e = 0 \/ Count e <> 2%nat ->
  qc_resultIndex (qc e) <> Some (Count e - 1)%nat ->
  states (Backspace e) = pop_back (states e) /\
  rawInput (Backspace e) = take (cs_rawIdx (back (states e))) (rawInput e) /\
  PeekRaw (Backspace e) = (if Count e == 1%nat then [] else pop_back (PeekRaw e)) /\
  escape (Backspace e) = EscNone.
Proof.
  intros Hs Hq Hi. rewrite (Backspace_regular_eq e Hs Hq Hi).
  unfold PeekRaw. rewrite BackspaceRegular_states, BackspaceRegular_rawInput, BackspaceRegular_history.
  simpl. split; [done|]. split; [|split].
  - destruct (Nat.ltb_spec (cs_rawIdx (back (states e))) (length (rawInput e))); [done|].
    by rewrite take_ge by lia.
  - unfold Count, pop_back. rewrite length_take.
    destruct (decide (length (states e) = 1%nat)) as [E|E].
    + by rewrite E.
    + assert (length (states e) <> 0%nat) by (by destruct (states e)).
      rewrite !bool_decide_eq_false_2 by lia. done.
  - by rewrite BackspaceRegular_escape.
Qed.

(** Backspace on the letter of a quick consonant undoes the expansion instead:
    the replacement goes, the key as typed comes back as a plain letter, the
    expansion is off for the next press, and the ư that came with ơ is plain
    again. *)
Theorem Backspace_quick e :
  states e <> [] -> quickStartKey e = 0 \/ Count e <> 2%nat ->
  qc_resultIndex (qc e) = Some (Count e - 1)%nat -> qc_lastKey (qc e) <> 0 ->
  map visible (states (Backspace e)) =
    map visible (pop_back (UndoHornU (states e) (Count e - 1)) ++
      [mkCS (towlower (qc_lastKey (qc e))) ModNone ToneNone (iswupper (qc_lastKey (qc e)))
         false 0%nat None]) /\
  QC_hasActive (qc (Backspace e)) = false /\ qc_escaped (qc (Backspace e)) = true.
Proof.
  intros Hs Hq Hi Hk. unfold Backspace. cbv zeta.
  rewrite bool_decide_eq_false_2 by (by destruct (states e)).
  assert ((quickStartKey (set_escape EscNone e) <>w 0) &&
    (length (states (set_escape EscNone e)) == 2%nat) = false) as ->.
  { destruct Hq as [Hq|Hq]; simpl; [by rewrite Hq|].
    rewrite (bool_decide_eq_false_2 _ Hq). apply andb_false_r. }
  unfold QC_hasActive, Count in *. simpl.
  rewrite Hi, (bool_decide_eq_false_2 (Some _ = None)), bool_decide_eq_true_2 by done. simpl.
  unfold BackspaceQuick. cbv zeta. simpl. rewrite recalc_bias_states.
  rewrite (proj2 (Z.eqb_neq _ _) Hk). simpl. rewrite !map_app. split; [done|].
  by rewrite recalc_bias_qc.
Qed.

(** How many backspaces empty the buffer: its letters, one more when a quick
    consonant is to be undone first. *)
Definition backspace_measure (e : Engine) : nat :=
  match states e with
  | [] => 0%nat
  | _ => (Count e + if QC_hasActive (qc e) then 1 else 0)%nat
  end.

Lemma backspace_measure_zero e : backspace_measure e = 0%nat -> states e = [].
Proof. unfold backspace_measure, Count. destruct (states e); simpl; [done|lia]. Qed.

Lemma length_UndoHornU l i : length (UndoHornU l i) = length l.
Proof. unfold UndoHornU. case_match; by rewrite ?length_alter. Qed.

Lemma backspace_measure_decreases e :
  states e <> [] -> (backspace_measure (Backspace e) < backspace_measure e)%nat.
Proof.
  intros Hs. assert (backspace_measure e = Count e + if QC_hasActive (qc e) then 1 else 0)%nat as ->
    by (unfold backspace_measure; by destruct (states e)).
  assert (forall x, (backspace_measure x <= Count x + if QC_hasActive (qc x) then 1 else 0)%nat) as Hle
    by (intros x; unfold backspace_measure; destruct (states x); lia).
  assert (Count e <> 0%nat) as Hn by (unfold Count; by destruct (states e)).
  unfold Backspace. cbv zeta. rewrite bool_decide_eq_false_2 by done. case_match eqn:Hq.
  - apply andb_true_iff in Hq as [_ Hq]. apply bool_decide_eq_true_1 in Hq. simpl in Hq.
    eapply Nat.le_lt_trans; [apply Hle|]. unfold Count. simpl. rewrite Hq.
    change (qc (UpdateSpellState _)) with (qc e). destruct (QC_hasActive (qc e)); lia.
  - case_match eqn:Ha.
    + apply andb_true_iff in Ha as [Ha _]. simpl in Ha. rewrite Ha.
      eapply Nat.le_lt_trans; [apply Hle|]. unfold Count, BackspaceQuick. cbv zeta.
      rewrite recalc_bias_states, recalc_bias_qc. simpl.
      case_match; simpl; rewrite ?length_app; unfold pop_back; rewrite length_take, length_UndoHornU;
        simpl; unfold Count in Hn; lia.
    + eapply Nat.le_lt_trans; [apply Hle|]. unfold Count.
      rewrite BackspaceRegular_states, BackspaceRegular_qc.
      cbn [states set_quickStartKey set_escape QC_hasActive QC_clearActive qc_resultIndex].
      unfold pop_back. rewrite length_take. unfold Count in Hn. simpl. lia.
Qed.

(** C38. Backspace always makes progress: from any state, [backspace_measure]
    presses - the number of letters, plus one for an active quick consonant -
    empty the buffer. *)
Theorem Backspace_empties e :
  states (Nat.iter (backspace_measure e) Backspace e) = [].
Proof.
  remember (backspace_measure e) as n eqn:Hn.
  assert (forall k x, (backspace_measure x <= k)%nat -> states (Nat.iter k Backspace x) = []) as H.
  { clear. induction k as [|k IH]; intros x Hx; [apply backspace_measure_zero; simpl in *; lia|].
    rewrite Nat.iter_succ_r. apply IH. destruct (decide (states x = [])) as [E|E].
    - unfold Backspace. rewrite E. simpl. unfold backspace_measure. rewrite E. lia.
    - pose proof (backspace_measure_decreases x E). lia. }
  apply H. lia.
Qed.

(** ** Commit *)

(** The engine [Commit] renders: a provisional tone on oo taken back first. *)
Definition at_commit (e : Engine) : Engine := fst (RevertProvisionalOoTone (L " ") e).

Lemma at_commit_config e : config (at_commit e) = config e.
Proof. apply (keeps_config _ _ (keeps_RevertProvisionalOoTone e e (L " ") (keeps_refl e))). Qed.

Lemma Revert_activeKeyUppercase c e :
  activeKeyUppercase (fst (RevertProvisionalOoTone c e)) = activeKeyUppercase e.
Proof.
  unfold RevertProvisionalOoTone. cbv zeta.
  do 5 (match goal with |- context [if ?b then (e, false) else _] => destruct b; [done|] end).
  match goal with |- context [if ?b then (set_escape _ _, true) else _] => destruct b; done end.
Qed.

Lemma SpellRestore_text composed e text :
  SpellRestore composed e = Some text ->
  text = capitalize_like (rawInput e) composed /\ ShouldAutoRestore text composed = true.
Proof.
  unfold SpellRestore. cbv zeta.
  do 5 (match goal with |- (if ?b then _ else _) = _ -> _ => destruct b eqn:?; try done end).
  intros [= <-]. done.
Qed.

(** A commit leaves the engine as a reset does, and hands over what was on
    screen unless it restores: then the text is the raw keys - with a capital
    first if the word had one - and the restoration rule asked for it. *)
Theorem Commit_text_and_reset e :
  snd (Commit e) = Reset e /\
  (fst (Commit e) = Peek (at_commit e) \/
   (fst (Commit e) = rawInput (at_commit e) \/
    fst (Commit e) = capitalize_like (rawInput (at_commit e)) (Peek (at_commit e))) /\
   ShouldAutoRestore (fst (Commit e)) (Peek (at_commit e)) = true).
Proof.
  split.
  - unfold Commit. cbn [snd]. unfold Reset.
    fold (at_commit e). rewrite at_commit_config. unfold at_commit.
    by rewrite Revert_activeKeyUppercase.
  - unfold Commit. cbn [fst]. change (fst (RevertProvisionalOoTone 32 e)) with (at_commit e).
    unfold CommitText. cbv zeta. fold (Peek (at_commit e)).
    match goal with |- context [if ?b then rawInput _ else _] => destruct b eqn:H1 end.
    { apply andb_true_iff in H1 as [_ H1]. auto. }
    match goal with |- context [if ?b then rawInput _ else _] => destruct b eqn:H2 end.
    { apply andb_true_iff in H2 as [_ H2]. auto. }
    destruct (SpellRestore _ _) as [text|] eqn:Hs; [|by left].
    apply SpellRestore_text in Hs as [-> Hs]. auto.
Qed.

(** A complete Vietnamese syllable is never turned back into its keys: with
    no quick consonant pending and the spelling verdict current, a buffer the
    validator calls Valid is committed as shown. *)
Theorem Commit_keeps_valid e :
  ValidateSyllableState (states (at_commit e)) (allowZwjf (config (at_commit e))) = Valid ->
  spellCheckDisabled (at_commit e) = false ->
  quickStartKey (at_commit e) = 0 -> qc_onlyQC (qc (at_commit e)) = false ->
  fst (Commit e) = Peek (at_commit e).
Proof.
  intros Hv Hs Hq Ho. unfold Commit. cbn [fst].
  change (fst (RevertProvisionalOoTone 32 e)) with (at_commit e).
  unfold CommitText. cbv zeta. rewrite Hq, Ho. cbn [Z.eqb negb andb].
  unfold SpellRestore. cbv zeta. rewrite Hv, Hs. cbn [negb orb andb].
  rewrite (bool_decide_eq_false_2 (Valid = ValidPrefix)) by done.
  rewrite andb_false_r. cbn [andb]. by split_ifs.
Qed.

(** Without spell check a commit gives what was on screen, whatever was
    typed, unless only a quick consonant was. *)
Theorem Commit_without_spell_check e :
  spellCheckEnabled (config e) = false ->
  quickStartKey (at_commit e) = 0 -> qc_onlyQC (qc (at_commit e)) = false ->
  fst (Commit e) = Peek (at_commit e).
Proof.
  intros Hc Hq Ho. unfold Commit. cbn [fst].
  change (fst (RevertProvisionalOoTone 32 e)) with (at_commit e).
  unfold CommitText. cbv zeta. rewrite Hq, Ho. cbn [Z.eqb negb andb].
  unfold SpellRestore. cbv zeta.
  by rewrite at_commit_config, Hc.
Qed.

(** ** Gates and dispatch *)

(** a gate is raised for its reason and no other: English bias for a hard
    English verdict, spell check for an invalid buffer - both off when English
    bypass is allowed - and tone escape for any active escape but the one of a
    circumflex. *)
Theorem EvaluateGates_spec cfg ctx g :
  GateMaskHas (EvaluateGates cfg ctx) g =
    match g with
    | GateEnglishBias => (cx_bias ctx == HardEnglish) && negb (cx_allowEnglishBypass ctx)
    | GateSpellCheck => cx_spellCheckDisabled ctx && spellCheckEnabled cfg &&
                        negb (cx_allowEnglishBypass ctx)
    | GateToneEscape => cx_escapeActive ctx && (cx_escapeKind ctx != EscCircumflex)
    end.
Proof.
  unfold EvaluateGates. cbv zeta.
  destruct ((cx_bias ctx == HardEnglish) && negb (cx_allowEnglishBypass ctx)),
    (cx_spellCheckDisabled ctx && spellCheckEnabled cfg && negb (cx_allowEnglishBypass ctx)),
    (cx_escapeActive ctx && (cx_escapeKind ctx != EscCircumflex)); by destruct g.
Qed.

(** The rules a raised mask lets through. *)
Definition ungated (raised : Z) (rules : list Rule) : list Rule :=
  List.filter (fun r => Z.land (requires r) raised =w 0) rules.

Lemma DispatchRules_ungated raised ctx rules e :
  DispatchRules raised ctx rules e = DispatchRules 0 ctx (ungated raised rules) e.
Proof.
  revert e. induction rules as [|r rules IH]; intros e; simpl; [done|].
  destruct (Z.land (requires r) raised =w 0) eqn:H; simpl; [|by rewrite IH].
  rewrite Z.land_0_r. simpl. destruct (applyRule r ctx e) as [e' []]; [apply IH|done|done].
Qed.

Lemma DispatchRules_pass raised ctx rules1 rules2 e :
  Forall (fun r => forall e, applyRule r ctx e = (e, RPass)) rules1 ->
  DispatchRules raised ctx (rules1 ++ rules2) e = DispatchRules raised ctx rules2 e.
Proof.
  induction 1 as [|r rules1 Hr _ IH]; simpl; [done|]. case_match; [done|]. by rewrite Hr.
Qed.

(** gating is filtering: dispatching under a raised mask is dispatching,
    ungated, the rules whose gates are all down; the first of them that does not
    pass decides, and the engines of those that pass are handed on. *)
Theorem DispatchRules_gating raised ctx rules e :
  DispatchRules raised ctx rules e = DispatchRules 0 ctx (ungated raised rules) e /\
  forall r rest, ungated raised rules = r :: rest ->
    DispatchRules raised ctx rules e =
      match applyRule r ctx e with
      | (e', RPass) => DispatchRules 0 ctx rest e'
      | (e', res) => (e', res)
      end.
Proof.
  split; [apply DispatchRules_ungated|]. intros r rest H. rewrite DispatchRules_ungated, H. simpl.
  rewrite Z.land_0_r. simpl. by destruct (applyRule r ctx e) as [e' []].
Qed.
End Operations.

(** ** Witnesses, in the POSIX locale *)

Lemma Backspace_regular_witness :
  states (Backspace (P := posix_c_locale) tieng) = pop_back (states tieng) /\
  Peek (Backspace (P := posix_c_locale) tieng) = [L "t"; L "i"; 0x1EBF; L "n"].
Proof.
  split; [|vm_compute; reflexivity].
  refine (proj1 (Backspace_regular (P := posix_c_locale) tieng _ _ _));
    [vm_compute; discriminate|left; vm_compute; reflexivity|vm_compute; discriminate].
Defined.

(** c c with quick consonants: "ch". *)
Definition quick_cfg : TypingConfig := engine_config Telex true false false true true [].
Definition quick_ch : Engine := type_keys quick_cfg [L "c"; L "c"].

Lemma Backspace_quick_witness :
  Peek quick_ch = [L "c"; L "h"] /\
  Peek (Backspace (P := posix_c_locale) quick_ch) = [L "c"; L "c"] /\
  QC_hasActive (qc (Backspace (P := posix_c_locale) quick_ch)) = false.
Proof.
  split; [vm_compute; reflexivity|]. split; [vm_compute; reflexivity|].
  refine (proj1 (proj2 (Backspace_quick (P := posix_c_locale) quick_ch _ _ _ _)));
    [vm_compute; discriminate|left; vm_compute; reflexivity|vm_compute; reflexivity
    |vm_compute; discriminate].
Defined.

Lemma Commit_keeps_valid_witness :
  fst (Commit (P := posix_c_locale) tieng) = Peek (at_commit (P := posix_c_locale) tieng).
Proof. apply (Commit_keeps_valid (P := posix_c_locale) tieng); vm_compute; reflexivity. Defined.

(** s t r i n g s without spell check. *)
Definition free_cfg : TypingConfig := engine_config Telex false false false true false [].
Definition strings_free : Engine :=
  type_keys free_cfg [L "s"; L "t"; L "r"; L "i"; L "n"; L "g"; L "s"].

Lemma Commit_without_spell_check_witness :
  fst (Commit (P := posix_c_locale) strings_free) = Peek (at_commit (P := posix_c_locale) strings_free).
Proof.
  apply (Commit_without_spell_check (P := posix_c_locale) strings_free); vm_compute; reflexivity.
Defined.
