(* ===== verification/KeyFacts.v ===== *)
(** * The rule registry and what a key does

    The handlers of tone keys, of the undo of marks and of the stroke are at the end.
    Registration keeps each bucket sorted by priority, and stably so; for the
    engine's own four rules the order of registration does not matter. *)

From stdpp Require Import sorting.
From S2P Require Import Prelude Sorting Tables Action Config CharState English Helpers.
From S2P Require Import Engine Modifiers Rules TypingEngine RulesFrame.
From S2P Require Import Validator.
From S2P Require Import TonePosition.
From S2P Require Import Invariant ComposeFacts.
From S2P Require Import ToneFacts BufferFacts Session Operations.
Open Scope Z_scope.

(** ** Registration *)

Definition phase_is (p : Phase) (r : Rule) : bool := rulePhase r == p.

Lemma Register_bucket p rule r :
  bucket p (Register rule r) =
    if phase_is p rule then stable_sort by_priority (bucket p r ++ [rule]) else bucket p r.
Proof. unfold Register, phase_is. by destruct (rulePhase rule), p. Qed.

(** Registering a list of rules, first to last. *)
Definition register_all (rules : list Rule) (r : Registry) : Registry :=
  fold_left (fun r rule => Register rule r) rules r.

Lemma register_all_perm p rules r :
  bucket p (register_all rules r) ≡ₚ bucket p r ++ List.filter (phase_is p) rules.
Proof.
  revert r. induction rules as [|x rules IH]; intros r; simpl; [by rewrite app_nil_r|].
  rewrite IH, Register_bucket. destruct (phase_is p x); [|done].
  rewrite (stable_sort_perm priority). by rewrite <- app_assoc.
Qed.

Lemma register_all_sorted p rules r :
  StronglySorted (key_le priority) (bucket p r) ->
  StronglySorted (key_le priority) (bucket p (register_all rules r)).
Proof.
  revert r. induction rules as [|x rules IH]; intros r Hr; simpl; [done|].
  apply IH. rewrite Register_bucket. case_match; [|done]. apply (stable_sort_sorted priority).
Qed.

(** ** Properties *)

(** Registering a rule adds it to its phase only, keeps the bucket ordered by
    priority, and leaves rules of equal priority in the order they came. *)
Theorem Register_spec p rule r :
  if phase_is p rule
  then bucket p (Register rule r) ≡ₚ rule :: bucket p r /\
       StronglySorted (key_le priority) (bucket p (Register rule r)) /\
       forall k, List.filter (fun a => priority a =w k) (bucket p (Register rule r)) =
                 List.filter (fun a => priority a =w k) (bucket p r ++ [rule])
  else bucket p (Register rule r) = bucket p r.
Proof.
  rewrite Register_bucket. destruct (phase_is p rule); [|done]. split_and!.
  - rewrite (stable_sort_perm priority). symmetry. apply Permutation_cons_append.
  - apply (stable_sort_sorted priority).
  - intros k. apply (stable_sort_stable priority).
Qed.

Section EngineRules.
Context {P : Platform}.

Definition engine_rules : list Rule :=
  [ToneRule; ModifierRule; QuickStartConsonantRule; QuickEndConsonantRule].

Lemma engine_rules_distinct p a b :
  a ∈ List.filter (phase_is p) engine_rules -> b ∈ List.filter (phase_is p) engine_rules ->
  key_le priority a b -> key_le priority b a -> a = b.
Proof.
  unfold key_le. destruct p; simpl; rewrite ?elem_of_cons, !elem_of_nil;
    intros Ha Hb; destruct_or! Ha; destruct_or! Hb; subst; simpl; try done; lia.
Qed.

Lemma filter_perm {A} (f : A -> bool) l l' :
  l ≡ₚ l' -> List.filter f l ≡ₚ List.filter f l'.
Proof.
  induction 1; simpl; try done.
  - by case_match; [constructor|].
  - repeat case_match; try done. apply Permutation_swap.
  - etrans; eauto.
Qed.

(** The engine's pipeline does not depend on the order in which its four
    rules are registered: tone before modifier before quick ending, always. *)
Theorem registration_order_irrelevant rules p :
  rules ≡ₚ engine_rules ->
  bucket p (register_all rules empty_registry) = bucket p engine_registry.
Proof.
  intros Hr.
  assert (engine_registry = register_all engine_rules empty_registry) as -> by done.
  assert (StronglySorted (key_le priority) (bucket p empty_registry)) as He by (destruct p; constructor).
  assert (bucket p empty_registry = []) as Hb by by destruct p.
  pose proof (register_all_perm p rules empty_registry) as H1.
  pose proof (register_all_perm p engine_rules empty_registry) as H2.
  rewrite Hb in H1, H2. simpl in H1. rewrite (filter_perm _ _ _ Hr) in H1.
  apply (StronglySorted_unique_strong (key_le priority)).
  - intros a b Ha Hb'. rewrite H1 in Ha. rewrite H2 in Hb'. by apply (engine_rules_distinct p).
  - by apply register_all_sorted.
  - by apply register_all_sorted.
  - by rewrite H1, H2.
Qed.
End EngineRules.

Lemma registration_order_irrelevant_witness :
  bucket PostClassify (register_all (rev (engine_rules (P := posix_c_locale))) empty_registry) =
    bucket PostClassify (engine_registry (P := posix_c_locale)).
Proof.
  apply (registration_order_irrelevant (P := posix_c_locale)
    (rev (engine_rules (P := posix_c_locale))) PostClassify).
  symmetry. apply Permutation_rev.
Defined.

(** ** What a key does

    Tone keys - toggle, gates, English protection -, the undo of all marks and
    the stroke of d, on the engine's own handlers. *)

Section KeyFacts.
Context {P : Platform}.

(** ** Updates that leave what is visible *)

Lemma map_alter_at {B} (g : CharState -> B) f l i :
  ((i < length l)%nat -> g (f (l !!! i)) = g (l !!! i)) -> map g (alter f i l) = map g l.
Proof.
  revert i. induction l as [|s l IH]; intros [|i] H; csimpl; try done.
  - change (g (f s) :: map g l = g s :: map g l). f_equal. apply H. simpl. lia.
  - rewrite IH; [done|]. intros Hi. apply H. simpl. lia.
Qed.

Lemma alter_twice (f g : CharState -> CharState) i (l : list CharState) :
  alter f i (alter g i l) = alter (fun s => f (g s)) i l.
Proof. revert i. induction l as [|s l IH]; intros [|i]; csimpl; try done. by rewrite IH. Qed.

Lemma map_alter_both {B} (g : CharState -> B) f f' l i :
  (forall s, g (f s) = g (f' s)) -> map g (alter f i l) = map g (alter f' i l).
Proof.
  intros H. revert i. induction l as [|s l IH]; intros [|i]; csimpl; try done; [by rewrite H|by rewrite IH].
Qed.

Lemma visible_EraseConsumedRaw i e :
  map visible (states (EraseConsumedRaw i e)) = map visible (states e).
Proof. unfold EraseConsumedRaw. case_match; [done|]. simpl. rewrite map_map. by apply map_ext. Qed.

Definition literal (c : wchar) : CharState :=
  mkCS (towlower c) ModNone ToneNone (iswupper c) false 0%nat None.

(** The letters of [e'] are those of [l] with one literal inserted. *)
Definition inserts_literal (c : wchar) (l : list CharState) (e' : Engine) : Prop :=
  exists n, (n <= length l)%nat /\
    map visible (states e') = take n (map visible l) ++ [literal c] ++ drop n (map visible l).

Lemma length_EraseConsumedRaw i e : length (states (EraseConsumedRaw i e)) = length (states e).
Proof.
  pose proof (f_equal length (visible_EraseConsumedRaw i e)) as H. by rewrite !length_map in H.
Qed.

(** Restoring the key at [k] when the press at the tail is the same key: the raw
    input keeps one of the two, in the first's place. *)
Lemma RestoreConsumedKeyInPlace_twice e raw k c :
  rawInput e = raw ++ [k; c] -> towlower k = towlower c ->
  let e' := RestoreConsumedKeyInPlace (Some (length raw)) c e in
  rawInput e' = raw ++ [c] /\ inserts_literal c (states e) e'.
Proof.
  intros Hr Hk e'. subst e'. unfold RestoreConsumedKeyInPlace. cbv zeta.
  assert (length (rawInput e) = S (S (length raw))) as Hlen
    by (rewrite Hr, length_app; simpl; lia).
  assert (raw_back e = c) as Hb.
  { unfold raw_back. rewrite Hlen, Hr, list_lookup_total_alt, lookup_app_r by lia.
    replace (S (S (length raw)) - 1 - length raw)%nat with 1%nat by lia. done. }
  rewrite Hb, Z.eqb_refl, (proj2 (Nat.ltb_lt _ _)) by lia.
  rewrite (bool_decide_eq_false_2 (length (rawInput e) = 0%nat)) by lia. cbn [negb orb].
  replace (length (rawInput e) - 1)%nat with (S (length raw)) by lia.
  assert (rawInput (EraseConsumedRaw (S (length raw)) e) = raw ++ [k]) as Her.
  { unfold EraseConsumedRaw. rewrite (proj2 (Nat.leb_gt _ _)) by lia. simpl. rewrite Hr.
    clear. induction raw as [|x raw IH]; [done|]. csimpl. by rewrite IH. }
  split.
  - cbn [set_states rawInput set_rawInput]. rewrite Her. rewrite <- (Nat.add_0_r (length raw)).
    by rewrite insert_app_r.
  - set (e1 := set_rawInput _ _).
    assert (length (states e1) = length (states e)) as Hl1 by apply length_EraseConsumedRaw.
    assert (map visible (states e1) = map visible (states e)) as Hv1 by apply visible_EraseConsumedRaw.
    match goal with |- context [match ?x with Some i => i | None => length (states e1) end] =>
      set (n := match x with Some i => i | None => length (states e1) end) end.
    exists n. split.
    + subst n. case_match eqn:Hf; [|lia]. apply find_fwd_lt in Hf. lia.
    + cbn [set_states states]. rewrite !map_app, <- Hv1.
      change (map visible) with (fmap (M:=list) visible). by rewrite fmap_take, fmap_drop.
Qed.

(** C29. In the engine's tone handler ([ProcessTone], what a tone key comes to once
    the gates have let it through) a tone key pressed twice takes the tone back.  The
    first press puts the tone on the target vowel, over any other it bore.  The
    second, whatever its case, removes the tone, leaves every other letter as it was,
    inserts the key as a plain letter, keeps one of the two presses in the raw input
    and records the escape; so a vowel that bore no tone before is as it was before
    the first press, while another tone it bore does not come back. *)
Theorem ProcessTone_toggles t c c' raw target e :
  t <> ToneNone -> rawInput e = raw ++ [c] -> towlower c = towlower c' ->
  FindToneTarget (modernOrtho (config e)) (states e) = Some target ->
  cs_tone (states e !!! target) <> t ->
  let e1 := fst (ProcessTone t c None e) in
  let e2 := fst (ProcessTone t c' None (set_rawInput (rawInput e1 ++ [c']) e1)) in
  tone_at (states e1) target = t /\ escape e1 = EscNone /\
  rawInput e2 = raw ++ [c'] /\ escape e2 = EscTone /\
  inserts_literal c' (alter (set_tone ToneNone) target (states e)) e2 /\
  (cs_tone (states e !!! target) = ToneNone -> inserts_literal c' (states e) e2).
Proof.
  intros Ht Hr Hcc Hf Hn e1 e2.
  pose proof (FindToneTarget_nucleus _ _ _ Hf) as [Hlt _].
  set (l1 := alter (set_toneRawIdx (Some (length raw))) target (alter (set_tone t) target (states e))).
  assert (e1 = set_escape EscNone (set_states l1 e)) as He1.
  { subst e1 l1. unfold ProcessTone. rewrite (bool_decide_eq_false_2 (t = ToneNone)) by done.
    rewrite Hf. cbv zeta. rewrite bool_decide_eq_false_2 by done.
    rewrite Hr, length_app, Nat.add_sub. done. }
  assert (length l1 = length (states e)) as Hl1 by (subst l1; by rewrite !length_alter).
  assert (l1 !!! target = set_toneRawIdx (Some (length raw)) (set_tone t (states e !!! target))) as Hat.
  { subst l1. by rewrite !tone_alter_eq by (rewrite ?length_alter; done). }
  assert (FindToneTarget (modernOrtho (config e)) l1 = Some target) as Hf1.
  { rewrite <- Hf. apply FindToneTarget_bones. subst l1. by rewrite !map_alter_bones. }
  split; [rewrite He1; unfold tone_at; simpl; by rewrite Hat|]. split; [by rewrite He1|].
  set (x := set_rawInput (rawInput e1 ++ [c']) e1) in *.
  set (l2 := alter (set_toneRawIdx None) target (alter (set_tone ToneNone) target l1)).
  assert (e2 = set_escape EscTone (RestoreConsumedKeyInPlace (Some (length raw)) c' (set_states l2 x))) as ->.
  { subst e2. unfold ProcessTone. rewrite (bool_decide_eq_false_2 (t = ToneNone)) by done.
    assert (states x = l1 /\ config x = config e) as [-> ->] by (subst x; by rewrite He1).
    rewrite Hf1. cbv zeta. rewrite Hat. cbn [cs_tone set_toneRawIdx set_tone cs_toneRawIdx].
    by rewrite bool_decide_eq_true_2. }
  assert (rawInput (set_states l2 x) = raw ++ [c; c']) as Hrx.
  { subst x. rewrite He1. simpl. by rewrite Hr, <- app_assoc. }
  destruct (RestoreConsumedKeyInPlace_twice (set_states l2 x) raw c c' Hrx Hcc) as [Hraw (n & Hn' & Hv)].
  split; [exact Hraw|]. split; [done|].
  assert (Hvl : forall l, map visible l2 = map visible l ->
    inserts_literal c' l (set_escape EscTone (RestoreConsumedKeyInPlace (Some (length raw)) c' (set_states l2 x)))).
  { intros l Hl. exists n. split; [|rewrite <- Hl; exact Hv].
    apply (f_equal length) in Hl. rewrite !length_map in Hl. by rewrite <- Hl. }
  split; [|intros Hn0]; apply Hvl; subst l2 l1; rewrite !alter_twice.
  - by apply map_alter_both.
  - apply map_alter_at. intros _. unfold visible. simpl. by rewrite Hn0.
Qed.

(** ** English protection *)

(** Whether the target was cached by a gate or not, it is the same. *)
Lemma cached_target (h f : bool) (x : option nat) :
  (if h || f then if f then x else if h then x else None else x) = x.
Proof. by destruct h, f. Qed.

(** Once a word is known to be English a tone key is a letter: with a hard
    English verdict and no bypass, on every gate's path, the key is appended
    literally and nothing else changes, unless the tone would complete a
    Vietnamese syllable. *)
Theorem HandleToneFsm_hard_english a c lower u e :
  states e <> [] -> ActionToTone a <> ToneNone ->
  allowEnglishBypass (config e) = false -> bias (engProt e) = HardEnglish ->
  ToneWouldValidate (config e) (states e)
    (FindToneTarget (modernOrtho (config e)) (states e)) (ActionToTone a) = false ->
  HandleToneFsm a c lower u e = (UpdateSpellState (ProcessChar lower u e), true).
Proof.
  intros Hs Ha Hb Hh Hv. unfold HandleToneFsm. cbv zeta.
  assert (forall eff, ToneClear a c eff e = None) as ->.
  { intros eff. unfold ToneClear. by destruct a. }
  rewrite (bool_decide_eq_false_2 (length (states e) = 0%nat)) by (by destruct (states e)).
  rewrite (bool_decide_eq_false_2 (ActionToTone a = ToneNone)) by done.
  match goal with |- (if ?b then _ else _) = _ => destruct b; [done|] end.
  match goal with |- (if ?b then _ else _) = _ => destruct b; [done|] end.
  match goal with |- (if ?b then _ else _) = _ => destruct b; [done|] end.
  rewrite cached_target.
  rewrite Hb. cbn [negb]. unfold EnglishToneGate. cbv zeta.
  rewrite Hv, Hh. cbn [bool_decide]. rewrite bool_decide_eq_true_2 by done. done.
Qed.

(** ** A tone key after an escape *)

Lemma tone_action_other a :
  IsToneAction a = true -> IsTelexModifierAction a = false /\ IsVniModifierAction a = false /\
  IsUserDefinedOnlyAction a = false.
Proof. by destruct a. Qed.

Lemma ModifierRule_passes_tone ctx e :
  IsToneAction (cx_action ctx) = true -> applyRule ModifierRule ctx e = (e, RPass).
Proof. intros H. simpl. by destruct (tone_action_other _ H) as (-> & -> & ->). Qed.

Lemma EvaluateGates_escape cfg ctx :
  cx_escapeActive ctx = true -> cx_escapeKind ctx <> EscCircumflex ->
  (Z.land (GateMaskFor GateToneEscape) (EvaluateGates cfg ctx) <>w 0) = true.
Proof.
  intros Ha Hk. unfold EvaluateGates. cbv zeta. rewrite Ha, (bool_decide_eq_false_2 _ Hk).
  cbn [negb andb]. by split_ifs.
Qed.

(** An escaped tone stays escaped: after any escape but a circumflex's, a key
    that would be a tone goes through the whole dispatch without being applied
    and is typed as a plain letter. *)
Theorem tone_key_after_escape_is_literal c u e :
  isEscaped (escape e) = true -> escape e <> EscCircumflex ->
  IsVniDigitSequence c e = false ->
  IsToneAction (ResolveAction (towlower c) (config e)) = true ->
  quickEndConsonant (config e) = false ->
  ClassifyAndApply c (towlower c) u e = FinalizeRegularChar (ProcessChar (towlower c) u e).
Proof.
  intros He Hk Hd Ha Hq. unfold ClassifyAndApply. cbv zeta. rewrite Hd.
  unfold DispatchAtPhase. cbv zeta.
  set (ctx := snapshot _ _ _ _ _ _).
  assert (bucket PostClassify engine_registry = [ToneRule; ModifierRule; QuickEndConsonantRule]) as ->
    by apply engine_registry_buckets.
  pose proof (EvaluateGates_escape (config e) ctx He Hk) as Hg.
  set (raised := EvaluateGates (config e) ctx) in *. clearbody raised.
  assert (DispatchRules raised ctx [ToneRule; ModifierRule; QuickEndConsonantRule] e = (e, RPass)) as ->.
  { cbn [DispatchRules]. cbn [requires ToneRule]. rewrite Hg.
    cbn [requires ModifierRule]. rewrite Z.land_0_l. cbn [Z.eqb negb].
    rewrite ModifierRule_passes_tone by done.
    cbn [requires QuickEndConsonantRule]. rewrite Z.land_0_l. cbn [Z.eqb negb].
    cbn [applyRule QuickEndConsonantRule]. by rewrite Hq. }
  done.
Qed.

(** ** Undoing all marks *)

Definition bare (s : CharState) : bool := (cs_mod s == ModNone) && (cs_tone s == ToneNone).

Lemma clear_marks_bare s : bare (clear_marks s) = true.
Proof. unfold clear_marks, bare. destruct s as [? [] [] ? ? ? ?]; done. Qed.

Lemma clear_marks_id s : bare s = true -> clear_marks s = s.
Proof. unfold clear_marks, bare. destruct s as [? [] [] ? ? ? ?]; done. Qed.

(** Undo-all-marks strips every mark and only marks: each letter keeps its
    base and case, none is left with a modifier or a tone, the handler reports a
    change exactly when some letter had a mark, and a second press does nothing. *)
Theorem HandleUndoAllMarks_spec e :
  states e <> [] ->
  let e' := fst (HandleUndoAllMarks e) in
  map (fun s => (cs_base s, cs_isUpper s)) (states e') =
    map (fun s => (cs_base s, cs_isUpper s)) (states e) /\
  forallb bare (states e') = true /\
  snd (HandleUndoAllMarks e) = negb (forallb bare (states e)) /\
  snd (HandleUndoAllMarks e') = false /\ states (fst (HandleUndoAllMarks e')) = states e'.
Proof.
  intros Hs e'.
  assert (forall x, existsb (fun s => (cs_mod s != ModNone) || (cs_tone s != ToneNone)) x =
    negb (forallb bare x)) as Hx.
  { induction x as [|s x IH]; [done|]. simpl. rewrite IH. unfold bare.
    by destruct (cs_mod s), (cs_tone s). }
  assert (forall x, states x <> [] -> states (fst (HandleUndoAllMarks x)) = map clear_marks (states x) /\
    snd (HandleUndoAllMarks x) = negb (forallb bare (states x))) as Hu.
  { intros x Hn. unfold HandleUndoAllMarks. cbv zeta.
    rewrite bool_decide_eq_false_2 by (by destruct (states x)). rewrite Hx. by case_match. }
  assert (forall x, forallb bare (map clear_marks x) = true) as Hb.
  { induction x as [|s x IH]; [done|]. simpl. by rewrite clear_marks_bare, IH. }
  assert (states e' = map clear_marks (states e)) as He' by (subst e'; by apply Hu).
  assert (states e' <> []) as Hne by (rewrite He'; by destruct (states e)).
  rewrite He' at 1 2. rewrite map_map. split_and!.
  - apply map_ext. intros s. unfold clear_marks. by case_match.
  - apply Hb.
  - by apply Hu.
  - destruct (Hu e' Hne) as [_ ->]. by rewrite He', Hb.
  - destruct (Hu e' Hne) as [-> _]. rewrite He', map_map. apply map_ext. intros s.
    apply clear_marks_id, clear_marks_bare.
Qed.

(** ** The stroke of d *)

Lemma FindStrokeDTarget_mod m i l :
  FindStrokeDTarget (alter (set_mod m) i l) = FindStrokeDTarget l.
Proof.
  assert (forall j, IsD (alter (set_mod m) i l !!! j) = IsD (l !!! j)) as Hd
    by (intros; unfold IsD; by rewrite base_alter_mod).
  assert (forall j, IsVowel (alter (set_mod m) i l !!! j) = IsVowel (l !!! j)) as Hv
    by (intros; unfold IsVowel; by rewrite base_alter_mod).
  assert (forall n, DClusterStart (alter (set_mod m) i l) n = DClusterStart l n) as Hc.
  { induction n as [|n IH]; simpl; [done|]. by rewrite Hd, IH. }
  unfold FindStrokeDTarget. rewrite length_alter.
  rewrite (find_bwd_ext _ (fun i => IsD (l !!! i))) by (intros; apply Hd).
  destruct (find_bwd _ _); [|done]. by rewrite Hc, Hv.
Qed.

(** The stroke key toggles: on a plain d at the end of the word it makes đ;
    pressed again it takes the stroke back, appends the key as a letter and
    records the escape, after which the key strokes no more. *)
Theorem HandleStrokeD_toggles c l d e :
  states e = l ++ [d] -> FindStrokeDTarget (states e) = Some (length l) ->
  cs_mod d = ModNone -> escape e <> EscStroke -> l <> [] \/ spellExclusions (config e) = [] ->
  let e1 := fst (HandleStrokeD c e) in
  let e2 := fst (HandleStrokeD c e1) in
  states e1 = l ++ [set_mod Stroke d] /\
  map visible (states e2) = map visible (l ++ [d]) ++ [literal c] /\
  escape e2 = EscStroke /\ HandleStrokeD c e2 = (e2, false).
Proof.
  intros Hs Hf Hm He Hx e1 e2.
  assert (forall f (x : CharState), alter f (length l) (l ++ [x]) = l ++ [f x]) as Hal.
  { intros f x. clear. induction l as [|y l IH]; csimpl; [done|]. by rewrite IH. }
  assert (forall x : CharState, (l ++ [x]) !!! length l = x) as Hat.
  { intros x. rewrite list_lookup_total_alt, lookup_app_r, Nat.sub_diag by lia. done. }
  assert (e1 = alter_mod Stroke (length l) e) as He1.
  { subst e1. unfold HandleStrokeD. rewrite (bool_decide_eq_false_2 _ He), Hf. cbv zeta.
    rewrite Hs, Hat, Hm, bool_decide_eq_true_2 by done. done. }
  assert (states e1 = l ++ [set_mod Stroke d]) as Hs1 by (rewrite He1; simpl; by rewrite Hs, Hal).
  split; [exact Hs1|].
  assert (FindStrokeDTarget (states e1) = Some (length l)) as Hf1.
  { rewrite He1. simpl. by rewrite FindStrokeDTarget_mod. }
  assert (e2 = ProcessChar1 c (set_escape EscStroke (alter_mod ModNone (length l) e1))) as He2.
  { subst e2. unfold HandleStrokeD. rewrite Hf1. cbv zeta.
    assert (escape e1 = escape e) as -> by (by rewrite He1).
    rewrite (bool_decide_eq_false_2 _ He), Hs1, Hat. cbn [cs_mod set_mod].
    rewrite (bool_decide_eq_false_2 (Stroke = ModNone)), (bool_decide_eq_true_2 (Stroke = Stroke)) by done.
    unfold IsStrokeDEscapeAllowed. rewrite length_app, Nat.add_sub. simpl.
    rewrite (bool_decide_eq_true_2 (length l = length l)) by done.
    rewrite (proj2 (Nat.ltb_lt 0 (length l + 1))) by lia. simpl.
    assert (config e1 = config e) as -> by (by rewrite He1).
    destruct Hx as [Hx|Hx].
    - rewrite (bool_decide_eq_false_2 (length l = 0%nat)) by (by destruct l). done.
    - rewrite Hx. simpl. by rewrite andb_false_r. }
  split; [|split; [by rewrite He2|]].
  - rewrite He2. simpl. rewrite Hs1, Hal, map_app. f_equal. rewrite !map_app. f_equal.
    simpl. f_equal. unfold visible. simpl. by rewrite Hm.
  - unfold HandleStrokeD. by rewrite He2.
Qed.
End KeyFacts.

(** ** Witnesses, in the POSIX locale *)

#[local] Existing Instance posix_c_locale.

(** "toan" and the tone key, recorded. *)
Definition toan_s : Engine :=
  RecordKey (L "s") false (type_keys telex_cfg [L "t"; L "o"; L "a"; L "n"]).

Lemma ProcessTone_toggles_witness :
  let e1 := fst (ProcessTone Acute (L "s") None toan_s) in
  let e2 := fst (ProcessTone Acute (L "S") None (set_rawInput (rawInput e1 ++ [L "S"]) e1)) in
  tone_at (states e1) 2 = Acute /\ escape e1 = EscNone /\
  rawInput e2 = [L "t"; L "o"; L "a"; L "n"] ++ [L "S"] /\ escape e2 = EscTone /\
  inserts_literal (L "S") (states toan_s) e2.
Proof.
  destruct (ProcessTone_toggles Acute (L "s") (L "S") [L "t"; L "o"; L "a"; L "n"] 2 toan_s)
    as (H1 & H2 & H3 & H4 & _ & H5);
    [discriminate|vm_compute; reflexivity..|vm_compute; discriminate|].
  split; [exact H1|]. split; [exact H2|]. split; [exact H3|]. split; [exact H4|].
  apply H5. vm_compute. reflexivity.
Defined.

(** "stre": no Vietnamese word starts with st. *)
Definition stre : Engine := type_keys telex_cfg [L "s"; L "t"; L "r"; L "e"].

Lemma HandleToneFsm_hard_english_witness :
  HandleToneFsm ToneAcute (L "s") (L "s") false stre =
    (UpdateSpellState (ProcessChar (L "s") false stre), true).
Proof.
  apply (HandleToneFsm_hard_english ToneAcute (L "s") (L "s") false stre);
    [vm_compute; discriminate|discriminate|vm_compute; reflexivity..].
Defined.

(** "ass": the tone of á, taken back. *)
Definition ass : Engine := type_keys telex_cfg [L "a"; L "s"; L "s"].

Lemma tone_key_after_escape_is_literal_witness :
  ClassifyAndApply (L "f") (towlower (L "f")) false ass =
    FinalizeRegularChar (ProcessChar (towlower (L "f")) false ass).
Proof.
  apply (tone_key_after_escape_is_literal (L "f") false ass);
    [vm_compute; reflexivity|vm_compute; discriminate|vm_compute; reflexivity..].
Defined.

Lemma HandleUndoAllMarks_spec_witness :
  snd (HandleUndoAllMarks tieng) = true /\
  forallb bare (states (fst (HandleUndoAllMarks tieng))) = true.
Proof.
  assert (states tieng <> []) as H by (vm_compute; discriminate).
  split; [vm_compute; reflexivity|exact (proj1 (proj2 (HandleUndoAllMarks_spec tieng H)))].
Defined.

(** "nd". *)
Definition nd : Engine := type_keys telex_cfg [L "n"; L "d"].

Lemma HandleStrokeD_toggles_witness :
  escape (fst (HandleStrokeD (L "d") (fst (HandleStrokeD (L "d") nd)))) = EscStroke.
Proof.
  refine (proj1 (proj2 (proj2 (HandleStrokeD_toggles (L "d")
    (pop_back (states nd)) (back (states nd)) nd _ _ _ _ _))));
    [vm_compute; reflexivity..|vm_compute; discriminate|left; vm_compute; discriminate].
Defined.
