(* ===== verification/CodeTable.v ===== *)
(** * Code tables (src/src/core/engine/CodeTableConverter.cpp, CodeTableConverter.h)

    Conversion of Unicode Vietnamese text to the legacy encodings and back,
    and the text transformations of the converter.  A code table is the byte
    behind [enum class CodeTable : uint8_t] (the quick-convert settings cast a
    stored byte to it), so the functions also say what an unknown byte does.
    A [std::unordered_map] is a [gmap]; where the code iterates over one, the
    order of its entries is a parameter and the facts at the end prove that it
    does not matter; there are also the round trips. *)

From S2P Require Import Prelude Action Config Tables.
From stdpp Require Export gmap.
Open Scope Z_scope.

Definition CodeTable_u8 (t : CodeTable) : Z :=
  match t with
  | Unicode => 0 | TCVN3 => 1 | VNIWindows => 2 | UnicodeCompound => 3 | VietnameseLocale => 4
  end.

(** [static_cast<uint32_t>]. *)
Definition to_u32 (z : Z) : Z := z mod 2 ^ 32.

(** ** Encoded characters: [count] output units, the second 0 when unused *)

Record EncodedChar := mkEncoded { ec_unit0 : wchar; ec_unit1 : wchar; ec_count : Z }.

(** ** The forward tables: initializer lists, the first entry of a key wins *)

Definition kTcvn3Map : list (Z * Z) :=
  [(0x00C2, 0xA2); (0x00E2, 0xA9); (0x0102, 0xA1); (0x0103, 0xA8);
   (0x00C1, 0xB8); (0x00E1, 0xB8); (0x00C0, 0xB5); (0x00E0, 0xB5);
   (0x1EA2, 0xB6); (0x1EA3, 0xB6); (0x00C3, 0xB7); (0x00E3, 0xB7);
   (0x1EA0, 0xB9); (0x1EA1, 0xB9);
   (0x00D4, 0xA4); (0x00F4, 0xAB); (0x01A0, 0xA5); (0x01A1, 0xAC);
   (0x00D3, 0xE3); (0x00F3, 0xE3); (0x00D2, 0xDF); (0x00F2, 0xDF);
   (0x1ECE, 0xE1); (0x1ECF, 0xE1); (0x00D5, 0xE2); (0x00F5, 0xE2);
   (0x1ECC, 0xE4); (0x1ECD, 0xE4);
   (0x01AF, 0xA6); (0x01B0, 0xAD);
   (0x00DA, 0xF3); (0x00FA, 0xF3); (0x00D9, 0xEF); (0x00F9, 0xEF);
   (0x1EE6, 0xF1); (0x1EE7, 0xF1); (0x0168, 0xF2); (0x0169, 0xF2);
   (0x1EE4, 0xF4); (0x1EE5, 0xF4);
   (0x00CA, 0xA3); (0x00EA, 0xAA);
   (0x00C9, 0xD0); (0x00E9, 0xD0); (0x00C8, 0xCC); (0x00E8, 0xCC);
   (0x1EBA, 0xCE); (0x1EBB, 0xCE); (0x1EBC, 0xCF); (0x1EBD, 0xCF);
   (0x1EB8, 0xD1); (0x1EB9, 0xD1);
   (0x0110, 0xA7); (0x0111, 0xAE);
   (0x1EA4, 0xCA); (0x1EA5, 0xCA); (0x1EA6, 0xC7); (0x1EA7, 0xC7);
   (0x1EA8, 0xC8); (0x1EA9, 0xC8); (0x1EAA, 0xC9); (0x1EAB, 0xC9);
   (0x1EAC, 0xCB); (0x1EAD, 0xCB);
   (0x1EAE, 0xBE); (0x1EAF, 0xBE); (0x1EB0, 0xBB); (0x1EB1, 0xBB);
   (0x1EB2, 0xBC); (0x1EB3, 0xBC); (0x1EB4, 0xBD); (0x1EB5, 0xBD);
   (0x1EB6, 0xC6); (0x1EB7, 0xC6);
   (0x1ED0, 0xE8); (0x1ED1, 0xE8); (0x1ED2, 0xE5); (0x1ED3, 0xE5);
   (0x1ED4, 0xE6); (0x1ED5, 0xE6); (0x1ED6, 0xE7); (0x1ED7, 0xE7);
   (0x1ED8, 0xE9); (0x1ED9, 0xE9);
   (0x1EDA, 0xED); (0x1EDB, 0xED); (0x1EDC, 0xEA); (0x1EDD, 0xEA);
   (0x1EDE, 0xEB); (0x1EDF, 0xEB); (0x1EE0, 0xEC); (0x1EE1, 0xEC);
   (0x1EE2, 0xEE); (0x1EE3, 0xEE);
   (0x1EE8, 0xF8); (0x1EE9, 0xF8); (0x1EEA, 0xF5); (0x1EEB, 0xF5);
   (0x1EEC, 0xF6); (0x1EED, 0xF6); (0x1EEE, 0xF7); (0x1EEF, 0xF7);
   (0x1EF0, 0xF9); (0x1EF1, 0xF9);
   (0x1EBE, 0xD5); (0x1EBF, 0xD5); (0x1EC0, 0xD2); (0x1EC1, 0xD2);
   (0x1EC2, 0xD3); (0x1EC3, 0xD3); (0x1EC4, 0xD4); (0x1EC5, 0xD4);
   (0x1EC6, 0xD6); (0x1EC7, 0xD6);
   (0x00CD, 0xDD); (0x00ED, 0xDD); (0x00CC, 0xD7); (0x00EC, 0xD7);
   (0x1EC8, 0xD8); (0x1EC9, 0xD8); (0x0128, 0xDC); (0x0129, 0xDC);
   (0x1ECA, 0xDE); (0x1ECB, 0xDE);
   (0x00DD, 0xFD); (0x00FD, 0xFD); (0x1EF2, 0xFA); (0x1EF3, 0xFA);
   (0x1EF6, 0xFB); (0x1EF7, 0xFB); (0x1EF8, 0xFC); (0x1EF9, 0xFC);
   (0x1EF4, 0xFE); (0x1EF5, 0xFE)].

Definition kVniMap : list (Z * Z) :=
  [(0x00C2, 0xC241); (0x00E2, 0xE261); (0x0102, 0xCA41); (0x0103, 0xEA61);
   (0x00C1, 0xD941); (0x00E1, 0xF961); (0x00C0, 0xD841); (0x00E0, 0xF861);
   (0x1EA2, 0xDB41); (0x1EA3, 0xFB61); (0x00C3, 0xD541); (0x00E3, 0xF561);
   (0x1EA0, 0xCF41); (0x1EA1, 0xEF61);
   (0x00D4, 0xC24F); (0x00F4, 0xE26F); (0x01A0, 0x00D4); (0x01A1, 0x00F4);
   (0x00D3, 0xD94F); (0x00F3, 0xF96F); (0x00D2, 0xD84F); (0x00F2, 0xF86F);
   (0x1ECE, 0xDB4F); (0x1ECF, 0xFB6F); (0x00D5, 0xD54F); (0x00F5, 0xF56F);
   (0x1ECC, 0xCF4F); (0x1ECD, 0xEF6F);
   (0x01AF, 0x00D6); (0x01B0, 0x00F6);
   (0x00DA, 0xD955); (0x00FA, 0xF975); (0x00D9, 0xD855); (0x00F9, 0xF875);
   (0x1EE6, 0xDB55); (0x1EE7, 0xFB75); (0x0168, 0xD555); (0x0169, 0xF575);
   (0x1EE4, 0xCF55); (0x1EE5, 0xEF75);
   (0x00CA, 0xC245); (0x00EA, 0xE265);
   (0x00C9, 0xD945); (0x00E9, 0xF965); (0x00C8, 0xD845); (0x00E8, 0xF865);
   (0x1EBA, 0xDB45); (0x1EBB, 0xFB65); (0x1EBC, 0xD545); (0x1EBD, 0xF565);
   (0x1EB8, 0xCF45); (0x1EB9, 0xEF65);
   (0x0110, 0x00D1); (0x0111, 0x00F1);
   (0x1EA4, 0xC141); (0x1EA5, 0xE161); (0x1EA6, 0xC041); (0x1EA7, 0xE061);
   (0x1EA8, 0xC541); (0x1EA9, 0xE561); (0x1EAA, 0xC341); (0x1EAB, 0xE361);
   (0x1EAC, 0xC441); (0x1EAD, 0xE461);
   (0x1EAE, 0xC941); (0x1EAF, 0xE961); (0x1EB0, 0xC841); (0x1EB1, 0xE861);
   (0x1EB2, 0xDA41); (0x1EB3, 0xFA61); (0x1EB4, 0xDC41); (0x1EB5, 0xFC61);
   (0x1EB6, 0xCB41); (0x1EB7, 0xEB61);
   (0x1ED0, 0xC14F); (0x1ED1, 0xE16F); (0x1ED2, 0xC04F); (0x1ED3, 0xE06F);
   (0x1ED4, 0xC54F); (0x1ED5, 0xE56F); (0x1ED6, 0xC34F); (0x1ED7, 0xE36F);
   (0x1ED8, 0xC44F); (0x1ED9, 0xE46F);
   (0x1EDA, 0xD9D4); (0x1EDB, 0xF9F4); (0x1EDC, 0xD8D4); (0x1EDD, 0xF8F4);
   (0x1EDE, 0xDBD4); (0x1EDF, 0xFBF4); (0x1EE0, 0xD5D4); (0x1EE1, 0xF5F4);
   (0x1EE2, 0xCFD4); (0x1EE3, 0xEFF4);
   (0x1EE8, 0xD9D6); (0x1EE9, 0xF9F6); (0x1EEA, 0xD8D6); (0x1EEB, 0xF8F6);
   (0x1EEC, 0xDBD6); (0x1EED, 0xFBF6); (0x1EEE, 0xD5D6); (0x1EEF, 0xF5F6);
   (0x1EF0, 0xCFD6); (0x1EF1, 0xEFF6);
   (0x1EBE, 0xC145); (0x1EBF, 0xE165); (0x1EC0, 0xC045); (0x1EC1, 0xE065);
   (0x1EC2, 0xC545); (0x1EC3, 0xE565); (0x1EC4, 0xC345); (0x1EC5, 0xE365);
   (0x1EC6, 0xC445); (0x1EC7, 0xE465);
   (0x00CD, 0x00CD); (0x00ED, 0x00ED); (0x00CC, 0x00CC); (0x00EC, 0x00EC);
   (0x1EC8, 0x00C6); (0x1EC9, 0x00E6); (0x0128, 0x00D3); (0x0129, 0x00F3);
   (0x1ECA, 0x00D2); (0x1ECB, 0x00F2);
   (0x00DD, 0xD959); (0x00FD, 0xF979); (0x1EF2, 0xD859); (0x1EF3, 0xF879);
   (0x1EF6, 0xDB59); (0x1EF7, 0xFB79); (0x1EF8, 0xD559); (0x1EF9, 0xF579);
   (0x1EF4, 0x00CE); (0x1EF5, 0x00EE)].

Definition kUnicodeCompoundMap : list (Z * Z) :=
  [(0x00C2, 0x00C2); (0x00E2, 0x00E2); (0x0102, 0x0102); (0x0103, 0x0103);
   (0x00C1, 0x2041); (0x00E1, 0x2061); (0x00C0, 0x4041); (0x00E0, 0x4061);
   (0x1EA2, 0x6041); (0x1EA3, 0x6061); (0x00C3, 0x8041); (0x00E3, 0x8061);
   (0x1EA0, 0xA041); (0x1EA1, 0xA061);
   (0x00D4, 0x00D4); (0x00F4, 0x00F4); (0x01A0, 0x01A0); (0x01A1, 0x01A1);
   (0x00D3, 0x204F); (0x00F3, 0x206F); (0x00D2, 0x404F); (0x00F2, 0x406F);
   (0x1ECE, 0x604F); (0x1ECF, 0x606F); (0x00D5, 0x804F); (0x00F5, 0x806F);
   (0x1ECC, 0xA04F); (0x1ECD, 0xA06F);
   (0x01AF, 0x01AF); (0x01B0, 0x01B0);
   (0x00DA, 0x2055); (0x00FA, 0x2075); (0x00D9, 0x4055); (0x00F9, 0x4075);
   (0x1EE6, 0x6055); (0x1EE7, 0x6075); (0x0168, 0x8055); (0x0169, 0x8075);
   (0x1EE4, 0xA055); (0x1EE5, 0xA075);
   (0x00CA, 0x00CA); (0x00EA, 0x00EA);
   (0x00C9, 0x2045); (0x00E9, 0x2065); (0x00C8, 0x4045); (0x00E8, 0x4065);
   (0x1EBA, 0x6045); (0x1EBB, 0x6065); (0x1EBC, 0x8045); (0x1EBD, 0x8065);
   (0x1EB8, 0xA045); (0x1EB9, 0xA065);
   (0x0110, 0x0110); (0x0111, 0x0111);
   (0x1EA4, 0x20C2); (0x1EA5, 0x20E2); (0x1EA6, 0x40C2); (0x1EA7, 0x40E2);
   (0x1EA8, 0x60C2); (0x1EA9, 0x60E2); (0x1EAA, 0x80C2); (0x1EAB, 0x80E2);
   (0x1EAC, 0xA0C2); (0x1EAD, 0xA0E2);
   (0x1EAE, 0x2102); (0x1EAF, 0x2103); (0x1EB0, 0x4102); (0x1EB1, 0x4103);
   (0x1EB2, 0x6102); (0x1EB3, 0x6103); (0x1EB4, 0x8102); (0x1EB5, 0x8103);
   (0x1EB6, 0xA102); (0x1EB7, 0xA103);
   (0x1ED0, 0x20D4); (0x1ED1, 0x20F4); (0x1ED2, 0x40D4); (0x1ED3, 0x40F4);
   (0x1ED4, 0x60D4); (0x1ED5, 0x60F4); (0x1ED6, 0x80D4); (0x1ED7, 0x80F4);
   (0x1ED8, 0xA0D4); (0x1ED9, 0xA0F4);
   (0x1EDA, 0x21A0); (0x1EDB, 0x21A1); (0x1EDC, 0x41A0); (0x1EDD, 0x41A1);
   (0x1EDE, 0x61A0); (0x1EDF, 0x61A1); (0x1EE0, 0x81A0); (0x1EE1, 0x81A1);
   (0x1EE2, 0xA1A0); (0x1EE3, 0xA1A1);
   (0x1EE8, 0x21AF); (0x1EE9, 0x21B0); (0x1EEA, 0x41AF); (0x1EEB, 0x41B0);
   (0x1EEC, 0x61AF); (0x1EED, 0x61B0); (0x1EEE, 0x81AF); (0x1EEF, 0x81B0);
   (0x1EF0, 0xA1AF); (0x1EF1, 0xA1B0);
   (0x1EBE, 0x20CA); (0x1EBF, 0x20EA); (0x1EC0, 0x40CA); (0x1EC1, 0x40EA);
   (0x1EC2, 0x60CA); (0x1EC3, 0x60EA); (0x1EC4, 0x80CA); (0x1EC5, 0x80EA);
   (0x1EC6, 0xA0CA); (0x1EC7, 0xA0EA);
   (0x00CD, 0x2049); (0x00ED, 0x2069); (0x00CC, 0x4049); (0x00EC, 0x4069);
   (0x1EC8, 0x6049); (0x1EC9, 0x6069); (0x0128, 0x8049); (0x0129, 0x8069);
   (0x1ECA, 0xA049); (0x1ECB, 0xA069);
   (0x00DD, 0x2059); (0x00FD, 0x2079); (0x1EF2, 0x4059); (0x1EF3, 0x4079);
   (0x1EF6, 0x6059); (0x1EF7, 0x6079); (0x1EF8, 0x8059); (0x1EF9, 0x8079);
   (0x1EF4, 0xA059); (0x1EF5, 0xA079)].

Definition kCp1258Map : list (Z * Z) :=
  [(0x00C2, 0x00C2); (0x00E2, 0x00E2); (0x0102, 0x00C3); (0x0103, 0x00E3);
   (0x00C1, 0xEC41); (0x00E1, 0xEC61); (0x00C0, 0xCC41); (0x00E0, 0xCC61);
   (0x1EA2, 0xD241); (0x1EA3, 0xD261); (0x00C3, 0xDE41); (0x00E3, 0xDE61);
   (0x1EA0, 0xF241); (0x1EA1, 0xF261);
   (0x00D4, 0x00D4); (0x00F4, 0x00F4); (0x01A0, 0x00D5); (0x01A1, 0x00F5);
   (0x00D3, 0xEC4F); (0x00F3, 0xEC6F); (0x00D2, 0xCC4F); (0x00F2, 0xCC6F);
   (0x1ECE, 0xD24F); (0x1ECF, 0xD26F); (0x00D5, 0xDE4F); (0x00F5, 0xDE6F);
   (0x1ECC, 0xF24F); (0x1ECD, 0xF26F);
   (0x01AF, 0x00DD); (0x01B0, 0x00FD);
   (0x00DA, 0xEC55); (0x00FA, 0xEC75); (0x00D9, 0xCC55); (0x00F9, 0xCC75);
   (0x1EE6, 0xD255); (0x1EE7, 0xD275); (0x0168, 0xDE55); (0x0169, 0xDE75);
   (0x1EE4, 0xF255); (0x1EE5, 0xF275);
   (0x00CA, 0x00CA); (0x00EA, 0x00EA);
   (0x00C9, 0xEC45); (0x00E9, 0xEC65); (0x00C8, 0xCC45); (0x00E8, 0xCC65);
   (0x1EBA, 0xD245); (0x1EBB, 0xD265); (0x1EBC, 0xDE45); (0x1EBD, 0xDE65);
   (0x1EB8, 0xF245); (0x1EB9, 0xF265);
   (0x0110, 0x00D0); (0x0111, 0x00F0);
   (0x1EA4, 0xECC2); (0x1EA5, 0xECE2); (0x1EA6, 0xCCC2); (0x1EA7, 0xCCE2);
   (0x1EA8, 0xD2C2); (0x1EA9, 0xD2E2); (0x1EAA, 0xDEC2); (0x1EAB, 0xDEE2);
   (0x1EAC, 0xF2C2); (0x1EAD, 0xF2E2);
   (0x1EAE, 0xECC3); (0x1EAF, 0xECE3); (0x1EB0, 0xCCC3); (0x1EB1, 0xCCE3);
   (0x1EB2, 0xD2C3); (0x1EB3, 0xD2E3); (0x1EB4, 0xDEC3); (0x1EB5, 0xDEE3);
   (0x1EB6, 0xF2C3); (0x1EB7, 0xF2E3);
   (0x1ED0, 0xECD4); (0x1ED1, 0xECF4); (0x1ED2, 0xCCD4); (0x1ED3, 0xCCF4);
   (0x1ED4, 0xD2D4); (0x1ED5, 0xD2F4); (0x1ED6, 0xDED4); (0x1ED7, 0xDEF4);
   (0x1ED8, 0xF2D4); (0x1ED9, 0xF2F4);
   (0x1EDA, 0xECD5); (0x1EDB, 0xECF5); (0x1EDC, 0xCCD5); (0x1EDD, 0xCCF5);
   (0x1EDE, 0xD2D5); (0x1EDF, 0xD2F5); (0x1EE0, 0xDED5); (0x1EE1, 0xDEF5);
   (0x1EE2, 0xF2D5); (0x1EE3, 0xF2F5);
   (0x1EE8, 0xECDD); (0x1EE9, 0xECFD); (0x1EEA, 0xCCDD); (0x1EEB, 0xCCFD);
   (0x1EEC, 0xD2DD); (0x1EED, 0xD2FD); (0x1EEE, 0xDEDD); (0x1EEF, 0xDEFD);
   (0x1EF0, 0xF2DD); (0x1EF1, 0xF2FD);
   (0x1EBE, 0xECCA); (0x1EBF, 0xECEA); (0x1EC0, 0xCCCA); (0x1EC1, 0xCCEA);
   (0x1EC2, 0xD2CA); (0x1EC3, 0xD2EA); (0x1EC4, 0xDECA); (0x1EC5, 0xDEEA);
   (0x1EC6, 0xF2CA); (0x1EC7, 0xF2EA);
   (0x00CD, 0xEC49); (0x00ED, 0xEC69); (0x00CC, 0xCC49); (0x00EC, 0xCC69);
   (0x1EC8, 0xD249); (0x1EC9, 0xD269); (0x0128, 0xDE49); (0x0129, 0xDE69);
   (0x1ECA, 0xF249); (0x1ECB, 0xF269);
   (0x00DD, 0xEC59); (0x00FD, 0xEC79); (0x1EF2, 0xCC59); (0x1EF3, 0xCC79);
   (0x1EF6, 0xD259); (0x1EF7, 0xD279); (0x1EF8, 0xDE59); (0x1EF9, 0xDE79);
   (0x1EF4, 0xF259); (0x1EF5, 0xF279)].

Abbreviation CodeMap := (gmap Z Z) (only parsing).

Definition GetTcvn3Map : CodeMap := list_to_map kTcvn3Map.
Definition GetVniMap : CodeMap := list_to_map kVniMap.
Definition GetUnicodeCompoundMap : CodeMap := list_to_map kUnicodeCompoundMap.
Definition GetCp1258Map : CodeMap := list_to_map kCp1258Map.

(** The maps are built once and used through this equation. *)
Lemma code_maps :
  GetTcvn3Map = list_to_map kTcvn3Map /\ GetVniMap = list_to_map kVniMap /\
  GetUnicodeCompoundMap = list_to_map kUnicodeCompoundMap /\
  GetCp1258Map = list_to_map kCp1258Map.
Proof. repeat split. Qed.
#[global] Opaque GetTcvn3Map GetVniMap GetUnicodeCompoundMap GetCp1258Map.

(** Acute, grave, hook, tilde, dot. *)
Definition kCombiningMarks : list wchar := [0x301; 0x300; 0x309; 0x303; 0x323].

(** ** Splitting a table value into output units *)

Definition DecodeLoHi (value : Z) : EncodedChar :=
  if value <=? 0xFF then mkEncoded value 0 1
  else mkEncoded (Z.land value 0xFF) (Z.land (Z.shiftr value 8) 0xFF) 2.

Definition DecodeCompound (value : Z) : EncodedChar :=
  let hi := Z.land (Z.shiftr value 8) 0xFF in
  let lo := Z.land value 0xFF in
  if hi <? 0x20 then mkEncoded value 0 1
  else
    let markIndex := Z.shiftr hi 5 - 1 in
    if (0 <=? markIndex) && (markIndex <? 5)
    then mkEncoded lo (nth (Z.to_nat markIndex) kCombiningMarks 0) 2
    else mkEncoded value 0 1.

Definition ConvertChar (ch : wchar) (table : Z) : EncodedChar :=
  if table =w CodeTable_u8 Unicode then mkEncoded ch 0 1
  else
    let key := to_u32 ch in
    let found :=
      if table =w CodeTable_u8 TCVN3 then
        (fun v => mkEncoded v 0 1) <$> GetTcvn3Map !! key
      else if table =w CodeTable_u8 VNIWindows then
        DecodeLoHi <$> GetVniMap !! key
      else if table =w CodeTable_u8 UnicodeCompound then
        DecodeCompound <$> GetUnicodeCompoundMap !! key
      else if table =w CodeTable_u8 VietnameseLocale then
        DecodeLoHi <$> GetCp1258Map !! key
      else None in
    default (mkEncoded ch 0 1) found.

(** ** Reverse maps

    Each is built by one loop over a forward map: the first character seen for
    an encoded value is kept, a later one replaces it when it is lowercase and
    the kept one is not. *)

Abbreviation ReverseMap := (gmap Z Z) (only parsing).
Record ReversePairMap := mkReversePair { rp_single : ReverseMap; rp_pair : ReverseMap }.

Definition IsLowerViet (ch : wchar) : bool :=
  (ToLowerVietnamese ch =w ch) && (ToUpperVietnamese ch <>w ch).

(** The body shared by the loops: [rev[key] = wch] unless a better one is there. *)
Definition prefer_lower (rev : ReverseMap) (key : Z) (wch : wchar) : ReverseMap :=
  match rev !! key with
  | None => <[key := wch]> rev
  | Some old => if IsLowerViet wch && negb (IsLowerViet old) then <[key := wch]> rev else rev
  end.

Definition pair_key (first second : wchar) : Z :=
  Z.lor (to_u32 (Z.shiftl (to_u32 first) 16)) (to_u32 second).

Definition Tcvn3ReverseStep (rev : ReverseMap) (entry : Z * Z) : ReverseMap :=
  prefer_lower rev entry.2 entry.1.
Definition GetTcvn3Reverse (order : list (Z * Z)) : ReverseMap :=
  foldl Tcvn3ReverseStep ∅ order.

Definition BuildReverseStep (result : ReversePairMap) (entry : Z * Z) : ReversePairMap :=
  let '(wch, encoded) := entry in
  if encoded <=? 0xFF then
    mkReversePair (prefer_lower (rp_single result) encoded wch) (rp_pair result)
  else
    let lo := Z.land encoded 0xFF in
    let hi := Z.land (Z.shiftr encoded 8) 0xFF in
    mkReversePair (rp_single result) (prefer_lower (rp_pair result) (pair_key lo hi) wch).
Definition BuildReversePairMap (order : list (Z * Z)) : ReversePairMap :=
  foldl BuildReverseStep (mkReversePair ∅ ∅) order.

Definition CompoundReverseStep (rev : ReverseMap) (entry : Z * Z) : ReverseMap :=
  let '(wch, encoded) := entry in
  let decoded := DecodeCompound encoded in
  if ec_count decoded =w 2
  then prefer_lower rev (pair_key (ec_unit0 decoded) (ec_unit1 decoded)) wch
  else rev.
Definition GetCompoundReverse (order : list (Z * Z)) : ReverseMap :=
  foldl CompoundReverseStep ∅ order.

(** The maps the decoder uses, for one iteration order of each forward map. *)
Record ReverseMaps := mkReverse {
  tcvn3_rev : ReverseMap; compound_rev : ReverseMap;
  vni_rev : ReversePairMap; cp1258_rev : ReversePairMap
}.

Definition reverse_maps (tcvn3 compound vni cp1258 : list (Z * Z)) : ReverseMaps :=
  mkReverse (GetTcvn3Reverse tcvn3) (GetCompoundReverse compound)
            (BuildReversePairMap vni) (BuildReversePairMap cp1258).

(** The order of the source text. *)
Definition standard_reverse : ReverseMaps :=
  reverse_maps kTcvn3Map kUnicodeCompoundMap kVniMap kCp1258Map.

Lemma standard_reverse_maps :
  standard_reverse =
  mkReverse (GetTcvn3Reverse kTcvn3Map) (GetCompoundReverse kUnicodeCompoundMap)
            (BuildReversePairMap kVniMap) (BuildReversePairMap kCp1258Map).
Proof. reflexivity. Qed.
#[global] Opaque standard_reverse.

(** ** Character classes *)

Definition IsCombiningMark (ch : wchar) : bool :=
  (ch =w 0x300) || (ch =w 0x301) || (ch =w 0x303) || (ch =w 0x309) || (ch =w 0x323).

Definition IsAlpha (ch : wchar) : bool :=
  if ((L "A" <=? ch) && (ch <=? L "Z")) || ((L "a" <=? ch) && (ch <=? L "z")) then true
  else if (0xC0 <=? ch) && (ch <=? 0x24F) then true
  else if (0x1EA0 <=? ch) && (ch <=? 0x1EF9) then true
  else false.

(** [std::iswspace]: the six ASCII separators, and beyond ASCII whatever the C
    runtime answers. *)
Class SpacePlatform := { iswspace_wide : wchar -> bool }.
Definition iswspace `{SpacePlatform} (c : wchar) : bool :=
  if c <? 128 then ((9 <=? c) && (c <=? 13)) || (c =w 32) else iswspace_wide c.
Definition posix_spaces : SpacePlatform := {| iswspace_wide := fun _ => false |}.

(** ** The diacritics map *)

Definition rowBase : list wchar :=
  [L "a"; L "a"; L "a"; L "e"; L "e"; L "i"; L "o"; L "o"; L "o"; L "u"; L "u"; L "y"].

Definition DiacriticsCell (m : gmap wchar wchar) (cell : nat * nat) : gmap wchar wchar :=
  let '(row, tone) := cell in
  let lower := table_at kTonedVowel row tone in
  if lower =w 0 then m
  else
    let upper := ToUpperVietnamese lower in
    <[upper := towupper (nth row rowBase 0)]> (<[lower := nth row rowBase 0]> m).

Definition kModifiedBases : list (wchar * wchar) :=
  [(0xE2, L "a"); (0xC2, L "A"); (0x103, L "a"); (0x102, L "A");
   (0xEA, L "e"); (0xCA, L "E"); (0xF4, L "o"); (0xD4, L "O");
   (0x1A1, L "o"); (0x1A0, L "O"); (0x1B0, L "u"); (0x1AF, L "U");
   (0x111, L "d"); (0x110, L "D")].

Definition GetDiacriticsMap : gmap wchar wchar :=
  let cells := row ← seq 0 12; tone ← seq 0 5; [(row, tone)] in
  foldl (fun m e => <[e.1 := e.2]> m) (foldl DiacriticsCell ∅ cells) kModifiedBases.

#[global] Opaque GetDiacriticsMap.

(** ** Strings *)

Definition DecodeTcvn3 (rev : ReverseMap) (input : wstring) : wstring :=
  (fun u => default u (rev !! to_u32 u)) <$> input.

Fixpoint DecodeCompoundString (rev : ReverseMap) (input : wstring) : wstring :=
  match input with
  | [] => []
  | a :: rest =>
      match rest with
      | b :: rest' =>
          if IsCombiningMark b then
            match rev !! pair_key a b with
            | Some ch => ch :: DecodeCompoundString rev rest'
            | None => a :: DecodeCompoundString rev rest
            end
          else a :: DecodeCompoundString rev rest
      | [] => [a]
      end
  end.

Definition DecodeSingle (maps : ReversePairMap) (u : wchar) : wchar :=
  default u (rp_single maps !! to_u32 u).

Fixpoint DecodePairs (maps : ReversePairMap) (input : wstring) : wstring :=
  match input with
  | [] => []
  | a :: rest =>
      match rest with
      | b :: rest' =>
          match rp_pair maps !! pair_key a b with
          | Some ch => ch :: DecodePairs maps rest'
          | None => DecodeSingle maps a :: DecodePairs maps rest
          end
      | [] => [DecodeSingle maps a]
      end
  end.

Definition DecodeString (rev : ReverseMaps) (input : wstring) (from : Z) : wstring :=
  if from =w CodeTable_u8 Unicode then input
  else if from =w CodeTable_u8 TCVN3 then DecodeTcvn3 (tcvn3_rev rev) input
  else if from =w CodeTable_u8 UnicodeCompound then DecodeCompoundString (compound_rev rev) input
  else DecodePairs (if from =w CodeTable_u8 VNIWindows then vni_rev rev else cp1258_rev rev) input.

Definition encoded_units (enc : EncodedChar) : wstring :=
  ec_unit0 enc :: (if ec_count enc =w 2 then [ec_unit1 enc] else []).

Definition EncodeString (input : wstring) (to : Z) : wstring :=
  if to =w CodeTable_u8 Unicode then input
  else input ≫= (fun ch => encoded_units (ConvertChar ch to)).

Definition RemoveDiacriticsChar (ch : wchar) : wchar := default ch (GetDiacriticsMap !! ch).
Definition RemoveDiacritics (input : wstring) : wstring := RemoveDiacriticsChar <$> input.
Definition ToUpper (input : wstring) : wstring := ToUpperVietnamese <$> input.
Definition ToLower (input : wstring) : wstring := ToLowerVietnamese <$> input.

(** ** Sentence and title case: one pass with the loop's flags *)

Definition isSentenceEnd (ch : wchar) : bool :=
  (ch =w L ".") || (ch =w L "!") || (ch =w L "?") || (ch =w 0x2026).
Definition isHorizontalWhitespace (ch : wchar) : bool :=
  (ch =w 32) || (ch =w 9) || (ch =w 11) || (ch =w 12).
Definition isClosingPunctuation (ch : wchar) : bool :=
  (ch =w 39) || (ch =w 34) || (ch =w L ")") || (ch =w L "]") || (ch =w L "}") ||
  (ch =w 0x2019) || (ch =w 0x201D) || (ch =w 0xBB).

Record SentenceState := mkSentence { capitalizeNext : bool; pendingSentenceEnd : bool }.

Definition SentenceStep (s : SentenceState) (ch : wchar) : SentenceState * wchar :=
  if capitalizeNext s && IsAlpha ch then (mkSentence false false, ToUpperVietnamese ch)
  else
    let s' :=
      if (ch =w 10) || (ch =w 13) then mkSentence true false
      else if pendingSentenceEnd s then
        if isHorizontalWhitespace ch then mkSentence true false
        else if negb (isSentenceEnd ch) && negb (isClosingPunctuation ch)
        then mkSentence (capitalizeNext s) false
        else s
      else if isSentenceEnd ch then mkSentence (capitalizeNext s) true
      else s in
    (s', ch).

Fixpoint SentenceLoop (s : SentenceState) (input : wstring) : wstring :=
  match input with
  | [] => []
  | ch :: rest => let '(s', out) := SentenceStep s ch in out :: SentenceLoop s' rest
  end.

Definition ToSentenceCase (input : wstring) : wstring :=
  SentenceLoop (mkSentence true false) input.

Section TitleCase.
Context {SP : SpacePlatform}.

Fixpoint TitleLoop (afterSpace : bool) (input : wstring) : wstring :=
  match input with
  | [] => []
  | ch :: rest =>
      if afterSpace && IsAlpha ch then ToUpperVietnamese ch :: TitleLoop false rest
      else (if IsAlpha ch then ToLowerVietnamese ch else ch) :: TitleLoop (iswspace ch) rest
  end.

Definition ToTitleCase (input : wstring) : wstring := TitleLoop true input.

End TitleCase.

(** ** Facts on the code tables: round trips, reverse maps, casing *)

(** ** The reverse maps do not depend on the iteration order *)

Section Buckets.
Context (bucket : Z * Z -> option Z).

(** One loop body: the entry goes to its bucket, or nowhere. *)
Definition bucket_step (rev : ReverseMap) (e : Z * Z) : ReverseMap :=
  match bucket e with Some k => prefer_lower rev k e.1 | None => rev end.

(** Two entries of one bucket must differ in case; [tagged] entries carry their
    bucket and case, so that a check over all pairs is cheap. *)
Definition tagged : Type := option Z * bool * (Z * Z).
Definition tag (e : Z * Z) : tagged := (bucket e, IsLowerViet e.1, e).
Definition tags_agree (t1 t2 : tagged) : bool :=
  match t1.1.1, t2.1.1 with
  | Some k1, Some k2 =>
      if k1 =w k2
      then if (t1.2.1 =w t2.2.1) && (t1.2.2 =w t2.2.2) then true else xorb t1.1.2 t2.1.2
      else true
  | _, _ => true
  end.
Definition entries_agree (e1 e2 : Z * Z) : bool := tags_agree (tag e1) (tag e2).

Definition better (w : wchar) (old : option wchar) : option wchar :=
  match old with
  | None => Some w
  | Some o => if IsLowerViet w && negb (IsLowerViet o) then Some w else Some o
  end.

Lemma prefer_lower_alter rev k w : prefer_lower rev k w = partial_alter (better w) k rev.
Proof.
  unfold prefer_lower, better. apply map_eq. intros i.
  destruct (decide (k = i)) as [<-|]; [rewrite lookup_partial_alter_eq|
    rewrite lookup_partial_alter_ne by done];
    destruct (rev !! k) eqn:E; try case_match;
    rewrite ?lookup_insert_eq, ?lookup_insert_ne by done; done.
Qed.

Lemma prefer_lower_swap rev k1 k2 w1 w2 :
  k1 <> k2 \/ xorb (IsLowerViet w1) (IsLowerViet w2) = true ->
  prefer_lower (prefer_lower rev k1 w1) k2 w2 = prefer_lower (prefer_lower rev k2 w2) k1 w1.
Proof.
  rewrite !prefer_lower_alter. destruct (decide (k1 = k2)) as [<-|Hk]; intros Hx.
  - destruct Hx as [?|Hx]; [done|]. rewrite !partial_alter_partial_alter_eq.
    apply partial_alter_ext. intros [o|] _; unfold better; simpl;
      destruct (IsLowerViet w1) eqn:H1, (IsLowerViet w2) eqn:H2; try done;
      destruct (IsLowerViet o) eqn:H3; simpl; rewrite ?H1, ?H2, ?H3; done.
  - by apply partial_alter_partial_alter_ne.
Qed.

Lemma bucket_step_swap rev e1 e2 :
  entries_agree e1 e2 = true ->
  bucket_step (bucket_step rev e1) e2 = bucket_step (bucket_step rev e2) e1.
Proof.
  unfold entries_agree, tags_agree, tag, bucket_step; simpl. intros H.
  destruct (bucket e1) as [k1|] eqn:B1, (bucket e2) as [k2|] eqn:B2; try done.
  destruct (Z.eqb_spec k1 k2) as [<-|]; [|apply prefer_lower_swap; by left].
  destruct ((e1.1 =w e2.1) && (e1.2 =w e2.2)) eqn:E.
  - bool_hyps. assert (e1 = e2) as <- by (destruct e1, e2; simpl in *; congruence).
    done.
  - apply prefer_lower_swap. by right.
Qed.

Lemma bucket_fold_perm l1 l2 rev :
  l1 ≡ₚ l2 ->
  (forall a b, a ∈ l1 -> b ∈ l1 -> entries_agree a b = true) ->
  foldl bucket_step rev l1 = foldl bucket_step rev l2.
Proof.
  intros Hp. revert rev. induction Hp as [|x l l' Hp IH|x y l|l l' l'' H1 IH1 H2 IH2];
    intros rev Hag; simpl.
  - done.
  - apply IH. intros a b Ha Hb. apply Hag; by right.
  - rewrite bucket_step_swap; [done|]. apply Hag; set_solver.
  - rewrite IH1 by done. apply IH2. intros a b Ha Hb.
    apply Hag; rewrite H1; done.
Qed.

Definition table_agrees (l : list (Z * Z)) : bool :=
  let tags := tag <$> l in forallb (fun a => forallb (tags_agree a) tags) tags.

Lemma table_agrees_spec l :
  table_agrees l = true -> forall a b, a ∈ l -> b ∈ l -> entries_agree a b = true.
Proof.
  unfold table_agrees, entries_agree. intros H a b Ha Hb.
  pose proof (forallb_elem _ _ (tag a) H) as H1. cbv beta in H1.
  apply (forallb_elem _ _ (tag b) (H1 (list_elem_of_fmap_2 tag _ _ Ha))).
  by apply list_elem_of_fmap_2.
Qed.

End Buckets.

Definition tcvn3_bucket (e : Z * Z) : option Z := Some e.2.
Definition single_bucket (e : Z * Z) : option Z := if e.2 <=? 0xFF then Some e.2 else None.
Definition pair_bucket (e : Z * Z) : option Z :=
  if e.2 <=? 0xFF then None
  else Some (pair_key (Z.land e.2 0xFF) (Z.land (Z.shiftr e.2 8) 0xFF)).
Definition compound_bucket (e : Z * Z) : option Z :=
  let d := DecodeCompound e.2 in
  if ec_count d =w 2 then Some (pair_key (ec_unit0 d) (ec_unit1 d)) else None.

Lemma BuildReversePairMap_buckets order :
  BuildReversePairMap order =
  mkReversePair (foldl (bucket_step single_bucket) ∅ order)
                (foldl (bucket_step pair_bucket) ∅ order).
Proof.
  unfold BuildReversePairMap. generalize (∅ : ReverseMap) at 1 3 as s.
  generalize (∅ : ReverseMap) as p.
  induction order as [|[w v] l IH]; intros p s; simpl; [done|].
  rewrite <- IH. unfold bucket_step, single_bucket, pair_bucket; simpl.
  by destruct (v <=? 255).
Qed.

Lemma GetCompoundReverse_buckets order :
  GetCompoundReverse order = foldl (bucket_step compound_bucket) ∅ order.
Proof.
  unfold GetCompoundReverse. generalize (∅ : ReverseMap) as s.
  induction order as [|[w v] l IH]; intros s; simpl; [done|].
  rewrite <- IH. unfold bucket_step, compound_bucket; simpl. by repeat case_match.
Qed.

Lemma kTcvn3Map_agrees : table_agrees tcvn3_bucket kTcvn3Map = true.
Proof. vm_compute. reflexivity. Qed.
Lemma kVniMap_agrees :
  table_agrees single_bucket kVniMap && table_agrees pair_bucket kVniMap = true.
Proof. vm_compute. reflexivity. Qed.
Lemma kCp1258Map_agrees :
  table_agrees single_bucket kCp1258Map && table_agrees pair_bucket kCp1258Map = true.
Proof. vm_compute. reflexivity. Qed.
Lemma kUnicodeCompoundMap_agrees : table_agrees compound_bucket kUnicodeCompoundMap = true.
Proof. vm_compute. reflexivity. Qed.

(** The entries of a hash map built from a list with distinct keys. *)
Lemma map_order (l order : list (Z * Z)) :
  NoDup l.*1 -> order ≡ₚ map_to_list (list_to_map l : CodeMap) -> order ≡ₚ l.
Proof. intros Hn ->. by apply map_to_list_to_map. Qed.

Lemma kTcvn3Map_keys : NoDup kTcvn3Map.*1.
Proof. apply (bool_decide_unpack _). vm_compute. exact I. Qed.

Lemma same_keys :
  kVniMap.*1 = kTcvn3Map.*1 /\ kUnicodeCompoundMap.*1 = kTcvn3Map.*1 /\
  kCp1258Map.*1 = kTcvn3Map.*1.
Proof. repeat split; vm_compute; reflexivity. Qed.

Lemma reverse_pair_order (l order : list (Z * Z)) :
  order ≡ₚ l -> table_agrees single_bucket l && table_agrees pair_bucket l = true ->
  BuildReversePairMap order = BuildReversePairMap l.
Proof.
  intros Hp [Hs Hq]%andb_true_iff. rewrite !BuildReversePairMap_buckets.
  f_equal; symmetry; apply bucket_fold_perm; try by symmetry.
  all: by apply table_agrees_spec.
Qed.

(** The four reverse maps are the same for every iteration order of the
    hash maps they are built from, so decoding does not depend on the standard
    library's hashing: where a legacy byte stands for two letters, the
    lowercase one always wins. *)
Theorem reverse_maps_any_order o1 o2 o3 o4 :
  o1 ≡ₚ map_to_list GetTcvn3Map -> o2 ≡ₚ map_to_list GetUnicodeCompoundMap ->
  o3 ≡ₚ map_to_list GetVniMap -> o4 ≡ₚ map_to_list GetCp1258Map ->
  reverse_maps o1 o2 o3 o4 = standard_reverse.
Proof.
  pose proof kTcvn3Map_keys as N1. destruct same_keys as (E2 & E3 & E4).
  destruct code_maps as (-> & -> & -> & ->).
  intros H1%map_order H2%map_order H3%map_order H4%map_order; rewrite ?E2, ?E3, ?E4; try done.
  rewrite standard_reverse_maps. unfold reverse_maps. f_equal.
  - symmetry. apply (bucket_fold_perm tcvn3_bucket); [by symmetry|].
    apply table_agrees_spec, kTcvn3Map_agrees.
  - rewrite !GetCompoundReverse_buckets. symmetry.
    apply bucket_fold_perm; [by symmetry|].
    apply table_agrees_spec, kUnicodeCompoundMap_agrees.
  - apply reverse_pair_order; [done|]. apply kVniMap_agrees.
  - apply reverse_pair_order; [done|]. apply kCp1258Map_agrees.
Qed.

Lemma reverse_maps_any_order_witness :
  reverse_maps (map_to_list GetTcvn3Map) (map_to_list GetUnicodeCompoundMap)
    (map_to_list GetVniMap) (map_to_list GetCp1258Map) = standard_reverse.
Proof. apply reverse_maps_any_order; reflexivity. Defined.

(** ** The output of the encoder *)

(** Every entry of a table splits into one or two 16-bit units. *)
Definition well_encoded (enc : EncodedChar) : bool :=
  ((ec_count enc =w 1) || (ec_count enc =w 2)) &&
  (0 <=? ec_unit0 enc) && (ec_unit0 enc <? 0x10000) &&
  (0 <=? ec_unit1 enc) && (ec_unit1 enc <? 0x10000) &&
  ((ec_count enc =w 2) || (ec_unit1 enc =w 0)).

Lemma default_fmap_case {A} (P : A -> Prop) (f : Z -> A) (d : A) (l : list (Z * Z)) (key : Z) :
  P d -> Forall (fun e => P (f e.2)) l ->
  P (default d (f <$> (list_to_map l : gmap Z Z) !! key)).
Proof.
  intros Hd Hl. destruct (_ !! key) as [v|] eqn:E; simpl; [|done].
  apply elem_of_list_to_map_2 in E.
  rewrite Forall_forall in Hl. apply (Hl _ E).
Qed.

(** What holds of a character left alone and of every entry of the four tables
    holds of every conversion. *)
Definition every_entry (p : EncodedChar -> bool) : bool :=
  forallb (fun e => p (mkEncoded e.2 0 1)) kTcvn3Map && forallb (fun e => p (DecodeLoHi e.2)) kVniMap &&
  forallb (fun e => p (DecodeCompound e.2)) kUnicodeCompoundMap &&
  forallb (fun e => p (DecodeLoHi e.2)) kCp1258Map.

Lemma ConvertChar_case (p : EncodedChar -> bool) ch table :
  p (mkEncoded ch 0 1) = true -> every_entry p = true -> p (ConvertChar ch table) = true.
Proof.
  intros Hid Ht. unfold every_entry in Ht. rewrite !andb_true_iff in Ht.
  destruct Ht as [[[H1 H2] H3] H4].
  unfold ConvertChar. destruct code_maps as (-> & -> & -> & ->). case_match; [done|].
  repeat case_match; [..|done];
    refine (default_fmap_case (fun e => p e = true) _ _ _ _ Hid _);
    by apply (forallb_Forall_true (fun e : Z * Z => p _)).
Qed.

(** A character is encoded as the units its count says. *)
Lemma encoded_units_count ch table :
  length (encoded_units (ConvertChar ch table)) = Z.to_nat (ec_count (ConvertChar ch table)).
Proof.
  apply Nat.eqb_eq.
  apply (ConvertChar_case (fun e => (length (encoded_units e) =? Z.to_nat (ec_count e))%nat));
    [done|vm_compute; reflexivity].
Qed.

(** Whatever the code table (an unknown byte included), a 16-bit character
    is converted to one or two 16-bit units, the second being zero exactly when
    it is not used. *)
Theorem ConvertChar_well_encoded ch table :
  0 <= ch < 0x10000 -> well_encoded (ConvertChar ch table) = true.
Proof.
  intros Hch. apply ConvertChar_case; [|vm_compute; reflexivity].
  unfold well_encoded; simpl. rewrite !andb_true_iff. repeat split; lia.
Qed.

Lemma ConvertChar_well_encoded_witness :
  well_encoded (ConvertChar 0x1EBF 2) = true /\ ConvertChar 0x1EBF 2 = mkEncoded 0x65 0xE1 2.
Proof. split; [apply ConvertChar_well_encoded; lia|vm_compute; reflexivity]. Defined.

(** ** Round trips on Vietnamese and ASCII text *)

(** The letters of the tables and the ASCII characters. *)
Definition alphabet : list wchar := (Z.of_nat <$> seq 0 128) ++ kTcvn3Map.*1.
Definition convertible (s : wstring) : Prop := Forall (fun c => c ∈ alphabet) s.

Definition encode_char (t : Z) (ch : wchar) : wstring := encoded_units (ConvertChar ch t).

Lemma EncodeString_bind t s : t <> CodeTable_u8 Unicode -> EncodeString s t = s ≫= encode_char t.
Proof. intros H. unfold EncodeString. by destruct (Z.eqb_spec t (CodeTable_u8 Unicode)). Qed.

Definition first_units (t : Z) : list wchar :=
  remove_dups ((fun c => ec_unit0 (ConvertChar c t)) <$> alphabet).

(** A decoder that reads one letter back whatever letter follows reads a text back. *)
Section PrefixDecoder.
Context (t : Z) (D : wstring -> wstring).

Definition reads_back (a : wchar) : Prop :=
  forall rest, (forall u, head rest = Some u -> u ∈ first_units t) ->
  D (encode_char t a ++ rest) = a :: D rest.

Lemma prefix_decoder s :
  D [] = [] -> (forall a, a ∈ alphabet -> reads_back a) -> convertible s ->
  D (s ≫= encode_char t) = s.
Proof.
  intros Hnil Hone. induction s as [|c s IH]; intros Hs; [done|].
  inversion Hs as [|? ? Hc Hs']; subst.
  rewrite bind_cons, Hone; [by rewrite IH|done|].
  intros u Hu. destruct s as [|d s]; simpl in Hu; [done|].
  inversion Hs'; subst. unfold encode_char, encoded_units in Hu; simpl in Hu.
  simplify_eq. unfold first_units. apply elem_of_remove_dups, list_elem_of_fmap.
  exists d; done.
Qed.

End PrefixDecoder.

(** One letter of a pair encoding is read back, by cases on its one or two units. *)
Definition pairs_check (t : Z) (firsts : list wchar) (maps : ReversePairMap) (a : wchar) : bool :=
  match encode_char t a with
  | [u] => (DecodeSingle maps u =w a)
           && forallb (fun b => rp_pair maps !! pair_key u b == None) firsts
  | [u; v] => rp_pair maps !! pair_key u v == Some a
  | _ => false
  end.

Lemma pairs_check_sound t maps a :
  pairs_check t (first_units t) maps a = true -> reads_back t (DecodePairs maps) a.
Proof.
  unfold pairs_check, reads_back. intros H rest Hrest.
  destruct (encode_char t a) as [|u [|v [|]]]; try done.
  - apply andb_true_iff in H as [H1%Z.eqb_eq H2].
    destruct rest as [|b rest]; simpl; [by rewrite H1|].
    specialize (forallb_elem _ _ b H2 (Hrest b eq_refl)) as Hb.
    apply bool_decide_eq_true in Hb. by rewrite Hb, H1.
  - apply bool_decide_eq_true in H. simpl. by rewrite H.
Qed.

Definition compound_check (firsts : list wchar) (rev : ReverseMap) (a : wchar) : bool :=
  match encode_char 3 a with
  | [u] => (u =w a) && forallb (fun b => negb (IsCombiningMark b)) firsts
  | [u; v] => IsCombiningMark v && (rev !! pair_key u v == Some a)
  | _ => false
  end.

Lemma compound_check_sound rev a :
  compound_check (first_units 3) rev a = true -> reads_back 3 (DecodeCompoundString rev) a.
Proof.
  unfold compound_check, reads_back. intros H rest Hrest.
  destruct (encode_char 3 a) as [|u [|v [|]]]; try done.
  - apply andb_true_iff in H as [->%Z.eqb_eq H2].
    destruct rest as [|b rest]; simpl; [done|].
    specialize (forallb_elem _ _ b H2 (Hrest b eq_refl)) as Hb.
    apply negb_true_iff in Hb. by rewrite Hb.
  - apply andb_true_iff in H as [H1 H2%bool_decide_eq_true]. simpl. by rewrite H1, H2.
Qed.

Definition vni_check (a : wchar) : bool :=
  pairs_check 2 (first_units 2) (vni_rev standard_reverse) a.
Definition cp1258_check (a : wchar) : bool :=
  pairs_check 4 (first_units 4) (cp1258_rev standard_reverse) a.
Definition compound_unit_check (a : wchar) : bool :=
  compound_check (first_units 3) (compound_rev standard_reverse) a.

Lemma reads_vni : forallb vni_check alphabet = true.
Proof.
  change (forallb vni_check alphabet) with
    (let f := first_units 2 in let m := vni_rev standard_reverse in
     forallb (pairs_check 2 f m) alphabet).
  vm_compute. reflexivity.
Qed.
Lemma reads_cp1258 : forallb cp1258_check alphabet = true.
Proof.
  change (forallb cp1258_check alphabet) with
    (let f := first_units 4 in let m := cp1258_rev standard_reverse in
     forallb (pairs_check 4 f m) alphabet).
  vm_compute. reflexivity.
Qed.
Lemma reads_compound : forallb compound_unit_check alphabet = true.
Proof.
  change (forallb compound_unit_check alphabet) with
    (let f := first_units 3 in let m := compound_rev standard_reverse in
     forallb (compound_check f m) alphabet).
  vm_compute. reflexivity.
Qed.

(** C19. Text of Vietnamese letters and ASCII characters survives encoding and
    decoding in every table but TCVN3, letter by letter and case included: the
    codes of two neighbouring letters are never read as one letter. *)
Theorem DecodeString_EncodeString t s :
  t ∈ [Unicode; VNIWindows; UnicodeCompound; VietnameseLocale] -> convertible s ->
  DecodeString standard_reverse (EncodeString s (CodeTable_u8 t)) (CodeTable_u8 t) = s.
Proof.
  intros Ht Hs. rewrite !elem_of_cons, elem_of_nil in Ht.
  destruct Ht as [->|[->|[->|[->|[]]]]]; [reflexivity|..].
  all: rewrite EncodeString_bind by done.
  - apply (prefix_decoder 2 (DecodePairs (vni_rev standard_reverse))); [done| |done].
    intros a Ha. apply pairs_check_sound. apply (forallb_elem vni_check _ a reads_vni Ha).
  - apply (prefix_decoder 3 (DecodeCompoundString (compound_rev standard_reverse)));
      [done| |done].
    intros a Ha. apply compound_check_sound.
    apply (forallb_elem compound_unit_check _ a reads_compound Ha).
  - apply (prefix_decoder 4 (DecodePairs (cp1258_rev standard_reverse))); [done| |done].
    intros a Ha. apply pairs_check_sound.
    apply (forallb_elem cp1258_check _ a reads_cp1258 Ha).
Qed.

Lemma DecodeString_EncodeString_witness :
  let s := [L "V"; L "i"; 0x1EC7; L "t"; 32; 0x1EA4; 0x1B0] in
  EncodeString s 2 = [L "V"; L "i"; L "e"; 0xE4; L "t"; 32; L "A"; 0xC1; 0xF6] /\
  DecodeString standard_reverse (EncodeString s 2) 2 = s.
Proof.
  split; [vm_compute; reflexivity|].
  apply (DecodeString_EncodeString VNIWindows); [right; left|].
  apply (bool_decide_unpack _). vm_compute. exact I.
Defined.

(** What TCVN3 keeps of a letter: the case of the letters it has two bytes for. *)
Definition tcvn3_char (c : wchar) : wchar :=
  default (ec_unit0 (ConvertChar c 1)) (tcvn3_rev standard_reverse !! to_u32 (ec_unit0 (ConvertChar c 1))).

Lemma encode_char_tcvn3 c : encode_char 1 c = [ec_unit0 (ConvertChar c 1)].
Proof.
  change (ConvertChar c 1) with
    (default (mkEncoded c 0 1) ((fun v => mkEncoded v 0 1) <$> GetTcvn3Map !! to_u32 c)).
  unfold encode_char.
  change (ConvertChar c 1) with
    (default (mkEncoded c 0 1) ((fun v => mkEncoded v 0 1) <$> GetTcvn3Map !! to_u32 c)).
  by destruct (GetTcvn3Map !! to_u32 c).
Qed.

Lemma DecodeString_tcvn3 s :
  DecodeString standard_reverse (EncodeString s 1) 1 = tcvn3_char <$> s.
Proof.
  rewrite EncodeString_bind by done.
  change (DecodeTcvn3 (tcvn3_rev standard_reverse) (s ≫= encode_char 1) = tcvn3_char <$> s).
  unfold DecodeTcvn3. induction s as [|c s IH]; [done|].
  rewrite bind_cons, fmap_app, IH, encode_char_tcvn3. reflexivity.
Qed.

Definition tcvn3_check (c : wchar) : bool :=
  (ToUpperVietnamese (tcvn3_char c) =w ToUpperVietnamese c)
  && ((c =w ToUpperVietnamese c) || (tcvn3_char c =w c)).

Lemma tcvn3_checked : forallb tcvn3_check alphabet = true.
Proof. vm_compute. reflexivity. Qed.

Lemma alphabet_tcvn3 c :
  c ∈ alphabet -> ToUpperVietnamese (tcvn3_char c) = ToUpperVietnamese c /\
  (ToUpperVietnamese c <> c -> tcvn3_char c = c).
Proof.
  intros Hc. pose proof (forallb_elem tcvn3_check _ c tcvn3_checked Hc) as H.
  unfold tcvn3_check in H. rewrite andb_true_iff, orb_true_iff, !Z.eqb_eq in H.
  destruct H as [H1 H2]. split; [done|]. intros Hl. destruct H2 as [H2|H2]; congruence.
Qed.

#[local] Opaque tcvn3_char.

(** TCVN3 gives one byte to the two cases of a toned letter: a text
    encoded and decoded again is the same text up to case, and exactly the
    same text when it holds no letter that is already a capital. *)
Theorem DecodeString_EncodeString_tcvn3 s :
  convertible s ->
  let back := DecodeString standard_reverse (EncodeString s 1) 1 in
  ToUpper back = ToUpper s /\
  (Forall (fun c => ToUpperVietnamese c <> c \/ tcvn3_char c = c) s -> back = s).
Proof.
  unfold convertible. intros Hs. cbv zeta. rewrite DecodeString_tcvn3. unfold ToUpper. split.
  - rewrite <- list_fmap_compose. apply list_fmap_ext. intros i c Hi.
    rewrite Forall_lookup in Hs. destruct (alphabet_tcvn3 c (Hs i c Hi)) as [E _]. exact E.
  - intros Hl. rewrite <- (list_fmap_id s) at 2. apply list_fmap_ext. intros i c Hi.
    rewrite Forall_lookup in Hs, Hl. destruct (alphabet_tcvn3 c (Hs i c Hi)).
    destruct (Hl i c Hi); auto.
Qed.

Lemma DecodeString_EncodeString_tcvn3_witness :
  let s := [0xC1; 0xE1] in
  EncodeString s 1 = [0xB8; 0xB8] /\
  DecodeString standard_reverse (EncodeString s 1) 1 = [0xE1; 0xE1] /\
  ToUpper (DecodeString standard_reverse (EncodeString s 1) 1) = ToUpper s.
Proof.
  split; [vm_compute; reflexivity|split; [vm_compute; reflexivity|]].
  apply DecodeString_EncodeString_tcvn3. apply (bool_decide_unpack _). vm_compute. exact I.
Defined.

(** The encoder never shrinks a text and at most doubles it. *)
Lemma EncodeString_length s t :
  (length s <= length (EncodeString s t) <= 2 * length s)%nat.
Proof.
  unfold EncodeString. case_match; [lia|].
  induction s as [|c s IH]; [simpl; lia|]. rewrite bind_cons, length_app.
  unfold encoded_units at 1 3. case_match; simpl in *; lia.
Qed.

(** ** The Unicode Compound table loses the bases above U+00FF *)

Definition compound_base_check (c : wchar) : bool :=
  negb (IsLowerViet c) || (ec_count (ConvertChar c 3) <>w 2) ||
  Bool.eqb (ec_unit0 (ConvertChar c 3) =w StripTone c) (StripTone c <? 0x100).

Lemma compound_base_checked : forallb compound_base_check kTcvn3Map.*1 = true.
Proof. vm_compute. reflexivity. Qed.

(** A toned lowercase letter becomes its untoned letter and a combining mark
    only when the untoned letter is below U+0100; for a breve or a horn the
    first unit is the low byte of the letter, a control character. *)
Lemma compound_base c :
  c ∈ kTcvn3Map.*1 -> IsLowerViet c = true -> ec_count (ConvertChar c 3) = 2 ->
  ec_unit0 (ConvertChar c 3) = StripTone c <-> StripTone c < 0x100.
Proof.
  intros Hc Hl Hn. pose proof (forallb_elem compound_base_check _ c compound_base_checked Hc) as H.
  unfold compound_base_check in H. rewrite Hl, Hn in H. simpl in H.
  apply eqb_prop in H. rewrite <- Z.eqb_eq, H. lia.
Qed.

(** The letter a with breve and acute becomes U+0003 and a combining acute. *)
Lemma compound_breve_lost :
  ConvertChar 0x1EAF 3 = mkEncoded 0x03 0x301 2 /\
  ConvertChar 0x1EDB 3 = mkEncoded 0xA1 0x301 2 /\
  ConvertChar 0x1EA5 3 = mkEncoded 0xE2 0x301 2.
Proof. repeat split; vm_compute; reflexivity. Qed.

(** ** Diacritics *)

Lemma list_fmap_idem (f : wchar -> wchar) (s : wstring) :
  (forall c, f (f c) = f c) -> f <$> (f <$> s) = f <$> s.
Proof. intros H. rewrite <- list_fmap_compose. apply list_fmap_ext. intros; apply H. Qed.

Definition diacritics_check (e : wchar * wchar) : bool :=
  (RemoveDiacriticsChar e.2 =w e.2) && (e.2 <? 128) && (0 <? e.2)
  && (RemoveDiacriticsChar (ToUpperVietnamese e.1) =w ToUpperVietnamese e.2).

Lemma diacritics_checked : forallb diacritics_check (map_to_list GetDiacriticsMap) = true.
Proof. vm_compute. reflexivity. Qed.

Lemma diacritics_entry c b :
  GetDiacriticsMap !! c = Some b ->
  RemoveDiacriticsChar b = b /\ 0 < b < 128 /\
  RemoveDiacriticsChar (ToUpperVietnamese c) = ToUpperVietnamese b.
Proof.
  intros H%elem_of_map_to_list.
  pose proof (forallb_elem diacritics_check _ _ diacritics_checked H) as Hc.
  unfold diacritics_check in Hc; simpl in Hc.
  rewrite !andb_true_iff, !Z.eqb_eq in Hc. destruct Hc as [[[? ?] ?] ?]. repeat split; lia || done.
Qed.

Definition ascii_check (c : wchar) : bool :=
  (0 <=? RemoveDiacriticsChar c) && (RemoveDiacriticsChar c <? 128).
Lemma ascii_checked : forallb ascii_check alphabet = true.
Proof. vm_compute. reflexivity. Qed.

Lemma alphabet_ascii c : c ∈ alphabet -> 0 <= RemoveDiacriticsChar c < 128.
Proof.
  intros Hc. pose proof (forallb_elem ascii_check _ c ascii_checked Hc) as H.
  unfold ascii_check in H. lia.
Qed.

(** Removing the diacritics maps every Vietnamese letter, capital or not,
    to an ASCII letter and every other character to itself, keeps the length,
    and a second run changes nothing. *)
Theorem RemoveDiacritics_spec s :
  RemoveDiacritics (RemoveDiacritics s) = RemoveDiacritics s /\
  length (RemoveDiacritics s) = length s /\
  (convertible s -> Forall (fun c => 0 <= c < 128) (RemoveDiacritics s)) /\
  (Forall (fun c => GetDiacriticsMap !! c = None) s -> RemoveDiacritics s = s).
Proof.
  unfold RemoveDiacritics. repeat split.
  - apply list_fmap_idem. intros c. unfold RemoveDiacriticsChar at 2 3.
    destruct (GetDiacriticsMap !! c) as [b|] eqn:E; simpl.
    + by apply (diacritics_entry c).
    + unfold RemoveDiacriticsChar. by rewrite E.
  - apply length_fmap.
  - intros Hs. apply Forall_fmap. eapply Forall_impl; [exact Hs|].
    intros c Hc; simpl. apply alphabet_ascii, Hc.
  - intros Hs. rewrite <- (list_fmap_id s) at 2. apply list_fmap_ext. intros i c Hi.
    rewrite Forall_lookup in Hs. unfold RemoveDiacriticsChar. by rewrite (Hs i c Hi).
Qed.

(** ** Sentence and title case against backward-looking definitions *)

Definition is_newline (c : wchar) : bool := (c =w 10) || (c =w 13).

(** [before] is the text before a position, nearest character first: does it end
    with a sentence mark, closing punctuation allowed after it? *)
Fixpoint after_mark (before : wstring) : bool :=
  match before with
  | [] => false
  | c :: rest => isSentenceEnd c || (isClosingPunctuation c && after_mark rest)
  end.

(** Is the next letter the first one of a sentence: back to the start of the
    text, a line break or a marked blank there is no other letter. *)
Fixpoint sentence_start (before : wstring) : bool :=
  match before with
  | [] => true
  | c :: rest =>
      is_newline c || (isHorizontalWhitespace c && after_mark rest)
      || (negb (IsAlpha c) && sentence_start rest)
  end.

Definition sentence_char (before : wstring) (c : wchar) : wchar :=
  if IsAlpha c && sentence_start before then ToUpperVietnamese c else c.

Lemma alpha_class c :
  IsAlpha c = true -> is_newline c = false /\ isHorizontalWhitespace c = false /\
  isSentenceEnd c = false /\ isClosingPunctuation c = false.
Proof.
  intros H. assert (Hc : 65 <= c <= 90 \/ 97 <= c <= 122 \/ 0xC0 <= c <= 0x24F \/
                         0x1EA0 <= c <= 0x1EF9).
  { unfold IsAlpha in H. repeat case_match; bool_hyps; lia. }
  unfold is_newline, isHorizontalWhitespace, isSentenceEnd, isClosingPunctuation.
  repeat split; repeat (apply orb_false_iff; split); lia.
Qed.

Lemma newline_class c :
  is_newline c = true -> isHorizontalWhitespace c = false /\
  isSentenceEnd c = false /\ isClosingPunctuation c = false.
Proof.
  unfold is_newline. intros [H|H]%orb_true_iff; apply Z.eqb_eq in H as ->; done.
Qed.

Lemma blank_class c :
  isHorizontalWhitespace c = true ->
  isSentenceEnd c = false /\ isClosingPunctuation c = false.
Proof.
  unfold isHorizontalWhitespace.
  intros [[[H|H]%orb_true_iff|H]%orb_true_iff|H]%orb_true_iff; apply Z.eqb_eq in H as ->; done.
Qed.

(** One turn of the loop keeps both flags equal to what the text before says. *)
Lemma SentenceStep_spec before c :
  SentenceStep (mkSentence (sentence_start before) (after_mark before)) c =
  (mkSentence (sentence_start (c :: before)) (after_mark (c :: before)),
   sentence_char before c).
Proof.
  unfold SentenceStep, sentence_char. cbn [capitalizeNext pendingSentenceEnd].
  fold (is_newline c). simpl sentence_start. simpl after_mark.
  destruct (IsAlpha c) eqn:Ha.
  - destruct (alpha_class c Ha) as (-> & -> & -> & ->).
    destruct (sentence_start before), (after_mark before); reflexivity.
  - rewrite andb_false_r.
    destruct (is_newline c) eqn:Hn.
    { destruct (newline_class c Hn) as (-> & -> & ->). reflexivity. }
    destruct (isHorizontalWhitespace c) eqn:Hb.
    { destruct (blank_class c Hb) as (-> & ->).
      by destruct (sentence_start before), (after_mark before). }
    by destruct (sentence_start before), (after_mark before), (isSentenceEnd c),
      (isClosingPunctuation c).
Qed.

#[local] Arguments sentence_start : simpl never.
#[local] Arguments after_mark : simpl never.

Lemma SentenceLoop_spec s : forall before i,
  SentenceLoop (mkSentence (sentence_start before) (after_mark before)) s !! i =
  sentence_char (reverse (take i s) ++ before) <$> s !! i.
Proof.
  induction s as [|c s IH]; intros before i; [done|].
  cbn [SentenceLoop]. rewrite SentenceStep_spec. destruct i as [|i]; [done|].
  simpl. rewrite IH, reverse_cons, <- (assoc_L (++)). done.
Qed.

(** Sentence casing changes exactly the first letter of every sentence,
    where the beginning of a sentence is read backwards from the letter: the
    start of the text, a line break, or a blank after a sentence mark (closing
    punctuation in between allowed), with no letter since. *)
Theorem ToSentenceCase_spec s i :
  ToSentenceCase s !! i = sentence_char (reverse (take i s)) <$> s !! i.
Proof.
  unfold ToSentenceCase. change (mkSentence true false) with
    (mkSentence (sentence_start []) (after_mark [])).
  rewrite SentenceLoop_spec. by rewrite app_nil_r.
Qed.

(** A dot inside a name starts no sentence, a closing quote does not end one. *)
Lemma ToSentenceCase_example :
  ToSentenceCase [L "v"; L "."; L "n"; L "."; 34; 32; L "a"; 10; L "b"] =
  [L "V"; L "."; L "n"; L "."; 34; 32; L "A"; 10; L "B"].
Proof. reflexivity. Qed.

(** Title casing capitalises a letter exactly when it opens the text or
    follows a space, puts every other letter in lower case, and leaves the
    rest alone. *)
Theorem ToTitleCase_spec (SP : SpacePlatform) s i :
  (forall c, IsAlpha c = true -> iswspace c = false) ->
  ToTitleCase s !! i =
  (fun c => if IsAlpha c then
              if from_option iswspace true (last (take i s))
              then ToUpperVietnamese c else ToLowerVietnamese c
            else c) <$> s !! i.
Proof.
  intros Hsp. unfold ToTitleCase.
  assert (Hg : forall b i, TitleLoop b s !! i =
    (fun c => if IsAlpha c then
                if from_option iswspace b (last (take i s))
                then ToUpperVietnamese c else ToLowerVietnamese c
              else c) <$> s !! i); [|apply Hg].
  clear i. induction s as [|c s IH]; intros b i; [done|]. cbn [TitleLoop].
  assert (Hs : forall t, from_option iswspace b (last (c :: t)) =
                         from_option iswspace (iswspace c) (last t)).
  { intros t. rewrite last_cons. by destruct (last t). }
  destruct (IsAlpha c) eqn:Ha; [destruct b|rewrite andb_false_r];
    (destruct i as [|i]; [by simpl; rewrite ?Ha|]); simpl; rewrite IH, Hs, ?(Hsp c Ha); done.
Qed.

Lemma ToTitleCase_spec_witness :
  let SP := posix_spaces in
  ToTitleCase [L "v"; 0x1EC6; 32; L "("; L "a"] !! 1%nat = Some 0x1EC7.
Proof.
  intros SP. etransitivity; [apply (ToTitleCase_spec SP)|vm_compute; reflexivity].
  intros c H. unfold IsAlpha in H. unfold iswspace, SP; simpl.
  repeat case_match; bool_hyps; try done; lia.
Defined.
