(* ===== verification/QuickConvert.v ===== *)
(** * Quick convert (src/src/core/QuickConvertLogic.cpp, QuickConvertLogic.h)

    The transformations behind the quick-convert hotkey, its settings
    ([ConvertConfig] of src/src/core/config/TypingConfig.h), and the order in
    which the conversion dialogs apply the same transformations, which differs
    when the settings also change the encoding. *)

From S2P Require Import Prelude Action Config Tables CodeTable.
Open Scope Z_scope.

Record ConvertConfig := mkConvert {
  allCaps : bool; allLower : bool; capsFirst : bool; capsEach : bool;
  removeMark : bool; alertDone : bool; autoPaste : bool; sequential : bool;
  enableLog : bool; sourceEncoding : Z; destEncoding : Z; cc_hotkey : HotkeyConfig
}.

Definition default_convert : ConvertConfig :=
  mkConvert false false false false false false false false false 0 0
    (mkHotkey false false false false 0).

Inductive QuickConvertBackend := HookClipboard | TsfNative.
Inductive QuickConvertOption :=
  QcEncoding | QcUpper | QcLower | QcSentenceCase | QcTitleCase | QcRemoveDiacritics.

#[export] Instance QuickConvertOption_eq_dec : EqDecision QuickConvertOption.
Proof. solve_decision. Defined.

Definition DecideQuickConvertBackend (isTsfApp tsfNativeReady : bool) : QuickConvertBackend :=
  if isTsfApp && tsfNativeReady then TsfNative else HookClipboard.

Section QuickConvert.
Context {SP : SpacePlatform}.

Definition ApplyQuickConvertOption (input : wstring) (option : QuickConvertOption)
  (config : ConvertConfig) : wstring :=
  match option with
  | QcEncoding =>
      EncodeString (DecodeString standard_reverse input (sourceEncoding config))
        (destEncoding config)
  | QcUpper => ToUpper input
  | QcLower => ToLower input
  | QcSentenceCase => ToSentenceCase input
  | QcTitleCase => ToTitleCase input
  | QcRemoveDiacritics => RemoveDiacritics input
  end.

Definition ApplyQuickConvertConfig (input : wstring) (config : ConvertConfig) : wstring :=
  let result := input in
  let result := if sourceEncoding config <>w destEncoding config
                then ApplyQuickConvertOption result QcEncoding config else result in
  let result := if removeMark config
                then ApplyQuickConvertOption result QcRemoveDiacritics config else result in
  if allCaps config then ApplyQuickConvertOption result QcUpper config
  else if allLower config then ApplyQuickConvertOption result QcLower config
  else if capsFirst config then ApplyQuickConvertOption result QcSentenceCase config
  else if capsEach config then ApplyQuickConvertOption result QcTitleCase config
  else result.

Definition GetEnabledQuickConvertOptions (config : ConvertConfig) : list QuickConvertOption :=
  (if sourceEncoding config <>w destEncoding config then [QcEncoding] else []) ++
  (if allCaps config then [QcUpper] else []) ++
  (if allLower config then [QcLower] else []) ++
  (if capsFirst config then [QcSentenceCase] else []) ++
  (if capsEach config then [QcTitleCase] else []) ++
  (if removeMark config then [QcRemoveDiacritics] else []).

(** The labels shown when cycling. *)
Definition GetQuickConvertOptionName (option : QuickConvertOption) : wstring :=
  match option with
  | QcEncoding => [0x2192; 32; L "C"; L "h"; L "u"; L "y"; 0x1EC3; L "n"; 32; L "m"; 0xE3]
  | QcUpper => [0x2192; 32; L "c"; L "h"; 0x1EEF; 32; L "H"; L "O"; L "A"]
  | QcLower => [0x2192; 32; L "c"; L "h"; 0x1EEF; 32; L "t"; L "h"; 0x1B0; 0x1EDD; L "n"; L "g"]
  | QcSentenceCase =>
      [0x2192; 32; L "H"; L "o"; L "a"; 32; 0x111; 0x1EA7; L "u"; 32; L "c"; 0xE2; L "u"]
  | QcTitleCase =>
      [0x2192; 32; L "H"; L "o"; L "a"; 32; L "T"; 0x1EEB; L "n"; L "g"; 32; L "C"; L "h"; 0x1EEF]
  | QcRemoveDiacritics => [0x2192; 32; L "B"; 0x1ECF; 32; L "d"; 0x1EA5; L "u"]
  end.

(** The conversion dialogs decode first, transform the Unicode text, and encode
    last (src/src/app/dialogs/ConvertToolDialog.cpp). *)
Definition ConvertToolDialog_convert (input : wstring) (config : ConvertConfig) : wstring :=
  let unicode := DecodeString standard_reverse input (sourceEncoding config) in
  let unicode := if removeMark config then RemoveDiacritics unicode else unicode in
  let unicode :=
    if allCaps config then ToUpper unicode
    else if allLower config then ToLower unicode
    else if capsFirst config then ToSentenceCase unicode
    else if capsEach config then ToTitleCase unicode
    else unicode in
  EncodeString unicode (destEncoding config).

(** Settings that only recode, or only transform Unicode text. *)
Definition recodes_only (config : ConvertConfig) : Prop :=
  removeMark config = false /\ allCaps config = false /\ allLower config = false /\
  capsFirst config = false /\ capsEach config = false /\
  sourceEncoding config <> destEncoding config.
Definition transforms_only (config : ConvertConfig) : Prop :=
  sourceEncoding config = 0 /\ destEncoding config = 0.

(** The hotkey and the conversion dialogs give the same text whenever the
    settings only change the encoding, or only transform Unicode text. *)
Theorem quick_convert_as_dialog input config :
  recodes_only config \/ transforms_only config ->
  ApplyQuickConvertConfig input config = ConvertToolDialog_convert input config.
Proof.
  unfold ApplyQuickConvertConfig, ConvertToolDialog_convert, ApplyQuickConvertOption.
  intros [(-> & -> & -> & -> & -> & Hne)|[-> ->]].
  - rewrite (proj2 (Z.eqb_neq _ _) Hne). reflexivity.
  - reflexivity.
Qed.

(** The options a cycle offers, as a list filtered by the settings. *)
Definition option_enabled (config : ConvertConfig) (o : QuickConvertOption) : bool :=
  match o with
  | QcEncoding => sourceEncoding config <>w destEncoding config
  | QcUpper => allCaps config | QcLower => allLower config
  | QcSentenceCase => capsFirst config | QcTitleCase => capsEach config
  | QcRemoveDiacritics => removeMark config
  end.
Definition cycle_order : list QuickConvertOption :=
  [QcEncoding; QcUpper; QcLower; QcSentenceCase; QcTitleCase; QcRemoveDiacritics].

(** The cycle lists exactly the enabled options, each once, in the fixed order. *)
Lemma GetEnabledQuickConvertOptions_filter config :
  GetEnabledQuickConvertOptions config = filter (fun o => option_enabled config o = true) cycle_order.
Proof.
  unfold GetEnabledQuickConvertOptions, cycle_order. rewrite !filter_cons, filter_nil.
  unfold option_enabled.
  destruct (sourceEncoding config =w destEncoding config), (allCaps config), (allLower config),
    (capsFirst config), (capsEach config), (removeMark config); reflexivity.
Qed.

(** With nothing enabled the text is returned as it is. *)
Lemma ApplyQuickConvertConfig_disabled input config :
  GetEnabledQuickConvertOptions config = [] -> ApplyQuickConvertConfig input config = input.
Proof.
  unfold GetEnabledQuickConvertOptions, ApplyQuickConvertConfig.
  destruct (sourceEncoding config =w destEncoding config), (allCaps config), (allLower config),
    (capsFirst config), (capsEach config), (removeMark config); done.
Qed.

End QuickConvert.

Lemma quick_convert_as_dialog_witness :
  let SP := posix_spaces in
  let config := mkConvert true false false false true false false false false 0 0
                  (mkHotkey false false false false 0) in
  ApplyQuickConvertConfig [L "V"; 0x1EC7; L "t"] config = [L "V"; L "E"; L "T"] /\
  ApplyQuickConvertConfig [L "V"; 0x1EC7; L "t"] config =
  ConvertToolDialog_convert [L "V"; 0x1EC7; L "t"] config.
Proof.
  split; [vm_compute; reflexivity|]. apply quick_convert_as_dialog. right. split; reflexivity.
Defined.

(** The hotkey recodes before it changes the case, so capitals are made of
    legacy bytes: the letter u with grave, sent to TCVN3 in capitals, becomes
    the byte 0xCF, which TCVN3 reads as an e with tilde.  The dialogs keep it. *)
Lemma quick_convert_breaks_tcvn3 (SP : SpacePlatform) :
  let config := mkConvert true false false false false false false false false 0 1
                  (mkHotkey false false false false 0) in
  ApplyQuickConvertConfig [0xF9] config = [0xCF] /\
  DecodeString standard_reverse [0xCF] 1 = [0x1EBD] /\
  ConvertToolDialog_convert [0xF9] config = [0xEF] /\
  DecodeString standard_reverse [0xEF] 1 = [0xF9].
Proof. repeat split; vm_compute; reflexivity. Qed.

(** Likewise the marks are not removed from the recoded text: in VNI the letter
    keeps its tone as a second letter. *)
Lemma quick_convert_keeps_marks (SP : SpacePlatform) :
  let config := mkConvert false false false false true false false false false 0 2
                  (mkHotkey false false false false 0) in
  ApplyQuickConvertConfig [0x1EBF] config = [L "e"; L "a"] /\
  ConvertToolDialog_convert [0x1EBF] config = [L "e"].
Proof. repeat split; vm_compute; reflexivity. Qed.
