(* ===== verification/Utf16.v ===== *)
(** * UTF-16 strings (src/src/core/ipc/LexiconWireFormat.cpp)

    Code-point decoding, counting and comparison of the strings of the shared
    dictionary.  A [std::u16string] is a list of 16-bit units; the cursor of a
    decoding loop is the rest of the string, so a loop's fuel is the length of
    the string and the facts below prove that it is enough. *)

From S2P Require Import Prelude.
Open Scope Z_scope.

Abbreviation u16string := (list Z) (only parsing).

Definition is_u16 (c : Z) : Prop := 0 <= c < 0x10000.

Definition DecodeNextScalar (str : u16string) : Z * u16string :=
  match str with
  | [] => (0, [])
  | c1 :: rest =>
      if (0xD800 <=? c1) && (c1 <=? 0xDBFF) then
        match rest with
        | c2 :: rest' =>
            if (0xDC00 <=? c2) && (c2 <=? 0xDFFF)
            then (0x10000 + Z.lor (Z.shiftl (c1 - 0xD800) 10) (c2 - 0xDC00), rest')
            else (c1, rest)
        | [] => (c1, rest)
        end
      else (c1, rest)
  end.

Fixpoint HasInvalidSurrogatesLoop (fuel : nat) (str : u16string) : bool :=
  match fuel, str with
  | S fuel, _ :: _ =>
      let '(cp, rest) := DecodeNextScalar str in
      if (0xD800 <=? cp) && (cp <=? 0xDFFF) then true else HasInvalidSurrogatesLoop fuel rest
  | _, _ => false
  end.
Definition HasInvalidSurrogates (str : u16string) : bool :=
  HasInvalidSurrogatesLoop (length str) str.

Fixpoint CountScalarsLoop (fuel : nat) (str : u16string) (count : Z) : Z :=
  match fuel, str with
  | S fuel, _ :: _ => CountScalarsLoop fuel (snd (DecodeNextScalar str)) (count + 1)
  | _, _ => count
  end.
Definition CountUnicodeScalars (str : u16string) : Z := CountScalarsLoop (length str) str 0.

Fixpoint CompareLoop (fuel : nat) (a b : u16string) : Z :=
  match a, b with
  | _ :: _, _ :: _ =>
      match fuel with
      | O => 0
      | S fuel =>
          let '(scalarA, a') := DecodeNextScalar a in
          let '(scalarB, b') := DecodeNextScalar b in
          if scalarA <>w scalarB then (if scalarA <? scalarB then -1 else 1)
          else CompareLoop fuel a' b'
      end
  | _ :: _, [] => 1
  | [], _ :: _ => -1
  | [], [] => 0
  end.
Definition CompareUtf16ByUnicodeScalar (a b : u16string) : Z := CompareLoop (length a) a b.

(** On Windows [wchar_t] is the 16-bit unit itself and both conversions copy. *)
Definition WStringToU16 (wstr : wstring) : u16string := wstr.
Definition U16ToWString (u16 : u16string) : wstring := u16.

(** ** The code points of a string *)

Fixpoint scalars_fuel (fuel : nat) (str : u16string) : list Z :=
  match fuel, str with
  | S fuel, _ :: _ =>
      let '(cp, rest) := DecodeNextScalar str in cp :: scalars_fuel fuel rest
  | _, _ => []
  end.
Definition scalars (str : u16string) : list Z := scalars_fuel (length str) str.

Lemma DecodeNextScalar_shrinks c str :
  (length (DecodeNextScalar (c :: str)).2 <= length str)%nat.
Proof. simpl. repeat case_match; simpl; lia. Qed.

Lemma scalars_fuel_enough f g str :
  (length str <= f)%nat -> (length str <= g)%nat -> scalars_fuel f str = scalars_fuel g str.
Proof.
  revert g str. induction f as [|f IH]; intros g [|c str] Hf Hg;
    [destruct g; done|simpl in Hf; lia|destruct g; done|].
  destruct g as [|g]; [simpl in Hg; lia|].
  pose proof (DecodeNextScalar_shrinks c str) as Hs.
  unfold scalars_fuel; fold scalars_fuel. destruct (DecodeNextScalar (c :: str)) as [cp rest].
  simpl in *. f_equal. apply IH; lia.
Qed.

Lemma scalars_cons c str :
  scalars (c :: str) =
  (DecodeNextScalar (c :: str)).1 :: scalars (DecodeNextScalar (c :: str)).2.
Proof.
  unfold scalars at 1. cbn [length scalars_fuel].
  pose proof (DecodeNextScalar_shrinks c str) as Hs.
  destruct (DecodeNextScalar (c :: str)) as [cp rest]; simpl in *. f_equal.
  apply scalars_fuel_enough; lia.
Qed.

Lemma CountScalarsLoop_spec f str n :
  (length str <= f)%nat -> CountScalarsLoop f str n = n + Z.of_nat (length (scalars str)).
Proof.
  revert str n. induction f as [|f IH]; intros [|c str] n Hf; try (simpl in *; lia).
  cbn [CountScalarsLoop]. rewrite IH.
  - rewrite scalars_cons. cbn [length]. lia.
  - pose proof (DecodeNextScalar_shrinks c str). simpl in Hf. lia.
Qed.

Lemma CountUnicodeScalars_spec str : CountUnicodeScalars str = Z.of_nat (length (scalars str)).
Proof. unfold CountUnicodeScalars. by rewrite CountScalarsLoop_spec. Qed.

(** A surrogate among the decoded code points: an unpaired one in the text. *)
Definition is_surrogate (cp : Z) : bool := (0xD800 <=? cp) && (cp <=? 0xDFFF).

Lemma HasInvalidSurrogatesLoop_spec f str :
  (length str <= f)%nat ->
  HasInvalidSurrogatesLoop f str = existsb is_surrogate (scalars str).
Proof.
  revert str. induction f as [|f IH]; intros [|c str] Hf; try (simpl in *; lia || done).
  rewrite scalars_cons. cbn [HasInvalidSurrogatesLoop existsb].
  pose proof (DecodeNextScalar_shrinks c str) as Hs. simpl in Hf.
  destruct (DecodeNextScalar (c :: str)) as [cp rest]; simpl in *.
  fold (is_surrogate cp). destruct (is_surrogate cp); [done|]. apply IH. lia.
Qed.

Lemma HasInvalidSurrogates_spec str :
  HasInvalidSurrogates str = existsb is_surrogate (scalars str).
Proof. by apply HasInvalidSurrogatesLoop_spec. Qed.

(** ** The comparison is the lexicographic order of the code points *)

Fixpoint lex_compare (a b : list Z) : Z :=
  match a, b with
  | x :: a, y :: b => if x =w y then lex_compare a b else if x <? y then -1 else 1
  | _ :: _, [] => 1
  | [], _ :: _ => -1
  | [], [] => 0
  end.

Lemma CompareLoop_spec f a b :
  (length a <= f)%nat -> CompareLoop f a b = lex_compare (scalars a) (scalars b).
Proof.
  revert a b. induction f as [|f IH]; intros [|x a] [|y b] Hf; try (simpl in Hf; lia);
    rewrite ?scalars_cons; try done.
  cbn [CompareLoop lex_compare].
  pose proof (DecodeNextScalar_shrinks x a) as Ha. simpl in Hf.
  destruct (DecodeNextScalar (x :: a)) as [ca ra], (DecodeNextScalar (y :: b)) as [cb rb].
  simpl in *. destruct (ca =w cb); simpl; [|done]. apply IH. lia.
Qed.

Lemma CompareUtf16_scalars a b :
  CompareUtf16ByUnicodeScalar a b = lex_compare (scalars a) (scalars b).
Proof. by apply CompareLoop_spec. Qed.

Lemma lex_compare_refl a : lex_compare a a = 0.
Proof. induction a; simpl; [done|]. by rewrite Z.eqb_refl. Qed.

Lemma lex_compare_eq a b : lex_compare a b = 0 -> a = b.
Proof.
  revert b. induction a as [|x a IH]; intros [|y b]; simpl; try done.
  destruct (Z.eqb_spec x y) as [->|]; [intros ?; f_equal; auto|]. by case_match.
Qed.

Lemma lex_compare_opp a b : lex_compare b a = - lex_compare a b.
Proof.
  revert b. induction a as [|x a IH]; intros [|y b]; simpl; try done.
  rewrite (Z.eqb_sym y x). destruct (Z.eqb_spec x y) as [->|]; [apply IH|].
  destruct (Z.ltb_spec y x), (Z.ltb_spec x y); lia.
Qed.

Lemma lex_compare_trans a b c :
  lex_compare a b <= 0 -> lex_compare b c <= 0 -> lex_compare a c <= 0.
Proof.
  revert b c. induction a as [|x a IH]; intros [|y b] [|z c]; simpl; try lia.
  destruct (Z.eqb_spec x y), (Z.eqb_spec y z), (Z.eqb_spec x z); subst; try lia;
    repeat (case_match; bool_hyps); try lia; eauto.
Qed.

(** ** Decoding loses nothing *)

Lemma surrogate_pair_bits h l :
  0 <= h < 0x400 -> 0 <= l < 0x400 -> Z.lor (Z.shiftl h 10) l = h * 1024 + l.
Proof.
  intros Hh Hl. rewrite Z.shiftl_mul_pow2 by lia. change (2 ^ 10) with 1024.
  apply Z.bits_inj'. intros n Hn. rewrite Z.lor_spec.
  destruct (Z.ltb_spec n 10) as [Hlt|Hge].
  - replace (h * 1024) with (h * 2 ^ 10) by lia.
    rewrite Z.mul_pow2_bits_low by lia. simpl.
    rewrite <- (Z.mod_pow2_bits_low (h * 2 ^ 10 + l) 10 n) by lia.
    rewrite Z.add_comm, Z_mod_plus_full, Z.mod_small by lia. done.
  - replace (h * 1024) with (h * 2 ^ 10) by lia.
    rewrite Z.mul_pow2_bits by lia.
    replace (Z.testbit l n) with false; [rewrite orb_false_r|].
    + replace n with ((n - 10) + 10) at 2 by lia.
      rewrite <- Z.div_pow2_bits by lia. f_equal.
      rewrite Z.add_comm, Z_div_plus_full, Z.div_small by lia. lia.
    + symmetry. rewrite <- (Z.mod_small l (2 ^ 10)) by lia.
      apply Z.mod_pow2_bits_high. lia.
Qed.

Lemma DecodeNextScalar_cases c str :
  Forall is_u16 (c :: str) ->
  let '(cp, rest) := DecodeNextScalar (c :: str) in
  Forall is_u16 rest /\
  ((cp < 0x10000 /\ cp = c /\ rest = str) \/
   (exists c2, str = c2 :: rest /\ 0xD800 <= c <= 0xDBFF /\ 0xDC00 <= c2 <= 0xDFFF /\
      cp = 0x10000 + (c - 0xD800) * 1024 + (c2 - 0xDC00))).
Proof.
  intros H. inversion H as [|? ? Hc Hs]; subst. unfold is_u16 in Hc. simpl.
  destruct ((0xD800 <=? c) && (c <=? 0xDBFF)) eqn:Hh; [|split; [done|left; split_and!; [lia|done..]]].
  destruct str as [|c2 str]; [split; [done|left; split_and!; [lia|done..]]|].
  inversion Hs as [|? ? Hc2 Hs']; subst.
  destruct ((0xDC00 <=? c2) && (c2 <=? 0xDFFF)) eqn:Hl; [|split; [done|left; split_and!; [lia|done..]]].
  bool_hyps. split; [done|right]. exists c2. rewrite surrogate_pair_bits by lia.
  split_and!; [done|lia..].
Qed.

Lemma scalars_inj a b :
  Forall is_u16 a -> Forall is_u16 b -> scalars a = scalars b -> a = b.
Proof.
  remember (length a) as n eqn:Hn. assert (Hle : (length a <= n)%nat) by lia. clear Hn.
  revert a b Hle. induction n as [|n IH]; intros [|x a] [|y b] Hle Ha Hb H;
    rewrite ?scalars_cons in H; try done; [simpl in Hle; lia|].
  pose proof (DecodeNextScalar_cases x a Ha) as Ca.
  pose proof (DecodeNextScalar_cases y b Hb) as Cb.
  pose proof (DecodeNextScalar_shrinks x a) as Sa. simpl in Hle.
  destruct (DecodeNextScalar (x :: a)) as [ca ra], (DecodeNextScalar (y :: b)) as [cb rb].
  simpl in *. injection H as <- H.
  destruct Ca as [Ua Ca], Cb as [Ub Cb].
  assert (ra = rb) as <- by (apply IH; [lia|..]; done).
  destruct Ca as [(?&?&?)|(x2&?&?&?&?)], Cb as [(?&?&?)|(y2&?&?&?&?)]; subst; try lia; [done|].
  assert (x = y) by nia. assert (x2 = y2) by lia. congruence.
Qed.

Lemma Compare_zero_eq a b :
  Forall is_u16 a -> Forall is_u16 b -> CompareUtf16ByUnicodeScalar a b = 0 -> a = b.
Proof. intros Ha Hb. rewrite CompareUtf16_scalars. intros H%lex_compare_eq. by apply scalars_inj. Qed.

(** The dictionary's comparison is a total order on UTF-16 strings: it is
    antisymmetric and transitive, it answers zero exactly for the same string
    (so equal words are duplicates and nothing else is), and it is the
    lexicographic order of the code points rather than of the code units. *)
Theorem CompareUtf16_total_order a b c :
  Forall is_u16 a -> Forall is_u16 b ->
  (CompareUtf16ByUnicodeScalar a b = 0 <-> a = b) /\
  CompareUtf16ByUnicodeScalar b a = - CompareUtf16ByUnicodeScalar a b /\
  (CompareUtf16ByUnicodeScalar a b <= 0 -> CompareUtf16ByUnicodeScalar b c <= 0 ->
   CompareUtf16ByUnicodeScalar a c <= 0) /\
  CompareUtf16ByUnicodeScalar a b = lex_compare (scalars a) (scalars b).
Proof.
  intros Ha Hb. rewrite !CompareUtf16_scalars. repeat split.
  - intros H%lex_compare_eq. by apply scalars_inj.
  - intros ->. apply lex_compare_refl.
  - apply lex_compare_opp.
  - apply lex_compare_trans.
Qed.

(** U+FF5E sorts before U+1F600 although its unit is the larger one. *)
Lemma CompareUtf16_total_order_witness :
  CompareUtf16ByUnicodeScalar [0xFF5E] [0xD83D; 0xDE00] = -1 /\
  CompareUtf16ByUnicodeScalar [0xD83D; 0xDE00] [0xFF5E] = 1.
Proof.
  assert (H1 : Forall is_u16 [0xFF5E]) by (repeat constructor; unfold is_u16; lia).
  assert (H2 : Forall is_u16 [0xD83D; 0xDE00]) by (repeat constructor; unfold is_u16; lia).
  split; [reflexivity|].
  destruct (CompareUtf16_total_order _ _ [] H1 H2) as (_ & H & _). rewrite H. reflexivity.
Defined.
