(* ===== verification/Bytes.v ===== *)
(** * Byte buffers and CRC-32 (src/src/core/ipc/LexiconWireFormat.cpp)

    A shared buffer is a list of bytes.  Reading a 16, 32 or 64 bit field is the
    little-endian load the program performs on its target, [wr_bytes] is
    [memcpy] into the buffer; offsets and lengths are [Z] as in the code.  The
    last section is the program's CRC-32 and its bitwise reference. *)

From S2P Require Import Prelude.
Open Scope Z_scope.

Definition is_byte (b : Z) : Prop := 0 <= b < 256.

(** ** Little-endian encoding *)

Fixpoint le_encode (n : nat) (v : Z) : list Z :=
  match n with O => [] | S n => v mod 256 :: le_encode n (v / 256) end.
Fixpoint le_decode (bs : list Z) : Z :=
  match bs with [] => 0 | b :: bs => b + 256 * le_decode bs end.

Lemma le_encode_length n v : length (le_encode n v) = n.
Proof. revert v. induction n; intros v; simpl; auto. Qed.

Lemma le_encode_bytes n v : Forall is_byte (le_encode n v).
Proof.
  revert v. induction n; intros v; simpl; constructor; auto.
  unfold is_byte. apply Z.mod_pos_bound. lia.
Qed.

Lemma le_decode_encode n v : le_decode (le_encode n v) = v mod 256 ^ Z.of_nat n.
Proof.
  revert v. induction n as [|n IH]; intros v; simpl; [by rewrite Z.mod_1_r|].
  rewrite IH. replace (Z.of_nat (S n)) with (1 + Z.of_nat n) by lia.
  rewrite Z.pow_add_r by lia. change (256 ^ 1) with 256.
  rewrite (Z.rem_mul_r v 256) by (try apply Z.pow_pos_nonneg; lia). lia.
Qed.

Lemma le_decode_bound bs :
  Forall is_byte bs -> 0 <= le_decode bs < 256 ^ Z.of_nat (length bs).
Proof.
  induction 1 as [|b bs Hb _ IH]; simpl; [lia|]. unfold is_byte in Hb.
  replace (Z.of_nat (S (length bs))) with (1 + Z.of_nat (length bs)) by lia.
  rewrite Z.pow_add_r by lia. change (256 ^ 1) with 256. nia.
Qed.

(** ** Reading and writing *)

Definition slice (buf : list Z) (off n : Z) : list Z :=
  take (Z.to_nat n) (drop (Z.to_nat off) buf).
Definition wr_bytes (buf : list Z) (off : Z) (bs : list Z) : list Z :=
  take (Z.to_nat off) buf ++ bs ++ drop (Z.to_nat off + length bs) buf.

Definition rd16 (buf : list Z) (off : Z) : Z := le_decode (slice buf off 2).
Definition rd32 (buf : list Z) (off : Z) : Z := le_decode (slice buf off 4).
Definition rd64 (buf : list Z) (off : Z) : Z := le_decode (slice buf off 8).
Definition wr16 (buf : list Z) (off v : Z) : list Z := wr_bytes buf off (le_encode 2 v).
Definition wr32 (buf : list Z) (off v : Z) : list Z := wr_bytes buf off (le_encode 4 v).
Definition wr64 (buf : list Z) (off v : Z) : list Z := wr_bytes buf off (le_encode 8 v).

(** [char16_t] arrays. *)
Definition units_bytes (us : list Z) : list Z := us ≫= le_encode 2.
Fixpoint units_of (bs : list Z) : list Z :=
  match bs with b0 :: b1 :: bs => b0 + 256 * b1 :: units_of bs | _ => [] end.
Definition rd_units (buf : list Z) (off n : Z) : list Z := units_of (slice buf off (2 * n)).
Definition wr_units (buf : list Z) (off : Z) (us : list Z) : list Z :=
  wr_bytes buf off (units_bytes us).

Section Writes.
Context (buf : list Z) (off : Z) (bs : list Z).
Context (Hin : 0 <= off /\ off + Z.of_nat (length bs) <= Z.of_nat (length buf)).

Lemma wr_bytes_length : length (wr_bytes buf off bs) = length buf.
Proof. unfold wr_bytes. rewrite !length_app, length_take, length_drop. lia. Qed.

Lemma slice_wr_same : slice (wr_bytes buf off bs) off (Z.of_nat (length bs)) = bs.
Proof.
  unfold slice, wr_bytes. rewrite drop_app_length' by (rewrite length_take; lia).
  rewrite take_app_length' by lia. done.
Qed.

Lemma slice_wr_before o n :
  0 <= o -> 0 <= n -> o + n <= off -> slice (wr_bytes buf off bs) o n = slice buf o n.
Proof.
  intros Ho Hn Hle. unfold slice, wr_bytes.
  rewrite drop_app_le by (rewrite length_take; lia).
  rewrite take_app_le by (rewrite length_drop, length_take; lia).
  rewrite skipn_firstn_comm, take_take. f_equal. lia.
Qed.

Lemma slice_wr_after o n :
  off + Z.of_nat (length bs) <= o -> slice (wr_bytes buf off bs) o n = slice buf o n.
Proof.
  intros Hle. unfold slice, wr_bytes. f_equal.
  rewrite drop_app_ge by (rewrite length_take; lia).
  rewrite drop_app_ge by (rewrite length_take; lia).
  rewrite drop_drop, length_take. f_equal. lia.
Qed.

(** A write elsewhere is not seen. *)
Lemma slice_wr_apart o n :
  0 <= o -> 0 <= n -> o + n <= off \/ off + Z.of_nat (length bs) <= o ->
  slice (wr_bytes buf off bs) o n = slice buf o n.
Proof. intros ? ? [?|?]; [by apply slice_wr_before|by apply slice_wr_after]. Qed.

End Writes.

Lemma slice_length buf o n :
  0 <= o -> 0 <= n -> o + n <= Z.of_nat (length buf) ->
  length (slice buf o n) = Z.to_nat n.
Proof. intros. unfold slice. rewrite length_take, length_drop. lia. Qed.

Lemma slice_app buf o n m :
  0 <= o -> 0 <= n -> 0 <= m -> slice buf o (n + m) = slice buf o n ++ slice buf (o + n) m.
Proof.
  intros. unfold slice. rewrite !Z2Nat.inj_add by lia. rewrite <- drop_drop.
  generalize (drop (Z.to_nat o) buf) as l. intros l.
  by rewrite <- take_take_drop.
Qed.

(** Reading back a field, and a field not written. *)
Lemma le_rw_same buf off n v :
  0 <= off -> off + Z.of_nat n <= Z.of_nat (length buf) ->
  slice (wr_bytes buf off (le_encode n v)) off (Z.of_nat n) = le_encode n v.
Proof.
  intros. rewrite <- (le_encode_length n v) at 2.
  apply slice_wr_same. rewrite le_encode_length. lia.
Qed.

Lemma units_of_bytes us : Forall (fun u => 0 <= u < 0x10000) us -> units_of (units_bytes us) = us.
Proof.
  induction 1 as [|u us Hu _ IH]; [done|].
  change (units_bytes (u :: us)) with (u mod 256 :: u / 256 mod 256 :: units_bytes us).
  cbn [units_of]. rewrite IH. f_equal.
  rewrite (Z.mod_small (u / 256)) by (split; [apply Z.div_pos|apply Z.div_lt_upper_bound]; lia).
  pose proof (Z.div_mod u 256). lia.
Qed.

Lemma units_bytes_length us : length (units_bytes us) = (2 * length us)%nat.
Proof.
  induction us as [|u us IH]; [done|].
  change (units_bytes (u :: us)) with (u mod 256 :: u / 256 mod 256 :: units_bytes us).
  cbn [length]. lia.
Qed.

Lemma units_of_app a b :
  Nat.Even (length a) -> units_of (a ++ b) = units_of a ++ units_of b.
Proof.
  intros [k Hk]. revert a Hk. induction k as [|k IH]; intros a Hk.
  - destruct a; [done|simpl in Hk; lia].
  - destruct a as [|x [|y a]]; simpl in Hk; try lia. simpl. f_equal. apply IH. lia.
Qed.

Lemma units_of_length a : length (units_of a) = (length a / 2)%nat.
Proof.
  remember (length a) as n eqn:Hn. revert a Hn.
  induction n as [n IH] using lt_wf_ind. intros [|x [|y a]] ->; [done|done|].
  cbn [units_of length]. rewrite (IH (length a)) by (simpl; lia || done).
  replace (S (S (length a))) with (length a + 1 * 2)%nat by lia.
  rewrite Nat.div_add by lia. lia.
Qed.

Lemma units_of_u16 a : Forall is_byte a -> Forall (fun u => 0 <= u < 0x10000) (units_of a).
Proof.
  remember (length a) as n eqn:Hn. revert a Hn.
  induction n as [n IH] using lt_wf_ind. intros [|x [|y a]] -> Ha; try constructor.
  - inversion Ha as [|? ? Hx Ha']; subst. inversion Ha' as [|? ? Hy ?]; subst.
    unfold is_byte in *. lia.
  - inversion Ha as [|? ? ? Ha']; subst. inversion Ha'; subst.
    apply (IH (length a)); [simpl; lia|done|done].
Qed.

(** ** CRC-32, table driven *)

Definition crc_shift (crc : Z) : Z :=
  Z.lxor (Z.shiftr crc 1) (0xEDB88320 * Z.land crc 1).
Definition MakeCrc32TableEntry (byte : Z) : Z := Nat.iter 8 crc_shift byte.
Definition kCrc32Table : list Z := (fun i => MakeCrc32TableEntry (Z.of_nat i)) <$> seq 0 256.

Definition crc_byte (crc b : Z) : Z :=
  let tableIndex := Z.land (Z.lxor crc b) 0xFF in
  Z.lxor (Z.shiftr crc 8) (nth (Z.to_nat tableIndex) kCrc32Table 0).

Definition ComputeCrc32 (bytes : list Z) : Z :=
  if bool_decide (bytes = []) then 0
  else Z.lxor (foldl crc_byte 0xFFFFFFFF bytes) 0xFFFFFFFF.

(** The definition of the checksum, one bit at a time. *)
Definition crc_byte_bitwise (crc b : Z) : Z := Nat.iter 8 crc_shift (Z.lxor crc b).

(** ** Bit facts *)

Lemma lxor_bound a b n :
  0 <= n -> 0 <= a < 2 ^ n -> 0 <= b < 2 ^ n -> 0 <= Z.lxor a b < 2 ^ n.
Proof.
  intros Hn Ha Hb. assert (H0 : 0 <= Z.lxor a b) by (apply Z.lxor_nonneg; lia).
  split; [done|].
  destruct (Z.eq_dec n 0) as [->|Hn0].
  { simpl in Ha, Hb. by assert (a = 0) as -> by lia; assert (b = 0) as -> by lia. }
  destruct (Z.eq_dec (Z.lxor a b) 0) as [->|Hne]; [apply Z.pow_pos_nonneg; lia|].
  apply Z.log2_lt_pow2; [lia|].
  assert (Hlk : forall c, 0 <= c < 2 ^ n -> Z.log2 c < n).
  { intros c Hc. destruct (Z.eq_dec c 0) as [->|]; [simpl; lia|]. apply Z.log2_lt_pow2; lia. }
  eapply Z.le_lt_trans; [apply Z.log2_lxor; lia|]. apply Z.max_lub_lt; auto.
Qed.

Lemma land1_odd x : Z.land x 1 = Z.b2z (Z.odd x).
Proof. change 1 with (Z.ones 1). rewrite Z.land_ones by lia. apply Zmod_odd. Qed.

Lemma crc_shift_odd x :
  crc_shift x = Z.lxor (Z.shiftr x 1) (if Z.odd x then 0xEDB88320 else 0).
Proof. unfold crc_shift. rewrite land1_odd. by destruct (Z.odd x). Qed.

Lemma crc_shift_xor a b : crc_shift (Z.lxor a b) = Z.lxor (crc_shift a) (crc_shift b).
Proof.
  rewrite !crc_shift_odd, Z.shiftr_lxor. rewrite <- !Z.bit0_odd, Z.lxor_spec.
  destruct (Z.testbit a 0), (Z.testbit b 0); simpl xorb; cbv iota;
    apply Z.bits_inj'; intros n Hn; rewrite !Z.lxor_spec, ?Z.bits_0;
    destruct (Z.testbit 0xEDB88320 n), (Z.testbit (Z.shiftr a 1) n),
      (Z.testbit (Z.shiftr b 1) n); reflexivity.
Qed.

Lemma crc_shift_even y k : 0 <= k -> crc_shift (Z.shiftl y (k + 1)) = Z.shiftl y k.
Proof.
  intros Hk. rewrite crc_shift_odd.
  assert (Z.odd (Z.shiftl y (k + 1)) = false) as ->.
  { rewrite <- Z.bit0_odd. apply Z.shiftl_spec_low. lia. }
  rewrite Z.lxor_0_r, Z.shiftr_shiftl_l by lia. f_equal. lia.
Qed.

Lemma iter_crc_shift_xor n a b :
  Nat.iter n crc_shift (Z.lxor a b) = Z.lxor (Nat.iter n crc_shift a) (Nat.iter n crc_shift b).
Proof. induction n as [|n IH]; simpl; [done|]. by rewrite IH, crc_shift_xor. Qed.

Lemma iter_crc_shift_shiftl n y : Nat.iter n crc_shift (Z.shiftl y (Z.of_nat n)) = y.
Proof.
  induction n as [|n IH]; [apply Z.shiftl_0_r|].
  rewrite Nat.iter_succ_r. replace (Z.of_nat (S n)) with (Z.of_nat n + 1) by lia.
  rewrite crc_shift_even by lia. done.
Qed.

Lemma split_low_byte x : x = Z.lxor (Z.land x 0xFF) (Z.shiftl (Z.shiftr x 8) 8).
Proof.
  apply Z.bits_inj'. intros n Hn. rewrite Z.lxor_spec, Z.land_spec.
  change 0xFF with (Z.ones 8). destruct (Z.ltb_spec n 8).
  - rewrite Z.ones_spec_low, Z.shiftl_spec_low by lia. by rewrite andb_true_r, xorb_false_r.
  - rewrite Z.ones_spec_high, Z.shiftl_spec_high, Z.shiftr_spec by lia.
    rewrite andb_false_r, xorb_false_l. f_equal. lia.
Qed.

Lemma land_byte x : 0 <= Z.land x 0xFF < 256.
Proof. change 0xFF with (Z.ones 8). rewrite Z.land_ones by lia. apply Z.mod_pos_bound. lia. Qed.

Lemma kCrc32Table_nth i : 0 <= i < 256 -> nth (Z.to_nat i) kCrc32Table 0 = MakeCrc32TableEntry i.
Proof.
  intros Hi. rewrite nth_lookup. unfold kCrc32Table. rewrite list_lookup_fmap.
  rewrite lookup_seq_lt by lia. simpl. f_equal. lia.
Qed.

Lemma byte_shiftr b : is_byte b -> Z.shiftr b 8 = 0.
Proof. intros Hb. rewrite Z.shiftr_div_pow2 by lia. apply Z.div_small. exact Hb. Qed.

Lemma crc_byte_correct crc b : is_byte b -> crc_byte crc b = crc_byte_bitwise crc b.
Proof.
  intros Hb. unfold crc_byte, crc_byte_bitwise.
  rewrite kCrc32Table_nth by apply land_byte.
  rewrite (split_low_byte (Z.lxor crc b)) at 2.
  rewrite iter_crc_shift_xor, (iter_crc_shift_shiftl 8).
  rewrite Z.shiftr_lxor, (byte_shiftr b Hb), Z.lxor_0_r. apply Z.lxor_comm.
Qed.

(** The table-driven checksum of the shared dictionary is CRC-32: it equals
    the bit-by-bit division by the reversed polynomial 0xEDB88320 for every
    sequence of bytes. *)
Theorem ComputeCrc32_bitwise bytes :
  Forall is_byte bytes -> bytes <> [] ->
  ComputeCrc32 bytes = Z.lxor (foldl crc_byte_bitwise 0xFFFFFFFF bytes) 0xFFFFFFFF.
Proof.
  intros Hb Hne. unfold ComputeCrc32. rewrite bool_decide_eq_false_2 by done. f_equal.
  clear Hne. generalize 0xFFFFFFFF as crc.
  induction Hb as [|b bytes Hb _ IH]; intros crc; simpl; [done|].
  by rewrite crc_byte_correct.
Qed.

(** The check value of CRC-32, the text "123456789". *)
Lemma ComputeCrc32_bitwise_witness :
  let text := [49; 50; 51; 52; 53; 54; 55; 56; 57] in
  ComputeCrc32 text = 0xCBF43926 /\
  ComputeCrc32 text = Z.lxor (foldl crc_byte_bitwise 0xFFFFFFFF text) 0xFFFFFFFF.
Proof.
  split; [vm_compute; reflexivity|]. apply ComputeCrc32_bitwise; [|done].
  repeat constructor; lia.
Defined.

(** ** Corrupted bytes are detected *)

Definition is_u32 (c : Z) : Prop := 0 <= c < 2 ^ 32.

Lemma kCrc32Table_u32 : Forall is_u32 kCrc32Table.
Proof.
  apply (List.Forall_impl (P := fun c => (0 <=? c) && (c <? 2 ^ 32) = true)).
  - intros c H. unfold is_u32. lia.
  - apply (forallb_Forall_true (fun c => (0 <=? c) && (c <? 2 ^ 32))).
    vm_compute. reflexivity.
Qed.

(** The high bytes of the table are all different. *)
Lemma kCrc32Table_high : NoDup ((fun c => Z.shiftr c 24) <$> kCrc32Table).
Proof. apply (bool_decide_unpack _). vm_compute. exact I. Qed.

Lemma table_entry_u32 i : 0 <= i < 256 -> is_u32 (MakeCrc32TableEntry i).
Proof.
  intros Hi. pose proof kCrc32Table_u32 as H. rewrite Forall_lookup in H.
  apply (H (Z.to_nat i)). unfold kCrc32Table. rewrite list_lookup_fmap.
  rewrite lookup_seq_lt by lia. simpl. do 2 f_equal. lia.
Qed.

Lemma table_entry_high_inj i j :
  0 <= i < 256 -> 0 <= j < 256 ->
  Z.shiftr (MakeCrc32TableEntry i) 24 = Z.shiftr (MakeCrc32TableEntry j) 24 -> i = j.
Proof.
  intros Hi Hj E.
  assert (Hlk : forall k, 0 <= k < 256 ->
    ((fun c => Z.shiftr c 24) <$> kCrc32Table) !! Z.to_nat k =
    Some (Z.shiftr (MakeCrc32TableEntry k) 24)).
  { intros k Hk. rewrite list_lookup_fmap. unfold kCrc32Table. rewrite list_lookup_fmap.
    rewrite lookup_seq_lt by lia. simpl. do 3 f_equal. lia. }
  pose proof (Hlk i Hi) as H1. pose proof (Hlk j Hj) as H2. rewrite <- E in H2.
  pose proof (NoDup_lookup _ _ _ _ kCrc32Table_high H1 H2). lia.
Qed.

Lemma u32_shiftr c n m : 0 <= n -> 0 <= m -> n + m = 32 -> is_u32 c -> 0 <= Z.shiftr c n < 2 ^ m.
Proof.
  intros Hn Hm E Hc. unfold is_u32 in Hc. rewrite Z.shiftr_div_pow2 by lia.
  split; [apply Z.div_pos; [lia|apply Z.pow_pos_nonneg; lia]|].
  apply Z.div_lt_upper_bound; [apply Z.pow_pos_nonneg; lia|].
  rewrite <- Z.pow_add_r, E by lia. lia.
Qed.

Lemma crc_byte_u32 crc b : is_u32 crc -> is_u32 (crc_byte crc b).
Proof.
  intros Hc. unfold crc_byte. rewrite kCrc32Table_nth by apply land_byte.
  apply lxor_bound; [lia| |apply table_entry_u32, land_byte].
  pose proof (u32_shiftr crc 8 24 ltac:(lia) ltac:(lia) eq_refl Hc).
  assert (2 ^ 24 < 2 ^ 32) by reflexivity. lia.
Qed.

(** The high byte of the register is the high byte of the table entry used. *)
Lemma crc_byte_high crc b :
  is_u32 crc ->
  Z.shiftr (crc_byte crc b) 24 = Z.shiftr (MakeCrc32TableEntry (Z.land (Z.lxor crc b) 0xFF)) 24.
Proof.
  intros Hc. unfold crc_byte. rewrite kCrc32Table_nth by apply land_byte.
  rewrite Z.shiftr_lxor, Z.shiftr_shiftr by lia.
  pose proof (u32_shiftr crc 32 0 ltac:(lia) ltac:(lia) eq_refl Hc).
  change (8 + 24) with 32. change (2 ^ 0) with 1 in *.
  replace (Z.shiftr crc 32) with 0 by lia. apply Z.lxor_0_l.
Qed.

Lemma crc_byte_index crc crc' b b' :
  is_u32 crc -> is_u32 crc' -> crc_byte crc b = crc_byte crc' b' ->
  Z.land (Z.lxor crc b) 0xFF = Z.land (Z.lxor crc' b') 0xFF /\ Z.shiftr crc 8 = Z.shiftr crc' 8.
Proof.
  intros Hc Hc' E.
  assert (Hi : Z.land (Z.lxor crc b) 0xFF = Z.land (Z.lxor crc' b') 0xFF).
  { apply table_entry_high_inj; try apply land_byte.
    rewrite <- !crc_byte_high by done. by rewrite E. }
  split; [done|]. unfold crc_byte in E. rewrite Hi in E.
  apply (f_equal (fun z => Z.lxor z (nth (Z.to_nat (Z.land (Z.lxor crc' b') 0xFF)) kCrc32Table 0))) in E.
  by rewrite !Z.lxor_assoc, Z.lxor_nilpotent, !Z.lxor_0_r in E.
Qed.

Lemma land_lxor_byte_cancel a b c :
  Z.land (Z.lxor a c) 0xFF = Z.land (Z.lxor b c) 0xFF -> Z.land a 0xFF = Z.land b 0xFF.
Proof.
  intros H. apply Z.bits_inj'. intros n Hn.
  apply (f_equal (fun z => Z.testbit z n)) in H. rewrite !Z.land_spec, !Z.lxor_spec in H.
  rewrite !Z.land_spec. destruct (Z.testbit 0xFF n); [|by rewrite !andb_false_r].
  rewrite !andb_true_r in *. by destruct (Z.testbit a n), (Z.testbit b n), (Z.testbit c n).
Qed.

Lemma crc_byte_inj_crc crc crc' b :
  is_u32 crc -> is_u32 crc' -> crc_byte crc b = crc_byte crc' b -> crc = crc'.
Proof.
  intros Hc Hc' E. destruct (crc_byte_index _ _ _ _ Hc Hc' E) as [Hl Hh].
  apply land_lxor_byte_cancel in Hl.
  by rewrite (split_low_byte crc), (split_low_byte crc'), Hl, Hh.
Qed.

Lemma crc_byte_inj_byte crc b b' :
  is_u32 crc -> is_byte b -> is_byte b' -> crc_byte crc b = crc_byte crc b' -> b = b'.
Proof.
  intros Hc Hb Hb' E. destruct (crc_byte_index _ _ _ _ Hc Hc E) as [Hl _].
  rewrite (Z.lxor_comm crc b), (Z.lxor_comm crc b') in Hl.
  apply land_lxor_byte_cancel in Hl.
  rewrite (split_low_byte b), (split_low_byte b'), Hl, !byte_shiftr by done. done.
Qed.

Lemma crc_fold_u32 bytes crc : is_u32 crc -> is_u32 (foldl crc_byte crc bytes).
Proof. revert crc. induction bytes; intros crc H; simpl; [done|]. auto using crc_byte_u32. Qed.

Lemma crc_fold_inj bytes crc crc' :
  is_u32 crc -> is_u32 crc' -> foldl crc_byte crc bytes = foldl crc_byte crc' bytes -> crc = crc'.
Proof.
  revert crc crc'. induction bytes as [|b bytes IH]; intros crc crc' H H' E; simpl in *; [done|].
  apply (crc_byte_inj_crc _ _ b); [done..|]. apply IH; auto using crc_byte_u32.
Qed.

Lemma ComputeCrc32_u32 bytes : is_u32 (ComputeCrc32 bytes).
Proof.
  unfold ComputeCrc32. case_bool_decide; [unfold is_u32; lia|].
  apply lxor_bound; [lia| |lia]. apply crc_fold_u32. unfold is_u32. lia.
Qed.

(** The checksum tells apart any two payloads that differ in one byte. *)
Lemma ComputeCrc32_detects_byte pre x y post :
  is_byte x -> is_byte y -> x <> y ->
  ComputeCrc32 (pre ++ x :: post) <> ComputeCrc32 (pre ++ y :: post).
Proof.
  intros Hx Hy Hne. unfold ComputeCrc32.
  rewrite !bool_decide_eq_false_2 by (by destruct pre). intros E.
  apply (f_equal (fun z => Z.lxor z 0xFFFFFFFF)) in E.
  rewrite !Z.lxor_assoc, Z.lxor_nilpotent, !Z.lxor_0_r, !foldl_app in E. simpl in E.
  assert (Hu : is_u32 (foldl crc_byte 0xFFFFFFFF pre)) by (apply crc_fold_u32; unfold is_u32; lia).
  apply crc_fold_inj in E; [|by apply crc_byte_u32..].
  by apply Hne, (crc_byte_inj_byte (foldl crc_byte 0xFFFFFFFF pre)).
Qed.
