(* ===== verification/LexiconWire.v ===== *)
(** * The shared dictionary block (src/src/core/ipc/LexiconWireFormat.cpp, LexiconWireFormat.h)

    The 144 KiB block the core process publishes to its readers: a 128-byte
    header, the spell exclusions as newline-terminated rows, an index of
    dictionary words and the pool of their text.  [Serialize] writes it into a
    caller's buffer, [ValidateAndInspect] accepts or refuses an arbitrary
    buffer, [Deserialize] reads an accepted one.  A pointer that may be null is
    an [option]; a refusal is the error message, as a constructor.  What a
    failed [Serialize] leaves in the buffer is not kept: its one caller stages
    the block in a local buffer that it then drops.  [size_t] has 64 bits, as in
    the released builds, so that twice a 32-bit unit count does not wrap. *)

From S2P Require Import Prelude Sorting Bytes Utf16.
Open Scope Z_scope.

(** ** Layout and limits *)

Definition WIRE_MAGIC : Z := 0x58454C56.
Definition CURRENT_WIRE_ABI_VERSION : Z := 1.
Definition WIRE_HEADER_SIZE : Z := 128.
Definition WIRE_TOTAL_SIZE : Z := 147456.
Definition EXCLUSIONS_REGION_OFFSET : Z := 0x80.
Definition EXCLUSIONS_REGION_MAX_BYTES : Z := 2176.
Definition USER_DICT_INDEX_OFFSET : Z := 0x900.
Definition USER_DICT_POOL_OFFSET : Z := 0x2900.
Definition USER_DICT_POOL_MAX_BYTES : Z := 131072.
Definition MAX_EXCLUSIONS_ROWS : Z := 8.
Definition MAX_USER_DICT_WORDS : Z := 1024.
Definition MAX_USER_DICT_UTF16_UNITS : Z := 65536.
Definition MAX_EXCLUSIONS_UTF16_UNITS : Z := 1088.
Definition MIN_EXCLUSION_SCALARS : Z := 2.
Definition MAX_EXCLUSION_SCALARS : Z := 128.
Definition MIN_DICT_WORD_SCALARS : Z := 1.
Definition MAX_DICT_WORD_SCALARS : Z := 64.
Definition MAX_DICT_WORD_UTF16_UNITS : Z := 128.
Definition SPELL_SUGGEST_ENABLED : Z := 1.
Definition DICTIONARY_VALID : Z := 2.
Definition EXCLUSIONS_VALID : Z := 4.
Definition newline : Z := 10.

(** The layout constants are rewritten by this database. *)
Create HintDb wire.
#[export] Hint Unfold WIRE_HEADER_SIZE WIRE_TOTAL_SIZE EXCLUSIONS_REGION_OFFSET
  EXCLUSIONS_REGION_MAX_BYTES USER_DICT_INDEX_OFFSET USER_DICT_POOL_OFFSET
  USER_DICT_POOL_MAX_BYTES MAX_EXCLUSIONS_ROWS MAX_USER_DICT_WORDS
  MAX_USER_DICT_UTF16_UNITS MAX_EXCLUSIONS_UTF16_UNITS MIN_EXCLUSION_SCALARS
  MAX_EXCLUSION_SCALARS MIN_DICT_WORD_SCALARS MAX_DICT_WORD_SCALARS
  MAX_DICT_WORD_UTF16_UNITS : wire.
Ltac wire_lia := autounfold with wire in *; lia.

(** ** The header and the index entries as structs *)

Record LexiconWireHeader := mkHeader {
  hd_magic : Z; hd_abiVersion : Z; hd_headerSizeBytes : Z; hd_totalSizeBytes : Z;
  hd_seqlock : Z; hd_generation : Z; hd_crc32 : Z; hd_flags : Z;
  hd_payloadOffsetBytes : Z; hd_payloadSizeBytes : Z;
  hd_exclusionsOffsetBytes : Z; hd_exclusionsLengthBytes : Z; hd_exclusionsRowCount : Z;
  hd_userDictOffsetBytes : Z; hd_userDictLengthBytes : Z; hd_userDictWordCount : Z;
  hd_userDictUtf16Units : Z; hd_exclusionsUtf16Units : Z
}.

(** The 72 bytes of the named fields, in the order of their offsets. *)
Definition header_bytes (h : LexiconWireHeader) : list Z :=
  le_encode 4 (hd_magic h) ++ le_encode 2 (hd_abiVersion h) ++
  le_encode 2 (hd_headerSizeBytes h) ++ le_encode 4 (hd_totalSizeBytes h) ++
  le_encode 4 (hd_seqlock h) ++ le_encode 8 (hd_generation h) ++
  le_encode 4 (hd_crc32 h) ++ le_encode 4 (hd_flags h) ++
  le_encode 4 (hd_payloadOffsetBytes h) ++ le_encode 4 (hd_payloadSizeBytes h) ++
  le_encode 4 (hd_exclusionsOffsetBytes h) ++ le_encode 4 (hd_exclusionsLengthBytes h) ++
  le_encode 4 (hd_exclusionsRowCount h) ++ le_encode 4 (hd_userDictOffsetBytes h) ++
  le_encode 4 (hd_userDictLengthBytes h) ++ le_encode 4 (hd_userDictWordCount h) ++
  le_encode 4 (hd_userDictUtf16Units h) ++ le_encode 4 (hd_exclusionsUtf16Units h).

Definition store_header (buf : list Z) (h : LexiconWireHeader) : list Z :=
  wr_bytes buf 0 (header_bytes h).

Definition load_header (buf : list Z) : LexiconWireHeader :=
  {| hd_magic := rd32 buf 0x00; hd_abiVersion := rd16 buf 0x04;
     hd_headerSizeBytes := rd16 buf 0x06; hd_totalSizeBytes := rd32 buf 0x08;
     hd_seqlock := rd32 buf 0x0C; hd_generation := rd64 buf 0x10;
     hd_crc32 := rd32 buf 0x18; hd_flags := rd32 buf 0x1C;
     hd_payloadOffsetBytes := rd32 buf 0x20; hd_payloadSizeBytes := rd32 buf 0x24;
     hd_exclusionsOffsetBytes := rd32 buf 0x28; hd_exclusionsLengthBytes := rd32 buf 0x2C;
     hd_exclusionsRowCount := rd32 buf 0x30; hd_userDictOffsetBytes := rd32 buf 0x34;
     hd_userDictLengthBytes := rd32 buf 0x38; hd_userDictWordCount := rd32 buf 0x3C;
     hd_userDictUtf16Units := rd32 buf 0x40; hd_exclusionsUtf16Units := rd32 buf 0x44 |}.

Record DictWordEntryWire := mkEntry {
  en_offsetUnits : Z; en_lengthUtf16Units : Z; en_scalarCount : Z
}.
Definition entry_bytes (e : DictWordEntryWire) : list Z :=
  le_encode 4 (en_offsetUnits e) ++ le_encode 2 (en_lengthUtf16Units e) ++
  le_encode 2 (en_scalarCount e).
Definition index_offset (i : Z) : Z := USER_DICT_INDEX_OFFSET + 8 * i.
Definition store_entry (buf : list Z) (i : Z) (e : DictWordEntryWire) : list Z :=
  wr_bytes buf (index_offset i) (entry_bytes e).
Definition load_entry (buf : list Z) (i : Z) : DictWordEntryWire :=
  mkEntry (rd32 buf (index_offset i)) (rd16 buf (index_offset i + 4))
          (rd16 buf (index_offset i + 6)).

(** The text pool, in units. *)
Definition pool_offset (u : Z) : Z := USER_DICT_POOL_OFFSET + 2 * u.
Definition excl_offset (u : Z) : Z := EXCLUSIONS_REGION_OFFSET + 2 * u.

(** ** Errors *)

Inductive WireError :=
  | BadOutput | TooManyRows | RowSurrogate | RowScalars | RowCapacity
  | TooManyWords | WordSurrogate | WordScalars | WordUnits | PoolCapacity
  | BadInput | BadMagic | BadAbi | BadHeaderSize | BadTotalSize | BadPayloadOffset
  | PayloadTooLarge | BadExclOffset | ExclTooLong | ExclUnitsMismatch | ExclRowCount
  | BadPoolOffset | PoolTooLong | PoolUnitsMismatch | WordCountTooLarge | PoolUnitsTooLarge
  | PayloadSizeMismatch | CrcMismatch | EmptyRow | RowCountMismatch
  | EntryBounds | EntryNewline | EntryLength | EntryScalars | EntryScalarMismatch | NotSorted.

Inductive outcome (A : Type) := Ok (a : A) | Err (e : WireError).
Arguments Ok {A} a.
Arguments Err {A} e.

(** [refuse c with e ;; k]: the code's [if (c) { *outError = e; return false; }]. *)
Notation "'refuse' c 'with' e ';;' k" := (if c then Err e else k)
  (at level 10, c at level 99, e at level 99, k at level 200) : vkey_scope.
Notation "'do' x <- m ';;' k" := (match m with Ok x => k | Err e => Err e end)
  (at level 10, x pattern, m at level 99, k at level 200) : vkey_scope.

(** ** Serialize *)

Record LexiconWireSerializeParams := mkParams {
  spellExclusions : list u16string; userDictionary : list u16string;
  generation : Z; spellSuggestEnabled : bool
}.

Definition word_less (a b : u16string) : bool := CompareUtf16ByUnicodeScalar a b <? 0.

(** [std::unique]: an element equal to the last one kept is dropped. *)
Fixpoint unique_from (kept : u16string) (l : list u16string) : list u16string :=
  match l with
  | [] => []
  | w :: l => if CompareUtf16ByUnicodeScalar kept w =w 0 then unique_from kept l
              else w :: unique_from w l
  end.
Definition unique_words (l : list u16string) : list u16string :=
  match l with [] => [] | w :: l => w :: unique_from w l end.
Definition sortedWords (words : list u16string) : list u16string :=
  unique_words (stable_sort word_less words).

Definition size (s : u16string) : Z := Z.of_nat (length s).

Fixpoint WriteExclusions (rows : list u16string) (buf : list Z) (units : Z)
  : outcome (list Z * Z) :=
  match rows with
  | [] => Ok (buf, units)
  | row :: rows =>
      refuse HasInvalidSurrogates row with RowSurrogate ;;
      let scalars := CountUnicodeScalars row in
      refuse (scalars <? MIN_EXCLUSION_SCALARS) || (MAX_EXCLUSION_SCALARS <? scalars)
        with RowScalars ;;
      refuse MAX_EXCLUSIONS_UTF16_UNITS <? units + size row + 1 with RowCapacity ;;
      let buf := wr_units buf (excl_offset units) row in
      let units := units + size row in
      let buf := wr_units buf (excl_offset units) [newline] in
      WriteExclusions rows buf (units + 1)
  end.

Fixpoint WriteWords (words : list u16string) (buf : list Z) (i units : Z)
  : outcome (list Z * Z) :=
  match words with
  | [] => Ok (buf, units)
  | word :: words =>
      refuse HasInvalidSurrogates word with WordSurrogate ;;
      let scalars := CountUnicodeScalars word in
      refuse (scalars <? MIN_DICT_WORD_SCALARS) || (MAX_DICT_WORD_SCALARS <? scalars)
        with WordScalars ;;
      refuse MAX_DICT_WORD_UTF16_UNITS <? size word with WordUnits ;;
      refuse MAX_USER_DICT_UTF16_UNITS <? units + size word + 1 with PoolCapacity ;;
      let buf := store_entry buf i (mkEntry units (size word) scalars) in
      let buf := wr_units buf (pool_offset units) word in
      let units := units + size word in
      let buf := wr_units buf (pool_offset units) [newline] in
      WriteWords words buf (i + 1) (units + 1)
  end.

(** The header before its checksum, for what the two loops wrote. *)
Definition wire_header (params : LexiconWireSerializeParams) (exclUnits words poolUnits crc : Z)
  : LexiconWireHeader :=
  {| hd_magic := WIRE_MAGIC; hd_abiVersion := CURRENT_WIRE_ABI_VERSION;
     hd_headerSizeBytes := WIRE_HEADER_SIZE; hd_totalSizeBytes := WIRE_TOTAL_SIZE;
     hd_seqlock := 0; hd_generation := generation params; hd_crc32 := crc;
     hd_flags := Z.lor (Z.lor (if spellSuggestEnabled params then SPELL_SUGGEST_ENABLED else 0)
                              DICTIONARY_VALID) EXCLUSIONS_VALID;
     hd_payloadOffsetBytes := WIRE_HEADER_SIZE;
     hd_payloadSizeBytes := (USER_DICT_POOL_OFFSET - WIRE_HEADER_SIZE) + poolUnits * 2;
     hd_exclusionsOffsetBytes := EXCLUSIONS_REGION_OFFSET;
     hd_exclusionsLengthBytes := exclUnits * 2;
     hd_exclusionsRowCount := Z.of_nat (length (spellExclusions params));
     hd_userDictOffsetBytes := USER_DICT_POOL_OFFSET;
     hd_userDictLengthBytes := poolUnits * 2; hd_userDictWordCount := words;
     hd_userDictUtf16Units := poolUnits; hd_exclusionsUtf16Units := exclUnits |}.

Definition payload (buf : list Z) (h : LexiconWireHeader) : list Z :=
  slice buf (hd_payloadOffsetBytes h) (hd_payloadSizeBytes h).

Definition Serialize (params : LexiconWireSerializeParams) (outBuffer : option (list Z))
  : outcome (list Z) :=
  match outBuffer with
  | None => Err BadOutput
  | Some buf =>
      refuse Z.of_nat (length buf) <? WIRE_TOTAL_SIZE with BadOutput ;;
      refuse MAX_EXCLUSIONS_ROWS <? Z.of_nat (length (spellExclusions params))
        with TooManyRows ;;
      let buf := wr_bytes buf 0 (replicate (Z.to_nat WIRE_TOTAL_SIZE) 0) in
      do (buf, exclUnits) <- WriteExclusions (spellExclusions params) buf 0 ;;
      let words := sortedWords (userDictionary params) in
      let wordCount := Z.of_nat (length words) in
      refuse MAX_USER_DICT_WORDS <? wordCount with TooManyWords ;;
      do (buf, poolUnits) <- WriteWords words buf 0 0 ;;
      let header := wire_header params exclUnits wordCount poolUnits 0 in
      let buf := store_header buf header in
      let crc := ComputeCrc32 (payload buf header) in
      Ok (store_header buf (wire_header params exclUnits wordCount poolUnits crc))
  end.

(** ** ValidateAndInspect *)

Record LexiconWireView := mkView {
  vw_header : LexiconWireHeader; vw_exclusionsUnits : Z; vw_exclusionsRowCount : Z;
  vw_userDictUnits : Z; vw_wordCount : Z
}.

(** The newline scan; [cur] is the row being read, from [rowStart] to [i]. *)
Fixpoint ScanRows (us : list Z) (cur : u16string) (parsedRows : Z) : outcome Z :=
  match us with
  | [] => Ok parsedRows
  | c :: us =>
      if c =w newline then
        refuse bool_decide (cur = []) with EmptyRow ;;
        refuse HasInvalidSurrogates cur with RowSurrogate ;;
        let scalars := CountUnicodeScalars cur in
        refuse (scalars <? MIN_EXCLUSION_SCALARS) || (MAX_EXCLUSION_SCALARS <? scalars)
          with RowScalars ;;
        ScanRows us [] (parsedRows + 1)
      else ScanRows us (cur ++ [c]) parsedRows
  end.

Definition entry_word (buf : list Z) (e : DictWordEntryWire) : u16string :=
  rd_units buf (pool_offset (en_offsetUnits e)) (en_lengthUtf16Units e).

Definition CheckEntry (buf : list Z) (poolUnits : Z) (e : DictWordEntryWire)
  : outcome u16string :=
  refuse (poolUnits <=? en_offsetUnits e)
         || (poolUnits - en_offsetUnits e <=? en_lengthUtf16Units e) with EntryBounds ;;
  refuse rd16 buf (pool_offset (en_offsetUnits e + en_lengthUtf16Units e)) <>w newline
    with EntryNewline ;;
  refuse (en_lengthUtf16Units e <? 1) || (MAX_DICT_WORD_UTF16_UNITS <? en_lengthUtf16Units e)
    with EntryLength ;;
  refuse (en_scalarCount e <? MIN_DICT_WORD_SCALARS)
         || (MAX_DICT_WORD_SCALARS <? en_scalarCount e) with EntryScalars ;;
  let currentWord := entry_word buf e in
  refuse HasInvalidSurrogates currentWord with WordSurrogate ;;
  refuse CountUnicodeScalars currentWord <>w en_scalarCount e with EntryScalarMismatch ;;
  Ok currentWord.

(** The loop over the index: [todo] entries from the [i]th on. *)
Fixpoint CheckEntries (buf : list Z) (poolUnits : Z) (todo : nat) (i : Z) (prevWord : u16string)
  : outcome unit :=
  match todo with
  | O => Ok tt
  | S todo =>
      do currentWord <- CheckEntry buf poolUnits (load_entry buf i) ;;
      refuse (0 <? i) && (0 <=? CompareUtf16ByUnicodeScalar prevWord currentWord)
        with NotSorted ;;
      CheckEntries buf poolUnits todo (i + 1) currentWord
  end.

Definition CheckHeader (h : LexiconWireHeader) : outcome unit :=
  refuse hd_magic h <>w WIRE_MAGIC with BadMagic ;;
  refuse hd_abiVersion h <>w CURRENT_WIRE_ABI_VERSION with BadAbi ;;
  refuse hd_headerSizeBytes h <>w WIRE_HEADER_SIZE with BadHeaderSize ;;
  refuse hd_totalSizeBytes h <>w WIRE_TOTAL_SIZE with BadTotalSize ;;
  refuse hd_payloadOffsetBytes h <>w WIRE_HEADER_SIZE with BadPayloadOffset ;;
  refuse WIRE_TOTAL_SIZE - WIRE_HEADER_SIZE <? hd_payloadSizeBytes h with PayloadTooLarge ;;
  refuse hd_exclusionsOffsetBytes h <>w EXCLUSIONS_REGION_OFFSET with BadExclOffset ;;
  refuse EXCLUSIONS_REGION_MAX_BYTES <? hd_exclusionsLengthBytes h with ExclTooLong ;;
  refuse hd_exclusionsUtf16Units h * 2 <>w hd_exclusionsLengthBytes h with ExclUnitsMismatch ;;
  refuse MAX_EXCLUSIONS_ROWS <? hd_exclusionsRowCount h with ExclRowCount ;;
  refuse hd_userDictOffsetBytes h <>w USER_DICT_POOL_OFFSET with BadPoolOffset ;;
  refuse USER_DICT_POOL_MAX_BYTES <? hd_userDictLengthBytes h with PoolTooLong ;;
  refuse hd_userDictUtf16Units h * 2 <>w hd_userDictLengthBytes h with PoolUnitsMismatch ;;
  refuse MAX_USER_DICT_WORDS <? hd_userDictWordCount h with WordCountTooLarge ;;
  refuse MAX_USER_DICT_UTF16_UNITS <? hd_userDictUtf16Units h with PoolUnitsTooLarge ;;
  refuse hd_payloadSizeBytes h <>w
         (USER_DICT_POOL_OFFSET - WIRE_HEADER_SIZE) + hd_userDictLengthBytes h
    with PayloadSizeMismatch ;;
  Ok tt.

Definition CheckExclusions (buf : list Z) (h : LexiconWireHeader) : outcome unit :=
  if 0 <? hd_exclusionsRowCount h then
    do parsedRows <- ScanRows (rd_units buf (hd_exclusionsOffsetBytes h)
                                 (hd_exclusionsUtf16Units h)) [] 0 ;;
    refuse parsedRows <>w hd_exclusionsRowCount h with RowCountMismatch ;;
    Ok tt
  else Ok tt.

Definition ValidateAndInspect (wireBuffer : option (list Z)) : outcome LexiconWireView :=
  match wireBuffer with
  | None => Err BadInput
  | Some buf =>
      refuse Z.of_nat (length buf) <? WIRE_TOTAL_SIZE with BadInput ;;
      let header := load_header buf in
      do _ <- CheckHeader header ;;
      refuse ComputeCrc32 (payload buf header) <>w hd_crc32 header with CrcMismatch ;;
      do _ <- CheckExclusions buf header ;;
      do _ <- CheckEntries buf (hd_userDictUtf16Units header)
                (Z.to_nat (hd_userDictWordCount header)) 0 [] ;;
      Ok (mkView header (hd_exclusionsUtf16Units header) (hd_exclusionsRowCount header)
            (hd_userDictUtf16Units header) (hd_userDictWordCount header))
  end.

(** ** Deserialize *)

Record WireContents := mkContents {
  outExclusions : list u16string; outUserDict : list u16string;
  outGeneration : Z; outSpellSuggestEnabled : bool
}.

Fixpoint ExtractRows (us : list Z) (cur : u16string) : list u16string :=
  match us with
  | [] => []
  | c :: us =>
      if c =w newline then
        if bool_decide (cur = []) then ExtractRows us [] else cur :: ExtractRows us []
      else ExtractRows us (cur ++ [c])
  end.

Definition entries (buf : list Z) (wordCount : Z) : list DictWordEntryWire :=
  (fun i => load_entry buf (Z.of_nat i)) <$> seq 0 (Z.to_nat wordCount).

Definition Deserialize (wireBuffer : option (list Z)) : outcome WireContents :=
  do view <- ValidateAndInspect wireBuffer ;;
  let buf := default [] wireBuffer in
  Ok {| outExclusions :=
          ExtractRows (rd_units buf (hd_exclusionsOffsetBytes (vw_header view))
                         (vw_exclusionsUnits view)) [];
        outUserDict := entry_word buf <$> entries buf (vw_wordCount view);
        outGeneration := hd_generation (vw_header view);
        outSpellSuggestEnabled :=
          Z.land (hd_flags (vw_header view)) SPELL_SUGGEST_ENABLED <>w 0 |}.
