(* ===== verification/LexiconWireFacts.v ===== *)
(** * The shared dictionary block: round trip, acceptance, corruption

    What [Serialize] writes is read back by [Deserialize]; what
    [ValidateAndInspect] accepts can be read without leaving the block. *)

From stdpp Require Import sorting.
From S2P Require Import Prelude Sorting Bytes Utf16 LexiconWire.
Open Scope Z_scope.

(** ** Consecutive writes and sub-slices *)

Lemma wr_bytes_app buf off x y :
  0 <= off -> off + Z.of_nat (length x + length y) <= Z.of_nat (length buf) ->
  wr_bytes (wr_bytes buf off x) (off + Z.of_nat (length x)) y = wr_bytes buf off (x ++ y).
Proof.
  intros Ho Hle. unfold wr_bytes.
  rewrite (app_assoc (take _ buf) x). rewrite take_app_length'
    by (rewrite length_app, length_take; lia).
  rewrite <- !app_assoc. do 3 f_equal.
  rewrite (app_assoc (take _ buf) x). rewrite drop_app_ge by (rewrite length_app, length_take; lia).
  rewrite drop_drop, !length_app, length_take. f_equal. lia.
Qed.

Lemma slice_slice buf o m a n :
  0 <= o -> 0 <= a -> 0 <= n -> a + n <= m ->
  slice (slice buf o m) a n = slice buf (o + a) n.
Proof.
  intros. unfold slice. rewrite skipn_firstn_comm, take_take, drop_drop.
  f_equal; [lia|f_equal; lia].
Qed.

Lemma slice_cat a b o n :
  Z.of_nat (length a) <= o -> slice (a ++ b) o n = slice b (o - Z.of_nat (length a)) n.
Proof. intros. unfold slice. rewrite drop_app_ge by lia. do 2 f_equal. lia. Qed.

Lemma slice_cat_here a b n : n = Z.of_nat (length a) -> slice (a ++ b) 0 n = a.
Proof.
  intros ->. unfold slice. rewrite Nat2Z.id. change (drop (Z.to_nat 0) (a ++ b)) with (a ++ b).
  apply take_app_length.
Qed.

(** Appending to a region that ends where the write begins. *)
Lemma slice_extend buf o n bs :
  0 <= o -> 0 <= n -> o + n + Z.of_nat (length bs) <= Z.of_nat (length buf) ->
  slice (wr_bytes buf (o + n) bs) o (n + Z.of_nat (length bs)) = slice buf o n ++ bs.
Proof.
  intros. rewrite slice_app by lia. f_equal.
  - apply slice_wr_before; lia.
  - apply slice_wr_same. lia.
Qed.

Lemma units_bytes_app a b : units_bytes (a ++ b) = units_bytes a ++ units_bytes b.
Proof. apply bind_app. Qed.

Lemma units_bytes_slice us a n :
  0 <= a -> 0 <= n ->
  slice (units_bytes us) (2 * a) (2 * n) = units_bytes (slice us a n).
Proof.
  intros Ha Hn. unfold slice.
  replace (Z.to_nat (2 * a)) with (2 * Z.to_nat a)%nat by lia.
  replace (Z.to_nat (2 * n)) with (2 * Z.to_nat n)%nat by lia.
  generalize (Z.to_nat a) (Z.to_nat n). clear. intros a n. revert us.
  assert (Hd : forall us, drop (2 * a) (units_bytes us) = units_bytes (drop a us)).
  { induction a as [|a IH]; intros us; [done|]. destruct us as [|u us]; [by rewrite !drop_nil|].
    change (units_bytes (u :: us)) with (u mod 256 :: u / 256 mod 256 :: units_bytes us).
    replace (2 * S a)%nat with (S (S (2 * a))) by lia. apply IH. }
  intros us. rewrite Hd. generalize (drop a us). clear. intros us. revert us.
  induction n as [|n IH]; intros us; [done|]. destruct us as [|u us]; [by rewrite !take_nil|].
  change (units_bytes (u :: us)) with (u mod 256 :: u / 256 mod 256 :: units_bytes us).
  replace (2 * S n)%nat with (S (S (2 * n))) by lia. cbn [take]. by rewrite IH.
Qed.

Lemma slice_here {n} (l : list Z) : n = Z.of_nat (length l) -> slice l 0 n = l.
Proof. intros ->. unfold slice. rewrite Nat2Z.id. apply take_ge. done. Qed.

(** ** The header as a struct *)

Definition header_typed (h : LexiconWireHeader) : Prop :=
  0 <= hd_magic h < 2 ^ 32 /\ 0 <= hd_abiVersion h < 2 ^ 16 /\
  0 <= hd_headerSizeBytes h < 2 ^ 16 /\ 0 <= hd_totalSizeBytes h < 2 ^ 32 /\
  0 <= hd_seqlock h < 2 ^ 32 /\ 0 <= hd_generation h < 2 ^ 64 /\
  0 <= hd_crc32 h < 2 ^ 32 /\ 0 <= hd_flags h < 2 ^ 32 /\
  0 <= hd_payloadOffsetBytes h < 2 ^ 32 /\ 0 <= hd_payloadSizeBytes h < 2 ^ 32 /\
  0 <= hd_exclusionsOffsetBytes h < 2 ^ 32 /\ 0 <= hd_exclusionsLengthBytes h < 2 ^ 32 /\
  0 <= hd_exclusionsRowCount h < 2 ^ 32 /\ 0 <= hd_userDictOffsetBytes h < 2 ^ 32 /\
  0 <= hd_userDictLengthBytes h < 2 ^ 32 /\ 0 <= hd_userDictWordCount h < 2 ^ 32 /\
  0 <= hd_userDictUtf16Units h < 2 ^ 32 /\ 0 <= hd_exclusionsUtf16Units h < 2 ^ 32.

Lemma le16 v : 0 <= v < 2 ^ 16 -> le_decode (le_encode 2 v) = v.
Proof. intros. rewrite le_decode_encode. by apply Z.mod_small. Qed.
Lemma le32 v : 0 <= v < 2 ^ 32 -> le_decode (le_encode 4 v) = v.
Proof. intros. rewrite le_decode_encode. by apply Z.mod_small. Qed.
Lemma le64 v : 0 <= v < 2 ^ 64 -> le_decode (le_encode 8 v) = v.
Proof. intros. rewrite le_decode_encode. by apply Z.mod_small. Qed.

Lemma header_bytes_length h : length (header_bytes h) = 72%nat.
Proof. unfold header_bytes. rewrite !length_app, !le_encode_length. reflexivity. Qed.

Lemma load_store_header buf h : header_typed h -> load_header (store_header buf h) = h.
Proof.
  intros (?&?&?&?&?&?&?&?&?&?&?&?&?&?&?&?&?&?). destruct h; simpl in *.
  unfold load_header, store_header, wr_bytes. generalize (drop (Z.to_nat 0 + 72) buf).
  intros tl.
  f_equal; first [by apply le32|by apply le16|by apply le64].
Qed.

(** ** What the two loops write *)

Definition row_ok (r : u16string) : Prop :=
  HasInvalidSurrogates r = false /\
  MIN_EXCLUSION_SCALARS <= CountUnicodeScalars r <= MAX_EXCLUSION_SCALARS.
Definition word_ok (w : u16string) : Prop :=
  HasInvalidSurrogates w = false /\
  MIN_DICT_WORD_SCALARS <= CountUnicodeScalars w <= MAX_DICT_WORD_SCALARS /\
  size w <= MAX_DICT_WORD_UTF16_UNITS.

(** Every string followed by a newline. *)
Definition terminated (l : list u16string) : list Z := l ≫= (fun s => s ++ [newline]).

Lemma terminated_cons s l : terminated (s :: l) = s ++ newline :: terminated l.
Proof. unfold terminated. rewrite bind_cons, <- app_assoc. done. Qed.

Lemma terminated_app a b : terminated (a ++ b) = terminated a ++ terminated b.
Proof. apply bind_app. Qed.

Lemma size_cons_terminated s l : size (terminated (s :: l)) = size s + 1 + size (terminated l).
Proof. rewrite terminated_cons. unfold size. rewrite length_app. simpl. lia. Qed.

Lemma size_nonneg s : 0 <= size s.
Proof. unfold size. lia. Qed.

Lemma size_units_bytes us : Z.of_nat (length (units_bytes us)) = 2 * size us.
Proof. rewrite units_bytes_length. unfold size. lia. Qed.

(** One string and its newline are one write. *)
Lemma wr_string buf off s :
  0 <= off -> off + 2 * (size s + 1) <= Z.of_nat (length buf) ->
  wr_units (wr_units buf off s) (off + 2 * size s) [newline] =
  wr_bytes buf off (units_bytes (s ++ [newline])).
Proof.
  intros H0 H1. unfold wr_units. rewrite <- size_units_bytes.
  rewrite wr_bytes_app by (try done; rewrite Nat2Z.inj_add, size_units_bytes; simpl; lia).
  by rewrite units_bytes_app.
Qed.

(** The bytes of [buf'] outside the region from [lo] to [hi] are those of [buf]. *)
Definition same_outside (lo hi : Z) (buf buf' : list Z) : Prop :=
  length buf' = length buf /\
  forall o n, 0 <= o -> 0 <= n -> o + n <= lo \/ hi <= o -> slice buf' o n = slice buf o n.

Lemma same_outside_refl lo hi buf : same_outside lo hi buf buf.
Proof. split; [done|]. done. Qed.

Lemma same_outside_trans lo hi b1 b2 b3 :
  same_outside lo hi b1 b2 -> same_outside lo hi b2 b3 -> same_outside lo hi b1 b3.
Proof.
  intros [L1 S1] [L2 S2]. split; [congruence|]. intros o n ? ? ?.
  rewrite S2 by done. by apply S1.
Qed.

Lemma same_outside_wr lo hi buf off bs :
  0 <= lo -> lo <= off -> off + Z.of_nat (length bs) <= hi -> hi <= Z.of_nat (length buf) ->
  same_outside lo hi buf (wr_bytes buf off bs).
Proof.
  intros. split; [apply wr_bytes_length; lia|]. intros o n ? ? ?.
  apply slice_wr_apart; lia.
Qed.

Definition EXCL_END : Z := excl_offset MAX_EXCLUSIONS_UTF16_UNITS.
Definition POOL_END : Z := pool_offset MAX_USER_DICT_UTF16_UNITS.

Lemma WriteExclusions_ok rows : forall buf units buf' units',
  WriteExclusions rows buf units = Ok (buf', units') ->
  WIRE_TOTAL_SIZE <= Z.of_nat (length buf) -> 0 <= units <= MAX_EXCLUSIONS_UTF16_UNITS ->
  Forall row_ok rows /\ units' = units + size (terminated rows) /\
  units' <= MAX_EXCLUSIONS_UTF16_UNITS /\
  same_outside EXCLUSIONS_REGION_OFFSET EXCL_END buf buf' /\
  slice buf' EXCLUSIONS_REGION_OFFSET (2 * units') =
    slice buf EXCLUSIONS_REGION_OFFSET (2 * units) ++ units_bytes (terminated rows).
Proof.
  induction rows as [|row rows IH]; intros buf units buf' units' H Hbuf Hu; simpl in H.
  { injection H as <- <-. split_and!; [constructor|unfold size; simpl; lia|lia| |].
    - apply same_outside_refl.
    - by rewrite app_nil_r. }
  destruct (HasInvalidSurrogates row) eqn:Hs; [done|].
  destruct (_ || _) eqn:Hc in H; [done|].
  destruct (Z.ltb_spec MAX_EXCLUSIONS_UTF16_UNITS (units + size row + 1)); [done|].
  pose proof (size_nonneg row) as Hr.
  replace (excl_offset (units + size row)) with (excl_offset units + 2 * size row) in H
    by (unfold excl_offset; lia).
  unfold excl_offset in H. rewrite wr_string in H by wire_lia.
  assert (Hlen : Z.of_nat (length (units_bytes (row ++ [newline]))) = 2 * (size row + 1)).
  { rewrite size_units_bytes. unfold size. rewrite length_app. simpl. lia. }
  assert (Hso : same_outside EXCLUSIONS_REGION_OFFSET EXCL_END buf
    (wr_bytes buf (EXCLUSIONS_REGION_OFFSET + 2 * units) (units_bytes (row ++ [newline])))).
  { apply same_outside_wr; unfold EXCL_END, excl_offset; rewrite ?Hlen; wire_lia. }
  destruct (IH _ _ _ _ H) as (Hrows & Hu' & Hmax & Hout & Hsl).
  { destruct Hso as [-> _]. done. }
  { wire_lia. }
  bool_hyps. rewrite size_cons_terminated. split_and!.
  - constructor; [split; [done|lia]|done].
  - lia.
  - done.
  - by eapply same_outside_trans.
  - rewrite Hsl. replace (2 * (units + size row + 1)) with
      (2 * units + Z.of_nat (length (units_bytes (row ++ [newline])))) by lia.
    rewrite slice_extend by (rewrite ?Hlen; wire_lia).
    rewrite <- app_assoc, <- units_bytes_app. unfold terminated at 2. by rewrite bind_cons.
Qed.

(** The index entries of words laid out from a given pool position. *)
Fixpoint dict_entries (off : Z) (words : list u16string) : list DictWordEntryWire :=
  match words with
  | [] => []
  | w :: words => mkEntry off (size w) (CountUnicodeScalars w)
                  :: dict_entries (off + size w + 1) words
  end.
Definition entries_bytes (es : list DictWordEntryWire) : list Z := es ≫= entry_bytes.

Lemma entry_bytes_length e : length (entry_bytes e) = 8%nat.
Proof. unfold entry_bytes. rewrite !length_app, !le_encode_length. done. Qed.

Lemma dict_entries_length off words : length (dict_entries off words) = length words.
Proof. revert off. induction words; intros off; simpl; auto. Qed.

Lemma WriteWords_ok words : forall buf i units buf' units',
  WriteWords words buf i units = Ok (buf', units') ->
  WIRE_TOTAL_SIZE <= Z.of_nat (length buf) -> 0 <= units <= MAX_USER_DICT_UTF16_UNITS ->
  0 <= i -> i + Z.of_nat (length words) <= MAX_USER_DICT_WORDS ->
  Forall word_ok words /\ units' = units + size (terminated words) /\
  units' <= MAX_USER_DICT_UTF16_UNITS /\
  same_outside USER_DICT_INDEX_OFFSET POOL_END buf buf' /\
  slice buf' USER_DICT_INDEX_OFFSET (8 * (i + Z.of_nat (length words))) =
    slice buf USER_DICT_INDEX_OFFSET (8 * i) ++ entries_bytes (dict_entries units words) /\
  slice buf' USER_DICT_POOL_OFFSET (2 * units') =
    slice buf USER_DICT_POOL_OFFSET (2 * units) ++ units_bytes (terminated words).
Proof.
  induction words as [|word words IH]; intros buf i units buf' units' H Hbuf Hu Hi Hn; simpl in H.
  { injection H as <- <-. split_and!; [constructor|unfold size; simpl; lia|lia| | |].
    - apply same_outside_refl.
    - rewrite Z.add_0_r. by rewrite app_nil_r.
    - by rewrite app_nil_r. }
  destruct (HasInvalidSurrogates word) eqn:Hs; [done|].
  destruct (_ || _) eqn:Hc in H; [done|].
  destruct (Z.ltb_spec MAX_DICT_WORD_UTF16_UNITS (size word)); [done|].
  destruct (Z.ltb_spec MAX_USER_DICT_UTF16_UNITS (units + size word + 1)); [done|].
  pose proof (size_nonneg word) as Hr. simpl length in Hn.
  set (e := mkEntry units (size word) (CountUnicodeScalars word)) in *.
  assert (He : same_outside USER_DICT_INDEX_OFFSET POOL_END buf (store_entry buf i e)).
  { apply same_outside_wr; rewrite ?entry_bytes_length; unfold POOL_END, pool_offset, index_offset;
      wire_lia. }
  replace (pool_offset (units + size word)) with (pool_offset units + 2 * size word) in H
    by (unfold pool_offset; lia).
  unfold pool_offset in H.
  rewrite wr_string in H by (destruct He as [Hel _]; rewrite ?Hel; wire_lia).
  assert (Hlen : Z.of_nat (length (units_bytes (word ++ [newline]))) = 2 * (size word + 1)).
  { rewrite size_units_bytes. unfold size. rewrite length_app. simpl. lia. }
  set (b2 := wr_bytes (store_entry buf i e) (USER_DICT_POOL_OFFSET + 2 * units)
               (units_bytes (word ++ [newline]))) in *.
  assert (Hso : same_outside USER_DICT_POOL_OFFSET POOL_END (store_entry buf i e) b2).
  { apply same_outside_wr; destruct He as [Hel _]; rewrite ?Hlen, ?Hel;
      unfold POOL_END, pool_offset; wire_lia. }
  assert (Hl2 : length b2 = length buf) by (destruct Hso as [-> _]; apply He).
  destruct (IH _ _ _ _ _ H) as (Hw & Hu' & Hmax & Hout & Hix & Hpl); [rewrite Hl2; done|lia|lia|lia|].
  bool_hyps. rewrite size_cons_terminated. split_and!.
  - constructor; [split_and!; [done|lia|lia|lia]|done].
  - lia.
  - done.
  - eapply same_outside_trans; [exact He|]. eapply same_outside_trans; [|exact Hout].
    destruct Hso as [L2 S2]. split; [done|]. intros o n ? ? ?. apply S2; wire_lia.
  - simpl length. replace (i + Z.of_nat (S (length words))) with (i + 1 + Z.of_nat (length words)) by lia.
    rewrite Hix. simpl dict_entries. unfold entries_bytes at 2. rewrite bind_cons.
    rewrite app_assoc. f_equal.
    destruct Hso as [_ S2]. rewrite S2 by (wire_lia).
    replace (8 * (i + 1)) with (8 * i + Z.of_nat (length (entry_bytes e)))
      by (rewrite entry_bytes_length; lia).
    unfold store_entry, index_offset. rewrite slice_extend; [done|wire_lia|lia|].
    rewrite entry_bytes_length. wire_lia.
  - rewrite Hpl. replace (2 * (units + size word + 1)) with
      (2 * units + Z.of_nat (length (units_bytes (word ++ [newline])))) by lia.
    unfold b2. rewrite slice_extend by (pose proof (proj1 He); rewrite ?Hlen; wire_lia).
    rewrite <- app_assoc, <- units_bytes_app. unfold terminated at 2. rewrite bind_cons.
    f_equal. unfold store_entry. apply slice_wr_after; rewrite ?entry_bytes_length;
      unfold index_offset; wire_lia.
Qed.

(** ** When the loops succeed *)

Lemma WriteExclusions_total rows : forall buf units,
  Forall row_ok rows -> units + size (terminated rows) <= MAX_EXCLUSIONS_UTF16_UNITS ->
  exists res, WriteExclusions rows buf units = Ok res.
Proof.
  induction rows as [|row rows IH]; intros buf units Hr Hu; simpl; [by eexists|].
  inversion Hr as [|? ? [Hs Hc] Hrs]; subst. rewrite size_cons_terminated in Hu.
  rewrite Hs. pose proof (size_nonneg (terminated rows)).
  destruct (_ || _) eqn:E; [bool_hyps; lia|].
  destruct (Z.ltb_spec MAX_EXCLUSIONS_UTF16_UNITS (units + size row + 1)); [lia|].
  apply IH; [done|lia].
Qed.

Lemma WriteWords_total words : forall buf i units,
  Forall word_ok words -> units + size (terminated words) <= MAX_USER_DICT_UTF16_UNITS ->
  exists res, WriteWords words buf i units = Ok res.
Proof.
  induction words as [|word words IH]; intros buf i units Hw Hu; simpl; [by eexists|].
  inversion Hw as [|? ? (Hs & Hc & Hl) Hws]; subst. rewrite size_cons_terminated in Hu.
  rewrite Hs. pose proof (size_nonneg (terminated words)).
  destruct (_ || _) eqn:E; [bool_hyps; lia|].
  destruct (Z.ltb_spec MAX_DICT_WORD_UTF16_UNITS (size word)); [lia|].
  destruct (Z.ltb_spec MAX_USER_DICT_UTF16_UNITS (units + size word + 1)); [lia|].
  apply IH; [done|lia].
Qed.

(** The contract of the block, on the parameters alone. *)
Definition fits (p : LexiconWireSerializeParams) : Prop :=
  Z.of_nat (length (spellExclusions p)) <= MAX_EXCLUSIONS_ROWS /\
  Forall row_ok (spellExclusions p) /\
  size (terminated (spellExclusions p)) <= MAX_EXCLUSIONS_UTF16_UNITS /\
  Z.of_nat (length (sortedWords (userDictionary p))) <= MAX_USER_DICT_WORDS /\
  Forall word_ok (sortedWords (userDictionary p)) /\
  size (terminated (sortedWords (userDictionary p))) <= MAX_USER_DICT_UTF16_UNITS.

Lemma cleared_length buf :
  WIRE_TOTAL_SIZE <= Z.of_nat (length buf) ->
  length (wr_bytes buf 0 (replicate (Z.to_nat WIRE_TOTAL_SIZE) 0)) = length buf.
Proof. intros H. apply wr_bytes_length. rewrite length_replicate. wire_lia. Qed.

(** The stages of a successful run. *)
Lemma Serialize_stages p buf out :
  Serialize p (Some buf) = Ok out ->
  WIRE_TOTAL_SIZE <= Z.of_nat (length buf) /\
  Z.of_nat (length (spellExclusions p)) <= MAX_EXCLUSIONS_ROWS /\
  Z.of_nat (length (sortedWords (userDictionary p))) <= MAX_USER_DICT_WORDS /\
  exists b1 u1 b2 u2,
    WriteExclusions (spellExclusions p)
      (wr_bytes buf 0 (replicate (Z.to_nat WIRE_TOTAL_SIZE) 0)) 0 = Ok (b1, u1) /\
    WriteWords (sortedWords (userDictionary p)) b1 0 0 = Ok (b2, u2) /\
    let h := wire_header p u1 (Z.of_nat (length (sortedWords (userDictionary p)))) u2 in
    out = store_header (store_header b2 (h 0)) (h (ComputeCrc32 (payload (store_header b2 (h 0)) (h 0)))).
Proof.
  unfold Serialize. set (clr := wr_bytes _ _ _).
  destruct (Z.ltb_spec (Z.of_nat (length buf)) WIRE_TOTAL_SIZE); [done|].
  destruct (Z.ltb_spec MAX_EXCLUSIONS_ROWS (Z.of_nat (length (spellExclusions p)))); [done|].
  destruct (WriteExclusions _ _ _) as [[b1 u1]|] eqn:E1; [|done].
  destruct (Z.ltb_spec MAX_USER_DICT_WORDS
              (Z.of_nat (length (sortedWords (userDictionary p))))); [done|].
  destruct (WriteWords _ _ _ _) as [[b2 u2]|] eqn:E2; [|done].
  intros [= <-]. split_and!; [lia..|]. exists b1, u1, b2, u2. done.
Qed.

Lemma Serialize_total p buf :
  WIRE_TOTAL_SIZE <= Z.of_nat (length buf) -> fits p ->
  exists out, Serialize p (Some buf) = Ok out.
Proof.
  intros Hb (Hr & Hrow & Hu1 & Hn & Hw & Hu2). unfold Serialize.
  destruct (Z.ltb_spec (Z.of_nat (length buf)) WIRE_TOTAL_SIZE); [lia|].
  destruct (Z.ltb_spec MAX_EXCLUSIONS_ROWS (Z.of_nat (length (spellExclusions p)))); [lia|].
  set (clr := wr_bytes _ _ _).
  destruct (WriteExclusions_total (spellExclusions p) clr 0 Hrow) as [[b1 u1] ->]; [lia|].
  destruct (Z.ltb_spec MAX_USER_DICT_WORDS
              (Z.of_nat (length (sortedWords (userDictionary p))))); [lia|].
  destruct (WriteWords_total (sortedWords (userDictionary p)) b1 0 0 Hw) as [[b2 u2] ->]; [lia|].
  by eexists.
Qed.

(** Serialising succeeds exactly when the buffer holds the block and the
    contract is met: at most 8 exclusion rows of 2 to 128 well-formed code
    points in 1088 units, at most 1024 distinct words of 1 to 64 well-formed code
    points and 128 units, in 65536 units of text. *)
Theorem Serialize_succeeds_iff p buf :
  (exists out, Serialize p (Some buf) = Ok out) <->
  WIRE_TOTAL_SIZE <= Z.of_nat (length buf) /\ fits p.
Proof.
  split.
  - intros [out H]. destruct (Serialize_stages _ _ _ H) as (Hb & Hr & Hn & b1 & u1 & b2 & u2 & H1 & H2 & _).
    split; [done|].
    apply WriteExclusions_ok in H1 as (Hrow & Hu1 & Hm1 & Hs1 & _);
      [|rewrite cleared_length; done|wire_lia].
    apply WriteWords_ok in H2 as (Hw & Hu2 & Hm2 & _);
      [|destruct Hs1 as [-> _]; rewrite cleared_length; done|wire_lia|lia|wire_lia].
    unfold fits. split_and!; (done || lia).
  - intros [Hb Hf]. by apply Serialize_total.
Qed.

(** ** Reading text back *)

Definition no_newline (s : u16string) : Prop := Forall (fun c => c <> newline) s.

Lemma ScanRows_row row us cur k :
  no_newline row -> ScanRows (row ++ us) cur k = ScanRows us (cur ++ row) k.
Proof.
  intros Hn. revert cur. induction Hn as [|c row Hc _ IH]; intros cur; simpl.
  - by rewrite app_nil_r.
  - rewrite (proj2 (Z.eqb_neq c newline) Hc). rewrite IH, <- app_assoc. done.
Qed.

Lemma row_ok_nonempty r : row_ok r -> r <> [].
Proof. intros [_ H] ->. unfold CountUnicodeScalars in H. simpl in H. wire_lia. Qed.

Lemma rows_ok_nonempty rows : Forall row_ok rows -> Forall (fun r => r <> []) rows.
Proof. induction 1; constructor; [by apply row_ok_nonempty|done]. Qed.

Lemma ScanRows_terminated rows k :
  Forall row_ok rows -> Forall no_newline rows ->
  ScanRows (terminated rows) [] k = Ok (k + Z.of_nat (length rows)).
Proof.
  intros Hr. revert k. induction Hr as [|r rows Hr _ IH]; intros k Hn; [simpl; f_equal; lia|].
  inversion Hn as [|? ? Hnr Hns]; subst. rewrite terminated_cons, ScanRows_row by done.
  cbn [ScanRows app]. rewrite Z.eqb_refl, bool_decide_eq_false_2 by (by apply row_ok_nonempty). destruct Hr as [-> Hc].
  destruct (_ || _) eqn:E; [bool_hyps; lia|]. rewrite IH by done. f_equal. cbn [length]. lia.
Qed.

Lemma ExtractRows_row row us cur :
  no_newline row -> ExtractRows (row ++ us) cur = ExtractRows us (cur ++ row).
Proof.
  intros Hn. revert cur. induction Hn as [|c row Hc _ IH]; intros cur; simpl.
  - by rewrite app_nil_r.
  - rewrite (proj2 (Z.eqb_neq c newline) Hc). rewrite IH, <- app_assoc. done.
Qed.

Lemma ExtractRows_terminated rows :
  Forall (fun r => r <> []) rows -> Forall no_newline rows ->
  ExtractRows (terminated rows) [] = rows.
Proof.
  induction 1 as [|r rows Hr _ IH]; intros Hn; [done|].
  inversion Hn as [|? ? Hnr Hns]; subst. rewrite terminated_cons, ExtractRows_row by done.
  cbn [ExtractRows app]. rewrite Z.eqb_refl, bool_decide_eq_false_2 by done. by rewrite IH.
Qed.

(** ** Reading the index back *)

Definition entry_typed (e : DictWordEntryWire) : Prop :=
  0 <= en_offsetUnits e < 2 ^ 32 /\ 0 <= en_lengthUtf16Units e < 2 ^ 16 /\
  0 <= en_scalarCount e < 2 ^ 16.

Lemma load_entry_slice buf i e :
  0 <= i -> entry_typed e -> slice buf (index_offset i) 8 = entry_bytes e ->
  load_entry buf i = e.
Proof.
  intros Hi (H1 & H2 & H3) Hs. unfold load_entry, rd32, rd16.
  assert (Hf : forall a n, 0 <= a -> 0 <= n -> a + n <= 8 ->
    slice buf (index_offset i + a) n = slice (entry_bytes e) a n).
  { intros a n ? ? ?. rewrite <- Hs. symmetry. apply slice_slice; try done.
    unfold index_offset. wire_lia. }
  rewrite <- (Z.add_0_r (index_offset i)) at 1. rewrite !Hf by lia.
  destruct e as [a b c]; simpl in *. f_equal; first [by apply le32|by apply le16].
Qed.

Lemma entries_bytes_slice es k e :
  es !! k = Some e -> slice (entries_bytes es) (8 * Z.of_nat k) 8 = entry_bytes e.
Proof.
  revert es. induction k as [|k IH]; intros [|x es] H; try done.
  - injection H as ->. unfold entries_bytes. rewrite bind_cons. apply slice_cat_here.
    by rewrite entry_bytes_length.
  - change (es !! k = Some e) in H. unfold entries_bytes. rewrite bind_cons, slice_cat by (rewrite entry_bytes_length; lia).
    rewrite entry_bytes_length. rewrite <- (IH es) by done. f_equal. lia.
Qed.

Lemma dict_entries_lookup words off k w :
  words !! k = Some w ->
  dict_entries off words !! k =
  Some (mkEntry (off + size (terminated (take k words))) (size w) (CountUnicodeScalars w)).
Proof.
  revert off k. induction words as [|x words IH]; intros off [|k] H; try done.
  - injection H as ->. change (size (terminated (take 0 (w :: words)))) with 0.
    by rewrite Z.add_0_r.
  - change (words !! k = Some w) in H. cbn [dict_entries take].
    rewrite lookup_cons. rewrite IH by done. rewrite size_cons_terminated. do 2 f_equal; lia.
Qed.

(** The word of an entry is found where the pool holds it. *)
Lemma terminated_slice words k w :
  words !! k = Some w ->
  slice (terminated words) (size (terminated (take k words))) (size w + 1) = w ++ [newline].
Proof.
  intros H. rewrite <- (take_drop_middle words k w H) at 1.
  rewrite terminated_app, terminated_cons.
  rewrite slice_cat by (unfold size; lia). unfold size at 1. rewrite Z.sub_diag.
  change (w ++ newline :: ?x) with (w ++ [newline] ++ x). rewrite app_assoc.
  apply slice_cat_here. rewrite length_app. unfold size. simpl. lia.
Qed.

(** ** The sorted dictionary *)

Definition word_lt (a b : u16string) : Prop := CompareUtf16ByUnicodeScalar a b < 0.
Definition words_u16 (l : list u16string) : Prop := Forall (Forall is_u16) l.

Lemma Compare_opp a b : CompareUtf16ByUnicodeScalar b a = - CompareUtf16ByUnicodeScalar a b.
Proof. rewrite !CompareUtf16_scalars. apply lex_compare_opp. Qed.

Lemma not_after_word a b : not_after word_less a b <-> CompareUtf16ByUnicodeScalar a b <= 0.
Proof. unfold not_after, word_less. rewrite Compare_opp. lia. Qed.

Lemma word_less_asym a b : word_less a b = true -> word_less b a = false.
Proof. unfold word_less. rewrite (Compare_opp a b). lia. Qed.

Lemma not_after_word_trans a b c :
  not_after word_less a b -> not_after word_less b c -> not_after word_less a c.
Proof. rewrite !not_after_word, !CompareUtf16_scalars. apply lex_compare_trans. Qed.

Lemma sorted_words l : StronglySorted (not_after word_less) (stable_sort word_less l).
Proof.
  apply (sort_ordered word_less (fun _ => True)); [..|by apply Forall_true].
  - intros a b _ _. apply word_less_asym.
  - intros a b c _ _ _. apply not_after_word_trans.
Qed.

Lemma unique_from_spec l : forall kept,
  words_u16 (kept :: l) -> StronglySorted (not_after word_less) (kept :: l) ->
  StronglySorted word_lt (kept :: unique_from kept l) /\
  forall w, w ∈ kept :: unique_from kept l <-> w ∈ kept :: l.
Proof.
  induction l as [|x l IH]; intros kept Hu Hs; simpl; [split; [repeat constructor|done]|].
  inversion Hu as [|? ? Hk Hu']; subst. inversion Hu' as [|? ? Hx Hu'']; subst.
  inversion Hs as [|? ? Hs' Hall]; subst. inversion Hall as [|? ? Hkx Hkl]; subst.
  destruct (Z.eqb_spec (CompareUtf16ByUnicodeScalar kept x) 0) as [E|E].
  - apply Compare_zero_eq in E as <-; [|done..].
    destruct (IH kept) as [S1 S2]; [by constructor|done|]. split; [done|].
    intros w. rewrite S2, !elem_of_cons. tauto.
  - destruct (IH x) as [S1 S2]; [done..|].
    split; [|intros w; rewrite elem_of_cons, S2, !elem_of_cons; tauto].
    constructor; [done|]. apply Forall_forall. intros w Hw.
    assert (Hw' : w ∈ x :: l) by (apply S2; by apply list_elem_of_In || done).
    apply not_after_word in Hkx.
    assert (Hxw : CompareUtf16ByUnicodeScalar x w <= 0).
    { apply elem_of_cons in Hw' as [->|Hw'].
      - rewrite CompareUtf16_scalars, lex_compare_refl. lia.
      - inversion Hs' as [|? ? _ Hxl]; subst. rewrite Forall_forall in Hxl.
        apply not_after_word, Hxl. by apply list_elem_of_In || done. }
    unfold word_lt. rewrite !CompareUtf16_scalars in *.
    pose proof (lex_compare_trans _ _ _ Hkx Hxw).
    destruct (Z.eq_dec (lex_compare (scalars kept) (scalars w)) 0) as [E0|]; [|lia].
    apply lex_compare_eq in E0. rewrite <- E0 in Hxw. rewrite lex_compare_opp in Hxw. lia.
Qed.

(** The words written: strictly increasing, and the same words as given. *)
Lemma sortedWords_spec words :
  words_u16 words ->
  StronglySorted word_lt (sortedWords words) /\
  forall w, w ∈ sortedWords words <-> w ∈ words.
Proof.
  intros Hu. unfold sortedWords. pose proof (sort_perm word_less words) as Hp.
  pose proof (sorted_words words) as Hs.
  assert (Hu' : words_u16 (stable_sort word_less words)) by (unfold words_u16; by rewrite Hp).
  destruct (stable_sort word_less words) as [|w l]; simpl in *.
  - split; [constructor|]. intros w. by rewrite <- Hp.
  - destruct (unique_from_spec l w Hu' Hs) as [S1 S2]. split; [done|].
    intros v. by rewrite S2, Hp.
Qed.

(** ** The checks on what was written *)

Section Written.
Context (buf : list Z) (words : list u16string).
Let text := terminated words.
Let U := size text.
Context (Hpool : slice buf USER_DICT_POOL_OFFSET (2 * U) = units_bytes text).
Context (Hentries : forall k e, dict_entries 0 words !! k = Some e -> load_entry buf (Z.of_nat k) = e).
Context (Hu16 : words_u16 words).

Lemma text_u16 : Forall is_u16 text.
Proof.
  unfold text. clear Hpool Hentries U text.
  induction words as [|w l IH]; [constructor|]. inversion Hu16; subst. rewrite terminated_cons.
  apply Forall_app. split; [done|].
  constructor; [unfold is_u16, newline; lia|by apply IH].
Qed.

Lemma pool_read a n :
  0 <= a -> 0 <= n -> a + n <= U ->
  slice buf (pool_offset a) (2 * n) = units_bytes (slice text a n).
Proof.
  intros. unfold pool_offset. rewrite <- (slice_slice buf _ (2 * U)) by (wire_lia || lia).
  rewrite Hpool. by apply units_bytes_slice.
Qed.

Lemma pool_units a n :
  0 <= a -> 0 <= n -> a + n <= U -> rd_units buf (pool_offset a) n = slice text a n.
Proof.
  intros. unfold rd_units. rewrite pool_read by done. apply units_of_bytes.
  unfold slice. apply Forall_take, Forall_drop, text_u16.
Qed.

Definition entry_at (k : nat) (w : u16string) : DictWordEntryWire :=
  mkEntry (size (terminated (take k words))) (size w) (CountUnicodeScalars w).

Lemma load_word k w : words !! k = Some w -> load_entry buf (Z.of_nat k) = entry_at k w.
Proof. intros H. apply Hentries. by rewrite (dict_entries_lookup _ _ _ _ H), Z.add_0_l. Qed.

Lemma offset_bound k w :
  words !! k = Some w -> size (terminated (take k words)) + size w + 1 <= U.
Proof.
  intros H. unfold U, text. rewrite <- (take_drop_middle words k w H) at 2.
  rewrite terminated_app. unfold size at 3. rewrite length_app.
  pose proof (size_cons_terminated w (drop (S k) words)) as E. unfold size in *. lia.
Qed.

Lemma entry_word_at k w : words !! k = Some w -> entry_word buf (entry_at k w) = w.
Proof.
  intros H. pose proof (offset_bound k w H). pose proof (size_nonneg w).
  pose proof (size_nonneg (terminated (take k words))).
  unfold entry_word, entry_at; simpl. rewrite pool_units by lia.
  pose proof (terminated_slice words k w H) as Ht.
  rewrite <- (Z.add_0_r (size _)). rewrite <- (slice_slice _ _ (size w + 1)) by lia.
  unfold text. rewrite Ht. by apply slice_cat_here.
Qed.

Lemma CheckEntry_ok k w :
  words !! k = Some w -> word_ok w -> CheckEntry buf U (entry_at k w) = Ok w.
Proof.
  intros H (Hs & Hc & Hl). pose proof (offset_bound k w H). pose proof (size_nonneg w).
  pose proof (size_nonneg (terminated (take k words))).
  unfold CheckEntry. rewrite entry_word_at by done. unfold entry_at; simpl.
  destruct (_ || _) eqn:E1; [bool_hyps; lia|].
  assert (Hn : rd16 buf (pool_offset (size (terminated (take k words)) + size w)) = newline).
  { unfold rd16. rewrite (pool_read _ 1) by lia.
    pose proof (terminated_slice words k w H) as Ht.
    rewrite <- (slice_slice _ _ (size w + 1)) by lia. unfold text. rewrite Ht.
    rewrite slice_cat by (unfold size; lia). unfold size. rewrite Z.sub_diag. reflexivity. }
  rewrite Hn, Z.eqb_refl. simpl.
  assert (1 <= size w).
  { unfold size. destruct w; [|simpl; lia]. unfold CountUnicodeScalars in Hc. simpl in Hc. wire_lia. }
  destruct (_ || _) eqn:E2; [bool_hyps; lia|]. clear E2.
  destruct (_ || _) eqn:E3; [bool_hyps; lia|]. clear E3.
  destruct (_ || _) eqn:E4; [bool_hyps; lia|]. rewrite Hs, Z.eqb_refl. done.
Qed.

Lemma CheckEntries_ok todo : forall k prev,
  (k + todo = length words)%nat -> Forall word_ok words -> StronglySorted word_lt words ->
  (0 < k -> words !! (k - 1)%nat = Some prev)%nat ->
  CheckEntries buf U todo (Z.of_nat k) prev = Ok tt.
Proof.
  induction todo as [|todo IH]; intros k prev Hk Hok Hs Hprev; [done|].
  destruct (lookup_lt_is_Some_2 words k) as [w Hw]; [lia|]. cbn [CheckEntries].
  rewrite (load_word k w), CheckEntry_ok by (try done; by eapply Forall_lookup_1).
  assert ((0 <? Z.of_nat k) && (0 <=? CompareUtf16ByUnicodeScalar prev w) = false) as ->.
  { destruct k as [|k]; [done|]. apply andb_false_iff. right. apply Z.leb_gt.
    specialize (Hprev ltac:(lia)). replace (S k - 1)%nat with k in Hprev by lia.
    apply (StronglySorted_lookup word_lt words k (S k)); done || lia. }
  replace (Z.of_nat k + 1) with (Z.of_nat (S k)) by lia. apply IH; try done; [lia|].
  intros _. by replace (S k - 1)%nat with k by lia.
Qed.

Lemma entries_words : entry_word buf <$> entries buf (Z.of_nat (length words)) = words.
Proof.
  unfold entries. rewrite Nat2Z.id. apply list_eq. intros k. rewrite !list_lookup_fmap.
  destruct (words !! k) as [w|] eqn:E.
  - rewrite lookup_seq_lt by (by eapply lookup_lt_Some). simpl.
    by rewrite (load_word k w), entry_word_at.
  - rewrite lookup_seq_ge; [done|]. by apply lookup_ge_None.
Qed.

End Written.

(** ** Round trip *)

Definition params_u16 (p : LexiconWireSerializeParams) : Prop :=
  words_u16 (spellExclusions p) /\ words_u16 (userDictionary p) /\ 0 <= generation p < 2 ^ 64.

Lemma sortedWords_u16 words : words_u16 words -> words_u16 (sortedWords words).
Proof.
  intros H. unfold words_u16 in *. rewrite Forall_forall in *. intros w Hw.
  apply H. rewrite <- list_elem_of_In in *. by apply (sortedWords_spec words); [apply Forall_forall|].
Qed.

Lemma wire_header_typed p u1 n u2 crc :
  0 <= generation p < 2 ^ 64 -> Z.of_nat (length (spellExclusions p)) <= MAX_EXCLUSIONS_ROWS ->
  0 <= u1 <= MAX_EXCLUSIONS_UTF16_UNITS -> 0 <= n <= MAX_USER_DICT_WORDS ->
  0 <= u2 <= MAX_USER_DICT_UTF16_UNITS -> is_u32 crc ->
  header_typed (wire_header p u1 n u2 crc).
Proof.
  intros Hg Hr H1 Hn H2 Hc. unfold is_u32 in Hc.
  unfold header_typed, wire_header; cbn -[Z.pow Z.lor].
  unfold WIRE_MAGIC, CURRENT_WIRE_ABI_VERSION. autounfold with wire in *.
  change (2 ^ 16) with 65536. change (2 ^ 32) with 4294967296 in *.
  assert (0 <= Z.lor (Z.lor (if spellSuggestEnabled p then SPELL_SUGGEST_ENABLED else 0)
    DICTIONARY_VALID) EXCLUSIONS_VALID < 4294967296) 
    by (destruct (spellSuggestEnabled p); vm_compute; split; congruence).
  repeat (split; [lia|]). lia.
Qed.

(** The final buffer of a run: its header, its regions, its checksum. *)
Record written (p : LexiconWireSerializeParams) (out : list Z) (u1 u2 : Z) : Prop := {
  wr_len : WIRE_TOTAL_SIZE <= Z.of_nat (length out);
  wr_rows_max : Z.of_nat (length (spellExclusions p)) <= MAX_EXCLUSIONS_ROWS;
  wr_rows : Forall row_ok (spellExclusions p);
  wr_u1 : u1 = size (terminated (spellExclusions p)) /\ u1 <= MAX_EXCLUSIONS_UTF16_UNITS;
  wr_words_max : Z.of_nat (length (sortedWords (userDictionary p))) <= MAX_USER_DICT_WORDS;
  wr_words : Forall word_ok (sortedWords (userDictionary p));
  wr_u2 : u2 = size (terminated (sortedWords (userDictionary p))) /\
          u2 <= MAX_USER_DICT_UTF16_UNITS;
  wr_header : exists crc,
    load_header out =
      wire_header p u1 (Z.of_nat (length (sortedWords (userDictionary p)))) u2 crc /\
    ComputeCrc32 (payload out (load_header out)) = crc;
  wr_excl : slice out EXCLUSIONS_REGION_OFFSET (2 * u1) =
    units_bytes (terminated (spellExclusions p));
  wr_pool : slice out USER_DICT_POOL_OFFSET (2 * u2) =
    units_bytes (terminated (sortedWords (userDictionary p)));
  wr_index : forall k e, dict_entries 0 (sortedWords (userDictionary p)) !! k = Some e ->
    load_entry out (Z.of_nat k) = e
}.

Lemma dict_entries_typed words k w :
  Forall word_ok words -> size (terminated words) <= MAX_USER_DICT_UTF16_UNITS ->
  words !! k = Some w -> entry_typed (entry_at words k w).
Proof.
  intros Hok Hu H. pose proof (Forall_lookup_1 _ _ _ _ Hok H) as (_ & Hc & Hs).
  pose proof (offset_bound words k w H). pose proof (size_nonneg w).
  pose proof (size_nonneg (terminated (take k words))).
  unfold entry_typed, entry_at; simpl. change (2 ^ 16) with 65536.
  change (2 ^ 32) with 4294967296. wire_lia.
Qed.

Lemma header_outside buf h : 72 <= Z.of_nat (length buf) ->
  same_outside 0 WIRE_HEADER_SIZE buf (store_header buf h).
Proof.
  intros Hl. split; [apply wr_bytes_length; rewrite header_bytes_length; lia|].
  intros o n ? ? ?. destruct (Z.eq_dec n 0) as [->|]; [done|].
  apply slice_wr_after; rewrite ?header_bytes_length; wire_lia.
Qed.

Lemma index_entries buf words units k e :
  0 <= units ->
  slice buf USER_DICT_INDEX_OFFSET (8 * Z.of_nat (length words)) =
    entries_bytes (dict_entries units words) ->
  dict_entries units words !! k = Some e -> entry_typed e -> load_entry buf (Z.of_nat k) = e.
Proof.
  intros Hu Hs He Ht. apply load_entry_slice; [lia|done|].
  pose proof (lookup_lt_Some _ _ _ He) as Hk. rewrite dict_entries_length in Hk.
  rewrite <- (entries_bytes_slice _ _ _ He), <- Hs. symmetry.
  unfold index_offset. apply slice_slice; wire_lia.
Qed.

Lemma Serialize_written p buf out :
  params_u16 p -> Serialize p (Some buf) = Ok out -> exists u1 u2, written p out u1 u2.
Proof.
  intros (_ & _ & Hg) H.
  destruct (Serialize_stages _ _ _ H) as (Hb & Hr & Hn & b1 & u1 & b2 & u2 & H1 & H2 & ->).
  apply WriteExclusions_ok in H1 as (Hrow & Hu1 & Hm1 & [L1 S1] & E1);
    [|rewrite cleared_length; done|wire_lia].
  rewrite cleared_length in L1 by done.
  apply WriteWords_ok in H2 as (Hw & Hu2 & Hm2 & [L2 S2] & E2 & E3);
    [|rewrite L1; done|wire_lia|lia|wire_lia].
  rewrite Z.add_0_l in *. set (words := sortedWords (userDictionary p)) in *.
  pose proof (size_nonneg (terminated (spellExclusions p))).
  pose proof (size_nonneg (terminated words)).
  set (h := wire_header p u1 (Z.of_nat (length words)) u2).
  set (b3 := store_header b2 (h 0)). set (crc := ComputeCrc32 (payload b3 (h 0))).
  destruct (header_outside b2 (h 0)) as [L3 S3]; [wire_lia|]. fold b3 in L3, S3.
  destruct (header_outside b3 (h crc)) as [L4 S4]; [wire_lia|].
  assert (Hkeep : forall o n, WIRE_HEADER_SIZE <= o -> 0 <= n ->
    slice (store_header b3 (h crc)) o n = slice b2 o n).
  { intros o n ? ?. rewrite S4, S3; wire_lia || done. }
  exists u1, u2. split; try done.
  - rewrite L4, L3, L2, L1. done.
  - exists crc. assert (Hh : load_header (store_header b3 (h crc)) = h crc).
    { apply load_store_header, wire_header_typed;
        [done|done|lia|lia|lia|apply ComputeCrc32_u32]. }
    split; [done|]. rewrite Hh. 
    unfold crc at 2. apply (f_equal ComputeCrc32). unfold payload. simpl hd_payloadOffsetBytes.
    simpl hd_payloadSizeBytes. apply S4; wire_lia.
  - rewrite Hkeep, S2, E1 by wire_lia. done.
  - rewrite Hkeep, E3 by wire_lia. done.
  - intros k e He. pose proof He as He'. destruct (words !! k) as [w|] eqn:Ew.
    + rewrite (dict_entries_lookup _ _ _ _ Ew), Z.add_0_l in He'. injection He' as <-.
      apply (index_entries _ words 0); [lia| |done|
        apply (dict_entries_typed words k w); [done|lia|done]].
      rewrite Hkeep by wire_lia. rewrite E2. done.
    + apply lookup_ge_None in Ew. apply lookup_lt_Some in He. rewrite dict_entries_length in He.
      fold words in He. lia.
Qed.

Section RoundTrip.
Context (p : LexiconWireSerializeParams) (out : list Z) (u1 u2 : Z).
Context (W : written p out u1 u2) (Hp : params_u16 p).
Context (Hn : Forall no_newline (spellExclusions p)).

Lemma written_CheckHeader : CheckHeader (load_header out) = Ok tt.
Proof.
  destruct (wr_header _ _ _ _ W) as (crc & -> & _).
  destruct (wr_u1 _ _ _ _ W) as [E1 ?], (wr_u2 _ _ _ _ W) as [E2 ?].
  pose proof (wr_rows_max _ _ _ _ W). pose proof (wr_words_max _ _ _ _ W).
  pose proof (size_nonneg (terminated (spellExclusions p))).
  pose proof (size_nonneg (terminated (sortedWords (userDictionary p)))).
  unfold CheckHeader. cbn -[Z.ltb Z.mul Z.add Z.sub].
  rewrite !Z.eqb_refl. cbn -[Z.ltb Z.mul Z.add Z.sub].
  repeat match goal with
  | |- context [Z.ltb ?a ?b] => destruct (Z.ltb_spec a b); [wire_lia|]
  end. done.
Qed.

Lemma written_exclusions :
  rd_units out (hd_exclusionsOffsetBytes (load_header out))
    (hd_exclusionsUtf16Units (load_header out)) = terminated (spellExclusions p).
Proof.
  destruct (wr_header _ _ _ _ W) as (crc & -> & _). cbn -[Z.mul].
  unfold rd_units. rewrite (wr_excl _ _ _ _ W). apply units_of_bytes.
  apply (text_u16 (spellExclusions p)). apply Hp.
Qed.

Lemma written_CheckExclusions : CheckExclusions out (load_header out) = Ok tt.
Proof.
  unfold CheckExclusions. rewrite written_exclusions.
  rewrite ScanRows_terminated by (done || apply (wr_rows _ _ _ _ W)).
  destruct (wr_header _ _ _ _ W) as (crc & -> & _). cbn [hd_exclusionsRowCount wire_header].
  rewrite Z.add_0_l, Z.eqb_refl. by case_match.
Qed.

Lemma written_pool :
  slice out USER_DICT_POOL_OFFSET (2 * size (terminated (sortedWords (userDictionary p)))) =
  units_bytes (terminated (sortedWords (userDictionary p))).
Proof. destruct (wr_u2 _ _ _ _ W) as [E2 _]. rewrite <- E2. apply (wr_pool _ _ _ _ W). Qed.

Lemma written_Validate :
  ValidateAndInspect (Some out) =
  Ok (mkView (load_header out) u1 (Z.of_nat (length (spellExclusions p))) u2
        (Z.of_nat (length (sortedWords (userDictionary p))))).
Proof.
  unfold ValidateAndInspect. destruct (Z.ltb_spec (Z.of_nat (length out)) WIRE_TOTAL_SIZE).
  { pose proof (wr_len _ _ _ _ W). lia. }
  rewrite written_CheckHeader, written_CheckExclusions.
  destruct (wr_header _ _ _ _ W) as (crc & Eh & Ec). rewrite Ec, Eh.
  cbn [hd_crc32 hd_userDictUtf16Units hd_userDictWordCount hd_exclusionsUtf16Units
       hd_exclusionsRowCount wire_header]. rewrite Z.eqb_refl, Nat2Z.id. cbn [negb].
  destruct Hp as (_ & Hd & _). destruct (wr_u2 _ _ _ _ W) as [E2 _]. rewrite E2 at 1.
  rewrite (CheckEntries_ok out (sortedWords (userDictionary p)) written_pool
    (wr_index _ _ _ _ W) (sortedWords_u16 _ Hd) _ 0 []).
  - done.
  - done.
  - apply (wr_words _ _ _ _ W).
  - by apply sortedWords_spec.
  - lia.
Qed.

Lemma written_Deserialize :
  Deserialize (Some out) =
  Ok (mkContents (spellExclusions p) (sortedWords (userDictionary p))
        (generation p) (spellSuggestEnabled p)).
Proof.
  unfold Deserialize. rewrite written_Validate. change (default [] (Some out)) with out.
  cbn [vw_header vw_exclusionsUnits vw_wordCount].
  pose proof written_exclusions as Ex. destruct (wr_header _ _ _ _ W) as (crc & Eh & Ec).
  rewrite Eh in *. cbn [hd_exclusionsUtf16Units wire_header] in Ex. rewrite Ex.
  destruct Hp as (_ & Hd & _).
  rewrite (entries_words out _ written_pool (wr_index _ _ _ _ W) (sortedWords_u16 _ Hd)).
  rewrite ExtractRows_terminated by (try done; apply rows_ok_nonempty, (wr_rows _ _ _ _ W)).
  f_equal. unfold wire_header. cbn [hd_generation hd_flags]. f_equal. by destruct (spellSuggestEnabled p).
Qed.

End RoundTrip.

(** C20. A block that was serialised is accepted and read back: the exclusion
    rows in their order, the dictionary sorted by code points without
    duplicates and with exactly the given words, the generation and the flag,
    provided no exclusion row contains a line break. *)
Theorem Deserialize_Serialize p buf out :
  params_u16 p -> Forall no_newline (spellExclusions p) ->
  Serialize p (Some buf) = Ok out ->
  Deserialize (Some out) =
    Ok (mkContents (spellExclusions p) (sortedWords (userDictionary p))
          (generation p) (spellSuggestEnabled p)) /\
  StronglySorted word_lt (sortedWords (userDictionary p)) /\
  (forall w, w ∈ sortedWords (userDictionary p) <-> w ∈ userDictionary p).
Proof.
  intros Hp Hn H. destruct (Serialize_written p buf out Hp H) as (u1 & u2 & W).
  split; [by apply (written_Deserialize p out u1 u2)|]. apply sortedWords_spec, Hp.
Qed.

(** The contract is decidable by evaluation. *)
Definition fits_b (p : LexiconWireSerializeParams) : bool :=
  let ok (lo hi : Z) s := negb (HasInvalidSurrogates s) &&
    (lo <=? CountUnicodeScalars s) && (CountUnicodeScalars s <=? hi) in
  (Z.of_nat (length (spellExclusions p)) <=? MAX_EXCLUSIONS_ROWS) &&
  forallb (ok MIN_EXCLUSION_SCALARS MAX_EXCLUSION_SCALARS) (spellExclusions p) &&
  (size (terminated (spellExclusions p)) <=? MAX_EXCLUSIONS_UTF16_UNITS) &&
  (let words := sortedWords (userDictionary p) in
   (Z.of_nat (length words) <=? MAX_USER_DICT_WORDS) &&
   forallb (fun w => ok MIN_DICT_WORD_SCALARS MAX_DICT_WORD_SCALARS w &&
                     (size w <=? MAX_DICT_WORD_UTF16_UNITS)) words &&
   (size (terminated words) <=? MAX_USER_DICT_UTF16_UNITS)).

Lemma fits_b_sound p : fits_b p = true -> fits p.
Proof.
  unfold fits_b, fits. rewrite !andb_true_iff. intros [[[H1 H2] H3] [[H4 H5] H6]].
  apply forallb_Forall_true in H2, H5. split_and!; try lia.
  - eapply List.Forall_impl; [|exact H2]. intros r Hr. simpl in Hr. bool_hyps.
    split; [done|lia].
  - eapply List.Forall_impl; [|exact H5]. intros w Hw. simpl in Hw. bool_hyps.
    split; [done|lia].
Qed.

Definition sample : LexiconWireSerializeParams :=
  mkParams [[L "a"; L "b"]; [0x1EBF; L "b"; L "c"]]
           [[L "z"]; [L "a"; 0x1EBF]; [L "z"]; [0xD83D; 0xDE00]; [0xFF5E]] 42 true.

Lemma Serialize_succeeds_iff_witness :
  fits sample /\ exists out, Serialize sample (Some (replicate (Z.to_nat WIRE_TOTAL_SIZE) 0)) = Ok out.
Proof.
  assert (Hf : fits sample) by (apply fits_b_sound; vm_compute; reflexivity).
  split; [exact Hf|]. apply Serialize_succeeds_iff. split; [|exact Hf].
  rewrite length_replicate. wire_lia.
Defined.

Lemma Deserialize_Serialize_witness :
  exists out, Serialize sample (Some (replicate (Z.to_nat WIRE_TOTAL_SIZE) 0)) = Ok out /\
  Deserialize (Some out) =
    Ok (mkContents (spellExclusions sample)
          [[L "a"; 0x1EBF]; [L "z"]; [0xFF5E]; [0xD83D; 0xDE00]] 42 true).
Proof.
  destruct (Serialize_total sample (replicate (Z.to_nat WIRE_TOTAL_SIZE) 0)) as [out E].
  - rewrite length_replicate. wire_lia.
  - apply fits_b_sound. vm_compute. reflexivity.
  - exists out. split; [exact E|].
    destruct (Deserialize_Serialize sample (replicate (Z.to_nat WIRE_TOTAL_SIZE) 0) out)
      as [D _]; [| |exact E|].
    + unfold params_u16, words_u16, is_u16.
      split; [|split]; [repeat constructor; lia|repeat constructor; lia|simpl; lia].
    + repeat constructor; discriminate.
    + rewrite D. vm_compute. reflexivity.
Defined.

(** ** What an accepted block promises *)

Instance word_lt_trans : Transitive word_lt.
Proof.
  intros a b c. unfold word_lt. rewrite !CompareUtf16_scalars. intros H1 H2.
  pose proof (lex_compare_trans _ _ _ (Z.lt_le_incl _ _ H1) (Z.lt_le_incl _ _ H2)).
  destruct (Z.eq_dec (lex_compare (scalars a) (scalars c)) 0) as [E|]; [|lia].
  apply lex_compare_eq in E. rewrite <- E in H2. rewrite lex_compare_opp in H2. lia.
Qed.

(** The text of an entry lies in the pool, ends with its newline, and is a word. *)
Definition entry_sound (buf : list Z) (poolUnits : Z) (e : DictWordEntryWire) : Prop :=
  en_offsetUnits e + en_lengthUtf16Units e < poolUnits /\
  rd16 buf (pool_offset (en_offsetUnits e + en_lengthUtf16Units e)) = newline /\
  1 <= en_lengthUtf16Units e <= MAX_DICT_WORD_UTF16_UNITS /\
  HasInvalidSurrogates (entry_word buf e) = false /\
  CountUnicodeScalars (entry_word buf e) = en_scalarCount e /\
  MIN_DICT_WORD_SCALARS <= en_scalarCount e <= MAX_DICT_WORD_SCALARS.

Lemma CheckEntry_sound buf U e w :
  CheckEntry buf U e = Ok w -> w = entry_word buf e /\ entry_sound buf U e.
Proof.
  unfold CheckEntry, entry_sound.
  repeat case_match; try done. intros [= <-]. bool_hyps. split_and!; (done || lia).
Qed.

(** The entries from the [i]th on are sound and strictly increasing. *)
Lemma CheckEntries_sound buf U todo : forall i prev,
  0 <= i -> CheckEntries buf U todo i prev = Ok tt ->
  let es := (fun k => load_entry buf (i + Z.of_nat k)) <$> seq 0 todo in
  Forall (entry_sound buf U) es /\
  Sorted word_lt ((if 0 <? i then [prev] else []) ++ (entry_word buf <$> es)).
Proof.
  induction todo as [|todo IH]; intros i prev Hi H; cbn [CheckEntries] in H.
  { simpl. split; [constructor|]. case_match; repeat constructor. }
  destruct (CheckEntry buf U (load_entry buf i)) as [w|] eqn:Ew; [|done].
  apply CheckEntry_sound in Ew as [-> He].
  destruct ((0 <? i) && _) eqn:Ec; [done|].
  assert (Hi' : 0 <= i + 1) by lia. destruct (IH _ _ Hi' H) as [H1 H2]. cbv zeta.
  assert (Ei : (0 <? i + 1) = true) by lia. rewrite Ei in H2.
  change (seq 0 (S todo)) with (0%nat :: seq 1 todo). rewrite <- fmap_S_seq. rewrite fmap_cons, Z.add_0_r.
  assert (Es : (fun k => load_entry buf (i + Z.of_nat k)) <$> (S <$> seq 0 todo) =
               (fun k => load_entry buf (i + 1 + Z.of_nat k)) <$> seq 0 todo).
  { rewrite <- list_fmap_compose. apply list_fmap_ext. intros n k Hk. simpl. f_equal. lia. }
  rewrite Es. split; [by constructor|]. rewrite fmap_cons. destruct (0 <? i); [|done].
  constructor; [done|]. constructor. unfold word_lt. simpl in Ec. lia.
Qed.

Lemma CheckHeader_sound h :
  CheckHeader h = Ok tt ->
  hd_payloadOffsetBytes h = WIRE_HEADER_SIZE /\
  hd_payloadSizeBytes h = (USER_DICT_POOL_OFFSET - WIRE_HEADER_SIZE) + 2 * hd_userDictUtf16Units h /\
  hd_exclusionsOffsetBytes h = EXCLUSIONS_REGION_OFFSET /\
  hd_exclusionsUtf16Units h <= MAX_EXCLUSIONS_UTF16_UNITS /\
  hd_exclusionsRowCount h <= MAX_EXCLUSIONS_ROWS /\
  hd_userDictWordCount h <= MAX_USER_DICT_WORDS /\
  hd_userDictUtf16Units h <= MAX_USER_DICT_UTF16_UNITS.
Proof.
  unfold CheckHeader. repeat case_match; try done. intros _. bool_hyps. wire_lia.
Qed.

Lemma Validate_inv buf view :
  ValidateAndInspect (Some buf) = Ok view ->
  let h := load_header buf in
  WIRE_TOTAL_SIZE <= Z.of_nat (length buf) /\ CheckHeader h = Ok tt /\
  ComputeCrc32 (payload buf h) = hd_crc32 h /\ CheckExclusions buf h = Ok tt /\
  CheckEntries buf (hd_userDictUtf16Units h) (Z.to_nat (hd_userDictWordCount h)) 0 [] = Ok tt /\
  view = mkView h (hd_exclusionsUtf16Units h) (hd_exclusionsRowCount h)
           (hd_userDictUtf16Units h) (hd_userDictWordCount h).
Proof.
  unfold ValidateAndInspect. set (h := load_header buf).
  destruct (Z.ltb_spec (Z.of_nat (length buf)) WIRE_TOTAL_SIZE); [done|].
  destruct (CheckHeader h) as [[]|] eqn:E1; [|done].
  destruct (Z.eqb_spec (ComputeCrc32 (payload buf h)) (hd_crc32 h)); [|done]. cbn [negb].
  destruct (CheckExclusions buf h) as [[]|] eqn:E2; [|done].
  destruct (CheckEntries _ _ _ _ _) as [[]|] eqn:E3; [|done]. by intros [= <-].
Qed.

Lemma entries_from buf n : entries buf n = (fun k => load_entry buf (0 + Z.of_nat k)) <$> seq 0 (Z.to_nat n).
Proof. apply list_fmap_ext. intros i k Hk. by rewrite Z.add_0_l. Qed.

(** C34. An accepted block, whatever bytes it is made of, can be read without
    leaving it: the exclusion text ends before the index, the index before the
    pool and the pool inside the 144 KiB; every index entry names well-formed,
    newline-terminated text inside the pool, with its true code-point count; the
    words are strictly increasing; and the checksum is right. *)
Theorem ValidateAndInspect_sound buf view :
  ValidateAndInspect (Some buf) = Ok view ->
  let h := vw_header view in
  excl_offset (vw_exclusionsUnits view) <= USER_DICT_INDEX_OFFSET /\
  vw_exclusionsRowCount view <= MAX_EXCLUSIONS_ROWS /\
  index_offset (vw_wordCount view) <= USER_DICT_POOL_OFFSET /\
  pool_offset (vw_userDictUnits view) <= WIRE_TOTAL_SIZE <= Z.of_nat (length buf) /\
  Forall (entry_sound buf (vw_userDictUnits view)) (entries buf (vw_wordCount view)) /\
  StronglySorted word_lt (entry_word buf <$> entries buf (vw_wordCount view)) /\
  ComputeCrc32 (payload buf h) = hd_crc32 h.
Proof.
  intros H h. subst h. destruct (Validate_inv _ _ H) as (Hl & Hh & Hc & _ & He & ->).
  destruct (CheckHeader_sound _ Hh) as (_ & _ & _ & ? & ? & ? & ?).
  cbn [vw_header vw_exclusionsUnits vw_exclusionsRowCount vw_userDictUnits vw_wordCount].
  destruct (CheckEntries_sound _ _ _ 0 [] ltac:(lia) He) as [E1 E2].
  rewrite <- entries_from in E1, E2. split_and!; try done.
  - unfold excl_offset. wire_lia.
  - unfold index_offset. wire_lia.
  - unfold pool_offset. wire_lia.
  - apply Sorted_StronglySorted; [apply word_lt_trans|]. exact E2.
Qed.

(** ** Corruption *)

Lemma slice_pre (pre l : list Z) o n :
  0 <= o -> 0 <= n -> o + n <= Z.of_nat (length pre) -> slice (pre ++ l) o n = slice pre o n.
Proof.
  intros. unfold slice. rewrite drop_app_le by lia. apply take_app_le.
  rewrite length_drop. lia.
Qed.

Lemma load_header_pre (pre l l' : list Z) :
  72 <= Z.of_nat (length pre) -> load_header (pre ++ l) = load_header (pre ++ l').
Proof.
  intros H. unfold load_header, rd16, rd32, rd64. rewrite !slice_pre by lia. reflexivity.
Qed.

(** A slice that covers the changed byte. *)
Lemma slice_around (pre : list Z) x post o n :
  0 <= o -> o <= Z.of_nat (length pre) < o + n ->
  slice (pre ++ x :: post) o n =
  drop (Z.to_nat o) pre ++ x :: take (Z.to_nat (o + n) - length pre - 1) post.
Proof.
  intros Ho Hn. unfold slice. rewrite drop_app_le by lia.
  rewrite take_app_ge by (rewrite length_drop; lia). f_equal. rewrite length_drop.
  replace (Z.to_nat n - (length pre - Z.to_nat o))%nat
    with (S (Z.to_nat (o + n) - length pre - 1)) by lia. reflexivity.
Qed.

(** C35. Changing any single byte of the payload of an accepted block gets the
    block refused, with the checksum error. *)
Theorem Validate_detects_corruption pre x y post view :
  ValidateAndInspect (Some (pre ++ x :: post)) = Ok view ->
  is_byte x -> is_byte y -> x <> y ->
  WIRE_HEADER_SIZE <= Z.of_nat (length pre) < WIRE_HEADER_SIZE + hd_payloadSizeBytes (vw_header view) ->
  ValidateAndInspect (Some (pre ++ y :: post)) = Err CrcMismatch.
Proof.
  intros H Hx Hy Hne Hpos. destruct (Validate_inv _ _ H) as (Hl & Hh & Hc & _ & _ & ->).
  cbn [vw_header] in Hpos. destruct (CheckHeader_sound _ Hh) as (Ho & _).
  unfold ValidateAndInspect. rewrite <- (load_header_pre pre (x :: post)) by wire_lia.
  set (h := load_header (pre ++ x :: post)) in *.
  rewrite length_app in *. cbn [length] in *.
  destruct (Z.ltb_spec (Z.of_nat (length pre + S (length post))) WIRE_TOTAL_SIZE); [lia|].
  rewrite Hh. unfold payload in *. rewrite Ho in *.
  rewrite slice_around in Hc |- * by wire_lia.
  destruct (Z.eqb_spec
    (ComputeCrc32 (drop (Z.to_nat WIRE_HEADER_SIZE) pre ++
       y :: take (Z.to_nat (WIRE_HEADER_SIZE + hd_payloadSizeBytes h) - length pre - 1) post))
    (hd_crc32 h)) as [E|]; [|done].
  rewrite <- Hc in E. by apply ComputeCrc32_detects_byte in E.
Qed.

(** The block of [sample], with byte 200 as given. *)
Definition sample_block (b : Z) : list Z :=
  match Serialize sample (Some (replicate (Z.to_nat WIRE_TOTAL_SIZE) 0)) with
  | Ok out => take 200 out ++ b :: drop 201 out
  | Err _ => []
  end.

Definition sample_view : LexiconWireView := mkView (wire_header sample 7 4 10 1917259120) 7 2 10 4.

Lemma sample_valid : ValidateAndInspect (Some (sample_block 0)) = Ok sample_view.
Proof. vm_compute. reflexivity. Qed.

Lemma sample_block_split :
  exists pre post, length pre = 200%nat /\ forall b, sample_block b = pre ++ b :: post.
Proof.
  set (buf := replicate (Z.to_nat WIRE_TOTAL_SIZE) 0).
  assert (Hb : WIRE_TOTAL_SIZE <= Z.of_nat (length buf)).
  { unfold buf. rewrite length_replicate. wire_lia. }
  destruct (Serialize_total sample buf Hb) as [out E].
  { apply fits_b_sound. vm_compute. reflexivity. }
  assert (Hp : params_u16 sample).
  { split; [|split]; [repeat constructor; lia|repeat constructor; lia|simpl; lia]. }
  destruct (Serialize_written sample buf out Hp E) as (u1 & u2 & W).
  exists (take 200 out), (drop 201 out). split.
  - rewrite length_take. pose proof (wr_len _ _ _ _ W). wire_lia.
  - intros b. unfold sample_block. fold buf. by rewrite E.
Qed.

Lemma ValidateAndInspect_sound_witness :
  ValidateAndInspect (Some (sample_block 0)) = Ok sample_view /\
  StronglySorted word_lt (entry_word (sample_block 0) <$> entries (sample_block 0) 4).
Proof.
  split; [exact sample_valid|].
  destruct (ValidateAndInspect_sound (sample_block 0) sample_view sample_valid)
    as (_ & _ & _ & _ & _ & H & _). exact H.
Defined.

Lemma Validate_detects_corruption_witness :
  ValidateAndInspect (Some (sample_block 1)) = Err CrcMismatch.
Proof.
  destruct sample_block_split as (pre & post & Hl & Hs). rewrite Hs.
  apply (Validate_detects_corruption pre 0 1 post sample_view).
  - rewrite <- Hs. exact sample_valid.
  - unfold is_byte. lia.
  - unfold is_byte. lia.
  - discriminate.
  - rewrite Hl. vm_compute. split; [discriminate|reflexivity].
Defined.
