(* ===== verification/Seqlock.v ===== *)
(** * The sequence lock of the shared dictionary
    (src/src/core/ipc/LexiconWireFormat.h, LexiconWireManager.cpp)

    One writer publishes the block byte by byte while readers of other processes
    copy it.  The protocol is an interleaving of atomic steps over the shared
    memory: the writer's [SeqlockBeginWrite], its byte stores in any order, its
    [SeqlockEndWrite]; a reader's [SeqlockBeginRead], its byte loads in any order,
    its [SeqlockValidateRead].  The barriers of the code make the steps of one
    process visible in their order, so steps are taken one at a time.  A writer
    may also die between two steps; the mapping survives and a new writer
    attaches to it ([LexiconWireManager::Create] does not touch the counter).

    The size of the block is a parameter; the program's is 144 KiB. *)

From S2P Require Import Prelude.
From stdpp Require Export gmap.
Open Scope Z_scope.

Definition u32_succ (z : Z) : Z := (z + 1) mod 2 ^ 32.

(** The bytes of the counter itself, which the writer's two copies go around:
    [offsetof(seqlock)] is 12 and [offsetof(generation)] is 16. *)
Definition is_seqlock_byte (i : nat) : bool := (12 <=? i)%nat && (i <? 16)%nat.
Definition writer_positions (size : nat) : list nat :=
  List.filter (fun i => negb (is_seqlock_byte i)) (seq 0 size).

(** ** States *)

Inductive WriterPc :=
  | WIdle
  | WCopying (staged : list Z) (todo : list nat).

Inductive ReaderPc :=
  | RIdle
  | RCopying (startSeq : Z) (startCount : Z) (got : gmap nat Z) (todo : list nat)
  | RDone (got : gmap nat Z)
  | RRetry.

(** [seqlock] is the 32-bit counter and [memory] the block.  Two ghosts: [count]
    is the counter without wrap-around and [published] what the writer was given for
    the publication that finished last. *)
Record System := mkSystem {
  seqlock : Z; memory : list Z; writer : WriterPc; reader : ReaderPc;
  count : Z; published : list Z
}.

Definition initial (block : list Z) : System := mkSystem 0 block WIdle RIdle 0 block.

(** ** Steps *)

Inductive Event :=
  | BeginWrite (staged : list Z)   (* SeqlockBeginWrite, the copies are to do *)
  | Store (i : nat)                (* one byte of the memcpy *)
  | EndWrite                       (* SeqlockEndWrite *)
  | Crash                          (* the writer dies; another one attaches *)
  | BeginRead (want : list nat)    (* SeqlockBeginRead; odd means retry *)
  | Load (i : nat)                 (* one byte of the reader's copy *)
  | ValidateRead.                  (* SeqlockValidateRead *)

Definition set_writer (s : System) (w : WriterPc) : System :=
  mkSystem (seqlock s) (memory s) w (reader s) (count s) (published s).
Definition set_reader (s : System) (r : ReaderPc) : System :=
  mkSystem (seqlock s) (memory s) (writer s) r (count s) (published s).

Definition remove_pos (i : nat) (l : list nat) : list nat :=
  List.filter (fun j => negb (j =? i)%nat) l.

(** One step; [None] when the event cannot happen in this state. *)
Definition step (size : nat) (e : Event) (s : System) : option System :=
  match e with
  | BeginWrite staged =>
      match writer s with
      | WIdle => if (length staged =? size)%nat
                 then Some (mkSystem (u32_succ (seqlock s)) (memory s)
                         (WCopying staged (writer_positions size)) (reader s)
                         (count s + 1) (published s))
                 else None
      | WCopying _ _ => None
      end
  | Store i =>
      match writer s with
      | WCopying staged todo =>
          if existsb (Nat.eqb i) todo
          then Some (mkSystem (seqlock s) (<[i := nth i staged 0]> (memory s))
                       (WCopying staged (remove_pos i todo)) (reader s) (count s) (published s))
          else None
      | WIdle => None
      end
  | EndWrite =>
      match writer s with
      | WCopying staged [] => Some (mkSystem (u32_succ (seqlock s)) (memory s) WIdle (reader s)
                                      (count s + 1) staged)
      | _ => None
      end
  | Crash =>
      match writer s with WCopying _ _ => Some (set_writer s WIdle) | WIdle => None end
  | BeginRead want =>
      match reader s with
      | RCopying _ _ _ _ => None
      | _ => Some (set_reader s (if Z.odd (seqlock s) then RRetry
                                 else RCopying (seqlock s) (count s) ∅ want))
      end
  | Load i =>
      match reader s with
      | RCopying q c got todo =>
          if existsb (Nat.eqb i) todo
          then Some (set_reader s (RCopying q c (<[i := nth i (memory s) 0]> got)
                                     (remove_pos i todo)))
          else None
      | _ => None
      end
  | ValidateRead =>
      match reader s with
      | RCopying q c got [] =>
          Some (set_reader s (if (q =w seqlock s) && negb (Z.odd q) then RDone got else RRetry))
      | _ => None
      end
  end.

Fixpoint run (size : nat) (es : list Event) (s : System) : option System :=
  match es with
  | [] => Some s
  | e :: es => match step size e s with Some s => run size es s | None => None end
  end.

Definition no_crash (es : list Event) : Prop := Forall (fun e => e <> Crash) es.

(** ** The invariant of the protocol while no writer dies *)

(** The bytes of the block that are not the counter's. *)
Definition payload (size i : nat) : Prop := (i < size)%nat /\ is_seqlock_byte i = false.

Lemma elem_of_writer_positions size i : i ∈ writer_positions size <-> payload size i.
Proof.
  unfold writer_positions, payload. rewrite list_elem_of_In, List.filter_In, in_seq, negb_true_iff.
  cbn [Nat.add]. intuition lia.
Qed.

(** The memory has what was published last; during a publication, what is staged
    at the positions that are done. *)
Definition writer_inv (size : nat) (s : System) : Prop :=
  length (memory s) = size /\
  match writer s with
  | WIdle => Z.even (count s) = true /\
      forall i, payload size i -> nth i (memory s) 0 = nth i (published s) 0
  | WCopying staged todo => Z.odd (count s) = true /\
      forall i, payload size i -> i ∉ todo -> nth i (memory s) 0 = nth i staged 0
  end.

(** What a reader has copied is what the memory holds, as long as the counter
    has not moved since it began. *)
Definition reader_inv (s : System) : Prop :=
  match reader s with
  | RCopying q c got _ =>
      q = c mod 2 ^ 32 /\ c <= count s /\ Z.even c = true /\
      (c = count s -> forall i v, got !! i = Some v -> nth i (memory s) 0 = v)
  | _ => True
  end.

Definition seqlock_inv (size : nat) (s : System) : Prop :=
  seqlock s = count s mod 2 ^ 32 /\ 0 <= count s /\ writer_inv size s /\ reader_inv s.

Lemma u32_succ_mod z : u32_succ (z mod 2 ^ 32) = (z + 1) mod 2 ^ 32.
Proof. unfold u32_succ. by rewrite Zplus_mod_idemp_l. Qed.

Lemma even_mod_u32 z : Z.even (z mod 2 ^ 32) = Z.even z.
Proof.
  rewrite (Z.div_mod z (2 ^ 32)) at 2 by lia.
  rewrite Z.even_add, Z.even_mul. change (Z.even (2 ^ 32)) with true. simpl orb.
  by destruct (Z.even (z mod 2 ^ 32)).
Qed.

Lemma odd_mod_u32 z : Z.odd (z mod 2 ^ 32) = Z.odd z.
Proof. rewrite <- !Z.negb_even. by rewrite even_mod_u32. Qed.

Lemma writer_busy_not_start size s c staged todo :
  writer_inv size s -> writer s = WCopying staged todo -> Z.even c = true -> c <> count s.
Proof.
  unfold writer_inv. intros [_ H] E Hc ->. rewrite E in H. destruct H as [H _].
  by rewrite <- Z.negb_even, Hc in H.
Qed.

Lemma elem_of_remove_pos i j l : j ∈ remove_pos i l <-> j <> i /\ j ∈ l.
Proof.
  unfold remove_pos. rewrite !list_elem_of_In, List.filter_In, negb_true_iff, Nat.eqb_neq. tauto.
Qed.

Lemma nth_insert_eq (i : nat) (v : Z) l : (i < length l)%nat -> nth i (<[i := v]> l) 0 = v.
Proof. intros H. apply nth_lookup_Some. by apply list_lookup_insert_eq. Qed.
Lemma nth_insert_ne (i j : nat) (v : Z) l : i <> j -> nth j (<[i := v]> l) 0 = nth j l 0.
Proof. intros H. rewrite !nth_lookup. by rewrite list_lookup_insert_ne. Qed.

(** The writer's three steps. *)
Lemma writer_inv_step size e s s' :
  e <> Crash -> step size e s = Some s' -> writer_inv size s -> writer_inv size s'.
Proof.
  intros He H [Hl Hw]. unfold writer_inv. destruct e; simpl in H; try done.
  - destruct (writer s); [|done]. destruct (_ =? _)%nat; [|done]. injection H as <-. simpl.
    destruct Hw as [Hev _]. split; [done|]. split; [by rewrite Z.odd_add, <- Z.negb_even, Hev|].
    intros i Hi Hn. by destruct Hn; apply elem_of_writer_positions.
  - destruct (writer s) as [|staged todo]; [done|]. destruct (existsb _ _) eqn:E; [|done].
    injection H as <-. simpl. rewrite length_insert. split; [done|]. destruct Hw as [Ho Hw].
    split; [done|]. intros j Hj Hn. rewrite elem_of_remove_pos in Hn.
    destruct (decide (j = i)) as [->|Hne].
    + apply nth_insert_eq. rewrite Hl. by destruct Hj.
    + rewrite nth_insert_ne by congruence. apply Hw; tauto.
  - destruct (writer s) as [|staged [|]]; try done. injection H as <-. simpl.
    destruct Hw as [Ho Hw]. split; [done|]. split; [by rewrite Z.even_add, <- Z.negb_odd, Ho|].
    intros i Hi. apply Hw; [done|apply not_elem_of_nil].
  - destruct (reader s); by simplify_eq.
  - destruct (reader s) as [|? ? got todo| |]; try done. destruct (existsb _ _); [|done]. by injection H as <-.
  - destruct (reader s) as [|? ? ? []| |]; by simplify_eq.
Qed.

(** The reader's bytes: a store is never between its loads and its last look at the
    counter. *)
Lemma reader_inv_step size e s s' :
  e <> Crash -> step size e s = Some s' -> seqlock_inv size s -> reader_inv s'.
Proof.
  intros He H (Hq & Hc & Hw & Hr). destruct e; simpl in H; try done.
  - destruct (writer s) eqn:Ew; [|done]. destruct (_ =? _)%nat; [|done]. injection H as <-.
    unfold reader_inv in *; simpl. destruct (reader s); try done.
    destruct Hr as (?&?&?&_). split_and!; try done; lia.
  - destruct (writer s) as [|staged todo] eqn:Ew; [done|]. case_match; [|done]. injection H as <-.
    unfold reader_inv in *; simpl. destruct (reader s) as [|q c got todo'| |]; try done.
    destruct Hr as (?&?&Hev&_). split_and!; try done.
    intros E. by destruct (writer_busy_not_start size s c staged todo Hw Ew Hev).
  - destruct (writer s) as [|staged [|]] eqn:Ew; try done. injection H as <-.
    unfold reader_inv in *; simpl. destruct (reader s); try done.
    destruct Hr as (?&?&?&_). split_and!; try done; lia.
  - assert (Hs : s' = set_reader s (if Z.odd (seqlock s) then RRetry
                                 else RCopying (seqlock s) (count s) ∅ want))
      by (by destruct (reader s); simplify_eq). subst s'.
    unfold reader_inv; simpl. destruct (Z.odd (seqlock s)) eqn:Eo; [done|].
    split_and!; [done|lia| |].
    + rewrite <- even_mod_u32, <- Hq, <- Z.negb_odd, Eo. done.
    + intros _ i v Hi. by rewrite lookup_empty in Hi.
  - destruct (reader s) as [|q c got todo| |] eqn:Er; try done. case_match; [|done].
    injection H as <-. unfold reader_inv in *; rewrite Er in Hr; simpl.
    destruct Hr as (?&?&?&Hgot). split_and!; try done. intros E j v Hj.
    destruct (decide (i = j)) as [<-|Hne].
    + rewrite lookup_insert_eq in Hj. by injection Hj.
    + rewrite lookup_insert_ne in Hj by done. by apply Hgot.
  - destruct (reader s) as [|q c got [|]| |] eqn:Er; try done. injection H as <-.
    unfold reader_inv; simpl. by destruct (_ && _).
Qed.

Lemma seqlock_inv_step size e s s' :
  e <> Crash -> step size e s = Some s' -> seqlock_inv size s -> seqlock_inv size s'.
Proof.
  intros He H Hi. pose proof (reader_inv_step size e s s' He H Hi).
  destruct Hi as (Hq & Hc & Hw & _).
  assert (seqlock s' = count s' mod 2 ^ 32 /\ 0 <= count s') as [? ?];
    [|split_and!; try done; by eapply writer_inv_step].
  destruct e; simpl in H; repeat case_match; simplify_eq/=; rewrite ?Hq, ?u32_succ_mod; split; lia.
Qed.

Lemma seqlock_inv_run size es s s' :
  no_crash es -> run size es s = Some s' -> seqlock_inv size s -> seqlock_inv size s'.
Proof.
  revert s. induction es as [|e es IH]; intros s Hn H Hi; simpl in H; [by injection H as <-|].
  inversion Hn; subst. destruct (step size e s) as [s1|] eqn:E; [|done].
  apply (IH s1); try done. by eapply seqlock_inv_step.
Qed.

Lemma seqlock_inv_initial block : seqlock_inv (length block) (initial block).
Proof. by split_and!. Qed.

(** ** A validated read is one publication *)

Lemma no_wrap_eq a b : 0 <= a - b < 2 ^ 32 -> a mod 2 ^ 32 = b mod 2 ^ 32 -> a = b.
Proof.
  intros Hd E. pose proof (Z.div_mod a (2 ^ 32) ltac:(lia)). pose proof (Z.div_mod b (2 ^ 32) ltac:(lia)).
  assert (a / 2 ^ 32 = b / 2 ^ 32); [|lia].
  change (2 ^ 32) with 4294967296 in *. lia.
Qed.

(** C18. While no writer dies, a read that validates returns bytes of one finished
    publication, the last one: at each position that is not of the counter, the byte
    the writer was given for it, no byte of a publication in progress and none of an
    earlier one, whatever the interleaving, as long as fewer than 2^31 publications
    happen during one read (the 32-bit counter would come back to its value).  After
    a writer died in the middle of a publication a torn read may validate
    ([crash_lets_torn_read_through]). *)
Theorem validated_read_is_published block es s s' q c got got' :
  let size := length block in
  no_crash es -> run size es (initial block) = Some s ->
  reader s = RCopying q c got [] -> count s - c < 2 ^ 32 ->
  step size ValidateRead s = Some s' -> reader s' = RDone got' ->
  writer s' = WIdle /\
  forall i v, (i < size)%nat -> is_seqlock_byte i = false -> got' !! i = Some v ->
    nth i (published s') 0 = v.
Proof.
  intros size Hn Hrun Er Hlt Hstep Hdone.
  pose proof (seqlock_inv_run _ _ _ _ Hn Hrun (seqlock_inv_initial block)) as (Hq & Hc & [_ Hw] & Hr).
  simpl in Hstep. rewrite Er in Hstep. injection Hstep as <-. simpl in *.
  unfold reader_inv in Hr. rewrite Er in Hr. destruct Hr as (Eq & Hle & Hev & Hgot).
  destruct ((q =w seqlock s) && negb (Z.odd q)) eqn:E; [|done]. injection Hdone as <-.
  bool_hyps. assert (count s = c) as Ec.
  { apply no_wrap_eq; [lia|]. congruence. }
  destruct (writer s) as [|staged todo] eqn:Ew.
  - split; [done|]. intros i v Hi Hb Hv. destruct Hw as [_ Hm]. rewrite <- Hm by done. by apply Hgot.
  - destruct Hw as [Hw _]. by rewrite Ec, <- Z.negb_even, Hev in Hw.
Qed.

(** ** An undisturbed read succeeds *)

(** One attempt of the reader's loop, with no other step in between. *)
Definition read_attempt (want : list nat) : list Event :=
  BeginRead want :: (Load <$> want) ++ [ValidateRead].

Lemma remove_pos_notin i l : i ∉ l -> remove_pos i l = l.
Proof.
  induction l as [|j l IH]; intros H; [done|]. simpl. apply not_elem_of_cons in H as [H1 H2].
  rewrite (proj2 (Nat.eqb_neq j i)) by congruence. simpl. by rewrite IH.
Qed.

Lemma remove_pos_head i l : i ∉ l -> remove_pos i (i :: l) = l.
Proof. intros H. simpl. rewrite Nat.eqb_refl. simpl. by apply remove_pos_notin. Qed.

Lemma run_loads size want : forall s q c got rest,
  NoDup want -> reader s = RCopying q c got want -> (forall i, i ∈ want -> got !! i = None) ->
  exists got', run size ((Load <$> want) ++ rest) s = run size rest (set_reader s (RCopying q c got' [])) /\
    (forall i, i ∈ want -> got' !! i = Some (nth i (memory s) 0)) /\
    (forall i v, got !! i = Some v -> got' !! i = Some v).
Proof.
  induction want as [|i want IH]; intros s q c got rest Hnd Er Hnone.
  - exists got. split_and!; [|set_solver|done]. simpl. f_equal. destruct s; simpl in *. by rewrite Er.
  - apply NoDup_cons in Hnd as [Hi Hnd].
    set (s1 := set_reader s (RCopying q c (<[i := nth i (memory s) 0]> got) want)).
    destruct (IH s1 q c (<[i := nth i (memory s) 0]> got) rest Hnd eq_refl) as (got' & R & H1 & H2).
    { intros j Hj. rewrite lookup_insert_ne by set_solver. apply Hnone. set_solver. }
    exists got'. split_and!.
    + rewrite fmap_cons, <- app_comm_cons. cbn [run step]. rewrite Er.
      cbn [existsb]. rewrite Nat.eqb_refl. cbn [orb]. rewrite remove_pos_head by done.
      fold s1. exact R.
    + intros j [->|Hj]%elem_of_cons; [|by apply H1].
      apply H2. by rewrite lookup_insert_eq.
    + intros j v Hj. apply H2. destruct (decide (i = j)) as [<-|]; [|by rewrite lookup_insert_ne].
      rewrite Hnone in Hj by set_solver. done.
Qed.

(** Liveness of the readers: at any point of any execution without a writer
    crash at which no publication is in progress, one attempt that the writer
    does not disturb succeeds, and it returns the published bytes of every
    position asked for. *)
Theorem undisturbed_read_succeeds block es s want :
  let size := length block in
  no_crash es -> run size es (initial block) = Some s ->
  writer s = WIdle -> (forall q c got todo, reader s <> RCopying q c got todo) -> NoDup want ->
  exists got, run size (read_attempt want) s = Some (set_reader s (RDone got)) /\
    forall i, i ∈ want -> payload size i -> got !! i = Some (nth i (published s) 0).
Proof.
  intros size Hn Hrun Ew Hr Hnd.
  pose proof (seqlock_inv_run _ _ _ _ Hn Hrun (seqlock_inv_initial block)) as (Hq & _ & [_ Hw] & _).
  rewrite Ew in Hw. destruct Hw as [Hev Hm].
  assert (Ho : Z.odd (seqlock s) = false) by (by rewrite Hq, odd_mod_u32, <- Z.negb_even, Hev).
  set (s1 := set_reader s (RCopying (seqlock s) (count s) ∅ want)).
  destruct (run_loads size want s1 (seqlock s) (count s) ∅ [ValidateRead] Hnd eq_refl)
    as (got & R & H1 & _); [done|].
  exists got. split.
  - assert (E : step size (BeginRead want) s = Some s1).
    { unfold s1. simpl. rewrite Ho. destruct (reader s) as [|q c got' todo| |] eqn:Er; try done.
      by destruct (Hr q c got' todo). }
    unfold read_attempt. cbn [run]. rewrite E, R. cbn [run step reader set_reader seqlock]. rewrite Z.eqb_refl, Ho. done.
  - intros i Hi Hp. rewrite H1 by done. unfold s1; simpl. by rewrite Hm.
Qed.

(** ** After a writer has died in the middle of a publication *)

(** The parity is the wrong way round: odd when nobody writes. *)
Definition parity_lost (s : System) : Prop :=
  match writer s with
  | WIdle => Z.odd (seqlock s) = true
  | WCopying _ _ => Z.even (seqlock s) = true
  end.

Lemma u32_succ_parity z : 0 <= z < 2 ^ 32 -> Z.odd (u32_succ z) = Z.even z.
Proof.
  intros Hz. unfold u32_succ. rewrite odd_mod_u32, Z.odd_add, <- Z.negb_even.
  by destruct (Z.even z).
Qed.

Lemma step_u32 size e s s' :
  step size e s = Some s' -> 0 <= seqlock s < 2 ^ 32 -> 0 <= seqlock s' < 2 ^ 32.
Proof.
  intros H Hs. assert (Hu : forall z, 0 <= u32_succ z < 2 ^ 32)
    by (intros z; apply Z.mod_pos_bound; lia).
  destruct e; simpl in H; repeat case_match; simplify_eq/=; auto.
Qed.

Lemma parity_lost_step size e s s' :
  e <> Crash -> 0 <= seqlock s < 2 ^ 32 -> step size e s = Some s' ->
  parity_lost s -> parity_lost s'.
Proof.
  unfold parity_lost. intros He Hs H Hp.
  pose proof (u32_succ_parity (seqlock s) Hs) as Hu.
  destruct e; simpl in H; destruct (writer s) eqn:Ew; repeat case_match; simplify_eq/=;
    try congruence.
  rewrite <- Z.negb_odd, Hu, <- Z.negb_odd, Hp. done.
Qed.

(** When a writer dies in the middle of a publication and another one attaches to
    the surviving block, every later attempt of a reader that begins while no
    publication is in progress is turned away, however many publications have
    been completed since: the counter is never even at rest again. *)
Theorem crash_blocks_readers block es s staged todo es' s' want s'' :
  let size := length block in
  no_crash es -> run size es (initial block) = Some s -> writer s = WCopying staged todo ->
  no_crash es' -> run size (Crash :: es') s = Some s' -> writer s' = WIdle ->
  step size (BeginRead want) s' = Some s'' -> reader s'' = RRetry.
Proof.
  intros size Hn Hrun Ew Hn' Hrun' Ew' Hstep.
  pose proof (seqlock_inv_run _ _ _ _ Hn Hrun (seqlock_inv_initial block)) as (Hq & Hc & [_ Hw] & _).
  rewrite Ew in Hw. destruct Hw as [Hw _].
  assert (Hb : 0 <= seqlock s < 2 ^ 32) by (rewrite Hq; apply Z.mod_pos_bound; lia).
  cbn [run step] in Hrun'. rewrite Ew in Hrun'.
  assert (Hp : parity_lost (set_writer s WIdle)).
  { unfold parity_lost; simpl. by rewrite Hq, odd_mod_u32. }
  assert (Hb' : 0 <= seqlock (set_writer s WIdle) < 2 ^ 32) by done.
  assert (Hall : parity_lost s').
  { clear -Hn' Hrun' Hp Hb'. revert Hrun' Hp Hb'. generalize (set_writer s WIdle) as s0.
    induction es' as [|e es' IH]; intros s0 H Hp Hb; simpl in H; [by injection H as <-|].
    inversion Hn'; subst. destruct (step size e s0) as [s1|] eqn:E; [|done].
    apply (IH ltac:(done) s1); [done|by eapply parity_lost_step|by eapply step_u32]. }
  unfold parity_lost in Hall. rewrite Ew' in Hall. simpl in Hstep. rewrite Hall in Hstep.
  destruct (reader s'); by simplify_eq.
Qed.

(** ** Executions of a 20-byte block *)

Definition publication (b : Z) : list Event :=
  BeginWrite (replicate 20 b) :: (Store <$> writer_positions 20) ++ [EndWrite].

Definition after (es : list Event) (s : System) : System := default s (run 20 es s).
Definition block0 : list Z := replicate 20 0.

Ltac no_crash_tac := unfold no_crash; vm_compute; repeat constructor; discriminate.

Lemma validated_read_is_published_witness :
  let es := publication 9 ++ [BeginRead [0; 16]%nat; Load 16; Load 0] in
  let s := after es (initial block0) in
  reader (after [ValidateRead] s) = RDone (<[0%nat := 9]> {[16%nat := 9]}) /\
  nth 16 (published (after [ValidateRead] s)) 0 = 9.
Proof.
  cbv zeta. split; [vm_compute; reflexivity|].
  refine (proj2 (validated_read_is_published block0
    (publication 9 ++ [BeginRead [0; 16]%nat; Load 16; Load 0]) _ _ 2 2
    (<[0%nat := 9]> {[16%nat := 9]}) (<[0%nat := 9]> {[16%nat := 9]}) _ _ _ _ _ _) 16%nat 9 _ _ _).
  - no_crash_tac.
  - vm_compute. reflexivity.
  - vm_compute. reflexivity.
  - vm_compute. reflexivity.
  - vm_compute. reflexivity.
  - vm_compute. reflexivity.
  - apply Nat.ltb_lt. vm_compute. reflexivity.
  - vm_compute. reflexivity.
  - vm_compute. reflexivity.
Defined.

(** A read that a publication overtakes is turned away. *)
Lemma overtaken_read_retries :
  reader (after ([BeginRead [0; 16]%nat; Load 0] ++ publication 9 ++ [Load 16; ValidateRead])
            (initial block0)) = RRetry.
Proof. vm_compute. reflexivity. Qed.

Lemma undisturbed_read_succeeds_witness :
  let s := after (publication 9) (initial block0) in
  exists got, run 20 (read_attempt [0; 16]%nat) s = Some (set_reader s (RDone got)) /\
  got !! 16%nat = Some 9.
Proof.
  cbv zeta.
  destruct (undisturbed_read_succeeds block0 (publication 9)
              (after (publication 9) (initial block0)) [0; 16]%nat) as (got & H1 & H2).
  - no_crash_tac.
  - vm_compute. reflexivity.
  - vm_compute. reflexivity.
  - vm_compute. discriminate.
  - apply (bool_decide_unpack _). vm_compute. exact I.
  - exists got. split; [exact H1|]. rewrite H2; [vm_compute; reflexivity|by right; left|].
    split; [apply Nat.ltb_lt; vm_compute|vm_compute]; reflexivity.
Defined.

(** One byte of a publication is stored, the writer dies, a new writer publishes. *)
Definition crashed : list Event := [BeginWrite (replicate 20 5); Store 0].

Lemma crash_blocks_readers_witness :
  let s := after (crashed ++ Crash :: publication 9) (initial block0) in
  memory s = replicate 12 9 ++ replicate 4 0 ++ replicate 4 9 /\
  reader (after [BeginRead [0]%nat] s) = RRetry.
Proof.
  cbv zeta. split; [vm_compute; reflexivity|].
  refine (crash_blocks_readers block0 crashed (after crashed (initial block0))
    (replicate 20 5) (remove_pos 0 (writer_positions 20)) (publication 9)
    (after (crashed ++ Crash :: publication 9) (initial block0)) [0]%nat _ _ _ _ _ _ _ _).
  - no_crash_tac.
  - vm_compute. reflexivity.
  - vm_compute. reflexivity.
  - no_crash_tac.
  - vm_compute. reflexivity.
  - vm_compute. reflexivity.
  - vm_compute. reflexivity.
Defined.

(** While the new writer is publishing the counter is even, so a reader may even
    validate bytes of two publications; only the checksum then stops it. *)
Lemma crash_lets_torn_read_through :
  let es := crashed ++ [Crash; BeginWrite (replicate 20 9); Store 0; BeginRead [0; 16]%nat;
                        Load 0; Load 16; ValidateRead] in
  reader (after es (initial block0)) = RDone (<[0%nat := 9]> {[16%nat := 0]}).
Proof. vm_compute. reflexivity. Qed.
