(* ===== verification/Pipeline.v ===== *)
(** * The keystroke pipeline (src/src/core/pipeline/)

    The coordinator of the keyboard hook: gates evaluated once per dispatch,
    features run in priority order, a batch of intents collected in the output
    channel.  The hook itself stands behind executor interfaces (one class, an
    instance per host); the four features and three gates of the program are
    defined against it, and so are the theorems. *)

From S2P Require Import Prelude Sorting Gates.
Open Scope Z_scope.

(** ** Data *)

Inductive Stage := PreEngine | EngineStage | PostEngine.
Inductive PipelineResult := PPass | PHandled | PVeto.
Inductive Intent :=
  | IntentBackspace (n : Z) | IntentText (text : wstring) | IntentReinject (vk : Z)
  | ConsumeKey | PassThrough.

#[export] Instance Stage_eq_dec : EqDecision Stage.
Proof. solve_decision. Defined.
#[export] Instance PipelineResult_eq_dec : EqDecision PipelineResult.
Proof. solve_decision. Defined.
#[export] Instance Intent_eq_dec : EqDecision Intent.
Proof. solve_decision. Defined.

(** [ICompositionSession]: the three views a key is handled with. *)
Record Session := mkSession {
  PreviousRendered : wstring; EngineRendered : wstring; RawInput : wstring
}.
Record KeyContext := mkKey {
  kc_vk : Z; kc_keyChar : wchar; kc_shift : bool; kc_capsLock : bool;
  kc_ctrl : bool; kc_alt : bool; kc_win : bool; kc_session : Session; kc_reinjectVk : Z
}.

(** ** The output channel: two buffers that trade places *)

Record OutputChannel := mkChannel { batch : list Intent; drained : list Intent }.
Definition empty_channel : OutputChannel := mkChannel [] [].

Definition Emit (i : Intent) (c : OutputChannel) : OutputChannel :=
  mkChannel (batch c ++ [i]) (drained c).
Definition TakeBatch (c : OutputChannel) : OutputChannel * list Intent :=
  (mkChannel [] (drained c), batch c).
Definition DrainBatch (c : OutputChannel) : OutputChannel * list Intent :=
  let c := mkChannel (batch c) [] in          (* drained_.clear() *)
  let c := mkChannel (drained c) (batch c) in (* drained_.swap(batch_) *)
  (c, drained c).
Definition ChannelEmpty (c : OutputChannel) : bool := bool_decide (batch c = []).

(** ** Executors: what the hook implements for the features and the gates *)

Inductive CommitUndoOutcome := CommitUndoEat | CommitUndoPass | CommitUndoFallthrough.
Inductive MacroOutcome := MacroEat | MacroPass | MacroFallthrough | MacroNoOp.
Inductive EscRestoreOutcome := EscRestoreEat | EscRestoreFallthrough.

Class HookHost (W : Type) := {
  HandleCommitUndo : Z -> bool -> bool -> bool -> bool -> bool -> W -> CommitUndoOutcome * W;
  HandleMacro : Z -> bool -> bool -> bool -> bool -> bool -> W -> MacroOutcome * W;
  TryEscRestore : Z -> bool -> bool -> bool -> bool -> W -> EscRestoreOutcome * W;
  ExecuteReplace : wstring -> Z -> W -> W;
  vietnameseMode : W -> bool;
  has_engine : W -> bool;
  IsEnglishWord : W -> bool;
  IsToneEscaped : W -> bool
}.

Section Pipeline.
Context {W : Type} {H : HookHost W}.

(** A feature's [Try] changes the hook and the channel. *)
Record Feature := mkFeature {
  FeatureStage : Stage; FeaturePriority : Z; Requires : Z;
  Try : KeyContext -> W * OutputChannel -> (W * OutputChannel) * PipelineResult
}.
Record Gate := mkGate { gate_id : GateId; IsRaised : W -> KeyContext -> bool }.

(** ** The coordinator *)

Record Coordinator := mkCoordinator {
  preFeatures : list Feature; engineFeatures : list Feature; postFeatures : list Feature;
  gates : list Gate
}.
Definition empty_coordinator : Coordinator := mkCoordinator [] [] [] [].

Definition features_at (s : Stage) (c : Coordinator) : list Feature :=
  match s with
  | PreEngine => preFeatures c | EngineStage => engineFeatures c | PostEngine => postFeatures c
  end.

Definition RegisterFeature (c : Coordinator) (f : Feature) : Coordinator :=
  match FeatureStage f with
  | PreEngine => mkCoordinator (register FeaturePriority (preFeatures c) f)
                   (engineFeatures c) (postFeatures c) (gates c)
  | EngineStage => mkCoordinator (preFeatures c)
                     (register FeaturePriority (engineFeatures c) f) (postFeatures c) (gates c)
  | PostEngine => mkCoordinator (preFeatures c) (engineFeatures c)
                    (register FeaturePriority (postFeatures c) f) (gates c)
  end.
Definition RegisterGate (c : Coordinator) (g : Gate) : Coordinator :=
  mkCoordinator (preFeatures c) (engineFeatures c) (postFeatures c) (gates c ++ [g]).

Definition CoordinatorGates (c : Coordinator) (ctx : KeyContext) (w : W) : Z :=
  fold_left (fun raised g =>
    if IsRaised g w ctx then Z.lor raised (GateMaskFor (gate_id g)) else raised) (gates c) 0.

(** The inner loop over one bucket; [PVeto] tells the caller to stop. *)
Fixpoint RunFeatures (raised : Z) (ctx : KeyContext) (fs : list Feature) (s : W * OutputChannel)
  : (W * OutputChannel) * PipelineResult :=
  match fs with
  | [] => (s, PPass)
  | f :: fs =>
      if Z.land (Requires f) raised <>w 0 then RunFeatures raised ctx fs s
      else
        let '(s, r) := Try f ctx s in
        match r with
        | PHandled => (s, PHandled)
        | PVeto => (s, PVeto)
        | PPass => RunFeatures raised ctx fs s
        end
  end.

Definition HandleKeyAtStage (stage : Stage) (c : Coordinator) (ctx : KeyContext)
  (s : W * OutputChannel) : W * OutputChannel :=
  (RunFeatures (CoordinatorGates c ctx s.1) ctx (features_at stage c) s).1.

Fixpoint RunStages (raised : Z) (ctx : KeyContext) (buckets : list (list Feature))
  (s : W * OutputChannel) : W * OutputChannel :=
  match buckets with
  | [] => s
  | b :: buckets =>
      let '(s, r) := RunFeatures raised ctx b s in
      match r with PVeto => s | _ => RunStages raised ctx buckets s end
  end.

Definition HandleKey (c : Coordinator) (ctx : KeyContext) (s : W * OutputChannel)
  : W * OutputChannel :=
  RunStages (CoordinatorGates c ctx s.1) ctx
    [preFeatures c; engineFeatures c; postFeatures c] s.

Definition FeatureCountAtStage (s : Stage) (c : Coordinator) : nat := length (features_at s c).
Definition GateCount (c : Coordinator) : nat := length (gates c).

(** ** The program's gates and features *)

Definition EnglishBiasGate : Gate :=
  mkGate GateEnglishBias (fun w _ => negb (vietnameseMode w)).
Definition SpellCheckGate : Gate :=
  mkGate GateSpellCheck (fun w _ => has_engine w && IsEnglishWord w).
Definition ToneEscapeGate : Gate :=
  mkGate GateToneEscape (fun w _ => has_engine w && IsToneEscaped w).

Definition CommitUndoFeature : Feature := {|
  FeatureStage := PreEngine; FeaturePriority := 20; Requires := 0;
  Try := fun ctx '(w, sink) =>
    let '(outcome, w) := HandleCommitUndo (kc_vk ctx) (kc_shift ctx) (kc_capsLock ctx)
                           (kc_ctrl ctx) (kc_alt ctx) (kc_win ctx) w in
    match outcome with
    | CommitUndoEat => ((w, Emit ConsumeKey sink), PHandled)
    | CommitUndoPass => ((w, Emit PassThrough sink), PVeto)
    | CommitUndoFallthrough => ((w, sink), PPass)
    end |}.

Definition MacroFeature : Feature := {|
  FeatureStage := PreEngine; FeaturePriority := 30; Requires := 0;
  Try := fun ctx '(w, sink) =>
    let '(outcome, w) := HandleMacro (kc_vk ctx) (kc_shift ctx) (kc_capsLock ctx)
                           (kc_ctrl ctx) (kc_alt ctx) (kc_win ctx) w in
    match outcome with
    | MacroEat => ((w, Emit ConsumeKey sink), PHandled)
    | MacroPass => ((w, Emit PassThrough sink), PVeto)
    | MacroFallthrough | MacroNoOp => ((w, sink), PPass)
    end |}.

Definition EscRestoreRawFeature : Feature := {|
  FeatureStage := PreEngine; FeaturePriority := 40; Requires := 0;
  Try := fun ctx '(w, sink) =>
    let '(outcome, w) := TryEscRestore (kc_vk ctx) (kc_shift ctx)
                           (kc_ctrl ctx) (kc_alt ctx) (kc_win ctx) w in
    match outcome with
    | EscRestoreEat => ((w, Emit ConsumeKey sink), PHandled)
    | EscRestoreFallthrough => ((w, sink), PPass)
    end |}.

Definition BackwardEditFeature : Feature := {|
  FeatureStage := PostEngine; FeaturePriority := 10; Requires := GateMaskFor GateEnglishBias;
  Try := fun ctx '(w, sink) =>
    ((ExecuteReplace (EngineRendered (kc_session ctx)) (kc_reinjectVk ctx) w, sink), PHandled) |}.

(** The registrations of the hook's constructor, in its order. *)
Definition hook_features : list Feature :=
  [BackwardEditFeature; CommitUndoFeature; EscRestoreRawFeature; MacroFeature].
Definition hook_gates : list Gate := [EnglishBiasGate; SpellCheckGate; ToneEscapeGate].
Definition hook_coordinator : Coordinator :=
  foldl RegisterFeature (foldl RegisterGate empty_coordinator hook_gates) hook_features.

(** ** The hook's two dispatches (src/src/app/system/HookEngine.cpp) *)

(** Step 2d of [ProcessKeyDown]: the first flow-control intent of the drained
    batch decides; [None] is the fall-through to the next steps. *)
Fixpoint flow_control (intents : list Intent) : option bool :=
  match intents with
  | [] => None
  | ConsumeKey :: _ => Some true
  | PassThrough :: _ => Some false
  | _ :: rest => flow_control rest
  end.

Definition PreEngineStep (ctx : KeyContext) (s : W * OutputChannel)
  : (W * OutputChannel) * option bool :=
  let '(w, ch) := HandleKeyAtStage PreEngine hook_coordinator ctx s in
  let '(ch, intents) := DrainBatch ch in
  ((w, ch), flow_control intents).

(** [static_cast<std::uint16_t>] of a [DWORD]. *)
Definition u16 (z : Z) : Z := z mod 2 ^ 16.

Definition DispatchCoordinator (vkCode reinjectVk : Z) (previous raw composition : wstring)
  (s : W * OutputChannel) : W * OutputChannel :=
  let ctx := mkKey (u16 vkCode) 0 false false false false false
               (mkSession previous composition raw) (u16 reinjectVk) in
  let '(w, ch) := HandleKeyAtStage PostEngine hook_coordinator ctx s in
  (w, (DrainBatch ch).1).

End Pipeline.

Arguments Feature : clear implicits.
Arguments Gate : clear implicits.
Arguments Coordinator : clear implicits.

(** ** Facts on the keystroke pipeline *)

(** ** The output channel *)

Inductive ChannelOp := OpEmit (i : Intent) | OpTake | OpDrain.

(** Run operations; the drained batches come out in order. *)
Fixpoint run_channel (ops : list ChannelOp) (c : OutputChannel)
  : OutputChannel * list (list Intent) :=
  match ops with
  | [] => (c, [])
  | OpEmit i :: ops => run_channel ops (Emit i c)
  | OpTake :: ops => let '(c, b) := TakeBatch c in
                     let '(c, bs) := run_channel ops c in (c, b :: bs)
  | OpDrain :: ops => let '(c, b) := DrainBatch c in
                      let '(c, bs) := run_channel ops c in (c, b :: bs)
  end.

Fixpoint emitted (ops : list ChannelOp) : list Intent :=
  match ops with
  | [] => [] | OpEmit i :: ops => i :: emitted ops | _ :: ops => emitted ops
  end.

(** Whatever the sequence of emissions and drains, every intent comes out
    exactly once and in the order of emission: the batches drained, followed by
    what is left in the channel, are what was in it followed by what was
    emitted; a drain leaves it empty. *)
Theorem channel_fifo ops c :
  let '(c', batches) := run_channel ops c in
  mjoin batches ++ batch c' = batch c ++ emitted ops /\
  batch (DrainBatch c').1 = [] /\ batch (TakeBatch c').1 = [].
Proof.
  revert c. induction ops as [|[i| |] ops IH]; intros c; simpl.
  - by rewrite app_nil_r.
  - specialize (IH (Emit i c)). destruct (run_channel ops (Emit i c)) as [c' bs].
    destruct IH as [IH ?]. split; [|done]. rewrite IH. simpl. by rewrite <- app_assoc.
  - specialize (IH (mkChannel [] (drained c))). destruct (run_channel ops _) as [c' bs].
    destruct IH as [IH ?]. split; [|done]. simpl. by rewrite <- app_assoc, IH.
  - specialize (IH (mkChannel [] (batch c))). destruct (run_channel ops _) as [c' bs].
    destruct IH as [IH ?]. split; [|done]. simpl. by rewrite <- app_assoc, IH.
Qed.

Section Facts.
Context {W : Type} {H : HookHost W}.
Implicit Types (c : Coordinator W) (f : Feature W) (g : Gate W) (s : W * OutputChannel).

(** ** Gates *)

Lemma fold_gates ctx w gs raised h :
  GateMaskHas (fold_left (fun raised g =>
    if IsRaised g w ctx then Z.lor raised (GateMaskFor (gate_id g)) else raised) gs raised) h = true
  <-> GateMaskHas raised h = true \/ exists g, g ∈ gs /\ gate_id g = h /\ IsRaised g w ctx = true.
Proof.
  revert raised. induction gs as [|g gs IH]; intros raised; simpl.
  - split; [by left|]. intros [?|(g & Hg & _)]; [done|]. by apply not_elem_of_nil in Hg.
  - rewrite IH. destruct (IsRaised g w ctx) eqn:E.
    + rewrite GateMaskHas_lor, GateMaskHas_for, orb_true_iff, bool_decide_eq_true.
      split.
      * intros [[?|<-]|(g' & ? & ? & ?)]; [by left|right; exists g|right; exists g'];
          rewrite elem_of_cons; auto.
      * intros [?|(g' & [->|Hg]%elem_of_cons & <- & ?)]; [auto|auto|right; exists g'; auto].
    + split.
      * intros [?|(g' & ? & ? & ?)]; [by left|right; exists g']. rewrite elem_of_cons; auto.
      * intros [?|(g' & [->|Hg]%elem_of_cons & <- & Hr)]; [auto|congruence|right; exists g'; auto].
Qed.

(** A gate is in the mask exactly when a registered gate of that name is raised. *)
Lemma CoordinatorGates_has c ctx w h :
  GateMaskHas (CoordinatorGates c ctx w) h = true <->
  exists g, g ∈ gates c /\ gate_id g = h /\ IsRaised g w ctx = true.
Proof.
  unfold CoordinatorGates. rewrite fold_gates. split; [|by right].
  intros [Hf|?]; [by destruct h|done].
Qed.

(** ** Registration *)

Lemma RegisterFeature_at c f st :
  features_at st (RegisterFeature c f) =
  if FeatureStage f == st then register FeaturePriority (features_at st c) f else features_at st c.
Proof. unfold RegisterFeature. by destruct (FeatureStage f), st. Qed.

Lemma RegisterFeature_gates c f : gates (RegisterFeature c f) = gates c.
Proof. unfold RegisterFeature. by destruct (FeatureStage f). Qed.

Definition at_stage (st : Stage) f : bool := FeatureStage f == st.

Lemma register_features_at fs st : forall c,
  features_at st (foldl RegisterFeature c fs) =
  foldl (register FeaturePriority) (features_at st c) (List.filter (at_stage st) fs).
Proof.
  induction fs as [|f fs IH]; intros c; simpl; [done|]. rewrite IH, RegisterFeature_at.
  unfold at_stage at 2. by destruct (FeatureStage f == st).
Qed.

Lemma register_features_gates fs : forall c, gates (foldl RegisterFeature c fs) = gates c.
Proof. induction fs as [|f fs IH]; intros c; simpl; [done|]. by rewrite IH, RegisterFeature_gates. Qed.

Lemma coordinator_ext c1 c2 :
  (forall st, features_at st c1 = features_at st c2) -> gates c1 = gates c2 -> c1 = c2.
Proof.
  intros Hf Hg. destruct c1, c2; simpl in *.
  pose proof (Hf PreEngine); pose proof (Hf EngineStage); pose proof (Hf PostEngine).
  simpl in *; congruence.
Qed.

Lemma List_filter_perm {A} (p : A -> bool) l l' : l ≡ₚ l' -> List.filter p l ≡ₚ List.filter p l'.
Proof.
  induction 1 as [|x l l' _ IH|x y l|l l' l'' _ IH1 _ IH2]; simpl.
  - done.
  - by destruct (p x); rewrite IH.
  - destruct (p x), (p y); try done. apply Permutation_swap.
  - by rewrite IH1.
Qed.

(** Features with different priorities within a stage dispatch in the same
    order whatever order they are registered in: the coordinator is the same. *)
Theorem registration_any_order c fs fs' :
  fs ≡ₚ fs' -> (forall st, features_at st c = []) ->
  (forall a b, a ∈ fs -> b ∈ fs -> FeatureStage a = FeatureStage b ->
     FeaturePriority a = FeaturePriority b -> a = b) ->
  foldl RegisterFeature c fs = foldl RegisterFeature c fs'.
Proof.
  intros Hp He Hd. apply coordinator_ext; [|by rewrite !register_features_gates].
  intros st. rewrite !register_features_at, He. apply register_any_order.
  - by apply List_filter_perm.
  - intros a b Ha Hb. rewrite list_elem_of_In, filter_In in Ha, Hb.
    destruct Ha as [Ha Ha'%bool_decide_eq_true], Hb as [Hb Hb'%bool_decide_eq_true].
    apply Hd; [by apply list_elem_of_In..|congruence].
Qed.

(** ** Dispatch *)

(** The bucket each stage of the program's coordinator runs. *)
Lemma hook_features_at st :
  features_at st hook_coordinator =
  match st with
  | PreEngine => [CommitUndoFeature; MacroFeature; EscRestoreRawFeature]
  | EngineStage => []
  | PostEngine => [BackwardEditFeature]
  end.
Proof. by destruct st. Qed.

Lemma RunFeatures_filter raised ctx fs s :
  RunFeatures raised ctx fs s =
  RunFeatures 0 ctx (List.filter (fun f => Z.land (Requires f) raised =w 0) fs) s.
Proof.
  revert s. induction fs as [|f fs IH]; intros s; simpl; [done|].
  destruct (Z.eqb_spec (Z.land (Requires f) raised) 0) as [E|E]; simpl; [|apply IH].
  rewrite Z.land_0_r. simpl. destruct (Try f ctx s) as [s' []]; auto.
Qed.

(** A feature that handles or vetoes is the last one run. *)
Lemma RunFeatures_split raised ctx fs1 f fs2 s s1 :
  RunFeatures raised ctx fs1 s = (s1, PPass) -> Z.land (Requires f) raised = 0 ->
  (Try f ctx s1).2 <> PPass ->
  RunFeatures raised ctx (fs1 ++ f :: fs2) s = Try f ctx s1.
Proof.
  revert s. induction fs1 as [|g fs1 IH]; intros s H1 H2 H3; simpl in *.
  - injection H1 as <-. rewrite H2. simpl. by destruct (Try f ctx s) as [s' []].
  - destruct (Z.land (Requires g) raised =w 0); simpl in *; [|by apply IH].
    destruct (Try g ctx s) as [s' []]; try done. by apply IH.
Qed.

(** When no feature vetoes and the features leave the gates as they are, one
    dispatch over all the stages, which the hook never makes, is the sequence of the
    three single-stage dispatches. *)
Lemma HandleKey_by_stages c ctx s :
  (forall st s', (RunFeatures (CoordinatorGates c ctx s.1) ctx (features_at st c) s').2 <> PVeto) ->
  (forall st s', CoordinatorGates c ctx s'.1 = CoordinatorGates c ctx s.1 ->
     CoordinatorGates c ctx (HandleKeyAtStage st c ctx s').1 = CoordinatorGates c ctx s.1) ->
  HandleKey c ctx s =
  HandleKeyAtStage PostEngine c ctx
    (HandleKeyAtStage EngineStage c ctx (HandleKeyAtStage PreEngine c ctx s)).
Proof.
  intros Hv Hg. unfold HandleKey.
  assert (Hone : forall st bs s', CoordinatorGates c ctx s'.1 = CoordinatorGates c ctx s.1 ->
    RunStages (CoordinatorGates c ctx s.1) ctx (features_at st c :: bs) s' =
    RunStages (CoordinatorGates c ctx s.1) ctx bs (HandleKeyAtStage st c ctx s')).
  { intros st bs s' E. cbn [RunStages]. unfold HandleKeyAtStage. rewrite E.
    specialize (Hv st s').
    destruct (RunFeatures _ ctx (features_at st c) s') as [s1 []]; done. }
  change [preFeatures c; engineFeatures c; postFeatures c] with
    [features_at PreEngine c; features_at EngineStage c; features_at PostEngine c].
  rewrite !Hone; auto.
Qed.

(** A veto ends the keystroke: the stages after it do not run. *)
Lemma HandleKey_veto c ctx s s1 :
  RunFeatures (CoordinatorGates c ctx s.1) ctx (preFeatures c) s = (s1, PVeto) ->
  HandleKey c ctx s = s1.
Proof. intros E. unfold HandleKey. cbn [RunStages]. by rewrite E. Qed.

(** ** The hook's dispatches *)

(** What becomes of a key before the engine: the three executors by hand. *)
Definition asked_in_turn (ctx : KeyContext) (w : W) : W * option bool :=
  let vk := kc_vk ctx in let sh := kc_shift ctx in let caps := kc_capsLock ctx in
  let c := kc_ctrl ctx in let a := kc_alt ctx in let wn := kc_win ctx in
  let '(o1, w1) := HandleCommitUndo vk sh caps c a wn w in
  match o1 with
  | CommitUndoEat => (w1, Some true)
  | CommitUndoPass => (w1, Some false)
  | CommitUndoFallthrough =>
      let '(o2, w2) := HandleMacro vk sh caps c a wn w1 in
      match o2 with
      | MacroEat => (w2, Some true)
      | MacroPass => (w2, Some false)
      | MacroFallthrough | MacroNoOp =>
          let '(o3, w3) := TryEscRestore vk sh c a wn w2 in
          match o3 with
          | EscRestoreEat => (w3, Some true)
          | EscRestoreFallthrough => (w3, None)
          end
      end
  end.

Lemma PreEngineStep_chain ctx w ch :
  batch ch = [] ->
  let '((w', ch'), verdict) := PreEngineStep ctx (w, ch) in
  batch ch' = [] /\ (w', verdict) = asked_in_turn ctx w.
Proof.
  intros Hb. destruct ch as [b d]; simpl in Hb; subst b.
  unfold asked_in_turn, PreEngineStep, HandleKeyAtStage. rewrite hook_features_at.
  cbn [RunFeatures Requires CommitUndoFeature MacroFeature EscRestoreRawFeature Try].
  rewrite !Z.land_0_l. cbn [Z.eqb negb].
  destruct (HandleCommitUndo _ _ _ _ _ _ w) as [[] w1];
    [..|destruct (HandleMacro _ _ _ _ _ _ w1) as [[] w2];
        [..|destruct (TryEscRestore _ _ _ _ _ w2) as [[] w3]
           |destruct (TryEscRestore _ _ _ _ _ w2) as [[] w3]]];
    (split; reflexivity).
Qed.

Lemma DispatchCoordinator_spec vk reinject previous raw composition w ch :
  batch ch = [] ->
  let '(w', ch') := DispatchCoordinator vk reinject previous raw composition (w, ch) in
  batch ch' = [] /\
  w' = if vietnameseMode w then ExecuteReplace composition (u16 reinject) w else w.
Proof.
  intros Hb. unfold DispatchCoordinator, HandleKeyAtStage. rewrite hook_features_at.
  cbn [RunFeatures Requires BackwardEditFeature Try fst].
  set (m := CoordinatorGates _ _ _).
  assert (E : (Z.land (GateMaskFor GateEnglishBias) m <>w 0) = negb (vietnameseMode w)).
  { rewrite Z.land_comm. fold (GateMaskHas m GateEnglishBias). apply eq_true_iff_eq.
    unfold m. rewrite CoordinatorGates_has, negb_true_iff. unfold hook_coordinator.
    rewrite register_features_gates. simpl. split.
    - intros (g & Hg & Hid & Hr). rewrite !elem_of_cons, elem_of_nil in Hg.
      destruct Hg as [->|[->|[->|[]]]]; simpl in *; try done. by apply negb_true_iff.
    - intros Hv. exists EnglishBiasGate. split_and!; [by left|done|]. simpl. by rewrite Hv. }
  rewrite E. destruct (vietnameseMode w); simpl; done.
Qed.

(** C32. The two dispatches the hook makes with a key.  Before the engine it asks the
    undo of a commit, the macros and the restoration of raw keys, in the order of their
    priorities and not of their registration: each is asked only when those before it
    fell through, and the verdict on the key is that of the one that took it.  After
    the engine the text of the application is replaced exactly when the hook is in
    Vietnamese mode; neither English detection nor an escaped tone holds the
    replacement back.  Neither dispatch leaves an intent for the next key. *)
Theorem hook_dispatches ctx vk reinject previous raw composition w ch :
  batch ch = [] ->
  (let '((w', ch'), verdict) := PreEngineStep ctx (w, ch) in
   batch ch' = [] /\ (w', verdict) = asked_in_turn ctx w) /\
  (let '(w', ch') := DispatchCoordinator vk reinject previous raw composition (w, ch) in
   batch ch' = [] /\
   w' = if vietnameseMode w then ExecuteReplace composition (u16 reinject) w else w).
Proof. intros Hb. split; [by apply PreEngineStep_chain|by apply DispatchCoordinator_spec]. Qed.

End Facts.

(** ** A host that only logs, for the executions below *)

(** The state: Vietnamese mode, and what was called. *)
Definition LogHost : Type := bool * list Z.
#[export] Instance log_host : HookHost LogHost := {|
  HandleCommitUndo := fun vk _ _ _ _ _ w =>
    (if vk =w 8 then CommitUndoEat else CommitUndoFallthrough, (w.1, w.2 ++ [1]));
  HandleMacro := fun vk _ _ _ _ _ w =>
    (if vk =w 32 then MacroPass else MacroNoOp, (w.1, w.2 ++ [2]));
  TryEscRestore := fun vk _ _ _ _ w =>
    (if vk =w 27 then EscRestoreEat else EscRestoreFallthrough, (w.1, w.2 ++ [3]));
  ExecuteReplace := fun _ _ w => (w.1, w.2 ++ [4]);
  vietnameseMode := fun w => w.1; has_engine := fun _ => true;
  IsEnglishWord := fun _ => true; IsToneEscaped := fun _ => true
|}.

Definition key (vk : Z) : KeyContext :=
  mkKey vk 0 false false false false false (mkSession [] [] []) 0.

Lemma registration_any_order_witness :
  foldl RegisterFeature (empty_coordinator (W := LogHost)) hook_features =
  foldl RegisterFeature empty_coordinator (rev hook_features).
Proof.
  apply registration_any_order.
  - apply Permutation_rev.
  - by intros [].
  - unfold hook_features. intros a b. rewrite !elem_of_cons, !elem_of_nil.
    intros [->|[->|[->|[->|[]]]]] [->|[->|[->|[->|[]]]]]; simpl; done.
Defined.

(** A space ends at the macros; without Vietnamese mode nothing is replaced. *)
Lemma hook_dispatches_witness :
  (PreEngineStep (key 32) ((true, []), empty_channel)).1.1 = (true, [1; 2]) /\
  (DispatchCoordinator 65 0 [] [] [L "a"] ((true, []), empty_channel)).1 = (true, [4]) /\
  (DispatchCoordinator 65 0 [] [] [L "a"] ((false, []), empty_channel)).1 = (false, []).
Proof.
  destruct (hook_dispatches (key 32) 65 0 [] [] [L "a"] (true, []) empty_channel eq_refl) as [H1 H2].
  destruct (hook_dispatches (key 32) 65 0 [] [] [L "a"] (false, []) empty_channel eq_refl) as [_ H3].
  destruct (PreEngineStep _ _) as [[w1 ch1] v], (DispatchCoordinator _ _ _ _ _ (_, _, _)) as [w2 ch2],
    (DispatchCoordinator _ _ _ _ _ _) as [w3 ch3].
  destruct H1 as [_ H1], H2 as [_ ->], H3 as [_ ->]. split; [|by split].
  injection H1 as ->. reflexivity.
Defined.
