(* ===== verification/MacroPrefix.v ===== *)
(** * The macro prefix index (src/src/core/MacroPrefix.h)

    At every space the hook asks whether what was typed begins a macro key that
    has a space in it.  [IsSpaceMacroPrefix] scans the keys; [MacroPrefixIndex]
    answers from one text, a sorted index and two binary searches.  The theorem:
    both give the same answer, whatever the locale. *)

From stdpp Require Import sorting.
From S2P Require Import Prelude Sorting.
Open Scope Z_scope.

(** ** The locale

    The keys are compared with [towlower] and [iswupper] of the process that
    hosts the code, so both are parameters here.  On ASCII they are what the C
    standard and every Windows locale say, Turkish included: only the capitals
    are upper case, and no other ASCII character changes. *)
Class Locale := { loc_towlower : wchar -> wchar; loc_iswupper : wchar -> bool }.

Class LocaleLaws (loc : Locale) : Prop := {
  iswupper_ascii c : c <= 127 -> loc_iswupper c = ((65 <=? c) && (c <=? 90));
  towlower_ascii c : c <= 127 -> (65 <=? c) && (c <=? 90) = false -> loc_towlower c = c
}.

Section Prefix.
Context `{loc : Locale}.

(** ** The reference: the scan of the set of keys *)

Definition hasUpper (s : wstring) : bool := existsb loc_iswupper s.

Definition IsSpaceMacroPrefix (candidate : wstring) (spaceKeys : list wstring) : bool :=
  if bool_decide (spaceKeys = []) || bool_decide (candidate = []) then false
  else existsb (fun key =>
    if (length key <? length candidate)%nat then false
    else if hasUpper key then bool_decide (take (length candidate) key = candidate)
    else bool_decide (take (length candidate) key = map loc_towlower candidate)) spaceKeys.

(** ** Comparing strings: [std::wstring_view::compare] *)

Fixpoint wcompare (a b : wstring) : comparison :=
  match a, b with
  | [], [] => Eq
  | [], _ :: _ => Lt
  | _ :: _, [] => Gt
  | x :: a, y :: b => match Z.compare x y with Eq => wcompare a b | c => c end
  end.
Definition wless (a b : wstring) : bool := match wcompare a b with Lt => true | _ => false end.

Definition Fold (ch : wchar) : wchar :=
  if ((L "A" <=? ch) && (ch <=? L "Z")) || (127 <? ch) then loc_towlower ch else ch.

Fixpoint ComparePrefixFolded (key candidate : wstring) : comparison :=
  match key, candidate with
  | k :: key, c :: candidate =>
      let ch := Fold c in
      if k <? ch then Lt else if ch <? k then Gt else ComparePrefixFolded key candidate
  | [], _ :: _ => Lt
  | _, [] => Eq
  end.
Definition ComparePrefix (key candidate : wstring) (folded : bool) : comparison :=
  if folded then ComparePrefixFolded key candidate
  else wcompare (take (length candidate) key) candidate.

(** ** Building the index *)

Inductive KeyCase := Flexible | Strict | LocaleDependent.
#[export] Instance KeyCase_eq_dec : EqDecision KeyCase.
Proof. solve_decision. Defined.

Record Key := mkKeyEntry { k_offset : nat; k_length : nat; caseRule : KeyCase }.
Record Data := mkData {
  text : wstring; keys : list Key; sorted : list nat;
  foldStarts : list wchar; maxLength : nat; commonLength : nat
}.
Record MacroPrefixIndex := mkIndex { data_ : option Data; firstKey_ : wstring; firstCase_ : KeyCase }.

#[export] Instance Key_inhabited : Inhabited Key := populate (mkKeyEntry 0 0 Flexible).

Definition View (d : Data) (id : nat) : wstring :=
  let key := keys d !!! id in take (k_length key) (drop (k_offset key) (text d)).
Definition rule_of (d : Data) (id : nat) : KeyCase := caseRule (keys d !!! id).

(** The loop over the characters of a key, with its [break]. *)
Fixpoint key_rule (rule : KeyCase) (key : wstring) : KeyCase :=
  match key with
  | [] => rule
  | ch :: rest =>
      if (L "A" <=? ch) && (ch <=? L "Z") then Strict
      else key_rule (if 127 <? ch then LocaleDependent else rule) rest
  end.

(** One key added to the data, the first one remembered apart. *)
Definition AddKey (ix : Data * (wstring * KeyCase)) (key : wstring)
  : Data * (wstring * KeyCase) :=
  let '(d, first) := ix in
  let rule := key_rule Flexible key in
  let first := if bool_decide (keys d = []) then (key, rule) else first in
  (mkData (text d ++ key)
     (keys d ++ [mkKeyEntry (length (text d)) (length key) rule])
     (sorted d ++ [length (keys d)])
     (foldStarts d) (Nat.max (maxLength d) (length key)) (commonLength d), first).

Fixpoint common_prefix (low high : wstring) : nat :=
  match low, high with
  | x :: low, y :: high => if x =w y then S (common_prefix low high) else 0
  | _, _ => 0
  end.

(** The first letters of the keys that may match without regard to case. *)
Definition AddFoldStart (d : Data) (starts : list wchar) (id : nat) : list wchar :=
  match View d id with
  | [] => starts
  | front :: _ =>
      if rule_of d id == Strict then starts
      else if bool_decide (starts = []) || (List.last starts 0 <>w front)
      then starts ++ [front] else starts
  end.

Definition empty_data : Data := mkData [] [] [] [] 0 0.

Definition NewIndex (ks : list wstring) : MacroPrefixIndex :=
  match ks with
  | [] => mkIndex None [] Flexible
  | _ =>
      let '(d, (first, rule)) := foldl AddKey (empty_data, ([], Flexible)) ks in
      let ids := stable_sort (fun l r => wless (View d l) (View d r)) (sorted d) in
      let low := View d (hd 0%nat ids) in
      let high := View d (List.last ids 0%nat) in
      let starts := foldl (AddFoldStart d) [] ids in
      mkIndex (Some (mkData (text d) (keys d) ids starts (maxLength d) (common_prefix low high)))
        first rule
  end.

(** ** Asking the index *)

Definition HasUpper (key : wstring) (rule : KeyCase) : bool :=
  if rule != LocaleDependent then rule == Strict
  else existsb (fun ch => (127 <? ch) && loc_iswupper ch) key.

(** [find]: an early rejection by the prefix all keys share, then the search. *)
Definition find (d : Data) (query : wstring) (folded : bool) : nat :=
  let len := Nat.min (commonLength d) (length query) in
  let front := View d (hd 0%nat (sorted d)) in
  if negb (len =? 0)%nat &&
     negb (bool_decide (ComparePrefix (take len front) (take len query) folded = Eq))
  then length (sorted d)
  else lower_bound (fun id => bool_decide (ComparePrefix (View d id) query folded = Lt)) (sorted d).

(** The first loop: a strict key answers, a flexible one is remembered. *)
Fixpoint raw_scan (d : Data) (candidate : wstring) (ids : list nat) (rawFlexible : bool)
  : bool + bool :=
  match ids with
  | [] => inr rawFlexible
  | id :: ids =>
      if negb (bool_decide (ComparePrefix (View d id) candidate false = Eq)) then inr rawFlexible
      else if HasUpper (View d id) (rule_of d id) then inl true
      else raw_scan d candidate ids true
  end.

(** The second loop, over the keys the folded candidate begins. *)
Fixpoint fold_scan (d : Data) (folded : wstring) (mode : bool) (ids : list nat) : bool :=
  match ids with
  | [] => false
  | id :: ids =>
      if negb (bool_decide (ComparePrefix (View d id) folded mode = Eq)) then false
      else if negb (HasUpper (View d id) (rule_of d id)) then true
      else fold_scan d folded mode ids
  end.

Definition kInlineFoldChars : nat := 32.

Definition ContainsOtherPrefixes (d : Data) (candidate : wstring) : bool :=
  match raw_scan d candidate (drop (find d candidate false) (sorted d)) false with
  | inl r => r
  | inr rawFlexible =>
      if bool_decide (foldStarts d = []) then false
      else
        let first := Fold (hd 0 candidate) in
        if negb (binary_search Z.ltb first (foldStarts d)) then false
        else
          let normalized := (length candidate <=? kInlineFoldChars)%nat in
          let folded := if normalized then first :: map Fold (tail candidate) else candidate in
          if normalized && rawFlexible && bool_decide (folded = candidate) then true
          else fold_scan d folded (negb normalized)
                 (drop (find d folded (negb normalized)) (sorted d))
  end.

Definition ContainsPrefix (ix : MacroPrefixIndex) (candidate : wstring) : bool :=
  match data_ ix with
  | None => false
  | Some d =>
      if bool_decide (candidate = []) then false
      else if (length candidate <=? length (firstKey_ ix))%nat &&
              bool_decide (ComparePrefix (firstKey_ ix) candidate
                             (negb (HasUpper (firstKey_ ix) (firstCase_ ix))) = Eq) then true
      else if (length (keys d) =? 1)%nat || (maxLength d <? length candidate)%nat then false
      else ContainsOtherPrefixes d candidate
  end.

End Prefix.

(** ** The macro prefix index is the scan of the keys

    The order of strings, what the construction of the index establishes, what
    the two scans find in a sorted index, and the equivalence. *)

(** ** The order of strings *)

Definition wle (a b : wstring) : Prop := wcompare a b <> Gt.

Lemma wcompare_eq a b : wcompare a b = Eq <-> a = b.
Proof.
  revert b. induction a as [|x a IH]; intros [|y b]; simpl; try done.
  destruct (Z.compare_spec x y) as [->|H|H]; [rewrite IH; split; congruence|..];
    (split; [done|]; intros [= -> _]; lia).
Qed.

Lemma wcompare_refl a : wcompare a a = Eq.
Proof. by apply wcompare_eq. Qed.

Lemma wcompare_antisym a b : wcompare b a = CompOpp (wcompare a b).
Proof.
  revert b. induction a as [|x a IH]; intros [|y b]; simpl; try done.
  rewrite Z.compare_antisym. destruct (x ?= y); simpl; auto.
Qed.

Lemma wle_refl a : wle a a.
Proof. unfold wle. by rewrite wcompare_refl. Qed.

Lemma wle_antisym a b : wle a b -> wle b a -> a = b.
Proof.
  unfold wle. rewrite (wcompare_antisym a b). intros H1 H2. apply wcompare_eq.
  by destruct (wcompare a b).
Qed.

Lemma wle_trans a b c : wle a b -> wle b c -> wle a c.
Proof.
  unfold wle. revert b c. induction a as [|x a IH]; intros [|y b] [|z c]; simpl; try done.
  destruct (Z.compare_spec x y) as [->|?|?]; [|intros _ Hbc|done].
  - destruct (y ?= z); eauto.
  - destruct (Z.compare_spec y z) as [->|?|?];
      [by rewrite (proj2 (Z.compare_lt_iff _ _)) by lia..|done].
Qed.

Lemma wless_false a b : wless b a = false <-> wle a b.
Proof. unfold wless, wle. rewrite (wcompare_antisym a b). by destruct (wcompare a b). Qed.

Lemma wless_asym a b : wless a b = true -> wless b a = false.
Proof. unfold wless. rewrite (wcompare_antisym a b). by destruct (wcompare a b). Qed.

(** Cutting two strings at one length keeps their order. *)
Lemma wle_take n a b : wle a b -> wle (take n a) (take n b).
Proof.
  unfold wle. revert n b. induction a as [|x a IH]; intros [|n] [|y b]; simpl; try done.
  destruct (x ?= y); auto.
Qed.

(** A string between two others has the prefix they share. *)
Lemma wle_between n a b c :
  wle a b -> wle b c -> take n a = take n c -> take n b = take n a.
Proof.
  intros H1 H2 E. apply wle_antisym; [|by apply wle_take].
  rewrite E. by apply wle_take.
Qed.

Lemma common_prefix_take a b :
  take (common_prefix a b) a = take (common_prefix a b) b.
Proof.
  revert b. induction a as [|x a IH]; intros [|y b]; simpl; try done.
  destruct (x =w y) eqn:E; [|done]. apply Z.eqb_eq in E as ->. simpl. by rewrite IH.
Qed.

(** ** Comparing a prefix *)

Section Facts.
Context `{loc : Locale} {laws : LocaleLaws loc}.

Lemma Fold_towlower c : Fold c = loc_towlower c.
Proof.
  unfold Fold. change (wchar_of_ascii "A"%char) with 65. change (wchar_of_ascii "Z"%char) with 90.
  destruct ((65 <=? c) && (c <=? 90)) eqn:E; [done|]. simpl.
  destruct (127 <? c) eqn:E2; [done|]. symmetry. apply towlower_ascii; [lia|done].
Qed.

Definition query_of (folded : bool) (q : wstring) : wstring := if folded then map Fold q else q.

Lemma length_query folded q : length (query_of folded q) = length q.
Proof. destruct folded; simpl; [by rewrite length_map|done]. Qed.

Lemma take_query folded n q : take n (query_of folded q) = query_of folded (take n q).
Proof. destruct folded; simpl; [by rewrite firstn_map|done]. Qed.

Lemma ComparePrefix_query key q folded :
  ComparePrefix key q folded = wcompare (take (length q) key) (query_of folded q).
Proof.
  destruct folded; [|done]. simpl. revert key.
  induction q as [|c q IH]; intros [|k key]; simpl; try done.
  rewrite <- IH. destruct (Z.compare_spec k (Fold c)) as [->|H|H].
  - by rewrite Z.ltb_irrefl.
  - by rewrite (proj2 (Z.ltb_lt _ _) H).
  - by rewrite (proj2 (Z.ltb_ge _ _)) by lia; rewrite (proj2 (Z.ltb_lt _ _) H).
Qed.

Lemma ComparePrefix_eq key q folded :
  ComparePrefix key q folded = Eq <-> take (length q) key = query_of folded q.
Proof. by rewrite ComparePrefix_query, wcompare_eq. Qed.

(** Along the order of the keys, the comparison only goes up. *)
Lemma ComparePrefix_mono a b q folded :
  wle a b -> ComparePrefix b q folded = Lt -> ComparePrefix a q folded = Lt.
Proof.
  rewrite !ComparePrefix_query. intros H%(wle_take (length q)) E.
  set (x := take _ a) in *. set (y := take _ b) in *. set (z := query_of _ _) in *.
  destruct (wcompare x z) eqn:F; [|done|].
  - apply wcompare_eq in F as <-. unfold wle in H. rewrite wcompare_antisym, E in H. done.
  - exfalso. assert (Hyz : wle y z) by (unfold wle; rewrite E; done).
    pose proof (wle_trans _ _ _ H Hyz). done.
Qed.

Lemma ComparePrefix_mono_gt a b q folded :
  wle a b -> ComparePrefix a q folded <> Lt ->
  ComparePrefix b q folded = Eq -> ComparePrefix a q folded = Eq.
Proof.
  rewrite !ComparePrefix_query. intros H%(wle_take (length q)) H1 E%wcompare_eq.
  rewrite E in H. unfold wle in H. by destruct (wcompare (take _ a) _).
Qed.

(** ** Case rules *)

Lemma key_rule_strict key rule : rule <> Strict ->
  key_rule rule key = Strict <->
  existsb (fun ch => (65 <=? ch) && (ch <=? 90)) key = true.
Proof.
  revert rule. induction key as [|c key IH]; intros rule Hr; simpl.
  - split; [done|discriminate].
  - change (wchar_of_ascii "A"%char) with 65. change (wchar_of_ascii "Z"%char) with 90.
    destruct ((65 <=? c) && (c <=? 90)); [done|]. simpl. apply IH. by destruct (127 <? c).
Qed.

(** A rule that is not "depends on the locale": every character is ASCII, up to
    the first capital. *)
Lemma key_rule_flexible key rule :
  key_rule rule key = Flexible -> rule = Flexible /\ Forall (fun ch => ch <= 127) key.
Proof.
  revert rule. induction key as [|c key IH]; intros rule; simpl; [done|].
  destruct (_ && _); [done|]. intros [H1 H2]%IH. destruct (127 <? c) eqn:E; [done|].
  split; [done|]. constructor; [lia|done].
Qed.

Lemma HasUpper_hasUpper key : HasUpper key (key_rule Flexible key) = hasUpper key.
Proof.
  unfold HasUpper, hasUpper. pose proof (key_rule_strict key Flexible ltac:(done)) as Hs.
  destruct (existsb (fun ch => (65 <=? ch) && (ch <=? 90)) key) eqn:E.
  - rewrite (proj2 Hs eq_refl). simpl. symmetry. apply existsb_exists.
    apply existsb_exists in E as (c & Hc & E). exists c. split; [done|].
    rewrite iswupper_ascii by lia. done.
  - assert (Hno : forall c, In c key -> (65 <=? c) && (c <=? 90) = false).
    { intros c Hc. apply not_true_iff_false. intros E2.
      apply not_true_iff_false in E. apply E, existsb_exists. eauto. }
    destruct (key_rule Flexible key) eqn:R; simpl.
    + apply key_rule_flexible in R as [_ R]. symmetry. apply not_true_iff_false.
      intros (c & Hc & E2)%existsb_exists. rewrite List.Forall_forall in R.
      rewrite iswupper_ascii, Hno in E2 by auto. done.
    + by pose proof (proj1 Hs eq_refl).
    + clear Hs R E. induction key as [|c key IH]; [done|]. simpl.
      rewrite IH by (intros; apply Hno; by right). f_equal.
      destruct (127 <? c) eqn:E; [done|]. simpl. rewrite iswupper_ascii by lia.
      symmetry. apply Hno. by left.
Qed.

(** ** What the construction establishes *)

Record good_data (d : Data) (ks : list wstring) : Prop := {
  gd_view i k : ks !! i = Some k -> View d i = k /\ rule_of d i = key_rule Flexible k;
  gd_length : length (keys d) = length ks;
  gd_perm : sorted d ≡ₚ seq 0 (length ks);
  gd_ord : StronglySorted (fun i j => wle (View d i) (View d j)) (sorted d);
  gd_starts_ord : StronglySorted Z.le (foldStarts d);
  gd_starts i c s : i ∈ sorted d -> View d i = c :: s -> rule_of d i <> Strict ->
    c ∈ foldStarts d;
  gd_max k : k ∈ ks -> (length k <= maxLength d)%nat;
  gd_common i : i ∈ sorted d ->
    take (commonLength d) (View d i) = take (commonLength d) (View d (hd 0%nat (sorted d)))
}.

(** The fold over the keys, before the sort. *)
Record added (d : Data) (ks : list wstring) : Prop := {
  ad_view i k : ks !! i = Some k -> View d i = k /\ rule_of d i = key_rule Flexible k /\
    (k_offset (keys d !!! i) + k_length (keys d !!! i) <= length (text d))%nat;
  ad_length : length (keys d) = length ks;
  ad_sorted : sorted d = seq 0 (length ks);
  ad_max k : k ∈ ks -> (length k <= maxLength d)%nat
}.

Lemma AddKey_added d f ks key :
  added d ks -> added (AddKey (d, f) key).1 (ks ++ [key]).
Proof.
  intros [Hv Hl Hs Hm]. constructor; cbn [AddKey fst text keys sorted maxLength].
  - intros i k. unfold View, rule_of; cbn [AddKey fst text keys].
    rewrite lookup_app_Some. intros [Hi|[Hi Hk]].
    + destruct (Hv i k Hi) as (H1 & H2 & H3). apply lookup_lt_Some in Hi.
      rewrite lookup_total_app_l by lia. rewrite length_app.
      split_and!; [|done|lia]. rewrite <- H1 at 1. unfold View.
      rewrite drop_app_le by lia. rewrite take_app_le; [done|]. rewrite length_drop. lia.
    + apply list_lookup_singleton_Some in Hk as [Hk <-].
      replace i with (length (keys d)) by lia.
      rewrite lookup_total_app_r, Nat.sub_diag by lia. cbn.
      rewrite drop_app_length, firstn_all, length_app. done.
  - rewrite !length_app. simpl. lia.
  - rewrite length_app, Hs, Hl, Nat.add_1_r, seq_S. done.
  - intros k. rewrite elem_of_app, list_elem_of_singleton.
    intros [Hk| ->]; [specialize (Hm k Hk)|]; lia.
Qed.

Lemma AddKey_fold d f ks1 ks2 :
  added d ks1 ->
  let r := foldl AddKey (d, f) ks2 in
  added r.1 (ks1 ++ ks2) /\
  (ks1 <> [] -> r.2 = f).
Proof.
  revert d f ks1. induction ks2 as [|k ks2 IH]; intros d f ks1 Ha.
  { rewrite app_nil_r. done. }
  cbn [foldl]. pose proof (AddKey_added d f ks1 k Ha) as Ha'.
  destruct (AddKey (d, f) k) as [d' f'] eqn:E.
  destruct (IH d' f' (ks1 ++ [k]) Ha') as [H1 H2]. rewrite <- app_assoc in H1.
  split; [done|]. intros Hne. rewrite H2 by (by destruct ks1).
  unfold AddKey in E. injection E as _ <-. rewrite bool_decide_eq_false_2; [done|].
  destruct Ha as [_ Hl _ _]. intros E. rewrite E in Hl. by destruct ks1.
Qed.

Lemma added_empty : added empty_data [].
Proof. constructor; try done. by intros k ?%elem_of_nil. Qed.

(** The order of the views, and their first letters along it. *)
Lemma stable_sort_views d ids :
  let r := stable_sort (fun l r => wless (View d l) (View d r)) ids in
  r ≡ₚ ids /\ StronglySorted (fun i j => wle (View d i) (View d j)) r.
Proof.
  cbv zeta. split; [apply sort_perm|].
  eapply StronglySorted_weaken; [|eapply (sort_ordered _ (fun _ => True))].
  - intros i j. unfold not_after. by rewrite wless_false.
  - intros i j _ _. apply wless_asym.
  - unfold not_after. intros a b c _ _ _. rewrite !wless_false. apply wle_trans.
  - apply Forall_forall. done.
Qed.

Lemma sorted_last_max {A} (R : A -> A -> Prop) l a x :
  (forall y, R y y) -> StronglySorted R l -> x ∈ l -> R x (List.last l a).
Proof.
  intros Hr Hs. revert x. induction Hs as [|y l Hl IH Hy]; intros x.
  - by rewrite elem_of_nil.
  - rewrite elem_of_cons. destruct l as [|z l].
    + intros [->|Hx%elem_of_nil]; [apply Hr|done].
    + intros [->|Hx]; [|by apply IH]. rewrite List.Forall_forall in Hy. apply Hy.
      change (List.last (y :: z :: l) a) with (List.last (z :: l) a).
      clear. revert z. induction l as [|w l IH]; intros z; [by left|].
      right. apply IH.
Qed.

Lemma sorted_hd_min {A} (R : A -> A -> Prop) l a x :
  (forall y, R y y) -> StronglySorted R l -> x ∈ l -> R (hd a l) x.
Proof.
  intros Hr Hs Hx. destruct Hs as [|y l Hl Hy]; [by apply elem_of_nil in Hx|].
  apply elem_of_cons in Hx as [->|Hx]; [apply Hr|].
  rewrite Forall_forall in Hy. by apply Hy, list_elem_of_In.
Qed.

Lemma wle_front a b x y s t : a = x :: s -> b = y :: t -> wle a b -> x <= y.
Proof.
  intros -> ->. unfold wle. simpl. destruct (Z.compare_spec x y); [lia|lia|done].
Qed.

Lemma AddFoldStart_elem d starts id c :
  c ∈ AddFoldStart d starts id ->
  c ∈ starts \/ exists s, View d id = c :: s.
Proof.
  unfold AddFoldStart. destruct (View d id) as [|f s]; [by left|].
  destruct (_ == _); [by left|]. destruct (_ || _); [|by left].
  rewrite elem_of_app, list_elem_of_singleton. intros [H| ->]; eauto.
Qed.

Lemma AddFoldStart_keeps d starts id c : c ∈ starts -> c ∈ AddFoldStart d starts id.
Proof.
  intros H. unfold AddFoldStart. repeat case_match; auto. apply elem_of_app. by left.
Qed.

Lemma AddFoldStart_adds d starts id c s :
  View d id = c :: s -> rule_of d id <> Strict -> c ∈ AddFoldStart d starts id.
Proof.
  intros E Hr. unfold AddFoldStart. rewrite E, bool_decide_eq_false_2 by done.
  destruct (_ || _) eqn:F; [apply elem_of_app; right; by left|].
  apply orb_false_iff in F as [F1%bool_decide_eq_false F2%negb_false_iff%Z.eqb_eq].
  rewrite <- F2. destruct starts as [|x l]; [done|]. clear.
  revert x. induction l as [|y l IH]; intros x; [by left|]. right. apply IH.
Qed.

Lemma AddFoldStart_ord d starts id :
  StronglySorted Z.le starts ->
  (forall c f s, c ∈ starts -> View d id = f :: s -> c <= f) ->
  StronglySorted Z.le (AddFoldStart d starts id).
Proof.
  intros Hs Hle. unfold AddFoldStart. destruct (View d id) as [|f s]; [done|].
  destruct (_ == _); [done|]. destruct (_ || _); [|done].
  apply StronglySorted_app_2; [|done|repeat constructor].
  intros x y Hx ->%list_elem_of_singleton. by apply (Hle x f s).
Qed.

Lemma fold_starts_spec d ids starts :
  StronglySorted (fun i j => wle (View d i) (View d j)) ids ->
  StronglySorted Z.le starts ->
  (forall c id f s, c ∈ starts -> id ∈ ids -> View d id = f :: s -> c <= f) ->
  let r := foldl (AddFoldStart d) starts ids in
  StronglySorted Z.le r /\ (forall c, c ∈ starts -> c ∈ r) /\
  (forall id c s, id ∈ ids -> View d id = c :: s -> rule_of d id <> Strict -> c ∈ r).
Proof.
  intros Hs. revert starts. induction Hs as [|id ids Hs IH Hid]; intros starts Ho Hle; simpl.
  { split_and!; [done|done|]. by intros id c s ?%elem_of_nil. }
  destruct (IH (AddFoldStart d starts id)) as (H1 & H2 & H3).
  - apply AddFoldStart_ord; [done|]. intros c f s Hc. apply (Hle c id f s); [done|by left].
  - intros c j f s [Hc|[t Ht]]%AddFoldStart_elem Hj E.
    + apply (Hle c j f s); [done|by right|done].
    + rewrite Forall_forall in Hid. eapply wle_front; [exact Ht|exact E|].
      by apply Hid, list_elem_of_In.
  - split_and!; [done|..].
    + intros c Hc. by apply H2, AddFoldStart_keeps.
    + intros j c s [->|Hj]%elem_of_cons E Hr; [|eauto]. eapply H2, AddFoldStart_adds; eauto.
Qed.

(** ** The built index *)

Lemma NewIndex_good ks : ks <> [] ->
  exists d, data_ (NewIndex ks) = Some d /\ good_data d ks /\
    firstKey_ (NewIndex ks) ∈ ks /\
    firstCase_ (NewIndex ks) = key_rule Flexible (firstKey_ (NewIndex ks)).
Proof.
  destruct ks as [|k ks]; [done|]. intros _. unfold NewIndex. cbn [foldl].
  set (f0 := AddKey _ k).
  assert (Hf : f0.2 = (k, key_rule Flexible k)) by done.
  assert (Ha : added f0.1 [k]) by apply (AddKey_added empty_data ([], Flexible) [] k added_empty).
  destruct f0 as [d0 f0]. cbn in Hf, Ha. subst f0.
  destruct (AddKey_fold d0 (k, key_rule Flexible k) [k] ks Ha) as [Hd Hfst].
  destruct (foldl AddKey _ ks) as [d [first rule]]. cbn in Hd, Hfst.
  injection (Hfst ltac:(done)) as -> ->. change ([k] ++ ks) with (k :: ks) in Hd.
  destruct Hd as [Hv Hl Hs Hm].
  destruct (stable_sort_views d (sorted d)) as [Hp Ho].
  set (ids := stable_sort _ (sorted d)) in *.
  destruct (fold_starts_spec d ids [] Ho) as (F1 & _ & F2);
    [constructor|by intros c id f s ?%elem_of_nil|].
  eexists. split; [reflexivity|]. split; [|split; [by left|done]].
  constructor; cbn [sorted keys text foldStarts maxLength commonLength].
  - intros i x Hi. destruct (Hv i x Hi) as (H1 & H2 & _). done.
  - done.
  - by rewrite Hp, Hs.
  - exact Ho.
  - exact F1.
  - exact F2.
  - exact Hm.
  - intros i Hi. eapply wle_between; cycle 2.
    + apply common_prefix_take.
    + by apply (sorted_hd_min (fun i j => wle (View d i) (View d j)) ids 0%nat i (fun _ => wle_refl _)).
    + by apply (sorted_last_max (fun i j => wle (View d i) (View d j)) ids 0%nat i (fun _ => wle_refl _)).
Qed.

(** ** The two scans *)

Definition matches (q : wstring) (folded : bool) (key : wstring) : bool :=
  bool_decide (ComparePrefix key q folded = Eq).

Section Index.
Context (d : Data) (ks : list wstring) (Hd : good_data d ks).

Lemma gd_elem id : id ∈ sorted d -> exists k, ks !! id = Some k.
Proof.
  rewrite (gd_perm _ _ Hd), elem_of_seq. intros H. apply lookup_lt_is_Some_2. lia.
Qed.

Lemma gd_HasUpper id : id ∈ sorted d -> HasUpper (View d id) (rule_of d id) = hasUpper (View d id).
Proof.
  intros [k Hk]%gd_elem. destruct (gd_view _ _ Hd id k Hk) as [-> ->]. apply HasUpper_hasUpper.
Qed.

(** A test of some key is a test of some index entry. *)
Lemma existsb_sorted (p : wstring -> bool) :
  existsb (fun id => p (View d id)) (sorted d) = existsb p ks.
Proof.
  apply eq_true_iff_eq. rewrite !existsb_exists. split.
  - intros (id & [k Hk]%list_elem_of_In%gd_elem & E).
    destruct (gd_view _ _ Hd id k Hk) as [Ev _]. exists k. rewrite Ev in E.
    split; [|done]. apply list_elem_of_In. by eapply list_elem_of_lookup_2.
  - intros (k & [i Hi]%list_elem_of_In%list_elem_of_lookup_1 & E). exists i. split.
    + apply list_elem_of_In. rewrite (gd_perm _ _ Hd), elem_of_seq.
      apply lookup_lt_Some in Hi. lia.
    + by destruct (gd_view _ _ Hd i k Hi) as [-> _].
Qed.

(** Nothing begins with the query when the shared prefix of the keys does not. *)
Lemma find_rejects q folded id :
  let n := Nat.min (commonLength d) (length q) in
  ComparePrefix (take n (View d (hd 0%nat (sorted d)))) (take n q) folded <> Eq ->
  id ∈ sorted d -> matches q folded (View d id) = false.
Proof.
  intros n Hne Hid. apply bool_decide_eq_false. rewrite ComparePrefix_eq.
  intros E. apply Hne, ComparePrefix_eq.
  rewrite length_take, take_take, <- take_query, <- E, take_take.
  replace ((n `min` length q) `min` n)%nat with n by lia.
  replace (n `min` length q)%nat with n by lia.
  pose proof (gd_common _ _ Hd id Hid) as Hc. apply (f_equal (take n)) in Hc.
  rewrite !take_take in Hc. replace (n `min` commonLength d)%nat with n in Hc by lia. done.
Qed.

(** What [find] leaves to scan: an ordered part with every match in it. *)
Lemma find_spec q folded :
  let rest := drop (find d q folded) (sorted d) in
  StronglySorted (fun i j => wle (View d i) (View d j)) rest /\
  (forall id, id ∈ rest -> id ∈ sorted d /\ ComparePrefix (View d id) q folded <> Lt) /\
  (forall id, id ∈ sorted d -> matches q folded (View d id) = true -> id ∈ rest).
Proof.
  cbv zeta. unfold find. pose proof (gd_ord _ _ Hd) as Ho.
  destruct (negb _ && negb _) eqn:E.
  - rewrite drop_all. split_and!; [constructor|by intros ? ?%elem_of_nil|].
    apply andb_true_iff in E as [_ E%negb_true_iff%bool_decide_eq_false].
    intros id Hid. by rewrite (find_rejects q folded id).
  - set (before := fun id => bool_decide (ComparePrefix (View d id) q folded = Lt)).
    assert (Hp : partitioned before (sorted d)).
    { eapply StronglySorted_weaken; [|exact Ho]. intros i j Hij. unfold before.
      rewrite !bool_decide_eq_true. by apply ComparePrefix_mono. }
    destruct (lower_bound_split before (sorted d) Hp) as (l1 & l2 & Es & Ek & H1 & H2).
    rewrite Ek, Es, drop_app_length. rewrite Es in Ho. rewrite List.Forall_forall in H1, H2.
    split_and!; [by apply StronglySorted_app_1_r in Ho|..].
    + intros id Hid. split; [apply elem_of_app; by right|].
      apply list_elem_of_In, H2 in Hid. by apply bool_decide_eq_false in Hid.
    + intros id [Hid|Hid]%elem_of_app Hm; [|done].
      apply list_elem_of_In, H1 in Hid. apply bool_decide_eq_true in Hid, Hm. congruence.
Qed.

(** Once a scan sees a key the query does not begin, no later key matches. *)
Lemma no_later_match q folded id rest :
  StronglySorted (fun i j => wle (View d i) (View d j)) (id :: rest) ->
  ComparePrefix (View d id) q folded <> Lt -> matches q folded (View d id) = false ->
  forall c, existsb (fun j => matches q folded (View d j) && c j) rest = false.
Proof.
  intros Hs Hn Hm c. apply not_true_iff_false. intros (j & Hj & E)%existsb_exists.
  apply andb_true_iff in E as [E _]. apply bool_decide_eq_true in E.
  apply bool_decide_eq_false in Hm. apply Hm.
  apply StronglySorted_inv in Hs as [_ Hs]. rewrite List.Forall_forall in Hs.
  by apply (ComparePrefix_mono_gt _ (View d j)); [apply Hs|..].
Qed.

Lemma raw_scan_spec q rest rf :
  StronglySorted (fun i j => wle (View d i) (View d j)) rest ->
  (forall id, id ∈ rest -> id ∈ sorted d /\ ComparePrefix (View d id) q false <> Lt) ->
  raw_scan d q rest rf =
  if existsb (fun id => matches q false (View d id) && hasUpper (View d id)) rest then inl true
  else inr (rf || existsb (fun id => matches q false (View d id) && true) rest).
Proof.
  revert rf. induction rest as [|id rest IH]; intros rf Hs Hr;
    cbn [raw_scan existsb].
  { by rewrite orb_false_r. }
  destruct (Hr id ltac:(by left)) as [Hid Hn]. fold (matches q false (View d id)).
  destruct (matches q false (View d id)) eqn:E; simpl.
  - rewrite gd_HasUpper by done. destruct (hasUpper (View d id)); [done|]. simpl.
    rewrite IH; [by rewrite orb_true_r|by apply StronglySorted_inv in Hs as [? _]|].
    intros j Hj. apply Hr. by right.
  - rewrite (no_later_match q false id rest Hs Hn E (fun j => hasUpper (View d j))).
    rewrite (no_later_match q false id rest Hs Hn E (fun _ => true)).
    by rewrite orb_false_r.
Qed.

Lemma fold_scan_spec q mode rest :
  StronglySorted (fun i j => wle (View d i) (View d j)) rest ->
  (forall id, id ∈ rest -> id ∈ sorted d /\ ComparePrefix (View d id) q mode <> Lt) ->
  fold_scan d q mode rest =
  existsb (fun id => matches q mode (View d id) && negb (hasUpper (View d id))) rest.
Proof.
  induction rest as [|id rest IH]; intros Hs Hr; cbn [fold_scan existsb]; [done|].
  destruct (Hr id ltac:(by left)) as [Hid Hn]. fold (matches q mode (View d id)).
  destruct (matches q mode (View d id)) eqn:E; simpl.
  - rewrite gd_HasUpper by done. destruct (hasUpper (View d id)); [|done]. simpl.
    apply IH; [by apply StronglySorted_inv in Hs as [? _]|]. intros j Hj. apply Hr. by right.
  - by rewrite (no_later_match q mode id rest Hs Hn E).
Qed.

(** The part [find] returns stands for the whole set of keys. *)
Lemma existsb_found q folded (p : wstring -> bool) :
  existsb (fun id => matches q folded (View d id) && p (View d id))
    (drop (find d q folded) (sorted d)) =
  existsb (fun k => matches q folded k && p k) ks.
Proof.
  rewrite <- (existsb_sorted (fun k => matches q folded k && p k)).
  destruct (find_spec q folded) as (_ & H1 & H2).
  apply eq_true_iff_eq. rewrite !existsb_exists. split; intros (id & Hid & E);
    apply list_elem_of_In in Hid; exists id; (split; [|done]); apply list_elem_of_In.
  - by apply H1.
  - apply H2; [done|]. by apply andb_true_iff in E as [E _].
Qed.

Lemma raw_part q :
  raw_scan d q (drop (find d q false) (sorted d)) false =
  if existsb (fun k => matches q false k && hasUpper k) ks then inl true
  else inr (existsb (fun k => matches q false k && true) ks).
Proof.
  destruct (find_spec q false) as (H0 & H1 & _). rewrite raw_scan_spec by done.
  by rewrite (existsb_found q false hasUpper), (existsb_found q false (fun _ => true)).
Qed.

Lemma fold_part q mode :
  fold_scan d q mode (drop (find d q mode) (sorted d)) =
  existsb (fun k => matches q mode k && negb (hasUpper k)) ks.
Proof.
  destruct (find_spec q mode) as (H0 & H1 & _). rewrite fold_scan_spec by done.
  by rewrite (existsb_found q mode (fun k => negb (hasUpper k))).
Qed.

(** A key the folded query begins is announced by its first letter. *)
Lemma fold_match_start q k :
  q <> [] -> k ∈ ks -> matches q true k && negb (hasUpper k) = true ->
  Fold (hd 0 q) ∈ foldStarts d.
Proof.
  intros Hq [i Hi]%list_elem_of_lookup_1 [Hm Hu]%andb_true_iff.
  destruct (gd_view _ _ Hd i k Hi) as [Ev Er].
  apply bool_decide_eq_true, ComparePrefix_eq in Hm. destruct q as [|c q]; [done|].
  destruct k as [|x k]; [done|]. simpl in Hm. injection Hm as Hx _. simpl. rewrite <- Hx.
  apply (gd_starts _ _ Hd i x k); [|done|].
  - rewrite (gd_perm _ _ Hd), elem_of_seq. apply lookup_lt_Some in Hi. lia.
  - rewrite Er. intros Es. pose proof (HasUpper_hasUpper (x :: k)) as H.
    rewrite Es in H. change (HasUpper (x :: k) Strict) with true in H.
    by rewrite <- H in Hu.
Qed.

Lemma matches_folded q k : matches (map Fold q) false k = matches q true k.
Proof.
  apply bool_decide_ext. rewrite !ComparePrefix_eq. simpl. by rewrite length_map.
Qed.

Lemma ContainsOtherPrefixes_spec q : q <> [] ->
  ContainsOtherPrefixes d q =
  existsb (fun k => matches q false k && hasUpper k) ks ||
  existsb (fun k => matches q true k && negb (hasUpper k)) ks.
Proof.
  intros Hq. unfold ContainsOtherPrefixes. rewrite raw_part.
  destruct (existsb (fun k => matches q false k && hasUpper k) ks) eqn:HS; [done|].
  rewrite orb_false_l.
  set (F := existsb (fun k => matches q true k && negb (hasUpper k)) ks).
  assert (Hstart : F = true -> Fold (hd 0 q) ∈ foldStarts d).
  { intros (k & Hk & E)%existsb_exists. apply (fold_match_start q k); [done| |done].
    by apply list_elem_of_In. }
  destruct (bool_decide (foldStarts d = [])) eqn:E1.
  { apply bool_decide_eq_true in E1. rewrite E1 in Hstart. symmetry.
    apply not_true_iff_false. intros H%Hstart%elem_of_nil. done. }
  destruct (binary_search Z.ltb (Fold (hd 0 q)) (foldStarts d)) eqn:E2; simpl; cycle 1.
  { symmetry. apply not_true_iff_false. intros H%Hstart.
    apply (binary_search_elem _ _ (gd_starts_ord _ _ Hd)) in H. congruence. }
  destruct (length q <=? kInlineFoldChars)%nat; simpl; [|by rewrite fold_part].
  replace (Fold (hd 0 q) :: map Fold (tail q)) with (map Fold q) by (by destruct q).
  rewrite fold_part.
  rewrite (existsb_ext (fun k => matches (map Fold q) false k && negb (hasUpper k))
    (fun k => matches q true k && negb (hasUpper k)))
    by (intros k; by rewrite matches_folded).
  fold F.
  destruct (existsb (fun k => matches q false k && true) ks) eqn:E3; [|done]. simpl.
  destruct (bool_decide (map Fold q = q)) eqn:E4; [|done].
  apply bool_decide_eq_true in E4. symmetry.
  apply existsb_exists in E3 as (k & Hk & E3). rewrite andb_true_r in E3.
  apply existsb_exists. exists k. split; [done|]. rewrite <- matches_folded, E4, E3. simpl.
  destruct (hasUpper k) eqn:Hu; [|done]. rewrite <- not_true_iff_false, existsb_exists in HS.
  exfalso. apply HS. exists k. by rewrite E3, Hu.
Qed.

End Index.

(** ** The equivalence *)

(** One key of the scan, length test included. *)
Definition hit (q key : wstring) : bool := matches q (negb (hasUpper key)) key.

Lemma matches_length q folded k : matches q folded k = true -> (length q <= length k)%nat.
Proof.
  intros H%bool_decide_eq_true%ComparePrefix_eq. apply (f_equal length) in H.
  rewrite length_take, length_query in H. lia.
Qed.

Lemma existsb_hit q ks :
  existsb (hit q) ks =
  existsb (fun k => matches q false k && hasUpper k) ks ||
  existsb (fun k => matches q true k && negb (hasUpper k)) ks.
Proof.
  rewrite <- existsb_orb. apply existsb_ext. intros k. unfold hit.
  destruct (hasUpper k); simpl; by rewrite ?andb_true_r, ?andb_false_r, ?orb_false_r.
Qed.

Lemma IsSpaceMacroPrefix_hit q ks : q <> [] -> IsSpaceMacroPrefix q ks = existsb (hit q) ks.
Proof.
  intros Hq. unfold IsSpaceMacroPrefix. rewrite (bool_decide_eq_false_2 (q = [])) by done.
  rewrite orb_false_r. destruct (bool_decide (ks = [])) eqn:E.
  { apply bool_decide_eq_true in E. by subst. }
  apply existsb_ext. intros k. unfold hit.
  destruct (length k <? length q)%nat eqn:El.
  - symmetry. apply not_true_iff_false. intros H%matches_length.
    apply Nat.ltb_lt in El. lia.
  - unfold matches. destruct (hasUpper k); simpl; apply bool_decide_ext.
    + by rewrite wcompare_eq.
    + rewrite (ComparePrefix_eq k q true). simpl.
      rewrite (map_ext Fold loc_towlower) by (intros; apply Fold_towlower). done.
Qed.

(** C21. The index answers what the scan of the keys answers, for every set of
    keys, every candidate and every locale that treats ASCII as ASCII. *)
Theorem ContainsPrefix_is_scan ks candidate :
  ContainsPrefix (NewIndex ks) candidate = IsSpaceMacroPrefix candidate ks.
Proof.
  destruct (decide (candidate = [])) as [->|Hq].
  { unfold ContainsPrefix, IsSpaceMacroPrefix. rewrite orb_true_r. by destruct (data_ _). }
  rewrite IsSpaceMacroPrefix_hit by done.
  destruct (decide (ks = [])) as [->|Hks]; [done|].
  destruct (NewIndex_good ks Hks) as (d & Ed & Hd & Hk0 & Hr).
  unfold ContainsPrefix. rewrite Ed, bool_decide_eq_false_2, Hr, HasUpper_hasUpper by done.
  set (k0 := firstKey_ (NewIndex ks)) in *.
  change (bool_decide (ComparePrefix k0 candidate (negb (hasUpper k0)) = Eq)) with (hit candidate k0).
  destruct ((length candidate <=? length k0)%nat && hit candidate k0) eqn:E.
  { apply andb_true_iff in E as [_ E]. symmetry. apply existsb_exists. exists k0.
    split; [by apply list_elem_of_In|done]. }
  destruct (length (keys d) =? 1)%nat eqn:E1; simpl.
  { rewrite (gd_length _ _ Hd) in E1. apply Nat.eqb_eq in E1.
    destruct ks as [|k [|]]; try done. apply list_elem_of_singleton in Hk0.
    rewrite <- Hk0. simpl. rewrite orb_false_r. symmetry. apply not_true_iff_false. intros H.
    pose proof (matches_length _ _ _ H). rewrite H, andb_true_r in E.
    apply Nat.leb_gt in E. lia. }
  destruct (maxLength d <? length candidate)%nat eqn:E2.
  { symmetry. apply not_true_iff_false. intros (k & Hk & H)%existsb_exists.
    apply matches_length in H. apply list_elem_of_In, (gd_max _ _ Hd) in Hk.
    apply Nat.ltb_lt in E2. lia. }
  by rewrite (ContainsOtherPrefixes_spec d ks Hd), existsb_hit.
Qed.

End Facts.

(** ** The C locale, and an index at work *)

Definition c_locale : Locale :=
  {| loc_towlower := towlower; loc_iswupper := fun c => (65 <=? c) && (c <=? 90) |}.

#[export] Instance c_locale_laws : LocaleLaws c_locale.
Proof.
  constructor; simpl; [done|]. intros c _ E. unfold towlower. by rewrite E.
Qed.

(** Three keys, "an toan", "An N" and "de ", asked with "AN t", "an n" and "de". *)
Lemma ContainsPrefix_is_scan_witness :
  let ks := [[97; 110; 32; 116; 111]; [65; 110; 32; 78]; [100; 101; 32]] in
  map (ContainsPrefix (loc := c_locale) (NewIndex ks)) [[65; 78; 32; 116]; [97; 110; 32; 110]; [100; 101]]
  = [true; false; true].
Proof.
  cbv zeta. cbn [map].
  rewrite !(ContainsPrefix_is_scan (loc := c_locale)). reflexivity.
Defined.
