(* ===== verification/Macro.v ===== *)
(** * Macro expansion (src/src/core/MacroCase.{h,cpp}, MacroContextMatch.h)

    The decision part of the macro feature: which key of the table the typed
    word is, how the stored text is capitalised, how it is cut into what is sent,
    and the fallback that looks for a key in the text before the caret.  The case
    mapping of the system is behind an interface in the source, and here.  The second
    part proves what the plans and the search guarantee. *)

From stdpp Require Export gmap.
From S2P Require Import Prelude Config CodeTable.
Open Scope Z_scope.

(** ** Interfaces: the case mapper and the character classes *)

(** [CaseMapper] maps a buffer in place. *)
Class CaseMapper := { Upper : wstring -> wstring; Lower : wstring -> wstring }.

(** [iswpunct]: the ASCII punctuation, and beyond ASCII what the runtime says. *)
Class PunctPlatform := { iswpunct_wide : wchar -> bool }.
Definition iswpunct `{PunctPlatform} (c : wchar) : bool :=
  if c <? 128
  then ((33 <=? c) && (c <=? 47)) || ((58 <=? c) && (c <=? 64)) ||
       ((91 <=? c) && (c <=? 96)) || ((123 <=? c) && (c <=? 126))
  else iswpunct_wide c.

(** ** Data *)

Record PlanInputs := mkInputs {
  rawMacroBuffer : wstring; previousComposition : wstring; previousEncodedWidths : list nat;
  macroTable : gmap wstring wstring; macroCrossCommit : bool; currentCodeTable : CodeTable;
  autoCapsEnabled : bool; titleCaseEnabled : bool; wasFirstCharAutoCapped : bool;
  triggerChar : wchar; clipboardThreshold : nat
}.
Record MacroPlan := mkPlan {
  matched : bool; isPartOfMacro : bool; bsCount : nat; expansion : wstring;
  useClipboard : bool; shortcut : wstring
}.
Definition no_plan : MacroPlan := mkPlan false false 0 [] false [].

Record Segment := mkSegment { isReturn : bool; seg_text : wstring }.

Inductive CapsStyle := CapsNone | FirstLetter | Words | All.
#[export] Instance CapsStyle_eq_dec : EqDecision CapsStyle.
Proof. solve_decision. Defined.

(** The escape of a line break, a backslash and an [n], at the head of a text. *)
Definition newline_at (s : wstring) : bool :=
  match s with c :: d :: _ => (c =w 92) && (d =w L "n") | _ => false end.

Section Macro.
Context {cm : CaseMapper} {SP : SpacePlatform} {PP : PunctPlatform}.

(** ** Capitals *)

Definition lower1 (c : wchar) : wchar := hd c (Lower [c]).
Definition upper1 (c : wchar) : wchar := hd c (Upper [c]).

Definition LowerCopy (s : wstring) : wstring := if bool_decide (s = []) then s else Lower s.
Definition HasUpper (s : wstring) : bool := existsb (fun c => lower1 c <>w c) s.

(** The loop of [DetectCaps]: letters seen, all upper, an initial upper. *)
Definition CapsState : Type := nat * bool * bool.
Definition CapsStep (st : CapsState) (c : wchar) : CapsState :=
  let '(letters, allUpper, initialUpper) := st in
  let lower := lower1 c in let upper := upper1 c in
  if lower =w upper then st
  else (S letters, allUpper && (c =w upper),
        if (letters =? 0)%nat then c =w upper else initialUpper && (c =w lower)).

Definition DetectCaps (typed : wstring) (enabled titleCase sentenceCapped : bool) : CapsStyle :=
  let fallback := if sentenceCapped then FirstLetter else CapsNone in
  if enabled then
    let '(letters, allUpper, initialUpper) := foldl CapsStep (0%nat, true, false) typed in
    if allUpper && (1 <? letters)%nat then All
    else if initialUpper then (if titleCase && negb sentenceCapped then Words else FirstLetter)
    else fallback
  else fallback.

(** U+2019 is the typographic apostrophe. *)
Definition breaks_word (c : wchar) : bool :=
  iswspace c || (iswpunct c && (c <>w L "'") && (c <>w 8217)).

(** [skip] is set at a backslash that opens a line break: the [n] after it is
    the character the loop's extra [++i] steps over. *)
Fixpoint ApplyCapsLoop (style : CapsStyle) (wordStart skip : bool) (text : wstring) : wstring :=
  match text with
  | [] => []
  | c :: rest =>
      if skip then c :: ApplyCapsLoop style true false rest
      else if newline_at text then c :: ApplyCapsLoop style wordStart true rest
      else if style == All then upper1 c :: ApplyCapsLoop style wordStart false rest
      else if breaks_word c then c :: ApplyCapsLoop style true false rest
      else
        let lower := lower1 c in let upper := upper1 c in
        if lower =w upper then c :: ApplyCapsLoop style wordStart false rest
        else
          let c' := if (style == FirstLetter) || wordStart then upper else c in
          if style == FirstLetter then c' :: rest
          else c' :: ApplyCapsLoop style false false rest
  end.

Definition ApplyCaps (text : wstring) (style : CapsStyle) : wstring :=
  if style == CapsNone then text else ApplyCapsLoop style true false text.

(** ** The plan *)

Definition lookup_macro (table : gmap wstring wstring) (candidate : wstring)
  : option (wstring * wstring) :=
  match table !! candidate with
  | Some v => Some (candidate, v)
  | None => let low := LowerCopy candidate in (fun v => (low, v)) <$> table !! low
  end.

(** The search of [Plan]: the iterator, [typed], [isPartOfMacro] and
    [matchedViaComposition]. *)
Definition Found : Type := option (wstring * wstring) * wstring * bool * bool.

(** Priorities 1 and 2: the buffer, and the buffer without its trigger. *)
Definition SearchRaw (inp : PlanInputs) : Found :=
  let raw := rawMacroBuffer inp in
  let printable := L " " <? triggerChar inp in
  match lookup_macro (macroTable inp) raw with
  | Some kv => (Some kv, raw, printable, false)
  | None =>
      if printable && (1 <? length raw)%nat && (List.last raw 0 =w triggerChar inp)
      then (lookup_macro (macroTable inp) (removelast raw), removelast raw, false, false)
      else (None, raw, false, false)
  end.

(** Priorities 3 and 4: the composed text with its trigger, and without. *)
Definition SearchComposition (inp : PlanInputs) (found : Found) : Found :=
  let '(it, typed, part, via) := found in
  let comp := previousComposition inp in
  if negb (bool_decide (it = None)) || bool_decide (comp = []) then found
  else
    let compWithTrigger := comp ++ [triggerChar inp] in
    let it1 := if L " " <? triggerChar inp
               then lookup_macro (macroTable inp) compWithTrigger else None in
    match it1 with
    | Some kv => (Some kv, compWithTrigger, true, true)
    | None =>
        let it2 := lookup_macro (macroTable inp) comp in
        (it2, comp, part, negb (bool_decide (it2 = None)))
    end.

Definition composition_width (inp : PlanInputs) : nat :=
  if currentCodeTable inp != Unicode
  then foldl Nat.add 0%nat (previousEncodedWidths inp)
  else length (previousComposition inp).

Definition raw_width (inp : PlanInputs) : nat :=
  let n := length (rawMacroBuffer inp) in
  if (L " " <? triggerChar inp) && (0 <? n)%nat then (n - 1)%nat else n.

Definition Plan (inp : PlanInputs) : MacroPlan :=
  let '(it, typed, part, via) := SearchComposition inp (SearchRaw inp) in
  match it with
  | None => mkPlan false part 0 [] false []
  | Some (key, stored) =>
      let bs :=
        if via then composition_width inp
        else if macroCrossCommit inp then raw_width inp
        else if negb (bool_decide (previousComposition inp = [])) then composition_width inp
        else raw_width inp in
      let text :=
        if HasUpper key then stored
        else ApplyCaps stored
               (DetectCaps typed (autoCapsEnabled inp) (titleCaseEnabled inp)
                  (wasFirstCharAutoCapped inp)) in
      mkPlan true part bs text
        ((currentCodeTable inp == Unicode) && (clipboardThreshold inp <? length text)%nat)
        typed
  end.

(** ** Dispatch: the text for the clipboard, the segments for the keyboard *)

Fixpoint ExpandEscapesLoop (skip : bool) (s : wstring) : wstring :=
  match s with
  | [] => []
  | c :: rest =>
      if skip then ExpandEscapesLoop false rest
      else if newline_at s then 13 :: 10 :: ExpandEscapesLoop true rest
      else c :: ExpandEscapesLoop false rest
  end.
Definition ExpandEscapesForClipboard (s : wstring) : wstring := ExpandEscapesLoop false s.

Definition flush (segments : list Segment) (cur : wstring) : list Segment :=
  if bool_decide (cur = []) then segments else segments ++ [mkSegment false cur].

Definition segment_units (table : CodeTable) (c : wchar) : wstring :=
  if table != Unicode then encoded_units (ConvertChar c (CodeTable_u8 table)) else [c].

Fixpoint BuildLoop (table : CodeTable) (segments : list Segment) (cur : wstring) (skip : bool)
  (s : wstring) : list Segment :=
  match s with
  | [] => flush segments cur
  | c :: rest =>
      if skip then BuildLoop table segments cur false rest
      else if newline_at s
      then BuildLoop table (flush segments cur ++ [mkSegment true []]) [] true rest
      else BuildLoop table segments (cur ++ segment_units table c) false rest
  end.
Definition BuildSegments (s : wstring) (table : CodeTable) : list Segment :=
  BuildLoop table [] [] false s.

(** Texts whose length in backspaces is known. *)
Definition uncountable_unit (ch : wchar) : bool :=
  (ch <? 32) || (65535 <? ch) || ((55296 <=? ch) && (ch <=? 57343)) ||
  ((768 <=? ch) && (ch <=? 879)) || ((6832 <=? ch) && (ch <=? 6911)) ||
  ((7616 <=? ch) && (ch <=? 7679)) || ((8204 <=? ch) && (ch <=? 8205)) ||
  ((8400 <=? ch) && (ch <=? 8447)) || ((65024 <=? ch) && (ch <=? 65071)).
Fixpoint CanUndoWithBackspaces (s : wstring) : bool :=
  match s with
  | [] => true
  | ch :: rest =>
      if uncountable_unit ch || newline_at s then false else CanUndoWithBackspaces rest
  end.

(** ** Which keys commit a word *)

Definition in_range (v lo hi : Z) : bool := (lo <=? v) && (v <=? hi).

Definition IsCommitTrigger (vkCode : Z) : bool :=
  (vkCode =w 32) || (vkCode =w 13) || (vkCode =w 27) || (vkCode =w 9) ||
  in_range vkCode 37 40 ||
  ((vkCode =w 36) || (vkCode =w 35) || (vkCode =w 33) || (vkCode =w 34)) ||
  in_range vkCode 48 57 || in_range vkCode 96 111 ||
  in_range vkCode 186 192 || in_range vkCode 219 223 ||
  ((vkCode =w 187) || (vkCode =w 188) || (vkCode =w 189) || (vkCode =w 190)) ||
  ((vkCode =w 46) || (vkCode =w 45)).

Definition IsTextProducingTrigger (vkCode : Z) (trigger : wchar) : bool :=
  IsCommitTrigger vkCode && ((vkCode =w 32) || (L " " <? trigger)).

Definition IsVerbatimCommitTrigger (trigger : wchar) : bool :=
  if trigger <=? L " " then false
  else negb (bool_decide (trigger ∈ [L "."; L ","; L ";"; L ":"; L "!"; L "?"; L ")"])).

Definition ShouldTrigger (vkCode : Z) (space enter tab dir : bool) : bool :=
  if vkCode =w 27 then false
  else if negb (IsCommitTrigger vkCode) then false
  else if vkCode =w 32 then space
  else if vkCode =w 13 then enter
  else if vkCode =w 9 then tab
  else if in_range vkCode 37 40 then dir
  else if (vkCode =w 36) || (vkCode =w 35) || (vkCode =w 33) || (vkCode =w 34) then dir
  else space || enter.

(** ** The text before the caret (MacroContextMatch.h) *)

Record ContextMatch := mkMatch { cm_plan : MacroPlan; shortcutLen : nat }.

Definition LongestMacroKeyLength (table : gmap wstring wstring) : nat :=
  map_fold (fun k _ longest => Nat.max longest (length k)) 0%nat table.

Definition context_inputs (candidate : wstring) (trigger : wchar)
  (table : gmap wstring wstring) (autoCaps titleCase : bool) (threshold : nat) : PlanInputs :=
  mkInputs candidate [] [] table true Unicode autoCaps titleCase false trigger threshold.

(** A candidate starts at the start of the text or after a blank or a mark. *)
Definition at_boundary (text : wstring) (start : nat) : bool :=
  if (0 <? start)%nat
  then let prev := nth (start - 1) text 0 in iswspace prev || iswpunct prev
  else true.

Section Context.
Context (text : wstring) (trigger : wchar) (table : gmap wstring wstring).
Context (autoCaps titleCase : bool) (threshold : nat).

Definition triggerLen : nat := if L " " <? trigger then 1 else 0.

Definition candidate_plan (len : nat) : MacroPlan :=
  let candidate := drop (length text - len) text in
  Plan (context_inputs (if (triggerLen =? 0)%nat then candidate else candidate ++ [trigger])
          trigger table autoCaps titleCase threshold).

Fixpoint MatchLoop (len : nat) : option ContextMatch :=
  match len with
  | O => None
  | S shorter =>
      if negb (at_boundary text (length text - len)) then MatchLoop shorter
      else
        let plan := candidate_plan len in
        if negb (matched plan) then MatchLoop shorter
        else Some (mkMatch (mkPlan (matched plan) (isPartOfMacro plan) len (expansion plan)
                              (useClipboard plan) (shortcut plan)) len)
  end.

Definition MatchInPrecedingText (maxShortcutLen : nat) : option ContextMatch :=
  if bool_decide (text = []) || bool_decide (table = ∅) then None
  else if (maxShortcutLen <=? triggerLen)%nat then None
  else MatchLoop (Nat.min (length text) (maxShortcutLen - triggerLen)).

End Context.
End Macro.

(** ** What macro expansion guarantees

    The plan is that of the first candidate that is a key; capitalising only
    raises letters and keeps the line breaks; the clipboard and the keyboard send
    the same text; the text before the caret is searched longest key first. *)

(** ** A text as characters and line breaks *)

Inductive Token := TkNewline | TkChar (c : wchar).

Fixpoint tokens_loop (skip : bool) (s : wstring) : list Token :=
  match s with
  | [] => []
  | c :: rest =>
      if skip then tokens_loop false rest
      else if newline_at s then TkNewline :: tokens_loop true rest
      else TkChar c :: tokens_loop false rest
  end.
Definition tokens (s : wstring) : list Token := tokens_loop false s.

Definition seg_tokens (g : Segment) : list Token :=
  if isReturn g then [TkNewline] else TkChar <$> seg_text g.
Definition encode_token (table : CodeTable) (t : Token) : list Token :=
  match t with
  | TkNewline => [TkNewline]
  | TkChar c => TkChar <$> segment_units table c
  end.
Definition paste_token (t : Token) : wstring :=
  match t with TkNewline => [13; 10] | TkChar c => [c] end.

(** ** Dispatch *)

Lemma flush_tokens segs cur :
  flush segs cur ≫= seg_tokens = (segs ≫= seg_tokens) ++ (TkChar <$> cur).
Proof.
  unfold flush. destruct cur as [|c cur]; simpl; [by rewrite app_nil_r|].
  rewrite bind_app. simpl. by rewrite app_nil_r.
Qed.

Lemma BuildLoop_tokens table segs cur skip s :
  BuildLoop table segs cur skip s ≫= seg_tokens =
  (segs ≫= seg_tokens) ++ (TkChar <$> cur) ++ (tokens_loop skip s ≫= encode_token table).
Proof.
  revert segs cur skip. induction s as [|c s IH]; intros segs cur skip.
  - simpl. by rewrite flush_tokens, app_nil_r.
  - cbn [BuildLoop tokens_loop]. destruct skip; [apply IH|].
    destruct (newline_at (c :: s)).
    + rewrite IH, bind_app, flush_tokens. csimpl. by rewrite <- !app_assoc.
    + rewrite IH, fmap_app. csimpl. by rewrite <- !app_assoc.
Qed.

(** Segments as [flush] leaves them: a return has no text, a text is not empty,
    and two texts never follow each other. *)
Definition seg_ok (g : Segment) : Prop := isReturn g = bool_decide (seg_text g = []).
Definition separated (segs : list Segment) : Prop :=
  forall i a b, segs !! i = Some a -> segs !! S i = Some b -> isReturn a || isReturn b = true.

Lemma separated_snoc segs g :
  separated segs -> (isReturn g = true \/ forall a, last segs = Some a -> isReturn a = true) ->
  separated (segs ++ [g]).
Proof.
  intros Hs Hg i a b Ha Hb. rewrite lookup_app in Hb.
  destruct (segs !! S i) as [b'|] eqn:E.
  - injection Hb as ->. apply lookup_lt_Some in E as Hlt. rewrite lookup_app_l in Ha by lia. eauto.
  - apply list_lookup_singleton_Some in Hb as [Hi <-].
    apply lookup_ge_None in E. rewrite lookup_app in Ha.
    destruct (segs !! i) as [a'|] eqn:E2.
    + injection Ha as ->. destruct Hg as [->|Hg]; [apply orb_true_r|].
      rewrite (Hg a); [done|]. rewrite last_lookup.
      apply lookup_lt_Some in E2 as Hlt. by replace (pred (length segs)) with i by lia.
    + apply lookup_ge_None in E2. lia.
Qed.

Lemma flush_ok segs cur :
  Forall seg_ok segs -> separated segs -> (forall a, last segs = Some a -> isReturn a = true) ->
  Forall seg_ok (flush segs cur) /\ separated (flush segs cur).
Proof.
  intros H1 H2 H3. unfold flush. case_bool_decide as E; [done|]. split.
  - apply Forall_app. split; [done|]. constructor; [|constructor].
    unfold seg_ok. simpl. by rewrite bool_decide_eq_false_2.
  - apply separated_snoc; auto.
Qed.

Lemma BuildLoop_ok table segs cur skip s :
  Forall seg_ok segs -> separated segs -> (forall a, last segs = Some a -> isReturn a = true) ->
  Forall seg_ok (BuildLoop table segs cur skip s) /\ separated (BuildLoop table segs cur skip s).
Proof.
  revert segs cur skip. induction s as [|c s IH]; intros segs cur skip H1 H2 H3;
    cbn [BuildLoop]; [by apply flush_ok|].
  destruct skip; [by apply IH|]. destruct (newline_at (c :: s)); [|by apply IH].
  destruct (flush_ok segs cur H1 H2 H3) as [F1 F2]. apply IH.
  - apply Forall_app. split; [done|]. by constructor.
  - apply separated_snoc; auto.
  - intros a. rewrite last_snoc. by intros [= <-].
Qed.

Lemma ExpandEscapesLoop_tokens skip s :
  ExpandEscapesLoop skip s = tokens_loop skip s ≫= paste_token.
Proof.
  revert skip. induction s as [|c s IH]; intros skip; [done|].
  cbn [ExpandEscapesLoop tokens_loop]. destruct skip; [apply IH|].
  destruct (newline_at (c :: s)); csimpl; by rewrite IH.
Qed.

Lemma encode_token_unicode (l : list Token) : l ≫= encode_token Unicode = l.
Proof. induction l as [|[|c] l IH]; csimpl; [done|..]; by rewrite IH. Qed.

Lemma paste_segments (segs : list Segment) :
  segs ≫= (fun g => if isReturn g then [13; 10] else seg_text g) =
  (segs ≫= seg_tokens) ≫= paste_token.
Proof.
  induction segs as [|g segs IH]; csimpl; [done|]. rewrite bind_app, IH. f_equal.
  unfold seg_tokens. destruct (isReturn g); [done|].
  induction (seg_text g) as [|c t IHt]; csimpl; [done|]. by rewrite <- IHt.
Qed.

(** What the keyboard gets is what the clipboard gets: the segments, in
    order, are the text's characters (encoded in the table) and line breaks,
    grouped into maximal runs; with the line breaks written as CR LF they are the
    clipboard's text. *)
Theorem BuildSegments_dispatch s table :
  let segs := BuildSegments s table in
  segs ≫= seg_tokens = tokens s ≫= encode_token table /\
  Forall seg_ok segs /\ separated segs /\
  (table = Unicode ->
   segs ≫= (fun g => if isReturn g then [13; 10] else seg_text g) =
   ExpandEscapesForClipboard s).
Proof.
  cbv zeta. unfold BuildSegments.
  destruct (BuildLoop_ok table [] [] false s) as [H1 H2]; [constructor|by intros i|done|].
  pose proof (BuildLoop_tokens table [] [] false s) as H. simpl in H.
  split_and!; [done..|]. intros ->. unfold ExpandEscapesForClipboard.
  by rewrite ExpandEscapesLoop_tokens, paste_segments, H, encode_token_unicode.
Qed.

(** A text that backspaces can take back has no line break and is sent whole. *)
Lemma CanUndo_one_segment s :
  CanUndoWithBackspaces s = true ->
  BuildSegments s Unicode = if bool_decide (s = []) then [] else [mkSegment false s].
Proof.
  intros Hs. unfold BuildSegments.
  assert (Hg : forall cur, BuildLoop Unicode [] cur false s = flush [] (cur ++ s)).
  { induction s as [|c s IH]; intros cur; [by rewrite app_nil_r|].
    cbn [CanUndoWithBackspaces] in Hs. cbn [BuildLoop].
    destruct (uncountable_unit c || newline_at (c :: s)) eqn:E; [done|].
    apply orb_false_iff in E as [_ ->]. rewrite IH by done. simpl. by rewrite <- app_assoc. }
  rewrite Hg. done.
Qed.

Section Caps.
Context {cm : CaseMapper} {SP : SpacePlatform} {PP : PunctPlatform}.

(** ** Capitals *)

(** No letter is raised to a backslash or to a small [n]. *)
Class CaseLaws : Prop := {
  upper1_backslash c : upper1 c = 92 -> c = 92;
  upper1_n c : upper1 c = L "n" -> c = L "n"
}.

(** What capitalising does to a token: a character stays or is raised. *)
Inductive raised : Token -> Token -> Prop :=
  | raised_newline : raised TkNewline TkNewline
  | raised_same c : raised (TkChar c) (TkChar c)
  | raised_upper c : raised (TkChar c) (TkChar (upper1 c)).

Lemma raised_refl l : Forall2 raised l l.
Proof. induction l as [|[|c] l IH]; constructor; try done; constructor. Qed.

Lemma ApplyCapsLoop_head style ws skip c s :
  exists d s', ApplyCapsLoop style ws skip (c :: s) = d :: s' /\
    (d = c \/ skip = false /\ d = upper1 c).
Proof.
  cbn [ApplyCapsLoop]. repeat case_match; simpl; eauto 10;
    eexists _, _; (split; [reflexivity|]); try (left; reflexivity); right; done.
Qed.
Context {laws : CaseLaws}.

(** Raising letters makes no new line break. *)
Lemma newline_kept c c' s X :
  newline_at (c :: s) = false -> c' = c \/ c' = upper1 c ->
  X = s \/ (exists style ws, X = ApplyCapsLoop style ws false s) ->
  newline_at (c' :: X) = false.
Proof.
  intros Hn Hc HX. destruct s as [|d s].
  { destruct HX as [->|(style & ws & ->)]; done. }
  assert (HX' : exists d' s', X = d' :: s' /\ (d' = d \/ d' = upper1 d)).
  { destruct HX as [->|(style & ws & ->)]; [eauto|].
    destruct (ApplyCapsLoop_head style ws false d s) as (d' & s' & -> & [->|[_ ->]]); eauto. }
  destruct HX' as (d' & s' & -> & Hd). simpl in *.
  apply not_true_iff_false. intros [H1%Z.eqb_eq H2%Z.eqb_eq]%andb_true_iff.
  assert (c = 92) as -> by (destruct Hc as [<-| ->]; [done|by apply upper1_backslash]).
  assert (d = L "n") as -> by (destruct Hd as [<-| ->]; [done|by apply upper1_n]).
  by rewrite !Z.eqb_refl in Hn.
Qed.

Lemma raised_cons c c' s X :
  newline_at (c :: s) = false -> c' = c \/ c' = upper1 c ->
  X = s \/ (exists style ws, X = ApplyCapsLoop style ws false s) ->
  Forall2 raised (tokens_loop false s) (tokens_loop false X) ->
  Forall2 raised (tokens_loop false (c :: s)) (tokens_loop false (c' :: X)).
Proof.
  intros Hn Hc HX H. cbn [tokens_loop]. rewrite Hn, (newline_kept c c' s X) by done.
  constructor; [|done]. destruct Hc as [->| ->]; constructor.
Qed.

Lemma ApplyCapsLoop_tokens style ws skip s :
  Forall2 raised (tokens_loop skip s) (tokens_loop skip (ApplyCapsLoop style ws skip s)).
Proof.
  revert ws skip. induction s as [|c s IH]; intros ws skip; [constructor|].
  cbn [ApplyCapsLoop]. destruct skip; [cbn [tokens_loop]; apply IH|].
  destruct (newline_at (c :: s)) eqn:E.
  - destruct s as [|d s]; [done|]. specialize (IH ws true). cbn [ApplyCapsLoop] in IH |- *.
    assert (E' : newline_at (c :: d :: ApplyCapsLoop style true false s) = true) by done.
    cbn [tokens_loop] in IH |- *. rewrite E, E'. constructor; [constructor|done].
  - pose proof (raised_refl (tokens_loop false s)) as Hrefl.
    repeat case_match; apply raised_cons; eauto.
Qed.

Lemma ApplyCaps_tokens style s : Forall2 raised (tokens s) (tokens (ApplyCaps s style)).
Proof.
  unfold ApplyCaps. destruct (_ == _); [apply raised_refl|apply ApplyCapsLoop_tokens].
Qed.

(** ** The plan *)

(** The candidates, in order: what they are looked up as, whether the trigger is
    part of the key, and whether they come from the composed text. *)
Definition raw_candidates (inp : PlanInputs) : list (wstring * bool * bool) :=
  let raw := rawMacroBuffer inp in
  let printable := L " " <? triggerChar inp in
  (raw, printable, false) ::
  (if printable && (1 <? length raw)%nat && (List.last raw 0 =w triggerChar inp)
   then [(removelast raw, false, false)] else []).
Definition composition_candidates (inp : PlanInputs) : list (wstring * bool * bool) :=
  let comp := previousComposition inp in
  if bool_decide (comp = []) then []
  else (if L " " <? triggerChar inp then [(comp ++ [triggerChar inp], true, true)] else []) ++
       [(comp, false, true)].
Definition candidates (inp : PlanInputs) : list (wstring * bool * bool) :=
  raw_candidates inp ++ composition_candidates inp.

(** The first candidate that is a key, with what the table stores for it. *)
Fixpoint first_key (table : gmap wstring wstring) (cs : list (wstring * bool * bool))
  : option (wstring * wstring * (wstring * bool * bool)) :=
  match cs with
  | [] => None
  | c :: cs =>
      match lookup_macro table c.1.1 with
      | Some kv => Some (kv, c)
      | None => first_key table cs
      end
  end.

Definition expand_as (inp : PlanInputs) (key stored typed : wstring) : wstring :=
  if HasUpper key then stored
  else ApplyCaps stored (DetectCaps typed (autoCapsEnabled inp) (titleCaseEnabled inp)
                           (wasFirstCharAutoCapped inp)).

Definition plan_of (inp : PlanInputs) (hit : wstring * wstring * (wstring * bool * bool))
  : MacroPlan :=
  let '((key, stored), (typed, part, via)) := hit in
  let text := expand_as inp key stored typed in
  let on_screen :=
    via || (negb (macroCrossCommit inp) && negb (bool_decide (previousComposition inp = []))) in
  mkPlan true part (if on_screen then composition_width inp else raw_width inp) text
    ((currentCodeTable inp == Unicode) && (clipboardThreshold inp <? length text)%nat) typed.

Lemma first_key_app table cs1 cs2 :
  first_key table (cs1 ++ cs2) =
  match first_key table cs1 with Some hit => Some hit | None => first_key table cs2 end.
Proof. induction cs1 as [|c cs1 IH]; simpl; [done|]. by destruct (lookup_macro _ _). Qed.

Lemma first_key_Some table cs key stored c :
  first_key table cs = Some (key, stored, c) -> table !! key = Some stored.
Proof.
  induction cs as [|c0 cs IH]; simpl; [done|].
  destruct (lookup_macro table c0.1.1) as [kv|] eqn:E; [|done].
  intros [= -> ->]. unfold lookup_macro in E.
  destruct (table !! c.1.1) as [v|] eqn:E1; [by injection E as <- <-|].
  destruct (table !! LowerCopy c.1.1) as [v|] eqn:E2; [|done]. by injection E as <- <-.
Qed.

Lemma SearchRaw_spec inp :
  exists typed,
  SearchRaw inp =
  match first_key (macroTable inp) (raw_candidates inp) with
  | Some (kv, (t, part, via)) => (Some kv, t, part, via)
  | None => (None, typed, false, false)
  end.
Proof.
  unfold SearchRaw, raw_candidates. cbn [first_key fst].
  destruct (lookup_macro _ (rawMacroBuffer inp)); [by exists []|].
  destruct (_ && _ && _); cbn [first_key fst]; [|by eexists].
  exists (removelast (rawMacroBuffer inp)). by destruct (lookup_macro _ _).
Qed.

Lemma SearchComposition_spec inp typed :
  exists typed',
  SearchComposition inp (None, typed, false, false) =
  match first_key (macroTable inp) (composition_candidates inp) with
  | Some (kv, (t, part, via)) => (Some kv, t, part, via)
  | None => (None, typed', false, false)
  end.
Proof.
  unfold SearchComposition, composition_candidates. simpl. case_bool_decide; [by eexists|].
  destruct (L " " <? triggerChar inp); simpl;
    [destruct (lookup_macro _ (_ ++ _)); [by exists []|]|];
    exists (previousComposition inp); by destruct (lookup_macro _ _).
Qed.

Lemma Plan_run inp :
  Plan inp = match first_key (macroTable inp) (candidates inp) with
             | Some hit => plan_of inp hit
             | None => no_plan
             end.
Proof.
  unfold Plan, candidates. rewrite first_key_app. destruct (SearchRaw_spec inp) as [t1 ->].
  destruct (first_key _ (raw_candidates inp)) as [[[key stored] [[t part] via]]|].
  - cbn. destruct via, (macroCrossCommit inp); try done; by destruct (bool_decide _).
  - destruct (SearchComposition_spec inp t1) as [t2 ->].
    destruct (first_key _ _) as [[[key stored] [[t part] via]]|]; [|done].
    cbn. destruct via, (macroCrossCommit inp); try done; by destruct (bool_decide _).
Qed.

(** The plan is that of the first candidate that is a key of the table, in
    the order buffer, buffer without trigger, composition with trigger,
    composition; with no such candidate nothing is matched. *)
Theorem Plan_first_candidate inp :
  Plan inp = from_option (plan_of inp) no_plan (first_key (macroTable inp) (candidates inp)).
Proof. rewrite Plan_run. by destruct (first_key _ _). Qed.

(** An expansion is the text the table stores under some key: verbatim when
    the key has a capital, and otherwise with some letters raised, never lowered
    or moved, and with its line breaks where they were. *)
Theorem Plan_only_raises inp :
  matched (Plan inp) = true ->
  exists key stored, macroTable inp !! key = Some stored /\
    (HasUpper key = true -> expansion (Plan inp) = stored) /\
    Forall2 raised (tokens stored) (tokens (expansion (Plan inp))).
Proof.
  rewrite Plan_run. destruct (first_key _ _) as [[[key stored] [[t part] via]]|] eqn:E; [|done].
  intros _. exists key, stored. split; [by eapply first_key_Some|].
  unfold plan_of, expand_as. cbn [expansion].
  destruct (HasUpper key); (split; [done|]); [apply raised_refl|apply ApplyCaps_tokens].
Qed.
End Caps.

(** ** The text before the caret *)

Section Context.
Context {cm : CaseMapper} {SP : SpacePlatform} {PP : PunctPlatform}.
Context (text : wstring) (trigger : wchar) (table : gmap wstring wstring).
Context (autoCaps titleCase : bool) (threshold : nat).

Definition plan_at (len : nat) : MacroPlan :=
  candidate_plan text trigger table autoCaps titleCase threshold len.
(** A shortcut of [len] characters ends at the caret. *)
Definition shortcut_at (len : nat) : bool :=
  at_boundary text (length text - len) && matched (plan_at len).

(** What the search answers within [n] characters: the longest shortcut. *)
Definition longest_within (n : nat) (r : option ContextMatch) : Prop :=
  match r with
  | Some m =>
      let len := shortcutLen m in
      (1 <= len <= n)%nat /\ shortcut_at len = true /\
      (forall k, (len < k <= n)%nat -> shortcut_at k = false) /\
      bsCount (cm_plan m) = len /\ expansion (cm_plan m) = expansion (plan_at len)
  | None => forall k, (1 <= k <= n)%nat -> shortcut_at k = false
  end.

Lemma longest_within_S n r :
  shortcut_at (S n) = false -> longest_within n r -> longest_within (S n) r.
Proof.
  intros Hn. destruct r as [m|]; simpl.
  - intros (H1 & H2 & H3 & H4 & H5). split_and!; try done; try lia.
    intros k Hk. destruct (decide (k = S n)) as [->|]; [done|apply H3; lia].
  - intros H k Hk. destruct (decide (k = S n)) as [->|]; [done|apply H; lia].
Qed.

Lemma MatchLoop_spec n :
  longest_within n (MatchLoop text trigger table autoCaps titleCase threshold n).
Proof.
  induction n as [|n IH]; [simpl; lia|]. cbn [MatchLoop].
  destruct (at_boundary text (length text - S n)) eqn:Eb; cbn [negb];
    [|apply longest_within_S; [unfold shortcut_at; by rewrite Eb|done]].
  destruct (matched _) eqn:Em; cbn [negb];
    [|apply longest_within_S; [unfold shortcut_at, plan_at; by rewrite Eb, Em|done]].
  simpl. split_and!; try done; try lia. unfold shortcut_at, plan_at.
  by rewrite Eb, Em.
Qed.

Lemma no_table_no_match inp : macroTable inp = ∅ -> Plan inp = no_plan.
Proof.
  intros E. rewrite Plan_run, E. destruct (first_key ∅ _) as [[[key stored] c]|] eqn:F; [|done].
  by apply first_key_Some in F.
Qed.

(** C36. Before the caret the longest shortcut wins: the answer is the plan of the
    longest text, within the budget of [maxShortcutLen] characters less the
    trigger, that starts at a word boundary and expands; it replaces exactly that
    text; and no answer means there is no such text. *)
Theorem MatchInPrecedingText_longest maxShortcutLen :
  longest_within (Nat.min (length text) (maxShortcutLen - triggerLen trigger))
    (MatchInPrecedingText text trigger table autoCaps titleCase threshold maxShortcutLen).
Proof.
  unfold MatchInPrecedingText.
  destruct (bool_decide (text = []) || bool_decide (table = ∅)) eqn:E.
  - intros k Hk. apply orb_true_iff in E as [E%bool_decide_eq_true|E%bool_decide_eq_true].
    + rewrite E in Hk. simpl in Hk. lia.
    + unfold shortcut_at, plan_at, candidate_plan. rewrite no_table_no_match by done.
      apply andb_false_r.
  - destruct (maxShortcutLen <=? triggerLen trigger)%nat eqn:E2; [|apply MatchLoop_spec].
    intros k Hk. apply Nat.leb_le in E2. lia.
Qed.
End Context.

(** ** ASCII, and macros at work *)

Definition ascii_mapper : CaseMapper := {| Upper := map towupper; Lower := map towlower |}.
Definition ascii_punct : PunctPlatform := {| iswpunct_wide := fun _ => false |}.

#[export] Instance ascii_case_laws : @CaseLaws ascii_mapper.
Proof.
  constructor; intros c; unfold upper1; simpl; unfold towupper;
    destruct ((97 <=? c) && (c <=? 122)) eqn:E; lia.
Qed.

(** [btw] stands for "by the\nway". *)
Definition btw : gmap wstring wstring :=
  {[ [98; 116; 119] := [98; 121; 32; 116; 104; 101; 92; 110; 119; 97; 121] ]}.

Lemma Plan_only_raises_witness :
  let inp := mkInputs [66; 84; 87] [] [] btw true Unicode true false false 32 200 in
  expansion (Plan (cm := ascii_mapper) (SP := posix_spaces) (PP := ascii_punct) inp)
    = [66; 89; 32; 84; 72; 69; 92; 110; 87; 65; 89] /\
  exists key stored, btw !! key = Some stored /\
    Forall2 (raised (cm := ascii_mapper)) (tokens stored)
      (tokens (expansion (Plan (cm := ascii_mapper) (SP := posix_spaces) (PP := ascii_punct) inp))).
Proof.
  cbv zeta. split; [vm_compute; reflexivity|].
  destruct (Plan_only_raises (cm := ascii_mapper) (SP := posix_spaces) (PP := ascii_punct)
    (mkInputs [66; 84; 87] [] [] btw true Unicode true false false 32 200)
    ltac:(vm_compute; reflexivity)) as (key & stored & H1 & _ & H2).
  exists key, stored. split; [exact H1|exact H2].
Defined.

(** The longest key of the table is out of reach of a printable trigger that is
    not part of it: "btw" typed whole, then ".", is planned as a macro, and the
    search before the caret, which has one character less, finds nothing. *)
Lemma longest_key_unreachable :
  LongestMacroKeyLength btw = 3%nat /\
  MatchInPrecedingText (cm := ascii_mapper) (SP := posix_spaces) (PP := ascii_punct)
    [98; 116; 119] (L ".") btw false false 200 (LongestMacroKeyLength btw) = None /\
  matched (Plan (cm := ascii_mapper) (SP := posix_spaces) (PP := ascii_punct)
    (mkInputs [98; 116; 119; L "."] [] [] btw true Unicode false false false (L ".") 200)) = true.
Proof. vm_compute. done. Qed.
