(* ===== verification/Toml.v ===== *)
(** * TOML values, as the program uses toml++

    The node types and the handful of calls the program makes on them: a table's
    [get], [get_as], [insert] (which keeps a value that is there),
    [insert_or_assign], [erase], an array's [push_back], and the conversions of
    [value] and [value_or].  A table is the library's ordered map: a list with its
    keys in order.  Reading and printing the text of a file is the library's; a
    class says what the program relies on. *)

From stdpp Require Export strings.
From S2P Require Import Prelude.
(** A floating-point number is known by the integer it is equal to, if any. *)
Inductive TomlNode :=
  | TString (s : string) | TInteger (i : Z) | TBoolean (b : bool) | TFloat (whole : option Z) | TOther
  | TArray (a : list TomlNode) | TTable (t : list (string * TomlNode)).

Definition TomlTable : Type := list (string * TomlNode).
Definition TomlArray : Type := list TomlNode.

Fixpoint toml_get (t : TomlTable) (k : string) : option TomlNode :=
  match t with
  | [] => None
  | (k', n) :: t => if bool_decide (k' = k) then Some n else toml_get t k
  end.

Definition as_string (n : TomlNode) : option string :=
  match n with TString s => Some s | _ => None end.
Definition as_table (n : TomlNode) : option TomlTable :=
  match n with TTable t => Some t | _ => None end.
Definition as_array (n : TomlNode) : option TomlArray :=
  match n with TArray a => Some a | _ => None end.
Definition as_integer (n : TomlNode) : option Z :=
  match n with TInteger i => Some i | _ => None end.
Definition as_boolean (n : TomlNode) : option bool :=
  match n with TBoolean b => Some b | _ => None end.

(** [get_as<T>(key)]: the value, when it is there and of the type. *)
Definition get_integer (t : TomlTable) (k : string) : option Z := toml_get t k ≫= as_integer.
Definition get_boolean (t : TomlTable) (k : string) : option bool := toml_get t k ≫= as_boolean.
Definition get_table (t : TomlTable) (k : string) : option TomlTable := toml_get t k ≫= as_table.
Definition get_array (t : TomlTable) (k : string) : option TomlArray := toml_get t k ≫= as_array.

(** [value<T>()]: a number reads as a truth value and the other way round, and has
    to fit. *)
Definition value_bool (n : TomlNode) : option bool :=
  match n with TBoolean b => Some b | TInteger i => Some (negb (i =? 0)%Z) | _ => None end.
Definition fits (lo hi z : Z) : option Z :=
  if ((lo <=? z) && (z <=? hi))%Z then Some z else None.
Definition value_integer (lo hi : Z) (n : TomlNode) : option Z :=
  match n with
  | TInteger i => fits lo hi i
  | TBoolean b => Some (Z.b2z b)
  | TFloat (Some i) => fits lo hi i
  | _ => None
  end.
Definition value_int : TomlNode -> option Z := value_integer (- 2 ^ 31) (2 ^ 31 - 1).
Definition value_int64 : TomlNode -> option Z := value_integer (- 2 ^ 63) (2 ^ 63 - 1).

(** [t[key].value_or(d)]. *)
Definition bool_or (t : TomlTable) (k : string) (d : bool) : bool :=
  default d (toml_get t k ≫= value_bool).
Definition int_or (t : TomlTable) (k : string) (d : Z) : Z :=
  default d (toml_get t k ≫= value_int).
Definition int64_or (t : TomlTable) (k : string) (d : Z) : Z :=
  default d (toml_get t k ≫= value_int64).
Definition string_or (t : TomlTable) (k : string) (d : string) : string :=
  default d (toml_get t k ≫= as_string).

Fixpoint toml_assign (k : string) (n : TomlNode) (t : TomlTable) : TomlTable :=
  match t with
  | [] => [(k, n)]
  | (k', n') :: t' =>
      if bool_decide (k' = k) then (k', n) :: t'
      else if String.ltb k k' then (k, n) :: t
      else (k', n') :: toml_assign k n t'
  end.
Definition toml_insert (k : string) (n : TomlNode) (t : TomlTable) : TomlTable :=
  match toml_get t k with Some _ => t | None => toml_assign k n t end.
Fixpoint toml_erase (k : string) (t : TomlTable) : TomlTable :=
  match t with
  | [] => []
  | (k', n') :: t => if bool_decide (k' = k) then toml_erase k t else (k', n') :: toml_erase k t
  end.

(** ** Lookups *)

(** A value assigned is read back, and no other one changes. *)
Lemma toml_get_assign k n t k' :
  toml_get (toml_assign k n t) k' = if bool_decide (k = k') then Some n else toml_get t k'.
Proof.
  induction t as [|[k0 n0] t IH]; simpl; [done|].
  destruct (bool_decide (k0 = k)) eqn:E; simpl.
  - apply bool_decide_eq_true in E as ->. by case_bool_decide.
  - destruct (String.ltb k k0); simpl; [done|].
    rewrite IH. apply bool_decide_eq_false in E.
    destruct (bool_decide (k0 = k')) eqn:E2; [|done].
    apply bool_decide_eq_true in E2 as ->. by rewrite bool_decide_eq_false_2 by congruence.
Qed.
Lemma toml_get_assign_eq k n t : toml_get (toml_assign k n t) k = Some n.
Proof. by rewrite toml_get_assign, bool_decide_eq_true_2. Qed.
Lemma toml_get_assign_ne k n t k' : k <> k' -> toml_get (toml_assign k n t) k' = toml_get t k'.
Proof. intros. by rewrite toml_get_assign, bool_decide_eq_false_2. Qed.

Lemma toml_get_erase k t k' :
  toml_get (toml_erase k t) k' = if bool_decide (k = k') then None else toml_get t k'.
Proof.
  induction t as [|[k0 n0] t IH]; simpl; [by case_bool_decide|].
  destruct (bool_decide (k0 = k)) eqn:E; simpl; rewrite IH.
  - apply bool_decide_eq_true in E as ->. by case_bool_decide.
  - apply bool_decide_eq_false in E. destruct (bool_decide (k0 = k')) eqn:E2; [|done].
    apply bool_decide_eq_true in E2 as ->. by rewrite bool_decide_eq_false_2 by congruence.
Qed.
