(* ===== verification/Hotkey.v ===== *)
(** * Hotkeys (src/src/core/hotkey/)

    The registry of what the user bound to each intent, its dispatch, its
    persistence as TOML, what these guarantee, and the labels shown for a
    combination of keys. *)

From stdpp Require Export gmap.
From S2P Require Import Prelude Toml.
Open Scope Z_scope.

(** ** Data *)

Inductive Intent := CancelComposition | SkipMacro | ToggleEnabled | ToggleGameMode.
#[export] Instance Intent_eq_dec : EqDecision Intent.
Proof. solve_decision. Defined.

Definition kAllIntents : list Intent :=
  [CancelComposition; SkipMacro; ToggleEnabled; ToggleGameMode].

Definition Intent_u8 (i : Intent) : nat :=
  match i with
  | CancelComposition => 0 | SkipMacro => 1 | ToggleEnabled => 2 | ToggleGameMode => 3
  end.
#[export] Program Instance Intent_countable : Countable Intent :=
  inj_countable Intent_u8 (fun n => kAllIntents !! n) _.
Next Obligation. by intros []. Qed.

Definition kModCtrl : Z := 1.
Definition kModShift : Z := 2.
Definition kModAlt : Z := 4.
Definition kModWin : Z := 8.

Record Trigger := mkTrigger { vk : Z; mods : Z; doubleTap : bool }.
#[export] Instance Trigger_eq_dec : EqDecision Trigger.
Proof. solve_decision. Defined.

(** Two maps: an intent without triggers is absent, one without a flag is on. *)
Record HotkeyRegistry := mkRegistry {
  triggers_ : gmap Intent (list Trigger); enabled_ : gmap Intent bool
}.
Definition empty_registry : HotkeyRegistry := mkRegistry ∅ ∅.

Definition kVkShift : Z := 16.
Definition kVkControl : Z := 17.
Definition kVkMenu : Z := 18.
Definition kVkLwin : Z := 91.
Definition kVkRwin : Z := 92.
Definition kVkEscape : Z := 27.

(** ** Operations *)

Definition IsModifierKey (v : Z) : bool :=
  (v =w kVkShift) || (v =w kVkControl) || (v =w kVkMenu) || (v =w kVkLwin) || (v =w kVkRwin).

Definition TriggersFor (r : HotkeyRegistry) (i : Intent) : list Trigger :=
  default [] (triggers_ r !! i).
Definition AddTrigger (i : Intent) (t : Trigger) (r : HotkeyRegistry) : HotkeyRegistry :=
  mkRegistry (<[i := TriggersFor r i ++ [t]]> (triggers_ r)) (enabled_ r).
Definition IsEnabled (r : HotkeyRegistry) (i : Intent) : bool := default true (enabled_ r !! i).
Definition SetEnabled (i : Intent) (b : bool) (r : HotkeyRegistry) : HotkeyRegistry :=
  mkRegistry (triggers_ r) (<[i := b]> (enabled_ r)).
Definition Clear (r : HotkeyRegistry) : HotkeyRegistry := empty_registry.

(** One trigger of the loop of [Matches], the test of its key code included. *)
Definition trigger_fires (t : Trigger) (v m : Z) (isDoubleTap keyUp : bool) : bool :=
  if vk t <>w v then false
  else if doubleTap t then isDoubleTap && (m =w mods t)
  else if IsModifierKey (vk t) then keyUp && negb isDoubleTap && (m =w mods t)
  else negb keyUp && negb isDoubleTap && (m =w mods t).

Definition Matches (r : HotkeyRegistry) (i : Intent) (v m : Z) (isDoubleTap keyUp : bool) : bool :=
  if negb (IsEnabled r i) then false
  else match triggers_ r !! i with
       | None => false
       | Some ts => existsb (fun t => trigger_fires t v m isDoubleTap keyUp) ts
       end.

Definition Defaults : HotkeyRegistry :=
  let cfg := empty_registry in
  let cfg := AddTrigger CancelComposition (mkTrigger kVkEscape 0 false) cfg in
  let cfg := AddTrigger SkipMacro (mkTrigger kVkEscape 0 false) cfg in
  let cfg := AddTrigger ToggleEnabled (mkTrigger kVkControl 0 false) cfg in
  let cfg := AddTrigger ToggleEnabled (mkTrigger kVkMenu 0 true) cfg in
  let cfg := SetEnabled CancelComposition false cfg in
  let cfg := SetEnabled SkipMacro false cfg in
  let cfg := SetEnabled ToggleEnabled false cfg in
  SetEnabled ToggleGameMode false cfg.

Definition FromLegacyFields (escRestoreRaw tempOffMacroByEsc : bool) (tempOffMethod : Z)
  : HotkeyRegistry :=
  let cfg := empty_registry in
  let cfg := if escRestoreRaw
             then AddTrigger CancelComposition (mkTrigger kVkEscape 0 false) cfg else cfg in
  let cfg := if tempOffMacroByEsc
             then AddTrigger SkipMacro (mkTrigger kVkEscape 0 false) cfg else cfg in
  let cfg :=
    if tempOffMethod =w 1 then AddTrigger ToggleEnabled (mkTrigger kVkMenu 0 true) cfg
    else if tempOffMethod =w 2 then AddTrigger ToggleEnabled (mkTrigger kVkControl 0 false) cfg
    else cfg in
  let cfg := SetEnabled CancelComposition escRestoreRaw cfg in
  let cfg := SetEnabled SkipMacro tempOffMacroByEsc cfg in
  let cfg := SetEnabled ToggleEnabled (tempOffMethod <>w 0) cfg in
  SetEnabled ToggleGameMode false cfg.

(** ** Persistence *)

Definition IntentToString (i : Intent) : string :=
  match i with
  | CancelComposition => "cancel-composition" | SkipMacro => "skip-macro"
  | ToggleEnabled => "toggle-enabled" | ToggleGameMode => "toggle-game-mode"
  end.
Definition ParseIntent (s : string) : option Intent :=
  if bool_decide (s = "cancel-composition"%string) then Some CancelComposition
  else if bool_decide (s = "skip-macro"%string) then Some SkipMacro
  else if bool_decide (s = "toggle-enabled"%string) then Some ToggleEnabled
  else if bool_decide (s = "toggle-game-mode"%string) then Some ToggleGameMode
  else None.
Definition IntentStateKey (i : Intent) : string :=
  match i with
  | CancelComposition => "cancel_composition" | SkipMacro => "skip_macro"
  | ToggleEnabled => "toggle_enabled" | ToggleGameMode => "toggle_game_mode"
  end.

(** [static_cast<uint32_t>] of an [int64_t]. *)
Definition u32 (z : Z) : Z := z mod 2 ^ 32.

(** One row of the array, the [continue]s as [None]. *)
Definition LoadRow (node : TomlNode) : option (Intent * Trigger) :=
  row ← as_table node;
  intentNode ← toml_get row "intent";
  triggerNode ← toml_get row "trigger";
  intentStr ← as_string intentNode;
  triggerTbl ← as_table triggerNode;
  intent ← ParseIntent intentStr;
  v ← get_integer triggerTbl "vk";
  if u32 v =w 0 then None
  else Some (intent,
    mkTrigger (u32 v) (from_option u32 0 (get_integer triggerTbl "mods"))
      (default false (get_boolean triggerTbl "double_tap"))).

Definition Load (cfg : TomlArray) (r : HotkeyRegistry) : HotkeyRegistry :=
  foldl (fun r node =>
    match LoadRow node with Some (i, t) => AddTrigger i t r | None => r end)
    (mkRegistry ∅ (enabled_ r)) cfg.

Definition SaveRow (i : Intent) (t : Trigger) : TomlNode :=
  let row := toml_insert "intent" (TString (IntentToString i)) [] in
  let trig := toml_insert "vk" (TInteger (vk t)) [] in
  let trig := toml_insert "mods" (TInteger (mods t)) trig in
  let trig := if doubleTap t then toml_insert "double_tap" (TBoolean true) trig else trig in
  TTable (toml_insert "trigger" (TTable trig) row).

Definition Save (r : HotkeyRegistry) (cfg : TomlArray) : TomlArray :=
  foldl (fun cfg i =>
    match triggers_ r !! i with
    | None => cfg
    | Some ts => foldl (fun cfg t => cfg ++ [SaveRow i t]) cfg ts
    end) cfg kAllIntents.

Definition LoadEnabled (tbl : TomlTable) (r : HotkeyRegistry) : HotkeyRegistry :=
  foldl (fun r i =>
    match get_boolean tbl (IntentStateKey i) with Some b => SetEnabled i b r | None => r end)
    (mkRegistry (triggers_ r) ∅) kAllIntents.

Definition SaveEnabled (r : HotkeyRegistry) (tbl : TomlTable) : TomlTable :=
  foldl (fun tbl i => toml_assign (IntentStateKey i) (TBoolean (IsEnabled r i)) tbl)
    tbl kAllIntents.

(** ** What the hotkey registry guarantees *)

Lemma TriggersFor_AddTrigger i t r j :
  TriggersFor (AddTrigger i t r) j = TriggersFor r j ++ (if bool_decide (i = j) then [t] else []).
Proof.
  unfold TriggersFor, AddTrigger. simpl. case_bool_decide as E.
  - subst. by rewrite lookup_insert_eq.
  - rewrite lookup_insert_ne by done. by rewrite app_nil_r.
Qed.

Lemma IsEnabled_SetEnabled i b r j :
  IsEnabled (SetEnabled i b r) j = if bool_decide (i = j) then b else IsEnabled r j.
Proof.
  unfold IsEnabled, SetEnabled. simpl. case_bool_decide as E.
  - subst. by rewrite lookup_insert_eq.
  - by rewrite lookup_insert_ne by done.
Qed.

(** ** Dispatch *)

Lemma Matches_existsb r i v m dt ku :
  Matches r i v m dt ku =
  IsEnabled r i && existsb (fun t => trigger_fires t v m dt ku) (TriggersFor r i).
Proof.
  unfold Matches, TriggersFor. destruct (IsEnabled r i); simpl; [|done].
  by destruct (triggers_ r !! i).
Qed.

(** When one trigger fires: the key, the modifiers and the tap it asks for, and
    of a single tap the edge: modifiers on release, other keys on press. *)
Definition fires (t : Trigger) (v m : Z) (isDoubleTap keyUp : bool) : Prop :=
  vk t = v /\ mods t = m /\ doubleTap t = isDoubleTap /\
  (isDoubleTap = false -> keyUp = IsModifierKey v).

Lemma trigger_fires_spec t v m dt ku : trigger_fires t v m dt ku = true <-> fires t v m dt ku.
Proof.
  unfold trigger_fires, fires. destruct (Z.eqb_spec (vk t) v) as [->|Hne]; simpl; [|by split; [|intros (? & _)]].
  destruct (doubleTap t), dt, ku, (IsModifierKey v), (Z.eqb_spec m (mods t)) as [->|];
    simpl; split; intros H; try done; destruct_and?; try done;
    repeat match goal with H : _ = _ -> _ |- _ => specialize (H eq_refl) end; congruence.
Qed.

(** An intent matches an event exactly when it is enabled and one of its
    triggers asks for that key, those modifiers and that kind of tap, on the edge
    the kind of key fires on. *)
Theorem Matches_spec r i v m dt ku :
  Matches r i v m dt ku = true <->
  IsEnabled r i = true /\ exists t, t ∈ TriggersFor r i /\ fires t v m dt ku.
Proof.
  rewrite Matches_existsb, andb_true_iff, existsb_exists.
  by setoid_rewrite trigger_fires_spec; setoid_rewrite <- list_elem_of_In.
Qed.

(** ** Persistence *)

Lemma ParseIntent_IntentToString i : ParseIntent (IntentToString i) = Some i.
Proof. by destruct i. Qed.

Lemma ParseIntent_inv s i : ParseIntent s = Some i -> s = IntentToString i.
Proof. unfold ParseIntent. repeat case_bool_decide; intros [= <-]; done. Qed.

Lemma IntentStateKey_inj i j : IntentStateKey i = IntentStateKey j -> i = j.
Proof. by destruct i, j. Qed.

Lemma kAllIntents_all i : i ∈ kAllIntents.
Proof. destruct i; unfold kAllIntents; rewrite !elem_of_cons; tauto. Qed.

(** A trigger as the capture dialogs make them: 32-bit fields, a key. *)
Definition trigger_ok (t : Trigger) : Prop := 0 < vk t < 2 ^ 32 /\ 0 <= mods t < 2 ^ 32.

Lemma LoadRow_SaveRow i t : trigger_ok t -> LoadRow (SaveRow i t) = Some (i, t).
Proof.
  intros [Hv Hm]. destruct t as [v m dt]. simpl in Hv, Hm.
  assert (Hu : u32 v = v) by (apply Z.mod_small; lia).
  assert (Hum : u32 m = m) by (apply Z.mod_small; lia).
  assert (Hne : (v =w 0) = false) by lia. rewrite <- Hu in Hne.
  destruct i, dt; lazy -[u32 Z.eqb]; by rewrite Hne, Hu, Hum.
Qed.

(** The rows an array holds for an intent. *)
Definition rows_for (i : Intent) (cfg : TomlArray) : list Trigger :=
  omap (fun n => '(j, t) ← LoadRow n; if bool_decide (j = i) then Some t else None) cfg.

Lemma Load_from cfg r i :
  TriggersFor (foldl (fun r node =>
    match LoadRow node with Some (j, t) => AddTrigger j t r | None => r end) r cfg) i =
  TriggersFor r i ++ rows_for i cfg /\
  enabled_ (foldl (fun r node =>
    match LoadRow node with Some (j, t) => AddTrigger j t r | None => r end) r cfg) = enabled_ r.
Proof.
  revert r. induction cfg as [|n cfg IH]; intros r; simpl; [by rewrite app_nil_r|].
  destruct (LoadRow n) as [[j t]|]; simpl; [|apply IH].
  destruct (IH (AddTrigger j t r)) as [-> ->]. rewrite TriggersFor_AddTrigger.
  split; [|done]. case_bool_decide; simpl; [by rewrite <- app_assoc|by rewrite app_nil_r].
Qed.

Lemma Load_rows cfg r i : TriggersFor (Load cfg r) i = rows_for i cfg.
Proof. unfold Load. by destruct (Load_from cfg (mkRegistry ∅ (enabled_ r)) i) as [-> _]. Qed.

Lemma foldl_snoc_map {A B} (f : A -> B) l acc :
  foldl (fun acc x => acc ++ [f x]) acc l = acc ++ (f <$> l).
Proof.
  revert acc. induction l as [|x l IH]; intros acc; simpl; [by rewrite app_nil_r|].
  rewrite IH. by rewrite <- app_assoc.
Qed.

Lemma Save_rows r cfg :
  Save r cfg = cfg ++ (kAllIntents ≫= fun i => SaveRow i <$> TriggersFor r i).
Proof.
  unfold Save. generalize kAllIntents. intros ins. revert cfg.
  induction ins as [|i ins IH]; intros cfg; simpl; [by rewrite app_nil_r|].
  rewrite IH. assert (Ht : TriggersFor r i = default [] (triggers_ r !! i)) by done.
  rewrite Ht. destruct (triggers_ r !! i); simpl; [|done].
  by rewrite foldl_snoc_map, <- app_assoc.
Qed.

Lemma rows_for_SaveRows i j ts :
  Forall trigger_ok ts ->
  rows_for i (SaveRow j <$> ts) = if bool_decide (j = i) then ts else [].
Proof.
  induction 1 as [|t ts Ht _ IH]; [by case_bool_decide|]. unfold rows_for in *. csimpl.
  rewrite LoadRow_SaveRow, IH by done. simpl. by case_bool_decide.
Qed.

Lemma rows_for_app i a b : rows_for i (a ++ b) = rows_for i a ++ rows_for i b.
Proof. apply omap_app. Qed.

Lemma Load_Save_triggers r r0 i :
  (forall j, Forall trigger_ok (TriggersFor r j)) ->
  TriggersFor (Load (Save r []) r0) i = TriggersFor r i.
Proof.
  intros Hok. rewrite Load_rows, Save_rows. simpl.
  rewrite !rows_for_app, !rows_for_SaveRows by done. destruct i; simpl; by rewrite ?app_nil_r.
Qed.

Lemma LoadEnabled_from tbl ins r i :
  IsEnabled (foldl (fun r i =>
    match get_boolean tbl (IntentStateKey i) with Some b => SetEnabled i b r | None => r end) r ins) i =
  if bool_decide (i ∈ ins) then default (IsEnabled r i) (get_boolean tbl (IntentStateKey i))
  else IsEnabled r i.
Proof.
  revert r. induction ins as [|j ins IH]; intros r; simpl; [done|]. rewrite IH.
  assert (Hr : IsEnabled (match get_boolean tbl (IntentStateKey j) with
      Some b => SetEnabled j b r | None => r end) i =
    if bool_decide (j = i) then default (IsEnabled r i) (get_boolean tbl (IntentStateKey j))
    else IsEnabled r i).
  { destruct (get_boolean tbl (IntentStateKey j)); simpl; [apply IsEnabled_SetEnabled|by destruct (j == i)]. }
  rewrite Hr. destruct (decide (j = i)) as [->|Hne].
  - rewrite !(bool_decide_eq_true_2 (i = i)), (bool_decide_eq_true_2 (i ∈ i :: ins))
      by (done || by left).
    by destruct (bool_decide _), (get_boolean _ _).
  - rewrite (bool_decide_eq_false_2 (j = i)) by done.
    assert (Hb : bool_decide (i ∈ j :: ins) = bool_decide (i ∈ ins)).
    { apply bool_decide_ext. rewrite elem_of_cons. split; [|by right].
      intros [->|]; done. }
    by rewrite Hb.
Qed.

Lemma SaveEnabled_from r ins tbl i :
  get_boolean (foldl (fun tbl i =>
    toml_assign (IntentStateKey i) (TBoolean (IsEnabled r i)) tbl) tbl ins) (IntentStateKey i) =
  if bool_decide (i ∈ ins) then Some (IsEnabled r i) else get_boolean tbl (IntentStateKey i).
Proof.
  revert tbl. induction ins as [|j ins IH]; intros tbl; simpl; [done|]. rewrite IH.
  unfold get_boolean at 1. rewrite toml_get_assign.
  destruct (decide (j = i)) as [->|Hne].
  - rewrite !(bool_decide_eq_true_2 (_ = _)), (bool_decide_eq_true_2 (i ∈ i :: ins))
      by (done || by left). by case_bool_decide.
  - rewrite (bool_decide_eq_false_2 (IntentStateKey j = _)) by (by intros ?%IntentStateKey_inj).
    assert (Hb : bool_decide (i ∈ j :: ins) = bool_decide (i ∈ ins)).
    { apply bool_decide_ext. rewrite elem_of_cons. split; [|by right].
      intros [->|]; done. }
    by rewrite Hb.
Qed.

Lemma LoadEnabled_SaveEnabled r r0 tbl i :
  IsEnabled (LoadEnabled (SaveEnabled r tbl) r0) i = IsEnabled r i.
Proof.
  unfold LoadEnabled, SaveEnabled.
  rewrite LoadEnabled_from, SaveEnabled_from.
  by rewrite !(bool_decide_eq_true_2 (i ∈ kAllIntents)) by apply kAllIntents_all.
Qed.

(** Loading one half leaves the other. *)
Lemma LoadEnabled_triggers tbl r : triggers_ (LoadEnabled tbl r) = triggers_ r.
Proof.
  unfold LoadEnabled. generalize kAllIntents. intros ins.
  assert (H : forall r', triggers_ r' = triggers_ r -> triggers_ (foldl (fun r i =>
    match get_boolean tbl (IntentStateKey i) with Some b => SetEnabled i b r | None => r end)
    r' ins) = triggers_ r); [|by apply H].
  induction ins as [|i ins IH]; intros r' Hr; simpl; [done|]. apply IH. by destruct (get_boolean _ _).
Qed.

(** A registry saved and loaded again, triggers and flags, matches exactly
    the events it matched, whatever was in the registry loaded into and in the
    table saved into. *)
Theorem Load_Save_matches r r0 tbl :
  (forall j, Forall trigger_ok (TriggersFor r j)) ->
  let r' := LoadEnabled (SaveEnabled r tbl) (Load (Save r []) r0) in
  (forall i, TriggersFor r' i = TriggersFor r i /\ IsEnabled r' i = IsEnabled r i) /\
  (forall i v m dt ku, Matches r' i v m dt ku = Matches r i v m dt ku).
Proof.
  intros Hok. cbv zeta.
  assert (H : forall i,
    TriggersFor (LoadEnabled (SaveEnabled r tbl) (Load (Save r []) r0)) i = TriggersFor r i /\
    IsEnabled (LoadEnabled (SaveEnabled r tbl) (Load (Save r []) r0)) i = IsEnabled r i).
  { intros i. split; [|apply LoadEnabled_SaveEnabled].
    unfold TriggersFor at 1. rewrite LoadEnabled_triggers. by apply Load_Save_triggers. }
  split; [done|]. intros i v m dt ku. rewrite !Matches_existsb.
  by destruct (H i) as [-> ->].
Qed.

(** The factory bindings intercept nothing until an intent is enabled. *)
Lemma Defaults_inert i v m dt ku : Matches Defaults i v m dt ku = false.
Proof. by destruct i. Qed.

(** Enabling toggles brings out Ctrl released alone and Alt tapped twice. *)
Lemma Defaults_toggle v m dt ku :
  Matches (SetEnabled ToggleEnabled true Defaults) ToggleEnabled v m dt ku = true <->
  m = 0 /\ ((v = 17 /\ dt = false /\ ku = true) \/ (v = 18 /\ dt = true)).
Proof.
  rewrite Matches_existsb.
  change (TriggersFor _ _) with [mkTrigger 17 0 false; mkTrigger 18 0 true].
  change (IsEnabled _ _) with true. cbn [existsb andb].
  rewrite orb_false_r, orb_true_iff, !trigger_fires_spec.
  unfold fires. simpl. split.
  - intros [(<- & <- & <- & H)|(<- & <- & <- & _)]; [|tauto]. rewrite H by done. tauto.
  - intros [-> [(-> & -> & ->)|(-> & ->)]]; [left|right]; by split_and!.
Qed.

(** ** A registry at work: Ctrl+Shift+Z cancels, 2xAlt toggles *)

Definition bound : HotkeyRegistry :=
  SetEnabled SkipMacro false
    (AddTrigger ToggleEnabled (mkTrigger 18 0 true)
      (AddTrigger CancelComposition (mkTrigger 90 3 false) empty_registry)).

Lemma Load_Save_matches_witness :
  Matches bound CancelComposition 90 3 false false = true /\
  Matches (LoadEnabled (SaveEnabled bound []) (Load (Save bound []) Defaults))
    CancelComposition 90 3 false false = true.
Proof.
  split; [reflexivity|].
  assert (Hok : forall j, Forall trigger_ok (TriggersFor bound j)).
  { intros j. destruct j; repeat constructor; simpl; lia. }
  destruct (Load_Save_matches bound Defaults [] Hok) as [_ H]. rewrite H. reflexivity.
Defined.

(** ** Hotkey labels (src/src/core/hotkey/HotkeyLabel.cpp)

    What the settings show for a key and its modifiers, and that two different
    hotkeys never show the same. *)

(** ** The names *)

Inductive VkNameStyle := VkWords | VkCompactArrows.

(** The two tables differ in the four arrows and Delete. *)
Definition names_with (left up right down del : wstring) : list (Z * wstring) :=
  [(8, wstr "Backspace"); (9, wstr "Tab"); (13, wstr "Enter");
   (16, wstr "Shift"); (17, wstr "Ctrl"); (18, wstr "Alt");
   (19, wstr "Pause"); (20, wstr "Caps"); (27, wstr "Esc"); (32, wstr "Space");
   (33, wstr "PgUp"); (34, wstr "PgDn"); (35, wstr "End"); (36, wstr "Home");
   (37, left); (38, up); (39, right); (40, down);
   (44, wstr "PrtSc"); (45, wstr "Insert"); (46, del);
   (91, wstr "Win"); (92, wstr "Win"); (93, wstr "Menu");
   (186, wstr ";"); (187, wstr "="); (188, wstr ","); (189, wstr "-"); (190, wstr ".");
   (191, wstr "/"); (192, wstr "`"); (219, wstr "["); (220, wstr "\"); (221, wstr "]");
   (222, wstr "'")].
Definition WordsTable : list (Z * wstring) :=
  names_with (wstr "Left") (wstr "Up") (wstr "Right") (wstr "Down") (wstr "Delete").
Definition ArrowsTable : list (Z * wstring) :=
  names_with [8592] [8593] [8594] [8595] (wstr "Del").

Definition GetVkDisplayNames (style : VkNameStyle) : list (Z * wstring) :=
  match style with VkCompactArrows => ArrowsTable | VkWords => WordsTable end.

(** [std::to_wstring], for the numbers below 100 it is called with. *)
Definition to_wstring (n : Z) : wstring :=
  if n <? 10 then [48 + n] else [48 + n / 10; 48 + n mod 10].

Definition kHex : wstring := wstr "0123456789ABCDEF".
Definition hex_digit (v shift : Z) : wchar := nth (Z.to_nat (Z.land (Z.shiftr v shift) 15)) kHex 0.

Definition VkToKeyName (v : Z) : wstring :=
  if v =w 0 then []
  else if (48 <=? v) && (v <=? 57) then [v]
  else if (65 <=? v) && (v <=? 90) then [v]
  else if (96 <=? v) && (v <=? 105) then wstr "Num" ++ to_wstring (v - 96)
  else if (112 <=? v) && (v <=? 135) then wstr "F" ++ to_wstring (v - 111)
  else match List.find (fun kn => kn.1 =w v) WordsTable with
       | Some (_, name) => name
       | None => wstr "VK 0x" ++ [hex_digit v 12; hex_digit v 8; hex_digit v 4; hex_digit v 0]
       end.

Definition AppendWithPlus (out token : wstring) : wstring :=
  (if bool_decide (out = []) then out else out ++ [L "+"]) ++ token.

Definition FormatHotkeyLabel (v m : Z) : wstring :=
  let out := [] in
  let out := if Z.land m kModCtrl <>w 0 then AppendWithPlus out (wstr "Ctrl") else out in
  let out := if Z.land m kModShift <>w 0 then AppendWithPlus out (wstr "Shift") else out in
  let out := if Z.land m kModAlt <>w 0 then AppendWithPlus out (wstr "Alt") else out in
  let out := if Z.land m kModWin <>w 0 then AppendWithPlus out (wstr "Win") else out in
  if v <>w 0 then AppendWithPlus out (VkToKeyName v) else out.

Definition LegacyKeyCharToVk (s : wstring) : Z :=
  match s with
  | [c0] =>
      let c := towupper c0 in
      if ((L "A" <=? c) && (c <=? L "Z")) || ((L "0" <=? c) && (c <=? L "9")) then c else 0
  | _ => 0
  end.

(** ** Names tell keys apart *)

Definition no_plus (s : wstring) : bool := forallb (fun c => c <>w L "+") s.

(** The keys below 256: their names have no plus, are not empty, and tell them
    apart, the two Windows keys excepted; those that fall back to a number start
    with two zeros. *)
Definition small_key_ok (v : Z) : bool :=
  let name := VkToKeyName v in
  no_plus name && negb (bool_decide (name = [])) &&
  (negb (bool_decide (take 5 name = wstr "VK 0x")) ||
   bool_decide (take 7 name = wstr "VK 0x00")) &&
  forallb (fun w => negb (bool_decide (VkToKeyName w = name)) || (w =w v) ||
                    ((v =w 91) && (w =w 92)) || ((v =w 92) && (w =w 91)))
    (map Z.of_nat (seq 1 255)).

Lemma small_keys v : 1 <= v < 256 -> small_key_ok v = true.
Proof. apply (forall_units small_key_ok 1 256). vm_compute. reflexivity. Qed.

Lemma big_key v : 256 <= v < 65536 ->
  VkToKeyName v =
  wstr "VK 0x" ++ [hex_digit v 12; hex_digit v 8; hex_digit v 4; hex_digit v 0].
Proof.
  intros Hv. unfold VkToKeyName.
  destruct (Z.eqb_spec v 0); [lia|].
  repeat match goal with |- context [(?a <=? v) && (v <=? ?b)] =>
    replace ((a <=? v) && (v <=? b)) with false by lia end.
  destruct (List.find (fun kn => kn.1 =w v) WordsTable) as [[k name]|] eqn:E; [|done].
  apply find_some in E as [Hin Hk]. simpl in Hk. apply Z.eqb_eq in Hk as ->.
  assert (Hall : forallb (fun kn => kn.1 <? 256) WordsTable = true) by reflexivity.
  rewrite forallb_forall in Hall. specialize (Hall _ Hin). simpl in Hall. lia.
Qed.

Lemma hex_digit_inj v w s :
  0 <= s -> hex_digit v s = hex_digit w s ->
  v / 2 ^ s mod 16 = w / 2 ^ s mod 16.
Proof.
  intros Hs. unfold hex_digit. change 15 with (Z.ones 4).
  rewrite !Z.land_ones, !Z.shiftr_div_pow2 by lia. change (2 ^ 4) with 16.
  set (a := v / 2 ^ s mod 16). set (b := w / 2 ^ s mod 16).
  assert (Ha : 0 <= a < 16) by (apply Z.mod_pos_bound; lia).
  assert (Hb : 0 <= b < 16) by (apply Z.mod_pos_bound; lia).
  assert (Hd : forallb (fun i => forallb (fun j =>
    negb (nth i kHex 0 =w nth j kHex 0) || (i =? j)%nat) (seq 0 16)) (seq 0 16) = true)
    by (vm_compute; reflexivity).
  rewrite forallb_forall in Hd. specialize (Hd (Z.to_nat a) ltac:(apply in_seq; lia)).
  rewrite forallb_forall in Hd. specialize (Hd (Z.to_nat b) ltac:(apply in_seq; lia)).
  intros E. rewrite E, Z.eqb_refl in Hd. simpl in Hd. apply Nat.eqb_eq in Hd. lia.
Qed.

(** The keys the system reports, the second Windows key aside: it is named as
    the first. *)
Definition named_key (v : Z) : Prop := 1 <= v < 65536 /\ v <> kVkRwin.

Lemma big_not_small v w : 1 <= v < 256 -> 256 <= w < 65536 -> VkToKeyName v <> VkToKeyName w.
Proof.
  intros Hv Hw E. pose proof (small_keys v Hv) as Hs. unfold small_key_ok in Hs.
  rewrite E, big_key in Hs by done. apply andb_true_iff in Hs as [Hs _].
  apply andb_true_iff in Hs as [_ Hs]. cbn [wstr app take] in Hs.
  apply orb_true_iff in Hs as [Hs|Hs]; [done|]. apply bool_decide_eq_true in Hs.
  injection Hs as H1 H2.
  pose proof (hex_digit_inj w 0 12 ltac:(lia) H1) as F1.
  pose proof (hex_digit_inj w 0 8 ltac:(lia) H2) as F2.
  change (2 ^ 12) with 4096 in F1. change (2 ^ 8) with 256 in F2.
  rewrite !Z.div_0_l, Z.mod_0_l in F1, F2 by lia.
  Z.div_mod_to_equations. lia.
Qed.

Lemma VkToKeyName_inj v w :
  named_key v -> named_key w -> VkToKeyName v = VkToKeyName w -> v = w.
Proof.
  intros [Hv Hv'] [Hw Hw'] E. unfold kVkRwin in *.
  destruct (Z.ltb_spec v 256), (Z.ltb_spec w 256).
  - pose proof (small_keys v ltac:(lia)) as Hs. unfold small_key_ok in Hs.
    apply andb_true_iff in Hs as [_ Hs]. rewrite forallb_forall in Hs.
    specialize (Hs w). rewrite E in Hs. rewrite bool_decide_eq_true_2 in Hs by done.
    assert (Hin : In w (map Z.of_nat (seq 1 255))).
    { apply in_map_iff. exists (Z.to_nat w). split; [lia|apply in_seq; lia]. }
    specialize (Hs Hin). lia.
  - exfalso. by apply (big_not_small v w); [lia..|].
  - exfalso. by apply (big_not_small w v); [lia..|].
  - rewrite !big_key in E by lia. cbn [wstr app] in E. injection E as H1 H2 H3 H4.
    apply hex_digit_inj in H1, H2, H3, H4; try lia.
    change (2 ^ 12) with 4096 in *. change (2 ^ 8) with 256 in *.
    change (2 ^ 4) with 16 in *. change (2 ^ 0) with 1 in *.
    Z.div_mod_to_equations. lia.
Qed.

Lemma VkToKeyName_plain v :
  1 <= v < 65536 -> no_plus (VkToKeyName v) = true /\ VkToKeyName v <> [].
Proof.
  intros Hv. destruct (Z.ltb_spec v 256).
  - pose proof (small_keys v ltac:(lia)) as Hs. unfold small_key_ok in Hs.
    apply andb_true_iff in Hs as [Hs _]. apply andb_true_iff in Hs as [Hs _].
    apply andb_true_iff in Hs as [Hs1 Hs2%negb_true_iff%bool_decide_eq_false]. done.
  - rewrite big_key by lia. split; [|done].
    assert (Hh : forall s, (hex_digit v s <>w L "+") = true).
    { intros s. unfold hex_digit. change 15 with (Z.ones 4). rewrite Z.land_ones by lia.
      assert (Ha : 0 <= Z.shiftr v s mod 2 ^ 4 < 16) by (apply Z.mod_pos_bound; lia).
      set (a := Z.shiftr v s mod 2 ^ 4) in *.
      assert (Hd : forallb (fun i => nth i kHex 0 <>w 43) (seq 0 16) = true) by reflexivity.
      rewrite forallb_forall in Hd. apply Hd, in_seq. lia. }
    unfold no_plus. rewrite forallb_app. cbn [forallb]. by rewrite !Hh.
Qed.

(** ** Labels tell hotkeys apart *)

(** The modifiers of a label, each with its plus. *)
Definition modifiers (m : Z) : wstring :=
  (if Z.land m kModCtrl <>w 0 then wstr "Ctrl+" else []) ++
  (if Z.land m kModShift <>w 0 then wstr "Shift+" else []) ++
  (if Z.land m kModAlt <>w 0 then wstr "Alt+" else []) ++
  (if Z.land m kModWin <>w 0 then wstr "Win+" else []).

Lemma FormatHotkeyLabel_split v m :
  v <> 0 -> FormatHotkeyLabel v m = modifiers m ++ VkToKeyName v.
Proof.
  intros Hv. unfold FormatHotkeyLabel, modifiers, AppendWithPlus.
  rewrite (proj2 (Z.eqb_neq v 0) Hv). cbn [negb].
  by destruct (Z.land m kModCtrl <>w 0), (Z.land m kModShift <>w 0),
    (Z.land m kModAlt <>w 0), (Z.land m kModWin <>w 0).
Qed.

Lemma modifiers_inj m m' :
  0 <= m < 16 -> 0 <= m' < 16 -> modifiers m = modifiers m' -> m = m'.
Proof.
  intros Hm Hm' E.
  assert (H : forallb (fun i => forallb (fun j =>
    negb (bool_decide (modifiers (Z.of_nat i) = modifiers (Z.of_nat j))) || (i =? j)%nat)
    (seq 0 16)) (seq 0 16) = true) by (vm_compute; reflexivity).
  rewrite forallb_forall in H. specialize (H (Z.to_nat m) ltac:(apply in_seq; lia)).
  rewrite forallb_forall in H. specialize (H (Z.to_nat m') ltac:(apply in_seq; lia)).
  rewrite !Z2Nat.id, bool_decide_eq_true_2 in H by (done || lia).
  apply Nat.eqb_eq in H. lia.
Qed.

(** A prefix that ends with a plus, or is empty, and a name without one. *)
Definition closed (p : wstring) : Prop := p = [] \/ exists q, p = q ++ [L "+"].

Lemma modifiers_closed m : closed (modifiers m).
Proof.
  unfold modifiers, closed.
  destruct (Z.land m kModCtrl <>w 0), (Z.land m kModShift <>w 0),
    (Z.land m kModAlt <>w 0), (Z.land m kModWin <>w 0); [..|by left];
    right; match goal with |- exists q, ?p = _ => exists (removelast p); reflexivity end.
Qed.

Lemma closed_tail p k n :
  closed (p ++ k) -> no_plus (k ++ n) = true -> k = [].
Proof.
  intros Hp Hn. destruct k as [|x k _] using rev_ind; [done|]. exfalso.
  destruct Hp as [E|[q E]]; [by destruct p, k|].
  rewrite app_assoc in E. apply app_inj_tail in E as [_ ->].
  unfold no_plus in Hn. rewrite !forallb_app in Hn. simpl in Hn.
  by rewrite andb_false_r in Hn.
Qed.

Lemma closed_split p n p' n' :
  closed p -> closed p' -> no_plus n = true -> no_plus n' = true ->
  p ++ n = p' ++ n' -> p = p' /\ n = n'.
Proof.
  intros Hp Hp' Hn Hn' E. apply app_eq_inv in E as [(k & -> & ->)|(k & -> & ->)].
  - assert (k = []) as -> by by eapply closed_tail. by rewrite app_nil_r.
  - assert (k = []) as -> by by eapply closed_tail. by rewrite app_nil_r.
Qed.

(** Two hotkeys that show the same label are the same: whatever the keys,
    letters, function keys, punctuation or keys known by number only, and the
    modifiers; the right Windows key, which is named as the left one, aside. *)
Theorem FormatHotkeyLabel_injective v m v' m' :
  named_key v -> named_key v' -> 0 <= m < 16 -> 0 <= m' < 16 ->
  FormatHotkeyLabel v m = FormatHotkeyLabel v' m' -> v = v' /\ m = m'.
Proof.
  intros Hv Hv' Hm Hm'. pose proof Hv as [Hr _]. pose proof Hv' as [Hr' _].
  rewrite !FormatHotkeyLabel_split by lia. intros E.
  destruct (VkToKeyName_plain v Hr) as [P _]. destruct (VkToKeyName_plain v' Hr') as [P' _].
  apply closed_split in E as [E1 E2]; auto using modifiers_closed.
  split; [by apply VkToKeyName_inj|by apply modifiers_inj].
Qed.

(** [Ctrl+Shift+F5], and one key that has only its number. *)
Lemma FormatHotkeyLabel_injective_witness :
  FormatHotkeyLabel 116 3 = wstr "Ctrl+Shift+F5" /\
  FormatHotkeyLabel 166 8 = wstr "Win+VK 0x00A6" /\
  (FormatHotkeyLabel 116 3 = FormatHotkeyLabel 166 8 -> 116 = 166).
Proof.
  split; [vm_compute; reflexivity|]. split; [vm_compute; reflexivity|]. intros E.
  apply (FormatHotkeyLabel_injective 116 3 166 8); try exact E;
    unfold named_key, kVkRwin; lia.
Defined.

(** The migration of old settings takes letters and digits to their key codes. *)
Lemma LegacyKeyCharToVk_names c :
  LegacyKeyCharToVk [c] <> 0 -> VkToKeyName (LegacyKeyCharToVk [c]) = [towupper c].
Proof.
  unfold LegacyKeyCharToVk. destruct (_ || _) eqn:E; [|done]. intros _.
  unfold VkToKeyName. repeat case_match; try done; lia.
Qed.
