(* ===== verification/AutoCap.v ===== *)
(** * Auto-capitalisation (src/src/core/AutoCapDecision.h, AutoCapStateTransition.h)

    Two ways to know that a sentence starts: the text before the caret, where it
    can be read, and the keys typed, where it cannot.  The theorem: following the
    keys gives the answer the text would give. *)

From S2P Require Import Prelude.
Open Scope Z_scope.

(** ** From the text *)

Inductive CapTrigger := TrigNone | DocStart | LineStart | SentenceEnd.
#[export] Instance CapTrigger_eq_dec : EqDecision CapTrigger.
Proof. solve_decision. Defined.

(** The walk back over blanks: the text that is left, reversed, and whether
    anything was skipped. *)
Fixpoint skip_blanks (rev : wstring) (skipped : bool) : wstring * bool :=
  match rev with
  | c :: rest => if (c =w L " ") || (c =w 9) then skip_blanks rest true else (rev, skipped)
  | [] => ([], skipped)
  end.

Definition is_sentence_mark (c : wchar) : bool := (c =w L ".") || (c =w L "?") || (c =w L "!").

Definition ClassifyCapTrigger (buf : wstring) : CapTrigger :=
  match skip_blanks (rev buf) false with
  | ([], _) => DocStart
  | (c :: _, skippedWhitespace) =>
      if (c =w 10) || (c =w 13) then LineStart
      else if is_sentence_mark c && skippedWhitespace then SentenceEnd
      else TrigNone
  end.

Definition ComputeShouldAutoCap (buf : wstring) : bool := ClassifyCapTrigger buf != TrigNone.

(** ** From a probe of the focused control *)

Record AutoCapControlProbe := mkProbe {
  isSupportedControl : bool; textLengthKnown : bool; caretPositionKnown : bool;
  textLength : Z; caretPosition : Z
}.
Definition ComputeShouldAutoCapFromControlProbe (p : AutoCapControlProbe) : bool :=
  isSupportedControl p && textLengthKnown p && caretPositionKnown p &&
  (textLength p =w 0) && (caretPosition p =w 0).

Definition kAutoCapFocusEvidenceMaxAgeMs : Z := 50.

Record AutoCapFocusEvidence := mkEvidence {
  isKnownEmptyDocument : bool; hwndOpaque : Z; focusedChildHwndOpaque : Z; pid : Z;
  probeStartedAtMs : Z
}.
Record AutoCapFocusContext := mkFocus {
  cur_hwndOpaque : Z; cur_focusedChildHwndOpaque : Z; cur_pid : Z;
  lastInputAtMs : Z; nowMs : Z
}.
(** The last difference is unsigned; the test before it keeps it so. *)
Definition ShouldArmAutoCapFromFocusEvidence (e : AutoCapFocusEvidence)
  (c : AutoCapFocusContext) (maxAgeMs : Z) : bool :=
  isKnownEmptyDocument e && (hwndOpaque e <>w 0) && (focusedChildHwndOpaque e <>w 0) &&
  (pid e <>w 0) && (probeStartedAtMs e <>w 0) &&
  (cur_hwndOpaque c =w hwndOpaque e) &&
  (cur_focusedChildHwndOpaque c =w focusedChildHwndOpaque e) && (cur_pid c =w pid e) &&
  (lastInputAtMs c <? probeStartedAtMs e) && (probeStartedAtMs e <=? nowMs c) &&
  ((nowMs c - probeStartedAtMs e) mod 2 ^ 64 <? maxAgeMs).

Definition ShouldSuppressAutoCapForPasswordSafety (probedIsPassword : bool)
  (evidenceChild currentChild : Z) : bool :=
  if (evidenceChild =w 0) || (currentChild =w 0) || (evidenceChild <>w currentChild) then true
  else probedIsPassword.

(** ** From the keys *)

Inductive AutoCapState := Idle | AfterPunct | ReadyToCapitalize.
#[export] Instance AutoCapState_eq_dec : EqDecision AutoCapState.
Proof. solve_decision. Defined.

Definition ComputeAutoCapStateTransition (current : AutoCapState) (vkCode : Z)
  (shift ctrl alt win : bool) : AutoCapState :=
  if ctrl || alt || win then current
  else if (vkCode =w 190) || ((vkCode =w 191) && shift) || ((vkCode =w 49) && shift)
  then AfterPunct
  else if (vkCode =w 32) && ((current == AfterPunct) || (current == ReadyToCapitalize))
  then ReadyToCapitalize
  else if vkCode =w 13 then ReadyToCapitalize
  else if (65 <=? vkCode) && (vkCode <=? 90)
  then if current == ReadyToCapitalize then current else Idle
  else Idle.

(** ** The letter that is typed next: HookEngine::HandleAlphaKey

    The settings and the focused control, the anchor the text service published
    (whether the caret is at a sentence or line start), and the check of the
    focused control made right before capitalising. *)
Record AutoCapEnv := mkAutoCapEnv {
  autoCaps : bool; engineEmpty : bool; suppressForPassword : bool;
  anchor : option bool; freshIsPassword : bool
}.

(** The character, whether it was raised, the suppression flag, the state. *)
Definition AutoCapAlpha (env : AutoCapEnv) (st : AutoCapState) (originalCh : wchar)
  : wchar * bool * bool * AutoCapState :=
  if autoCaps env && engineEmpty env && negb (suppressForPassword env) then
    let keystrokePending := st == ReadyToCapitalize in
    let shouldCap := default keystrokePending (anchor env) in
    let anchorUsed := negb (bool_decide (anchor env = None)) in
    let '(ch, capped, suppress) :=
      if shouldCap then
        if freshIsPassword env then (originalCh, false, true)
        else (towupper originalCh, towupper originalCh <>w originalCh, false)
      else (originalCh, false, false) in
    (ch, capped, suppress, if anchorUsed || keystrokePending then Idle else st)
  else (originalCh, false, suppressForPassword env, st).

(** ** Typing into a text, with nothing but the keys to go by *)

(** The keys of the two rules and the character each one types; the other keys
    of the rules (tab, Shift+period) are the exceptions, below. *)
Inductive types : Z -> bool -> wchar -> Prop :=
  | types_space sh : types 32 sh (L " ")
  | types_enter sh : types 13 sh 10
  | types_period : types 190 false (L ".")
  | types_question : types 191 true (L "?")
  | types_bang : types 49 true (L "!")
  | types_letter v sh c : 65 <= v <= 90 -> 65 <= towupper c <= 90 -> types v sh c.

Definition keys_only : AutoCapEnv := mkAutoCapEnv true true false None false.

(** The state after a key: the rule, then the letter's consumption. *)
Definition type_key (st : AutoCapState) (vkCode : Z) (shift : bool) : bool * AutoCapState :=
  let st := ComputeAutoCapStateTransition st vkCode shift false false false in
  if (65 <=? vkCode) && (vkCode <=? 90)
  then let '(_, capped, _, st) := AutoCapAlpha keys_only st (vkCode + 32) in (capped, st)
  else (false, st).

Fixpoint type_keys (st : AutoCapState) (ks : list (Z * bool)) : AutoCapState :=
  match ks with
  | [] => st
  | (v, sh) :: ks => type_keys (type_key st v sh).2 ks
  end.

(** The state that a text calls for. *)
Definition state_of (text : wstring) : AutoCapState :=
  match ClassifyCapTrigger text with
  | TrigNone =>
      match rev text with c :: _ => if is_sentence_mark c then AfterPunct else Idle | [] => Idle end
  | _ => ReadyToCapitalize
  end.

(** Something other than a blank was typed before. *)
Definition has_text (text : wstring) : Prop := (skip_blanks (rev text) false).1 <> [].

Lemma skip_blanks_fst r b b' : (skip_blanks r b).1 = (skip_blanks r b').1.
Proof.
  revert b b'. induction r as [|c r IH]; intros b b'; simpl; [done|].
  destruct (_ || _); [apply IH|done].
Qed.

Lemma skip_blanks_true r : (skip_blanks r true).2 = true.
Proof. induction r as [|c r IH]; simpl; [done|]. destruct (_ || _); done. Qed.

Lemma has_text_snoc text c : has_text text -> has_text (text ++ [c]).
Proof.
  unfold has_text. rewrite rev_app_distr. simpl. destruct (_ || _); [|done].
  by rewrite (skip_blanks_fst _ true false).
Qed.

(** A character that is not a blank is itself the last one. *)
Lemma Classify_snoc text c :
  (c =w L " ") || (c =w 9) = false ->
  ClassifyCapTrigger (text ++ [c]) =
  if (c =w 10) || (c =w 13) then LineStart else TrigNone.
Proof.
  intros E. unfold ClassifyCapTrigger. rewrite rev_app_distr. simpl. rewrite E.
  by rewrite andb_false_r.
Qed.

Lemma state_of_snoc text c :
  (c =w L " ") || (c =w 9) = false ->
  state_of (text ++ [c]) =
  if (c =w 10) || (c =w 13) then ReadyToCapitalize
  else if is_sentence_mark c then AfterPunct else Idle.
Proof.
  intros E. unfold state_of. rewrite Classify_snoc by done. rewrite rev_app_distr. simpl.
  by destruct ((c =w 10) || (c =w 13)).
Qed.

(** A space arms what punctuation prepared and keeps what was armed. *)
Lemma state_of_space text :
  has_text text ->
  state_of (text ++ [L " "]) = if bool_decide (state_of text = Idle) then Idle else ReadyToCapitalize.
Proof.
  unfold has_text, state_of, ClassifyCapTrigger. rewrite rev_app_distr. simpl.
  pose proof (skip_blanks_fst (rev text) true false) as Hf.
  pose proof (skip_blanks_true (rev text)) as Ht.
  destruct (skip_blanks (rev text) true) as [r b] eqn:E1.
  destruct (skip_blanks (rev text) false) as [r' b'] eqn:E2. simpl in *. subst.
  destruct r' as [|c r]; [done|]. intros _.
  destruct ((c =w 10) || (c =w 13)) eqn:En; [done|].
  destruct (rev text) as [|d t]; [done|]. simpl in E2.
  destruct ((d =w 32) || (d =w 9)) eqn:Ed.
  - assert (b' = true) as -> by (rewrite <- (skip_blanks_true t), E2; done).
    destruct (is_sentence_mark c && true) eqn:Em; [done|].
    assert (is_sentence_mark d = false) as ->; [|done].
    unfold is_sentence_mark. destruct (Z.eqb_spec d 32) as [->|]; [done|].
    destruct (Z.eqb_spec d 9) as [->|]; [done|]. done.
  - injection E2 as -> _ <-. rewrite andb_true_r, andb_false_r.
    by destruct (is_sentence_mark c).
Qed.

Lemma types_step text v sh c :
  has_text text -> types v sh c ->
  (type_key (state_of text) v sh).2 = state_of (text ++ [c]).
Proof.
  intros Ht Hty. destruct Hty as [sh|sh| | | |v sh c Hv Hc].
  - rewrite state_of_space by done. by destruct (state_of text).
  - by rewrite state_of_snoc.
  - by rewrite state_of_snoc.
  - by rewrite state_of_snoc.
  - by rewrite state_of_snoc.
  - assert (Hl : 65 <= c <= 90 \/ 97 <= c <= 122).
    { unfold towupper in Hc. destruct ((97 <=? c) && (c <=? 122)) eqn:E; lia. }
    rewrite state_of_snoc by lia.
    replace ((c =w 10) || (c =w 13)) with false by lia.
    replace (is_sentence_mark c) with false by (unfold is_sentence_mark; lia).
    unfold type_key, ComputeAutoCapStateTransition. simpl.
    replace (v =w 190) with false by lia. replace (v =w 191) with false by lia.
    replace (v =w 49) with false by lia. replace (v =w 32) with false by lia.
    replace (v =w 13) with false by lia.
    replace ((65 <=? v) && (v <=? 90)) with true by lia. simpl.
    by destruct (state_of text).
Qed.

(** C31. Following the keys is as good as reading the text: after any keys of the
    rules (letters, space, Enter, period, question and exclamation mark) typed
    into any text that has a word in it, the keystroke state machine is armed
    exactly when the text before the caret starts a sentence or a line. *)
Theorem keystrokes_follow_text text ks :
  has_text text -> Forall (fun k => types k.1.1 k.1.2 k.2) ks ->
  let text' := text ++ map snd ks in
  type_keys (state_of text) (map fst ks) = state_of text' /\
  (type_keys (state_of text) (map fst ks) = ReadyToCapitalize <->
   ComputeShouldAutoCap text' = true).
Proof.
  cbv zeta. intros Ht Hks.
  assert (E : type_keys (state_of text) (map fst ks) = state_of (text ++ map snd ks)).
  { revert text Ht. induction Hks as [|[[v sh] c] ks Hk _ IH]; intros text Ht; simpl.
    - by rewrite app_nil_r.
    - simpl in Hk. rewrite (types_step text v sh c) by done.
      rewrite IH by (by apply has_text_snoc). by rewrite <- app_assoc. }
  split; [done|]. rewrite E. unfold state_of, ComputeShouldAutoCap.
  destruct (ClassifyCapTrigger _); [|done..].
  destruct (rev _) as [|c ?]; [done|]. by destruct (is_sentence_mark c).
Qed.

(** "a" + ". b. " *)
Lemma keystrokes_follow_text_witness :
  type_keys Idle [(190, false); (32, false); (66, false); (190, false); (32, false)]
    = ReadyToCapitalize.
Proof.
  pose (ks := [((190, false), L "."); ((32, false), L " "); ((66, false), L "b");
               ((190, false), L "."); ((32, false), L " ")]).
  destruct (keystrokes_follow_text [L "a"] ks) as [H _]; [done| |exact H].
  repeat constructor; unfold towupper; simpl; lia.
Defined.

(** The rule looks at the key, not at what it types: Shift+period, which types
    [>], prepares a capital as a period does; in the text it would not. *)
Lemma shift_period_arms :
  (type_key (type_key Idle 190 true).2 32 false).2 = ReadyToCapitalize /\
  ComputeShouldAutoCap [L "a"; L ">"; L " "] = false.
Proof. done. Qed.

(** Stale or foreign evidence never arms: the same control, nothing typed since. *)
Lemma evidence_is_fresh e c age :
  ShouldArmAutoCapFromFocusEvidence e c age = true ->
  isKnownEmptyDocument e = true /\ cur_hwndOpaque c = hwndOpaque e /\
  cur_focusedChildHwndOpaque c = focusedChildHwndOpaque e /\ cur_pid c = pid e /\
  lastInputAtMs c < probeStartedAtMs e <= nowMs c.
Proof.
  unfold ShouldArmAutoCapFromFocusEvidence. intros H. bool_hyps. split_and!; try done; lia.
Qed.
