(* ===== verification/HookGuards.v ===== *)
(** * Guards around the keyboard hook

    The watchdog's restart throttle (core/RestartThrottle.h) and the bounded
    re-installation of the hook for one application (core/DorionHookReclaimPolicy.h,
    core/DorionHookReclaimSequence.h, core/SingleHookReplacement.h): fixed arrays,
    and what they can promise being fixed. *)

From stdpp Require Import sorting.
From S2P Require Import Prelude.
Open Scope Z_scope.

(** ** The restart throttle *)

Module Throttle.

(** [times_] up to [count_], and the window.  Sums are of [uint64_t]. *)
Record RestartThrottle := mkThrottle { times : list Z; windowMs : Z }.

Definition add64 (a b : Z) : Z := (a + b) mod 2 ^ 64.

Definition AllowRestart (Cap : nat) (nowMs : Z) (t : RestartThrottle) : bool * RestartThrottle :=
  let kept := List.filter (fun s => nowMs <? add64 s (windowMs t)) (times t) in
  if (Cap <=? length kept)%nat then (false, mkThrottle kept (windowMs t))
  else (true, mkThrottle (kept ++ [nowMs]) (windowMs t)).

(** Attempts in turn: the times of those that were allowed. *)
Fixpoint run (Cap : nat) (nows : list Z) (t : RestartThrottle) : list Z * RestartThrottle :=
  match nows with
  | [] => ([], t)
  | now :: nows =>
      let '(ok, t) := AllowRestart Cap now t in
      let '(rest, t) := run Cap nows t in
      ((if ok then [now] else []) ++ rest, t)
  end.

(** The restarts in the window that ends at [now]. *)
Definition in_window (W now : Z) (l : list Z) : list Z :=
  List.filter (fun s => (s <=? now) && (now <? s + W)) l.

Section Facts.
Context (Cap : nat) (W : Z) (HW : 0 <= W).

(** A clock: attempts do not go back in time, and stay clear of the wrap. *)
Definition clock (from : Z) (nows : list Z) : Prop :=
  StronglySorted Z.le (from :: nows) /\ Forall (fun n => 0 <= n /\ n + W < 2 ^ 64) nows.

(** The throttle remembers, of the restarts so far, those in the window. *)
Definition remembers (now : Z) (past : list Z) (t : RestartThrottle) : Prop :=
  windowMs t = W /\ Forall (fun s => 0 <= s <= now) past /\
  (forall n, now <= n -> n + W < 2 ^ 64 ->
     List.filter (fun s => n <? add64 s W) (times t) = in_window W n past) /\
  Forall (fun s => 0 <= s <= now) (times t).

(** At no time are more than [Cap] of the restarts within one window. *)
Definition throttled (past : list Z) : Prop :=
  forall n, (length (in_window W n past) <= Cap)%nat.

Lemma in_window_app n a b : in_window W n (a ++ b) = in_window W n a ++ in_window W n b.
Proof. apply filter_app. Qed.

Lemma in_window_future n s : n < s -> in_window W n [s] = [].
Proof. intros H. unfold in_window. simpl. by replace (s <=? n) with false by lia. Qed.

(** What a window ending later holds of the past, a window ending now holds. *)
Lemma in_window_shrinks n now past :
  now <= n -> Forall (fun s => 0 <= s <= now) past ->
  (length (in_window W n past) <= length (in_window W now past))%nat.
Proof.
  intros Hn. induction 1 as [|s past Hs _ IH]; [done|]. unfold in_window in *. simpl.
  replace (s <=? n) with true by lia. replace (s <=? now) with true by lia. simpl.
  destruct (Z.ltb_spec n (s + W)).
  - replace (now <? s + W) with true by lia. simpl. lia.
  - destruct (now <? s + W); simpl; lia.
Qed.

Lemma filter_filter {A} (p q : A -> bool) l :
  List.filter p (List.filter q l) = List.filter (fun x => q x && p x) l.
Proof.
  induction l as [|x l IH]; [done|]. simpl. destruct (q x); simpl; by rewrite IH.
Qed.

Lemma filter_ext_Forall {A} (p q : A -> bool) l :
  Forall (fun x => p x = q x) l -> List.filter p l = List.filter q l.
Proof. induction 1 as [|x l H _ IH]; simpl; [done|]. by rewrite H, IH. Qed.

Lemma AllowRestart_step prev past now t :
  prev <= now -> now + W < 2 ^ 64 -> 0 <= now -> 
  throttled past -> remembers prev past t ->
  let '(ok, t') := AllowRestart Cap now t in
  let past' := past ++ (if ok then [now] else []) in
  throttled past' /\ remembers now past' t' /\
  (ok = false <-> (Cap <= length (in_window W now past))%nat).
Proof.
  intros Hle Hb H0 Hthr (Hw & Hpast & Hrem & Ht). unfold AllowRestart. rewrite Hw.
  assert (Hpast' : Forall (fun s => 0 <= s <= now) past)
    by (eapply List.Forall_impl; [|exact Hpast]; simpl; lia).
  rewrite (Hrem now) by lia.
  assert (Hkept : forall n, now <= n -> n + W < 2 ^ 64 ->
    List.filter (fun s => n <? add64 s W) (in_window W now past) = in_window W n past).
  { intros n Hn Hnb. unfold in_window. rewrite filter_filter. apply filter_ext_Forall.
    eapply List.Forall_impl; [|exact Hpast']. simpl. intros s Hs.
    unfold add64. rewrite Z.mod_small by lia. lia. }
  assert (Hin : Forall (fun s => 0 <= s <= now) (in_window W now past)).
  { unfold in_window. apply List.Forall_forall. intros s [Hs _]%filter_In.
    rewrite List.Forall_forall in Hpast'. by apply Hpast'. }
  destruct (Nat.leb_spec Cap (length (in_window W now past))).
  - rewrite app_nil_r. split; [done|]. split; [|tauto]. by split_and!.
  - split; [|split].
    + intros n. rewrite in_window_app, length_app.
      destruct (Z.ltb_spec n now).
      * rewrite in_window_future by done. specialize (Hthr n). simpl. lia.
      * pose proof (in_window_shrinks n now past ltac:(lia) Hpast').
        assert (length (in_window W n [now]) <= 1)%nat; [|lia].
        unfold in_window. simpl. destruct (_ && _); simpl; lia.
    + split_and!; [done|apply Forall_app; split; [done|repeat constructor; lia]| |
                   apply Forall_app; split; [done|repeat constructor; lia]].
      intros n Hn Hnb. cbn [times]. rewrite List.filter_app, in_window_app, Hkept by done.
      f_equal. unfold in_window. simpl. unfold add64. rewrite Z.mod_small by lia.
      by replace (now <=? n) with true by lia.
    + split; [done|lia].
Qed.

Lemma last_cons_default (x d : Z) l : List.last (x :: l) d = List.last l x.
Proof.
  revert x d. induction l as [|y l IH]; intros x d; [done|].
  change (List.last (x :: y :: l) d) with (List.last (y :: l) d). by rewrite !IH.
Qed.

Lemma attempts_spec nows prev past t :
  clock prev nows -> throttled past -> remembers prev past t ->
  let '(rest, t') := run Cap nows t in
  throttled (past ++ rest) /\ remembers (List.last nows prev) (past ++ rest) t'.
Proof.
  revert prev past t. induction nows as [|now nows IH]; intros prev past t [Hs Hb] Hthr Hrem.
  - simpl. by rewrite app_nil_r.
  - inversion Hb as [|? ? [Hb1 Hb2] Hb']; subst.
    apply StronglySorted_inv in Hs as [Hs Hle].
    assert (prev <= now) by (inversion Hle; lia).
    pose proof (AllowRestart_step prev past now t ltac:(done) Hb2 Hb1 Hthr Hrem) as Hst.
    cbn [run]. destruct (AllowRestart Cap now t) as [ok t1].
    destruct Hst as (Hthr' & Hrem' & _).
    specialize (IH now _ t1 (conj Hs Hb') Hthr' Hrem').
    destruct (run Cap nows t1) as [rest t2]. rewrite <- app_assoc in IH.
    by rewrite last_cons_default.
Qed.

Lemma clock_app prev nows now :
  clock prev (nows ++ [now]) ->
  clock prev nows /\ List.last nows prev <= now /\ 0 <= now /\ now + W < 2 ^ 64.
Proof.
  intros [Hs Hb]. apply Forall_app in Hb as [Hb Hn]. inversion Hn as [|? ? [H1 H2] _]; subst.
  change (prev :: nows ++ [now]) with ((prev :: nows) ++ [now]) in Hs.
  apply StronglySorted_app in Hs as (Hx & Hs & _). split_and!; try done.
  apply Hx; [|by left]. clear. revert prev.
  induction nows as [|x nows IH]; intros prev; [by left|].
  rewrite last_cons_default. right. apply IH.
Qed.

End Facts.

Definition new_throttle (W : Z) : RestartThrottle := mkThrottle [] W.

Lemma new_remembers W : remembers W 0 [] (new_throttle W).
Proof. split_and!; try done; constructor. Qed.

(** Whatever the attempts, no window of [W] milliseconds holds more than
    [Cap] of the restarts that were allowed; and an attempt is refused only when
    the window that ends with it holds [Cap] of them already. *)
Theorem AllowRestart_bounds_window Cap W nows now :
  0 <= W -> clock W 0 (nows ++ [now]) ->
  let '(past, t) := run Cap nows (new_throttle W) in
  throttled Cap W past /\
  ((AllowRestart Cap now t).1 = false <-> (Cap <= length (in_window W now past))%nat).
Proof.
  intros HW (Hc & Hlast & H0 & Hb)%clock_app.
  pose proof (attempts_spec Cap W HW nows 0 [] (new_throttle W) Hc) as H.
  destruct (run Cap nows (new_throttle W)) as [past t]. simpl in H.
  destruct H as [Hthr Hrem]; [intros n; simpl; lia|apply new_remembers|].
  split; [done|].
  pose proof (AllowRestart_step Cap W HW _ past now t Hlast Hb H0 Hthr Hrem) as Hst.
  destruct (AllowRestart Cap now t) as [ok t']. by destruct Hst as (_ & _ & ?).
Qed.

(** Two restarts a second: the third within the second is refused, the next is not. *)
Lemma AllowRestart_bounds_window_witness :
  (run 2 [0; 400; 900; 1000] (new_throttle 1000)).1 = [0; 400; 1000] /\
  throttled 2 1000 [0; 400; 1000].
Proof.
  split; [vm_compute; reflexivity|].
  pose proof (AllowRestart_bounds_window 2 1000 [0; 400; 900; 1000] 2000 ltac:(lia)) as H.
  destruct (run 2 [0; 400; 900; 1000] (new_throttle 1000)) as [past t] eqn:E.
  vm_compute in E. injection E as <- <-. apply H.
  split; [|repeat constructor; lia]. repeat constructor; lia.
Defined.
End Throttle.

(** ** Process identities and fixed arrays of slots *)

Module Dorion.

Record Identity := mkId { pid : Z; creationTime : Z }.
#[export] Instance Identity_eq_dec : EqDecision Identity.
Proof. solve_decision. Defined.
Definition no_id : Identity := mkId 0 0.
Definition id_valid (i : Identity) : bool := (pid i <>w 0) && (creationTime i <>w 0).

(** The loop that writes the first slot that is not valid, and returns. *)
Fixpoint fill_free {A} (valid : A -> bool) (x : A) (slots : list A) : option (list A) :=
  match slots with
  | [] => None
  | s :: slots =>
      if negb (valid s) then Some (x :: slots)
      else (fun l => s :: l) <$> fill_free valid x slots
  end.

Definition Contains (l : list Identity) (needle : Identity) : bool :=
  existsb (fun i => i == needle) l.
Fixpoint Erase (l : list Identity) (needle : Identity) : list Identity :=
  match l with
  | [] => []
  | i :: l => if i == needle then no_id :: l else i :: Erase l needle
  end.

(** ** DorionHookReclaimPolicy *)

Record Policy := mkPolicy {
  pending_ : list Identity; successful_ : list Identity; suppressNewIdentities_ : bool
}.
Definition new_policy : Policy := mkPolicy (replicate 4 no_id) (replicate 8 no_id) false.

(** [exeIsDorion] is the comparison of the name with "dorion.exe". *)
Definition Observe (exeIsDorion : bool) (i : Identity) (isCurrent : bool) (p : Policy)
  : bool * Policy :=
  if negb isCurrent || negb exeIsDorion || negb (id_valid i) then (false, p)
  else if Contains (pending_ p) i || Contains (successful_ p) i || suppressNewIdentities_ p
  then (false, p)
  else match fill_free id_valid i (pending_ p) with
       | Some l => (true, mkPolicy l (successful_ p) (suppressNewIdentities_ p))
       | None => (false, p)
       end.

Definition Complete (i : Identity) (succeeded : bool) (p : Policy) : Policy :=
  let p := mkPolicy (Erase (pending_ p) i) (successful_ p) (suppressNewIdentities_ p) in
  if negb succeeded || negb (id_valid i) || Contains (successful_ p) i then p
  else match fill_free id_valid i (successful_ p) with
       | Some l => mkPolicy (pending_ p) l (suppressNewIdentities_ p)
       | None => mkPolicy (pending_ p) (successful_ p) true
       end.

Definition PolicyReset (p : Policy) : Policy := new_policy.

Inductive PolicyEvent :=
  | EObserve (exeIsDorion : bool) (i : Identity) (isCurrent : bool)
  | EComplete (i : Identity) (succeeded : bool).
Definition policy_step (p : Policy) (e : PolicyEvent) : Policy :=
  match e with
  | EObserve d i c => (Observe d i c p).2
  | EComplete i s => Complete i s p
  end.

Lemma Contains_elem l i : Contains l i = true <-> i ∈ l.
Proof.
  unfold Contains. rewrite existsb_exists. split.
  - intros (j & Hj & ->%bool_decide_eq_true). by apply list_elem_of_In.
  - intros H. exists i. split; [by apply list_elem_of_In|by apply bool_decide_eq_true].
Qed.

Lemma fill_free_keeps {A} (valid : A -> bool) x l l' y :
  fill_free valid x l = Some l' -> valid y = true -> y ∈ l -> y ∈ l'.
Proof.
  revert l'. induction l as [|s l IH]; intros l'; simpl; [done|].
  destruct (valid s) eqn:E; simpl.
  - destruct (fill_free valid x l) as [m|]; [|done]. intros [= <-] Hy.
    rewrite !elem_of_cons. intros [->|H]; [by left|right]. by apply IH.
  - intros [= <-] Hy. rewrite !elem_of_cons. intros [->|H]; [congruence|by right].
Qed.

Lemma fill_free_elem {A} (valid : A -> bool) x l l' :
  fill_free valid x l = Some l' -> x ∈ l'.
Proof.
  revert l'. induction l as [|s l IH]; intros l'; simpl; [done|].
  destruct (valid s); simpl; [|intros [= <-]; by left].
  destruct (fill_free valid x l) as [m|]; [|done]. intros [= <-]. right. by apply IH.
Qed.

Lemma Erase_keeps l i j : j <> i -> j ∈ l -> j ∈ Erase l i.
Proof.
  intros Hne. induction l as [|k l IH]; simpl; [done|]. rewrite elem_of_cons.
  case_bool_decide as E; intros [Hj|H]; subst; try done; rewrite elem_of_cons; auto.
Qed.

(** Taken: being tried, done, or shut out for good. *)
Definition taken (i : Identity) (p : Policy) : Prop :=
  i ∈ pending_ p \/ i ∈ successful_ p \/ suppressNewIdentities_ p = true.

Lemma taken_not_observed d i c p : taken i p -> (Observe d i c p).1 = false.
Proof.
  unfold Observe, taken. intros H. destruct (_ || negb (id_valid i)); [done|].
  assert (Contains (pending_ p) i || Contains (successful_ p) i || suppressNewIdentities_ p = true)
    as ->; [|done].
  rewrite !orb_true_iff, !Contains_elem. tauto.
Qed.

Lemma taken_step i p e :
  id_valid i = true -> e <> EComplete i false -> taken i p -> taken i (policy_step p e).
Proof.
  intros Hi He Ht. destruct e as [d j c|j s]; simpl.
  - unfold Observe. destruct (negb c || negb d || negb (id_valid j)); [done|].
    destruct (_ || _); [done|]. destruct (fill_free _ _ _) as [l|] eqn:E; [|done].
    destruct Ht as [H|[H|H]]; unfold taken; simpl; [|tauto..].
    left. by eapply fill_free_keeps.
  - unfold Complete. cbn [pending_ successful_ suppressNewIdentities_].
    destruct (decide (j = i)) as [->|Hne].
    + destruct s; [|done]. rewrite Hi. simpl.
      destruct (Contains (successful_ p) i) eqn:Ec.
      { right; left. by apply Contains_elem. }
      destruct (fill_free _ _ (successful_ p)) as [l|] eqn:E; unfold taken; simpl; [|tauto].
      right; left. by eapply fill_free_elem.
    + assert (Ht' : taken i (mkPolicy (Erase (pending_ p) j) (successful_ p)
        (suppressNewIdentities_ p))).
      { destruct Ht as [H|H]; [|by right]. left. by apply Erase_keeps. }
      destruct (_ || _); [done|]. destruct (fill_free _ _ (successful_ p)) as [l|] eqn:E.
      * destruct Ht' as [H|[H|H]]; unfold taken in *; simpl in *; [tauto| |tauto].
        right; left. by eapply fill_free_keeps.
      * unfold taken. simpl. tauto.
Qed.

Lemma observed_taken d i c p p' :
  Observe d i c p = (true, p') -> id_valid i = true /\ taken i p'.
Proof.
  unfold Observe. destruct (id_valid i) eqn:Ei; [|by rewrite orb_true_r].
  destruct (_ || _); [done|]. destruct (_ || _); [done|].
  destruct (fill_free _ _ _) as [l|] eqn:E; [|done]. intros [= <-]. split; [done|].
  left. by eapply fill_free_elem.
Qed.

(** A process is given its hook back once: after it was observed, it is not
    observed again, whatever is observed and completed in between, unless its own
    attempt is reported failed; a full history shuts every newcomer out rather
    than forget one. *)
Theorem Observe_once d i c p p' es d' c' :
  Observe d i c p = (true, p') -> EComplete i false ∉ es ->
  (Observe d' i c' (foldl policy_step p' es)).1 = false.
Proof.
  intros [Hi Ht]%observed_taken Hes. apply taken_not_observed.
  revert p' Ht. induction es as [|e es IH]; intros p' Ht; simpl; [done|].
  rewrite elem_of_cons in Hes. apply IH; [tauto|].
  apply taken_step; [done| |done]. intros ->. tauto.
Qed.

Lemma Observe_once_witness :
  let a := mkId 7 1000 in
  (Observe true a true new_policy).1 = true /\
  (Observe true a true (foldl policy_step (Observe true a true new_policy).2
     [EComplete a true; EObserve true (mkId 8 1001) true])).1 = false.
Proof.
  cbv zeta. split; [reflexivity|].
  apply (Observe_once true (mkId 7 1000) true new_policy); [reflexivity|].
  rewrite !elem_of_cons, elem_of_nil. intros [H|[H|[]]]; discriminate.
Defined.

(** ** DorionDelayedReclaimSlots *)

Record Ticket := mkTicket {
  identity : Identity; timerId : Z; dueTickMs : Z; remainingGateChecks : Z
}.
#[export] Instance Ticket_eq_dec : EqDecision Ticket.
Proof. solve_decision. Defined.
Definition no_ticket : Ticket := mkTicket no_id 0 0 0.
Definition ticket_valid (t : Ticket) : bool :=
  id_valid (identity t) && (timerId t <>w 0) && (remainingGateChecks t <>w 0).

Abbreviation Slots := (list Ticket) (only parsing).
Definition kCapacity : nat := 4.
Definition new_slots : Slots := replicate kCapacity no_ticket.

Definition Arm (t : Ticket) (s : Slots) : bool * Slots :=
  if negb (ticket_valid t) then (false, s)
  else if existsb (fun x => (identity x == identity t) || (timerId x =w timerId t)) s
  then (false, s)
  else match fill_free ticket_valid t s with Some s' => (true, s') | None => (false, s) end.

(** The first slot that passes the test is emptied and returned. *)
Fixpoint take_slot (p : Ticket -> bool) (s : Slots) : option Ticket * Slots :=
  match s with
  | [] => (None, [])
  | x :: s =>
      if p x then (Some x, no_ticket :: s)
      else let '(r, s) := take_slot p s in (r, x :: s)
  end.

Definition TakeIfDue (timer nowTickMs : Z) (s : Slots) : option Ticket * Slots :=
  if timer =w 0 then (None, s)
  else take_slot (fun x => (timerId x =w timer) && (dueTickMs x <=? nowTickMs)) s.
Definition Cancel (i : Identity) (s : Slots) : option Ticket * Slots :=
  if negb (id_valid i) then (None, s) else take_slot (fun x => identity x == i) s.
Definition HasPending (i : Identity) (s : Slots) : bool :=
  id_valid i && existsb (fun x => identity x == i) s.
Definition HasTimer (timer : Z) (s : Slots) : bool :=
  (timer <>w 0) && existsb (fun x => ticket_valid x && (timerId x =w timer)) s.
Definition HasAnyPending (s : Slots) : bool := existsb ticket_valid s.
Definition ActiveTimerIds (s : Slots) : list Z := map timerId s.
Definition ClearSlots (s : Slots) : Slots := new_slots.

(** The operations, what each hands out, and the states they lead to. *)
Inductive SlotOp :=
  | OpArm (t : Ticket) | OpTimer (timer now : Z) | OpCancel (i : Identity) | OpClear.
Definition slot_step (op : SlotOp) (s : Slots) : option Ticket * Slots :=
  match op with
  | OpArm t => (None, (Arm t s).2)
  | OpTimer timer now => TakeIfDue timer now s
  | OpCancel i => Cancel i s
  | OpClear => (None, ClearSlots s)
  end.
Fixpoint slot_steps (ops : list SlotOp) (s : Slots) : list Ticket * Slots :=
  match ops with
  | [] => ([], s)
  | op :: ops =>
      let '(r, s) := slot_step op s in
      let '(rs, s) := slot_steps ops s in (option_list r ++ rs, s)
  end.
Definition slots_reachable (s : Slots) : Prop := exists ops, s = (slot_steps ops new_slots).2.

(** Empty slots are all zero; no identity and no timer is in two slots. *)
Record slots_ok (s : Slots) : Prop := {
  ok_length : length s = kCapacity;
  ok_slots : Forall (fun x => x = no_ticket \/ ticket_valid x = true) s;
  ok_distinct i j x y : s !! i = Some x -> s !! j = Some y -> i <> j ->
    ticket_valid x = true -> ticket_valid y = true ->
    identity x <> identity y /\ timerId x <> timerId y
}.

Lemma fill_free_insert {A} (valid : A -> bool) x l l' :
  fill_free valid x l = Some l' ->
  exists i s, l !! i = Some s /\ valid s = false /\ l' = <[i := x]> l.
Proof.
  revert l'. induction l as [|s l IH]; intros l'; simpl; [done|].
  destruct (valid s) eqn:E; simpl.
  - destruct (fill_free valid x l) as [m|]; [|done]. intros [= <-].
    destruct (IH m eq_refl) as (i & y & H1 & H2 & ->). by exists (S i), y.
  - intros [= <-]. by exists 0%nat, s.
Qed.

Lemma take_slot_insert p s r s' :
  take_slot p s = (r, s') ->
  match r with
  | Some x => exists i, s !! i = Some x /\ p x = true /\ s' = <[i := no_ticket]> s /\
      forall j y, (j < i)%nat -> s !! j = Some y -> p y = false
  | None => s' = s /\ forall x, x ∈ s -> p x = false
  end.
Proof.
  revert r s'. induction s as [|x s IH]; intros r s'; simpl.
  - intros [= <- <-]. split; [done|]. by intros y ?%elem_of_nil.
  - destruct (p x) eqn:E; [intros [= <- <-]; exists 0%nat; split_and!; try done; lia|].
    destruct (take_slot p s) as [r0 s0]. intros [= <- <-]. specialize (IH r0 s0 eq_refl).
    destruct r0 as [y|].
    + destruct IH as (i & H1 & H2 & -> & H3). exists (S i). split_and!; try done.
      intros [|j] z Hj Hz; [by injection Hz as <-|]. eapply (H3 j); [lia|done].
    + destruct IH as [-> H]. split; [done|]. intros y. rewrite elem_of_cons.
      intros [->|?]; auto.
Qed.

Lemma slots_ok_new : slots_ok new_slots.
Proof.
  constructor; [done|by repeat (constructor; [by left|])|].
  intros i j x y Hi _ _ Hx. apply lookup_replicate_1 in Hi as [-> _]. done.
Qed.

Lemma slots_ok_insert s i t :
  slots_ok s -> (t = no_ticket \/ ticket_valid t = true) ->
  (ticket_valid t = true -> forall y, y ∈ s -> ticket_valid y = true ->
     identity y <> identity t /\ timerId y <> timerId t) ->
  slots_ok (<[i := t]> s).
Proof.
  intros [Hl Hz Hd] Ht Hc. constructor; [by rewrite length_insert|by apply Forall_insert|].
  intros j k x y Hj Hk Hne Hx Hy.
  apply list_lookup_insert_Some in Hj as [(<- & -> & _)|[Hij Hj]];
    apply list_lookup_insert_Some in Hk as [(<- & -> & _)|[Hik Hk]]; [done| | |eauto].
  - destruct (Hc Hx y) as [H1 H2]; [by eapply list_elem_of_lookup_2|done|]. by split; apply not_eq_sym.
  - apply (Hc Hy x); [by eapply list_elem_of_lookup_2|done].
Qed.

Lemma slots_ok_empty s i : slots_ok s -> slots_ok (<[i := no_ticket]> s).
Proof. intros H. by apply slots_ok_insert; [|left|]. Qed.

Lemma Arm_true t s s' :
  Arm t s = (true, s') ->
  ticket_valid t = true /\
  (forall y, y ∈ s -> identity y <> identity t /\ timerId y <> timerId t) /\
  exists i x, s !! i = Some x /\ ticket_valid x = false /\ s' = <[i := t]> s.
Proof.
  unfold Arm. destruct (ticket_valid t); [|done]. simpl.
  destruct (existsb _ s) eqn:E; [done|]. destruct (fill_free _ _ _) as [l|] eqn:F; [|done].
  intros [= <-]. split; [done|]. split; [|by apply fill_free_insert in F].
  intros y Hy. rewrite <- not_true_iff_false, existsb_exists in E.
  split; intros Eq; apply E; exists y; (split; [by apply list_elem_of_In|]);
    apply orb_true_iff; [left; by apply bool_decide_eq_true|right; by apply Z.eqb_eq].
Qed.

Lemma take_slot_ok p s r s' : slots_ok s -> take_slot p s = (r, s') -> slots_ok s'.
Proof.
  intros Hok E. apply take_slot_insert in E. destruct r as [x|].
  - destruct E as (i & _ & _ & -> & _). by apply slots_ok_empty.
  - by destruct E as [-> _].
Qed.

Lemma take_slot_keeps p s r s' t : take_slot p s = (r, s') -> p t = false -> t ∈ s -> t ∈ s'.
Proof.
  intros E%take_slot_insert Hp Ht. destruct r as [x|]; [|by destruct E as [-> _]].
  destruct E as (i & Hi & Hx & -> & _). apply list_elem_of_lookup in Ht as [j Hj].
  apply list_elem_of_lookup. exists j. rewrite list_lookup_insert_ne; [done|].
  intros ->. congruence.
Qed.
(** What a test takes, and what is left: nothing that was not there. *)
Lemma take_slot_sub p s r s' y :
  take_slot p s = (r, s') -> y ∈ s' -> y = no_ticket \/ y ∈ s.
Proof.
  intros E%take_slot_insert Hy. destruct r as [x|]; [|destruct E as [-> _]; by right].
  destruct E as (i & _ & _ & -> & _). apply list_elem_of_lookup in Hy as [j Hj].
  apply list_lookup_insert_Some in Hj as [(_ & <- & _)|[_ Hj]]; [by left|right].
  by eapply list_elem_of_lookup_2.
Qed.

Lemma Arm_ok t s : slots_ok s -> slots_ok (Arm t s).2.
Proof.
  intros Hok. destruct (Arm t s) as [[] s1] eqn:E; simpl.
  - apply Arm_true in E as (Ht & Hc & i & x & _ & _ & ->). apply slots_ok_insert; auto.
  - unfold Arm in E. by repeat case_match; simplify_eq.
Qed.
Lemma slot_step_ok op s : slots_ok s -> slots_ok (slot_step op s).2.
Proof.
  intros Hok. destruct op as [t|timer now|i|]; cbn [slot_step snd].
  - by apply Arm_ok.
  - unfold TakeIfDue. destruct (timer =w 0); [done|].
    destruct (take_slot _ s) as [r s1] eqn:E. by eapply take_slot_ok.
  - unfold Cancel. destruct (negb (id_valid i)); [done|].
    destruct (take_slot _ s) as [r s1] eqn:E. by eapply take_slot_ok.
  - apply slots_ok_new.
Qed.
Lemma slot_steps_ok ops s : slots_ok s -> slots_ok (slot_steps ops s).2.
Proof.
  revert s. induction ops as [|op ops IH]; intros s Hok; [done|]. cbn [slot_steps].
  apply (slot_step_ok op) in Hok. destruct (slot_step op s) as [r s1].
  specialize (IH s1 Hok). by destruct (slot_steps ops s1).
Qed.

(** The operation is not one that ends [t]: the firing of its timer when it is due,
    the cancellation of its process, the clearing of all slots. *)
Definition spares (t : Ticket) (op : SlotOp) : bool :=
  match op with
  | OpArm _ => true
  | OpTimer timer now => negb ((timer =w timerId t) && (dueTickMs t <=? now))
  | OpCancel i => i != identity t
  | OpClear => false
  end.

Lemma spares_step t op s r s' :
  slots_ok s -> ticket_valid t = true -> spares t op = true -> t ∈ s -> slot_step op s = (r, s') ->
  t ∈ s' /\ r <> Some t.
Proof.
  intros Hok Ht Hs Hin E. destruct op as [x|timer now|i|]; cbn [slot_step spares] in *; [| | |done].
  - injection E as <- <-. split; [|done]. destruct (Arm x s) as [[] s1] eqn:E; simpl.
    + apply Arm_true in E as (_ & _ & i & y & Hi & Hy & ->).
      apply list_elem_of_lookup in Hin as [j Hj]. apply list_elem_of_lookup. exists j.
      rewrite list_lookup_insert_ne; [done|]. intros ->. congruence.
    + unfold Arm in E. by repeat case_match; simplify_eq.
  - unfold TakeIfDue in E. destruct (timer =w 0); [by injection E as <- <-|].
    assert (Hp : (timerId t =w timer) && (dueTickMs t <=? now) = false).
    { rewrite Z.eqb_sym. by apply negb_true_iff. }
    split; [by eapply take_slot_keeps|]. intros ->. apply take_slot_insert in E.
    destruct E as (j & _ & Ht' & _). congruence.
  - unfold Cancel in E. destruct (negb (id_valid i)); [by injection E as <- <-|].
    assert (Hp : (identity t == i) = false).
    { apply bool_decide_eq_false. apply negb_true_iff, bool_decide_eq_false in Hs. congruence. }
    split; [by eapply take_slot_keeps|]. intros ->. apply take_slot_insert in E.
    destruct E as (j & _ & Ht' & _). congruence.
Qed.
Lemma spares_steps t ops s :
  slots_ok s -> ticket_valid t = true -> forallb (spares t) ops = true -> t ∈ s ->
  t ∈ (slot_steps ops s).2 /\ t ∉ (slot_steps ops s).1.
Proof.
  revert s. induction ops as [|op ops IH]; intros s Hok Ht Hs Hin; [by split; [|apply not_elem_of_nil]|].
  cbn [forallb slot_steps] in *. apply andb_true_iff in Hs as [Hop Hs].
  pose proof (slot_step_ok op s Hok) as Hok'. destruct (slot_step op s) as [r s1] eqn:E.
  destruct (spares_step t op s r s1 Hok Ht Hop Hin E) as [Hin' Hr].
  destruct (IH s1 Hok' Ht Hs Hin') as [H1 H2]. destruct (slot_steps ops s1) as [rs s2]. split; [done|].
  cbn [fst] in *. rewrite elem_of_app. intros [H|H]; [|done].
  destruct r as [x|]; [apply elem_of_cons in H as [->|H]; [done|]|]; by apply elem_of_nil in H.
Qed.

(** No slot has the timer, and none gets it but by being armed with it. *)
Definition without_timer (timer : Z) (s : Slots) : Prop := forall y, y ∈ s -> timerId y <> timer.
Definition not_armed (timer : Z) (op : SlotOp) : bool :=
  match op with OpArm t => timerId t <>w timer | _ => true end.
Lemma take_without timer p s : timer <> 0 -> without_timer timer s -> without_timer timer (take_slot p s).2.
Proof.
  intros Hz Hs y Hy. destruct (take_slot p s) as [r s'] eqn:E.
  destruct (take_slot_sub _ _ _ _ y E Hy) as [->|H]; [|by apply Hs]. by apply not_eq_sym.
Qed.
Lemma without_timer_steps timer ops s :
  timer <> 0 -> forallb (not_armed timer) ops = true -> without_timer timer s ->
  without_timer timer (slot_steps ops s).2.
Proof.
  intros Hz. revert s. induction ops as [|op ops IH]; intros s Ho Hs; [done|].
  cbn [forallb slot_steps] in *. apply andb_true_iff in Ho as [Hop Ho].
  assert (Hs' : without_timer timer (slot_step op s).2).
  { destruct op as [t|timer' now|i|]; cbn [slot_step snd not_armed] in *.
    - destruct (Arm t s) as [[] s1] eqn:E; simpl; [|unfold Arm in E; by repeat case_match; simplify_eq].
      apply Arm_true in E as (_ & _ & i & x & _ & _ & ->). intros y Hy.
      apply list_elem_of_lookup in Hy as [j Hj].
      apply list_lookup_insert_Some in Hj as [(_ & <- & _)|[_ Hj]]; [lia|].
      apply Hs. by eapply list_elem_of_lookup_2.
    - unfold TakeIfDue. destruct (timer' =w 0); [done|by apply take_without].
    - unfold Cancel. destruct (negb (id_valid i)); [done|by apply take_without].
    - intros y Hy. apply elem_of_replicate in Hy as [-> _]. by apply not_eq_sym. }
  destruct (slot_step op s) as [r s1]. specialize (IH s1 Ho Hs'). by destruct (slot_steps ops s1).
Qed.

(** The timer of a ticket that is there and due hands out that ticket. *)
Lemma TakeIfDue_takes t s now :
  slots_ok s -> ticket_valid t = true -> t ∈ s -> dueTickMs t <= now ->
  exists s', TakeIfDue (timerId t) now s = (Some t, s') /\ without_timer (timerId t) s' /\
    forall y, y ∈ s -> y <> t -> y ∈ s'.
Proof.
  intros Hok Ht Hin Hdue.
  assert (Hz : timerId t <> 0) by (unfold ticket_valid in Ht; bool_hyps; lia).
  assert (Huniq : forall j y, s !! j = Some y -> timerId y = timerId t -> s !! j = Some t /\
            forall k, s !! k = Some t -> j = k).
  { intros j y Hj Hy. apply list_elem_of_lookup in Hin as [i Hi].
    assert (Hjk : forall k, s !! k = Some t -> j = k).
    { intros k Hk. destruct (decide (j = k)) as [|Hne]; [done|].
      assert (Hv : ticket_valid y = true).
      { pose proof (proj1 (Forall_lookup _ _) (ok_slots _ Hok) j y Hj) as [->|?]; [|done]. by destruct Hz. }
      by destruct (ok_distinct _ Hok j k y t Hj Hk Hne Hv Ht). }
    split; [|done]. by rewrite (Hjk i Hi). }
  unfold TakeIfDue. destruct (Z.eqb_spec (timerId t) 0); [done|].
  destruct (take_slot _ s) as [r s'] eqn:E. pose proof E as E'. apply take_slot_insert in E.
  destruct r as [y|].
  - destruct E as (i & Hi & Hp & -> & _). bool_hyps. destruct (Huniq i y Hi) as [Hi' Hk]; [done|].
    rewrite Hi in Hi'. injection Hi' as ->. exists (<[i:=no_ticket]> s). split; [done|]. split.
    + intros z Hz'. apply list_elem_of_lookup in Hz' as [k Hz'].
      apply list_lookup_insert_Some in Hz' as [(_ & <- & _)|[Hne Hz']]; [by apply not_eq_sym|].
      intros Et. destruct (Huniq k z Hz' Et) as [_ Hk']. by apply Hne; rewrite (Hk' i).
    + intros z Hz' Hne. apply list_elem_of_lookup in Hz' as [k Hz']. apply list_elem_of_lookup.
      exists k. rewrite list_lookup_insert_ne; [done|]. intros ->. congruence.
  - exfalso. destruct E as [_ E]. specialize (E t Hin). cbv beta in E. rewrite Z.eqb_refl in E. simpl in E. lia.
Qed.

(** C37. A ticket that is armed is delivered exactly once.  Whatever is done to the
    slots after it (other tickets armed, fired and cancelled, its own timer fired too
    early), short of the cancellation of its process and the clearing of all slots,
    it stays pending and is handed out by none of it; the first firing of its timer
    when it is due, however late, hands out that ticket and leaves every other one
    where it was; and whatever is done from then on, the timer fires in vain until it
    is armed again. *)
Theorem ticket_delivered_once s t s1 ops now ops' now' :
  slots_reachable s -> Arm t s = (true, s1) -> forallb (spares t) ops = true -> dueTickMs t <= now ->
  let '(handed, s2) := slot_steps ops s1 in
  HasPending (identity t) s2 = true /\ (t ∉ handed) /\
  exists s3, TakeIfDue (timerId t) now s2 = (Some t, s3) /\
    (forall y, y ∈ s2 -> y <> t -> y ∈ s3) /\
    (forallb (not_armed (timerId t)) ops' = true ->
       let s4 := (slot_steps ops' s3).2 in TakeIfDue (timerId t) now' s4 = (None, s4)).
Proof.
  intros [ops0 ->] E Hs Hdue. pose proof (slot_steps_ok ops0 _ slots_ok_new) as Hok.
  pose proof (Arm_ok t _ Hok) as Hok1. rewrite E in Hok1. cbn [snd] in Hok1.
  apply Arm_true in E as (Ht & _ & i & x & Hi & _ & E).
  assert (Hin : t ∈ s1).
  { apply list_elem_of_lookup. exists i. rewrite E. apply list_lookup_insert_eq. by apply lookup_lt_Some in Hi. }
  destruct (spares_steps t ops s1 Hok1 Ht Hs Hin) as [Hin2 Hh].
  pose proof (slot_steps_ok ops s1 Hok1) as Hok2. destruct (slot_steps ops s1) as [handed s2].
  cbn [fst snd] in *. split; [|split; [done|]].
  - unfold HasPending. apply andb_true_iff. split; [unfold ticket_valid in Ht; by bool_hyps|].
    apply existsb_exists. exists t. split; [by apply list_elem_of_In|by apply bool_decide_eq_true].
  - destruct (TakeIfDue_takes t s2 now Hok2 Ht Hin2 Hdue) as (s3 & E3 & Hw & Hy).
    exists s3. split; [done|]. split; [done|]. intros Ho. cbv zeta.
    assert (Hz : timerId t <> 0) by (unfold ticket_valid in Ht; bool_hyps; lia).
    pose proof (without_timer_steps (timerId t) ops' s3 Hz Ho Hw) as Hw4.
    unfold TakeIfDue. destruct (Z.eqb_spec (timerId t) 0); [done|].
    destruct (take_slot _ _) as [r s5] eqn:E5. apply take_slot_insert in E5.
    destruct r as [y|]; [|by destruct E5 as [-> _]]. exfalso.
    destruct E5 as (k & Hk & Hp & _). bool_hyps.
    destruct (Hw4 y); [by eapply list_elem_of_lookup_2|done].
Qed.

(** Another process's ticket is armed and cancelled, a third one's timer fires and
    this one's fires too early. *)
Lemma ticket_delivered_once_witness :
  let t := mkTicket (mkId 7 1000) 3 50 1 in
  let other := mkTicket (mkId 8 1001) 4 45 1 in
  let ops := [OpArm other; OpTimer 3 40; OpArm (mkTicket (mkId 9 1002) 5 41 1); OpTimer 5 42;
              OpCancel (mkId 8 1001)] in
  let s2 := (slot_steps ops (Arm t new_slots).2).2 in
  exists s3, TakeIfDue 3 60 s2 = (Some t, s3) /\ TakeIfDue 3 90 s3 = (None, s3).
Proof.
  cbv zeta.
  pose proof (ticket_delivered_once new_slots (mkTicket (mkId 7 1000) 3 50 1)
    (Arm (mkTicket (mkId 7 1000) 3 50 1) new_slots).2
    [OpArm (mkTicket (mkId 8 1001) 4 45 1); OpTimer 3 40; OpArm (mkTicket (mkId 9 1002) 5 41 1);
     OpTimer 5 42; OpCancel (mkId 8 1001)] 60 [] 90) as H.
  destruct (slot_steps _ _) as [handed s2].
  destruct H as (_ & _ & s3 & H1 & _ & H2); [by exists []|reflexivity|reflexivity|simpl; lia|].
  exists s3. split; [exact H1|exact (H2 eq_refl)].
Defined.

(** ** Quiet: the age of the last input, on a 32-bit clock that wraps *)

Record QuietEvidence := mkQuiet {
  lastInputQuerySucceeded : bool; nowTickMs : Z; lastInputTickMs : Z;
  anyPhysicalKeyDown : bool; syntheticDispatchActive : bool; compositionActive : bool
}.
Definition kDorionReclaimQuietMs : Z := 100.
Definition IsDorionReclaimQuiet (e : QuietEvidence) : bool :=
  if negb (lastInputQuerySucceeded e) || anyPhysicalKeyDown e || syntheticDispatchActive e ||
     compositionActive e then false
  else
    let elapsed := (nowTickMs e - lastInputTickMs e) mod 2 ^ 32 in
    (elapsed <=? 2 ^ 31 - 1) && (kDorionReclaimQuietMs <=? elapsed).

(** The verdict is about elapsed time: it does not depend on where in its
    49 days the clock is. *)
Lemma quiet_wraps e k :
  IsDorionReclaimQuiet (mkQuiet (lastInputQuerySucceeded e) ((nowTickMs e + k) mod 2 ^ 32)
    ((lastInputTickMs e + k) mod 2 ^ 32) (anyPhysicalKeyDown e) (syntheticDispatchActive e)
    (compositionActive e)) = IsDorionReclaimQuiet e.
Proof.
  unfold IsDorionReclaimQuiet. simpl. destruct (_ || compositionActive e); [done|].
  rewrite <- Zminus_mod. by replace (nowTickMs e + k - (lastInputTickMs e + k))
    with (nowTickMs e - lastInputTickMs e) by lia.
Qed.

(** ** Replacing the one hook (SingleHookReplacement.h) *)

Inductive UnhookStatus := Removed | AlreadyAbsent | UnhookFailedStatus.
Inductive ReplacementStatus := Replaced | UnhookFailed | InstallFailed.

(** The two system calls, each of which may be missing. *)
Definition ReplaceSingleHook (unhook : option (Z -> UnhookStatus)) (install : option Z)
  (activeHandle : Z) : ReplacementStatus * Z :=
  let do_install h :=
    match install with
    | None => (InstallFailed, h)
    | Some new => (if new <>w 0 then Replaced else InstallFailed, new)
    end in
  if activeHandle <>w 0 then
    match unhook with
    | None => (UnhookFailed, activeHandle)
    | Some u =>
        match u activeHandle with
        | UnhookFailedStatus => (UnhookFailed, activeHandle)
        | _ => do_install 0
        end
    end
  else do_install activeHandle.

(** Never two hooks: a new one is only installed when the old one is gone, and a
    failure to remove it keeps its handle. *)
Lemma ReplaceSingleHook_one unhook install h :
  let '(st, h') := ReplaceSingleHook unhook install h in
  match st with
  | Replaced => install = Some h' /\ h' <> 0 /\
      (h = 0 \/ exists u, unhook = Some u /\ u h <> UnhookFailedStatus)
  | UnhookFailed => h' = h /\ h <> 0
  | InstallFailed => h' = 0 /\ default 0 install = 0
  end.
Proof.
  unfold ReplaceSingleHook. destruct (Z.eqb_spec h 0) as [->|Hh]; simpl.
  - destruct install as [new|]; [|done]. destruct (Z.eqb_spec new 0) as [->|]; simpl; auto.
  - destruct unhook as [u|]; [|done].
    destruct (u h) eqn:E; [..|done];
      (destruct install as [new|]; [|done]; destruct (Z.eqb_spec new 0) as [->|]; simpl;
       [done|split_and!; [done..|right; exists u; split; [done|congruence]]]).
Qed.
End Dorion.
