(* ===== verification/MacroReload.v ===== *)
(** * When the text service reads the macro table again
      (src/src/core/MacroTableDecision.h, EngineController::ReloadMacros)

    The decision, the reload that obeys it, and the two together as a state
    machine driven by ticks of the key path and of the focus path.  The disk is an
    input: a read gives a table, or fails. *)

From stdpp Require Export gmap.
From S2P Require Import Prelude.
Open Scope Z_scope.

(** ** The decision *)

Inductive MacroTableAction := MacroNone | MacroReload | MacroKeepStale.
#[export] Instance MacroTableAction_eq_dec : EqDecision MacroTableAction.
Proof. solve_decision. Defined.

Record MacroTableInputs := mkTableInputs {
  loaded : bool; loadedGen : Z; stateGen : Z; allowDiskRead : bool
}.
Definition DecideMacroTable (inp : MacroTableInputs) : MacroTableAction :=
  if loaded inp && (loadedGen inp =w stateGen inp) then MacroNone
  else if allowDiskRead inp then MacroReload
  else if loadedGen inp <>w stateGen inp then MacroReload
  else MacroKeepStale.

(** ** The controller's table *)

Abbreviation macro_table := (gmap wstring wstring) (only parsing).

Record MacroCache := mkCache {
  macroConfigLoaded_ : bool; macroGeneration_ : Z; macroTable_ : macro_table
}.
Definition fresh_cache : MacroCache := mkCache false 0 ∅.

(** [disk] is what the read of config.toml and of its macros gives; [None] is the
    early return of a failed read, which records the generation only. *)
Definition ReloadMacros (generation : Z) (macroEnabled : bool) (disk : option macro_table)
  (c : MacroCache) : MacroCache :=
  if macroConfigLoaded_ c && (macroGeneration_ c =w generation) then c
  else match disk with
       | None => mkCache (macroConfigLoaded_ c) generation (macroTable_ c)
       | Some t => mkCache true generation (if macroEnabled then t else ∅)
       end.

(** One tick with the state the settings published: whether the disk was read,
    and the table after it. *)
Definition MacroTick (gen : Z) (macroEnabled allowRead : bool) (disk : option macro_table)
  (c : MacroCache) : bool * MacroCache :=
  match DecideMacroTable (mkTableInputs (macroConfigLoaded_ c) (macroGeneration_ c) gen allowRead) with
  | MacroNone | MacroKeepStale => (false, c)
  | MacroReload => (true, ReloadMacros gen macroEnabled disk c)
  end.

(** Ticks in a row, each with its path and its disk: the reads they made. *)
Record Tick := mkTick { tk_allowRead : bool; tk_disk : option macro_table }.
Fixpoint MacroTicks (gen : Z) (macroEnabled : bool) (ts : list Tick) (c : MacroCache)
  : nat * MacroCache :=
  match ts with
  | [] => (0%nat, c)
  | t :: ts =>
      let '(r, c) := MacroTick gen macroEnabled (tk_allowRead t) (tk_disk t) c in
      let '(n, c) := MacroTicks gen macroEnabled ts c in
      ((if r then 1 else 0) + n, c)%nat
  end.

(** ** One read per generation on the key path *)

Lemma tick_settles gen en allow disk c :
  let '(r, c') := MacroTick gen en allow disk c in
  macroGeneration_ c' = gen /\ (r = false -> c' = c) /\
  (macroConfigLoaded_ c = true -> macroConfigLoaded_ c' = true).
Proof.
  unfold MacroTick, DecideMacroTable, ReloadMacros. simpl.
  destruct (macroConfigLoaded_ c) eqn:El, (Z.eqb_spec (macroGeneration_ c) gen);
    destruct allow, disk; simpl; by split_and!.
Qed.

Lemma key_path_quiet gen en ts c :
  macroGeneration_ c = gen -> Forall (fun t => tk_allowRead t = false) ts ->
  MacroTicks gen en ts c = (0%nat, c).
Proof.
  intros Hg. induction 1 as [|[allow disk] ts Ha _ IH]; [done|]. simpl in *. subst allow.
  unfold MacroTick, DecideMacroTable. simpl. rewrite Hg, Z.eqb_refl. simpl.
  destruct (macroConfigLoaded_ c); simpl; by rewrite IH.
Qed.

(** While the generation stays the same the key path reads the disk at most
    once, whatever the reads give, and when it does read and the read succeeds the
    table is the one on disk. *)
Theorem key_path_reads_once gen en ts c :
  Forall (fun t => tk_allowRead t = false) ts ->
  let '(n, c') := MacroTicks gen en ts c in
  (n <= 1)%nat /\
  (ts <> [] -> macroGeneration_ c' = gen) /\
  (forall disk ts', ts = mkTick false (Some disk) :: ts' -> n = 1%nat ->
     macroTable_ c' = if en then disk else ∅).
Proof.
  intros Hts. destruct ts as [|[allow disk] ts]; [simpl; split_and!; [lia|done|done]|].
  inversion Hts as [|? ? Ha Hts']; subst. simpl in Ha. subst allow.
  pose proof (tick_settles gen en false disk c) as Ht. simpl.
  destruct (MacroTick gen en false disk c) as [r c1] eqn:E. destruct Ht as (Hg & Hr & _).
  rewrite key_path_quiet by done. split_and!; [by destruct r; simpl; lia|done|].
  intros disk' ts' [= -> <-] Hn. destruct r; [|done].
  revert E. unfold MacroTick, DecideMacroTable, ReloadMacros. simpl.
  destruct (macroConfigLoaded_ c), (Z.eqb_spec (macroGeneration_ c) gen); simpl; intros [= <-]; done.
Qed.

(** ** The focus path, and what it cannot do *)

(** With nothing ever loaded, a focus tick keeps trying until a read succeeds. *)
Lemma focus_retries gen en disk c :
  macroConfigLoaded_ c = false ->
  MacroTick gen en true (Some disk) c = (true, mkCache true gen (if en then disk else ∅)).
Proof. intros E. unfold MacroTick, DecideMacroTable, ReloadMacros. simpl. by rewrite E. Qed.

Lemma loaded_current_quiet gen en ts c :
  macroConfigLoaded_ c = true -> macroGeneration_ c = gen ->
  MacroTicks gen en ts c = (0%nat, c).
Proof.
  intros Hl Hg. induction ts as [|[allow disk] ts IH]; [done|]. simpl.
  unfold MacroTick, DecideMacroTable. simpl. rewrite Hl, Hg, Z.eqb_refl. simpl. by rewrite IH.
Qed.

(** Once a table was loaded, a read that fails at a later generation is the
    last one of that generation: no tick after it, of the focus path either,
    reads again, and the old table stays.  The comment in ReloadMacros says the
    flag is left false so that the next focus tick retries; it is left true. *)
Theorem failed_reload_never_retried gen en allow ts c :
  macroConfigLoaded_ c = true -> macroGeneration_ c <> gen ->
  MacroTicks gen en (mkTick allow None :: ts) c =
  (1%nat, mkCache true gen (macroTable_ c)).
Proof.
  intros Hl Hg. simpl.
  assert (E : MacroTick gen en allow None c = (true, mkCache true gen (macroTable_ c))).
  { unfold MacroTick, DecideMacroTable, ReloadMacros. simpl. rewrite Hl.
    destruct (Z.eqb_spec (macroGeneration_ c) gen); [done|]. by destruct allow. }
  rewrite E, loaded_current_quiet by done. done.
Qed.

(** Three saves of the settings: read, read, then a read that fails while the
    file is being replaced; two focus ticks with a good disk change nothing. *)
Lemma failed_reload_never_retried_witness :
  let new : macro_table := {[ [98] := [99] ]} in
  MacroTicks 4 true [mkTick false None; mkTick true (Some new); mkTick true (Some new)]
    (mkCache true 3 ∅) = (1%nat, mkCache true 4 ∅).
Proof.
  cbv zeta. rewrite (failed_reload_never_retried 4 true false) by done. reflexivity.
Defined.

Lemma key_path_reads_once_witness :
  (MacroTicks 4 true [mkTick false (Some ∅); mkTick false None] (mkCache false 3 ∅)).1 = 1%nat /\
  ((MacroTicks 4 true [mkTick false (Some ∅); mkTick false None] (mkCache false 3 ∅)).1 <= 1)%nat.
Proof.
  split; [reflexivity|].
  pose proof (key_path_reads_once 4 true [mkTick false (Some ∅); mkTick false None]
    (mkCache false 3 ∅) ltac:(repeat constructor)) as H.
  destruct (MacroTicks _ _ _ _) as [n c]. exact (proj1 H).
Defined.
