(* ===== verification/Mailbox.v ===== *)
(** * The hook's command mailbox (src/src/app/system/HookCommandMailbox.{h,cpp})

    Other threads post command bits and focus snapshots, the hook thread drains
    them, and a latch keeps a burst of posts to one wake-up message.  The atomic
    operations are definitions; posts and drains are programs of them, interleaved
    in every way by the step relation (the operations on the bits and the latch are
    [seq_cst], so they have one total order; the snapshot's are modelled so too).
    The theorems: nothing is lost, and nothing is stranded. *)

From S2P Require Import Prelude.
From stdpp Require Import list.
Open Scope Z_scope.

Definition kFocusChanged : Z := 1.
Definition kConfigApply : Z := 2.
Definition kTickPoll : Z := 4.
Definition kToggleVN : Z := 8.

Section Mailbox.
(** The snapshot of the focused window, a plain record the mailbox only moves. *)
Context {F : Type}.

Record Mailbox := mkMailbox { bits_ : Z; pendingFocus_ : option F; wakePosted_ : bool }.
Definition new_mailbox : Mailbox := mkMailbox 0 None false.

(** ** The atomic operations *)

Definition store_focus (cls : option F) (m : Mailbox) : Mailbox :=
  match cls with
  | Some _ => mkMailbox (bits_ m) cls (wakePosted_ m)
  | None => m
  end.
Definition fetch_or (bit : Z) (m : Mailbox) : Mailbox :=
  mkMailbox (Z.lor (bits_ m) bit) (pendingFocus_ m) (wakePosted_ m).
Definition exchange_wake (m : Mailbox) : bool * Mailbox :=
  (wakePosted_ m, mkMailbox (bits_ m) (pendingFocus_ m) true).
Definition clear_wake (m : Mailbox) : Mailbox := mkMailbox (bits_ m) (pendingFocus_ m) false.
Definition exchange_bits (m : Mailbox) : Z * Mailbox :=
  (bits_ m, mkMailbox 0 (pendingFocus_ m) (wakePosted_ m)).
Definition ConsumePendingFocus (m : Mailbox) : option F * Mailbox :=
  (pendingFocus_ m, mkMailbox (bits_ m) None (wakePosted_ m)).
Definition ResetLatch (m : Mailbox) : Mailbox := mkMailbox 0 (pendingFocus_ m) false.

(** The member functions, run without interference: whether [Post] wakes, and
    the mask [DrainBits] returns. *)
Definition Post (bit : Z) (cls : option F) (m : Mailbox) : bool * Mailbox :=
  let m := store_focus cls m in
  let m := fetch_or bit m in
  let '(old, m) := exchange_wake m in
  (negb old, m).
Definition DrainBits (m : Mailbox) : Z * Mailbox := exchange_bits (clear_wake m).

(** ** Threads *)

(** Where a producer is in [Post]. *)
Inductive Producer := PIdle | POr (bit : Z) | PExchange | PWake.
(** Where the hook thread is in a drain; [DConsume] when it saw the focus bit. *)
Inductive Drainer := DIdle | DStart | DCleared | DConsume.

Record System := mkSystem {
  mb : Mailbox;
  queued : nat;                 (* wake-up messages in the hook thread's queue *)
  producers : list Producer;
  drainer : Drainer;
  drained : Z;                  (* every bit a drain returned so far *)
  posted : Z;                   (* every bit posted so far *)
  last_stored : option F;       (* the last snapshot stored *)
  consumed : list F             (* the snapshots consumed *)
}.
Definition initial (n : nat) : System :=
  mkSystem new_mailbox 0 (replicate n PIdle) DIdle 0 0 None [].

Definition set_producer (i : nat) (p : Producer) (m : Mailbox) (s : System) : System :=
  mkSystem m (queued s) (<[i := p]> (producers s)) (drainer s) (drained s) (posted s)
    (last_stored s) (consumed s).

(** What the environment does: a thread starts a post (a snapshot comes with the
    focus bit), a key press makes the hook thread drain without a message. *)
Inductive env_step : System -> System -> Prop :=
  | step_post s i bit cls :
      producers s !! i = Some PIdle -> 0 <= bit ->
      (cls <> None -> Z.land bit kFocusChanged <> 0) ->
      env_step s (mkSystem (store_focus cls (mb s)) (queued s)
        (<[i := POr bit]> (producers s)) (drainer s) (drained s) (posted s)
        (match cls with Some _ => cls | None => last_stored s end) (consumed s))
  | step_key s :
      drainer s = DIdle ->
      env_step s (mkSystem (mb s) (queued s) (producers s) DStart (drained s) (posted s)
        (last_stored s) (consumed s)).

(** What the program does next, thread by thread, when its messages are posted. *)
Inductive step : System -> System -> Prop :=
  | step_or s i bit :
      producers s !! i = Some (POr bit) ->
      step s (mkSystem (fetch_or bit (mb s)) (queued s) (<[i := PExchange]> (producers s))
        (drainer s) (drained s) (Z.lor (posted s) bit) (last_stored s) (consumed s))
  | step_exchange s i :
      producers s !! i = Some PExchange ->
      let '(old, m) := exchange_wake (mb s) in
      step s (set_producer i (if old then PIdle else PWake) m s)
  | step_wake s i :
      producers s !! i = Some PWake ->
      step s (mkSystem (mb s) (S (queued s)) (<[i := PIdle]> (producers s))
        (drainer s) (drained s) (posted s) (last_stored s) (consumed s))
  | step_message s n :
      drainer s = DIdle -> queued s = S n ->
      step s (mkSystem (mb s) n (producers s) DStart (drained s) (posted s)
        (last_stored s) (consumed s))
  | step_clear s :
      drainer s = DStart ->
      step s (mkSystem (clear_wake (mb s)) (queued s) (producers s) DCleared (drained s)
        (posted s) (last_stored s) (consumed s))
  | step_drain s :
      drainer s = DCleared ->
      let '(b, m) := exchange_bits (mb s) in
      step s (mkSystem m (queued s) (producers s)
        (if Z.land b kFocusChanged <>w 0 then DConsume else DIdle)
        (Z.lor (drained s) b) (posted s) (last_stored s) (consumed s))
  | step_consume s :
      drainer s = DConsume ->
      let '(f, m) := ConsumePendingFocus (mb s) in
      step s (mkSystem m (queued s) (producers s) DIdle (drained s) (posted s)
        (last_stored s) (consumed s ++ option_list f)).

(** [PostThreadMessageW] may fail, and nobody looks: the wake-up is lost and the
    latch stays closed. *)
Inductive wake_lost : System -> System -> Prop :=
  | step_wake_lost s i :
      producers s !! i = Some PWake ->
      wake_lost s (mkSystem (mb s) (queued s) (<[i := PIdle]> (producers s))
        (drainer s) (drained s) (posted s) (last_stored s) (consumed s)).

Inductive reachable (n : nat) : System -> Prop :=
  | reach_initial : reachable n (initial n)
  | reach_env s s' : reachable n s -> env_step s s' -> reachable n s'
  | reach_step s s' : reachable n s -> step s s' -> reachable n s'.

(** ** The invariant *)

(** A drain is on its way: a message, or a producer about to send one, or the
    hook thread about to start. *)
Definition drain_coming (s : System) : Prop :=
  (0 < queued s)%nat \/ PWake ∈ producers s \/ drainer s = DStart.

Record invariant (s : System) : Prop := {
  inv_latch : wakePosted_ (mb s) = true -> drain_coming s;
  inv_bits : bits_ (mb s) <> 0 ->
    wakePosted_ (mb s) = true \/ PExchange ∈ producers s \/
    drainer s = DCleared;
  inv_posted : posted s = Z.lor (drained s) (bits_ (mb s));
  inv_focus : pendingFocus_ (mb s) <> None ->
    Z.land (bits_ (mb s)) kFocusChanged <> 0 \/ drainer s = DConsume \/
    exists bit, POr bit ∈ producers s /\ Z.land bit kFocusChanged <> 0;
  inv_last : last_stored s = pendingFocus_ (mb s) \/ last_stored s = last (consumed s);
  inv_no_focus : pendingFocus_ (mb s) <> None -> last_stored s = pendingFocus_ (mb s)
}.

(** Other threads' positions when one moves. *)
Lemma elem_of_insert_other (l : list Producer) i p q x :
  l !! i = Some p -> x ∈ l -> x <> p -> x ∈ <[i := q]> l.
Proof.
  intros Hi [j Hj]%list_elem_of_lookup_1 Hne. apply list_elem_of_lookup. exists j.
  rewrite list_lookup_insert_ne; [done|]. intros <-. congruence.
Qed.
Lemma elem_of_insert_here (l : list Producer) i p q : l !! i = Some p -> q ∈ <[i := q]> l.
Proof.
  intros Hi. apply list_elem_of_lookup. exists i. apply list_lookup_insert_eq.
  by apply lookup_lt_Some in Hi.
Qed.

Lemma land_lor_focus a b :
  Z.land (Z.lor a b) kFocusChanged <> 0 <->
  Z.land a kFocusChanged <> 0 \/ Z.land b kFocusChanged <> 0.
Proof.
  unfold kFocusChanged. change 1 with (Z.ones 1).
  assert (H : forall x, Z.land x (Z.ones 1) <> 0 <-> Z.testbit x 0 = true).
  { intros x. rewrite Z.land_ones by lia. rewrite <- Z.bit0_mod. by destruct (Z.testbit x 0). }
  rewrite !H, Z.lor_spec. by rewrite orb_true_iff.
Qed.

Lemma invariant_initial n : invariant (initial n).
Proof. constructor; simpl; try done; by left. Qed.

Lemma invariant_env s s' : env_step s s' -> invariant s -> invariant s'.
Proof.
  intros [s0 i bit cls Hi Hb Hc|s0 Hd] [I1 I2 I3 I4 I5 I6].
  - assert (Hk : forall x, x ∈ producers s0 -> x <> PIdle -> x ∈ <[i := POr bit]> (producers s0))
      by (intros; by eapply elem_of_insert_other).
    constructor; cbn [mb queued producers drainer drained posted last_stored consumed].
    + destruct cls; simpl; intros H; destruct (I1 H) as [?|[?|?]]; unfold drain_coming;
        simpl; auto.
    + destruct cls; simpl; intros H; destruct (I2 H) as [?|[?|?]]; auto.
    + by destruct cls.
    + destruct cls as [f|]; simpl.
      * intros _. right; right. exists bit. split; [by eapply elem_of_insert_here|by apply Hc].
      * intros H. destruct (I4 H) as [?|[?|(b & Hb1 & ?)]]; [tauto..|]. right; right.
        exists b. split; [by apply Hk|done].
    + destruct cls; simpl; [by left|done].
    + by destruct cls.
  - constructor; cbn [mb queued producers drainer drained posted last_stored consumed]; auto.
    + intros _. right; right. done.
    + intros H. destruct (I2 H) as [?|[?|?]]; auto. congruence.
    + intros H. destruct (I4 H) as [?|[?|?]]; auto. congruence.
Qed.

(** [cbn] on the fields of a state after a step. *)
Ltac fields := cbn [mb queued producers drainer drained posted last_stored consumed
  set_producer bits_ pendingFocus_ wakePosted_ fetch_or clear_wake].

Lemma invariant_or s i bit :
  producers s !! i = Some (POr bit) -> invariant s ->
  invariant (mkSystem (fetch_or bit (mb s)) (queued s) (<[i := PExchange]> (producers s))
    (drainer s) (drained s) (Z.lor (posted s) bit) (last_stored s) (consumed s)).
Proof.
  intros Hi [I1 I2 I3 I4 I5 I6].
  assert (Hk : forall x, x ∈ producers s -> x <> POr bit -> x ∈ <[i := PExchange]> (producers s))
    by (intros; by eapply elem_of_insert_other).
  constructor; unfold drain_coming; fields; auto.
  - intros H. destruct (I1 H) as [?|[?|?]]; auto.
  - intros _. right; left. by eapply elem_of_insert_here.
  - by rewrite I3, Z.lor_assoc.
  - intros H. rewrite land_lor_focus. destruct (I4 H) as [?|[?|(b & Hb & Hf)]]; auto.
    destruct (decide (b = bit)) as [->|Hne]; [auto|].
    right; right. exists b. split; [apply Hk; congruence|done].
Qed.

Lemma invariant_exchange s i :
  producers s !! i = Some PExchange -> invariant s ->
  let '(old, m) := exchange_wake (mb s) in
  invariant (set_producer i (if old then PIdle else PWake) m s).
Proof.
  intros Hi [I1 I2 I3 I4 I5 I6]. cbn [exchange_wake].
  set (q := if wakePosted_ (mb s) then PIdle else PWake).
  assert (Hk : forall x, x ∈ producers s -> x <> PExchange -> x ∈ <[i := q]> (producers s))
    by (intros; by eapply elem_of_insert_other).
  constructor; unfold drain_coming; fields; auto.
  - intros _. destruct (wakePosted_ (mb s)) eqn:E.
    + destruct (I1 eq_refl) as [?|[?|?]]; auto.
    + right; left. unfold q. by eapply elem_of_insert_here.
  - intros H. destruct (I4 H) as [?|[?|(b & Hb & Hf)]]; auto.
    right; right. exists b. split; [by apply Hk|done].
Qed.

Lemma invariant_wake s i :
  producers s !! i = Some PWake -> invariant s ->
  invariant (mkSystem (mb s) (S (queued s)) (<[i := PIdle]> (producers s))
    (drainer s) (drained s) (posted s) (last_stored s) (consumed s)).
Proof.
  intros Hi [I1 I2 I3 I4 I5 I6].
  assert (Hk : forall x, x ∈ producers s -> x <> PWake -> x ∈ <[i := PIdle]> (producers s))
    by (intros; by eapply elem_of_insert_other).
  constructor; unfold drain_coming; fields; auto.
  - intros _. left. lia.
  - intros H. destruct (I2 H) as [?|[?|?]]; auto.
  - intros H. destruct (I4 H) as [?|[?|(b & Hb & Hf)]]; auto.
    right; right. exists b. split; [by apply Hk|done].
Qed.

Lemma invariant_step s s' : step s s' -> invariant s -> invariant s'.
Proof.
  intros Hst Hinv. destruct Hst as [s i bit Hi|s i Hi|s i Hi|s n Hd Hq|s Hd|s Hd|s Hd].
  - by apply invariant_or.
  - by apply (invariant_exchange s i).
  - by apply invariant_wake.
  - destruct Hinv as [I1 I2 I3 I4 I5 I6]. constructor; unfold drain_coming; fields; auto.
    + intros H. destruct (I2 H) as [?|[?|?]]; auto. congruence.
    + intros H. destruct (I4 H) as [?|[?|?]]; auto. congruence.
  - destruct Hinv as [I1 I2 I3 I4 I5 I6]. constructor; unfold drain_coming; fields; auto.
    + done.
    + intros H. destruct (I4 H) as [?|[?|?]]; auto. congruence.
  - destruct Hinv as [I1 I2 I3 I4 I5 I6]. cbn [exchange_bits].
    constructor; unfold drain_coming; fields; auto.
    + intros H. destruct (I1 H) as [?|[?|?]]; auto. congruence.
    + by rewrite I3, Z.lor_0_r.
    + intros H. destruct (Z.eqb_spec (Z.land (bits_ (mb s)) kFocusChanged) 0) as [E|E]; simpl.
      * destruct (I4 H) as [?|[?|?]]; [done|congruence|auto].
      * auto.
  - destruct Hinv as [I1 I2 I3 I4 I5 I6]. cbn [ConsumePendingFocus].
    constructor; unfold drain_coming; fields; auto.
    + intros H. destruct (I1 H) as [?|[?|?]]; auto. congruence.
    + intros H. destruct (I2 H) as [?|[?|?]]; auto. congruence.
    + destruct (pendingFocus_ (mb s)) as [f|] eqn:E; simpl.
      * right. rewrite last_snoc. by apply I6.
      * rewrite app_nil_r. by destruct I5; [left|right].
    + done.
Qed.

Lemma reachable_invariant n s : reachable n s -> invariant s.
Proof.
  induction 1; [apply invariant_initial|by eapply invariant_env|by eapply invariant_step].
Qed.

(** ** Everything posted is drained *)

Definition producer_weight (p : Producer) : nat :=
  match p with PIdle => 0 | POr _ => 8 | PExchange => 7 | PWake => 6 end.
Definition drainer_weight (d : Drainer) : nat :=
  match d with DIdle => 0 | DStart => 3 | DCleared => 2 | DConsume => 1 end.
(** Steps left, at most: a message stands for the drain it will start. *)
Definition work (s : System) : nat :=
  (sum_list_with producer_weight (producers s) + 5 * queued s + drainer_weight (drainer s))%nat.

Lemma sum_insert (l : list Producer) i p q :
  l !! i = Some p ->
  (sum_list_with producer_weight (<[i := q]> l) + producer_weight p =
   sum_list_with producer_weight l + producer_weight q)%nat.
Proof.
  revert i. induction l as [|x l IH]; intros [|i]; simpl; [done..| |].
  - intros [= ->]. lia.
  - intros H. specialize (IH i H). lia.
Qed.

Lemma step_work s s' : step s s' -> (work s' < work s)%nat.
Proof.
  intros [s0 i bit Hi|s0 i Hi|s0 i Hi|s0 n Hd Hq|s0 Hd|s0 Hd|s0 Hd]; unfold work; fields.
  - pose proof (sum_insert _ i _ PExchange Hi). simpl in *. lia.
  - unfold exchange_wake, work. fields.
    pose proof (sum_insert _ i _ (if wakePosted_ (mb s0) then PIdle else PWake) Hi).
    destruct (wakePosted_ (mb s0)); simpl in *; lia.
  - pose proof (sum_insert _ i _ PIdle Hi). simpl in *. lia.
  - rewrite Hd, Hq. simpl. lia.
  - rewrite Hd. simpl. lia.
  - unfold exchange_bits. fields. rewrite Hd. destruct (_ <>w 0); simpl; lia.
  - unfold ConsumePendingFocus. fields. rewrite Hd. simpl. lia.
Qed.

(** Every thread has something to do, or nothing. *)
Definition quiescent (s : System) : Prop := forall s', ~ step s s'.

Lemma quiescent_idle s :
  quiescent s -> Forall (fun p => p = PIdle) (producers s) /\ queued s = 0%nat /\ drainer s = DIdle.
Proof.
  intros Hq. assert (Hd : drainer s = DIdle).
  { destruct (drainer s) eqn:E; [done|..]; exfalso; eapply Hq.
    - by apply step_clear.
    - by apply step_drain.
    - by apply step_consume. }
  split; [|split; [|done]].
  - apply Forall_lookup. intros i p Hi. destruct p; [done|..]; exfalso; eapply Hq.
    + by eapply step_or.
    + by apply (step_exchange s i).
    + by eapply step_wake.
  - destruct (queued s) eqn:E; [done|]. exfalso. eapply Hq. by eapply step_message.
Qed.

(** [n] steps of the program, whoever moves. *)
Inductive steps : nat -> System -> System -> Prop :=
  | steps_refl s : steps 0 s s
  | steps_step k s s' s'' : step s s' -> steps k s' s'' -> steps (S k) s s''.

Lemma steps_bounded k s s' : steps k s s' -> (k + work s' <= work s)%nat.
Proof. induction 1 as [|k s s' s'' H _ IH]; [lia|]. apply step_work in H. lia. Qed.

Lemma steps_reachable n k s s' : reachable n s -> steps k s s' -> reachable n s'.
Proof. intros Hr. induction 1; [done|]. apply IHsteps. by eapply reach_step. Qed.

(** C24. No command is stranded: from any state the threads can reach, if no new
    post starts, every run of the program ends within [work] steps, and where it
    ends the mask is empty and every bit ever posted was returned by a drain, the
    latch is open, no snapshot waits, and the last one stored is the last one
    consumed.  The wake-up messages are taken to be posted; one that is lost is
    [lost_wake_is_deaf]. *)
Theorem posts_are_drained n s k s' :
  reachable n s -> steps k s s' ->
  (k <= work s)%nat /\
  (quiescent s' ->
   bits_ (mb s') = 0 /\ drained s' = posted s' /\ wakePosted_ (mb s') = false /\
   pendingFocus_ (mb s') = None /\ (last_stored s' = None \/ last_stored s' = last (consumed s'))).
Proof.
  intros Hr Hs. split; [apply steps_bounded in Hs; lia|]. intros Hq.
  pose proof (steps_reachable _ _ _ _ Hr Hs) as Hr'. apply reachable_invariant in Hr'.
  destruct Hr' as [I1 I2 I3 I4 I5 I6].
  destruct (quiescent_idle s' Hq) as (Hp & Hn & Hd).
  assert (Hno : forall x, x ∈ producers s' -> x = PIdle).
  { intros x Hx. rewrite List.Forall_forall in Hp. by apply Hp, list_elem_of_In. }
  assert (Hw : wakePosted_ (mb s') = false).
  { destruct (wakePosted_ (mb s')); [|done]. exfalso.
    destruct (I1 eq_refl) as [?|[H|?]]; [lia|by apply Hno in H|congruence]. }
  assert (Hb : bits_ (mb s') = 0).
  { destruct (decide (bits_ (mb s') = 0)) as [|Hne]; [done|]. exfalso.
    destruct (I2 Hne) as [?|[H|?]]; [congruence|by apply Hno in H|congruence]. }
  assert (Hf : pendingFocus_ (mb s') = None).
  { destruct (pendingFocus_ (mb s')) as [f|]; [|done]. exfalso.
    destruct (I4 ltac:(done)) as [H|[H|(b & H & _)]].
    - by rewrite Hb in H.
    - congruence.
    - by apply Hno in H. }
  split_and!; try done.
  - by rewrite I3, Hb, Z.lor_0_r.
  - rewrite Hf in I5. tauto.
Qed.

(** ** A lost wake-up *)

(** The latch is closed and no drain is on its way. *)
Definition deaf (s : System) : Prop :=
  wakePosted_ (mb s) = true /\ queued s = 0%nat /\ (PWake ∉ producers s) /\ drainer s = DIdle.

Lemma not_wake_insert (l : list Producer) i q : PWake ∉ l -> q <> PWake -> PWake ∉ <[i := q]> l.
Proof.
  intros Hl Hq [j Hj]%list_elem_of_lookup.
  apply list_lookup_insert_Some in Hj as [(_ & -> & _)|[_ Hj]]; [done|].
  apply Hl. by eapply list_elem_of_lookup_2.
Qed.

(** When the only wake-up on its way is lost, the mailbox is deaf; and deaf it
    stays whatever is posted, until the hook thread drains on a key. *)
Lemma lost_wake_is_deaf s s' :
  wake_lost s s' -> wakePosted_ (mb s) = true -> queued s = 0%nat -> drainer s = DIdle ->
  (forall i j, producers s !! i = Some PWake -> producers s !! j = Some PWake -> i = j) -> deaf s'.
Proof.
  intros [s0 i Hi] Hw Hq Hd Hu. unfold deaf; fields. split_and!; try done. intros [j Hj]%list_elem_of_lookup.
  apply list_lookup_insert_Some in Hj as [(_ & ? & _)|[Hne Hj]]; [done|]. by destruct Hne; eapply Hu.
Qed.
Lemma deaf_step s s' : deaf s -> step s s' -> deaf s'.
Proof.
  intros Hs Hst. destruct Hst as [s0 i bit Hi|s0 i Hi|s0 i Hi|s0 n Hd' Hq'|s0 Hd'|s0 Hd'|s0 Hd'];
    destruct Hs as (Hw & Hq & Hp & Hd); try congruence.
  - unfold deaf; fields. split_and!; try done. by apply not_wake_insert.
  - unfold exchange_wake. rewrite Hw. unfold deaf; fields. split_and!; try done. by apply not_wake_insert.
  - destruct Hp. by eapply list_elem_of_lookup_2.
Qed.
Lemma deaf_post s s' : deaf s -> env_step s s' -> deaf s' \/ drainer s' = DStart.
Proof.
  intros Hs Hst. destruct Hst as [s0 i bit cls Hi Hb Hc|s0 Hd']; [left|by right].
  destruct Hs as (Hw & Hq & Hp & Hd).
  unfold deaf; fields. split_and!; try done; [by destruct cls|by apply not_wake_insert].
Qed.

End Mailbox.

(** ** Runs *)

(** The step relation, executed: who moves, and the state after it. *)
Inductive Move (F : Type) := MPost (i : nat) (bit : Z) (cls : option F) | MProducer (i : nat) | MHook.
Arguments MPost {F}. Arguments MProducer {F}. Arguments MHook {F}.

Section Exec.
Context {F : Type}.

Definition exec_move (c : Move F) (s : @System F) : option (@System F) :=
  match c with
  | MPost i bit cls =>
      match producers s !! i with
      | Some PIdle =>
          if (0 <=? bit) && ((match cls with None => true | _ => false end) || (Z.land bit kFocusChanged <>w 0))
          then Some (mkSystem (store_focus cls (mb s)) (queued s)
            (<[i := POr bit]> (producers s)) (drainer s) (drained s) (posted s)
            (match cls with Some _ => cls | None => last_stored s end) (consumed s))
          else None
      | _ => None
      end
  | MProducer i =>
      match producers s !! i with
      | Some (POr bit) =>
          Some (mkSystem (fetch_or bit (mb s)) (queued s) (<[i := PExchange]> (producers s))
            (drainer s) (drained s) (Z.lor (posted s) bit) (last_stored s) (consumed s))
      | Some PExchange =>
          let '(old, m) := exchange_wake (mb s) in
          Some (set_producer i (if old then PIdle else PWake) m s)
      | Some PWake =>
          Some (mkSystem (mb s) (S (queued s)) (<[i := PIdle]> (producers s))
            (drainer s) (drained s) (posted s) (last_stored s) (consumed s))
      | _ => None
      end
  | MHook =>
      match drainer s with
      | DIdle =>
          match queued s with
          | S n => Some (mkSystem (mb s) n (producers s) DStart (drained s) (posted s)
              (last_stored s) (consumed s))
          | O => None
          end
      | DStart =>
          Some (mkSystem (clear_wake (mb s)) (queued s) (producers s) DCleared (drained s)
            (posted s) (last_stored s) (consumed s))
      | DCleared =>
          let '(b, m) := exchange_bits (mb s) in
          Some (mkSystem m (queued s) (producers s)
            (if Z.land b kFocusChanged <>w 0 then DConsume else DIdle)
            (Z.lor (drained s) b) (posted s) (last_stored s) (consumed s))
      | DConsume =>
          let '(f, m) := ConsumePendingFocus (mb s) in
          Some (mkSystem m (queued s) (producers s) DIdle (drained s) (posted s)
            (last_stored s) (consumed s ++ option_list f))
      end
  end.

Lemma exec_move_step c s s' :
  exec_move c s = Some s' ->
  match c with MPost _ _ _ => env_step s s' | _ => step s s' end.
Proof.
  destruct c as [i bit cls|i|]; simpl.
  - destruct (producers s !! i) as [[]|] eqn:E; try done. destruct (_ && _) eqn:G; [|done].
    apply andb_true_iff in G as [G1 G2]. intros [= <-]. apply step_post; [done|lia|].
    intros Hc. destruct cls as [f|]; [|done]. simpl in G2.
    by apply negb_true_iff, Z.eqb_neq in G2.
  - destruct (producers s !! i) as [[]|] eqn:E; try done; intros [= <-].
    + by apply step_or.
    + by apply (step_exchange s i).
    + by apply step_wake.
  - destruct (drainer s) eqn:E.
    + destruct (queued s) eqn:Q; [done|]. intros [= <-]. by apply step_message.
    + intros [= <-]. by apply step_clear.
    + intros [= <-]. by apply (step_drain s).
    + intros [= <-]. by apply (step_consume s).
Qed.

Fixpoint exec (cs : list (Move F)) (s : @System F) : option (@System F) :=
  match cs with
  | [] => Some s
  | c :: cs => s' ← exec_move c s; exec cs s'
  end.

Lemma exec_reachable n cs s s' : reachable n s -> exec cs s = Some s' -> reachable n s'.
Proof.
  revert s. induction cs as [|c cs IH]; intros s Hr; simpl; [by intros [= <-]|].
  destruct (exec_move c s) as [s1|] eqn:E; [|done]. simpl. apply IH.
  apply exec_move_step in E. destruct c; [by eapply reach_env|by eapply reach_step..].
Qed.

Definition internal (c : Move F) : bool := match c with MPost _ _ _ => false | _ => true end.

Lemma exec_steps cs s s' :
  forallb internal cs = true -> exec cs s = Some s' -> steps (length cs) s s'.
Proof.
  revert s. induction cs as [|c cs IH]; intros s Hc; simpl.
  - intros [= <-]. constructor.
  - simpl in Hc. apply andb_true_iff in Hc as [Hc Hcs].
    destruct (exec_move c s) as [s1|] eqn:E; [|done]. simpl. intros E2.
    apply exec_move_step in E. eapply steps_step; [|by apply IH]. by destruct c.
Qed.
End Exec.

(** A post of the focus bit with snapshot 7, alone: or, exchange, wake, message,
    clear, drain, consume; and then nothing is left. *)
Definition after_post : @System Z :=
  mkSystem (mkMailbox 0 (Some 7) false) 0 [POr 1] DIdle 0 0 (Some 7) [].
Definition after_drain : @System Z :=
  mkSystem (mkMailbox 0 None false) 0 [PIdle] DIdle 1 1 (Some 7) [7].

Lemma after_post_reachable : reachable 1 after_post.
Proof. apply (exec_reachable 1 [MPost 0%nat 1 (Some 7)] (initial 1)); [constructor|done]. Qed.

Lemma after_drain_steps : steps 7 after_post after_drain.
Proof.
  apply (exec_steps [MProducer 0%nat; MProducer 0%nat; MProducer 0%nat; MHook; MHook; MHook; MHook]);
    vm_compute; reflexivity.
Qed.

Lemma after_drain_quiescent : quiescent after_drain.
Proof.
  intros s' H. inversion H; subst; simpl in *; try discriminate;
    match goal with H : [_] !! ?i = Some _ |- _ => destruct i; discriminate end.
Qed.

Lemma posts_are_drained_witness :
  (7 <= work after_post)%nat /\ drained after_drain = posted after_drain /\
  last_stored after_drain = last (consumed after_drain).
Proof.
  destruct (posts_are_drained 1 after_post 7 after_drain after_post_reachable after_drain_steps)
    as [H1 H2].
  destruct (H2 after_drain_quiescent) as (_ & H3 & _ & _ & [H4|H4]); [discriminate|].
  split; [exact H1|]. split; [exact H3|exact H4].
Defined.

(** The order of the two operations of [DrainBits] matters: with the bits taken
    first, a post in between sees the latch closed, sends nothing, and its bit
    stays with no message on the way.  In the program's order it wakes. *)
Lemma drain_reversed_strands :
  let m := (@Post Z kTickPoll None new_mailbox).2 in
  (let m := (exchange_bits m).2 in let '(woke, m) := Post kFocusChanged None m in
   woke = false /\ bits_ (clear_wake m) = 1 /\ wakePosted_ (clear_wake m) = false) /\
  (let m := clear_wake m in let '(woke, m) := Post kFocusChanged None m in
   woke = true /\ (exchange_bits m).1 = Z.lor kTickPoll kFocusChanged).
Proof. vm_compute. done. Qed.

(** The first post's wake-up is lost; a second post sends none. *)
Lemma lost_wake_strands :
  exists s s' s'' : @System Z, reachable 1 s /\ wake_lost s s' /\ deaf s' /\
    exec [MPost 0%nat kTickPoll None; MProducer 0%nat; MProducer 0%nat] s' = Some s'' /\
    deaf s'' /\ bits_ (mb s'') = Z.lor kFocusChanged kTickPoll /\ quiescent s''.
Proof.
  destruct (exec [MProducer 0%nat; MProducer 0%nat] after_post) as [s|] eqn:E; [|by vm_compute in E].
  assert (Hr : reachable 1 s) by (by eapply exec_reachable; [apply after_post_reachable|]).
  vm_compute in E. injection E as <-.
  eexists _, _, _. split; [exact Hr|]. split; [by apply (step_wake_lost _ 0)|].
  split; [split_and!; try done; vm_compute; by intros ?%list_elem_of_singleton|].
  split; [vm_compute; reflexivity|].
  split; [split_and!; try done; by intros ?%list_elem_of_singleton|]. split; [done|].
  intros s' H. inversion H; subst; simpl in *; try discriminate;
    match goal with H : [_] !! ?i = Some _ |- _ => destruct i; discriminate end.
Qed.

(** A drain can see the focus bit and find no snapshot: a second post stores its
    snapshot before the first drain consumes, and sets the bit after. *)
Lemma focus_bit_without_snapshot :
  exists s : @System Z, reachable 1 s /\ drainer s = DConsume /\ pendingFocus_ (mb s) = None /\
    consumed s = [8].
Proof.
  pose (p := @MProducer Z 0%nat).
  pose (run := [p; p; p; MHook; MHook; MPost 0%nat 1 (Some 8); MHook; MHook;
                p; p; p; MHook; MHook; MHook]).
  destruct (exec run after_post) as [s|] eqn:E; [|by vm_compute in E].
  exists s. split; [by eapply exec_reachable; [apply after_post_reachable|]|].
  vm_compute in E. injection E as <-. done.
Qed.
