(* ===== verification/SmartSwitch.v ===== *)
(** * Smart switch: the typing mode of each application
      (src/src/core/SmartSwitchState.h, SmartSwitchManager.cpp)

    A fixed table in shared memory, keyed by a hash of the executable's name, and
    the map it stands for. *)

From stdpp Require Import strings.
From S2P Require Import Prelude.
Open Scope Z_scope.

Definition SMART_SWITCH_MAX_ENTRIES : nat := 64.
Definition MAGIC_VALUE : Z := 0x57534D53.

Record SmartSwitchEntry := mkEntry { hash : Z; vietnamese : Z }.
Record SmartSwitchState := mkState {
  magic : Z; epoch : Z; count : nat; entries : list SmartSwitchEntry
}.
#[export] Instance SmartSwitchEntry_inhabited : Inhabited SmartSwitchEntry := populate (mkEntry 0 0).

Definition IsValid (s : SmartSwitchState) : bool := magic s =w MAGIC_VALUE.
Definition InitDefaults : SmartSwitchState :=
  mkState MAGIC_VALUE 0 0 (replicate SMART_SWITCH_MAX_ENTRIES (mkEntry 0 0)).

(** FNV-1a on 32 bits, over the lower-case characters up to the terminator. *)
Definition FnvStep (h : Z) (c : wchar) : Z :=
  (Z.lxor h (towlower c mod 2 ^ 32) * 16777619) mod 2 ^ 32.
Fixpoint FnvLoop (h : Z) (str : wstring) : Z :=
  match str with
  | [] => h
  | c :: str => if c =w 0 then h else FnvLoop (FnvStep h c) str
  end.
Definition FnvHash (str : wstring) : Z := FnvLoop 2166136261 str.

Definition next_epoch (s : SmartSwitchState) : Z := (epoch s + 1) mod 2 ^ 32.
Definition mode_byte (v : bool) : Z := if v then 1 else 0.

(** The scan up to [count], and no further than the table. *)
Definition FindApp (h : Z) (s : SmartSwitchState) : option nat :=
  find_fwd (fun i => hash (entries s !!! i) =w h) (Nat.min (count s) SMART_SWITCH_MAX_ENTRIES).

Definition SetAppMode (exeName : wstring) (v : bool) (s : SmartSwitchState) : SmartSwitchState :=
  let h := FnvHash exeName in
  match FindApp h s with
  | Some i =>
      mkState (magic s) (next_epoch s) (count s)
        (alter (fun e => mkEntry (hash e) (mode_byte v)) i (entries s))
  | None =>
      if (count s <? SMART_SWITCH_MAX_ENTRIES)%nat
      then mkState (magic s) (next_epoch s) (S (count s))
             (<[count s := mkEntry h (mode_byte v)]> (entries s))
      else s
  end.

Definition GetAppMode (exeName : wstring) (s : SmartSwitchState) : option bool :=
  (fun i => vietnamese (entries s !!! i) <>w 0) <$> FindApp (FnvHash exeName) s.

(** The map's entries in the order of its iteration, up to the table's size. *)
Definition LoadFromMap (m : list (wstring * bool)) (s : SmartSwitchState) : SmartSwitchState :=
  let rows := take SMART_SWITCH_MAX_ENTRIES m in
  let fresh := (fun '(exe, v) => mkEntry (FnvHash exe) (mode_byte v)) <$> rows in
  mkState (magic s) (next_epoch s) (length rows)
    (fresh ++ drop (length rows) (entries s)).

(** ** The map the table stands for *)

Definition table_ok (s : SmartSwitchState) : Prop :=
  length (entries s) = SMART_SWITCH_MAX_ENTRIES /\ (count s <= SMART_SWITCH_MAX_ENTRIES)%nat.

Lemma InitDefaults_ok : table_ok InitDefaults.
Proof. split; [apply length_replicate|simpl; lia]. Qed.

Lemma SetAppMode_ok exe v s : table_ok s -> table_ok (SetAppMode exe v s).
Proof.
  intros [Hl Hc]. unfold SetAppMode, table_ok. destruct (FindApp _ s); simpl.
  - by rewrite length_alter.
  - destruct (Nat.ltb_spec (count s) SMART_SWITCH_MAX_ENTRIES); simpl; [|done].
    rewrite length_insert. lia.
Qed.

Lemma LoadFromMap_ok m s : table_ok s -> table_ok (LoadFromMap m s).
Proof.
  intros [Hl Hc]. unfold LoadFromMap, table_ok; simpl.
  rewrite length_app, length_fmap, length_drop, Hl, length_take. lia.
Qed.

(** Two tables that agree on the entries in use find the same. *)
Lemma FindApp_ext h s s' :
  Nat.min (count s) SMART_SWITCH_MAX_ENTRIES = Nat.min (count s') SMART_SWITCH_MAX_ENTRIES ->
  (forall i, (i < Nat.min (count s) SMART_SWITCH_MAX_ENTRIES)%nat ->
     hash (entries s !!! i) = hash (entries s' !!! i)) ->
  FindApp h s = FindApp h s'.
Proof.
  intros Hc He. unfold FindApp. rewrite <- Hc. apply find_fwd_ext.
  intros i Hi. by rewrite He.
Qed.

Lemma lookup_total_alter_eq (f : SmartSwitchEntry -> SmartSwitchEntry)
  (l : list SmartSwitchEntry) (i : nat) :
  (i < length l)%nat -> alter f i l !!! i = f (l !!! i).
Proof.
  intros H. apply list_lookup_total_correct. rewrite list_lookup_alter_eq.
  by rewrite (lookup_total_lt l i H).
Qed.
Lemma lookup_total_alter_ne (f : SmartSwitchEntry -> SmartSwitchEntry)
  (l : list SmartSwitchEntry) (i j : nat) :
  i <> j -> alter f i l !!! j = l !!! j.
Proof. intros H. rewrite !list_lookup_total_alt. by rewrite list_lookup_alter_ne. Qed.

(** Adding an entry is seen by a search that found nothing before it. *)
Lemma find_fwd_S p n :
  find_fwd p (S n) = match find_fwd p n with
                     | Some i => Some i
                     | None => if p n then Some n else None
                     end.
Proof.
  destruct (find_fwd p n) as [i|] eqn:E.
  - apply find_fwd_Some in E as (H1 & H2 & H3). apply find_fwd_Some. split_and!; [lia|done..].
  - rewrite find_fwd_None in E. destruct (p n) eqn:Ep.
    + apply find_fwd_Some. split_and!; [lia|done|]. intros m Hm. apply E. lia.
    + apply find_fwd_None. intros m Hm. destruct (decide (m = n)) as [->|]; [done|apply E; lia].
Qed.

Lemma FindApp_add h e s :
  table_ok s -> (count s < SMART_SWITCH_MAX_ENTRIES)%nat ->
  FindApp h (mkState (magic s) (next_epoch s) (S (count s)) (<[count s := e]> (entries s))) =
  match FindApp h s with
  | Some j => Some j
  | None => if hash e =w h then Some (count s) else None
  end.
Proof.
  intros [Hl _] Hlt. unfold FindApp. cbn [count entries].
  replace (Nat.min (S (count s)) SMART_SWITCH_MAX_ENTRIES) with (S (count s)) by lia.
  replace (Nat.min (count s) SMART_SWITCH_MAX_ENTRIES) with (count s) by lia.
  rewrite find_fwd_S, list_lookup_total_insert_eq by lia.
  rewrite (find_fwd_ext _ (fun i => hash (entries s !!! i) =w h)); [done|].
  intros i Hi. by rewrite list_lookup_total_insert_ne by lia.
Qed.

(** A full table and an application it does not know. *)
Definition table_full (exe : wstring) (s : SmartSwitchState) : Prop :=
  FindApp (FnvHash exe) s = None /\ count s = SMART_SWITCH_MAX_ENTRIES.

(** The table is a map from names to modes, up to the hash: after a mode is
    set, the name has it, every name with another hash has what it had, and
    the only thing that keeps a mode from being stored is a table that is full and
    does not know the name, which then stays as it is. *)
Theorem SetAppMode_is_insert exe v exe' s :
  table_ok s ->
  GetAppMode exe' (SetAppMode exe v s) =
    (if (FnvHash exe' =w FnvHash exe) &&
        negb (bool_decide (FindApp (FnvHash exe) s = None) &&
              (count s =? SMART_SWITCH_MAX_ENTRIES)%nat)
     then Some v else GetAppMode exe' s) /\
  (table_full exe s -> SetAppMode exe v s = s).
Proof.
  intros Hok. pose proof Hok as [Hl Hc]. unfold SetAppMode, GetAppMode, table_full.
  assert (Hv : (mode_byte v <>w 0) = v) by by destruct v.
  set (h := FnvHash exe). set (h' := FnvHash exe').
  destruct (FindApp h s) as [i|] eqn:E.
  - split; [|by intros [? _]]. rewrite andb_true_r.
    pose proof E as Ei. apply find_fwd_Some in Ei as (Hi & Hh & Hfirst).
    assert (Hext : forall k, FindApp k (mkState (magic s) (next_epoch s) (count s)
      (alter (fun e => mkEntry (hash e) (mode_byte v)) i (entries s))) = FindApp k s).
    { intros k. apply FindApp_ext; [done|]. intros j Hj. simpl.
      destruct (decide (i = j)) as [->|Hne].
      - rewrite lookup_total_alter_eq; [done|lia].
      - by rewrite lookup_total_alter_ne. }
    rewrite Hext. cbn [entries].
    destruct (Z.eqb_spec h' h) as [->|Hne].
    + rewrite E. simpl. rewrite lookup_total_alter_eq by lia. simpl. by rewrite Hv.
    + destruct (FindApp h' s) as [j|] eqn:E'; [|done]. simpl.
      apply find_fwd_true in E'. rewrite lookup_total_alter_ne; [done|].
      intros ->. apply Z.eqb_eq in Hh, E'. congruence.
  - rewrite bool_decide_eq_true_2 by done. cbn [andb].
    destruct (Nat.ltb_spec (count s) SMART_SWITCH_MAX_ENTRIES) as [Hlt|Hge].
    + rewrite (proj2 (Nat.eqb_neq _ _)) by lia.
      cbn [negb]. rewrite andb_true_r. split; [|intros [_ ?]; lia].
      rewrite (FindApp_add h' _ s) by done. cbn [entries].
      destruct (FindApp h' s) as [j|] eqn:E'.
      * destruct (Z.eqb_spec h' h) as [->|Hne]; [congruence|].
        apply find_fwd_lt in E'. simpl. rewrite list_lookup_total_insert_ne; [done|lia].
      * cbn [hash]. destruct (Z.eqb_spec h' h) as [->|Hne].
        -- rewrite Z.eqb_refl. simpl. rewrite list_lookup_total_insert_eq by lia.
           simpl. by rewrite Hv.
        -- by destruct (Z.eqb_spec h h'); [congruence|].
    + rewrite (proj2 (Nat.eqb_eq (count s) SMART_SWITCH_MAX_ENTRIES)) by lia.
      rewrite andb_false_r. done.
Qed.

(** Sixty-four applications known, and one more: it is not stored. *)
Definition full_switch : SmartSwitchState :=
  mkState MAGIC_VALUE 0 64 ((fun n => mkEntry (Z.of_nat n) 1) <$> seq 0 64).

Lemma SetAppMode_is_insert_witness :
  GetAppMode (wstr "word.exe") (SetAppMode (wstr "Word.EXE") true InitDefaults) = Some true /\
  SetAppMode (wstr "word.exe") true full_switch = full_switch.
Proof.
  split.
  - destruct (SetAppMode_is_insert (wstr "Word.EXE") true (wstr "word.exe") InitDefaults
      InitDefaults_ok) as [-> _]. vm_compute. reflexivity.
  - apply (SetAppMode_is_insert (wstr "word.exe") true [] full_switch); [split; [reflexivity|apply le_n]|].
    split; vm_compute; reflexivity.
Defined.
