(* ===== verification/CommitState.v ===== *)
(** * Commit undo: the committed words that Backspace can reopen
      (src/src/app/system/CommitState.h, src/src/core/CommitUndoArmDecision.h,
      CommitUndoExemption.h)

    The state of the commit-undo window and the rules about its keys.  The
    handler that drives them is in [CommitUndo]. *)

From S2P Require Import Prelude Action Config Macro.
Open Scope Z_scope.

(** ** Commit undo: the state (CommitState.h) *)

Inductive State := Idle | Ready | Primed.
#[export] Instance State_eq_dec : EqDecision State.
Proof. solve_decision. Defined.

Record Entry := mkEntry {
  history : wstring; text : wstring; rawInput : wstring; widths : list nat;
  extraLeadingTriggers : Z
}.

Record CommitState := mkCommit {
  state_ : State; stack_ : list Entry; pushedToStack_ : bool; gapEndsInGlyph_ : bool;
  prevKeyGlyph_ : wchar; wordOpenGlyph_ : wchar; pendingTriggerCount_ : Z;
  leadingTriggersForCurrentWord_ : Z; readyTime_ : Z; inputHistory_ : wstring
}.
Definition new_commit : CommitState := mkCommit Idle [] false false 0 0 0 0 0 [].

Definition kBackspaceMarker : wchar := 8.
Definition kMaxStack : nat := 3.
Definition kReadyTimeoutMs : Z := 4000.

Definition set_state (s : State) (c : CommitState) : CommitState :=
  mkCommit s (stack_ c) (pushedToStack_ c) (gapEndsInGlyph_ c) (prevKeyGlyph_ c)
    (wordOpenGlyph_ c) (pendingTriggerCount_ c) (leadingTriggersForCurrentWord_ c)
    (readyTime_ c) (inputHistory_ c).
Definition set_stack (l : list Entry) (c : CommitState) : CommitState :=
  mkCommit (state_ c) l (pushedToStack_ c) (gapEndsInGlyph_ c) (prevKeyGlyph_ c)
    (wordOpenGlyph_ c) (pendingTriggerCount_ c) (leadingTriggersForCurrentWord_ c)
    (readyTime_ c) (inputHistory_ c).
Definition SetPendingTriggers (n : Z) (c : CommitState) : CommitState :=
  mkCommit (state_ c) (stack_ c) (pushedToStack_ c) (gapEndsInGlyph_ c) (prevKeyGlyph_ c)
    (wordOpenGlyph_ c) n (leadingTriggersForCurrentWord_ c) (readyTime_ c) (inputHistory_ c).
Definition set_history (h : wstring) (c : CommitState) : CommitState :=
  mkCommit (state_ c) (stack_ c) (pushedToStack_ c) (gapEndsInGlyph_ c) (prevKeyGlyph_ c)
    (wordOpenGlyph_ c) (pendingTriggerCount_ c) (leadingTriggersForCurrentWord_ c)
    (readyTime_ c) h.

Definition SetPushedToStack (b : bool) (c : CommitState) : CommitState :=
  mkCommit (state_ c) (stack_ c) b (gapEndsInGlyph_ c) (prevKeyGlyph_ c)
    (wordOpenGlyph_ c) (pendingTriggerCount_ c) (leadingTriggersForCurrentWord_ c)
    (readyTime_ c) (inputHistory_ c).
Definition SetGapEndsInGlyph (b : bool) (c : CommitState) : CommitState :=
  mkCommit (state_ c) (stack_ c) (pushedToStack_ c) b (prevKeyGlyph_ c)
    (wordOpenGlyph_ c) (pendingTriggerCount_ c) (leadingTriggersForCurrentWord_ c)
    (readyTime_ c) (inputHistory_ c).
Definition SetPrevKeyGlyph (ch : wchar) (c : CommitState) : CommitState :=
  mkCommit (state_ c) (stack_ c) (pushedToStack_ c) (gapEndsInGlyph_ c) ch
    (wordOpenGlyph_ c) (pendingTriggerCount_ c) (leadingTriggersForCurrentWord_ c)
    (readyTime_ c) (inputHistory_ c).
Definition SetWordOpenGlyph (ch : wchar) (c : CommitState) : CommitState :=
  mkCommit (state_ c) (stack_ c) (pushedToStack_ c) (gapEndsInGlyph_ c) (prevKeyGlyph_ c)
    ch (pendingTriggerCount_ c) (leadingTriggersForCurrentWord_ c)
    (readyTime_ c) (inputHistory_ c).
Definition SetLeadingTriggersForCurrentWord (n : Z) (c : CommitState) : CommitState :=
  mkCommit (state_ c) (stack_ c) (pushedToStack_ c) (gapEndsInGlyph_ c) (prevKeyGlyph_ c)
    (wordOpenGlyph_ c) (pendingTriggerCount_ c) n (readyTime_ c) (inputHistory_ c).

Definition IsIdle (c : CommitState) : bool := state_ c == Idle.
Definition IsReady (c : CommitState) : bool := state_ c == Ready.
Definition IsPrimed (c : CommitState) : bool := state_ c == Primed.
Definition StackEmpty (c : CommitState) : bool := bool_decide (stack_ c = []).
Definition StackTop (c : CommitState) : option Entry := List.last (Some <$> stack_ c) None.

Definition SetIdle (c : CommitState) : CommitState := set_state Idle c.
Definition SetReady (now : Z) (c : CommitState) : CommitState :=
  mkCommit Ready (stack_ c) (pushedToStack_ c) (gapEndsInGlyph_ c) (prevKeyGlyph_ c)
    (wordOpenGlyph_ c) (pendingTriggerCount_ c) (leadingTriggersForCurrentWord_ c)
    now (inputHistory_ c).
Definition SetPrimed (c : CommitState) : CommitState := set_state Primed c.
Definition ReadyExpired (now : Z) (c : CommitState) : bool :=
  (state_ c == Ready) && (kReadyTimeoutMs <? (now - readyTime_ c) mod 2 ^ 32).

Definition IncrementPendingTriggers (c : CommitState) : CommitState :=
  if pendingTriggerCount_ c <? 255 then SetPendingTriggers (pendingTriggerCount_ c + 1) c else c.
Definition DecrementPendingTriggers (c : CommitState) : CommitState :=
  if 0 <? pendingTriggerCount_ c then SetPendingTriggers (pendingTriggerCount_ c - 1) c else c.
Definition AppendHistory (ch : wchar) (c : CommitState) : CommitState :=
  set_history (inputHistory_ c ++ [ch]) c.
Definition AppendBackspaceMarker (c : CommitState) : CommitState :=
  set_history (inputHistory_ c ++ [kBackspaceMarker]) c.
Definition ClearHistory (c : CommitState) : CommitState := set_history [] c.

(** The stack's top is its last element; a push on a full stack drops the oldest. *)
Definition PushEntry (e : Entry) (c : CommitState) : CommitState :=
  let l := if (kMaxStack <=? length (stack_ c))%nat then drop 1 (stack_ c) else stack_ c in
  set_stack (l ++ [e]) c.
Definition PopStackTop (c : CommitState) : CommitState :=
  match stack_ c with [] => c | l => set_stack (removelast l) c end.

Definition Cancel (c : CommitState) : CommitState :=
  mkCommit Idle [] (pushedToStack_ c) false (prevKeyGlyph_ c) (wordOpenGlyph_ c) 0 0
    (readyTime_ c) (inputHistory_ c).
Definition DiscardReplayContext (c : CommitState) : CommitState :=
  let c := Cancel c in
  mkCommit (state_ c) (stack_ c) false (gapEndsInGlyph_ c) (prevKeyGlyph_ c)
    (wordOpenGlyph_ c) (pendingTriggerCount_ c) (leadingTriggersForCurrentWord_ c)
    (readyTime_ c) [].

(** The stack holds the youngest commits, in order. *)
Lemma PushEntry_stack es c :
  (length (stack_ c) <= kMaxStack)%nat ->
  stack_ (foldl (fun c e => PushEntry e c) c es) =
  drop (length (stack_ c ++ es) - kMaxStack) (stack_ c ++ es).
Proof.
  revert c. induction es as [|e es IH]; intros c Hc; cbn [foldl].
  { rewrite app_nil_r. by replace (length (stack_ c) - kMaxStack)%nat with 0%nat by lia. }
  unfold kMaxStack in *. rewrite IH.
  - unfold PushEntry. cbn [stack_ set_stack]. unfold kMaxStack.
    destruct (Nat.leb_spec 3 (length (stack_ c))).
    + destruct (stack_ c) as [|x l]; [simpl in *; lia|]. cbn [drop]. rewrite drop_0.
      rewrite <- app_assoc. cbn [app]. set (rest := l ++ e :: es).
      assert (Hl : (3 <= length rest)%nat)
        by (unfold rest; rewrite length_app; cbn [length] in *; lia).
      cbn [length]. by rewrite Nat.sub_succ_l.
    + by rewrite <- app_assoc.
  - unfold PushEntry. cbn [stack_ set_stack]. unfold kMaxStack.
    destruct (Nat.leb_spec 3 (length (stack_ c))); rewrite length_app, ?length_drop; simpl; lia.
Qed.

(** After a boundary key nothing is left to replay, and nothing that the same
    keystroke could push. *)
Lemma DiscardReplayContext_empty c :
  let c' := DiscardReplayContext c in
  state_ c' = Idle /\ stack_ c' = [] /\ inputHistory_ c' = [] /\ pendingTriggerCount_ c' = 0.
Proof. done. Qed.

(** ** Commit undo: the rules (CommitUndoArmDecision.h) *)

Inductive CommitUndoArm := Arm | Skip | ClearStack.

Definition IsReplayContextBoundary (vkCode : Z) : bool := (vkCode =w 13) || (vkCode =w 9).
Definition IsCaretNavigationKey (vkCode : Z) : bool :=
  ((37 <=? vkCode) && (vkCode <=? 40)) || (vkCode =w 36) || (vkCode =w 35) ||
  (vkCode =w 33) || (vkCode =w 34).
Definition DecideCommitUndoArm (vkCode : Z) : CommitUndoArm :=
  if IsReplayContextBoundary vkCode then ClearStack
  else if ((37 <=? vkCode) && (vkCode <=? 40)) || (vkCode =w 36) || (vkCode =w 35) ||
          (vkCode =w 33) || (vkCode =w 34) || (vkCode =w 27) || (vkCode =w 46) || (vkCode =w 45)
  then Skip else Arm.

Inductive ReadyGapAction := TrackSpace | CancelGap | StartWord.
Definition DecideReadyGapKey (isCommitTrigger : bool) (trigger : wchar) (pendingTriggers : Z)
  (gapEndsInGlyph : bool) : ReadyGapAction :=
  if isCommitTrigger then (if trigger =w L " " then TrackSpace else CancelGap)
  else if (pendingTriggers =w 0) && gapEndsInGlyph then CancelGap
  else StartWord.

Inductive PrimedTriggerAction := PrimedCancel | ReEnterReady | PrimedIdle.
#[export] Instance PrimedTriggerAction_eq_dec : EqDecision PrimedTriggerAction.
Proof. solve_decision. Defined.
Definition DecidePrimedTriggerAction (isCommitTrigger : bool) (trigger : wchar)
  : PrimedTriggerAction :=
  if negb isCommitTrigger then PrimedIdle
  else if trigger =w L " " then ReEnterReady
  else if L " " <? trigger then PrimedCancel
  else PrimedIdle.
Definition ShouldCancelPrimedOnTrigger (isCommitTrigger : bool) (trigger : wchar) : bool :=
  DecidePrimedTriggerAction isCommitTrigger trigger == PrimedCancel.
Definition IsHostReplacedWord (openGlyph closeTrigger : wchar) : bool :=
  (openGlyph =w L ":") && (closeTrigger =w L ":").

(** A key that arms the window is one that leaves the word at the caret: of the
    keys that commit a word, the digits, the space and the punctuation. *)
Lemma Arm_commit_triggers vkCode :
  IsCommitTrigger vkCode = true ->
  DecideCommitUndoArm vkCode = Arm <->
  vkCode = 32 \/ 48 <= vkCode <= 57 \/ 96 <= vkCode <= 111 \/ 186 <= vkCode <= 192 \/
  219 <= vkCode <= 223.
Proof.
  unfold IsCommitTrigger, DecideCommitUndoArm, IsReplayContextBoundary, in_range. intros H.
  repeat match goal with
  | |- (if ?b then _ else _) = _ <-> _ =>
      destruct b eqn:?; [split; [discriminate|intros; exfalso; lia]|]
  end.
  split; [intros _; lia|done].
Qed.

(** ** Keys that modify the word just committed (CommitUndoExemption.h) *)

Definition IsCommitUndoExemptAction (a : TypingAction) : bool :=
  IsToneAction a || IsTelexModifierAction a || IsVniModifierAction a ||
  bool_decide (a ∈ [HornOrInsertU; HornOrInsertUNoStart; UndoAllMarks]).

Definition IsCommitUndoExemptKey (vkCode : Z) (method : InputMethod)
  (shiftHeld escIsCancelTrigger isCustomModifier : bool) : bool :=
  let isTelexModifierLetter :=
    bool_decide (method ∈ [Telex; SimpleTelex; Combined]) &&
    bool_decide (vkCode ∈ [L "S"; L "F"; L "R"; L "X"; L "J"; L "Z"; L "A"; L "E"; L "O";
                           L "W"; L "D"]) in
  let isVniModifierDigit :=
    bool_decide (method ∈ [VNI; Combined]) && (L "0" <=? vkCode) && (vkCode <=? L "9") &&
    negb shiftHeld in
  let isUserDefinedModifier := (method == UserDefined) && isCustomModifier in
  let isEscRestoreRawKey := (vkCode =w 27) && escIsCancelTrigger in
  isTelexModifierLetter || isVniModifierDigit || isUserDefinedModifier || isEscRestoreRawKey.
