(* ===== verification/KeyDecisions.v ===== *)
(** * Decisions of the keyboard hook (src/src/core/*Decision.h)

    Rules HookEngine was split into so that they can be tested: words that begin
    with a digit, keys of other programs, and the typing mode by application,
    layout and focus. *)

From S2P Require Import Prelude Action Config Macro.
Open Scope Z_scope.

(** ** Words that begin with a digit (DigitLedWordDecision.h) *)

Module DigitLed.

Inductive DigitLedDecision := Continue | ArmDigit | Bypass | ResetDigit | ResetAndContinue.
#[export] Instance DigitLedDecision_eq_dec : EqDecision DigitLedDecision.
Proof. solve_decision. Defined.

Record DigitLedInputs := mkDigit {
  vkCode : Z; shift : bool; engineEmpty : bool; method : InputMethod; currentlyArmed : bool
}.

Definition IsDigitLedBoundary (v : Z) : bool :=
  (v =w 32) || (v =w 13) || (v =w 9) || (v =w 27) || (v =w 8) || (v =w 46) ||
  ((37 <=? v) && (v <=? 40)) || (v =w 36) || (v =w 35) || (v =w 33) || (v =w 34).

Definition DecideDigitLed (inp : DigitLedInputs) : DigitLedDecision :=
  if currentlyArmed inp then
    if negb (engineEmpty inp) then ResetAndContinue
    else if IsDigitLedBoundary (vkCode inp) then ResetDigit else Bypass
  else if shift inp then Continue
  else if negb (engineEmpty inp) then Continue
  else if (vkCode inp <? 48) || (57 <? vkCode inp) then Continue
  else if (method inp != VNI) && (method inp != Combined) && (method inp != UserDefined)
  then Continue
  else ArmDigit.

(** The caller's flag after the decision. *)
Definition armed_after (inp : DigitLedInputs) : bool :=
  match DecideDigitLed inp with
  | Continue | Bypass => currentlyArmed inp
  | ArmDigit => true
  | ResetDigit | ResetAndContinue => false
  end.

(** Keys into an engine that stays empty: the flag is up exactly in a run of keys
    without a boundary that follows a digit. *)
Fixpoint run (m : InputMethod) (armed : bool) (keys : list Z) : bool :=
  match keys with
  | [] => armed
  | v :: keys => run m (armed_after (mkDigit v false true m armed)) keys
  end.

Definition is_digit (v : Z) : bool := (48 <=? v) && (v <=? 57).
(** The keys since the last boundary. *)
Fixpoint current_word (word keys : list Z) : list Z :=
  match keys with
  | [] => word
  | v :: keys => current_word (if IsDigitLedBoundary v then [] else word ++ [v]) keys
  end.

Lemma run_spec m word keys :
  m = VNI \/ m = Combined \/ m = UserDefined ->
  run m (existsb is_digit word) keys = existsb is_digit (current_word word keys).
Proof.
  intros Hm. revert word. induction keys as [|v keys IH]; intros word; [done|].
  cbn [run current_word]. rewrite <- IH. f_equal.
  unfold armed_after, DecideDigitLed. cbn [currentlyArmed engineEmpty vkCode shift method negb].
  destruct (IsDigitLedBoundary v) eqn:B.
  - destruct (existsb is_digit word); [done|].
    assert (Hd : (v <? 48) || (57 <? v) = true) by (unfold IsDigitLedBoundary in B; lia).
    by rewrite Hd.
  - rewrite existsb_app. simpl. rewrite orb_false_r.
    destruct (existsb is_digit word); [done|]. cbn [orb]. unfold is_digit.
    destruct ((v <? 48) || (57 <? v)) eqn:E; [lia|].
    destruct Hm as [->|[->| ->]]; simpl; lia.
Qed.

(** A live composition beats a stale flag, whatever the key. *)
Lemma live_engine_resets v sh m :
  DecideDigitLed (mkDigit v sh false m true) = ResetAndContinue.
Proof. done. Qed.

End DigitLed.

(** ** Keys that come from elsewhere *)

Module Injected.

Definition kInjectedMask : Z := Z.lor 16 2.
Definition IsExternalInjectedKey (flags dwExtraInfo vkeyExtraInfo : Z) : bool :=
  if Z.land flags kInjectedMask =w 0 then false else dwExtraInfo <>w vkeyExtraInfo.
Definition ShouldBypassAndResetOnInjected (isExternalInjected : bool) (vkCode : Z) : bool :=
  if negb isExternalInjected then false else (vkCode =w 8) || (vkCode =w 46).

Inductive InjectedDeletionAction := PassThroughOnly | SyncEngine | ResetEngine.
Definition DecideInjectedDeletionAction (prev new : wstring) (isUnicodeTable isSending : bool)
  (vk : Z) (isDown : bool) : InjectedDeletionAction :=
  if negb isDown || isSending then PassThroughOnly
  else if (vk =w 8) && isUnicodeTable && negb (bool_decide (prev = [])) &&
          (length new + 1 =? length prev)%nat && bool_decide (take (length new) prev = new)
  then SyncEngine
  else if (vk =w 8) || (vk =w 46) then ResetEngine
  else PassThroughOnly.

(** The engine follows a foreign backspace only when that is what it removed. *)
Lemma SyncEngine_last_char prev new table sending vk down :
  DecideInjectedDeletionAction prev new table sending vk down = SyncEngine ->
  vk = 8 /\ exists c, prev = new ++ [c].
Proof.
  unfold DecideInjectedDeletionAction. destruct (negb down || sending); [done|].
  destruct (_ && _) eqn:E; [|by destruct (_ || _)]. intros _. bool_hyps.
  match goal with H : (_ =? _)%nat = true |- _ => apply Nat.eqb_eq in H as Hl end.
  match goal with H : take _ prev = new |- _ => rename H into Ht end.
  split; [done|]. destruct (drop (length new) prev) as [|c [|d l]] eqn:Ed.
  - apply (f_equal length) in Ed. rewrite length_drop in Ed. simpl in Ed. lia.
  - exists c. by rewrite <- Ht at 1; rewrite <- Ed, take_drop.
  - apply (f_equal length) in Ed. rewrite length_drop in Ed. simpl in Ed. lia.
Qed.

Record LeakedInputs := mkLeaked {
  isSending : bool; hasMultiProcessRenderer : bool; eventVk : Z; sendingForVk : Z
}.
Definition DecideEatLeakedKeyDuringSend (inp : LeakedInputs) : bool :=
  if negb (isSending inp) then false
  else if negb (hasMultiProcessRenderer inp) then false
  else if sendingForVk inp =w 0 then false
  else eventVk inp =w sendingForVk inp.

End Injected.

(** ** The typing mode by application, layout and focus *)

Module Modes.

Inductive PerAppMode := PerAppNone | ForceEnglish | ForceVietnamese.
Definition DecidePerAppMode (inExcludedSet inForcedVietnameseSet : bool) : PerAppMode :=
  if inExcludedSet then ForceEnglish
  else if inForcedVietnameseSet then ForceVietnamese else PerAppNone.

Inductive CjkTransition := CjkNone | EnterCjk | LeaveCjk.
Inductive CjkBeep := Quiet | BeepOk | BeepAsterisk.
Record CjkSwitchInputs := mkCjk {
  isCompatibleNow : bool; layoutSuppressed : bool; modeBeforeCjk : bool; vietnameseMode : bool;
  isExcluded : bool; isForcedVietnamese : bool; cjkAutoSwitchEnabled : bool
}.
Record CjkSwitchOutputs := mkCjkOut {
  transition : CjkTransition; newLayoutSuppressed : bool; newModeBeforeCjk : bool;
  newVietnameseMode : bool; needCommitComposition : bool; needNotifyMode : bool; beep : CjkBeep
}.
Definition DecideCjkSwitch (inp : CjkSwitchInputs) : CjkSwitchOutputs :=
  let out := mkCjkOut CjkNone (layoutSuppressed inp) (modeBeforeCjk inp) (vietnameseMode inp)
               false false Quiet in
  if negb (cjkAutoSwitchEnabled inp) then out
  else if isExcluded inp || isForcedVietnamese inp then out
  else if negb (isCompatibleNow inp) && negb (layoutSuppressed inp) then
    mkCjkOut EnterCjk true (vietnameseMode inp)
      (if vietnameseMode inp then false else vietnameseMode inp) true
      (vietnameseMode inp) (if vietnameseMode inp then BeepAsterisk else Quiet)
  else if isCompatibleNow inp && layoutSuppressed inp then
    let changed := negb (eqb (modeBeforeCjk inp) (vietnameseMode inp)) in
    mkCjkOut LeaveCjk false (modeBeforeCjk inp)
      (if changed then modeBeforeCjk inp else vietnameseMode inp) false true
      (if changed then (if modeBeforeCjk inp then BeepOk else BeepAsterisk) else Quiet)
  else out.

(** The state the decision is called with again. *)
Definition after (inp : CjkSwitchInputs) (compatible : bool) : CjkSwitchInputs :=
  let out := DecideCjkSwitch inp in
  mkCjk compatible (newLayoutSuppressed out) (newModeBeforeCjk out) (newVietnameseMode out)
    (isExcluded inp) (isForcedVietnamese inp) (cjkAutoSwitchEnabled inp).

(** A visit to an incompatible layout, of any number of notifications, types
    English there and gives the mode back after it. *)
Lemma cjk_visit_restores mode before :
  let enter := mkCjk false false before mode false false true in
  let inside := after enter false in
  newVietnameseMode (DecideCjkSwitch enter) = false /\
  after inside false = inside /\
  newVietnameseMode (DecideCjkSwitch (after inside true)) = mode /\
  newLayoutSuppressed (DecideCjkSwitch (after inside true)) = false.
Proof. by destruct mode. Qed.

Inductive FocusApplyDisposition := DropStale | DeferUntilBoundary | ApplyNow.
Record FocusApplyInputs := mkFocusApply {
  snapshotRequestSerial : Z; latestRequestSerial : Z; snapshotInputEpoch : Z;
  currentInputEpoch : Z; hasComposition : bool
}.
Definition DecideFocusApply (inp : FocusApplyInputs) : FocusApplyDisposition :=
  if snapshotRequestSerial inp <>w latestRequestSerial inp then DropStale
  else if hasComposition inp && (snapshotInputEpoch inp <>w currentInputEpoch inp)
  then DeferUntilBoundary
  else ApplyNow.

(** The service is activated once per focused window, whatever repeats. *)
Definition ShouldActivateTsfProfileForFocus (st : Z * Z) (isTsf : bool) (hwnd pid : Z)
  : bool * (Z * Z) :=
  if negb isTsf || (hwnd =w 0) then (false, (0, 0))
  else ((st.1 <>w hwnd) || (st.2 <>w pid), (hwnd, pid)).
Lemma activated_once st hwnd pid b st' :
  ShouldActivateTsfProfileForFocus st true hwnd pid = (b, st') ->
  (ShouldActivateTsfProfileForFocus st' true hwnd pid).1 = false.
Proof.
  unfold ShouldActivateTsfProfileForFocus. destruct (negb true || (hwnd =w 0)) eqn:E;
    intros [= <- <-]; [done|]. simpl. by rewrite !Z.eqb_refl.
Qed.

Definition ShouldResetCompositionOnFocusChange (hwnd focus lastHwnd lastFocus : Z) : bool :=
  (hwnd <>w lastHwnd) || (focus <>w lastFocus).
Definition IsSpuriousBackgroundFocusEvent (trigger classified target lastHwnd lastTarget : Z)
  : bool :=
  (trigger <>w 0) && (trigger <>w classified) && (classified =w lastHwnd) &&
  (target =w lastTarget).
Definition ChooseFocusTarget (trigger foreground : Z) (foregroundIsHelper : bool) : Z :=
  if (foreground <>w 0) && negb foregroundIsHelper then foreground
  else if trigger <>w 0 then trigger else foreground.

End Modes.
