(* ===== verification/Injector.v ===== *)
(** * The output layer: Windows, the injectors and their factory
    (src/src/app/output)

    What it asks of Windows comes first: synthetic input, the state of the keys,
    messages to an edit control and the clipboard, as one interface; the system
    behind it is a parameter.  [Channel] is what src/src/app/output/Internal.h
    keeps over it: the counter of synthetic events in flight, reached by a callback
    that may not be installed. *)

From Stdlib Require Import Strings.String.
From S2P Require Import Prelude.
Open Scope Z_scope.

(** INPUT with type INPUT_KEYBOARD. *)
Record INPUT := mkInput { ki_wVk : Z; ki_wScan : Z; ki_dwFlags : Z; ki_dwExtraInfo : Z }.
Definition KEYEVENTF_EXTENDEDKEY : Z := 1.
Definition KEYEVENTF_KEYUP : Z := 2.
Definition KEYEVENTF_UNICODE : Z := 4.

Definition VK_BACK : Z := 8.
Definition VK_SHIFT : Z := 16.
Definition VK_CONTROL : Z := 17.
Definition VK_MENU : Z := 18.
Definition VK_LWIN : Z := 91.
Definition VK_RWIN : Z := 92.
Definition VK_LSHIFT : Z := 160.
Definition VK_RSHIFT : Z := 161.
Definition VK_LCONTROL : Z := 162.
Definition VK_RCONTROL : Z := 163.
Definition VK_LMENU : Z := 164.
Definition VK_RMENU : Z := 165.

(** A window handle; 0 is null. *)
Abbreviation HWND := Z (only parsing).

(** MapVirtualKeyW(vk, MAPVK_VK_TO_VSC). *)
Class KeyboardLayout := { MapVirtualKeyW : Z -> Z }.

Class Desktop (S : Type) := {
  (** The events inserted, those of the process's own that came through its hook
      during the call, and the system after it. *)
  SendInput : list INPUT -> S -> nat * nat * S;
  GetAsyncKeyState : Z -> S -> bool;                 (* bit 0x8000 *)
  GetKeyState : Z -> S -> bool;
  Sleep : Z -> S -> S;
  GetTickCount : S -> Z;
  steady_clock : S -> Z;                             (* in milliseconds *)
  (** SendMessageTimeoutW: no answer in time is [None] or [false]. *)
  EM_GETSEL : HWND -> S -> option Z * S;             (* the end of the selection *)
  EM_SETSEL : HWND -> Z -> Z -> S -> bool * S;
  EM_REPLACESEL : HWND -> wstring -> S -> bool * S;
  WM_SETREDRAW : HWND -> bool -> S -> bool * S;
  InvalidateRect : HWND -> S -> S;
  (** The focus: resolved now, or as FocusOwner caches it. *)
  ResolveFocusedHwnd : S -> HWND;
  GetClassNameW : HWND -> S -> wstring;              (* [] when it fails *)
  IsWindow : HWND -> S -> bool;
  CachedFocusedHwnd : S -> HWND;
  CachedFocusedClass : S -> wstring;
  RefreshFocusCache : S -> S;                        (* for the foreground window *)
  InvalidateFocusCache : S -> S;
  (** The clipboard. *)
  GetClipboardSequenceNumber : S -> Z;
  OpenClipboard : S -> bool * S;
  CloseClipboard : S -> S;
  EmptyClipboard : S -> S;
  GetClipboardText : S -> option wstring;            (* CF_UNICODETEXT, while it is open *)
  GlobalAlloc : nat -> S -> bool * S;                (* a locked block of that many bytes *)
  SetClipboardText : wstring -> S -> S;              (* SetClipboardData, of CF_UNICODETEXT *)
  ExcludeFromHistory : S -> S;
  SetTimer : Z -> S -> Z * S;                        (* 0 when it fails *)
  KillTimer : Z -> S -> S
}.

Definition u32 (z : Z) : Z := z mod 2 ^ 32.
Definition i32 (z : Z) : Z := (z + 2 ^ 31) mod 2 ^ 32 - 2 ^ 31.

(** The file-scope variables of cpp. *)
Record ClipboardMemory := mkClipboardMemory {
  g_originalClipText : wstring; g_hasOriginalClip : bool; g_restoreTimerId : Z;
  g_lastWrittenSeq : Z
}.
Definition no_clipboard : ClipboardMemory := mkClipboardMemory [] false 0 0.

Section Channel.
Context {S : Type} {D : Desktop S}.

Record Channel := mkChannel {
  g_synthCounterCallback : bool;      (* installed *)
  synthEventsPending_ : Z;
  clipboard : ClipboardMemory;
  desktop : S
}.
Implicit Types c : Channel.

Definition set_pending (n : Z) c : Channel :=
  mkChannel (g_synthCounterCallback c) n (clipboard c) (desktop c).
Definition set_clipboard (m : ClipboardMemory) c : Channel :=
  mkChannel (g_synthCounterCallback c) (synthEventsPending_ c) m (desktop c).
Definition set_desktop (s : S) c : Channel :=
  mkChannel (g_synthCounterCallback c) (synthEventsPending_ c) (clipboard c) s.
Definition set_callback (b : bool) c : Channel :=
  mkChannel b (synthEventsPending_ c) (clipboard c) (desktop c).
Definition on_desktop (f : S -> S) c : Channel := set_desktop (f (desktop c)) c.

(** An answer and the desktop after it. *)
Definition ask {A} (f : S -> A * S) c : A * Channel :=
  let '(a, s) := f (desktop c) in (a, set_desktop s c).

Definition OnSynthDispatched (delta : Z) c : Channel :=
  if g_synthCounterCallback c then set_pending (i32 (synthEventsPending_ c + delta)) c else c.

(** One of the process's own events passes its hook. *)
Definition DecrementSynthEvents c : Channel :=
  if 0 <? synthEventsPending_ c then set_pending (i32 (synthEventsPending_ c - 1)) c else c.
Definition ResetSynthEvents c : Channel := set_pending 0 c.

(** The answer, and how many of the events the system took. *)
Definition TrackedSendInput (events : list INPUT) c : bool * nat * Channel :=
  let count := length events in
  let c := if (0 <? count)%nat then OnSynthDispatched (Z.of_nat count) c else c in
  let '(sent, seen, s) := SendInput events (desktop c) in
  let c := Nat.iter seen DecrementSynthEvents (set_desktop s c) in
  let c := if (sent <? count)%nat then OnSynthDispatched (- Z.of_nat (count - sent)) c else c in
  ((sent =? count)%nat, sent, c).

End Channel.

Arguments Channel : clear implicits.

(** ** The injectors (src/src/app/output)

    What deletes characters before the caret of the application and types others:
    one batch of synthetic keys, two batches with a pause, messages to an edit
    control, or the clipboard; and the choice among them for a window. *)

Open Scope list_scope.

Definition kVKeyExtraInfo : Z := 0x4E4B.

Definition IsExtendedKey (vk : Z) : bool :=
  (vk =w VK_RCONTROL) || (vk =w VK_RMENU) || (vk =w VK_LWIN) || (vk =w VK_RWIN).

(** The narrow no-break space typed to dismiss a suggestion. *)
Definition bait : wchar := 0x202F.

Definition ShouldEmitBait (needsBaitCharPrefix : bool) (bsCount : nat) (text : wstring)
    (suggestKeepChars : bool) : bool :=
  if negb needsBaitCharPrefix || (bsCount =? 0)%nat then false
  else if suggestKeepChars && (text == []) then false
  else true.

Section Events.
Context {KL : KeyboardLayout}.

(** MakeModifierEvent, and the MakeKeyEvent of each injector. *)
Definition MakeKeyEvent (vk : Z) (keyup : bool) : INPUT :=
  let flags := if keyup then KEYEVENTF_KEYUP else 0 in
  mkInput vk (MapVirtualKeyW vk)
    (if IsExtendedKey vk then Z.lor flags KEYEVENTF_EXTENDEDKEY else flags) kVKeyExtraInfo.
Definition MakeUnicodeChar (ch : wchar) (keyup : bool) : INPUT :=
  mkInput 0 ch (Z.lor KEYEVENTF_UNICODE (if keyup then KEYEVENTF_KEYUP else 0)) kVKeyExtraInfo.

Definition tap_key (vk : Z) : list INPUT := [MakeKeyEvent vk false; MakeKeyEvent vk true].
Definition tap_char (ch : wchar) : list INPUT := [MakeUnicodeChar ch false; MakeUnicodeChar ch true].
Definition release (vks : list Z) : list INPUT := (fun vk => MakeKeyEvent vk true) <$> vks.
Definition press (vks : list Z) : list INPUT := (fun vk => MakeKeyEvent vk false) <$> vks.

(** *** The modifiers held *)

Section Held.
Context {S : Type} {D : Desktop S}.

(** The side or sides down of a modifier that is down; the left one if neither is. *)
Definition held_sides (generic left right : Z) (s : S) : list Z :=
  if GetAsyncKeyState generic s then
    let hasLeft := GetAsyncKeyState left s in
    let hasRight := GetAsyncKeyState right s in
    (if hasLeft then [left] else []) ++ (if hasRight then [right] else []) ++
    (if negb hasLeft && negb hasRight then [left] else [])
  else [].

Definition QueryHeldModifiers (bsCount : nat) (text : wstring) (hasReinject : bool) (s : S)
    : list Z :=
  let hasTextOrReinject := negb (text == []) || hasReinject in
  if (bsCount =? 0)%nat && negb hasTextOrReinject then []
  else
    (if (0 <? bsCount)%nat then held_sides VK_SHIFT VK_LSHIFT VK_RSHIFT s else []) ++
    (if (0 <? bsCount)%nat || hasTextOrReinject then
       held_sides VK_CONTROL VK_LCONTROL VK_RCONTROL s ++
       held_sides VK_MENU VK_LMENU VK_RMENU s ++
       (if GetAsyncKeyState VK_LWIN s then [VK_LWIN] else []) ++
       (if GetAsyncKeyState VK_RWIN s then [VK_RWIN] else [])
     else []).

Implicit Types c : Channel S.

(** Of the modifiers released, those the system did not come to press again. *)
Definition to_restore (held : list Z) (sent releaseStart restoreStart : nat) : list Z :=
  (fun p => p.2) <$>
    filter (fun p => releaseStart + p.1 < sent /\ sent <= restoreStart + p.1)%nat
      (imap (fun k vk => (k, vk)) held).

Definition RestoreModifiersAfterPartialSend (held : list Z) (sent releaseStart restoreStart : nat) c
    : Channel S :=
  let restore := press (to_restore held sent releaseStart restoreStart) in
  if (0 <? length restore)%nat then (TrackedSendInput restore c).2 else c.

Definition SendKey (vkCode : Z) c : Channel S := (TrackedSendInput (tap_key vkCode) c).2.

(** *** One batch (Win32SendInputInjector.cpp) *)

Definition kMaxBatch : nat := 256.

(** Events pushed in turn into a buffer of [kMaxBatch]; [None]: one does not fit. *)
Definition push_events (evs : list INPUT) (buf : list INPUT) : option (list INPUT) :=
  if (kMaxBatch <? length buf + length evs)%nat then None else Some (buf ++ evs).
Fixpoint push_all (groups : list (list INPUT)) (buf : list INPUT) : option (list INPUT) :=
  match groups with
  | [] => Some buf
  | evs :: groups => buf ← push_events evs buf; push_all groups buf
  end.

Definition reinject_key (reinjectVk : Z) : list INPUT :=
  if reinjectVk <>w 0 then [MakeKeyEvent reinjectVk false] else [].

Definition backspaces (emitBait : bool) (bsCount : nat) (buf : list INPUT) : option (list INPUT) :=
  buf ← (if emitBait then push_events (tap_char bait) buf else Some buf);
  push_all (replicate (if emitBait then bsCount + 1 else bsCount) (tap_key VK_BACK)) buf.

Definition Win32_batch (held : list Z) (emitBait : bool) (bsCount : nat) (text : wstring)
    (reinjectVk : Z) : option (list INPUT) :=
  buf ← push_all ((fun ev => [ev]) <$> release held) (reinject_key reinjectVk);
  buf ← backspaces emitBait bsCount buf;
  buf ← push_all (tap_char <$> text) buf;
  push_all ((fun ev => [ev]) <$> press held) buf.

Definition Win32_Replace (needsBaitCharPrefix_ suggestKeepChars_ : bool) (bsCount : nat)
    (text : wstring) (reinjectVk : Z) c : bool * Channel S :=
  let heldMods := QueryHeldModifiers bsCount text (reinjectVk <>w 0) (desktop c) in
  let emitBait := ShouldEmitBait needsBaitCharPrefix_ bsCount text suggestKeepChars_ in
  match Win32_batch heldMods emitBait bsCount text reinjectVk with
  | None => (false, c)
  | Some buf =>
      if (length buf =? 0)%nat then (true, c)
      else
        let '(delivered, sent, c) := TrackedSendInput buf c in
        let c :=
          if negb delivered && (0 <? length heldMods)%nat && (0 <? sent)%nat
          then RestoreModifiersAfterPartialSend heldMods sent
                 (length (reinject_key reinjectVk)) (length buf - length heldMods) c
          else c in
        (delivered, c)
  end.

(** *** Two batches (SplitDispatchInjector.cpp) *)

Definition Split_batch (held : list Z) (emitBait : bool) (bsCount : nat) (reinjectVk : Z)
    : option (list INPUT) :=
  buf ← push_all ((fun ev => [ev]) <$> release held) (reinject_key reinjectVk);
  buf ← backspaces emitBait bsCount buf;
  push_all ((fun ev => [ev]) <$> press held) buf.

Definition kCharBuffer : nat := kMaxBatch + 16.

(** The characters, in a buffer the modifiers fit in without a test. *)
Fixpoint push_chars (text : wstring) (buf : list INPUT) : option (list INPUT) :=
  match text with
  | [] => Some buf
  | ch :: text => if (kCharBuffer <? length buf + 2)%nat then None
                  else push_chars text (buf ++ tap_char ch)
  end.

Definition Split_chars (text : wstring) c : bool * Channel S :=
  let charMods := QueryHeldModifiers 0 text false (desktop c) in
  match push_chars text (release charMods) with
  | None => (false, c)
  | Some buf =>
      let restoreStart := length buf in
      let buf := buf ++ press charMods in
      if (length buf =? 0)%nat then (true, c)
      else
        let '(delivered, sent, c) := TrackedSendInput buf c in
        if delivered then (true, c)
        else (false, RestoreModifiersAfterPartialSend charMods sent 0 restoreStart c)
  end.

Definition Split_Replace (sleepMs_ : Z) (needsBaitCharPrefix_ suggestKeepChars_ : bool)
    (bsCount : nat) (text : wstring) (reinjectVk : Z) c : bool * Channel S :=
  if (kMaxBatch / 2 <? length text)%nat then (false, c)
  else
    let heldMods := QueryHeldModifiers bsCount [] (reinjectVk <>w 0) (desktop c) in
    let emitBait := ShouldEmitBait needsBaitCharPrefix_ bsCount text suggestKeepChars_ in
    match Split_batch heldMods emitBait bsCount reinjectVk with
    | None => (false, c)
    | Some buf =>
        let '(delivered, c) :=
          if (0 <? length buf)%nat then
            let '(delivered, sent, c) := TrackedSendInput buf c in
            (delivered,
             if negb delivered && (0 <? length heldMods)%nat && (0 <? sent)%nat
             then RestoreModifiersAfterPartialSend heldMods sent
                    (length (reinject_key reinjectVk)) (length buf - length heldMods) c
             else c)
          else (true, c) in
        if negb delivered then (false, c)
        else if negb (text == []) then
          Split_chars text
            (if (0 <? if emitBait then bsCount + 1 else bsCount)%nat
             then on_desktop (Sleep sleepMs_) c else c)
        else (true, c)
    end.

(** *** Messages to an edit control (RichEditEmReplaceSelInjector.cpp) *)

Definition same_ci (a b : wstring) : bool := (towlower <$> a) == (towlower <$> b).
Definition starts_ci (prefix s : wstring) : bool := same_ci (take (length prefix) s) prefix.

Definition IsEditCompatibleClass (cls : wstring) : bool :=
  if cls == [] then false
  else starts_ci (wstr "ThunderRT6TextBox") cls || starts_ci (wstr "ThunderRT6RichText") cls ||
       same_ci cls (wstr "Edit") || starts_ci (wstr "RichEdit") cls.

(** A text handed over as a C string. *)
Definition c_str (text : wstring) : wstring :=
  match list_find (fun ch => ch = 0) text with Some (i, _) => take i text | None => text end.

Definition redraw_again (suppressed : bool) (hwnd : Z) c : Channel S :=
  if suppressed
  then on_desktop (InvalidateRect hwnd) (ask (WM_SETREDRAW hwnd true) c).2
  else c.

(** The text replaces [backspaceCount] characters before the caret, by messages:
    the same in both files. *)
Definition ReplaceByMessages (hwnd : Z) (backspaceCount : nat) (text : wstring) c
    : bool * Channel S :=
  let '(selection, c) :=
    if (0 <? backspaceCount)%nat then
      match ask (EM_GETSEL hwnd) c with
      | (None, c) => (None, c)
      | (Some selectionEnd, c) =>
          if selectionEnd <? u32 (Z.of_nat backspaceCount) then (None, c)
          else (Some (u32 (selectionEnd - u32 (Z.of_nat backspaceCount)), selectionEnd), c)
      end
    else (Some (0, 0), c) in
  match selection with
  | None => (false, c)
  | Some (newSelectionStart, selectionEnd) =>
      let '(redrawSuppressed, c) :=
        if (0 <? backspaceCount)%nat then ask (WM_SETREDRAW hwnd false) c else (false, c) in
      let '(selected, c) :=
        if (0 <? backspaceCount)%nat then ask (EM_SETSEL hwnd newSelectionStart selectionEnd) c
        else (true, c) in
      if negb selected then (false, redraw_again redrawSuppressed hwnd c)
      else
        let '(replaceOk, c) := ask (EM_REPLACESEL hwnd (c_str text)) c in
        (replaceOk, redraw_again redrawSuppressed hwnd c)
  end.

Definition RichEdit_Replace (forced_ : bool) (backspaceCount : nat) (text : wstring)
    (reinjectVk : Z) c : bool * Channel S :=
  if (backspaceCount =? 0)%nat && (text == []) && (reinjectVk =w 0) then (true, c)
  else
    let targetWindow := ResolveFocusedHwnd (desktop c) in
    let fallback := Win32_Replace false false backspaceCount text reinjectVk c in
    if targetWindow =w 0 then fallback
    else
      let className := GetClassNameW targetWindow (desktop c) in
      if className == [] then fallback
      else if negb forced_ && negb (IsEditCompatibleClass className) then fallback
      else
        let backspaceCount :=
          if (reinjectVk <>w 0) && (0 <? backspaceCount)%nat
          then (backspaceCount - 1)%nat else backspaceCount in
        ReplaceByMessages targetWindow backspaceCount text c.

End Held.
End Events.

(** ** The clipboard injector, and the choice of an injector

    Deletions as keys and the text as a paste, the user's clipboard put back later
    (src/src/app/output/ClipboardInjector.cpp); the object the dispatcher holds,
    with its traits, and the factory that picks it (OutputInjectorFactory.cpp,
    IOutputInjector.h). *)

Section Clipboard.
Context {KL : KeyboardLayout} {S : Type} {D : Desktop S}.
Implicit Types c : Channel S.

(** A key event as this file writes it, without the flag of extended keys. *)
Definition plain_key (vk : Z) (keyup : bool) : INPUT :=
  mkInput vk (MapVirtualKeyW vk) (if keyup then KEYEVENTF_KEYUP else 0) kVKeyExtraInfo.
Definition plain_tap (vk : Z) : list INPUT := [plain_key vk false; plain_key vk true].

Definition MakeReinjectDown (reinjectVk : Z) : list INPUT :=
  if reinjectVk <>w 0 then [plain_key reinjectVk false] else [].

Definition set_original (text : wstring) (has : bool) (m : ClipboardMemory) : ClipboardMemory :=
  mkClipboardMemory text has (g_restoreTimerId m) (g_lastWrittenSeq m).
Definition set_timer (id : Z) (m : ClipboardMemory) : ClipboardMemory :=
  mkClipboardMemory (g_originalClipText m) (g_hasOriginalClip m) id (g_lastWrittenSeq m).
Definition set_lastWrittenSeq (n : Z) (m : ClipboardMemory) : ClipboardMemory :=
  mkClipboardMemory (g_originalClipText m) (g_hasOriginalClip m) (g_restoreTimerId m) n.
Definition on_memory (f : ClipboardMemory -> ClipboardMemory) c : Channel S :=
  set_clipboard (f (clipboard c)) c.

(** The text put into the open clipboard, if there is memory for it. *)
Definition put_text (text : wstring) c : Channel S :=
  let '(hMem, c) := ask (GlobalAlloc ((length text + 1) * 2)) c in
  if hMem then on_desktop (SetClipboardText text) c else c.

Definition RestoreOriginalClipboardIfSeqMatches (ourSeq : Z) c : Channel S :=
  if GetClipboardSequenceNumber (desktop c) <>w ourSeq then c
  else
    let '(opened, c) := ask OpenClipboard c in
    if negb opened then c
    else if GetClipboardSequenceNumber (desktop c) <>w ourSeq then on_desktop CloseClipboard c
    else
      let c := on_desktop EmptyClipboard c in
      let original := g_originalClipText (clipboard c) in
      on_desktop CloseClipboard (if negb (original == []) then put_text original c else c).

(** Put back, and forgotten. *)
Definition restore_and_forget c : Channel S :=
  on_memory (set_original [] false)
    (RestoreOriginalClipboardIfSeqMatches (g_lastWrittenSeq (clipboard c)) c).

Definition RestoreTimerProc (idEvent : Z) c : Channel S :=
  if idEvent <>w g_restoreTimerId (clipboard c) then c
  else
    let c := on_desktop (KillTimer (g_restoreTimerId (clipboard c))) c in
    let c := on_memory (set_timer 0) c in
    if negb (g_hasOriginalClip (clipboard c)) then c else restore_and_forget c.

Definition CancelRestoreTimer c : Channel S :=
  if g_restoreTimerId (clipboard c) <>w 0
  then on_memory (set_timer 0) (on_desktop (KillTimer (g_restoreTimerId (clipboard c))) c)
  else c.

Definition SaveOriginal c : Channel S :=
  let clipboardTouchedSinceOurWrite :=
    GetClipboardSequenceNumber (desktop c) <>w g_lastWrittenSeq (clipboard c) in
  if negb (g_hasOriginalClip (clipboard c)) || clipboardTouchedSinceOurWrite then
    let c := on_memory (set_original [] (g_hasOriginalClip (clipboard c))) c in
    let '(opened, c) := ask OpenClipboard c in
    let c :=
      if opened then
        on_desktop CloseClipboard
          match GetClipboardText (desktop c) with
          | Some text => on_memory (set_original (c_str text) (g_hasOriginalClip (clipboard c))) c
          | None => c
          end
      else c in
    on_memory (set_original (g_originalClipText (clipboard c)) true) c
  else c.

Definition WriteOurText (text : wstring) c : Channel S :=
  let '(opened, c) := ask OpenClipboard c in
  if opened then
    let c := put_text text (on_desktop EmptyClipboard c) in
    let c := on_desktop CloseClipboard (on_desktop ExcludeFromHistory c) in
    on_memory (set_lastWrittenSeq (GetClipboardSequenceNumber (desktop c))) c
  else c.

Definition V : Z := L "V".
Definition paste_keys : list INPUT :=
  [plain_key VK_CONTROL false; plain_key V false; plain_key V true; plain_key VK_CONTROL true].

Definition ScheduleRestore c : Channel S :=
  let '(id, c) := ask (SetTimer 200) c in
  let c := on_memory (set_timer id) c in
  if (id =w 0) && g_hasOriginalClip (clipboard c) then restore_and_forget c else c.

Definition Clipboard_Replace (bsCount : nat) (text : wstring) (reinjectVk : Z) c
    : bool * Channel S :=
  let keys := MakeReinjectDown reinjectVk ++ concat (replicate bsCount (plain_tap VK_BACK)) in
  if (bsCount =? 0)%nat && (text == []) && (reinjectVk =w 0) then (true, c)
  else if text == [] then
    let '(result, _, c) := TrackedSendInput keys c in (result, c)
  else
    let c := WriteOurText text (SaveOriginal (CancelRestoreTimer c)) in
    let '(result, _, c) := TrackedSendInput (keys ++ paste_keys) c in
    (result, ScheduleRestore (on_desktop (Sleep 15) c)).

(** ** The injector held by the dispatcher *)

Inductive InjectorKind :=
  | Win32SendInputInjector (needsBaitCharPrefix_ : bool)
  | SplitDispatchInjector (sleepMs_ : Z)
      (needsBaitCharPrefix_ hasMultiProcessRenderer_ requiresSyntheticAlphaLockstep_ : bool)
  | RichEditEmReplaceSelInjector (forced_ : bool)
  | ClipboardInjector.

Record IOutputInjector := mkInjector { kind : InjectorKind; suggestKeepChars_ : bool }.
Implicit Types i : IOutputInjector.

Definition NewSplitDispatchInjector (sleepMsBetweenBatches : Z)
    (needsBaitCharPrefix hasMultiProcessRenderer requiresSyntheticAlphaLockstep : bool)
    : InjectorKind :=
  SplitDispatchInjector sleepMsBetweenBatches needsBaitCharPrefix hasMultiProcessRenderer
    (hasMultiProcessRenderer || requiresSyntheticAlphaLockstep).

Definition Replace i (bsCount : nat) (text : wstring) (reinjectVk : Z) c : bool * Channel S :=
  match kind i with
  | Win32SendInputInjector needsBait =>
      Win32_Replace needsBait (suggestKeepChars_ i) bsCount text reinjectVk c
  | SplitDispatchInjector sleepMs needsBait _ _ =>
      Split_Replace sleepMs needsBait (suggestKeepChars_ i) bsCount text reinjectVk c
  | RichEditEmReplaceSelInjector forced => RichEdit_Replace forced bsCount text reinjectVk c
  | ClipboardInjector => Clipboard_Replace bsCount text reinjectVk c
  end.

Definition Injector_SendKey i (vkCode : Z) c : Channel S :=
  match kind i with
  | ClipboardInjector => (TrackedSendInput (plain_tap vkCode) c).2
  | _ => SendKey vkCode c
  end.

Definition SettleBudget i : Z :=
  match kind i with
  | Win32SendInputInjector _ => 30
  | SplitDispatchInjector _ _ _ _ => 100
  | RichEditEmReplaceSelInjector _ => 0
  | ClipboardInjector => 150
  end.
Definition IsMessageBasedReplace i : bool :=
  match kind i with RichEditEmReplaceSelInjector _ => true | _ => false end.
Definition IsForced i : bool :=
  match kind i with RichEditEmReplaceSelInjector forced => forced | _ => false end.
Definition HasMultiProcessRenderer i : bool :=
  match kind i with SplitDispatchInjector _ _ multi _ => multi | _ => false end.
Definition RequiresSyntheticAlphaLockstep i : bool :=
  match kind i with SplitDispatchInjector _ _ _ lockstep => lockstep | _ => false end.
Definition NeedsBaitCharPrefix i : bool :=
  match kind i with
  | Win32SendInputInjector bait | SplitDispatchInjector _ bait _ _ => bait
  | _ => false
  end.

(** ** The factory *)

Record WindowClassification := mkWindow {
  isRichEditD2DPT : bool; isElectron : bool; isConsole : bool; isChromium : bool;
  useClipboard : bool; forcedSplitSleepMs : Z; forceEmReplaceSel : bool
}.
Definition default_window : WindowClassification := mkWindow false false false false false 0 false.

Definition kElectronSleepMs : Z := 6.
Definition kConsoleSleepMs : Z := 5.

Definition Create (w : WindowClassification) : IOutputInjector :=
  mkInjector
    (if forceEmReplaceSel w then RichEditEmReplaceSelInjector true
     else if useClipboard w then ClipboardInjector
     else if 0 <? forcedSplitSleepMs w then
       NewSplitDispatchInjector (forcedSplitSleepMs w) (isChromium w) (isElectron w)
         (isElectron w || isConsole w)
     else if isRichEditD2DPT w then RichEditEmReplaceSelInjector false
     else if isElectron w then NewSplitDispatchInjector kElectronSleepMs (isChromium w) true false
     else if isConsole w then NewSplitDispatchInjector kConsoleSleepMs false false true
     else Win32SendInputInjector (isChromium w))
    false.

End Clipboard.
