(* ===== verification/OutputFacts.v ===== *)
(** * What the injectors do to an application

    The application and the system behind [Desktop] are described by what one event
    does: [Application] states it for the keys and characters the injectors send.
    A replacement that is reported done is then an edit of the text before the caret,
    whatever modifiers the user holds; the modifiers come back, and so does the
    user's clipboard.  The system may cut any batch short. *)

From stdpp Require Import sets.
From stdpp Require Import relations.
From S2P Require Import Prelude Injector.
Open Scope Z_scope.
Open Scope list_scope.

Definition shifts : list Z := [VK_LSHIFT; VK_RSHIFT].
(** With one of these down a character is a command. *)
Definition commands : list Z :=
  [VK_LCONTROL; VK_RCONTROL; VK_LMENU; VK_RMENU; VK_LWIN; VK_RWIN].
Definition modifiers : list Z := shifts ++ commands.
Lemma commands_modifiers : commands ⊆ modifiers.
Proof. intros v Hv. unfold modifiers. apply elem_of_app. by right. Qed.

Class Application (S : Type) `{KeyboardLayout} `{Desktop S} := {
  content : S -> wstring;                (* the text before the caret *)
  input : INPUT -> S -> S;
  responsive : S -> Prop;                (* handles keys at the caret, nothing selected *)
  willing : S -> Prop;                   (* the system takes whole batches *)
  (** The system takes some of the events, in order. *)
  SendInput_prefix evs s :
    let '(sent, _, s') := SendInput evs s in
    (sent <= length evs)%nat /\ s' = foldl (flip input) s (take sent evs);
  down_shift s : GetAsyncKeyState VK_SHIFT s =
    GetAsyncKeyState VK_LSHIFT s || GetAsyncKeyState VK_RSHIFT s;
  down_control s : GetAsyncKeyState VK_CONTROL s =
    GetAsyncKeyState VK_LCONTROL s || GetAsyncKeyState VK_RCONTROL s;
  down_menu s : GetAsyncKeyState VK_MENU s =
    GetAsyncKeyState VK_LMENU s || GetAsyncKeyState VK_RMENU s;
  input_modifier vk up s : vk ∈ modifiers ->
    content (input (MakeKeyEvent vk up) s) = content s /\
    forall v, v ∈ modifiers -> GetAsyncKeyState v (input (MakeKeyEvent vk up) s) =
      if v =w vk then negb up else GetAsyncKeyState v s;
  input_back s : responsive s -> (forall v, v ∈ modifiers -> GetAsyncKeyState v s = false) ->
    content (input (MakeKeyEvent VK_BACK false) s) = edit 1 [] (content s);
  input_back_up s : content (input (MakeKeyEvent VK_BACK true) s) = content s;
  input_back_keys up v s : v ∈ modifiers ->
    GetAsyncKeyState v (input (MakeKeyEvent VK_BACK up) s) = GetAsyncKeyState v s;
  input_char ch s : responsive s -> (forall v, v ∈ commands -> GetAsyncKeyState v s = false) ->
    content (input (MakeUnicodeChar ch false) s) = content s ++ [ch];
  input_char_up ch s : content (input (MakeUnicodeChar ch true) s) = content s;
  input_char_keys ch up v s : v ∈ modifiers ->
    GetAsyncKeyState v (input (MakeUnicodeChar ch up) s) = GetAsyncKeyState v s;
  Sleep_content ms s : content (Sleep ms s) = content s;
  Sleep_keys ms v s : v ∈ modifiers -> GetAsyncKeyState v (Sleep ms s) = GetAsyncKeyState v s;
  responsive_input ev s : responsive s -> responsive (input ev s);
  responsive_Sleep ms s : responsive s -> responsive (Sleep ms s);
  willing_takes evs s : willing s -> (SendInput evs s).1.1 = length evs;
  willing_input ev s : willing s -> willing (input ev s);
  willing_Sleep ms s : willing s -> willing (Sleep ms s)
}.

Section Output.
Context {S : Type} {KL : KeyboardLayout} {D : Desktop S} {A : Application S}.
Implicit Types (s : S) (c : Channel S) (i : IOutputInjector).

Definition run (evs : list INPUT) s : S := foldl (flip input) s evs.
Lemma run_app a b s : run (a ++ b) s = run b (run a s).
Proof. apply foldl_app. Qed.

Definition same_keys s s' : Prop :=
  forall v, v ∈ modifiers -> GetAsyncKeyState v s' = GetAsyncKeyState v s.
#[export] Instance same_keys_equiv : Equivalence same_keys.
Proof.
  split; unfold same_keys.
  - done.
  - intros a b H v Hv. by rewrite H.
  - intros a b d H1 H2 v Hv. by rewrite H2, H1.
Qed.

Definition all_up (vks : list Z) s : Prop := forall v, v ∈ vks -> GetAsyncKeyState v s = false.
#[export] Instance all_up_proper vks : vks ⊆ modifiers -> Proper (same_keys ==> iff) (all_up vks).
Proof.
  intros Hv a b H. unfold all_up.
  split; intros Hu v Hin; specialize (H v (Hv _ Hin)); rewrite <- (Hu v Hin); by rewrite H.
Qed.

(** *** What a group of events does *)

Lemma responsive_run evs s : responsive s -> responsive (run evs s).
Proof.
  revert s. induction evs as [|ev evs IH]; intros s Hs; [done|]. apply IH, responsive_input, Hs.
Qed.

Lemma willing_run evs s : willing s -> willing (run evs s).
Proof.
  revert s. induction evs as [|ev evs IH]; intros s Hs; [done|]. apply IH, willing_input, Hs.
Qed.

Lemma run_modifiers up vks s :
  vks ⊆ modifiers ->
  let s' := run ((fun vk => MakeKeyEvent vk up) <$> vks) s in
  content s' = content s /\
  forall v, v ∈ modifiers -> GetAsyncKeyState v s' =
    if bool_decide (v ∈ vks) then negb up else GetAsyncKeyState v s.
Proof.
  revert s. induction vks as [|vk vks IH]; intros s Hm; [done|].
  cbn [fmap list_fmap run foldl].
  destruct (input_modifier vk up s) as [Hc Hk]; [apply Hm, list_elem_of_here|].
  destruct (IH (input (MakeKeyEvent vk up) s)) as [Hc' Hk'];
    [intros v Hv; apply Hm; by apply list_elem_of_further|].
  split; [by rewrite <- Hc|]. intros v Hv. etrans; [by apply Hk'|]. rewrite Hk by done.
  destruct (Z.eqb_spec v vk) as [->|Hne].
  - rewrite (bool_decide_eq_true_2 (vk ∈ vk :: vks)) by apply list_elem_of_here. by case_match.
  - assert (Hiff : v ∈ vk :: vks <-> v ∈ vks) by (rewrite elem_of_cons; tauto).
    by rewrite (bool_decide_ext _ _ Hiff).
Qed.

Lemma keys_released vks s v :
  vks ⊆ modifiers -> v ∈ modifiers -> GetAsyncKeyState v (run (release vks) s) =
    if bool_decide (v ∈ vks) then false else GetAsyncKeyState v s.
Proof. intros Hm Hv. by apply (run_modifiers true vks s Hm). Qed.
Lemma keys_pressed vks s v :
  vks ⊆ modifiers -> v ∈ modifiers -> GetAsyncKeyState v (run (press vks) s) =
    if bool_decide (v ∈ vks) then true else GetAsyncKeyState v s.
Proof. intros Hm Hv. by apply (run_modifiers false vks s Hm). Qed.

(** A key or character that leaves the modifiers alone, [n] times. *)
Lemma run_backs n s :
  responsive s -> all_up modifiers s ->
  let s' := run (concat (replicate n (tap_key VK_BACK))) s in
  content s' = edit n [] (content s) /\ same_keys s s'.
Proof.
  revert s. induction n as [|n IH]; intros s Hr Hu; cbn [replicate concat].
  { split; [by rewrite edit_type, app_nil_r|reflexivity]. }
  rewrite run_app. set (s1 := run (tap_key VK_BACK) s).
  assert (H1 : content s1 = edit 1 [] (content s)) by (unfold s1; cbn; rewrite input_back_up; by apply input_back).
  assert (K1 : same_keys s s1) by (intros v Hv; unfold s1; cbn; by rewrite !input_back_keys).
  destruct (IH s1) as [Hc Hk].
  - by apply responsive_run.
  - by apply (all_up_proper modifiers (reflexivity _) s s1).
  - split; [by rewrite Hc, H1, edit_edit|by transitivity s1].
Qed.

Lemma run_chars text s :
  responsive s -> all_up commands s ->
  let s' := run (concat (tap_char <$> text)) s in
  content s' = content s ++ text /\ same_keys s s'.
Proof.
  revert s. induction text as [|ch text IH]; intros s Hr Hu; cbn [fmap list_fmap concat].
  { rewrite app_nil_r. split; [done|reflexivity]. }
  rewrite run_app. set (s1 := run (tap_char ch) s).
  assert (H1 : content s1 = content s ++ [ch])
    by (unfold s1; cbn; rewrite input_char_up; by apply input_char).
  assert (K1 : same_keys s s1) by (intros v Hv; unfold s1; cbn; by rewrite !input_char_keys).
  destruct (IH s1) as [Hc Hk].
  - by apply responsive_run.
  - apply (all_up_proper commands) with s; [apply commands_modifiers| |done]. by symmetry.
  - split; [by rewrite Hc, H1, <- app_assoc|by transitivity s1].
Qed.

(** *** The modifiers held *)

Lemma held_one_elem k s v :
  v ∈ (if GetAsyncKeyState k s then [k] else []) <-> v = k /\ GetAsyncKeyState v s = true.
Proof.
  destruct (GetAsyncKeyState k s) eqn:Hk; rewrite ?list_elem_of_singleton, ?elem_of_nil;
    split; intros H; try done; [by subst|by destruct H|destruct H; congruence].
Qed.

Lemma held_sides_elem generic l r s v :
  GetAsyncKeyState generic s = GetAsyncKeyState l s || GetAsyncKeyState r s ->
  v ∈ held_sides generic l r s <-> (v = l \/ v = r) /\ GetAsyncKeyState v s = true.
Proof.
  intros Hg. transitivity (v ∈ (if GetAsyncKeyState l s then [l] else []) \/
                           v ∈ (if GetAsyncKeyState r s then [r] else [])).
  - unfold held_sides. rewrite Hg.
    destruct (GetAsyncKeyState l s), (GetAsyncKeyState r s); cbn;
      rewrite ?elem_of_cons, ?elem_of_nil; tauto.
  - rewrite !held_one_elem. tauto.
Qed.

Lemma QueryHeldModifiers_elem n text reinject s v :
  (0 < n)%nat ->
  v ∈ QueryHeldModifiers n text reinject s <-> v ∈ modifiers /\ GetAsyncKeyState v s = true.
Proof.
  intros Hn. unfold QueryHeldModifiers.
  rewrite (proj2 (Nat.eqb_neq n 0)), (proj2 (Nat.ltb_lt 0 n)) by lia. cbn [andb orb].
  rewrite !elem_of_app, !held_one_elem, (held_sides_elem _ _ _ s v (down_shift s)),
    (held_sides_elem _ _ _ s v (down_control s)), (held_sides_elem _ _ _ s v (down_menu s)).
  unfold modifiers, shifts, commands. cbn [app]. rewrite !elem_of_cons, elem_of_nil. tauto.
Qed.

Lemma QueryHeldModifiers_text text reinject s v :
  negb (text == []) || reinject = true ->
  v ∈ QueryHeldModifiers 0 text reinject s <-> v ∈ commands /\ GetAsyncKeyState v s = true.
Proof.
  intros Ht. unfold QueryHeldModifiers. rewrite Ht. cbn [Nat.eqb Nat.ltb Nat.leb andb orb negb app].
  rewrite !elem_of_app, !held_one_elem, (held_sides_elem _ _ _ s v (down_control s)),
    (held_sides_elem _ _ _ s v (down_menu s)).
  unfold commands. rewrite !elem_of_cons, elem_of_nil. tauto.
Qed.

Lemma QueryHeldModifiers_modifiers n text reinject s :
  QueryHeldModifiers n text reinject s ⊆ modifiers.
Proof.
  intros v Hv. destruct n as [|n].
  - destruct (negb (text == []) || reinject) eqn:Ht.
    + apply QueryHeldModifiers_text in Hv as [Hv _]; [|done]. by apply commands_modifiers.
    + unfold QueryHeldModifiers in Hv. rewrite Ht in Hv. cbn in Hv. by apply elem_of_nil in Hv.
  - apply QueryHeldModifiers_elem in Hv as [Hv _]; [done|lia].
Qed.

(** *** The batches *)

Lemma push_all_app g g' buf : push_all (g ++ g') buf = (buf' ← push_all g buf; push_all g' buf').
Proof.
  revert buf. induction g as [|e g IH]; intros buf; [done|].
  cbn [app push_all]. destruct (push_events e buf); cbn; [apply IH|done].
Qed.

(** A batch is refused exactly when it is too long. *)
Lemma push_all_spec g buf :
  (length buf <= kMaxBatch)%nat ->
  push_all g buf =
  if (kMaxBatch <? length (buf ++ concat g))%nat then None else Some (buf ++ concat g).
Proof.
  revert buf. induction g as [|e g IH]; intros buf Hb; cbn [push_all concat].
  { rewrite app_nil_r. by rewrite (proj2 (Nat.ltb_ge _ _) Hb). }
  unfold push_events. destruct (Nat.ltb_spec kMaxBatch (length buf + length e)) as [Hl|Hl]; cbn [mbind option_bind].
  - rewrite (proj2 (Nat.ltb_lt _ _)); [done|]. rewrite !length_app. lia.
  - rewrite IH by (rewrite length_app; lia). by rewrite <- app_assoc.
Qed.

Definition deletion (emitBait : bool) (n : nat) : list (list INPUT) :=
  (if emitBait then [tap_char bait] else []) ++
  replicate (if emitBait then n + 1 else n)%nat (tap_key VK_BACK).

Lemma backspaces_push_all emitBait n buf : backspaces emitBait n buf = push_all (deletion emitBait n) buf.
Proof.
  unfold backspaces, deletion. destruct emitBait; [|done].
  cbn [app push_all]. by destruct (push_events _ buf).
Qed.

(** The events between the release and the return of the modifiers. *)
Definition between (held : list Z) (mid : list (list INPUT)) : list INPUT :=
  release held ++ concat mid ++ press held.
Definition spread (held : list Z) (mid : list (list INPUT)) : list (list INPUT) :=
  ((fun ev => [ev]) <$> release held) ++ mid ++ ((fun ev => [ev]) <$> press held).

Lemma concat_singletons {B} (l : list B) : concat ((fun x => [x]) <$> l) = l.
Proof. induction l as [|x l IH]; [done|]. cbn. by rewrite IH. Qed.
Lemma concat_spread held mid : concat (spread held mid) = between held mid.
Proof. unfold spread, between. by rewrite !concat_app, !concat_singletons. Qed.

Lemma Win32_batch_spec held emitBait n text vk :
  let evs := reinject_key vk ++ between held (deletion emitBait n ++ (tap_char <$> text)) in
  Win32_batch held emitBait n text vk = if (kMaxBatch <? length evs)%nat then None else Some evs.
Proof.
  intros evs. unfold evs. rewrite <- concat_spread, <- push_all_spec.
  - unfold Win32_batch, spread. rewrite !push_all_app.
    destruct (push_all _ (reinject_key vk)) as [l|]; cbn [mbind option_bind]; [|done].
    rewrite backspaces_push_all, push_all_app, (push_all_app (deletion emitBait n)).
    by destruct (push_all (deletion emitBait n) l).
  - unfold reinject_key, kMaxBatch. case_match; cbn; lia.
Qed.

Lemma Split_batch_spec held emitBait n vk :
  let evs := reinject_key vk ++ between held (deletion emitBait n) in
  Split_batch held emitBait n vk = if (kMaxBatch <? length evs)%nat then None else Some evs.
Proof.
  intros evs. unfold evs. rewrite <- concat_spread, <- push_all_spec.
  - unfold Split_batch, spread. rewrite !push_all_app.
    destruct (push_all _ (reinject_key vk)) as [l|]; cbn [mbind option_bind]; [|done].
    by rewrite backspaces_push_all, push_all_app.
  - unfold reinject_key, kMaxBatch. case_match; cbn; lia.
Qed.

Lemma length_tap_chars text : length (concat (tap_char <$> text)) = (2 * length text)%nat.
Proof. induction text as [|ch text IH]; [done|]. cbn in *. lia. Qed.
Lemma length_tap_keys vk n : length (concat (replicate n (tap_key vk))) = (2 * n)%nat.
Proof. induction n as [|n IH]; [done|]. cbn in *. lia. Qed.
Lemma length_deletion emitBait n :
  length (concat (deletion emitBait n)) = (2 * n + if emitBait then 4 else 0)%nat.
Proof.
  unfold deletion. rewrite concat_app, length_app, length_tap_keys. destruct emitBait; cbn; lia.
Qed.
Lemma length_between held mid :
  length (between held mid) = (2 * length held + length (concat mid))%nat.
Proof.
  unfold between, release, press. rewrite !length_app, !length_fmap. lia.
Qed.

(** *** What a batch does *)

(** Modifiers that were down are down again. *)
Lemma run_between held mid s :
  held ⊆ modifiers -> (forall v, v ∈ held -> GetAsyncKeyState v s = true) ->
  let s1 := run (release held) s in
  same_keys s1 (run (concat mid) s1) ->
  content (run (between held mid) s) = content (run (concat mid) s1) /\
  same_keys s (run (between held mid) s).
Proof.
  intros Hm Hd s1 Hk. unfold between. rewrite !run_app. fold s1.
  destruct (run_modifiers false held (run (concat mid) s1) Hm) as [Hc _].
  split; [exact Hc|]. intros v Hv. rewrite keys_pressed by done.
  case_bool_decide as Hin; [by rewrite Hd|]. rewrite Hk by done. unfold s1.
  by rewrite keys_released, bool_decide_eq_false_2.
Qed.

Lemma run_deletion emitBait n s :
  responsive s -> all_up modifiers s ->
  let s' := run (concat (deletion emitBait n)) s in
  content s' = edit n [] (content s) /\ same_keys s s'.
Proof.
  intros Hr Hu. unfold deletion. rewrite concat_app, run_app.
  destruct emitBait; [|by apply run_backs].
  destruct (run_chars [bait] s Hr) as [Hc Hk]; [intros v Hv; by apply Hu, commands_modifiers|].
  change (concat (tap_char <$> [bait])) with (concat [tap_char bait]) in Hc, Hk.
  set (s1 := run _ s) in *.
  destruct (run_backs (n + 1) s1) as [Hc' Hk'].
  - by apply responsive_run.
  - by apply (all_up_proper modifiers (reflexivity _) s s1).
  - split; [|by transitivity s1]. rewrite Hc', Hc, !edit_erase, length_app. cbn [length].
    rewrite take_app_le by lia. f_equal. lia.
Qed.

(** The modifiers held when the batch is built are those it lets go of. *)
Lemma released_up n text s :
  (0 < n)%nat \/ text <> [] ->
  let held := QueryHeldModifiers n text false s in
  let s1 := run (release held) s in
  content s1 = content s /\ (forall v, v ∈ held -> GetAsyncKeyState v s = true) /\
  all_up (if (0 <? n)%nat then modifiers else commands) s1.
Proof.
  intros Hnt held s1. assert (Hm : held ⊆ modifiers) by apply QueryHeldModifiers_modifiers.
  destruct (run_modifiers true held s Hm) as [Hc _]. split; [exact Hc|].
  assert (Hall : forall (vks : list Z), vks ⊆ modifiers ->
            (forall v, v ∈ held <-> v ∈ vks /\ GetAsyncKeyState v s = true) ->
            (forall v, v ∈ held -> GetAsyncKeyState v s = true) /\ all_up vks s1).
  { intros vks Hv Hiff. split; [intros v; rewrite Hiff; tauto|]. intros v Hin.
    unfold s1. rewrite keys_released by auto. case_bool_decide as Hh; [done|].
    rewrite Hiff in Hh. apply not_true_is_false. tauto. }
  destruct (Nat.ltb_spec 0 n) as [Hn|Hn]; apply Hall.
  - done.
  - intros v. by apply QueryHeldModifiers_elem.
  - apply commands_modifiers.
  - intros v. unfold held. replace n with 0%nat by lia. apply QueryHeldModifiers_text.
    destruct Hnt; [lia|]. by rewrite bool_decide_eq_false_2.
Qed.

Lemma no_bait needsBait text keep : ShouldEmitBait needsBait 0 text keep = false.
Proof. unfold ShouldEmitBait. by rewrite orb_true_r. Qed.

(** A whole batch is an edit of the text, with the keys as they were. *)
Lemma run_Win32 emitBait n text s :
  responsive s -> (emitBait = true -> 0 < n)%nat ->
  let held := QueryHeldModifiers n text false s in
  let s' := run (between held (deletion emitBait n ++ (tap_char <$> text))) s in
  content s' = edit n text (content s) /\ same_keys s s'.
Proof.
  intros Hr Hb held.
  destruct (decide ((0 < n)%nat \/ text <> [])) as [Hnt|Hnt].
  2: { assert (n = 0%nat /\ text = []) as [-> ->] by (destruct text; split; done || (exfalso; apply Hnt; auto; lia) || lia).
       destruct emitBait; [specialize (Hb eq_refl); lia|]. cbn.
       split; [by rewrite edit_type, app_nil_r|reflexivity]. }
  destruct (released_up n text s Hnt) as (Hc & Hd & Hu). fold held in Hc, Hd, Hu.
  set (s1 := run (release held) s) in *.
  set (s2 := run (concat (deletion emitBait n)) s1).
  assert (H2 : content s2 = edit n [] (content s1) /\ same_keys s1 s2).
  { unfold s2. destruct (Nat.ltb_spec 0 n) as [H0|H0].
    - apply run_deletion; [by apply responsive_run|done].
    - assert (n = 0%nat) as -> by lia. destruct emitBait; [specialize (Hb eq_refl); lia|].
      cbn. split; [by rewrite edit_type, app_nil_r|reflexivity]. }
  destruct H2 as [H2 K2].
  destruct (run_chars text s2) as [H3 K3].
  { by apply responsive_run, responsive_run. }
  { assert (Hu' : all_up commands s1)
      by (destruct (0 <? n)%nat; [intros v Hv; by apply Hu, commands_modifiers|done]).
    by apply (all_up_proper commands commands_modifiers s1 s2). }
  assert (Hrun : run (concat (deletion emitBait n ++ (tap_char <$> text))) s1 =
               run (concat (tap_char <$> text)) s2) by (by rewrite concat_app, run_app).
  destruct (run_between held (deletion emitBait n ++ (tap_char <$> text)) s) as [H4 K4];
    [apply QueryHeldModifiers_modifiers|done|fold s1; rewrite Hrun; by transitivity s2|].
  split; [|done]. rewrite H4. fold s1. by rewrite Hrun, H3, H2, Hc, <- edit_app.
Qed.

(** *** Sending *)

Lemma desktop_decrements k c : desktop (Nat.iter k DecrementSynthEvents c) = desktop c.
Proof.
  induction k as [|k IH]; [done|]. change (Nat.iter (Datatypes.S k) DecrementSynthEvents c)
    with (DecrementSynthEvents (Nat.iter k DecrementSynthEvents c)).
  rewrite <- IH. unfold DecrementSynthEvents at 1. by destruct (0 <? _).
Qed.

Lemma TrackedSendInput_desktop evs c :
  let '(ok, sent, c') := TrackedSendInput evs c in
  (sent <= length evs)%nat /\ sent = (SendInput evs (desktop c)).1.1 /\
  ok = (sent =? length evs)%nat /\ desktop c' = run (take sent evs) (desktop c).
Proof.
  unfold TrackedSendInput. set (c1 := if (0 <? _)%nat then _ else _).
  assert (H1 : desktop c1 = desktop c) by (unfold c1, OnSynthDispatched; by repeat case_match).
  rewrite H1. pose proof (SendInput_prefix evs (desktop c)) as Hp.
  destruct (SendInput evs (desktop c)) as [[sent seen] s]. destruct Hp as [Hl ->].
  split; [done|]. split; [done|]. split; [done|]. unfold OnSynthDispatched.
  by repeat case_match; cbn; rewrite desktop_decrements.
Qed.

(** What is reported sent is sent whole; a willing system sends all. *)
Lemma TrackedSendInput_whole evs c :
  let '(ok, _, c') := TrackedSendInput evs c in
  (ok = true -> desktop c' = run evs (desktop c)) /\ (willing (desktop c) -> ok = true).
Proof.
  pose proof (TrackedSendInput_desktop evs c) as Ht.
  destruct (TrackedSendInput evs c) as [[ok sent] c']. destruct Ht as (_ & Hs & -> & ->). split.
  - intros ->%Nat.eqb_eq. by rewrite firstn_all.
  - intros Hw. rewrite Hs, willing_takes by done. apply Nat.eqb_refl.
Qed.

Lemma length_held n text reinject s : (length (QueryHeldModifiers n text reinject s) <= 8)%nat.
Proof.
  assert (H : forall g l r, (length (held_sides g l r s) <= 2)%nat).
  { intros g l r. unfold held_sides.
    destruct (GetAsyncKeyState g s), (GetAsyncKeyState l s), (GetAsyncKeyState r s); cbn; lia. }
  unfold QueryHeldModifiers. destruct (_ && _); [cbn; lia|].
  pose proof (H VK_SHIFT VK_LSHIFT VK_RSHIFT). pose proof (H VK_CONTROL VK_LCONTROL VK_RCONTROL).
  pose proof (H VK_MENU VK_LMENU VK_RMENU).
  repeat case_match; rewrite ?length_app; cbn [length]; lia.
Qed.

(** What is delivered whatever the modifiers and the bait. *)
Definition output_capacity : nat := 118.

(** The outcomes of a replacement: done, or not; and then a willing system was sent
    nothing. *)
Definition replaced (n : nat) (text : wstring) c c' : Prop :=
  content (desktop c') = edit n text (content (desktop c)) /\
  same_keys (desktop c) (desktop c') /\ responsive (desktop c') /\
  (willing (desktop c) -> willing (desktop c')).
Definition done_or_refused (n : nat) (text : wstring) c (r : bool * Channel S) : Prop :=
  let '(ok, c') := r in
  if ok then replaced n text c c'
  else willing (desktop c) -> c' = c /\ (output_capacity < n + length text)%nat.

(** A batch that is an edit when it is run is one when it is sent. *)
Lemma batch_replaced n text evs c :
  responsive (desktop c) ->
  content (run evs (desktop c)) = edit n text (content (desktop c)) ->
  same_keys (desktop c) (run evs (desktop c)) ->
  let '(ok, _, c') := TrackedSendInput evs c in
  (ok = true -> replaced n text c c') /\ (willing (desktop c) -> ok = true).
Proof.
  intros Hr Hc Hk. pose proof (TrackedSendInput_whole evs c) as Ht.
  destruct (TrackedSendInput evs c) as [[ok sent] c']. destruct Ht as [Hd Hw]. split; [|done].
  intros Hok. unfold replaced. rewrite Hd by done.
  split_and!; [done|done|by apply responsive_run|by apply willing_run].
Qed.

Lemma replaced_trans n c c1 text c2 c3 :
  replaced n [] c c1 -> desktop c2 = desktop c1 \/ (exists ms, desktop c2 = Sleep ms (desktop c1)) ->
  replaced 0 text c2 c3 -> replaced n text c c3.
Proof.
  intros (Hc1 & Hk1 & Hr1 & Hw1) H2 (Hc3 & Hk3 & Hr3 & Hw3).
  assert (H : content (desktop c2) = content (desktop c1) /\ same_keys (desktop c1) (desktop c2) /\
              (willing (desktop c1) -> willing (desktop c2))).
  { destruct H2 as [-> |[ms ->]]; [by split_and!|]. rewrite Sleep_content.
    split_and!; [done|intros v Hv; by apply Sleep_keys|apply willing_Sleep]. }
  destruct H as (Hc2 & Hk2 & Hw2). unfold replaced. split_and!; [|by transitivity (desktop c1); [|transitivity (desktop c2)]|done|by auto].
  by rewrite Hc3, Hc2, Hc1, edit_type, <- edit_app.
Qed.

Lemma Win32_Replace_spec needsBait keep n text c :
  responsive (desktop c) -> done_or_refused n text c (Win32_Replace needsBait keep n text 0 c).
Proof.
  intros Hr. unfold Win32_Replace, done_or_refused. cbn [Z.eqb negb].
  set (held := QueryHeldModifiers _ _ _ _). set (b := ShouldEmitBait _ _ _ _).
  assert (Hb : b = true -> (0 < n)%nat) by (destruct n; [unfold b; by rewrite no_bait|lia]).
  rewrite Win32_batch_spec. set (evs := reinject_key 0 ++ _).
  assert (Hl : (length evs = 2 * length held + (2 * n + if b then 4 else 0) + 2 * length text)%nat).
  { unfold evs. cbn [reinject_key Z.eqb negb app].
    rewrite length_between, concat_app, length_app, length_deletion, length_tap_chars. lia. }
  destruct (run_Win32 b n text (desktop c) Hr Hb) as [Hc Hk]. fold held in Hc, Hk.
  change (between held _) with evs in Hc, Hk.
  pose proof (length_held n text false (desktop c)) as H8. fold held in H8.
  destruct (Nat.ltb_spec kMaxBatch (length evs)) as [Hx|Hx].
  { intros _. split; [done|]. unfold output_capacity, kMaxBatch in *. destruct b; lia. }
  destruct (Nat.eqb_spec (length evs) 0) as [H0|H0].
  { apply nil_length_inv in H0. rewrite H0 in Hc, Hk. by split_and!. }
  pose proof (batch_replaced n text evs c Hr Hc Hk) as Ht.
  destruct (TrackedSendInput evs c) as [[ok sent] c']. destruct Ht as [Hd Hw].
  destruct ok; cbn [negb andb]; [by apply Hd|]. intros H. by specialize (Hw H).
Qed.

Lemma push_chars_spec text buf :
  push_chars text buf =
  if (kCharBuffer <? length buf + 2 * length text)%nat && negb (text == []) then None
  else Some (buf ++ concat (tap_char <$> text)).
Proof.
  revert buf. induction text as [|ch text IH]; intros buf; cbn [push_chars].
  { rewrite andb_false_r. cbn. by rewrite app_nil_r. }
  rewrite IH, length_app, <- app_assoc. cbn [length tap_char fmap list_fmap concat].
  rewrite (bool_decide_eq_false_2 (ch :: text = [])) by done. rewrite andb_true_r.
  destruct text as [|ch' text].
  - rewrite bool_decide_eq_true_2 by done. rewrite andb_false_r. cbn [length].
    replace (2 * 1)%nat with 2%nat by lia. done.
  - rewrite bool_decide_eq_false_2 by done. rewrite andb_true_r. cbn [length].
    destruct (Nat.ltb_spec kCharBuffer (length buf + 2)),
      (Nat.ltb_spec kCharBuffer (length buf + 2 + 2 * Datatypes.S (length text))),
      (Nat.ltb_spec kCharBuffer (length buf + 2 * Datatypes.S (Datatypes.S (length text))));
      done || lia.
Qed.

Lemma Split_chars_spec text c :
  responsive (desktop c) -> text <> [] -> (length text <= kMaxBatch / 2)%nat ->
  let '(ok, c') := Split_chars text c in
  (ok = true -> replaced 0 text c c') /\ (willing (desktop c) -> ok = true).
Proof.
  intros Hr Ht Hl. unfold Split_chars. rewrite push_chars_spec.
  pose proof (length_held 0 text false (desktop c)) as H8.
  destruct (run_Win32 false 0 text (desktop c) Hr) as [Hc Hk]; [done|].
  set (held := QueryHeldModifiers _ _ _ _) in *.
  assert (Hle : (length (release held) <= 8)%nat) by (unfold release; by rewrite length_fmap).
  rewrite (proj2 (Nat.ltb_ge _ _)); [cbn [andb]|unfold kCharBuffer, kMaxBatch in *; cbn in Hl; lia].
  rewrite <- app_assoc. change (release held ++ _ ++ _) with (between held (tap_char <$> text)).
  change (deletion false 0 ++ (tap_char <$> text)) with (tap_char <$> text) in Hc, Hk.
  set (evs := between held (tap_char <$> text)) in *.
  assert (H0 : length evs <> 0%nat).
  { unfold evs. rewrite length_between, length_tap_chars. destruct text; [done|cbn; lia]. }
  rewrite (proj2 (Nat.eqb_neq _ _) H0).
  pose proof (batch_replaced 0 text evs c Hr Hc Hk) as Hs.
  destruct (TrackedSendInput evs c) as [[ok sent] c']. destruct Hs. by destruct ok; split.
Qed.

(** The first batch of the two. *)
Definition Split_first (evs : list INPUT) (vks : list Z) c : bool * Channel S :=
  if (0 <? length evs)%nat then
    let '(delivered, sent, c) := TrackedSendInput evs c in
    (delivered,
     if negb delivered && (0 <? length vks)%nat && (0 <? sent)%nat
     then RestoreModifiersAfterPartialSend vks sent 0 (length evs - length vks) c else c)
  else (true, c).

Lemma Split_first_spec evs vks n c :
  responsive (desktop c) ->
  content (run evs (desktop c)) = edit n [] (content (desktop c)) ->
  same_keys (desktop c) (run evs (desktop c)) ->
  let '(ok, c') := Split_first evs vks c in
  (ok = true -> replaced n [] c c') /\ (willing (desktop c) -> ok = true).
Proof.
  intros Hr Hc Hk. unfold Split_first. destruct (Nat.ltb_spec 0 (length evs)) as [H0|H0].
  - pose proof (batch_replaced n [] evs c Hr Hc Hk) as Hs.
    destruct (TrackedSendInput evs c) as [[ok sent] c']. destruct Hs as [Hd Hw]. split; [|done].
    intros ->. by apply Hd.
  - apply Nat.le_0_r, nil_length_inv in H0. rewrite H0 in Hc, Hk. by split_and!.
Qed.

Lemma Split_Replace_spec ms needsBait keep n text c :
  responsive (desktop c) -> done_or_refused n text c (Split_Replace ms needsBait keep n text 0 c).
Proof.
  intros Hr. unfold Split_Replace, done_or_refused. cbn [Z.eqb negb].
  destruct (Nat.ltb_spec (kMaxBatch / 2) (length text)) as [Hx|Ht].
  { intros _. split; [done|]. unfold output_capacity, kMaxBatch in *. cbn in Hx. lia. }
  set (held := QueryHeldModifiers _ _ _ _). set (b := ShouldEmitBait _ _ _ _).
  assert (Hb : b = true -> (0 < n)%nat) by (destruct n; [unfold b; by rewrite no_bait|lia]).
  rewrite Split_batch_spec. set (evs := reinject_key 0 ++ _).
  assert (Hl : (length evs = 2 * length held + (2 * n + if b then 4 else 0))%nat).
  { unfold evs. cbn [reinject_key Z.eqb negb app]. by rewrite length_between, length_deletion. }
  destruct (run_Win32 b n [] (desktop c) Hr Hb) as [Hc Hk]. fold held in Hc, Hk.
  cbn [fmap list_fmap] in Hc, Hk. rewrite app_nil_r in Hc, Hk. change (between held _) with evs in Hc, Hk.
  pose proof (length_held n [] false (desktop c)) as H8. fold held in H8.
  destruct (Nat.ltb_spec kMaxBatch (length evs)) as [Hx|Hx].
  { intros _. split; [done|]. unfold output_capacity, kMaxBatch in *. destruct b; lia. }
  pose proof (Split_first_spec evs held n c Hr Hc Hk) as H1.
  change (length (reinject_key 0)) with 0%nat. fold (Split_first evs held c).
  destruct (Split_first evs held c) as [ok c1]. destruct H1 as [H1 Hw1].
  destruct ok; cbn [negb]; [|by intros Hw; specialize (Hw1 Hw)]. specialize (H1 eq_refl).
  case_bool_decide as Htx; cbn [negb]; [by subst|].
  set (c2 := if (0 <? _)%nat then on_desktop _ c1 else c1).
  assert (H2 : desktop c2 = desktop c1 \/ exists ms, desktop c2 = Sleep ms (desktop c1))
    by (unfold c2; destruct (0 <? _)%nat; [right; by exists ms|by left]).
  assert (Hr2 : responsive (desktop c2) /\ (willing (desktop c) -> willing (desktop c2))).
  { destruct H1 as (_ & _ & ? & ?). destruct H2 as [-> |[ms' ->]]; split; auto using responsive_Sleep, willing_Sleep. }
  pose proof (Split_chars_spec text c2 (proj1 Hr2) Htx Ht) as H3.
  destruct (Split_chars text c2) as [ok c3]. destruct H3 as [H3 Hw3].
  destruct ok; [by eapply replaced_trans; [..|apply H3]|]. intros Hw.
  by specialize (Hw3 (proj2 Hr2 Hw)).
Qed.

(** The keystroke injectors. *)
Definition by_keys i : bool :=
  match kind i with
  | Win32SendInputInjector _ | SplitDispatchInjector _ _ _ _ => true
  | _ => false
  end.

Lemma Replace_by_keys i n text c :
  by_keys i = true -> responsive (desktop c) -> done_or_refused n text c (Replace i n text 0 c).
Proof.
  intros Hi Hr. unfold by_keys in Hi. unfold Replace.
  destruct (kind i); [by apply Win32_Replace_spec|by apply Split_Replace_spec|done..].
Qed.

(** C7. A replacement by synthetic keys that is reported done is an edit of the text
    before the caret: whatever modifiers the user is holding, with or without the
    bait, in one batch or in two, however the system treats batches, the characters
    are erased, the text typed and every modifier is as it was.  The application is
    taken to handle keys at its caret with nothing selected.  One that is reported
    not done was, where the system takes batches whole, not begun: nothing was sent,
    and it was longer than a batch of 256 events can be (more than 118 deletions and
    characters).  What a batch that the system cut leaves in the text is not
    promised. *)
Theorem replacement_whole_or_not i n text c :
  by_keys i = true -> responsive (desktop c) ->
  let '(ok, c') := Replace i n text 0 c in
  if ok then content (desktop c') = edit n text (content (desktop c)) /\
             same_keys (desktop c) (desktop c')
  else willing (desktop c) -> c' = c /\ (output_capacity < n + length text)%nat.
Proof.
  intros Hi Hr. pose proof (Replace_by_keys i n text c Hi Hr) as H.
  destruct (Replace i n text 0 c) as [[] c']; [|done]. by destruct H as (? & ? & _).
Qed.

(** *** Batches that are cut short *)

Lemma to_restore_elem held sent a b v :
  v ∈ to_restore held sent a b <->
  exists k, held !! k = Some v /\ (a + k < sent)%nat /\ (sent <= b + k)%nat.
Proof.
  unfold to_restore. rewrite list_elem_of_fmap. split.
  - intros ([k w] & -> & Hin). apply list_elem_of_filter in Hin as [[H1 H2] Hin].
    apply elem_of_lookup_imap in Hin as (k' & w' & [= -> ->] & Hk). by exists k'.
  - intros (k & Hk & H1 & H2). exists (k, v). split; [done|].
    apply list_elem_of_filter. split; [done|]. apply elem_of_lookup_imap. by exists k, v.
Qed.

Lemma to_restore_held held sent a b : to_restore held sent a b ⊆ held.
Proof.
  intros v Hv. apply to_restore_elem in Hv as (k & Hk & _). by eapply list_elem_of_lookup_2.
Qed.

Lemma length_to_restore held sent a b : (length (to_restore held sent a b) <= length held)%nat.
Proof.
  unfold to_restore. rewrite length_fmap. etrans; [apply length_filter|]. by rewrite length_imap.
Qed.

(** Nothing to restore when nothing was sent, or everything, or nothing was held. *)
Lemma to_restore_nil held sent a b :
  sent = 0%nat \/ held = [] \/ (b + length held <= sent)%nat -> to_restore held sent a b = [].
Proof.
  intros H. apply elem_of_nil_inv. intros v Hv. apply to_restore_elem in Hv as (k & Hk & H1 & H2).
  apply lookup_lt_Some in Hk. destruct H as [->|[->|H]]; cbn in *; lia.
Qed.

(** Events that touch no modifier. *)
Definition neutral (evs : list INPUT) : Prop := Forall (fun ev => forall s, same_keys s (input ev s)) evs.

Lemma neutral_run evs s : neutral evs -> same_keys s (run evs s).
Proof.
  intros H. revert s. induction H as [|ev evs He _ IH]; intros s; [reflexivity|].
  transitivity (input ev s); [apply He|apply IH].
Qed.
Lemma neutral_concat groups : Forall neutral groups -> neutral (concat groups).
Proof. induction 1; [constructor|]. by apply Forall_app. Qed.
Lemma neutral_char ch : neutral (tap_char ch).
Proof. repeat constructor; intros s v Hv; by apply input_char_keys. Qed.
Lemma neutral_back : neutral (tap_key VK_BACK).
Proof. repeat constructor; intros s v Hv; by apply input_back_keys. Qed.
Lemma neutral_chars text : Forall neutral (tap_char <$> text).
Proof. apply Forall_fmap, Forall_true, neutral_char. Qed.
Lemma neutral_deletion b n : Forall neutral (deletion b n).
Proof.
  unfold deletion. apply Forall_app. split.
  - destruct b; [|constructor]. constructor; [apply neutral_char|constructor].
  - apply Forall_replicate, neutral_back.
Qed.

(** What is let go of was down. *)
Lemma held_down n text s v :
  v ∈ QueryHeldModifiers n text false s -> GetAsyncKeyState v s = true.
Proof.
  intros Hv. destruct n as [|n].
  - destruct (negb (text == []) || false) eqn:Htx.
    + by apply QueryHeldModifiers_text in Hv as [_ ?].
    + unfold QueryHeldModifiers in Hv. rewrite Htx in Hv. cbn in Hv. by apply elem_of_nil in Hv.
  - by apply QueryHeldModifiers_elem in Hv as [_ ?]; [|lia].
Qed.

(** However many of the events the system took, pressing what is to restore leaves
    the modifiers as they were. *)
Lemma cut_and_restored held mid sent s :
  held ⊆ modifiers -> (forall v, v ∈ held -> GetAsyncKeyState v s = true) ->
  Forall neutral mid ->
  same_keys s (run (press (to_restore held sent 0 (length held + length (concat mid))))
                 (run (take sent (between held mid)) s)).
Proof.
  intros Hm Hd Hn. set (rs := (length held + length (concat mid))%nat).
  assert (Hsub : forall k, take k held ⊆ modifiers).
  { intros k v Hv. apply Hm. apply (sublist_subseteq _ _ (sublist_take held k)), Hv. }
  assert (Htr : take sent (release held) = release (take sent held)) by (symmetry; apply fmap_take).
  assert (Htp : forall k, take k (press held) = press (take k held)) by (intros k; symmetry; apply fmap_take).
  unfold between. rewrite !take_app, !run_app, Htr, Htp.
  replace (sent - length (release held) - length (concat mid))%nat with (sent - rs)%nat
    by (unfold rs, release; rewrite length_fmap; lia).
  set (s1 := run (release (take sent held)) s). set (s2 := run (take _ (concat mid)) s1).
  set (s3 := run (press (take (sent - rs) held)) s2).
  assert (K2 : same_keys s1 s2)
    by (apply neutral_run, Forall_take, neutral_concat, Hn).
  intros v Hv. rewrite keys_pressed by (done || by intros w Hw; eapply Hm, to_restore_held).
  unfold s3. rewrite keys_pressed, (K2 v Hv) by done. unfold s1. rewrite keys_released by done.
  destruct (bool_decide_reflect (v ∈ to_restore held sent 0 rs)) as [Hr|Hr];
    [symmetry; by eapply Hd, to_restore_held|].
  destruct (bool_decide_reflect (v ∈ take (sent - rs) held)) as [Hp|Hp];
    [symmetry; by apply Hd, (sublist_subseteq _ _ (sublist_take held (sent - rs)))|].
  destruct (bool_decide_reflect (v ∈ take sent held)) as [Hs|Hs]; [|done].
  exfalso. apply Hr, to_restore_elem.
  apply list_elem_of_lookup in Hs as [k Hk]. apply lookup_take_Some in Hk as [Hk Hlt].
  exists k. split; [done|]. split; [done|]. destruct (decide (sent <= rs + k)%nat); [done|].
  exfalso. apply Hp, list_elem_of_lookup. exists k. apply lookup_take_Some. split; [done|lia].
Qed.

(** The last thing done was to press again what a cut batch had left up, which would
    have put every modifier back, and the system cut that too. *)
Definition restore_cut c c' : Prop :=
  exists lost c1, let '(ok, _, c2) := TrackedSendInput (press lost) c1 in
    ok = false /\ c' = c2 /\ lost ⊆ modifiers /\
    same_keys (desktop c) (run (press lost) (desktop c1)).
Definition back_or_cut c c' : Prop := same_keys (desktop c) (desktop c') \/ restore_cut c c'.

Lemma back_after c c1 c' : same_keys (desktop c) (desktop c1) -> back_or_cut c1 c' -> back_or_cut c c'.
Proof.
  intros H [H1|(lost & c2 & Hc)]; [left; by etrans|right]. exists lost, c2.
  destruct (TrackedSendInput (press lost) c2) as [[ok sent] c3]. destruct Hc as (-> & -> & Hm & Hk).
  split_and!; [done|done|done|]. by etrans.
Qed.

(** A restore that was cut has pressed nothing that was not down. *)
Lemma restore_cut_fewer c c' v :
  restore_cut c c' -> v ∈ modifiers ->
  GetAsyncKeyState v (desktop c') = true -> GetAsyncKeyState v (desktop c) = true.
Proof.
  intros (lost & c1 & Hc) Hv Hd. pose proof (TrackedSendInput_desktop (press lost) c1) as Ht.
  destruct (TrackedSendInput (press lost) c1) as [[ok sent] c2]. destruct Ht as (_ & _ & _ & Hdc).
  destruct Hc as (_ & -> & Hm & Hk). rewrite <- Hk, keys_pressed by done.
  rewrite Hdc in Hd. unfold press in Hd. rewrite <- fmap_take in Hd.
  fold (press (take sent lost)) in Hd.
  assert (Hsub : take sent lost ⊆ lost) by apply sublist_subseteq, sublist_take.
  rewrite keys_pressed in Hd by (done || by etrans). case_bool_decide as Hin; [|by case_match].
  by rewrite bool_decide_eq_true_2 by auto.
Qed.

Lemma restore_back c held sent a b c1 :
  held ⊆ modifiers ->
  same_keys (desktop c) (run (press (to_restore held sent a b)) (desktop c1)) ->
  back_or_cut c (RestoreModifiersAfterPartialSend held sent a b c1).
Proof.
  intros Hm Hk. unfold RestoreModifiersAfterPartialSend. set (lost := to_restore held sent a b) in *.
  destruct (Nat.ltb_spec 0 (length (press lost))) as [Hp|Hp].
  - pose proof (TrackedSendInput_whole (press lost) c1) as Ht.
    destruct (TrackedSendInput (press lost) c1) as [[ok k] c2] eqn:E. destruct Ht as [Hd _]. cbn [snd].
    destruct ok; [left; by rewrite Hd|right]. exists lost, c1. rewrite E.
    split_and!; [done|done|by etrans; [apply to_restore_held|]|done].
  - left. apply Nat.le_0_r, nil_length_inv in Hp. by rewrite Hp in Hk.
Qed.

(** A batch sent, and restored by the test of either file. *)
Lemma send_keeps_keys n text mid c :
  let held := QueryHeldModifiers n text false (desktop c) in
  Forall neutral mid ->
  let '(ok, sent, c1) := TrackedSendInput (between held mid) c in
  (ok = true -> same_keys (desktop c) (desktop c1)) /\
  forall guard, (guard = false -> held = [] \/ sent = 0%nat) ->
  back_or_cut c
    (if negb ok && guard
     then RestoreModifiersAfterPartialSend held sent 0 (length (between held mid) - length held) c1
     else c1).
Proof.
  intros held Hn. pose proof (TrackedSendInput_desktop (between held mid) c) as Ht.
  destruct (TrackedSendInput _ c) as [[ok sent] c1]. destruct Ht as (Hle & _ & -> & Hd).
  assert (Hm : held ⊆ modifiers) by apply QueryHeldModifiers_modifiers.
  pose proof (cut_and_restored held mid sent (desktop c) Hm (held_down n text (desktop c)) Hn) as Hk.
  rewrite <- Hd in Hk.
  assert (Hrs : (length (between held mid) - length held = length held + length (concat mid))%nat)
    by (rewrite length_between; lia).
  rewrite <- Hrs in Hk. destruct (Nat.eqb_spec sent (length (between held mid))) as [He|He]; cbn [negb andb].
  - rewrite to_restore_nil in Hk; [|right; right; rewrite length_between in *; lia].
    split; [by intros _|]. intros guard _. by left.
  - split; [done|]. intros guard Hg. destruct guard; [by apply restore_back|].
    rewrite to_restore_nil in Hk; [by left|]. destruct (Hg eq_refl); auto.
Qed.

Lemma guard_false (held : list Z) sent :
  (0 <? length held)%nat && (0 <? sent)%nat = false -> held = [] \/ sent = 0%nat.
Proof.
  intros [H|H]%andb_false_iff; apply Nat.ltb_ge, Nat.le_0_r in H; [left|by right].
  by apply nil_length_inv.
Qed.

(** What a replacement leaves of the modifiers, done or not. *)
Definition keys_after c (r : bool * Channel S) : Prop :=
  (r.1 = true -> same_keys (desktop c) (desktop r.2)) /\ back_or_cut c r.2.
Lemma same_after c ok : keys_after c (ok, c).
Proof. split; [by intros _|by left]. Qed.

Lemma Win32_Replace_keys needsBait keep n text c :
  keys_after c (Win32_Replace needsBait keep n text 0 c).
Proof.
  unfold Win32_Replace. rewrite Win32_batch_spec. cbn [Z.eqb negb reinject_key app length].
  destruct (kMaxBatch <? _)%nat; [apply same_after|]. destruct (length _ =? 0)%nat; [apply same_after|].
  set (b := ShouldEmitBait _ _ _ _). set (mid := deletion b n ++ _).
  pose proof (send_keeps_keys n text mid c) as Hk.
  assert (Hn : Forall neutral mid)
    by (apply Forall_app; split; [apply neutral_deletion|apply neutral_chars]).
  specialize (Hk Hn). destruct (TrackedSendInput _ c) as [[ok sent] c1]. destruct Hk as [Hok Hk].
  rewrite <- andb_assoc. split; cbn [fst snd]; [|by apply Hk, guard_false]. by intros ->; apply Hok.
Qed.

Lemma Split_chars_keys text c : keys_after c (Split_chars text c).
Proof.
  unfold Split_chars. rewrite push_chars_spec. destruct ((kCharBuffer <? _)%nat && _); [apply same_after|].
  set (held := QueryHeldModifiers _ _ _ _). set (mid := tap_char <$> text).
  rewrite <- app_assoc. change (release held ++ concat mid ++ press held) with (between held mid).
  destruct (length (between _ _) =? 0)%nat; [apply same_after|].
  pose proof (send_keeps_keys 0 text mid c (neutral_chars text)) as Hk.
  fold held in Hk. destruct (TrackedSendInput (between held mid) c) as [[ok sent] c1].
  destruct Hk as [Hok Hk]. specialize (Hk true). cbn in Hk.
  assert (Hl : length (release held ++ concat mid) = (length (between held mid) - length held)%nat).
  { unfold between. rewrite !length_app. unfold press. rewrite length_fmap. lia. }
  rewrite Hl. destruct ok; (split; cbn in *; [try done; by auto|by apply Hk]).
Qed.

Lemma Split_Replace_keys ms needsBait keep n text c :
  keys_after c (Split_Replace ms needsBait keep n text 0 c).
Proof.
  unfold Split_Replace. destruct (_ <? length text)%nat; [apply same_after|]. rewrite Split_batch_spec.
  cbn [Z.eqb negb reinject_key app length]. destruct (kMaxBatch <? _)%nat; [apply same_after|].
  set (b := ShouldEmitBait _ _ _ _). set (held := QueryHeldModifiers _ _ _ _).
  set (first := if (0 <? length _)%nat then _ else _).
  assert (H1 : keys_after c first).
  { unfold first. destruct (0 <? length _)%nat; [|apply same_after].
    pose proof (send_keeps_keys n [] (deletion b n) c (neutral_deletion b n)) as Hk. fold held in Hk.
    destruct (TrackedSendInput _ c) as [[ok sent] c1]. destruct Hk as [Hok Hk].
    split; cbn [fst snd]; rewrite <- andb_assoc; [|by apply Hk, guard_false]. by intros ->; apply Hok. }
  destruct first as [ok c1]. destruct H1 as [Hok H1]. cbn [fst snd] in *.
  destruct ok; cbn [negb]; [|by split]. specialize (Hok eq_refl).
  case_bool_decide; cbn [negb]; [by split|].
  assert (H2 : same_keys (desktop c) (desktop (if (0 <? if b then (n + 1)%nat else n)%nat
                                               then on_desktop (Sleep ms) c1 else c1))).
  { destruct (0 <? _)%nat; [|done]. etrans; [exact Hok|]. intros v Hv. by apply Sleep_keys. }
  destruct (Split_chars_keys text (if (0 <? if b then (n + 1)%nat else n)%nat
                                   then on_desktop (Sleep ms) c1 else c1)) as [H3 H4].
  split; [intros Hok3; etrans; [exact H2|by apply H3]|by eapply back_after].
Qed.

(** C16. No modifier is left stuck: after a replacement by keys that is refused, done,
    or cut short by the system anywhere, every modifier is as it was before; the one
    exception is that the system also cuts the batch that presses again what the
    first left up, which is then the last thing sent, and what is still up was down
    before.  In no case is a modifier down that was not, and one that is reported
    done leaves them all as they were. *)
Theorem modifiers_come_back i n text c :
  by_keys i = true ->
  let '(ok, c') := Replace i n text 0 c in
  (same_keys (desktop c) (desktop c') \/ ok = false /\ restore_cut c c') /\
  forall v, v ∈ modifiers ->
    GetAsyncKeyState v (desktop c') = true -> GetAsyncKeyState v (desktop c) = true.
Proof.
  intros Hi. assert (Hk : keys_after c (Replace i n text 0 c)).
  { unfold by_keys in Hi. unfold Replace. destruct (kind i); try done;
      [apply Win32_Replace_keys|apply Split_Replace_keys]. }
  destruct (Replace i n text 0 c) as [ok c']. destruct Hk as [Hok [Hs|Hc]]; cbn [fst snd] in *.
  - split; [by left|]. intros v Hv. by rewrite Hs.
  - split; [|intros v; by apply restore_cut_fewer]. destruct ok; [left; by apply Hok|by right].
Qed.

End Output.

(** ** The user's clipboard is given back

    The clipboard injector borrows the clipboard: it saves the text the user had,
    writes its own, and restores later, unless someone wrote in between.  Over any
    order of replacements, copies by the user and timer ticks the text is not lost,
    as long as the clipboard is not held by another process when it is to be put
    back. *)

(** A clipboard with a sequence number that grows with every change of its content;
    keys, pauses and timers leave it alone.  [available]: no other process has it
    open, and there is memory; that changes between the injector's calls
    ([step_else]), not within one. *)
Class Clipboard (S : Type) `{Desktop S} := {
  available : S -> bool;
  quiet s s' : Prop :=
    GetClipboardText s' = GetClipboardText s /\
    GetClipboardSequenceNumber s' = GetClipboardSequenceNumber s /\ available s' = available s;
  changed (t : option wstring) s s' : Prop :=
    GetClipboardText s' = t /\ GetClipboardSequenceNumber s < GetClipboardSequenceNumber s' /\
    available s' = available s;
  OpenClipboard_law s : (OpenClipboard s).1 = available s /\ quiet s (OpenClipboard s).2;
  CloseClipboard_law s : quiet s (CloseClipboard s);
  EmptyClipboard_law s : changed None s (EmptyClipboard s);
  SetClipboardText_law t s : changed (Some t) s (SetClipboardText t s);
  GlobalAlloc_law n s :
    (available s = true -> (GlobalAlloc n s).1 = true) /\ quiet s (GlobalAlloc n s).2;
  ExcludeFromHistory_law s :
    GetClipboardText (ExcludeFromHistory s) = GetClipboardText s /\
    GetClipboardSequenceNumber s <= GetClipboardSequenceNumber (ExcludeFromHistory s) /\
    available (ExcludeFromHistory s) = available s;
  SendInput_quiet evs s : quiet s (SendInput evs s).2;
  Sleep_quiet ms s : quiet s (Sleep ms s);
  SetTimer_quiet ms s : quiet s (SetTimer ms s).2;
  KillTimer_quiet i s : quiet s (KillTimer i s)
}.

Section Clipboard.
Context {S : Type} {KL : KeyboardLayout} {D : Desktop S} {CL : Clipboard S}.
Implicit Types (c : Channel S) (user : option wstring).

Definition held_text c : wstring := default [] (GetClipboardText (desktop c)).
Definition seq_of c : Z := GetClipboardSequenceNumber (desktop c).
Definition free c : bool := available (desktop c).
(** What the injector can give back of what the user has: a text without NUL.  Of an
    image, files or nothing it gives back nothing. *)
Definition plain (t : wstring) : Prop := c_str t = t.
Definition promised (t : option wstring) : option wstring := t ≫= fun u => if c_str u == u then Some u else None.

(** Where the user's text is: in the clipboard, or saved, and then the clipboard has
    not been written to since. *)
Definition kept user c : Prop :=
  forall u, user = Some u ->
  if g_hasOriginalClip (clipboard c)
  then (if seq_of c =w g_lastWrittenSeq (clipboard c)
        then g_originalClipText (clipboard c) = u else held_text c = u)
  else held_text c = u.

(** A step: the ghost is the text the user last copied, if it was one.  A replacement
    finds the clipboard free, or held all through, and then the timer it asks for is
    granted; the timer finds it free, or written to since. *)
Inductive clip_step : Channel S * option wstring -> Channel S * option wstring -> Prop :=
  | step_replace n text vk c user :
      free c = true \/ text = [] \/
        g_restoreTimerId (clipboard (Clipboard_Replace n text vk c).2) <> 0 ->
      clip_step (c, user) ((Clipboard_Replace n text vk c).2, user)
  | step_timer id c user :
      free c = true \/ seq_of c <> g_lastWrittenSeq (clipboard c) ->
      clip_step (c, user) (RestoreTimerProc id c, user)
  | step_copy f t c user :
      GetClipboardText (f (desktop c)) = t -> seq_of c < seq_of (on_desktop f c) ->
      clip_step (c, user) (on_desktop f c, promised t)
  | step_else f c user :
      GetClipboardText (f (desktop c)) = GetClipboardText (desktop c) ->
      seq_of (on_desktop f c) = seq_of c ->
      clip_step (c, user) (on_desktop f c, user).

(** *** What each part does to the clipboard *)

Definition silent c c' : Prop :=
  clipboard c' = clipboard c /\ GetClipboardText (desktop c') = GetClipboardText (desktop c) /\
  seq_of c' = seq_of c /\ free c' = free c.
#[export] Instance silent_pre : PreOrder silent.
Proof.
  split; [by intros c|]. intros a b d (H1 & H2 & H3 & H4) (H5 & H6 & H7 & H8).
  unfold silent. by rewrite H5, H6, H7, H8.
Qed.

Lemma silent_desktop f c : quiet (desktop c) (f (desktop c)) -> silent c (on_desktop f c).
Proof. intros (H1 & H2 & H3). by split_and!. Qed.

Lemma silent_ask {B} (f : S -> B * S) c :
  quiet (desktop c) (f (desktop c)).2 -> silent c (ask f c).2.
Proof. unfold ask. destruct (f (desktop c)) as [b s]. intros (H1 & H2 & H3). by split_and!. Qed.

Lemma silent_open c : (ask OpenClipboard c).1 = free c /\ silent c (ask OpenClipboard c).2.
Proof.
  destruct (OpenClipboard_law (desktop c)) as [Ho Hq]. split; [|by apply silent_ask].
  unfold ask. by destruct (OpenClipboard (desktop c)).
Qed.

Lemma silent_kept user c c' : silent c c' -> kept user c -> kept user c'.
Proof. unfold kept, held_text. by intros (-> & -> & -> & _). Qed.

Lemma silent_pending n c : silent c (set_pending n c).
Proof. by split_and!. Qed.

Lemma TrackedSendInput_silent evs c : silent c (TrackedSendInput evs c).2.
Proof.
  assert (Hd : forall x c, silent c (OnSynthDispatched x c))
    by (intros x c0; unfold OnSynthDispatched; case_match; [apply silent_pending|reflexivity]).
  assert (Hi : forall k c, silent c (Nat.iter k DecrementSynthEvents c)).
  { intros k c0. induction k as [|k IH]; [reflexivity|]. etrans; [exact IH|].
    change (Nat.iter (Datatypes.S k) DecrementSynthEvents c0)
      with (DecrementSynthEvents (Nat.iter k DecrementSynthEvents c0)).
    unfold DecrementSynthEvents at 2. case_match; [apply silent_pending|reflexivity]. }
  unfold TrackedSendInput. set (c1 := if (0 <? _)%nat then _ else _).
  assert (H1 : silent c c1) by (unfold c1; case_match; [apply Hd|reflexivity]).
  pose proof (SendInput_quiet evs (desktop c1)) as Hq.
  destruct (SendInput evs (desktop c1)) as [[sent seen] s]. cbn [snd] in *.
  etrans; [exact H1|]. etrans; [|etrans; [apply Hi|]].
  - by apply (silent_desktop (fun _ => s)).
  - case_match; [apply Hd|reflexivity].
Qed.

Lemma put_text_changes t c :
  free c = true ->
  clipboard (put_text t c) = clipboard c /\
  changed (Some t) (desktop c) (desktop (put_text t c)).
Proof.
  intros Hf. unfold put_text.
  destruct (GlobalAlloc_law ((length t + 1) * 2) (desktop c)) as [Ha (Hq1 & Hq2 & Hq3)].
  specialize (Ha Hf). unfold ask. destruct (GlobalAlloc _ (desktop c)) as [b s].
  cbn in Ha, Hq1, Hq2, Hq3. subst b. split; [done|]. cbn.
  destruct (SetClipboardText_law t s) as (H1 & H2 & H3). split; [done|]. by rewrite <- Hq2, <- Hq3.
Qed.

(** The open clipboard is emptied and filled. *)
Lemma refill_law c t :
  free c = true ->
  let c1 := on_desktop EmptyClipboard c in
  let c2 := on_desktop CloseClipboard (if negb (t == []) then put_text t c1 else c1) in
  clipboard c2 = clipboard c /\ held_text c2 = t /\ seq_of c < seq_of c2.
Proof.
  intros Hf c1. destruct (EmptyClipboard_law (desktop c)) as (He1 & He2 & He3).
  assert (Hf1 : free c1 = true) by (unfold free; cbn; by rewrite He3).
  set (c3 := if negb (t == []) then put_text t c1 else c1). cbv zeta.
  assert (H3 : clipboard c3 = clipboard c /\ held_text c3 = t /\ seq_of c < seq_of c3).
  { unfold c3. case_bool_decide as Hn; cbn [negb].
    - rewrite Hn. unfold held_text, c1. cbn. by rewrite He1.
    - destruct (put_text_changes t c1 Hf1) as (H1 & H2 & H3 & _). rewrite H1.
      unfold held_text, seq_of in *. rewrite H2. split_and!; [done|done|]. cbn in H3. lia. }
  destruct (silent_desktop CloseClipboard c3) as (H4 & H5 & H6 & _); [apply CloseClipboard_law|].
  unfold held_text in *. by rewrite H4, H5, H6.
Qed.

(** Restoring puts the saved text back if the clipboard is still as we wrote it. *)
Lemma restore_law c :
  free c = true \/ seq_of c <> g_lastWrittenSeq (clipboard c) ->
  let c' := RestoreOriginalClipboardIfSeqMatches (g_lastWrittenSeq (clipboard c)) c in
  clipboard c' = clipboard c /\
  if seq_of c =w g_lastWrittenSeq (clipboard c)
  then held_text c' = g_originalClipText (clipboard c) /\ seq_of c < seq_of c'
  else held_text c' = held_text c /\ seq_of c' = seq_of c.
Proof.
  intros Hf. unfold RestoreOriginalClipboardIfSeqMatches.
  change (GetClipboardSequenceNumber (desktop c)) with (seq_of c).
  destruct (Z.eqb_spec (seq_of c) (g_lastWrittenSeq (clipboard c))) as [Hs|]; cbn [negb]; [|done].
  destruct Hf as [Hf|]; [|done]. destruct (silent_open c) as [Ho (Hc1 & Ht1 & Hs1 & Hf1)].
  destruct (ask OpenClipboard c) as [ok c1]. cbn [fst snd] in *. rewrite Ho, Hf. cbn [negb].
  change (GetClipboardSequenceNumber (desktop c1)) with (seq_of c1).
  rewrite Hs1, (proj2 (Z.eqb_eq _ _) Hs). cbn [negb].
  change (g_originalClipText (clipboard (on_desktop EmptyClipboard c1)))
    with (g_originalClipText (clipboard c1)).
  destruct (refill_law c1 (g_originalClipText (clipboard c1))) as (H1 & H2 & H3); [by rewrite Hf1|].
  rewrite H1, H2, <- Hs1, <- Hc1. done.
Qed.

Lemma restore_memory n c : clipboard (RestoreOriginalClipboardIfSeqMatches n c) = clipboard c.
Proof.
  unfold RestoreOriginalClipboardIfSeqMatches, put_text, ask. case_match; [done|].
  destruct (OpenClipboard (desktop c)) as [[] s]; cbn [negb]; [|done]. case_match; [done|].
  case_match; [|done]. cbn. by destruct (GlobalAlloc _ _) as [[] s'].
Qed.

(** The invariant of a step. *)
Definition safe user c : Prop :=
  kept user c /\ (forall u, user = Some u -> plain u) /\
  if g_hasOriginalClip (clipboard c) then g_lastWrittenSeq (clipboard c) <= seq_of c
  else g_lastWrittenSeq (clipboard c) < seq_of c.

Lemma safe_le user c : safe user c -> g_lastWrittenSeq (clipboard c) <= seq_of c.
Proof. intros (_ & _ & H). case_match; lia. Qed.

Lemma silent_safe user c c' : silent c c' -> safe user c -> safe user c'.
Proof.
  intros Hs (Hk & Hp & Hl). split; [by eapply silent_kept|]. destruct Hs as (-> & _ & -> & _). done.
Qed.

(** The timer's id plays no part. *)
Lemma timer_safe user id c : safe user c -> safe user (on_memory (set_timer id) c).
Proof. done. Qed.

Lemma restore_and_forget_safe user c :
  g_hasOriginalClip (clipboard c) = true -> safe user c ->
  free c = true \/ seq_of c <> g_lastWrittenSeq (clipboard c) ->
  safe user (restore_and_forget c) /\ forall u, user = Some u -> held_text (restore_and_forget c) = u.
Proof.
  intros Hh Hsafe Hf. pose proof (safe_le user c Hsafe) as Hle. destruct Hsafe as (Hk & Hp & _).
  unfold restore_and_forget. destruct (restore_law c Hf) as [Hc Ht].
  set (c1 := RestoreOriginalClipboardIfSeqMatches _ c) in *.
  assert (Hu : forall u, user = Some u -> held_text c1 = u).
  { intros u Eu. specialize (Hk u Eu). rewrite Hh in Hk.
    destruct (seq_of c =w _); destruct Ht as [Ht _]; congruence. }
  split; [|exact Hu]. split_and!; [exact Hu|exact Hp|]. cbn. rewrite Hc.
  change (seq_of (on_memory (set_original [] false) c1)) with (seq_of c1).
  destruct (Z.eqb_spec (seq_of c) (g_lastWrittenSeq (clipboard c))); lia.
Qed.

Lemma RestoreTimerProc_safe user id c :
  free c = true \/ seq_of c <> g_lastWrittenSeq (clipboard c) ->
  safe user c -> safe user (RestoreTimerProc id c).
Proof.
  intros Hf Hs. unfold RestoreTimerProc. case_match; [done|]. cbn zeta.
  set (c1 := on_desktop _ c).
  assert (Hq : silent c c1) by apply silent_desktop, KillTimer_quiet.
  assert (H1 : safe user (on_memory (set_timer 0) c1)) by (by apply timer_safe, (silent_safe user c)).
  destruct (g_hasOriginalClip _) eqn:Hh; cbn [negb]; [|done]. apply restore_and_forget_safe; try done.
  destruct Hq as (Hc & _ & Hsq & Hfr). unfold free, seq_of in *. cbn in *. by rewrite Hfr, Hsq.
Qed.

(** Saving, with the clipboard free or held by another process. *)
Lemma SaveOriginal_free user c :
  safe user c -> free c = true ->
  let c' := SaveOriginal c in
  free c' = true /\ g_hasOriginalClip (clipboard c') = true /\
  (forall u, user = Some u -> g_originalClipText (clipboard c') = u).
Proof.
  intros (Hk & Hp & Hl) Hf. unfold SaveOriginal.
  change (GetClipboardSequenceNumber (desktop c)) with (seq_of c). cbn zeta.
  destruct (negb (g_hasOriginalClip (clipboard c)) || _) eqn:Hb.
  - assert (Hu : forall u, user = Some u -> held_text c = u).
    { intros u Eu. specialize (Hk u Eu). apply orb_true_iff in Hb as [Hb%negb_true_iff|Hb%negb_true_iff].
      - by rewrite Hb in Hk.
      - rewrite Hb in Hk. by case_match. }
    set (c1 := on_memory _ c). destruct (silent_open c1) as [Ho (Hc & Ht & Hs & Hfr)].
    destruct (ask OpenClipboard c1) as [ok c2]. cbn [fst snd] in *. rewrite Ho.
    change (free c1) with (free c). rewrite Hf.
    set (c3 := match _ with Some _ => _ | None => c2 end).
    assert (H3 : (forall u, user = Some u -> g_originalClipText (clipboard c3) = u) /\ free c3 = true).
    { unfold held_text in Hu. unfold c3. rewrite Ht. change (desktop c1) with (desktop c) in *.
      destruct (GetClipboardText (desktop c)) as [text|]; (split; [intros u Eu|exact (eq_trans Hfr Hf)]);
        specialize (Hu u Eu); cbn in Hu |- *; [subst; by apply Hp|by rewrite Hc]. }
    destruct H3 as [H3 H4]. destruct (silent_desktop CloseClipboard c3) as (H6 & _ & _ & H9);
      [apply CloseClipboard_law|]. cbn. split_and!; [by rewrite <- H4, <- H9|done|exact H3].
  - apply orb_false_iff in Hb as [Hb%negb_false_iff Hb'%negb_false_iff].
    split_and!; [done|done|]. intros u Eu. specialize (Hk u Eu). by rewrite Hb, Hb' in Hk.
Qed.
Lemma SaveOriginal_held user c : safe user c -> free c = false ->
  safe user (SaveOriginal c) /\ free (SaveOriginal c) = false.
Proof.
  intros (Hk & Hp & Hl) Hf. unfold SaveOriginal.
  change (GetClipboardSequenceNumber (desktop c)) with (seq_of c). cbn zeta.
  destruct (negb (g_hasOriginalClip (clipboard c)) || _) eqn:Hb; [|by split].
  set (c1 := on_memory _ c). destruct (silent_open c1) as [Ho (Hc & Ht & Hs & Hfr)].
  destruct (ask OpenClipboard c1) as [ok c2]. cbn [fst snd] in *. rewrite Ho.
  change (free c1) with (free c) in *. rewrite Hf in *. split; [|exact Hfr].
  assert (Hne : seq_of c <> g_lastWrittenSeq (clipboard c)).
  { apply orb_true_iff in Hb as [Hb%negb_true_iff|Hb%negb_true_iff]; [rewrite Hb in Hl; lia|lia]. }
  assert (Hlast : g_lastWrittenSeq (clipboard c2) = g_lastWrittenSeq (clipboard c)) by by rewrite Hc.
  assert (Hu : forall u, user = Some u -> held_text c2 = u).
  { intros u Eu. specialize (Hk u Eu). unfold held_text. rewrite Ht.
    rewrite (proj2 (Z.eqb_neq _ _) Hne) in Hk. by case_match. }
  unfold safe, kept. cbn. change (seq_of (on_memory _ c2)) with (seq_of c2).
  change (seq_of c1) with (seq_of c) in Hs. rewrite Hlast, Hs, (proj2 (Z.eqb_neq _ _) Hne).
  split_and!; [exact Hu|exact Hp|]. case_match; lia.
Qed.

Lemma WriteOurText_free text c :
  free c = true ->
  let c' := WriteOurText text c in
  g_hasOriginalClip (clipboard c') = g_hasOriginalClip (clipboard c) /\
  g_originalClipText (clipboard c') = g_originalClipText (clipboard c) /\
  g_lastWrittenSeq (clipboard c') = seq_of c' /\ free c' = true.
Proof.
  intros Hf. unfold WriteOurText. destruct (silent_open c) as [Ho (Hc & _ & _ & Hfr)].
  destruct (ask OpenClipboard c) as [ok c1]. cbn [fst snd] in *. rewrite Ho, Hf.
  destruct (EmptyClipboard_law (desktop c1)) as (_ & _ & He).
  assert (Hf1 : free (on_desktop EmptyClipboard c1) = true).
  { unfold free in *. cbn. by rewrite He, Hfr. }
  destruct (put_text_changes text (on_desktop EmptyClipboard c1) Hf1) as [Hp (_ & _ & Hav)].
  set (c2 := put_text _ _) in *. destruct (ExcludeFromHistory_law (desktop c2)) as (_ & _ & Hx).
  destruct (CloseClipboard_law (ExcludeFromHistory (desktop c2))) as (_ & _ & Hcl).
  cbn. rewrite Hp. cbn. rewrite Hc. split_and!; [done|done|done|].
  unfold free in *. cbn. by rewrite Hcl, Hx, Hav.
Qed.
Lemma WriteOurText_held text c : free c = false -> silent c (WriteOurText text c).
Proof.
  intros Hf. unfold WriteOurText. destruct (silent_open c) as [Ho Hq].
  destruct (ask OpenClipboard c) as [ok c1]. cbn [fst snd] in *. by rewrite Ho, Hf.
Qed.

(** The text is on the clipboard, or the clipboard was left alone. *)
Lemma borrowed_safe user text c :
  safe user c -> let c' := WriteOurText text (SaveOriginal c) in safe user c' /\ free c' = free c.
Proof.
  intros Hs. destruct (free c) eqn:Hf.
  - destruct (SaveOriginal_free user c Hs Hf) as (H1 & H2 & H3).
    destruct (WriteOurText_free text _ H1) as (H4 & H5 & H6 & H7). cbv zeta.
    split; [|done]. unfold safe, kept. rewrite H4, H2, H6, Z.eqb_refl, H5.
    split_and!; [exact H3|apply Hs|lia].
  - destruct (SaveOriginal_held user c Hs Hf) as [H1 H2]. pose proof (WriteOurText_held text _ H2) as Hq.
    split; [by eapply silent_safe|]. destruct Hq as (_ & _ & _ & ->). done.
Qed.

Lemma ScheduleRestore_safe user c :
  safe user c -> free c = true \/ g_restoreTimerId (clipboard (ScheduleRestore c)) <> 0 ->
  safe user (ScheduleRestore c).
Proof.
  intros Hs Hf. unfold ScheduleRestore in *. pose proof (silent_ask (SetTimer 200) c) as Ha.
  specialize (Ha (SetTimer_quiet 200 (desktop c))).
  destruct (ask (SetTimer 200) c) as [id c1]. cbn [snd] in Ha.
  assert (H1 : safe user (on_memory (set_timer id) c1)) by (apply timer_safe; by eapply silent_safe).
  destruct (Z.eqb_spec id 0) as [->|]; cbn [andb] in *; [|exact H1].
  destruct (g_hasOriginalClip (clipboard (on_memory (set_timer 0) c1))) eqn:Hh; [|exact H1].
  apply restore_and_forget_safe; [done|done|]. destruct Hf as [Hf|Hf].
  - left. destruct Ha as (_ & _ & _ & Hfr). unfold free in *. cbn. by rewrite Hfr.
  - destruct Hf. unfold restore_and_forget. cbn. by rewrite restore_memory.
Qed.

Lemma Clipboard_Replace_safe user n text vk c :
  free c = true \/ text = [] \/ g_restoreTimerId (clipboard (Clipboard_Replace n text vk c).2) <> 0 ->
  safe user c -> safe user (Clipboard_Replace n text vk c).2.
Proof.
  intros Hf Hs. unfold Clipboard_Replace in *. case_match; [done|].
  destruct (bool_decide_reflect (text = [])) as [Htx|Htx].
  { pose proof (TrackedSendInput_silent
      (MakeReinjectDown vk ++ concat (replicate n (plain_tap VK_BACK))) c) as Hq.
    destruct (TrackedSendInput _ c) as [[ok sent] c1]. by eapply silent_safe. }
  set (c1 := CancelRestoreTimer c) in *.
  assert (H1 : safe user c1 /\ free c1 = free c).
  { unfold c1, CancelRestoreTimer. destruct (_ <>w 0); [|done].
    assert (Hq : silent c (on_desktop (KillTimer (g_restoreTimerId (clipboard c))) c))
      by apply silent_desktop, KillTimer_quiet.
    split; [by apply timer_safe, (silent_safe user c)|apply Hq]. }
  destruct H1 as [H1 Hf1]. destruct (borrowed_safe user text c1 H1) as [H3 Hf3].
  set (c3 := WriteOurText text (SaveOriginal c1)) in *.
  pose proof (TrackedSendInput_silent ((MakeReinjectDown vk ++
    concat (replicate n (plain_tap VK_BACK))) ++ paste_keys) c3) as Hq.
  destruct (TrackedSendInput _ c3) as [[ok sent] c4]. cbn [snd] in *.
  set (c5 := on_desktop (Sleep 15) c4) in *.
  assert (Hq5 : silent c3 c5) by (etrans; [exact Hq|]; apply silent_desktop, Sleep_quiet).
  apply ScheduleRestore_safe; [by eapply silent_safe|].
  destruct Hf as [Hf|[Hf|Hf]]; [left|done|by right].
  destruct Hq5 as (_ & _ & _ & ->). by rewrite Hf3, Hf1.
Qed.

Lemma promised_plain t u : promised t = Some u -> t = Some u /\ plain u.
Proof.
  unfold promised. destruct t as [w|]; cbn; [|done]. case_bool_decide as Hp; [|done]. by intros [= ->].
Qed.

Lemma clip_step_safe c user c' user' :
  clip_step (c, user) (c', user') -> safe user c -> safe user' c'.
Proof.
  intros Hst Hs. inversion Hst as [n text vk c0 u0 Hf E1 E2|id c0 u0 Hf E1 E2|f t c0 u0 Ht Hq E1 E2|
                                   f c0 u0 Ht Hq E1 E2]; simplify_eq.
  - by apply Clipboard_Replace_safe.
  - by apply RestoreTimerProc_safe.
  - pose proof (safe_le user c Hs) as Hle. unfold safe, kept. cbn [clipboard on_desktop set_desktop].
    split_and!; [|by intros u [_ ?]%promised_plain|case_match; lia].
    intros u [Eu _]%promised_plain. unfold held_text. cbn. rewrite Eu. cbn.
    rewrite (proj2 (Z.eqb_neq _ _)) by lia. by case_match.
  - destruct Hs as (Hk & Hp & Hl). unfold safe, kept, held_text in *.
    cbn [clipboard on_desktop set_desktop desktop]. by rewrite Ht, Hq.
Qed.


End Clipboard.
