(* ===== verification/Dispatcher.v ===== *)
(** * The output dispatcher (src/src/app/system/OutputDispatcher.cpp)

    What the hook types through: it holds the injector of the focused window, picks
    a way to deliver a replacement, retries and falls back, and keeps the times and
    the marks by which the hook knows that something synthetic is in flight.  Proved
    of it: what the counter of events holds, that the retries end, and that a
    replacement by messages is an edit when the control says so. *)

From stdpp Require Import relations.
From S2P Require Import Prelude Injector Config KeyDecisions.
From S2P Require Import OutputFacts.
Open Scope Z_scope.
Open Scope list_scope.

(** The fields of FocusClassification (HookCommandMailbox.h) that output reads. *)
Record FocusOutput := mkFocusOutput {
  localEditMsg : bool; localElectronApp : bool; focus_isConsole : bool; localNeedBait : bool;
  localUseClipboardInjector : bool; localForcedSplitSleepMs : Z; localForceEmReplaceSel : bool;
  localSkipEmpty : bool; localClipboard : bool; localGameReinject : bool;
  outputInjector : option IOutputInjector
}.

Section Dispatcher.
Context {KL : KeyboardLayout} {S : Type} {D : Desktop S}.

Record Dispatcher := mkDispatcher {
  channel : Channel S;                (* with synthEventsPending_ and the callback *)
  injector_ : IOutputInjector;
  sending_ : bool;
  useClipboardPaste_ : bool;
  skipEmptyChar_ : bool;
  wantsGameReinject_ : bool;
  lastSynthSendTime_ : Z;
  lastRealSynthTime_ : Z;
  hadSynthInWord_ : bool
}.
Implicit Types d : Dispatcher.

Definition set_channel (c : Channel S) d : Dispatcher :=
  mkDispatcher c (injector_ d) (sending_ d) (useClipboardPaste_ d) (skipEmptyChar_ d)
    (wantsGameReinject_ d) (lastSynthSendTime_ d) (lastRealSynthTime_ d) (hadSynthInWord_ d).
Definition set_sending (b : bool) d : Dispatcher :=
  mkDispatcher (channel d) (injector_ d) b (useClipboardPaste_ d) (skipEmptyChar_ d)
    (wantsGameReinject_ d) (lastSynthSendTime_ d) (lastRealSynthTime_ d) (hadSynthInWord_ d).
Definition set_policy (i : IOutputInjector) (paste skipEmpty reinject : bool) d : Dispatcher :=
  mkDispatcher (channel d) i (sending_ d) paste skipEmpty reinject
    (lastSynthSendTime_ d) (lastRealSynthTime_ d) (hadSynthInWord_ d).
Definition set_times (synth real : Z) d : Dispatcher :=
  mkDispatcher (channel d) (injector_ d) (sending_ d) (useClipboardPaste_ d) (skipEmptyChar_ d)
    (wantsGameReinject_ d) synth real (hadSynthInWord_ d).
Definition SetHadSynthInWord (b : bool) d : Dispatcher :=
  mkDispatcher (channel d) (injector_ d) (sending_ d) (useClipboardPaste_ d) (skipEmptyChar_ d)
    (wantsGameReinject_ d) (lastSynthSendTime_ d) (lastRealSynthTime_ d) b.
Definition on_channel (f : Channel S -> Channel S) d : Dispatcher := set_channel (f (channel d)) d.

(** The constructor: the default injector. *)
Definition NewDispatcher (s : S) : Dispatcher :=
  mkDispatcher (mkChannel false 0 no_clipboard s) (Create default_window)
    false false false false 0 0 false.

Definition Install d : Dispatcher := on_channel (set_callback true) d.
Definition Uninstall d : Dispatcher := on_channel (set_callback false) d.

(** ** The injector of a window *)

Definition PrepareFocusOutput (cls : FocusOutput) : FocusOutput :=
  mkFocusOutput (localEditMsg cls) (localElectronApp cls) (focus_isConsole cls) (localNeedBait cls)
    (localUseClipboardInjector cls) (localForcedSplitSleepMs cls) (localForceEmReplaceSel cls)
    (localSkipEmpty cls) (localClipboard cls) (localGameReinject cls)
    (Some (Create (mkWindow (localEditMsg cls) (localElectronApp cls) (focus_isConsole cls)
                     (localNeedBait cls) (localUseClipboardInjector cls)
                     (localForcedSplitSleepMs cls) (localForceEmReplaceSel cls)))).

Definition ApplyFocusOutput (cls : FocusOutput) (disposition : Modes.FocusApplyDisposition)
    (suggestKeepChars : bool) d : bool * Dispatcher :=
  match disposition, outputInjector cls with
  | Modes.DropStale, _ | _, None => (false, d)
  | _, Some inj =>
      (true,
       on_channel (on_desktop InvalidateFocusCache)
         (set_policy (mkInjector (kind inj) suggestKeepChars) (localClipboard cls)
            (localSkipEmpty cls) (localGameReinject cls) d))
  end.

Definition IsSyncReplaceChannel d : bool :=
  if SettleBudget (injector_ d) <>w 0 then false
  else if IsMessageBasedReplace (injector_ d) && IsForced (injector_ d) then true
  else
    let s := desktop (channel d) in
    let focusedWindow := CachedFocusedHwnd s in
    if (focusedWindow <>w 0) && IsWindow focusedWindow s
    then IsEditCompatibleClass (CachedFocusedClass s)
    else true.

Definition ShouldUseClipboard (currentTable : CodeTable) d : bool :=
  if currentTable != Unicode then false else useClipboardPaste_ d.

(** ** Sending *)

Definition RecordSynthDispatch d : Dispatcher :=
  let now := GetTickCount (desktop (channel d)) in set_times now now d.

(** A call of the channel with the gate [sending_] closed around it. *)
Definition while_sending {A} (f : Channel S -> A * Channel S) d : A * Dispatcher :=
  let d := set_sending true d in
  let '(a, c) := f (channel d) in
  (a, set_sending false (set_channel c d)).

(** A batch between the release and the return of the modifiers held. *)
Definition send_between (held : list Z) (events : list INPUT) (c : Channel S) : unit * Channel S :=
  let buf := release held ++ events in
  let restoreStart := length buf in
  let '(ok, sent, c) := TrackedSendInput (buf ++ press held) c in
  (tt, if negb ok then RestoreModifiersAfterPartialSend held sent 0 restoreStart c else c).

Definition SendBackspaceEvents (count : nat) d : Dispatcher :=
  if (count =? 0)%nat then d
  else
    let heldMods := QueryHeldModifiers count [] false (desktop (channel d)) in
    RecordSynthDispatch
      (while_sending (send_between heldMods (concat (replicate count (plain_tap VK_BACK)))) d).2.

Definition SendCharEvents (text : wstring) d : Dispatcher :=
  let heldMods := QueryHeldModifiers 0 text false (desktop (channel d)) in
  RecordSynthDispatch (while_sending (send_between heldMods (concat (tap_char <$> text))) d).2.

(** SetClipboardText of this file. *)
Definition WriteClipboard (text : wstring) (c : Channel S) : bool * Channel S :=
  let '(opened, c) := ask OpenClipboard c in
  if negb opened then (false, c)
  else
    let c := on_desktop EmptyClipboard c in
    let '(hMem, c) := ask (GlobalAlloc ((length text + 1) * 2)) c in
    if negb hMem then (false, on_desktop CloseClipboard c)
    else
      (true, on_desktop CloseClipboard (on_desktop ExcludeFromHistory
               (on_desktop (SetClipboardText text) c))).

Definition paste_with (mods : list Z) (c : Channel S) : unit * Channel S :=
  let send evs c := if evs == [] then c else (TrackedSendInput evs c).2 in
  let c := send ((fun vk => plain_key vk true) <$> mods) c in
  let c := (TrackedSendInput paste_keys c).2 in
  (tt, send ((fun vk => plain_key vk false) <$> mods) c).

Definition ClipboardPaste (text : wstring) d : Dispatcher :=
  if text == [] then d
  else
    let '(written, c) := WriteClipboard text (channel d) in
    let d := set_channel c d in
    if negb written then SendCharEvents text d
    else
      let mods := filter (fun vk => GetKeyState vk (desktop (channel d)) = true)
                    [VK_SHIFT; VK_MENU; VK_LWIN; VK_RWIN] in
      RecordSynthDispatch (while_sending (paste_with mods) d).2.

(** Refreshed when the cached window is gone; the window, and the answer of [f]
    for it. *)
Definition refreshed (c : Channel S) : Channel S :=
  let hwnd := CachedFocusedHwnd (desktop c) in
  if (hwnd =w 0) || negb (IsWindow hwnd (desktop c)) then on_desktop RefreshFocusCache c else c.

Definition TryEditMessagePaste (text : wstring) (backspaceCount : nat) d : bool * Dispatcher :=
  if (text == []) && (backspaceCount =? 0)%nat then (true, d)
  else
    let d := on_channel refreshed d in
    let hwnd := CachedFocusedHwnd (desktop (channel d)) in
    if hwnd =w 0 then (false, d)
    else if negb (IsEditCompatibleClass (CachedFocusedClass (desktop (channel d)))) then (false, d)
    else
      let '(ok, c) := ReplaceByMessages hwnd backspaceCount text (channel d) in
      (ok, set_channel c d).

(** ** The entry points *)

Definition ReplaceRaw (backspaceCount : nat) (text : wstring) d : bool * Dispatcher :=
  if (backspaceCount =? 0)%nat && (text == []) then (true, d)
  else
    let '(injOk, d) := while_sending (Replace (injector_ d) backspaceCount text 0) d in
    (injOk, RecordSynthDispatch d).

Definition InjectKey (vkCode : Z) d : Dispatcher :=
  let d := (while_sending (fun c => (tt, Injector_SendKey (injector_ d) vkCode c)) d).2 in
  set_times (GetTickCount (desktop (channel d))) (lastRealSynthTime_ d) d.

Definition SendBackspaces (count : nat) d : Dispatcher :=
  if (count =? 0)%nat then d else (ReplaceRaw count [] d).2.

Definition MarkSynthInWord d : Dispatcher :=
  if 0 <? synthEventsPending_ (channel d) then SetHadSynthInWord true d else d.

Definition kAsyncRenderMaxWaitMs : Z := 30.
Definition kAsyncRenderStepMs : Z := 1.

(** The retries of the message channel; [false]: given up.  The waits are counted
    up to [kAsyncRenderMaxWaitMs], so that [fuel] of one more is never exhausted. *)
Fixpoint retry_replace (fuel : nat) (elapsedWaitTimeMs retryDeadline : Z) (bsCount : nat)
    (text : wstring) d : bool * Dispatcher :=
  match fuel with
  | O => (false, d)
  | Datatypes.S fuel =>
      let '(ok, c) := Replace (injector_ d) bsCount text 0 (channel d) in
      let d := set_channel c d in
      if ok then (true, MarkSynthInWord d)
      else if (kAsyncRenderMaxWaitMs <=? elapsedWaitTimeMs) ||
              (retryDeadline <=? steady_clock (desktop (channel d)))
      then (false, d)
      else retry_replace fuel (elapsedWaitTimeMs + kAsyncRenderStepMs) retryDeadline bsCount text
             (on_channel (on_desktop (Sleep kAsyncRenderStepMs)) d)
  end.
Definition retry_fuel : nat := Z.to_nat kAsyncRenderMaxWaitMs + 1.

Definition ReplaceBySync (backspaceCount : nat) (text : wstring) d : Dispatcher :=
  let d := on_channel refreshed d in
  let s := desktop (channel d) in
  let isEditCompatible :=
    (CachedFocusedHwnd s <>w 0) &&
    (IsEditCompatibleClass (CachedFocusedClass s) || IsForced (injector_ d)) in
  let '(isReplaced, d) :=
    if isEditCompatible
    then retry_replace retry_fuel 0 (steady_clock s + kAsyncRenderMaxWaitMs) backspaceCount text d
    else (false, d) in
  if isReplaced then d
  else
    MarkSynthInWord (RecordSynthDispatch
      (while_sending (Win32_Replace false false backspaceCount text 0) d).2).

Definition ReplaceByClipboard (backspaceCount : nat) (text : wstring) (reinjectVk : Z) d
    : Dispatcher :=
  let bsCount := if (reinjectVk <>w 0) && (0 <? backspaceCount)%nat
                 then (backspaceCount - 1)%nat else backspaceCount in
  let '(pasted, d) := TryEditMessagePaste text bsCount d in
  if pasted then MarkSynthInWord d
  else
    let d := if (0 <? bsCount)%nat
             then on_channel (on_desktop (Sleep 8)) (SendBackspaceEvents bsCount d) else d in
    MarkSynthInWord (if negb (text == []) then ClipboardPaste text d else d).

Definition ReplaceUnicode (backspaceCount : nat) (text : wstring) (reinjectVk : Z) d : Dispatcher :=
  if (reinjectVk =w 0) && IsSyncReplaceChannel d then ReplaceBySync backspaceCount text d
  else if useClipboardPaste_ d then ReplaceByClipboard backspaceCount text reinjectVk d
  else
    MarkSynthInWord
      (if (0 <? backspaceCount)%nat || negb (text == []) || (reinjectVk <>w 0)
       then RecordSynthDispatch
              (while_sending (Replace (injector_ d) backspaceCount text reinjectVk) d).2
       else d).

End Dispatcher.

Arguments Dispatcher : clear implicits.

(** ** The dispatcher: events in flight, retries, and edits by message

    The counter of synthetic events against the events that are on their way; the
    retry loop of the message channel; what messages do to an edit control. *)

(** ** Synthetic events in flight *)

(** The process's own events between their insertion and its hook. *)
Class Flight (S : Type) `{Desktop S} := {
  in_flight : S -> Z;
  in_flight_nonneg s : 0 <= in_flight s;
  SendInput_flight evs s :
    let '(sent, seen, s') := SendInput evs s in
    (sent <= length evs)%nat /\ Z.of_nat seen <= in_flight s + Z.of_nat sent /\
    in_flight s' = in_flight s + Z.of_nat sent - Z.of_nat seen
}.

Section Counter.
Context {S : Type} {D : Desktop S} {F : Flight S}.
Implicit Types c : Channel S.

Definition flight c : Z := in_flight (desktop c).
Definition kMaxFlight : Z := 2 ^ 30.

(** What happens to a channel, and to the number of events lost: a tracked batch; an
    own event at the hook; one that another hook swallows, so that it never comes; a
    reset at a word boundary or by the watchdog, or an event counted twice; or
    anything else of the desktop. *)
Inductive channel_step (disturbed : bool) : Channel S * Z -> Channel S * Z -> Prop :=
  | step_send events c lost :
      Z.of_nat (length events) + flight c < kMaxFlight ->
      channel_step disturbed (c, lost) ((TrackedSendInput events c).2, lost)
  | step_own f c lost :
      in_flight (f (desktop c)) = flight c - 1 ->
      channel_step disturbed (c, lost) (DecrementSynthEvents (on_desktop f c), lost)
  | step_lost f c lost :
      in_flight (f (desktop c)) = flight c - 1 -> lost < kMaxFlight ->
      channel_step disturbed (c, lost) (on_desktop f c, lost + 1)
  | step_reset c lost :
      disturbed = true -> channel_step disturbed (c, lost) (ResetSynthEvents c, 0)
  | step_twice c lost :
      disturbed = true -> channel_step disturbed (c, lost) (DecrementSynthEvents c, lost)
  | step_else f c lost :
      in_flight (f (desktop c)) = flight c ->
      channel_step disturbed (c, lost) (on_desktop f c, lost).

Lemma i32_small z : - 2 ^ 31 <= z < 2 ^ 31 -> i32 z = z.
Proof. intros H. unfold i32. rewrite Z.mod_small; lia. Qed.

Lemma iter_decrement k c :
  - kMaxFlight <= synthEventsPending_ c < kMaxFlight + kMaxFlight ->
  let c' := Nat.iter k DecrementSynthEvents c in
  synthEventsPending_ c' = Z.max (synthEventsPending_ c - Z.of_nat k) (Z.min (synthEventsPending_ c) 0) /\
  g_synthCounterCallback c' = g_synthCounterCallback c.
Proof.
  intros Hb. induction k as [|k IH].
  - cbn. split; [lia|done].
  - change (Nat.iter (Datatypes.S k) DecrementSynthEvents c)
      with (DecrementSynthEvents (Nat.iter k DecrementSynthEvents c)).
    destruct IH as [IH Hg]. set (c1 := Nat.iter k DecrementSynthEvents c) in *.
    unfold DecrementSynthEvents. destruct (Z.ltb_spec 0 (synthEventsPending_ c1)); cbn.
    + rewrite i32_small by (unfold kMaxFlight in *; lia). split; [lia|done].
    + split; [lia|done].
Qed.

(** The counter after a tracked batch. *)
Lemma TrackedSendInput_pending events c lost :
  g_synthCounterCallback c = true -> 0 <= lost <= kMaxFlight ->
  - kMaxFlight <= synthEventsPending_ c <= flight c + lost ->
  Z.of_nat (length events) + flight c < kMaxFlight ->
  let c' := (TrackedSendInput events c).2 in
  g_synthCounterCallback c' = true /\ - kMaxFlight <= synthEventsPending_ c' <= flight c' + lost /\
  flight c' <= kMaxFlight /\
  (synthEventsPending_ c = flight c + lost -> synthEventsPending_ c' = flight c' + lost).
Proof.
  intros Hg Hlost Hp Hm. unfold TrackedSendInput.
  set (c1 := if (0 <? length events)%nat then _ else _).
  assert (H1 : synthEventsPending_ c1 = synthEventsPending_ c + Z.of_nat (length events) /\
               g_synthCounterCallback c1 = true /\ desktop c1 = desktop c).
  { unfold c1, OnSynthDispatched. rewrite Hg. destruct (Nat.ltb_spec 0 (length events)); cbn.
    - rewrite i32_small by (unfold kMaxFlight in *; lia). done.
    - split; [lia|done]. }
  destruct H1 as (Hp1 & Hg1 & ->). pose proof (SendInput_flight events (desktop c)) as Hf.
  pose proof (in_flight_nonneg (desktop c)) as H0. unfold flight in *.
  destruct (SendInput events (desktop c)) as [[sent seen] s]. destruct Hf as (Hl & Hs & Hf').
  destruct (iter_decrement seen (set_desktop s c1)) as [Hp2 Hg2]; [cbn; lia|].
  pose proof (desktop_decrements seen (set_desktop s c1)) as Hd. cbn [desktop set_desktop] in Hd.
  set (c2 := Nat.iter seen _ _) in *. cbn [set_desktop synthEventsPending_] in Hp2.
  cbn [snd]. destruct (Nat.ltb_spec sent (length events)).
  - unfold OnSynthDispatched. rewrite Hg2. cbn [g_synthCounterCallback set_desktop]. rewrite Hg1.
    cbn [set_pending synthEventsPending_ desktop g_synthCounterCallback]. rewrite Hd, Hg2, Hf'.
    rewrite i32_small by (unfold kMaxFlight in *; lia). cbn. split; [done|]. lia.
  - rewrite Hd, Hg2, Hf'. cbn. split; [done|]. lia.
Qed.

Definition counted (disturbed : bool) c (lost : Z) : Prop :=
  g_synthCounterCallback c = true /\ 0 <= lost <= kMaxFlight /\
  - kMaxFlight <= synthEventsPending_ c <= flight c + lost /\
  flight c <= kMaxFlight /\ (disturbed = false -> synthEventsPending_ c = flight c + lost).

Lemma decrement_pending c :
  - kMaxFlight <= synthEventsPending_ c <= kMaxFlight + kMaxFlight ->
  synthEventsPending_ (DecrementSynthEvents c) =
    Z.max (synthEventsPending_ c - 1) (Z.min (synthEventsPending_ c) 0) /\
  g_synthCounterCallback (DecrementSynthEvents c) = g_synthCounterCallback c /\
  desktop (DecrementSynthEvents c) = desktop c.
Proof.
  intros Hb. unfold DecrementSynthEvents. destruct (Z.ltb_spec 0 (synthEventsPending_ c)); cbn.
  - rewrite i32_small by (unfold kMaxFlight in *; lia). split; [lia|done].
  - split; [lia|done].
Qed.

Lemma channel_step_counted disturbed c lost c' lost' :
  channel_step disturbed (c, lost) (c', lost') -> counted disturbed c lost -> counted disturbed c' lost'.
Proof.
  intros Hst (Hg & Hlost & Hp & Hm & He).
  inversion Hst as [events c0 l0 Hl|f c0 l0 Hf|f c0 l0 Hf Hlt|c0 l0 Hr|c0 l0 Hr|f c0 l0 Hf]; simplify_eq.
  - destruct (TrackedSendInput_pending events c lost' Hg Hlost Hp Hl) as (? & ? & ? & He').
    unfold counted. split_and!; auto; lia.
  - pose proof (in_flight_nonneg (f (desktop c))) as Hn. unfold counted, flight in *.
    destruct (decrement_pending (on_desktop f c)) as (-> & -> & ->); [cbn; lia|].
    cbn [synthEventsPending_ on_desktop set_desktop desktop g_synthCounterCallback]. rewrite Hf.
    split_and!; try done; try lia. intros Hx. specialize (He Hx). lia.
  - unfold counted, flight in *. cbn. rewrite Hf. split_and!; try done; try lia.
    intros Hx. specialize (He Hx). lia.
  - pose proof (in_flight_nonneg (desktop c)). unfold counted, flight in *. cbn.
    split_and!; done || (unfold kMaxFlight in *; lia).
  - unfold counted, flight in *. destruct (decrement_pending c) as (-> & -> & ->); [lia|].
    split_and!; done || lia.
  - unfold counted, flight in *. cbn. rewrite Hf. tauto.
Qed.

(** C27. The counter of synthetic events never claims more than are on their way and
    were lost for good: however batches were cut, events delayed, swallowed by other
    hooks or counted twice, and the counter reset.  As long as it is not reset and
    none is counted twice it is exact, so what it still holds when nothing is on its
    way any more is the number of events that never came back: the baseline leak the
    comment in HookEngineCommitUndo.cpp tells of.  When none was lost since the last
    reset it then holds no key any more. *)
Theorem own_events_counted disturbed s c lost :
  in_flight s = 0 ->
  rtc (channel_step disturbed) (set_callback true (mkChannel false 0 no_clipboard s), 0) (c, lost) ->
  synthEventsPending_ c <= flight c + lost /\
  (disturbed = false -> synthEventsPending_ c = flight c + lost) /\
  (flight c = 0 -> lost = 0 -> (0 <? synthEventsPending_ c) = false).
Proof.
  intros Hs Hr.
  assert (H : counted disturbed c lost).
  { assert (H0 : counted disturbed (set_callback true (mkChannel false 0 no_clipboard s)) 0).
    { unfold counted, flight, kMaxFlight. cbn. rewrite Hs. split_and!; done || lia. }
    remember (set_callback true (mkChannel false 0 no_clipboard s), 0) as a eqn:Ea.
    remember (c, lost) as b eqn:Eb.
    assert (Hgen : counted disturbed a.1 a.2 -> counted disturbed b.1 b.2).
    { clear -Hr. induction Hr as [a|[c l] [c' l'] b Hst _ IH]; [done|].
      intros H0. by apply IH, (channel_step_counted disturbed c l). }
    subst. by apply Hgen. }
  destruct H as (_ & _ & Hp & _ & He). split_and!; [lia|done|]. intros Hf Hl. apply Z.ltb_ge. lia.
Qed.

End Counter.

(** ** The retries end *)

Section Retry.
Context {S : Type} {KL : KeyboardLayout} {D : Desktop S}.
Implicit Types (d : Dispatcher S).

(** The loop gives up by its own count before [retry_fuel] runs out. *)
Lemma retry_fuel_enough fuel elapsed deadline n text d :
  0 <= elapsed <= kAsyncRenderMaxWaitMs ->
  (Z.to_nat (kAsyncRenderMaxWaitMs - elapsed) < fuel)%nat ->
  retry_replace fuel elapsed deadline n text d =
  retry_replace (Datatypes.S (Z.to_nat (kAsyncRenderMaxWaitMs - elapsed))) elapsed deadline n text d.
Proof.
  revert elapsed d. induction fuel as [|fuel IH]; intros elapsed d He Hf; [lia|].
  cbn [retry_replace]. destruct (Replace _ _ _ _ _) as [ok c]. destruct ok; [done|].
  destruct (Z.leb_spec kAsyncRenderMaxWaitMs elapsed) as [Hm|Hm]; [done|].
  destruct (deadline <=? _); [done|]. cbn [orb].
  unfold kAsyncRenderMaxWaitMs, kAsyncRenderStepMs in *.
  replace (Z.to_nat (30 - elapsed)) with (Datatypes.S (Z.to_nat (30 - (elapsed + 1)))) in * by lia.
  apply IH; lia.
Qed.

End Retry.

(** ** Edits by message *)

(** An edit control: its caret is at the end of its text, and [selected] is where a
    selection up to the caret starts.  One that [answers] answers every message in
    time.  One that does not may have done what it was told, or not. *)
Class EditControl (S : Type) `{Desktop S} := {
  edit_text : S -> wstring;
  selected : S -> nat;
  answers : S -> bool;
  EM_GETSEL_law w s : let '(r, s') := EM_GETSEL w s in
    r = (if answers s then Some (Z.of_nat (length (edit_text s))) else r) /\
    (r = None \/ r = Some (Z.of_nat (length (edit_text s)))) /\
    edit_text s' = edit_text s /\ selected s' = selected s /\ answers s' = answers s;
  EM_SETSEL_law w b s : (Z.to_nat b <= length (edit_text s))%nat ->
    let '(ok, s') := EM_SETSEL w b (Z.of_nat (length (edit_text s))) s in
    (ok = true -> selected s' = Z.to_nat b) /\ (answers s = true -> ok = true) /\
    edit_text s' = edit_text s /\ answers s' = answers s;
  EM_REPLACESEL_law w t s : let '(ok, s') := EM_REPLACESEL w t s in
    let done_ := take (selected s) (edit_text s) ++ t in
    (if ok then edit_text s' = done_ else edit_text s' = edit_text s \/ edit_text s' = done_) /\
    (answers s = true -> ok = true);
  WM_SETREDRAW_law w b s : let '(_, s') := WM_SETREDRAW w b s in
    edit_text s' = edit_text s /\ selected s' = selected s /\ answers s' = answers s;
  InvalidateRect_law w s : edit_text (InvalidateRect w s) = edit_text s
}.

Section Messages.
Context {S : Type} {KL : KeyboardLayout} {D : Desktop S} {EC : EditControl S}.
Implicit Types c : Channel S.

Lemma c_str_id text : Forall (fun ch => ch <> 0) text -> c_str text = text.
Proof.
  intros H. unfold c_str. destruct (list_find _ text) as [[i x]|] eqn:Hf; [|done].
  apply list_find_Some in Hf as (Hi & -> & _). by rewrite Forall_lookup in H; apply H in Hi.
Qed.

Lemma redraw_again_text b w c : edit_text (desktop (redraw_again b w c)) = edit_text (desktop c).
Proof.
  unfold redraw_again. destruct b; [|done]. cbn. rewrite InvalidateRect_law.
  pose proof (WM_SETREDRAW_law w true (desktop c)) as Hl. unfold ask.
  destruct (WM_SETREDRAW w true (desktop c)) as [r s]. by destruct Hl as (? & _).
Qed.

Definition text_of c : wstring := edit_text (desktop c).

(** What comes of a replacement by messages: an edit when the control says so; when
    it does not, nothing or the whole edit, done too late to be told.  A control that
    answers refuses only what reaches beyond the start of its text. *)
Definition edited (n : nat) (text : wstring) c (r : bool * Channel S) : Prop :=
  let '(ok, c') := r in
  (text_of c' = edit n text (text_of c) /\ (n <= length (text_of c))%nat \/
   ok = false /\ text_of c' = text_of c) /\
  (answers (desktop c) = true -> ok = bool_decide (n <= length (text_of c))%nat).

(** The text sent to what is selected. *)
Lemma replace_selection_edits n text w sup c c1 :
  text_of c1 = text_of c -> selected (desktop c1) = (length (text_of c) - n)%nat ->
  answers (desktop c1) = answers (desktop c) -> (n <= length (text_of c))%nat ->
  edited n text c (let '(ok, c2) := ask (EM_REPLACESEL w text) c1 in (ok, redraw_again sup w c2)).
Proof.
  intros Ht Hs Ha Hn. unfold ask, text_of in *. pose proof (EM_REPLACESEL_law w text (desktop c1)) as Hr.
  destruct (EM_REPLACESEL w text (desktop c1)) as [ok s]. destruct Hr as [Hr Hans].
  unfold edited, text_of. rewrite redraw_again_text. cbn [desktop set_desktop].
  rewrite Ht, Hs in Hr. fold (edit n text (edit_text (desktop c))) in Hr. rewrite Ha in Hans. split.
  - destruct ok; [by left|]. destruct Hr; [by right|by left].
  - intros H. rewrite bool_decide_eq_true_2 by done. by apply Hans.
Qed.

Lemma ReplaceByMessages_edits w n text c :
  Forall (fun ch => ch <> 0) text -> Z.of_nat n < 2 ^ 32 -> Z.of_nat (length (text_of c)) < 2 ^ 32 ->
  selected (desktop c) = length (text_of c) ->
  edited n text c (ReplaceByMessages w n text c).
Proof.
  intros Ht Hn Hlen Hsel. unfold ReplaceByMessages. rewrite c_str_id by done.
  destruct (Nat.ltb_spec 0 n) as [H0|H0].
  2: { apply (replace_selection_edits n text w false c c); try done; lia. }
  unfold ask at 1. pose proof (EM_GETSEL_law w (desktop c)) as Hg.
  destruct (EM_GETSEL w (desktop c)) as [r s1]. destruct Hg as (Ha & Hr & Ht1 & Hs1 & Ha1).
  assert (Hrefused : forall r0, r0 = None \/ r0 = Some (Z.of_nat (length (text_of c))) ->
    answers (desktop c) = false \/ (length (text_of c) < n)%nat ->
    edited n text c (false, set_desktop s1 c)).
  { intros r0 _ Hc. split; [by right|]. intros Han. destruct Hc as [Hc|Hc]; [congruence|].
    by rewrite bool_decide_eq_false_2 by lia. }
  destruct r as [e|]; [|apply (Hrefused None); [by left|left; by destruct (answers (desktop c))]].
  destruct Hr as [|Hr]; [done|]. injection Hr as ->. unfold u32.
  rewrite (Z.mod_small (Z.of_nat n)) by lia. change (edit_text (desktop c)) with (text_of c) in *.
  destruct (Z.ltb_spec (Z.of_nat (length (text_of c))) (Z.of_nat n)) as [Hlt|Hge];
    [apply (Hrefused None); [by left|right; lia]|]. rewrite Z.mod_small by lia. unfold ask at 1.
  cbn [desktop set_desktop].
  pose proof (WM_SETREDRAW_law w false s1) as Hw. destruct (WM_SETREDRAW w false s1) as [sup s2].
  destruct Hw as (Ht2 & Hs2 & Ha2). unfold ask at 1. cbn [desktop set_desktop].
  pose proof (EM_SETSEL_law w (Z.of_nat (length (text_of c)) - Z.of_nat n) s2) as Hss.
  rewrite Ht2, Ht1 in Hss. destruct (EM_SETSEL _ _ _ s2) as [sel s3].
  destruct Hss as (Hs3 & Ha3 & Ht3 & Ha4); [lia|]. destruct sel; cbn [negb].
  - apply replace_selection_edits; cbn [desktop set_desktop]; [exact Ht3| |congruence|lia].
    rewrite Hs3 by done. lia.
  - split; [right; split; [done|]; unfold text_of; by rewrite redraw_again_text|].
    intros Han. exfalso. assert (false = true) by (apply Ha3; congruence). done.
Qed.

(** C28. An edit control edited by message, its caret at the end of its text and
    nothing selected: when the replacement is reported done, the characters before
    the caret are replaced, all of them and nothing else; a re-injected letter, which
    has no key stream to travel in, costs one deletion less.  When it is reported not
    done the text is as it was, or the whole edit was done too late for the answer.
    A control that answers every message in time refuses exactly when the caret is
    too near the start.  The selection is not promised: an unanswered replacement may
    leave the characters selected ([timed_out_replace_overdeletes] is what the
    fallback then does). *)
Theorem message_replacement_is_edit forced n text reinjectVk c :
  Forall (fun ch => ch <> 0) text -> Z.of_nat n < 2 ^ 32 -> Z.of_nat (length (text_of c)) < 2 ^ 32 ->
  selected (desktop c) = length (text_of c) ->
  ResolveFocusedHwnd (desktop c) <> 0 ->
  IsEditCompatibleClass (GetClassNameW (ResolveFocusedHwnd (desktop c)) (desktop c)) = true ->
  let m := if (reinjectVk =w 0) then n else (n - 1)%nat in
  let '(ok, c') := RichEdit_Replace forced n text reinjectVk c in
  (text_of c' = edit m text (text_of c) /\ (m <= length (text_of c))%nat \/
   ok = false /\ text_of c' = text_of c) /\
  (answers (desktop c) = true -> ok = bool_decide (m <= length (text_of c))%nat).
Proof.
  intros Ht Hn Hlen Hsel Hw Hc m. unfold RichEdit_Replace.
  destruct ((n =? 0)%nat && (text == []) && (reinjectVk =w 0)) eqn:Htriv.
  { rewrite !andb_true_iff, bool_decide_eq_true in Htriv.
    destruct Htriv as [[->%Nat.eqb_eq ->] Hv]. unfold m. rewrite Hv, edit_type, app_nil_r.
    split; [left; split; [done|lia]|]. intros _. by rewrite bool_decide_eq_true_2 by lia. }
  rewrite (proj2 (Z.eqb_neq _ _) Hw), bool_decide_eq_false_2, Hc, andb_false_r
    by (intros He; by rewrite He in Hc).
  replace (if (reinjectVk <>w 0) && (0 <? n)%nat then _ else n) with m.
  - apply ReplaceByMessages_edits; try done. unfold m. case_match; lia.
  - unfold m. destruct (reinjectVk =w 0), (Nat.ltb_spec 0 n); cbn; lia.
Qed.

End Messages.
