(* ===== verification/InputEngine.v ===== *)
(** * The engine interface of the front ends
      (src/src/core/engine/IInputEngine.h, CommittedTextRestore.h)

    The keyboard hook and the text service hold an engine behind an abstract
    class.  Here it is a type class of operations, with the laws its clients
    rely on in a second class; an implementation discharges them in
    EngineInstance.v.  The policy that reopens a committed word is a client. *)

From S2P Require Import Prelude.
Open Scope Z_scope.

(** ** The interface *)

Class InputEngine (E : Type) := {
  PushChar : wchar -> E -> E;
  PushKey : wchar -> bool -> E -> E;
  Backspace : E -> E;
  Peek : E -> wstring;
  Commit : E -> wstring * E;
  Reset : E -> E;
  ClearContext : E -> E;
  Count : E -> nat;
  HasActiveQuickConsonant : E -> bool;
  SeedFromText : wstring -> E -> E * bool;
  IsEnglishWord : E -> bool;
  IsToneEscaped : E -> bool;
  PeekRaw : E -> wstring;
  ShouldReplayCommittedKey : wstring -> wchar -> E -> bool;
  LastCommitWasCorrected : E -> bool
}.

(** What a client may rely on: the engine has as many letters as it shows
    characters, a commit and a reset leave it empty, the context is not part of the
    word, whether a text can be seeded is a matter of the text, and a seed that
    succeeds shows it.  [engine_ok] are the states its own operations lead to; a key
    is a character other than NUL. *)
Class InputEngineLaws (E : Type) `{InputEngine E} := {
  engine_ok : E -> Prop;
  Reset_ok e : engine_ok (Reset e);
  PushChar_ok c e : c <> 0 -> engine_ok e -> engine_ok (PushChar c e);
  PushKey_ok c u e : c <> 0 -> engine_ok e -> engine_ok (PushKey c u e);
  Backspace_ok e : engine_ok e -> engine_ok (Backspace e);
  ClearContext_ok e : engine_ok e -> engine_ok (ClearContext e);
  Commit_ok e : engine_ok (Commit e).2;
  SeedFromText_ok t e : engine_ok (SeedFromText t e).1;
  Count_Peek e : engine_ok e -> length (Peek e) = Count e;
  Reset_Count e : Count (Reset e) = 0%nat;
  Commit_Count e : Count (Commit e).2 = 0%nat;
  Backspace_nothing e : Count e = 0%nat -> Backspace e = e;
  ClearContext_Count e : Count (ClearContext e) = Count e;
  ClearContext_Peek e : Peek (ClearContext e) = Peek e;
  Seeded_shows t e : (SeedFromText t e).2 = true -> Peek (SeedFromText t e).1 = t;
  Seed_same t e e' : (SeedFromText t e).2 = (SeedFromText t e').2;
  PeekRaw_keys e : engine_ok e -> Forall (fun c => c <> 0) (PeekRaw e)
}.

Section Interface.
Context {E : Type} `{IEL : InputEngineLaws E}.

Lemma empty_shows_nothing e : engine_ok e -> Count e = 0%nat -> Peek e = [].
Proof. intros H0 Hc. apply nil_length_inv. by rewrite Count_Peek. Qed.

Lemma Reset_Peek e : Peek (Reset e) = [].
Proof. apply empty_shows_nothing; [apply Reset_ok|apply Reset_Count]. Qed.

Lemma shows_counts e : engine_ok e -> Peek e = [] <-> Count e = 0%nat.
Proof. intros Hok. rewrite <- Count_Peek by done. by destruct (Peek e). Qed.

End Interface.

(** ** Reopening a committed word (CommittedTextRestore.h)

    The text on the screen is known; the keys that gave it may be.  Replaying
    the keys keeps what each letter came from, seeding from the text does not;
    whichever is tried must show the very text, or nothing is restored. *)

Inductive CommittedTextRestoreResult := RestoreFailed | ReplayedHistory | SeededVisibleText.
Inductive CommittedTextRestorePreference := PreferHistory | PreferVisibleText.
#[export] Instance CommittedTextRestoreResult_eq_dec : EqDecision CommittedTextRestoreResult.
Proof. solve_decision. Defined.
#[export] Instance CommittedTextRestorePreference_eq_dec :
  EqDecision CommittedTextRestorePreference.
Proof. solve_decision. Defined.

Section Restore.
Context {E : Type} {IE : InputEngine E}.

(** Reset, seed, and does it show the text. *)
Definition seed_visible (visible : wstring) (e : E) : E * bool :=
  let '(e, ok) := SeedFromText visible (Reset e) in (e, ok && (Peek e == visible)).

Definition RestoreCommittedText (visible : wstring) (replay : E -> E)
    (preference : CommittedTextRestorePreference) (e : E) : E * CommittedTextRestoreResult :=
  let '(e, early) :=
    match preference with
    | PreferVisibleText => seed_visible visible e | PreferHistory => (e, false)
    end in
  if early then (e, SeededVisibleText)
  else
    let e := replay (Reset e) in
    if Peek e == visible then (e, ReplayedHistory)
    else
      let '(e, late) :=
        match preference with
        | PreferHistory => seed_visible visible e | PreferVisibleText => (e, false)
        end in
      if late then (e, SeededVisibleText) else (Reset e, RestoreFailed).

(** Reopening either succeeds and the engine shows the text on the screen, or
    fails and the engine is reset: there is no third outcome. *)
Lemma RestoreCommittedText_shows visible replay pref e :
  let '(e', r) := RestoreCommittedText visible replay pref e in
  (r <> RestoreFailed /\ Peek e' = visible) \/ (r = RestoreFailed /\ exists x, e' = Reset x).
Proof.
  unfold RestoreCommittedText, seed_visible.
  repeat case_match; simplify_eq; rewrite ?andb_true_iff, ?bool_decide_eq_true in *;
    try (left; split; [done|]; tauto); right; eauto.
Qed.

(** What it takes to fail: neither the keys nor the text alone show the word. *)
Lemma RestoreCommittedText_fails visible replay pref e :
  (RestoreCommittedText visible replay pref e).2 = RestoreFailed ->
  exists x y, (seed_visible visible x).2 = false /\ Peek (replay (Reset y)) <> visible.
Proof.
  unfold RestoreCommittedText. destruct pref; cbn.
  - case_bool_decide; [done|].
    destruct (seed_visible visible (replay (Reset e))) as [e' []] eqn:Es; [done|].
    intros _. exists (replay (Reset e)), e. by rewrite Es.
  - destruct (seed_visible visible e) as [e' []] eqn:Es; [done|].
    case_bool_decide; [done|]. intros _. exists e, e'. by rewrite Es.
Qed.

Context {IEL : InputEngineLaws E}.

Lemma seed_visible_ok visible e : engine_ok (seed_visible visible e).1.
Proof.
  unfold seed_visible. destruct (SeedFromText _ _) as [e' ok] eqn:Es. cbn.
  change e' with (e', ok).1. rewrite <- Es. apply SeedFromText_ok.
Qed.

Lemma RestoreCommittedText_ok visible replay pref e :
  (forall x, engine_ok x -> engine_ok (replay x)) ->
  engine_ok (RestoreCommittedText visible replay pref e).1.
Proof.
  intros Hr. unfold RestoreCommittedText. destruct pref; cbn.
  - case_bool_decide; cbn; [by apply Hr, Reset_ok|].
    destruct (seed_visible _ _) as [e' []] eqn:Es; cbn; [|apply Reset_ok].
    change e' with (e', true).1. rewrite <- Es. apply seed_visible_ok.
  - destruct (seed_visible visible e) as [e' []] eqn:Es; cbn.
    + change e' with (e', true).1. rewrite <- Es. apply seed_visible_ok.
    + case_bool_decide; [by apply Hr, Reset_ok|apply Reset_ok].
Qed.

End Restore.
