(* ===== verification/EngineInstance.v ===== *)
(** * The typing engine behind the engine interface

    TypingEngine implements IInputEngine: its own operations where it has one,
    the interface's defaults for the three it does not override (no context to
    clear, no replay of committed keys, no corrected commits). *)

From S2P Require Import Prelude Tables Config CharState Engine TypingEngine.
From S2P Require Import Invariant RulesFrame ComposeFacts Operations InputEngine.
Open Scope Z_scope.

Section Instance_.
Context {P : Platform}.

#[export] Instance TypingEngine_InputEngine : InputEngine Engine := {|
  InputEngine.PushChar := TypingEngine.PushChar;
  InputEngine.PushKey := TypingEngine.PushKey;
  InputEngine.Backspace := TypingEngine.Backspace;
  InputEngine.Peek := TypingEngine.Peek;
  InputEngine.Commit := TypingEngine.Commit;
  InputEngine.Reset := TypingEngine.Reset;
  InputEngine.ClearContext := fun e => e;
  InputEngine.Count := TypingEngine.Count;
  InputEngine.HasActiveQuickConsonant := TypingEngine.HasActiveQuickConsonant;
  InputEngine.SeedFromText := TypingEngine.SeedFromText;
  InputEngine.IsEnglishWord := TypingEngine.IsEnglishWord;
  InputEngine.IsToneEscaped := TypingEngine.IsToneEscaped;
  InputEngine.PeekRaw := TypingEngine.PeekRaw;
  InputEngine.ShouldReplayCommittedKey := fun _ _ _ => false;
  InputEngine.LastCommitWasCorrected := fun _ => false
|}.

Lemma seed_shows text e :
  snd (TypingEngine.SeedFromText text e) = true ->
  TypingEngine.Peek (fst (TypingEngine.SeedFromText text e)) = text.
Proof.
  destruct (decompose_all_or_fail text) as [[ds H]|H].
  - destruct (SeedFromText_Some text e ds H) as (-> & Hs & _). intros _.
    destruct (seeded_letters ds text H) as [Hw Ht].
    unfold TypingEngine.Peek. by rewrite Hs, wf_ComposeStates.
  - by destruct (SeedFromText_None text e H) as (-> & _).
Qed.

(** The raw history holds keys, through every operation. *)
Definition raw_keys (e : Engine) : Prop := Forall (fun c => c <> 0) (escRawHistory e).

Lemma raw_keys_PushKey c u e : c <> 0 -> raw_keys e -> raw_keys (TypingEngine.PushKey c u e).
Proof.
  intros Hc H. unfold raw_keys. rewrite PushKey_history by done.
  apply Forall_app. by repeat constructor.
Qed.

Lemma raw_keys_Backspace e : raw_keys e -> raw_keys (TypingEngine.Backspace e).
Proof.
  intros H. unfold TypingEngine.Backspace. cbv zeta. case_match; [done|]. case_match; [|case_match].
  - unfold raw_keys. simpl. exact H.
  - unfold raw_keys. by rewrite (keeps_history _ _ (keeps_BackspaceQuick _ _ (keeps_refl _))).
  - unfold raw_keys. rewrite BackspaceRegular_history. case_match; [constructor|]. by apply Forall_take.
Qed.

Lemma raw_keys_Seed t e : raw_keys (fst (TypingEngine.SeedFromText t e)).
Proof.
  unfold TypingEngine.SeedFromText. cbv zeta. destruct (decompose_all_or_fail t) as [[ds H]|H].
  - rewrite (SeedLoop_Some _ _ _ H). constructor.
  - rewrite SeedLoop_None by done. constructor.
Qed.

Lemma seed_same t e e' :
  snd (TypingEngine.SeedFromText t e) = snd (TypingEngine.SeedFromText t e').
Proof.
  destruct (decompose_all_or_fail t) as [[ds H]|H].
  - by rewrite (proj1 (SeedFromText_Some t e ds H)), (proj1 (SeedFromText_Some t e' ds H)).
  - by rewrite (proj1 (SeedFromText_None t e H)), (proj1 (SeedFromText_None t e' H)).
Qed.

#[export] Program Instance TypingEngine_laws : InputEngineLaws Engine := {|
  engine_ok := fun e => WF e /\ raw_keys e
|}.
Next Obligation. intros e. split; [apply Reset_WF|constructor]. Qed.
Next Obligation. intros c e Hc []. split; [by apply PushKey_WF|by apply raw_keys_PushKey]. Qed.
Next Obligation. intros c u e Hc []. split; [by apply PushKey_WF|by apply raw_keys_PushKey]. Qed.
Next Obligation. intros e []. split; [by apply Backspace_WF|by apply raw_keys_Backspace]. Qed.
Next Obligation. done. Qed.
Next Obligation. intros e. split; [apply Reset_WF|constructor]. Qed.
Next Obligation. intros t e. split; [apply SeedFromText_WF|apply raw_keys_Seed]. Qed.
Next Obligation.
  intros e [He _]. cbn. unfold TypingEngine.Peek, TypingEngine.Count.
  by rewrite wf_ComposeStates, length_map.
Qed.
Next Obligation. done. Qed.
Next Obligation. done. Qed.
Next Obligation.
  intros e He. cbn in *. unfold TypingEngine.Backspace, TypingEngine.Count in *.
  by rewrite bool_decide_eq_true_2.
Qed.
Next Obligation. done. Qed.
Next Obligation. done. Qed.
Next Obligation. intros t e. apply seed_shows. Qed.
Next Obligation. exact seed_same. Qed.
Next Obligation. by intros e [_ H]. Qed.

End Instance_.
