(* ===== verification/Hook.v ===== *)
(** * The keyboard hook: its state and its composition
    (src/src/app/system/HookEngine.h, HookEngine.cpp)

    What the hook keeps between keys, what it reads of its configuration, and the
    two interfaces it works through: the output dispatcher, which types into the
    application, and the system.  Members are fields of one record, and the
    world behind the interfaces is a field of it, so that a handler is a function
    from hook to hook. *)

From S2P Require Import Prelude Action Config CodeTable MacroPrefix Hotkey Pipeline InputEngine.
From S2P Require Import CommitState AutoCap.
Open Scope Z_scope.

(** ** The world *)

(** The members of OutputDispatcher the hook calls, and those of the injector
    it fetches from it ([Inject...]). *)
Class OutputDispatcher (W : Type) := {
  ReplaceUnicode : nat -> wstring -> Z -> W -> W;
  ReplaceRaw : nat -> wstring -> W -> bool * W;
  SendBackspaces : nat -> W -> W;
  DispatchKey : Z -> W -> W;
  ClipboardPasteText : wstring -> W -> W;
  SynthEventsPending : W -> Z;
  LastSynthSendTime : W -> Z;
  LastRealSynthTime : W -> Z;
  ResetSynthEvents : W -> W;
  ResetLastRealSynthTime : W -> W;
  HadSynthInWord : W -> bool;
  SetHadSynthInWord : bool -> W -> W;
  IsSyncReplaceChannel : W -> bool;
  SkipEmptyChar : W -> bool;
  WantsGameReinject : W -> bool;
  InjectReplace : nat -> wstring -> W -> bool * W;
  RequiresSyntheticAlphaLockstep : W -> bool;
  NeedsBaitCharPrefix : W -> bool;
  SettleBudget : W -> Z
}.

(** What the hook asks of Windows and of the rest of the process.  A read takes
    the world as it is at that moment. *)
Class HookSystem (W : Type) := {
  GetTickCount : W -> Z;
  HasInputTarget : W -> bool;               (* GetInputTarget() != nullptr *)
  VkToMacroChar : Z -> W -> wchar;
  ReadAutoCapAnchor : W -> option bool;     (* the text service's anchor, if it is read *)
  FreshControlIsPassword : W -> bool;
  InvalidateFocusCache : W -> W;
  RequestGameModeToggle : W -> W;
  SyncFromSharedState : W -> W;             (* QuickSyncFromSharedState *)
  RefreshBrowserRoute : W -> W;             (* RefreshBrowserRouteOnHookThread *)
  IsEffectiveTsf : W -> bool;
  RouteIsForceEnglish : W -> bool;
  IsExcludedApp : W -> bool;
  ForegroundIsExcludedPid : W -> bool;
  VerifyExcludedState : W -> bool * W;
  StoreExcludedPid : W -> W;                (* the pid of the foreground process *)
  ClearExcludedPid : W -> W;
  NotifyModeChange : W -> W;
  CheckLayoutChange : W -> W
}.

(** ** Configuration: what the atomics hold while a key is handled *)

Record HookConfig := mkHookConfig {
  vietnameseMode_ : bool;
  macroEnabled_ : bool;
  macroInEnglish_ : bool;
  autoCaps_ : bool;
  currentMethod_ : InputMethod;
  currentCodeTable_ : CodeTable;
  config_ : TypingConfig;
  macroTable_ : gmap wstring wstring;
  macroPrefixIndex_ : MacroPrefixIndex;
  hotkeys_ : HotkeyRegistry
}.

(** ** State *)

Record MacroUndoState := mkUndo {
  undo_shortcut : wstring; expansionLength : nat; hasTrailingTrigger : bool;
  undo_timestamp : Z; undo_active : bool
}.
Definition no_undo : MacroUndoState := mkUndo [] 0 false 0 false.

(** The modifier keys held, and the taps that make a double tap. *)
Record Modifiers := mkModifiers {
  modCtrlDown_ : bool; modShiftDown_ : bool; modAltDown_ : bool; modWinDown_ : bool;
  otherKeyPressed_ : bool; modComboSeen_ : bool;
  modTapCount_ : list Z; modTapLastTs_ : list Z
}.
Definition no_modifiers : Modifiers :=
  mkModifiers false false false false false false [0; 0; 0; 0] [0; 0; 0; 0].

Inductive KeyOutcome := Eat | Pass | Fallthrough.
#[export] Instance KeyOutcome_eq_dec : EqDecision KeyOutcome.
Proof. solve_decision. Defined.

Section Hook.
Context {E W : Type}.

Record Hook := mkHook {
  engine_ : E;
  commitState_ : CommitState;
  previousComposition_ : wstring;
  previousEncodedWidths_ : list nat;
  rawMacroBuffer_ : wstring;
  macroCrossCommit_ : bool;
  tempMacroOff_ : bool;
  wasFirstCharAutoCapped_ : bool;
  tempEngineOff_ : bool;
  digitLedWord_ : bool;
  autoCapState_ : AutoCapState;
  suppressAutoCap_ : bool;
  macroUndoState_ : MacroUndoState;
  modifiers_ : Modifiers;
  world_ : W
}.

Definition set_engine (x : E) (h : Hook) : Hook :=
  mkHook x (commitState_ h) (previousComposition_ h) (previousEncodedWidths_ h)
    (rawMacroBuffer_ h) (macroCrossCommit_ h) (tempMacroOff_ h) (wasFirstCharAutoCapped_ h)
    (tempEngineOff_ h) (digitLedWord_ h) (autoCapState_ h) (suppressAutoCap_ h)
    (macroUndoState_ h) (modifiers_ h) (world_ h).
Definition set_commitState (x : CommitState) (h : Hook) : Hook :=
  mkHook (engine_ h) x (previousComposition_ h) (previousEncodedWidths_ h) (rawMacroBuffer_ h)
    (macroCrossCommit_ h) (tempMacroOff_ h) (wasFirstCharAutoCapped_ h) (tempEngineOff_ h)
    (digitLedWord_ h) (autoCapState_ h) (suppressAutoCap_ h) (macroUndoState_ h) (modifiers_ h)
    (world_ h).
Definition set_previousComposition (x : wstring) (h : Hook) : Hook :=
  mkHook (engine_ h) (commitState_ h) x (previousEncodedWidths_ h) (rawMacroBuffer_ h)
    (macroCrossCommit_ h) (tempMacroOff_ h) (wasFirstCharAutoCapped_ h) (tempEngineOff_ h)
    (digitLedWord_ h) (autoCapState_ h) (suppressAutoCap_ h) (macroUndoState_ h) (modifiers_ h)
    (world_ h).
Definition set_previousEncodedWidths (x : list nat) (h : Hook) : Hook :=
  mkHook (engine_ h) (commitState_ h) (previousComposition_ h) x (rawMacroBuffer_ h)
    (macroCrossCommit_ h) (tempMacroOff_ h) (wasFirstCharAutoCapped_ h) (tempEngineOff_ h)
    (digitLedWord_ h) (autoCapState_ h) (suppressAutoCap_ h) (macroUndoState_ h) (modifiers_ h)
    (world_ h).
Definition set_rawMacroBuffer (x : wstring) (h : Hook) : Hook :=
  mkHook (engine_ h) (commitState_ h) (previousComposition_ h) (previousEncodedWidths_ h) x
    (macroCrossCommit_ h) (tempMacroOff_ h) (wasFirstCharAutoCapped_ h) (tempEngineOff_ h)
    (digitLedWord_ h) (autoCapState_ h) (suppressAutoCap_ h) (macroUndoState_ h) (modifiers_ h)
    (world_ h).
Definition set_macroCrossCommit (x : bool) (h : Hook) : Hook :=
  mkHook (engine_ h) (commitState_ h) (previousComposition_ h) (previousEncodedWidths_ h)
    (rawMacroBuffer_ h) x (tempMacroOff_ h) (wasFirstCharAutoCapped_ h) (tempEngineOff_ h)
    (digitLedWord_ h) (autoCapState_ h) (suppressAutoCap_ h) (macroUndoState_ h) (modifiers_ h)
    (world_ h).
Definition set_tempMacroOff (x : bool) (h : Hook) : Hook :=
  mkHook (engine_ h) (commitState_ h) (previousComposition_ h) (previousEncodedWidths_ h)
    (rawMacroBuffer_ h) (macroCrossCommit_ h) x (wasFirstCharAutoCapped_ h) (tempEngineOff_ h)
    (digitLedWord_ h) (autoCapState_ h) (suppressAutoCap_ h) (macroUndoState_ h) (modifiers_ h)
    (world_ h).
Definition set_wasFirstCharAutoCapped (x : bool) (h : Hook) : Hook :=
  mkHook (engine_ h) (commitState_ h) (previousComposition_ h) (previousEncodedWidths_ h)
    (rawMacroBuffer_ h) (macroCrossCommit_ h) (tempMacroOff_ h) x (tempEngineOff_ h)
    (digitLedWord_ h) (autoCapState_ h) (suppressAutoCap_ h) (macroUndoState_ h) (modifiers_ h)
    (world_ h).
Definition set_tempEngineOff (x : bool) (h : Hook) : Hook :=
  mkHook (engine_ h) (commitState_ h) (previousComposition_ h) (previousEncodedWidths_ h)
    (rawMacroBuffer_ h) (macroCrossCommit_ h) (tempMacroOff_ h) (wasFirstCharAutoCapped_ h) x
    (digitLedWord_ h) (autoCapState_ h) (suppressAutoCap_ h) (macroUndoState_ h) (modifiers_ h)
    (world_ h).
Definition set_digitLedWord (x : bool) (h : Hook) : Hook :=
  mkHook (engine_ h) (commitState_ h) (previousComposition_ h) (previousEncodedWidths_ h)
    (rawMacroBuffer_ h) (macroCrossCommit_ h) (tempMacroOff_ h) (wasFirstCharAutoCapped_ h)
    (tempEngineOff_ h) x (autoCapState_ h) (suppressAutoCap_ h) (macroUndoState_ h)
    (modifiers_ h) (world_ h).
Definition set_autoCapState (x : AutoCapState) (h : Hook) : Hook :=
  mkHook (engine_ h) (commitState_ h) (previousComposition_ h) (previousEncodedWidths_ h)
    (rawMacroBuffer_ h) (macroCrossCommit_ h) (tempMacroOff_ h) (wasFirstCharAutoCapped_ h)
    (tempEngineOff_ h) (digitLedWord_ h) x (suppressAutoCap_ h) (macroUndoState_ h)
    (modifiers_ h) (world_ h).
Definition set_suppressAutoCap (x : bool) (h : Hook) : Hook :=
  mkHook (engine_ h) (commitState_ h) (previousComposition_ h) (previousEncodedWidths_ h)
    (rawMacroBuffer_ h) (macroCrossCommit_ h) (tempMacroOff_ h) (wasFirstCharAutoCapped_ h)
    (tempEngineOff_ h) (digitLedWord_ h) (autoCapState_ h) x (macroUndoState_ h) (modifiers_ h)
    (world_ h).
Definition set_macroUndoState (x : MacroUndoState) (h : Hook) : Hook :=
  mkHook (engine_ h) (commitState_ h) (previousComposition_ h) (previousEncodedWidths_ h)
    (rawMacroBuffer_ h) (macroCrossCommit_ h) (tempMacroOff_ h) (wasFirstCharAutoCapped_ h)
    (tempEngineOff_ h) (digitLedWord_ h) (autoCapState_ h) (suppressAutoCap_ h) x (modifiers_ h)
    (world_ h).
Definition set_modifiers (x : Modifiers) (h : Hook) : Hook :=
  mkHook (engine_ h) (commitState_ h) (previousComposition_ h) (previousEncodedWidths_ h)
    (rawMacroBuffer_ h) (macroCrossCommit_ h) (tempMacroOff_ h) (wasFirstCharAutoCapped_ h)
    (tempEngineOff_ h) (digitLedWord_ h) (autoCapState_ h) (suppressAutoCap_ h)
    (macroUndoState_ h) x (world_ h).
Definition set_world (x : W) (h : Hook) : Hook :=
  mkHook (engine_ h) (commitState_ h) (previousComposition_ h) (previousEncodedWidths_ h)
    (rawMacroBuffer_ h) (macroCrossCommit_ h) (tempMacroOff_ h) (wasFirstCharAutoCapped_ h)
    (tempEngineOff_ h) (digitLedWord_ h) (autoCapState_ h) (suppressAutoCap_ h)
    (macroUndoState_ h) (modifiers_ h) x.

Definition on_commit (f : CommitState -> CommitState) (h : Hook) : Hook :=
  set_commitState (f (commitState_ h)) h.
Definition on_world (f : W -> W) (h : Hook) : Hook := set_world (f (world_ h)) h.

(** The constructor: members at their initial values. *)
Definition new_hook (e : E) (w : W) : Hook :=
  mkHook e new_commit [] [] [] false false false false false AutoCap.Idle false no_undo
    no_modifiers w.

End Hook.

Arguments Hook : clear implicits.

(** ** The hook's composition (src/src/app/system/HookEngine.cpp)

    A word on the screen and the engine behind it: the letters, digits and
    backspaces that edit it, the replacement of the text shown, and the commit
    that ends it.  [cfg] is the configuration as the key finds it. *)

(** The number of units on which two texts agree from the start. *)
Fixpoint commonLen (a b : wstring) : nat :=
  match a, b with
  | x :: a, y :: b => if x =w y then S (commonLen a b) else 0%nat
  | _, _ => 0%nat
  end.

(** The new characters in the code table: their units, and how many each has. *)
Definition encode_for (ct : CodeTable) (ch : wchar) : EncodedChar := ConvertChar ch (CodeTable_u8 ct).
Definition encodedToSend (ct : CodeTable) (text : wstring) : wstring :=
  text ≫= (fun ch => encoded_units (encode_for ct ch)).
Definition newWidths (ct : CodeTable) (text : wstring) : list nat :=
  (fun ch => Z.to_nat (ec_count (encode_for ct ch))) <$> text.
Definition sum_widths (l : list nat) : nat := foldr Nat.add 0%nat l.

(** One more character, [ch], and nothing else changed. *)
Definition isSimpleAppend (composition previous : wstring) (ch : wchar) : bool :=
  (length composition == S (length previous)) &&
  (last composition == Some ch) &&
  (take (length previous) composition == previous).

Section Composition.
Context {E W : Type} {IE : InputEngine E} {OD : OutputDispatcher W} {HS : HookSystem W}.
Variable cfg : HookConfig.
Implicit Types (h : Hook E W).

Abbreviation Hook := (Hook E W).

(** ** Showing a text *)

Definition clear_previous h : Hook :=
  set_previousEncodedWidths [] (set_previousComposition [] h).

(** The branch for a code table other than Unicode. *)
Definition ReplaceEncoded (newText : wstring) h : Hook :=
  let ct := currentCodeTable_ cfg in
  let common := commonLen (previousComposition_ h) newText in
  let backspaceCount := sum_widths (drop common (previousEncodedWidths_ h)) in
  let fresh := drop common newText in
  let toSend := encodedToSend ct fresh in
  let h := if (0 <? backspaceCount)%nat || negb (toSend == [])
           then on_world (fun w => (ReplaceRaw backspaceCount toSend w).2) h else h in
  let h := set_previousEncodedWidths
             (resize common 0%nat (previousEncodedWidths_ h) ++ newWidths ct fresh) h in
  set_previousComposition newText h.

Definition ReplaceComposition (newText : wstring) (reinjectVk : Z) h : Hook :=
  if negb (HasInputTarget (world_ h)) then set_previousComposition newText h
  else if currentCodeTable_ cfg != Unicode then ReplaceEncoded newText h
  else
    let common := commonLen (previousComposition_ h) newText in
    let backspaceCount := (length (previousComposition_ h) - common)%nat in
    let h := on_world (ReplaceUnicode backspaceCount (drop common newText) (u16 reinjectVk)) h in
    set_previousComposition newText h.

(** The post-engine dispatch: the coordinator runs BackwardEditFeature, whose
    executor is [ReplaceComposition], unless the English gate is raised. *)
Definition DispatchCoordinator (reinjectVk : Z) (composition : wstring) h : Hook :=
  if vietnameseMode_ cfg then ReplaceComposition composition (u16 reinjectVk) h else h.

(** Push into the engine, and show what it composes. *)
Definition push_and_show (push : E -> E) (reinjectVk : Z) h : Hook :=
  let h := set_engine (push (engine_ h)) h in
  DispatchCoordinator reinjectVk (Peek (engine_ h)) h.

(** ** Clearing *)

Definition ClearMacroBuffer h : Hook :=
  set_macroCrossCommit false (set_wasFirstCharAutoCapped false (set_rawMacroBuffer [] h)).
Definition ClearMacroUndo h : Hook :=
  let u := macroUndoState_ h in
  set_macroUndoState (mkUndo [] 0 false (undo_timestamp u) false) h.
Definition ClearWordState h : Hook :=
  let h := set_engine (Reset (engine_ h)) h in
  let h := on_commit ClearHistory (clear_previous h) in
  let h := set_tempMacroOff false (set_macroCrossCommit false (ClearMacroBuffer h)) in
  set_digitLedWord false (on_world (SetHadSynthInWord false) h).
Definition CancelCommitUndo h : Hook := on_commit Cancel h.
Definition SetCommitUndoReady h : Hook :=
  let c := commitState_ h in
  let c := SetPendingTriggers (leadingTriggersForCurrentWord_ c) c in
  let c := SetGapEndsInGlyph false (SetLeadingTriggersForCurrentWord 0 c) in
  set_commitState (SetReady (GetTickCount (world_ h)) c) h.
Definition ResetComposition h : Hook :=
  let h := set_engine (ClearContext (engine_ h)) h in
  let h := ClearMacroUndo (CancelCommitUndo (ClearWordState h)) in
  let h := set_autoCapState AutoCap.Idle h in
  on_world ResetLastRealSynthTime (on_world ResetSynthEvents h).

(** ** Keys of a word *)

(** The auto-capitalisation of [HandleAlphaKey]: the character, and whether it
    was raised. *)
Definition AutoCapKey (originalCh : wchar) h : (wchar * bool) * Hook :=
  let env := mkAutoCapEnv (autoCaps_ cfg) (Count (engine_ h) == 0%nat) (suppressAutoCap_ h)
               (ReadAutoCapAnchor (world_ h)) (FreshControlIsPassword (world_ h)) in
  let '(ch, autoCapped, suppress, st) := AutoCapAlpha env (autoCapState_ h) originalCh in
  let h := set_suppressAutoCap suppress (set_autoCapState st h) in
  let h := if autoCapped && (length (rawMacroBuffer_ h) == 1%nat)
           then set_wasFirstCharAutoCapped true h else h in
  ((ch, autoCapped), h).

(** May the letter reach the application as it was typed. *)
Definition passthrough (composition : wstring) (originalCh : wchar) (autoCapped : bool) h : bool :=
  let w := world_ h in
  negb autoCapped && (currentCodeTable_ cfg == Unicode) &&
  negb (HadSynthInWord w && RequiresSyntheticAlphaLockstep w) &&
  negb (IsSyncReplaceChannel w) && (SynthEventsPending w =w 0) &&
  isSimpleAppend composition (previousComposition_ h) originalCh.

Definition reinjects (composition : wstring) (originalCh : wchar) (autoCapped : bool) h : bool :=
  let w := world_ h in
  WantsGameReinject w && negb (isSimpleAppend composition (previousComposition_ h) originalCh) &&
  negb autoCapped && (currentCodeTable_ cfg == Unicode) && negb (NeedsBaitCharPrefix w) &&
  negb (SkipEmptyChar w) && negb (IsSyncReplaceChannel w).

(** The result is whether the key is eaten. *)
Definition HandleAlphaKey (vkCode : Z) (shift capsLock : bool) h : bool * Hook :=
  let originalCh := if xorb shift capsLock then vkCode else towlower vkCode in
  let '((ch, autoCapped), h) := AutoCapKey originalCh h in
  let h := if (Count (engine_ h) == 0%nat) && negb (previousComposition_ h == [])
           then clear_previous h else h in
  let h := on_commit (AppendHistory ch) h in
  let h := set_engine (PushChar ch (engine_ h)) h in
  let composition := Peek (engine_ h) in
  if passthrough composition originalCh autoCapped h
  then (false, set_previousComposition composition h)
  else
    let '(reinjectVk, h) :=
      if reinjects composition originalCh autoCapped h
      then (vkCode, set_previousComposition (previousComposition_ h ++ [originalCh]) h)
      else (0, h) in
    (true, DispatchCoordinator reinjectVk composition h).

Definition HandleVniDigitKey (vkCode : Z) h : bool * Hook :=
  let h := on_commit (AppendHistory vkCode) h in
  (true, push_and_show (PushChar vkCode) 0 h).

(** The units of the text shown, which are the backspaces that erase it. *)
Definition shown_units h : nat :=
  if currentCodeTable_ cfg != Unicode then sum_widths (previousEncodedWidths_ h)
  else length (previousComposition_ h).

Definition HandleBackspace h : Hook :=
  let h := on_commit AppendBackspaceMarker h in
  let h := set_engine (Backspace (engine_ h)) h in
  if (0 <? Count (engine_ h))%nat then DispatchCoordinator 0 (Peek (engine_ h)) h
  else
    let h := if negb (previousComposition_ h == [])
             then clear_previous (on_world (SendBackspaces (shown_units h)) h) else h in
    if negb (StackEmpty (commitState_ h)) then SetCommitUndoReady h else h.

(** ** The end of a word *)

(** What is pushed for the word: its keys, the text left on the screen, its raw
    keys and its widths. *)
Definition entry_for (restored : bool) (committed raw : wstring) h : Entry :=
  let c := commitState_ h in
  mkEntry (inputHistory_ c) (if restored then committed else previousComposition_ h) raw
    (previousEncodedWidths_ h) (leadingTriggersForCurrentWord_ c).

(** The result is whether the text on the screen was restored. *)
Definition CommitComposition (verbatim : bool) h : bool * Hook :=
  let e := engine_ h in
  let wasQuickConsonant := HasActiveQuickConsonant e in
  let rawSnapshot := PeekRaw e in
  let rendered := if verbatim then Peek e else [] in
  let '(text, e) := Commit e in
  let committed := if LastCommitWasCorrected e && verbatim then rendered else text in
  let h := set_engine e h in
  let restored := negb (previousComposition_ h == []) &&
                  negb (committed == previousComposition_ h) in
  let h := if restored then DispatchCoordinator 0 committed h else h in
  let h := on_commit (SetPushedToStack false) h in
  let h := if negb wasQuickConsonant && negb (inputHistory_ (commitState_ h) == [])
           then let entry := entry_for restored committed rawSnapshot h in
                on_commit (fun c => SetPushedToStack true
                  (PushEntry entry (SetLeadingTriggersForCurrentWord 0 c))) h
           else h in
  (restored, ClearWordState h).

End Composition.
