(* ===== verification/HookUndo.v ===== *)
(** * Editing committed words (src/src/app/system/HookEngineCommitUndo.cpp,
      TryEscRestoreRaw and TryEscRestore of HookEngine.cpp)

    The commit-undo machine the pipeline runs first, the reopening of a committed
    word, and the key that gives a word's raw keys back. *)

From S2P Require Import Prelude Action Config InputEngine Hotkey Macro.
From S2P Require Import CommitState Hook.
Open Scope Z_scope.

Definition is_alpha (v : Z) : bool := (65 <=? v) && (v <=? 90).
Definition is_vk_digit (v : Z) : bool := (48 <=? v) && (v <=? 57).
Definition takes_digits (m : InputMethod) : bool :=
  (m == VNI) || (m == Combined) || (m == UserDefined).

(** [customKeyMap[static_cast<uint8_t>(ch)]], for a character below 128. *)
Definition keymap_action (c : TypingConfig) (ch : wchar) : TypingAction :=
  nth (Z.to_nat (ch mod 256)) (customKeyMap c) ActNone.

Section Undo.
Context {E W : Type} {IE : InputEngine E} {OD : OutputDispatcher W} {HS : HookSystem W}.
Variable cfg : HookConfig.
Abbreviation Hook := (Hook E W).
Implicit Types h : Hook.

Definition InjectKey (vkCode : Z) h : Hook := on_world (DispatchKey vkCode) h.

(** ** Reopening the last committed word *)

Definition replay_key (ch : wchar) (e : E) : E :=
  if ch =w kBackspaceMarker then Backspace e else PushChar ch e.
Definition replay_history (keys : wstring) (e : E) : E := foldl (fun e ch => replay_key ch e) e keys.

Definition ReplayCommittedChars (preferVisibleText : bool) h : bool * Hook :=
  match StackTop (commitState_ h) with
  | None => (false, on_commit SetIdle h)
  | Some entry =>
      let h := on_commit PopStackTop h in
      let '(e, restored) :=
        RestoreCommittedText (text entry) (replay_history (history entry))
          (if preferVisibleText then PreferVisibleText else PreferHistory) (engine_ h) in
      let h := set_engine e h in
      match restored with
      | RestoreFailed => (false, on_commit (fun c => SetIdle (ClearHistory c)) h)
      | _ =>
          let keys := if restored == SeededVisibleText then text entry else history entry in
          let h := on_commit (set_history keys) h in
          let h := set_previousEncodedWidths (widths entry) (set_previousComposition (text entry) h) in
          let h := on_commit (SetLeadingTriggersForCurrentWord (extraLeadingTriggers entry)) h in
          (true, on_commit SetIdle h)
      end
  end.

(** ** The keys of the machine *)

(** The glyphs around the word that begins. *)
Definition TrackGlyphs (vkCode : Z) h : Hook :=
  let h := if is_alpha vkCode && (Count (engine_ h) == 0%nat)
           then on_commit (fun c => SetWordOpenGlyph (prevKeyGlyph_ c) c) h else h in
  let glyph := if (186 <=? vkCode) && Macro.IsCommitTrigger vkCode
               then VkToMacroChar vkCode (world_ h) else 0 in
  on_commit (SetPrevKeyGlyph glyph) h.

(** Modifiers, Enter and old age end the window. *)
Definition CancelStale (vkCode : Z) (ctrl alt win : bool) h : Hook :=
  let h := if negb (IsIdle (commitState_ h)) && (ctrl || alt || win) then CancelCommitUndo h else h in
  let h := if (vkCode =w 13) && (negb (IsIdle (commitState_ h)) || negb (StackEmpty (commitState_ h)))
           then CancelCommitUndo h else h in
  if ReadyExpired (GetTickCount (world_ h)) (commitState_ h) then CancelCommitUndo h else h.

(** A backspace in the window: it deletes what followed the word. *)
Definition ReadyBackspace h : KeyOutcome * Hook :=
  if 0 <? pendingTriggerCount_ (commitState_ h) then (Pass, on_commit DecrementPendingTriggers h)
  else
    let h := ClearMacroBuffer (set_macroCrossCommit false (on_commit SetPrimed h)) in
    if 0 <? SynthEventsPending (world_ h) then (Eat, InjectKey 8 h)
    else if IsSyncReplaceChannel (world_ h) then
      let '(injOk, w) := InjectReplace 1 [] (world_ h) in
      (if injOk then Eat else Pass, set_world w h)
    else (Pass, h).

(** The keys that edit the word just committed. *)
Definition isCommitUndoExempt (vkCode : Z) (shift : bool) h : bool :=
  let method := currentMethod_ cfg in
  let escIsCancelTrigger := Matches (hotkeys_ cfg) CancelComposition 27 0 false false in
  let isCustomModifier :=
    if method == UserDefined then
      let ch := VkToMacroChar vkCode (world_ h) in
      (ch <>w 0) && (ch <? 128) && IsCommitUndoExemptAction (keymap_action (config_ cfg) ch)
    else false in
  IsCommitUndoExemptKey vkCode method shift escIsCancelTrigger isCustomModifier.

Definition isValidCommittedContinuation (vkCode : Z) (shift capsLock : bool) h : bool :=
  if negb (isCommitUndoExempt vkCode shift h) && is_alpha vkCode then
    match StackTop (commitState_ h) with
    | Some top =>
        let continuation := if eqb shift capsLock then towlower vkCode else vkCode in
        ShouldReplayCommittedKey (rawInput top) continuation (engine_ h)
    | None => false
    end
  else false.

Definition shouldReplayCommittedWord (vkCode : Z) (shift capsLock : bool) h : bool :=
  isCommitUndoExempt vkCode shift h || isValidCommittedContinuation vkCode shift capsLock h.

(** Synthetic events sent a moment ago may still be on their way. *)
Definition synth_unsettled h : bool :=
  let w := world_ h in
  (0 <? SynthEventsPending w) &&
  ((GetTickCount w - LastRealSynthTime w) mod 2 ^ 32 <? SettleBudget w).

(** [Some] is a return of the handler, [None] the way on to its last part. *)
Definition PrimedAlpha (vkCode : Z) (shift capsLock : bool) h : option KeyOutcome * Hook :=
  if negb (shouldReplayCommittedWord vkCode shift capsLock h) then
    let h := if negb (StackEmpty (commitState_ h)) then on_commit PopStackTop h else h in
    (Some Fallthrough, on_commit SetIdle h)
  else
    let '(ok, h) := ReplayCommittedChars false h in
    if negb ok then (Some Pass, h)
    else
      let '(eaten, h) := HandleAlphaKey cfg vkCode shift capsLock h in
      (Some (if eaten then Eat else Pass), h).

Definition PrimedDigit (vkCode : Z) h : option KeyOutcome * Hook :=
  let '(ok, h) := ReplayCommittedChars false h in
  if negb ok || (Count (engine_ h) == 0%nat) then (Some Pass, on_commit SetIdle h)
  else
    let '(eaten, h) := HandleVniDigitKey cfg vkCode h in
    (Some (if eaten then Eat else Pass), h).

Definition PrimedBackspace h : option KeyOutcome * Hook :=
  let '(ok, h) := ReplayCommittedChars true h in
  if negb ok then (Some Pass, h) else (Some Eat, HandleBackspace cfg h).

Definition PrimedOther (vkCode : Z) h : option KeyOutcome * Hook :=
  let isTrigger := Macro.IsCommitTrigger vkCode in
  let triggerChar := if vkCode =w 32 then L " "
                     else if isTrigger then VkToMacroChar vkCode (world_ h) else 0 in
  match DecidePrimedTriggerAction isTrigger triggerChar with
  | PrimedCancel => (None, CancelCommitUndo h)
  | PrimedIdle => (None, on_commit SetIdle h)
  | ReEnterReady =>
      let now := GetTickCount (world_ h) in
      let h := on_commit (fun c => SetReady now (SetGapEndsInGlyph false (SetPendingTriggers 0 c))) h in
      if 0 <? SynthEventsPending (world_ h) then (Some Eat, InjectKey vkCode h)
      else if IsSyncReplaceChannel (world_ h) then
        let '(injOk, w) := InjectReplace 0 [L " "] (world_ h) in
        (Some (if injOk then Eat else Pass), set_world w h)
      else (Some Pass, h)
  end.

Definition PrimedKey (vkCode : Z) (shift capsLock : bool) h : option KeyOutcome * Hook :=
  if synth_unsettled h && negb (shouldReplayCommittedWord vkCode shift capsLock h)
  then (None, CancelCommitUndo h)
  else if is_alpha vkCode then PrimedAlpha vkCode shift capsLock h
  else if takes_digits (currentMethod_ cfg) && is_vk_digit vkCode && negb shift
  then PrimedDigit vkCode h
  else if vkCode =w 8 then PrimedBackspace h
  else if negb (isCommitUndoExempt vkCode shift h) then PrimedOther vkCode h
  else (None, h).

(** The window is open and the key is not a backspace. *)
Definition ReadyGap (vkCode : Z) h : Hook :=
  if ((37 <=? vkCode) && (vkCode <=? 40)) || (vkCode =w 36) || (vkCode =w 35) ||
     (vkCode =w 33) || (vkCode =w 34) || (vkCode =w 46)
  then CancelCommitUndo h
  else
    let isTrigger := Macro.IsCommitTrigger vkCode && (Count (engine_ h) == 0%nat) in
    let ch := if isTrigger then VkToMacroChar vkCode (world_ h) else 0 in
    let c := commitState_ h in
    match DecideReadyGapKey isTrigger ch (pendingTriggerCount_ c) (gapEndsInGlyph_ c) with
    | TrackSpace => on_commit IncrementPendingTriggers h
    | CancelGap => CancelCommitUndo h
    | StartWord =>
        let c := SetLeadingTriggersForCurrentWord (pendingTriggerCount_ c) c in
        set_commitState (SetIdle (SetGapEndsInGlyph false (SetPendingTriggers 0 c))) h
    end.

Definition HandleCommitUndoFsm (vkCode : Z) (vnMode shift capsLock ctrl alt win : bool) h
  : KeyOutcome * Hook :=
  let h := CancelStale vkCode ctrl alt win (TrackGlyphs vkCode h) in
  if IsReady (commitState_ h) && (vkCode =w 8) && (Count (engine_ h) == 0%nat)
  then ReadyBackspace h
  else
    let '(out, h) :=
      if IsPrimed (commitState_ h) && (Count (engine_ h) == 0%nat) && vnMode
      then PrimedKey vkCode shift capsLock h else (None, h) in
    match out with
    | Some o => (o, h)
    | None => (Fallthrough, if IsReady (commitState_ h) then ReadyGap vkCode h else h)
    end.

(** ** Giving the raw keys back *)

(** A live word: all its letters are replaced by its keys. *)
Definition EscRestoreLive h : KeyOutcome * Hook :=
  let raw := PeekRaw (engine_ h) in
  if raw == [] then (Fallthrough, h)
  else
    let '(injOk, w) := InjectReplace (Count (engine_ h)) raw (world_ h) in
    let h := set_world w h in
    if negb injOk then (Fallthrough, h)
    else
      let h := ClearMacroBuffer (set_engine (Reset (engine_ h)) h) in
      (Eat, set_tempMacroOff false h).

(** The word the last backspace reached, while it can be reopened. *)
Definition EscRestorePrimed h : KeyOutcome * Hook :=
  let c := commitState_ h in
  if negb (IsPrimed c) || StackEmpty c then (Fallthrough, h)
  else if kReadyTimeoutMs <? (GetTickCount (world_ h) - readyTime_ c) mod 2 ^ 32
  then (Fallthrough, CancelCommitUndo h)
  else
    match StackTop c with
    | None => (Fallthrough, h)
    | Some top =>
        if rawInput top == [] then (Fallthrough, h)
        else
          let bsCount := if currentCodeTable_ cfg != Unicode then sum_widths (widths top)
                         else length (text top) in
          let '(injOk, w) := InjectReplace bsCount (rawInput top) (world_ h) in
          let h := set_world w h in
          if negb injOk then (Fallthrough, h)
          else (Eat, set_tempMacroOff false (ClearMacroBuffer (CancelCommitUndo h)))
    end.

Definition TryEscRestoreRaw h : KeyOutcome * Hook :=
  if (0 <? Count (engine_ h))%nat then EscRestoreLive h else EscRestorePrimed h.

Definition ComputeModMask (ctrl shift alt win : bool) : Z :=
  Z.lor (Z.lor (if ctrl then kModCtrl else 0) (if shift then kModShift else 0))
        (Z.lor (if alt then kModAlt else 0) (if win then kModWin else 0)).

(** Something to restore: a live word, or a primed one with its keys. *)
Definition hasPrimedCommit h : bool :=
  IsPrimed (commitState_ h) &&
  match StackTop (commitState_ h) with Some top => negb (rawInput top == []) | None => false end.

Definition TryEscRestore (vkCode : Z) (shift ctrl alt win : bool) h : KeyOutcome * Hook :=
  let mods := ComputeModMask ctrl shift alt win in
  let hotkeyMatch := Matches (hotkeys_ cfg) CancelComposition vkCode mods false false in
  if hotkeyMatch && ((0 <? Count (engine_ h))%nat || hasPrimedCommit h)
  then
    let '(legacy, h) := TryEscRestoreRaw h in
    (if legacy == Eat then Eat else Fallthrough, h)
  else (Fallthrough, h).

End Undo.
