(* ===== verification/HookMacro.v ===== *)
(** * Macros in the hook (TryExpandMacro and HandleMacro of
      src/src/app/system/HookEngine.cpp)

    The shortcut typed is collected key by key; a trigger key expands it and a
    backspace right after takes the expansion back. *)

From S2P Require Import Prelude Action Config CodeTable MacroPrefix Macro InputEngine Pipeline Hotkey.
From S2P Require Import CommitState Hook HookUndo.
Open Scope Z_scope.

Definition kMaxRawMacroBuffer : nat := 128.
Definition kMacroClipboardThreshold : nat := 200.
Definition kMacroUndoTimeoutMs : Z := 4000.
(** The units deleted or typed in one call when an expansion is taken back. *)
Definition kUndoChunk : nat := 60.

Inductive MacroResult := NoMatch | ExpandedEatTrigger | ExpandedPassTrigger.

Section HookMacro.
Context {E W : Type} {IE : InputEngine E} {OD : OutputDispatcher W} {HS : HookSystem W}.
Context {cm : CaseMapper} {SP : SpacePlatform} {PP : PunctPlatform} {Lo : Locale}.
Variable cfg : HookConfig.
Abbreviation Hook := (Hook E W).
Implicit Types h : Hook.

Definition IsMacroTrigger (vkCode : Z) : bool :=
  let c := config_ cfg in
  ShouldTrigger vkCode (macroTriggerSpace c) (macroTriggerEnter c) (macroTriggerTab c)
    (macroTriggerDir c).

(** ** Expansion *)

Definition plan_inputs (trigger : wchar) h : PlanInputs :=
  mkInputs (rawMacroBuffer_ h) (previousComposition_ h) (previousEncodedWidths_ h)
    (macroTable_ cfg) (macroCrossCommit_ h) (currentCodeTable_ cfg)
    (autoCapsMacro (config_ cfg)) (macroTitleCase (config_ cfg)) (wasFirstCharAutoCapped_ h)
    trigger kMacroClipboardThreshold.

(** What has been sent: the backspaces still to send, the length so far, and
    whether every call was delivered. *)
Record Sending := mkSending { pendingBs : nat; sent_length : nat; delivered : bool; sent_world : W }.

Definition send_raw (text : wstring) (len : nat) (s : Sending) : Sending :=
  let '(ok, w) := ReplaceRaw (pendingBs s) text (sent_world s) in
  mkSending 0 (sent_length s + len) (ok && delivered s) w.
Definition send_pending (s : Sending) : Sending :=
  if (0 <? pendingBs s)%nat then send_raw [] 0 s else s.

Definition SendSegment (s : Sending) (seg : Segment) : Sending :=
  if isReturn seg then
    let s := send_pending s in
    mkSending (pendingBs s) (sent_length s + 1) (delivered s) (DispatchKey 13 (sent_world s))
  else if negb (seg_text seg == []) then send_raw (seg_text seg) (length (seg_text seg)) s
  else s.

Definition SendExpansion (plan : MacroPlan) (w : W) : Sending :=
  if useClipboard plan then
    let w := if (0 <? bsCount plan)%nat then (ReplaceRaw (bsCount plan) [] w).2 else w in
    let clipText := ExpandEscapesForClipboard (expansion plan) in
    mkSending 0 (length clipText) true (ClipboardPasteText clipText w)
  else
    send_pending (foldl SendSegment (mkSending (bsCount plan) 0 true w)
                    (BuildSegments (expansion plan) (currentCodeTable_ cfg))).

Definition undoable (plan : MacroPlan) (trigger : wchar) (expansionDelivered : bool) : bool :=
  macroUndoOnBackspace (config_ cfg) && expansionDelivered && negb (shortcut plan == []) &&
  (L " " <=? trigger) && negb (useClipboard plan) && (currentCodeTable_ cfg == Unicode) &&
  CanUndoWithBackspaces (expansion plan).

Definition TryExpandMacro (trigger : wchar) h : MacroResult * Hook :=
  let plan := Plan (plan_inputs trigger h) in
  if negb (matched plan) then (NoMatch, h)
  else
    let sent := SendExpansion plan (world_ h) in
    let h := CancelCommitUndo (ClearWordState (set_world (sent_world sent) h)) in
    let h := if undoable plan trigger (delivered sent)
             then set_macroUndoState
                    (mkUndo (shortcut plan) (sent_length sent) (negb (isPartOfMacro plan))
                       (GetTickCount (world_ h)) true) h
             else ClearMacroUndo h in
    (if isPartOfMacro plan then ExpandedEatTrigger else ExpandedPassTrigger, h).

(** ** Taking an expansion back *)

(** The deletions, in chunks; [false] at the first that is not delivered. *)
Fixpoint erase_chunks (fuel pending : nat) (w : W) : bool * W :=
  match fuel with
  | O => (true, w)
  | S fuel =>
      if (pending =? 0)%nat then (true, w)
      else
        let '(ok, w) := ReplaceRaw (Nat.min pending kUndoChunk) [] w in
        if ok then erase_chunks fuel (pending - Nat.min pending kUndoChunk) w else (false, w)
  end.
Fixpoint type_chunks (fuel : nat) (text : wstring) (w : W) : bool * W :=
  match fuel with
  | O => (true, w)
  | S fuel =>
      if text == [] then (true, w)
      else
        let '(ok, w) := ReplaceRaw 0 (take kUndoChunk text) w in
        if ok then type_chunks fuel (drop kUndoChunk text) w else (false, w)
  end.

Definition UndoExpansion h : Hook :=
  let u := macroUndoState_ h in
  let pending := (expansionLength u + if hasTrailingTrigger u then 1 else 0)%nat in
  let typed := undo_shortcut u in
  let h := ClearMacroUndo h in
  let '(ok, w) := erase_chunks pending pending (world_ h) in
  let h := set_world w h in
  if negb ok then ResetComposition h
  else
    let '(ok, w) := type_chunks (length typed) typed (world_ h) in
    let h := set_world w h in
    if negb ok then ResetComposition h
    else set_tempMacroOff true (set_macroCrossCommit true (set_rawMacroBuffer typed h)).

(** ** The keys *)

Definition TrackLetter (vkCode : Z) (shift capsLock : bool) h : Hook :=
  let c := if xorb shift capsLock then vkCode else towlower vkCode in
  let h := set_rawMacroBuffer (rawMacroBuffer_ h ++ [c]) h in
  if (kMaxRawMacroBuffer <? length (rawMacroBuffer_ h))%nat then ClearMacroBuffer h else h.
Definition TrackTrigger (ch : wchar) h : Hook :=
  if L " " <? ch then set_rawMacroBuffer (rawMacroBuffer_ h ++ [ch]) h else h.
Definition UntrackLast h : Hook :=
  let h := set_rawMacroBuffer (removelast (rawMacroBuffer_ h)) h in
  if rawMacroBuffer_ h == [] then ClearMacroBuffer h else h.
Definition EndMacroWord h : Hook := set_tempMacroOff false (ClearMacroBuffer h).

(** The expansion and what becomes of the trigger; [None] when nothing matched. *)
Definition ExpandOnTrigger (vkCode : Z) h : option MacroOutcome * Hook :=
  let '(result, h) := TryExpandMacro (VkToMacroChar vkCode (world_ h)) h in
  match result with
  | NoMatch => (None, h)
  | ExpandedEatTrigger => (Some MacroEat, h)
  | ExpandedPassTrigger =>
      if 0 <? SynthEventsPending (world_ h) then (Some MacroEat, InjectKey vkCode h)
      else (Some MacroPass, h)
  end.

Definition SkipMacroKey (vkCode mods : Z) : bool :=
  Matches (hotkeys_ cfg) SkipMacro vkCode mods false false.

(** English mode. *)
Definition HandleMacroEnglish (vkCode mods : Z) (shift capsLock : bool) h : MacroOutcome * Hook :=
  if negb (macroEnabled_ cfg && macroInEnglish_ cfg) then (MacroFallthrough, h)
  else if is_alpha vkCode then (MacroPass, TrackLetter vkCode shift capsLock h)
  else if SkipMacroKey vkCode mods && (rawMacroBuffer_ h == [])
  then (MacroPass, set_tempMacroOff true h)
  else if IsCommitTrigger vkCode && negb (tempMacroOff_ h) then
    let h := TrackTrigger (VkToMacroChar vkCode (world_ h)) h in
    if negb (rawMacroBuffer_ h == []) && IsMacroTrigger vkCode then
      let '(out, h) := ExpandOnTrigger vkCode h in (default MacroPass out, h)
    else if negb (IsMacroTrigger vkCode) then (MacroPass, EndMacroWord h)
    else (MacroPass, h)
  else if (vkCode =w 8) && negb (rawMacroBuffer_ h == []) then (MacroPass, UntrackLast h)
  else if negb (is_alpha vkCode) && negb (IsCommitTrigger vkCode) then (MacroPass, EndMacroWord h)
  else (MacroPass, h).

(** Vietnamese mode, with a table of macros: the key is collected... *)
Definition TrackMacroKey (vkCode : Z) (shift capsLock : bool) h : Hook :=
  if is_alpha vkCode then TrackLetter vkCode shift capsLock h
  else if IsCommitTrigger vkCode then TrackTrigger (VkToMacroChar vkCode (world_ h)) h
  else h.

(** ... and when nothing expanded, the buffer ends at the end of a word. *)
Definition preserves (vkCode : Z) h : bool :=
  if vkCode =w 32 then ContainsPrefix (macroPrefixIndex_ cfg) (rawMacroBuffer_ h ++ [L " "])
  else if IsMacroTrigger vkCode then L " " <? VkToMacroChar vkCode (world_ h)
  else false.
Definition CleanMacroBuffer (vkCode : Z) h : Hook :=
  if (vkCode =w 8) && negb (rawMacroBuffer_ h == []) then UntrackLast h
  else if IsCommitTrigger vkCode then
    if preserves vkCode h then h else EndMacroWord h
  else if negb (is_alpha vkCode) then EndMacroWord h
  else h.

Definition HandleMacroVietnamese (vkCode mods : Z) (shift capsLock : bool) h
  : MacroOutcome * Hook :=
  let active := macroEnabled_ cfg && negb (bool_decide (macroTable_ cfg = ∅)) in
  let h := if active then TrackMacroKey vkCode shift capsLock h else h in
  if active && SkipMacroKey vkCode mods && (Count (engine_ h) == 0%nat) &&
     (rawMacroBuffer_ h == [])
  then (MacroPass, set_tempMacroOff true h)
  else
    let '(out, h) :=
      if active && negb (tempMacroOff_ h) && IsMacroTrigger vkCode &&
         negb (rawMacroBuffer_ h == [])
      then ExpandOnTrigger vkCode h else (None, h) in
    match out with
    | Some o => (o, h)
    | None => (MacroFallthrough, if active then CleanMacroBuffer vkCode h else h)
    end.

Definition undo_in_time h : bool :=
  (GetTickCount (world_ h) - undo_timestamp (macroUndoState_ h)) mod 2 ^ 32
    <=? kMacroUndoTimeoutMs.

Definition HandleMacro (vkCode : Z) (shift capsLock ctrl alt win : bool) h : MacroOutcome * Hook :=
  let mods := ComputeModMask ctrl shift alt win in
  if undo_active (macroUndoState_ h) && (vkCode =w 8) && negb ctrl && negb alt && negb win &&
     undo_in_time h
  then (MacroEat, UndoExpansion h)
  else
    let h := if undo_active (macroUndoState_ h) && (vkCode <>w 8) then ClearMacroUndo h else h in
    if negb (vietnameseMode_ cfg) then HandleMacroEnglish vkCode mods shift capsLock h
    else HandleMacroVietnamese vkCode mods shift capsLock h.

End HookMacro.
