(* ===== verification/HookKeys.v ===== *)
(** * Keys through the hook (ProcessKeyDown and ProcessKeyUp of
      src/src/app/system/HookEngine.cpp)

    The steps a key goes through: the guards, the pre-engine pipeline, the
    pre-dispatch, and the dispatch to the handlers of the composition. *)

From S2P Require Import Prelude Action Config CodeTable MacroPrefix Macro InputEngine Pipeline.
From S2P Require Import KeyDecisions AutoCap Hotkey CommitState Hook HookUndo HookMacro.
Open Scope Z_scope.

(** ** Modifier keys *)

Definition is_modifier_vk (v : Z) : bool := (160 <=? v) && (v <=? 165) || (v =w 91) || (v =w 92).

Definition CanonicalModifierVk (v : Z) : Z :=
  if (v =w 162) || (v =w 163) then 17        (* VK_LCONTROL, VK_RCONTROL: VK_CONTROL *)
  else if (v =w 164) || (v =w 165) then 18   (* VK_LMENU, VK_RMENU: VK_MENU *)
  else if (v =w 160) || (v =w 161) then 16   (* VK_LSHIFT, VK_RSHIFT: VK_SHIFT *)
  else if v =w 92 then 91                    (* VK_RWIN: VK_LWIN *)
  else v.
Definition ModIdxFor (canonicalVk : Z) : option nat :=
  if canonicalVk =w 17 then Some 0%nat
  else if canonicalVk =w 16 then Some 1%nat
  else if canonicalVk =w 18 then Some 2%nat
  else if canonicalVk =w 91 then Some 3%nat
  else None.
Definition kDoubleTapTimeoutMs : Z := 400.

Definition set_down (ctrl shift alt win : bool) (other combo : bool) (m : Modifiers) : Modifiers :=
  mkModifiers ctrl shift alt win other combo (modTapCount_ m) (modTapLastTs_ m).
Definition set_taps (counts stamps : list Z) (m : Modifiers) : Modifiers :=
  mkModifiers (modCtrlDown_ m) (modShiftDown_ m) (modAltDown_ m) (modWinDown_ m)
    (otherKeyPressed_ m) (modComboSeen_ m) counts stamps.
Definition press_other (m : Modifiers) : Modifiers :=
  set_down (modCtrlDown_ m) (modShiftDown_ m) (modAltDown_ m) (modWinDown_ m) true
    (modComboSeen_ m) m.
Definition contaminate (m : Modifiers) : Modifiers :=
  set_taps [0; 0; 0; 0] (modTapLastTs_ m) (press_other m).

(** A modifier that goes down while another is held starts a combination; the
    combination is over when none is held. *)
Definition TrackDown (c : Z) (m : Modifiers) : Modifiers :=
  let '(ctrl, shift, alt, win) := (modCtrlDown_ m, modShiftDown_ m, modAltDown_ m, modWinDown_ m) in
  let joins others := others || modComboSeen_ m in
  if c =w 17 then
    if ctrl then m else set_down true shift alt win false (joins (shift || alt || win)) m
  else if c =w 16 then
    if shift then m else set_down ctrl true alt win false (joins (ctrl || alt || win)) m
  else if c =w 18 then
    if alt then m else set_down ctrl shift true win false (joins (ctrl || shift || win)) m
  else if c =w 91 then
    if win then m else set_down ctrl shift alt true false (joins (ctrl || shift || alt)) m
  else m.
Definition TrackUp (c : Z) (m : Modifiers) : Modifiers :=
  let up v b := b && (c <>w v) in
  let '(ctrl, shift, alt, win) := (up 17 (modCtrlDown_ m), up 16 (modShiftDown_ m),
                                   up 18 (modAltDown_ m), up 91 (modWinDown_ m)) in
  set_down ctrl shift alt win (otherKeyPressed_ m)
    (modComboSeen_ m && (ctrl || shift || alt || win)) m.
Definition TrackModifier (vkCode : Z) (isDown : bool) (m : Modifiers) : Modifiers :=
  let c := if is_modifier_vk vkCode then CanonicalModifierVk vkCode else 0 in
  if isDown then TrackDown c m else TrackUp c m.

Definition IsOemPunctVk (v : Z) : bool :=
  ((186 <=? v) && (v <=? 192)) || ((219 <=? v) && (v <=? 223)) ||
  (v =w 187) || (v =w 188) || (v =w 189) || (v =w 190).

Section Keys.
Context {E W : Type} {IE : InputEngine E} {OD : OutputDispatcher W} {HS : HookSystem W}.
Context {cm : CaseMapper} {SP : SpacePlatform} {PP : PunctPlatform} {Lo : Locale}.
Variable cfg : HookConfig.
Abbreviation Hook := (Hook E W).
Implicit Types h : Hook.

Definition on_modifiers (f : Modifiers -> Modifiers) h : Hook := set_modifiers (f (modifiers_ h)) h.
Definition clear_context h : Hook := set_engine (ClearContext (engine_ h)) h.

(** ** The hook as the pipeline's host *)

Definition commit_undo_outcome (o : KeyOutcome) : CommitUndoOutcome :=
  match o with
  | Eat => CommitUndoEat | Pass => CommitUndoPass | Fallthrough => CommitUndoFallthrough
  end.

#[export] Instance Hook_host : HookHost Hook := {|
  Pipeline.HandleCommitUndo := fun vkCode shift capsLock ctrl alt win h =>
    let '(o, h) := HandleCommitUndoFsm cfg vkCode (vietnameseMode_ cfg) shift capsLock
                     ctrl alt win h in
    (commit_undo_outcome o, h);
  Pipeline.HandleMacro := HookMacro.HandleMacro cfg;
  Pipeline.TryEscRestore := fun vkCode shift ctrl alt win h =>
    let '(o, h) := HookUndo.TryEscRestore cfg vkCode shift ctrl alt win h in
    (if o == Eat then EscRestoreEat else EscRestoreFallthrough, h);
  Pipeline.ExecuteReplace := ReplaceComposition cfg;
  Pipeline.vietnameseMode := fun _ => vietnameseMode_ cfg;
  Pipeline.has_engine := fun _ => true;
  Pipeline.IsEnglishWord := fun h => InputEngine.IsEnglishWord (engine_ h);
  Pipeline.IsToneEscaped := fun h => InputEngine.IsToneEscaped (engine_ h)
|}.

(** ** The guards *)

Definition RunTopGuards (vkCode : Z) h : KeyOutcome * Hook :=
  let h := on_world RefreshBrowserRoute (on_world SyncFromSharedState h) in
  if IsEffectiveTsf (world_ h) then (Pass, h)
  else if is_modifier_vk vkCode then (Pass, on_modifiers (TrackModifier vkCode true) h)
  else if (vkCode =w 20) || (vkCode =w 144) || (vkCode =w 145) then (Pass, h)
  else if RouteIsForceEnglish (world_ h) then (Pass, on_modifiers contaminate h)
  else if IsExcludedApp (world_ h) then
    if ForegroundIsExcludedPid (world_ h) then (Pass, on_modifiers press_other h)
    else
      let '(excluded, w) := VerifyExcludedState (world_ h) in
      let h := set_world w h in
      if excluded then (Pass, on_modifiers press_other (on_world StoreExcludedPid h))
      else (Fallthrough, on_world NotifyModeChange (on_world ClearExcludedPid h))
  else (Fallthrough, h).

(** The hotkey, of either edge, that switches Vietnamese off for a while. *)
Definition ToggleTempOff h : Hook :=
  let h := if (0 <? Count (engine_ h))%nat then (CommitComposition cfg true h).2 else h in
  CancelCommitUndo (set_tempEngineOff (negb (tempEngineOff_ h)) h).

Definition down_hotkey (i : Hotkey.Intent) (vkCode mods : Z) : bool :=
  negb (IsModifierKey (CanonicalModifierVk vkCode)) &&
  Matches (hotkeys_ cfg) i vkCode mods false false.

Definition HandlePreDispatch (vkCode : Z) (vnMode shift ctrl alt win : bool) h
  : KeyOutcome * Hook :=
  let mods := ComputeModMask ctrl shift alt win in
  if negb vnMode then (Pass, h)
  else
    let h := if autoCaps_ cfg
             then set_autoCapState (ComputeAutoCapStateTransition (autoCapState_ h) vkCode
                                      shift ctrl alt win) h
             else h in
    if down_hotkey ToggleEnabled vkCode mods then (Eat, ToggleTempOff h)
    else if down_hotkey ToggleGameMode vkCode mods
    then (Fallthrough, on_world RequestGameModeToggle h)
    else (Fallthrough, h).

(** ** The dispatch *)

(** Step 4b: Vietnamese is off for the current word. *)
Definition TempOffKey (vkCode : Z) h : Hook :=
  let h := if IsCommitTrigger vkCode || ((vkCode =w 8) && (Count (engine_ h) == 0%nat))
           then set_digitLedWord false (set_tempEngineOff false h) else h in
  if IsCaretNavigationKey vkCode then clear_context h else h.

(** Step 5b: a word that begins with a digit; [Some] is a return. *)
Definition DigitLedKey (vkCode : Z) (shift : bool) h : option KeyOutcome * Hook :=
  match DigitLed.DecideDigitLed (DigitLed.mkDigit vkCode shift (Count (engine_ h) == 0%nat)
                                   (currentMethod_ cfg) (digitLedWord_ h)) with
  | DigitLed.ArmDigit => (Some Pass, set_digitLedWord true h)
  | DigitLed.Bypass => (Some Pass, h)
  | DigitLed.ResetDigit => (Some Pass, set_digitLedWord false h)
  | DigitLed.ResetAndContinue => (None, set_digitLedWord false h)
  | DigitLed.Continue => (None, h)
  end.

Definition ate (r : bool * Hook) : KeyOutcome * Hook := (if r.1 then Eat else Pass, r.2).

(** Step 6b. *)
Definition HandleBracket (vkCode : Z) (shift capsLock : bool) h : Hook :=
  let key := ResolveBracketKey (if vkCode =w 219 then L "[" else L "]") shift capsLock in
  let h := on_commit (AppendHistory (bk_character key)) h in
  push_and_show cfg (PushKey (bk_character key) (bk_uppercase key)) 0 h.

(** Step 6d: a punctuation key the user gave an action to. *)
Definition oem_action (ch : wchar) : TypingAction :=
  let action := keymap_action (config_ cfg) ch in
  let canonical := CanonicalBracketKey ch in
  if (action == ActNone) && (canonical <>w ch) then keymap_action (config_ cfg) canonical
  else action.
Definition HandleOem (vkCode : Z) (shift capsLock : bool) h : option Hook :=
  let ch := VkToMacroChar vkCode (world_ h) in
  if (ch <>w 0) && (ch <? 128) then
    let action := oem_action ch in
    if (action != ActNone) && ((0 <? Count (engine_ h))%nat || IsInsertTypeAction action) then
      if ((action == HornInsertO) || (action == HornInsertU)) &&
         ((vkCode =w 219) || (vkCode =w 221)) then
        let key := ResolveBracketKey (CanonicalBracketKey ch) shift capsLock in
        let h := on_commit (AppendHistory (bk_character key)) h in
        Some (push_and_show cfg (PushKey (bk_character key) (bk_uppercase key)) 0 h)
      else Some (push_and_show cfg (PushChar ch) 0 (on_commit (AppendHistory ch) h))
    else None
  else None.

(** Step 7c. *)
Definition HandleEscape (vkCode : Z) h : KeyOutcome * Hook :=
  let pending := SynthEventsPending (world_ h) in
  let h := if (0 <? Count (engine_ h))%nat then ResetComposition h else clear_context h in
  if 0 <? pending then (Eat, InjectKey vkCode h) else (Pass, h).

(** Step 8: the part of the macro buffer that outlives the commit. *)
Definition savedMacroBuffer (vkCode : Z) (macroOn : bool) h : wstring :=
  if macroOn && negb (bool_decide (macroTable_ cfg = ∅)) && negb (tempMacroOff_ h) &&
     negb (rawMacroBuffer_ h == []) then
    let ch := VkToMacroChar vkCode (world_ h) in
    if L " " <? ch then rawMacroBuffer_ h
    else if (ch =w L " ") &&
            ContainsPrefix (macroPrefixIndex_ cfg) (rawMacroBuffer_ h ++ [L " "])
    then rawMacroBuffer_ h ++ [L " "]
    else []
  else [].

(** Whether the word just pushed can be reopened. *)
Definition ArmAfterCommit (vkCode : Z) h : Hook :=
  if pushedToStack_ (commitState_ h) then
    match DecideCommitUndoArm vkCode with
    | Arm =>
        let open := wordOpenGlyph_ (commitState_ h) in
        if (open <>w 0) && IsHostReplacedWord open (VkToMacroChar vkCode (world_ h))
        then CancelCommitUndo h
        else on_commit (SetGapEndsInGlyph (vkCode <>w 32)) (SetCommitUndoReady h)
    | ClearStack => CancelCommitUndo h
    | Skip => h
    end
  else h.

(** The trigger itself, behind what is still on its way. *)
Definition DeliverTrigger (vkCode : Z) (restored : bool) h : KeyOutcome * Hook :=
  if restored || (0 <? SynthEventsPending (world_ h)) then (Eat, InjectKey vkCode h)
  else if IsSyncReplaceChannel (world_ h) && (L " " <=? VkToMacroChar vkCode (world_ h)) then
    let '(injOk, w) := InjectReplace 0 [VkToMacroChar vkCode (world_ h)] (world_ h) in
    (if injOk then Eat else Pass, set_world w h)
  else (Pass, h).

Definition CommitOnTrigger (vkCode : Z) (macroOn : bool) h : KeyOutcome * Hook :=
  let saved := savedMacroBuffer vkCode macroOn h in
  let savedAutoCapped := wasFirstCharAutoCapped_ h in
  let '(restored, h) :=
    CommitComposition cfg (IsVerbatimCommitTrigger (VkToMacroChar vkCode (world_ h))) h in
  let h := if IsCaretNavigationKey vkCode then clear_context h else h in
  let h := if negb (saved == [])
           then set_wasFirstCharAutoCapped savedAutoCapped
                  (set_macroCrossCommit true (set_rawMacroBuffer saved h))
           else h in
  DeliverTrigger vkCode restored (ArmAfterCommit vkCode h).

(** Steps 9 and 10. *)
Definition HandleOther (vkCode : Z) h : KeyOutcome * Hook :=
  let '(restored, h) :=
    if (0 <? Count (engine_ h))%nat
    then let '(restored, h) := CommitComposition cfg false h in
         (restored || (0 <? SynthEventsPending (world_ h)), h)
    else (false, h) in
  if restored then (Eat, InjectKey vkCode h)
  else
    let h := if IsCaretNavigationKey vkCode then clear_context h else h in
    if (vkCode =w 8) && (0 <? SynthEventsPending (world_ h)) then (Eat, InjectKey 8 h)
    else (Pass, h).

(** Steps 7 to 10. *)
Definition DispatchEdit (vkCode : Z) (macroOn : bool) h : KeyOutcome * Hook :=
  if (vkCode =w 8) && (0 <? Count (engine_ h))%nat then (Eat, HandleBackspace cfg h)
  else if vkCode =w 27 then HandleEscape vkCode h
  else if IsCommitTrigger vkCode && (0 <? Count (engine_ h))%nat
  then CommitOnTrigger vkCode macroOn h
  else HandleOther vkCode h.

(** Steps 6 to 10. *)
Definition DispatchTyping (vkCode : Z) (shift capsLock macroOn : bool) h : KeyOutcome * Hook :=
  let method := currentMethod_ cfg in
  if is_alpha vkCode then ate (HandleAlphaKey cfg vkCode shift capsLock h)
  else if (method == Telex) && ((vkCode =w 219) || (vkCode =w 221))
  then (Eat, HandleBracket vkCode shift capsLock h)
  else if takes_digits method && is_vk_digit vkCode && (0 <? Count (engine_ h))%nat && negb shift
  then ate (HandleVniDigitKey cfg vkCode h)
  else
    match (if (method == UserDefined) && IsOemPunctVk vkCode
           then HandleOem vkCode shift capsLock h else None) with
    | Some h => (Eat, h)
    | None => DispatchEdit vkCode macroOn h
    end.

Definition DispatchKeyAction (vkCode : Z) (shift capsLock ctrl alt win macroOn : bool) h
  : KeyOutcome * Hook :=
  if tempEngineOff_ h then (Pass, TempOffKey vkCode h)
  else if ctrl || alt || win then (Pass, ResetComposition h)
  else
    let '(out, h) := DigitLedKey vkCode shift h in
    match out with
    | Some o => (o, h)
    | None => DispatchTyping vkCode shift capsLock macroOn h
    end.

(** ** Keys *)

(** The head of [ProcessKeyDown]: what no guard may skip. *)
Definition KeyDownEntry (vkCode : Z) (ctrl alt win : bool) h : Hook :=
  let h := if undo_active (macroUndoState_ h) &&
              ((vkCode <>w 8) || ctrl || alt || win || negb (macroEnabled (config_ cfg)) ||
               negb (macroUndoOnBackspace (config_ cfg)) || negb (undo_in_time h))
           then ClearMacroUndo h else h in
  let h := if IsReplayContextBoundary vkCode then on_commit DiscardReplayContext h else h in
  if vkCode =w 9 then set_suppressAutoCap false (on_world InvalidateFocusCache h) else h.

(** The watchdog of the counter of synthetic events. *)
Definition WatchSynthEvents h : Hook :=
  let w := world_ h in
  if (0 <? SynthEventsPending w) && (500 <? (GetTickCount w - LastSynthSendTime w) mod 2 ^ 32)
  then on_world ResetSynthEvents h else h.

Definition english_exit h : bool :=
  negb (vietnameseMode_ cfg) && IsIdle (commitState_ h) &&
  negb (undo_active (macroUndoState_ h)) && negb (macroEnabled_ cfg && macroInEnglish_ cfg).

Definition key_context (vkCode : Z) (shift capsLock ctrl alt win : bool) h : KeyContext :=
  mkKey (u16 vkCode) 0 shift capsLock ctrl alt win
    (mkSession (previousComposition_ h) (Peek (engine_ h)) (PeekRaw (engine_ h))) 0.

Definition eaten (o : KeyOutcome) : bool := o == Eat.

(** Step 3 on. *)
Definition KeyDownDispatch (vkCode : Z) (shift capsLock ctrl alt win : bool) h : bool * Hook :=
  let '(out, h) := HandlePreDispatch vkCode (vietnameseMode_ cfg) shift ctrl alt win h in
  match out with
  | Eat => (true, h)
  | Pass => (false, h)
  | Fallthrough =>
      let '(out, h) := DispatchKeyAction vkCode shift capsLock ctrl alt win
                         (macroEnabled_ cfg) h in
      (eaten out, h)
  end.

(** The result is whether the key is eaten. *)
Definition ProcessKeyDown (vkCode : Z) (shift capsLock ctrl alt win : bool)
    (s : Hook * OutputChannel) : bool * (Hook * OutputChannel) :=
  let '(h, ch) := s in
  let h := KeyDownEntry vkCode ctrl alt win h in
  let '(guard, h) := RunTopGuards vkCode h in
  match guard with
  | Eat => (true, (h, ch))
  | Pass => (false, (h, ch))
  | Fallthrough =>
      let h := WatchSynthEvents (on_modifiers contaminate h) in
      if english_exit h
      then (false, (if IsCaretNavigationKey vkCode then clear_context h else h, ch))
      else
        let '((h, ch), decided) :=
          PreEngineStep (key_context vkCode shift capsLock ctrl alt win h) (h, ch) in
        match decided with
        | Some b => (b, (h, ch))
        | None =>
            let '(b, h) := KeyDownDispatch vkCode shift capsLock ctrl alt win h in
            (b, (h, ch))
        end
  end.

(** A clean release of a modifier key is a tap, and taps are bound to intents. *)
Definition TapIntents (canonicalVk otherMods : Z) (isDoubleTap : bool) h : Hook :=
  let matches i := Matches (hotkeys_ cfg) i canonicalVk otherMods isDoubleTap true in
  let h := if matches CancelComposition && ((0 <? Count (engine_ h))%nat || hasPrimedCommit h)
           then (TryEscRestoreRaw cfg h).2 else h in
  let h := if macroEnabled_ cfg && negb (bool_decide (macroTable_ cfg = ∅)) &&
              (Count (engine_ h) == 0%nat) && (rawMacroBuffer_ h == []) && matches SkipMacro
           then set_tempMacroOff true h else h in
  let h := if matches ToggleEnabled then ToggleTempOff h else h in
  if matches ToggleGameMode then on_world RequestGameModeToggle h else h.

Definition ModifierRelease (canonicalVk : Z) h : Hook :=
  match ModIdxFor canonicalVk with
  | None => h
  | Some idx =>
      let m := modifiers_ h in
      let otherMods := ComputeModMask ((canonicalVk <>w 17) && modCtrlDown_ m)
                         ((canonicalVk <>w 16) && modShiftDown_ m)
                         ((canonicalVk <>w 18) && modAltDown_ m)
                         ((canonicalVk <>w 91) && modWinDown_ m) in
      let comboTail := modComboSeen_ m && (otherMods =w 0) in
      let tap n := on_modifiers (fun m => set_taps (<[idx := n]> (modTapCount_ m)) (modTapLastTs_ m) m) in
      if negb (otherKeyPressed_ m) && negb comboTail then
        let now := GetTickCount (world_ h) in
        let isDoubleTap := (nth idx (modTapCount_ m) 0 =w 1) &&
                           ((now - nth idx (modTapLastTs_ m) 0) mod 2 ^ 32 <? kDoubleTapTimeoutMs) in
        let h := TapIntents canonicalVk otherMods isDoubleTap h in
        if isDoubleTap then tap 0 h
        else on_modifiers (fun m => set_taps (<[idx := 1]> (modTapCount_ m))
                                      (<[idx := now]> (modTapLastTs_ m)) m) h
      else tap 0 h
  end.

(** A release never eats the key. *)
Definition ProcessKeyUp (vkCode : Z) h : Hook :=
  if IsEffectiveTsf (world_ h) then h
  else if is_modifier_vk vkCode then
    let c := CanonicalModifierVk vkCode in
    let h := ModifierRelease c h in
    let m := modifiers_ h in
    let triggerCheck := (c =w 91) || ((c =w 16) && modCtrlDown_ m) ||
                        ((c =w 16) && modAltDown_ m) || ((c =w 17) && modShiftDown_ m) ||
                        ((c =w 18) && modShiftDown_ m) in
    let h := if triggerCheck then on_world CheckLayoutChange h else h in
    on_modifiers (TrackModifier vkCode false) h
  else h.

End Keys.
