(* ===== verification/HookFacts.v ===== *)
(** * What the hook keeps true: the screen shows what the engine composes

    An application is a text before the caret ([screen]); the host interface
    states what each call of the dispatcher does to it.  A word is on the screen
    when the text ends with the engine's composition, in the code table; typing,
    erasing, committing and reopening keep it so, and a backspace takes a macro back
    to its shortcut. *)

From S2P Require Import Prelude Action Config CodeTable MacroPrefix Macro InputEngine Pipeline Hotkey.
From S2P Require Import CommitState AutoCap Hook HookUndo HookMacro HookKeys.
Open Scope Z_scope.

(** ** An application that receives what is sent *)

(** A host that is [ready] has an input target, no game mode, and receives whole a
    replacement of at most [capacity] units.  [type_char] is a key the hook lets
    through. *)
Class Host (W : Type) `{OutputDispatcher W} `{HookSystem W} := {
  screen : W -> wstring;
  ready : W -> Prop;
  type_char : wchar -> W -> W;
  capacity : nat;
  ReplaceUnicode_screen n t w :
    ready w -> (n <= length (screen w))%nat -> (n + length t <= capacity)%nat ->
    screen (ReplaceUnicode n t 0 w) = edit n t (screen w) /\ ready (ReplaceUnicode n t 0 w);
  ReplaceRaw_screen n t w :
    ready w -> (n <= length (screen w))%nat -> (n + length t <= capacity)%nat ->
    let '(ok, w') := ReplaceRaw n t w in
    ok = true /\ screen w' = edit n t (screen w) /\ ready w';
  SendBackspaces_screen n w :
    ready w -> (n <= length (screen w))%nat -> (n <= capacity)%nat ->
    screen (SendBackspaces n w) = edit n [] (screen w) /\ ready (SendBackspaces n w);
  SetHadSynthInWord_screen b w :
    screen (SetHadSynthInWord b w) = screen w /\ (ready w -> ready (SetHadSynthInWord b w));
  type_char_screen c w :
    ready w -> screen (type_char c w) = screen w ++ [c] /\ ready (type_char c w);
  ready_target w : ready w -> HasInputTarget w = true;
  ready_plain w : ready w -> WantsGameReinject w = false
}.

(** ** The text in the code table *)

Definition shown (ct : CodeTable) (text : wstring) : wstring :=
  if ct == Unicode then text else encodedToSend ct text.
Definition widths_of (ct : CodeTable) (text : wstring) : list nat :=
  if ct == Unicode then [] else newWidths ct text.

Lemma encodedToSend_app ct a b :
  encodedToSend ct (a ++ b) = encodedToSend ct a ++ encodedToSend ct b.
Proof. apply bind_app. Qed.

Lemma shown_app ct a b : shown ct (a ++ b) = shown ct a ++ shown ct b.
Proof. unfold shown. case_match; [done|apply encodedToSend_app]. Qed.

Lemma shown_nil ct : shown ct [] = [].
Proof. unfold shown. by case_match. Qed.

Lemma sum_newWidths ct t : sum_widths (newWidths ct t) = length (encodedToSend ct t).
Proof.
  induction t as [|c t IH]; [done|].
  change (sum_widths (newWidths ct (c :: t)))
    with (Z.to_nat (ec_count (encode_for ct c)) + sum_widths (newWidths ct t))%nat.
  change (encodedToSend ct (c :: t)) with (encoded_units (encode_for ct c) ++ encodedToSend ct t).
  unfold encode_for. by rewrite length_app, encoded_units_count, <- IH.
Qed.

Lemma length_newWidths ct t : length (newWidths ct t) = length t.
Proof. apply length_map. Qed.

(** ** The common prefix *)

Lemma commonLen_take a b : take (commonLen a b) a = take (commonLen a b) b.
Proof.
  revert b. induction a as [|x a IH]; intros [|y b]; cbn; try done.
  case_match eqn:E; cbn; [|done]. apply Z.eqb_eq in E as ->. by rewrite IH.
Qed.

Lemma commonLen_le a b : (commonLen a b <= length a)%nat /\ (commonLen a b <= length b)%nat.
Proof.
  revert b. induction a as [|x a IH]; intros [|y b]; cbn; try lia.
  case_match; cbn; [specialize (IH b)|]; lia.
Qed.

(** No shorter replacement: the texts differ right after the common prefix. *)
Lemma commonLen_max a b k :
  take k a = take k b -> (k <= length a)%nat -> (k <= length b)%nat -> (k <= commonLen a b)%nat.
Proof.
  revert b k. induction a as [|x a IH]; intros [|y b] [|k] E; cbn in *; try lia.
  injection E as -> E. rewrite Z.eqb_refl. intros. specialize (IH b k E). lia.
Qed.

Section Facts.
Context {E W : Type} `{IEL : InputEngineLaws E} {OD : OutputDispatcher W} {HS : HookSystem W}.
Context {Ho : Host W}.
Variable cfg : HookConfig.
Abbreviation Hook := (Hook E W).
Abbreviation ct := (currentCodeTable_ cfg).
Implicit Types h : Hook.

Hypothesis vietnamese : vietnameseMode_ cfg = true.

(** [before] is the text of the application before the word. *)
Record synced (before : wstring) h : Prop := mkSynced {
  synced_ready : ready (world_ h);
  synced_screen : screen (world_ h) = before ++ shown ct (previousComposition_ h);
  synced_previous : previousComposition_ h = Peek (engine_ h);
  synced_widths : previousEncodedWidths_ h = widths_of ct (previousComposition_ h)
}.

Definition fits (old new : wstring) : Prop :=
  (length (shown ct old) + length (shown ct new) <= capacity)%nat.

Definition displays (before text : wstring) h : Prop :=
  ready (world_ h) /\ screen (world_ h) = before ++ shown ct text /\ previousComposition_ h = text /\
  previousEncodedWidths_ h = widths_of ct text.

(** *** Replacing the text *)

Lemma ReplaceComposition_displays before old new h :
  displays before old h -> fits old new ->
  displays before new (ReplaceComposition cfg new 0 h).
Proof.
  intros (Hrd & Hs & Hp & Hw) Hf. unfold ReplaceComposition. rewrite ready_target by done. cbn [negb].
  rewrite Hp. set (k := commonLen old new).
  pose proof (commonLen_le old new) as [Hk1 Hk2]. fold k in Hk1, Hk2.
  assert (Ht : take k old = take k new) by apply commonLen_take.
  rewrite <- (take_drop k old), shown_app in Hs.
  assert (Hnew : shown ct new = shown ct (take k old) ++ shown ct (drop k new)).
  { rewrite Ht, <- shown_app. by rewrite take_drop. }
  assert (Hdel : (length (shown ct (drop k old)) <= length (screen (world_ h)))%nat)
    by (rewrite Hs, !length_app; lia).
  assert (Hcap : (length (shown ct (drop k old)) + length (shown ct (drop k new)) <= capacity)%nat).
  { unfold fits in Hf. rewrite Hnew in Hf. rewrite <- (take_drop k old), shown_app in Hf at 1.
    rewrite !length_app in Hf. lia. }
  unfold displays. case_bool_decide as Hct; cbn [negb].
  - (* Unicode *)
    assert (Hsh : forall t, shown ct t = t)
      by (intros t; unfold shown; by rewrite bool_decide_eq_true_2).
    rewrite !Hsh in *. rewrite length_drop in Hdel, Hcap.
    destruct (ReplaceUnicode_screen (length old - k) (drop k new) (world_ h)) as [Hsc Hr'];
      [done|done|done|].
    split_and!; [exact Hr'| |done|].
    + cbn -[edit]. etrans; [exact Hsc|]. rewrite Hs, edit_part; [by rewrite <- Hnew|].
      by rewrite length_drop.
    + cbn. rewrite Hw. unfold widths_of. by rewrite bool_decide_eq_true_2.
  - (* another code table *)
    assert (Hsh : forall t, shown ct t = encodedToSend ct t)
      by (intros t; unfold shown; by rewrite bool_decide_eq_false_2).
    assert (Hwo : forall t, widths_of ct t = newWidths ct t)
      by (intros t; unfold widths_of; by rewrite bool_decide_eq_false_2).
    rewrite !Hsh in *. unfold ReplaceEncoded. rewrite Hp. fold k.
    assert (Hbs : sum_widths (drop k (previousEncodedWidths_ h)) = length (encodedToSend ct (drop k old))).
    { rewrite Hw, Hwo. unfold newWidths. rewrite <- fmap_drop. apply sum_newWidths. }
    rewrite Hbs.
    match goal with |- ?r /\ ?s /\ ?p /\ ?w => enough ((r /\ s) /\ p /\ w) by tauto end.
    split; [|split; [done|]].
    + rewrite Hnew. destruct (_ || _) eqn:Ho'; cbn -[edit].
      * pose proof (ReplaceRaw_screen _ (encodedToSend ct (drop k new)) (world_ h) Hrd Hdel Hcap) as Hraw.
        destruct (ReplaceRaw _ _ _) as [ok w]. destruct Hraw as (_ & Hsc & Hr').
        split; [exact Hr'|]. etrans; [exact Hsc|]. rewrite Hs. by apply edit_part.
      * apply orb_false_iff in Ho' as [H1%Nat.ltb_ge H2%negb_false_iff%bool_decide_eq_true].
        split; [exact Hrd|].
        rewrite H2, Hs. apply Nat.le_0_r, nil_length_inv in H1. by rewrite H1.
    + assert (En : newWidths ct new = newWidths ct (take k old) ++ newWidths ct (drop k new)).
      { unfold newWidths. by rewrite Ht, <- fmap_app, take_drop. }
      assert (Ek : newWidths ct (take k old) = take k (newWidths ct old))
        by (unfold newWidths; by rewrite fmap_take).
      rewrite Hwo, En, Ek.
      destruct (_ || _); cbn; rewrite Hw, Hwo, resize_le; rewrite ?length_newWidths; done || lia.
Qed.

Lemma displays_synced before text h :
  displays before text h -> Peek (engine_ h) = text -> synced before h.
Proof. intros (Hr & Hs & Hp & Hw) He. split; congruence. Qed.

Lemma synced_displays before h :
  synced before h -> displays before (previousComposition_ h) h.
Proof. by intros []. Qed.

(** Only the text shown, its widths and the world change. *)
Lemma ReplaceComposition_frame text v h :
  let h' := ReplaceComposition cfg text v h in
  engine_ h' = engine_ h /\ commitState_ h' = commitState_ h /\
  wasFirstCharAutoCapped_ h' = wasFirstCharAutoCapped_ h.
Proof. unfold ReplaceComposition, ReplaceEncoded. repeat case_match; done. Qed.

Lemma Dispatch_synced before h :
  displays before (previousComposition_ h) h -> fits (previousComposition_ h) (Peek (engine_ h)) ->
  synced before (DispatchCoordinator cfg 0 (Peek (engine_ h)) h).
Proof.
  intros Hd Hf. unfold DispatchCoordinator. rewrite vietnamese. change (u16 0) with 0.
  eapply displays_synced; [by apply (ReplaceComposition_displays _ (previousComposition_ h))|].
  by destruct (ReplaceComposition_frame (Peek (engine_ h)) 0 h) as [-> _].
Qed.

Lemma Dispatch_frame v text h :
  let h' := DispatchCoordinator cfg v text h in
  engine_ h' = engine_ h /\ commitState_ h' = commitState_ h.
Proof.
  unfold DispatchCoordinator. rewrite vietnamese.
  by destruct (ReplaceComposition_frame text (u16 v) h) as (? & ? & _).
Qed.

Lemma push_and_show_synced before push h :
  synced before h -> fits (previousComposition_ h) (Peek (push (engine_ h))) ->
  synced before (push_and_show cfg push 0 h) /\
  engine_ (push_and_show cfg push 0 h) = push (engine_ h) /\
  commitState_ (push_and_show cfg push 0 h) = commitState_ h.
Proof.
  intros Hs Hf. unfold push_and_show.
  destruct (Dispatch_frame 0 (Peek (push (engine_ h))) (set_engine (push (engine_ h)) h)) as [He Hc].
  split; [|done]. by apply Dispatch_synced; [apply synced_displays in Hs|].
Qed.

(** *** Keys of a word *)

Lemma synced_on_commit before f h : synced before h -> synced before (on_commit f h).
Proof. by intros []. Qed.

(** Auto-capitalisation leaves the word and the world alone. *)
Lemma AutoCapKey_frame c h :
  let '((ch, capped), h') := AutoCapKey cfg c h in
  (ch = c /\ capped = false \/ ch = towupper c) /\ engine_ h' = engine_ h /\
  world_ h' = world_ h /\ commitState_ h' = commitState_ h /\
  previousComposition_ h' = previousComposition_ h /\
  previousEncodedWidths_ h' = previousEncodedWidths_ h.
Proof. unfold AutoCapKey, AutoCapAlpha. repeat case_match; simplify_eq; auto 10. Qed.

Lemma isSimpleAppend_app composition previous ch :
  isSimpleAppend composition previous ch = true -> composition = previous ++ [ch].
Proof.
  unfold isSimpleAppend. rewrite !andb_true_iff, !bool_decide_eq_true. intros [[Hl Hb] Ht].
  destruct composition as [|x l] using rev_ind; [done|clear IHl].
  rewrite last_snoc in Hb. injection Hb as ->. rewrite length_app in Hl. simpl in Hl.
  rewrite take_app_le in Ht by lia. by rewrite <- Ht, take_ge by lia.
Qed.

Definition typed_letter (vkCode : Z) (shift capsLock : bool) : wchar :=
  if xorb shift capsLock then vkCode else towlower vkCode.

(** A letter goes to the engine, as typed or capitalised; eaten or let through,
    the screen then shows what the engine composes. *)
Lemma HandleAlphaKey_synced before vk shift caps h :
  let c := typed_letter vk shift caps in
  synced before h -> engine_ok (engine_ h) ->
  fits (previousComposition_ h) (Peek (PushChar c (engine_ h))) ->
  fits (previousComposition_ h) (Peek (PushChar (towupper c) (engine_ h))) ->
  let '(ate, h') := HandleAlphaKey cfg vk shift caps h in
  synced before (if ate then h' else on_world (type_char c) h') /\
  exists ch, (ch = c \/ ch = towupper c) /\ engine_ h' = PushChar ch (engine_ h) /\
    commitState_ h' = AppendHistory ch (commitState_ h).
Proof.
  intros c Hs Hok Hf1 Hf2. unfold HandleAlphaKey. fold (typed_letter vk shift caps). fold c.
  pose proof (AutoCapKey_frame c h) as Hfr.
  destruct (AutoCapKey cfg c h) as [[ch capped] h0]. destruct Hfr as (Hch & He & Hw & Hcm & Hp & Hwd).
  assert (Hs0 : synced before h0) by (destruct Hs; split; congruence).
  assert (Hstale : (Count (engine_ h0) == 0%nat) && negb (previousComposition_ h0 == []) = false).
  { rewrite andb_false_iff, negb_false_iff, bool_decide_eq_false, bool_decide_eq_true, He.
    destruct (decide (Count (engine_ h) = 0%nat)) as [Hc|]; [right|by left].
    rewrite Hp, (synced_previous _ _ Hs). by apply empty_shows_nothing. }
  rewrite Hstale. cbn zeta. set (h1 := set_engine _ _).
  assert (Hd : displays before (previousComposition_ h1) h1)
    by (apply synced_displays in Hs0; exact Hs0).
  assert (Hf : fits (previousComposition_ h1) (Peek (engine_ h1))).
  { unfold h1. cbn. rewrite Hp, He. destruct Hch as [[-> _]| ->]; done. }
  assert (Hex : exists ch, (ch = c \/ ch = towupper c) /\ engine_ h1 = PushChar ch (engine_ h) /\
                  commitState_ h1 = AppendHistory ch (commitState_ h)).
  { exists ch. unfold h1. cbn. rewrite He, Hcm. split; [|done]. destruct Hch as [[-> _]| ->]; auto. }
  destruct (passthrough _ _ _ _ _) eqn:Hpt.
  - split; [|exact Hex]. unfold passthrough in Hpt. rewrite !andb_true_iff, bool_decide_eq_true in Hpt.
    destruct Hpt as (((((_ & Hct) & _) & _) & _) & Happ). apply isSimpleAppend_app in Happ.
    destruct Hd as (Hrd & Hsc & _ & Hwid). unfold h1 in Hrd, Hsc, Hwid. cbn in Hrd, Hsc, Hwid.
    destruct (type_char_screen c (world_ h0) Hrd) as [Hty Hrd'].
    split; cbn; [exact Hrd'| |done|].
    + rewrite Hty, Hsc. cbn in Happ. change (engine_ h1) with (PushChar ch (engine_ h0)).
      rewrite Happ. unfold shown. rewrite !bool_decide_eq_true_2, <- app_assoc by done. done.
    + rewrite Hwid. unfold widths_of. by rewrite bool_decide_eq_true_2.
  - assert (Hgr : WantsGameReinject (world_ h1) = false) by apply ready_plain, Hd.
    unfold reinjects. rewrite Hgr. cbn [andb]. split.
    + by apply Dispatch_synced.
    + by destruct (Dispatch_frame 0 (Peek (engine_ h1)) h1) as [-> ->].
Qed.

Lemma displays_nothing before h :
  ready (world_ h) -> screen (world_ h) = before -> Peek (engine_ h) = [] ->
  previousComposition_ h = [] -> previousEncodedWidths_ h = [] -> synced before h.
Proof.
  intros Hr Hs He Hp Hw. split; rewrite ?Hp; try done.
  - rewrite Hs. unfold shown. by case_match; cbn; rewrite app_nil_r.
  - rewrite Hw. unfold widths_of. by case_match.
Qed.

(** What erases the whole word: its units in the code table. *)
Lemma shown_units_length before text h :
  displays before text h -> shown_units cfg h = length (shown ct text).
Proof.
  intros (_ & _ & Hp & Hw). unfold shown_units, shown. rewrite Hp, Hw.
  case_bool_decide as Hct; cbn [negb].
  - done.
  - unfold widths_of. rewrite bool_decide_eq_false_2 by done. apply sum_newWidths.
Qed.

Lemma SetCommitUndoReady_synced before h : synced before h -> synced before (SetCommitUndoReady h).
Proof. by intros []. Qed.

Lemma HandleBackspace_synced before h :
  synced before h -> engine_ok (engine_ h) ->
  fits (previousComposition_ h) (Peek (Backspace (engine_ h))) ->
  synced before (HandleBackspace cfg h) /\
  engine_ (HandleBackspace cfg h) = Backspace (engine_ h) /\
  inputHistory_ (commitState_ (HandleBackspace cfg h)) =
    inputHistory_ (commitState_ h) ++ [kBackspaceMarker].
Proof.
  intros Hs Hok Hf. unfold HandleBackspace. set (h1 := set_engine _ _).
  assert (Hd : displays before (previousComposition_ h) h1)
    by (apply synced_displays in Hs; exact Hs).
  case_match eqn:Hc.
  { destruct (Dispatch_frame 0 (Peek (engine_ h1)) h1) as [-> ->].
    split; [by apply Dispatch_synced|done]. }
  apply Nat.ltb_ge, Nat.le_0_r in Hc.
  assert (Hp0 : Peek (engine_ h1) = []).
  { apply empty_shows_nothing; [by apply Backspace_ok|done]. }
  set (h2 := if negb _ then _ else h1).
  assert (Hs2 : synced before h2 /\ engine_ h2 = Backspace (engine_ h) /\
                inputHistory_ (commitState_ h2) = inputHistory_ (commitState_ h) ++ [kBackspaceMarker]).
  { unfold h2. case_bool_decide as Hpv; cbn [negb]; (split; [|done]).
    - destruct Hd as (Hrd & Hsc & _ & Hwd). cbn in Hpv. rewrite Hpv in *.
      apply displays_nothing; [exact Hrd| |done..|].
      + rewrite Hsc. unfold shown. by case_match; cbn; rewrite app_nil_r.
      + rewrite Hwd. unfold widths_of. by case_match.
    - set (n := shown_units cfg h1).
      assert (Hn : n = length (shown ct (previousComposition_ h)))
        by (by apply (shown_units_length before)).
      destruct Hd as (Hrd & Hsc & _). cbn in Hrd, Hsc.
      assert (Hle : (n <= length (screen (world_ h)))%nat) by (rewrite Hn, Hsc, length_app; lia).
      destruct (SendBackspaces_screen n (world_ h) Hrd Hle) as [Hsc' Hrd'];
        [unfold fits in Hf; lia|].
      apply displays_nothing; [exact Hrd'| |done..].
      etrans; [exact Hsc'|]. rewrite Hsc, edit_tail by done. apply app_nil_r. }
  destruct Hs2 as (Hs2 & He2 & Hh2). case_match; [|done].
  split; [by apply SetCommitUndoReady_synced|done].
Qed.

(** *** A word, key by key *)

Inductive WordKey :=
  | Letter (vk : Z) (shift capsLock : bool)
  | Digit (vk : Z)
  | Bracket (vk : Z) (shift capsLock : bool)
  | Erase.

(** The key through its handler, and into the application if it is let through. *)
Definition word_key (k : WordKey) h : Hook :=
  match k with
  | Letter vk shift caps =>
      let '(ate, h) := HandleAlphaKey cfg vk shift caps h in
      if ate then h else on_world (type_char (typed_letter vk shift caps)) h
  | Digit vk => (HandleVniDigitKey cfg vk h).2
  | Bracket vk shift caps => HandleBracket cfg vk shift caps h
  | Erase => HandleBackspace cfg h
  end.

(** What the key may do to an engine. *)
Inductive engine_step : WordKey -> E -> E -> Prop :=
  | step_letter vk shift caps ch e :
      (ch = typed_letter vk shift caps \/ ch = towupper (typed_letter vk shift caps)) ->
      engine_step (Letter vk shift caps) e (PushChar ch e)
  | step_digit vk e : engine_step (Digit vk) e (PushChar vk e)
  | step_bracket vk shift caps e :
      let key := ResolveBracketKey (if vk =w 219 then L "[" else L "]") shift caps in
      engine_step (Bracket vk shift caps) e (PushKey (bk_character key) (bk_uppercase key) e)
  | step_erase e : engine_step Erase e (Backspace e).

Definition word_key_ok (k : WordKey) : Prop :=
  match k with Letter vk _ _ => 65 <= vk <= 90 | Digit vk => 48 <= vk <= 57 | _ => True end.

Definition key_fits (k : WordKey) h : Prop :=
  forall e, engine_step k (engine_ h) e -> fits (previousComposition_ h) (Peek e).

Lemma engine_step_ok k e e' : word_key_ok k -> engine_step k e e' -> engine_ok e -> engine_ok e'.
Proof.
  intros Hk Hst Hok. destruct Hst as [vk sh cp ch e Hch| | |]; cbn in Hk.
  - apply PushChar_ok; [|done]. unfold typed_letter, towupper, towlower in Hch.
    repeat case_match; destruct Hch; lia.
  - apply PushChar_ok; [lia|done].
  - apply PushKey_ok; [|done]. unfold key, ResolveBracketKey. cbn. repeat case_match; done.
  - by apply Backspace_ok.
Qed.

Lemma word_key_synced before k h :
  synced before h -> engine_ok (engine_ h) -> key_fits k h ->
  synced before (word_key k h) /\ engine_step k (engine_ h) (engine_ (word_key k h)).
Proof.
  intros Hs Hok Hf. destruct k as [vk sh cp|vk|vk sh cp|]; cbn [word_key].
  - pose proof (HandleAlphaKey_synced before vk sh cp h Hs Hok) as Ha.
    destruct (HandleAlphaKey _ _ _ _ _) as [ate h'].
    destruct Ha as (Ha & ch & Hch & He & _); [apply Hf; constructor; auto..|].
    split; [done|]. destruct ate; cbn; rewrite He; by constructor.
  - unfold HandleVniDigitKey. cbn [snd].
    destruct (push_and_show_synced before (PushChar vk) (on_commit (AppendHistory vk) h)) as (? & -> & _);
      [by apply synced_on_commit|by apply Hf; constructor|]. split; [done|constructor].
  - unfold HandleBracket. set (key := ResolveBracketKey _ _ _).
    destruct (push_and_show_synced before (PushKey (bk_character key) (bk_uppercase key))
                (on_commit (AppendHistory (bk_character key)) h)) as (? & -> & _);
      [by apply synced_on_commit|by apply Hf; constructor|]. split; [done|constructor].
  - destruct (HandleBackspace_synced before h Hs Hok) as (? & -> & _); [apply Hf; constructor|].
    split; [done|constructor].
Qed.

(** The keys of a word, in turn. *)
Definition word_keys (ks : list WordKey) h : Hook := foldl (fun h k => word_key k h) h ks.
Fixpoint keys_fit (ks : list WordKey) h : Prop :=
  match ks with [] => True | k :: ks => key_fits k h /\ keys_fit ks (word_key k h) end.
Inductive engine_steps : list WordKey -> E -> E -> Prop :=
  | steps_nil e : engine_steps [] e e
  | steps_cons k ks e e' e'' :
      engine_step k e e' -> engine_steps ks e' e'' -> engine_steps (k :: ks) e e''.

(** C1. Letters, digits, brackets and backspaces of a word, in any order, in any code
    table, with or without auto-capitalisation, each key eaten or let through, from a
    screen that shows what the engine composes: the application ends with exactly
    what the engine composes, in the code table, after the text that was there, and
    the engine is where those keys alone put it.  Two conditions.  The host is
    [ready]: it has an input target, is no game, and takes a replacement that fits a
    batch whole.  And [keys_fit]: at each key the letters shown before and after it
    fit one batch together (118 units on the system modelled), since a longer
    replacement is refused and the screen then stays behind. *)
Theorem word_keys_on_screen before ks h :
  synced before h -> engine_ok (engine_ h) -> Forall word_key_ok ks -> keys_fit ks h ->
  screen (world_ (word_keys ks h)) = before ++ shown ct (Peek (engine_ (word_keys ks h))) /\
  engine_steps ks (engine_ h) (engine_ (word_keys ks h)).
Proof.
  intros Hs Hok Hks. revert h Hs Hok.
  induction Hks as [|k ks Hk _ IH]; intros h Hs Hok Hf.
  - split; [|constructor]. cbn. rewrite <- (synced_previous _ _ Hs). apply (synced_screen _ _ Hs).
  - destruct Hf as [Hf Hfs]. destruct (word_key_synced before k h Hs Hok Hf) as [Hs' Hst].
    destruct (IH (word_key k h)) as [H1 H2]; [done|by eapply engine_step_ok|done|].
    split; [done|by econstructor].
Qed.

(** *** The end of a word *)

(** The text a commit leaves. *)
Definition committed_text (verbatim : bool) (e : E) : wstring :=
  if LastCommitWasCorrected (Commit e).2 && verbatim then Peek e else (Commit e).1.

Lemma ClearWordState_synced before h :
  ready (world_ h) -> screen (world_ h) = before -> synced before (ClearWordState h).
Proof.
  intros Hr Hs. destruct (SetHadSynthInWord_screen false (world_ h)) as [Hsc Hk].
  apply displays_nothing; [by apply Hk|by etrans; [exact Hsc|]|apply Reset_Peek|done..].
Qed.

Lemma StackTop_PushEntry entry c : StackTop (PushEntry entry c) = Some entry.
Proof.
  unfold StackTop, PushEntry. cbn. rewrite fmap_app. apply List.last_last.
Qed.

(** The word is in the application as it is committed, the engine is empty, and
    what was pushed to reopen it is that text with its widths and the keys. *)
Lemma CommitComposition_synced before verbatim h :
  synced before h -> engine_ok (engine_ h) -> Count (engine_ h) <> 0%nat ->
  let final := committed_text verbatim (engine_ h) in
  fits (previousComposition_ h) final ->
  let '(restored, h') := CommitComposition cfg verbatim h in
  synced (before ++ shown ct final) h' /\ Count (engine_ h') = 0%nat /\
  (pushedToStack_ (commitState_ h') = true ->
   exists entry, StackTop (commitState_ h') = Some entry /\ text entry = final /\
     widths entry = widths_of ct final /\ history entry = inputHistory_ (commitState_ h)).
Proof.
  intros Hs Hok Hcount final Hf. unfold CommitComposition.
  destruct (Commit (engine_ h)) as [text0 e0] eqn:Hce.
  assert (Hfin : (if LastCommitWasCorrected e0 && verbatim
                  then if verbatim then Peek (engine_ h) else [] else text0) = final).
  { unfold final, committed_text. rewrite Hce. cbn. destruct verbatim; [done|].
    by rewrite andb_false_r. }
  rewrite Hfin. clearbody final.
  assert (Hne : previousComposition_ h <> []).
  { rewrite (synced_previous _ _ Hs). by rewrite shows_counts. }
  set (h1 := set_engine e0 h).
  assert (Hd1 : displays before (previousComposition_ h) h1) by (apply synced_displays in Hs; exact Hs).
  change (previousComposition_ h1) with (previousComposition_ h).
  rewrite (bool_decide_eq_false_2 _ Hne). cbn [negb andb].
  set (restored := negb (final == previousComposition_ h)).
  set (h2 := if restored then DispatchCoordinator cfg 0 final h1 else h1).
  assert (Hh2 : displays before final h2 /\ commitState_ h2 = commitState_ h).
  { unfold h2, restored. case_bool_decide as Hp; cbn [negb].
    - by rewrite Hp.
    - split; [|by destruct (Dispatch_frame 0 final h1) as [_ ->]].
      unfold DispatchCoordinator. rewrite vietnamese. change (u16 0) with 0.
      by apply (ReplaceComposition_displays before (previousComposition_ h)). }
  destruct Hh2 as [(Hrd & Hsc & Hp2 & Hw2) Hc2].
  split_and!.
  - apply ClearWordState_synced; destruct (negb _ && negb _); done.
  - apply Reset_Count.
  - destruct (negb _ && _); [|done]. intros _. eexists. split; [|split_and!].
    + apply StackTop_PushEntry.
    + unfold entry_for. cbn. destruct restored; [done|exact Hp2].
    + cbn. exact Hw2.
    + cbn. by rewrite Hc2.
Qed.

Lemma CommitComposition_empties verbatim h :
  Peek (engine_ (CommitComposition cfg verbatim h).2) = [].
Proof. unfold CommitComposition. destruct (Commit (engine_ h)). apply Reset_Peek. Qed.

(** *** Reopening *)

(** A committed word that is at the caret is reopened with the screen and the
    engine in step, or is left alone. *)
Lemma ReplayCommittedChars_synced before prefer entry h :
  StackTop (commitState_ h) = Some entry -> ready (world_ h) ->
  screen (world_ h) = before ++ shown ct (text entry) -> widths entry = widths_of ct (text entry) ->
  let '(ok, h') := ReplayCommittedChars prefer h in
  world_ h' = world_ h /\
  if ok then synced before h' /\ Peek (engine_ h') = text entry
  else Count (engine_ h') = 0%nat /\ previousComposition_ h' = previousComposition_ h.
Proof.
  intros Htop Hrd Hsc Hw. unfold ReplayCommittedChars. rewrite Htop.
  set (pref := if prefer then PreferVisibleText else PreferHistory).
  cbn [engine_ on_commit set_commitState].
  pose proof (RestoreCommittedText_shows (text entry) (replay_history (history entry)) pref (engine_ h)) as Hr.
  destruct (RestoreCommittedText _ _ _ _) as [e r].
  destruct Hr as [[Hr Hpk]|[-> [x ->]]].
  - destruct r; [done|..]; (split; [done|]); (split; [|done]); split; cbn; congruence.
  - split; [done|]. split; [apply Reset_Count|done].
Qed.

(** C5. A word that was committed and kept to be reopened is reopened in step.
    Whatever went on after the commit, in any state [h'] in which that word is still
    the last one kept and the text before the caret is again as the commit left it,
    either the engine composes exactly the committed text and the screen shows it,
    or nothing on the screen and no word was touched.  The host is [ready], the word
    was on the screen when it was committed and the replacement the commit may have
    made fits one batch. *)
Theorem commit_and_reopen before verbatim prefer h h' :
  synced before h -> engine_ok (engine_ h) -> Count (engine_ h) <> 0%nat ->
  fits (previousComposition_ h) (committed_text verbatim (engine_ h)) ->
  let final := committed_text verbatim (engine_ h) in
  let h1 := (CommitComposition cfg verbatim h).2 in
  pushedToStack_ (commitState_ h1) = true ->
  StackTop (commitState_ h') = StackTop (commitState_ h1) ->
  ready (world_ h') -> screen (world_ h') = screen (world_ h1) ->
  let '(ok, h2) := ReplayCommittedChars prefer h' in
  screen (world_ h2) = before ++ shown ct final /\
  if ok then synced before h2 /\ Peek (engine_ h2) = final
  else Count (engine_ h2) = 0%nat /\ previousComposition_ h2 = previousComposition_ h'.
Proof.
  intros Hs Hok Hc Hf final h1 Hp Htop Hrd Hw.
  pose proof (CommitComposition_synced before verbatim h Hs Hok Hc Hf) as Hcc.
  pose proof (CommitComposition_empties verbatim h) as He. unfold h1 in *.
  destruct (CommitComposition cfg verbatim h) as [restored h1']. cbn [snd] in *.
  destruct Hcc as (Hs1 & _ & Hent). destruct (Hent Hp) as (entry & Hte & Ht & Hwd & _).
  assert (Hsc : screen (world_ h') = before ++ shown ct final).
  { rewrite Hw, (synced_screen _ _ Hs1), (synced_previous _ _ Hs1), He, shown_nil. apply app_nil_r. }
  pose proof (ReplayCommittedChars_synced before prefer entry h') as Hr.
  rewrite Htop, Ht in Hr. specialize (Hr Hte Hrd Hsc Hwd).
  destruct (ReplayCommittedChars prefer h') as [ok h2]. destruct Hr as [-> Hr]. by split.
Qed.

End Facts.

(** ** Macros in the hook: an expansion and the backspace that takes it back *)

Section MacroUndo.
Context {E W : Type} {IE : InputEngine E} {OD : OutputDispatcher W} {HS : HookSystem W}.
Context {cm : CaseMapper} {SP : SpacePlatform} {PP : PunctPlatform} {Lo : Locale}.
Context {Ho : Host W}.
Variable cfg : HookConfig.
Abbreviation Hook := (Hook E W).
Implicit Types h : Hook.

(** A batch of the macro undo fits. *)
Hypothesis chunk_fits : (kUndoChunk <= capacity)%nat.

(** The deletions in chunks delete what one deletion would. *)
Lemma erase_chunks_screen fuel pending (w : W) :
  ready w -> (pending <= fuel)%nat -> (pending <= length (screen w))%nat ->
  let '(ok, w') := erase_chunks fuel pending w in
  ok = true /\ screen w' = edit pending [] (screen w) /\ ready w'.
Proof.
  revert pending w. induction fuel as [|fuel IH]; intros pending w Hr Hf Hs; cbn [erase_chunks].
  { replace pending with 0%nat by lia. by rewrite edit_type, app_nil_r. }
  destruct (Nat.eqb_spec pending 0) as [->|Hp]; [by rewrite edit_type, app_nil_r|].
  set (n := Nat.min pending kUndoChunk).
  assert (Hn : (0 < n <= pending)%nat) by (unfold n, kUndoChunk; lia).
  pose proof (ReplaceRaw_screen n [] w Hr) as Hraw. destruct (ReplaceRaw n [] w) as [ok w1].
  destruct Hraw as (-> & Hsc & Hr1); [lia|cbn; unfold n; lia|].
  specialize (IH (pending - n)%nat w1 Hr1). destruct (erase_chunks fuel _ w1) as [ok w2].
  destruct IH as (-> & H2 & Hr2); [lia|rewrite Hsc, edit_erase, length_take; lia|].
  split_and!; [done| |done]. rewrite H2, Hsc, edit_edit. f_equal. lia.
Qed.

Lemma type_chunks_screen fuel text (w : W) :
  ready w -> (length text <= fuel)%nat ->
  let '(ok, w') := type_chunks fuel text w in
  ok = true /\ screen w' = screen w ++ text /\ ready w'.
Proof.
  revert text w. induction fuel as [|fuel IH]; intros text w Hr Hf; cbn [type_chunks].
  { destruct text; [|cbn in Hf; lia]. by rewrite app_nil_r. }
  case_bool_decide as Ht; [subst; by rewrite app_nil_r|].
  pose proof (ReplaceRaw_screen 0 (take kUndoChunk text) w Hr) as Hraw.
  destruct (ReplaceRaw 0 (take kUndoChunk text) w) as [ok w1].
  destruct Hraw as (-> & Hsc & Hr1); [lia|rewrite length_take; lia|].
  assert (length text <> 0)%nat by (by destruct text).
  specialize (IH (drop kUndoChunk text) w1 Hr1). destruct (type_chunks fuel _ w1) as [ok w2].
  destruct IH as (-> & H2 & Hr2); [rewrite length_drop; unfold kUndoChunk; lia|].
  split_and!; [done| |done]. by rewrite H2, Hsc, edit_type, <- app_assoc, take_drop.
Qed.

(** An expansion that can be taken back is one replacement. *)
Lemma SendExpansion_plain plan (w : W) :
  useClipboard plan = false -> currentCodeTable_ cfg = Unicode ->
  CanUndoWithBackspaces (expansion plan) = true ->
  ready w -> (bsCount plan <= length (screen w))%nat ->
  (bsCount plan + length (expansion plan) <= capacity)%nat ->
  let s := SendExpansion cfg plan w in
  screen (sent_world s) = edit (bsCount plan) (expansion plan) (screen w) /\
  sent_length s = length (expansion plan).
Proof.
  intros Hu Hct Hcu Hr Hb Hc. unfold SendExpansion. rewrite Hu, Hct, CanUndo_one_segment by done.
  case_bool_decide as He; cbn [foldl].
  - rewrite He in *. unfold send_pending. cbn [pendingBs].
    destruct (Nat.ltb_spec 0 (bsCount plan)).
    + unfold send_raw. cbn [pendingBs sent_world].
      pose proof (ReplaceRaw_screen (bsCount plan) [] w Hr Hb Hc) as Hraw.
      destruct (ReplaceRaw _ _ _) as [ok w1]. by destruct Hraw as (_ & ? & _).
    + replace (bsCount plan) with 0%nat by lia. by rewrite edit_type, app_nil_r.
  - pose proof (ReplaceRaw_screen (bsCount plan) (expansion plan) w Hr Hb Hc) as Hraw.
    unfold SendSegment. cbn [isReturn seg_text]. rewrite (bool_decide_eq_false_2 _ He). cbn [negb].
    unfold send_raw. cbn [pendingBs sent_world sent_length delivered].
    destruct (ReplaceRaw _ _ _) as [ok w1]. destruct Hraw as (_ & Hsc & _). by rewrite <- Hsc.
Qed.

(** What the undo state describes is erased, and the shortcut typed again. *)
Lemma UndoExpansion_retypes before gone u h :
  macroUndoState_ h = u -> ready (world_ h) ->
  screen (world_ h) = before ++ gone ->
  length gone = (expansionLength u + if hasTrailingTrigger u then 1 else 0)%nat ->
  let h' := UndoExpansion h in
  screen (world_ h') = before ++ undo_shortcut u /\ rawMacroBuffer_ h' = undo_shortcut u /\
  tempMacroOff_ h' = true /\ undo_active (macroUndoState_ h') = false.
Proof.
  intros Hu Hr Hs Hl h'. unfold h', UndoExpansion. rewrite Hu. cbn zeta. rewrite <- Hl.
  clear h' Hl Hu. cbn [ClearMacroUndo set_macroUndoState world_].
  pose proof (erase_chunks_screen (length gone) (length gone) (world_ h) Hr) as He.
  destruct (erase_chunks _ _ _) as [ok1 w1].
  destruct He as (-> & H2 & Hr1); [done|rewrite Hs, length_app; lia|].
  rewrite Hs, edit_tail, app_nil_r in H2 by done. cbn [negb world_ set_world].
  pose proof (type_chunks_screen (length (undo_shortcut u)) (undo_shortcut u) w1 Hr1) as Ht.
  destruct (type_chunks _ _ _) as [ok2 w2]. destruct Ht as (-> & H5 & _); [done|].
  cbn [negb]. by rewrite H2 in H5.
Qed.

(** What an expansion leaves, and its undo from there. *)
Lemma undo_of_expansion before plan len tick trigger h0 :
  let u := mkUndo (shortcut plan) len (negb (isPartOfMacro plan)) tick true in
  let h1 := set_macroUndoState u h0 in
  screen (world_ h0) = before ++ expansion plan -> len = length (expansion plan) ->
  screen (world_ h1) = before ++ expansion plan /\
  forall h', macroUndoState_ h' = macroUndoState_ h1 -> ready (world_ h') ->
    screen (world_ h') = screen (world_ h1) ++ (if isPartOfMacro plan then [] else [trigger]) ->
    let h2 := UndoExpansion h' in
    screen (world_ h2) = before ++ shortcut plan /\ rawMacroBuffer_ h2 = shortcut plan /\
    tempMacroOff_ h2 = true /\ undo_active (macroUndoState_ h2) = false.
Proof.
  intros u h1 Hs ->. split; [exact Hs|]. intros h' Hu Hr Hw.
  change (world_ h1) with (world_ h0) in Hw. rewrite Hs, <- app_assoc in Hw.
  apply (UndoExpansion_retypes before _ u h' Hu Hr Hw).
  unfold u. cbn [expansionLength hasTrailingTrigger].
  rewrite length_app. by destruct (isPartOfMacro plan).
Qed.

(** What follows the sending leaves the application alone. *)
Lemma after_sending_screen h :
  screen (world_ (CancelCommitUndo (ClearWordState h))) = screen (world_ h).
Proof. exact (proj1 (SetHadSynthInWord_screen false (world_ h))). Qed.

(** The keys typed for a macro are in the buffer, and then the trigger if it is one
    that writes.  The word that matched is the text composed or those keys; what
    stands on the screen is the text composed, if there is one and no word was
    committed in between, or those keys. *)
Definition matched_by_text (inp : PlanInputs) : bool := (SearchComposition inp (SearchRaw inp)).2.
Definition word_matched (inp : PlanInputs) (keys : wstring) : wstring :=
  if matched_by_text inp then previousComposition inp else keys.
Definition word_standing (inp : PlanInputs) (keys : wstring) : wstring :=
  if matched_by_text inp || negb (macroCrossCommit inp) && negb (previousComposition inp == [])
  then previousComposition inp else keys.
Definition trigger_typed (inp : PlanInputs) : wstring :=
  if L " " <? triggerChar inp then [triggerChar inp] else [].

(** What a search that found reports as typed: the word and its trigger. *)
Definition found_typed (inp : PlanInputs) (keys : wstring) (f : Found) : Prop :=
  let '(it, typed, part, via) := f in
  it <> None ->
  typed = (if via then previousComposition inp else keys) ++
          (if part then [triggerChar inp] else []).

Lemma SearchRaw_typed inp keys :
  rawMacroBuffer inp = keys ++ trigger_typed inp ->
  found_typed inp keys (SearchRaw inp) /\
  ((SearchRaw inp).1.1.1 = None -> (SearchRaw inp).1.2 = false).
Proof.
  intros Hraw. unfold SearchRaw. rewrite Hraw. unfold trigger_typed.
  destruct (L " " <? triggerChar inp); cbn [andb]; rewrite ?app_nil_r, ?removelast_last;
    repeat case_match; split; unfold found_typed; cbn; intros; by rewrite ?app_nil_r.
Qed.

Lemma SearchComposition_typed inp keys f :
  found_typed inp keys f -> (f.1.1.1 = None -> f.1.2 = false) ->
  found_typed inp keys (SearchComposition inp f).
Proof.
  destruct f as [[[it typed] part] via]. unfold SearchComposition. cbn [fst snd]. intros Hf Hp.
  destruct it as [kv|]; [done|]. rewrite (Hp eq_refl). cbn [bool_decide decide negb orb].
  destruct (_ || _); [by rewrite <- (Hp eq_refl)|]. case_match; [done|]. intros Hn.
  rewrite bool_decide_eq_false_2 by done. by rewrite app_nil_r.
Qed.

(** The plan erases the word that stands there and gives back the one that matched. *)
Lemma Plan_takes_word inp keys :
  currentCodeTable inp = Unicode -> rawMacroBuffer inp = keys ++ trigger_typed inp ->
  matched (Plan inp) = true ->
  bsCount (Plan inp) = length (word_standing inp keys) /\
  shortcut (Plan inp) =
    word_matched inp keys ++ (if isPartOfMacro (Plan inp) then [triggerChar inp] else []).
Proof.
  intros Hct Hraw. unfold Plan, word_standing, word_matched, matched_by_text, composition_width.
  assert (Hrw : raw_width inp = length keys).
  { unfold raw_width. rewrite Hraw, length_app. unfold trigger_typed.
    destruct (L " " <? triggerChar inp); cbn [andb length]; [|lia].
    destruct (Nat.ltb_spec 0 (length keys + 1)); lia. }
  rewrite Hct, Hrw. destruct (SearchRaw_typed inp keys Hraw) as [H1 H2].
  pose proof (SearchComposition_typed inp keys _ H1 H2) as Ht.
  destruct (SearchComposition inp (SearchRaw inp)) as [[[it typed] part] via].
  destruct it as [[key stored]|]; [|done]. intros _. cbn [bsCount shortcut isPartOfMacro snd].
  split; [|by apply Ht].
  rewrite (bool_decide_eq_true_2 (Unicode = Unicode)) by done. cbn [negb]. by destruct via, (macroCrossCommit inp), (bool_decide _).
Qed.


End MacroUndo.
