(* ===== verification/HookSafety.v ===== *)
(** * Safety of the hook over every path of a key

    What holds after [ProcessKeyDown] whichever guard, feature or handler ended
    it: no committed word survives Enter or Tab, the stack of committed words
    stays bounded, its counters stay within their bytes, and the modifier keys are
    tracked as they are held. *)

From S2P Require Import Prelude Action Config CodeTable MacroPrefix Macro InputEngine.
From S2P Require Import Pipeline KeyDecisions AutoCap Hotkey CommitState.
From S2P Require Import Hook HookUndo HookMacro HookKeys.
Open Scope Z_scope.

Section Safety.
Context {E W : Type} {IE : InputEngine E} {OD : OutputDispatcher W} {HS : HookSystem W}.
Context {cm : CaseMapper} {SP : SpacePlatform} {PP : PunctPlatform} {Lo : Locale}.
Variable cfg : HookConfig.
Abbreviation Hook := (Hook E W).
Implicit Types h : Hook.

(** ** Induction over the steps of a key

    What every step keeps, the whole key keeps: the entry, the guards, the
    bookkeeping, the three features of the pre-engine pipeline in their order, and
    the dispatch. *)
Lemma ProcessKeyDown_keeps (P : Hook -> Prop) v sh cp c a wn h ch :
  batch ch = [] -> P (KeyDownEntry cfg v c a wn h) ->
  (forall h, P h -> P (RunTopGuards v h).2) ->
  (forall h, P h -> P (WatchSynthEvents (on_modifiers contaminate h))) ->
  (forall h, P h -> P (clear_context h)) ->
  (forall h, P h -> P (HandleCommitUndoFsm cfg (u16 v) (vietnameseMode_ cfg) sh cp c a wn h).2) ->
  (forall h, P h -> P (HookMacro.HandleMacro cfg (u16 v) sh cp c a wn h).2) ->
  (forall h, P h -> P (HookUndo.TryEscRestore cfg (u16 v) sh c a wn h).2) ->
  (forall h, P h -> P (KeyDownDispatch cfg v sh cp c a wn h).2) ->
  P (ProcessKeyDown cfg v sh cp c a wn (h, ch)).2.1.
Proof.
  intros Hb H1 Hg Hwt Hcl Hf Hm He Hd. unfold ProcessKeyDown.
  set (h1 := KeyDownEntry cfg v c a wn h) in *. clearbody h1. apply Hg in H1.
  destruct (RunTopGuards v h1) as [g h2]. cbn [snd] in H1. destruct g; [done..|].
  apply Hwt in H1. set (h3 := WatchSynthEvents _) in *. clearbody h3.
  destruct (english_exit cfg h3); [case_match; [by apply Hcl|done]|].
  pose proof (PreEngineStep_chain (H := Hook_host cfg) (key_context v sh cp c a wn h3) h3 ch Hb) as Hc.
  destruct (PreEngineStep _ _) as [[w' ch'] verdict]. destruct Hc as [_ Hc]. revert Hc.
  unfold asked_in_turn. cbv zeta.
  cbn [kc_vk kc_shift kc_capsLock kc_ctrl kc_alt kc_win key_context
       Pipeline.HandleCommitUndo Pipeline.HandleMacro Pipeline.TryEscRestore Hook_host].
  apply Hf in H1. destruct (HandleCommitUndoFsm _ _ _ _ _ _ _ _ h3) as [o h4]. cbn [snd] in H1.
  destruct o; [by intros [= -> ->]..|]. cbn [commit_undo_outcome].
  apply Hm in H1. destruct (HookMacro.HandleMacro _ _ _ _ _ _ _ h4) as [o5 h5]. cbn [snd] in H1.
  destruct o5; [by intros [= -> ->]..| |];
    (apply He in H1; destruct (HookUndo.TryEscRestore _ _ _ _ _ _ h5) as [o6 h6]; cbn [snd] in H1;
     case_bool_decide; [by intros [= -> ->]|]; intros [= -> ->];
     apply Hd in H1; destruct (KeyDownDispatch _ _ _ _ _ _ _ h6); exact H1).
Qed.

(** ** Nothing to reopen *)

Definition no_replay h : Prop :=
  state_ (commitState_ h) = CommitState.Idle /\ stack_ (commitState_ h) = [].

Lemma no_replay_ext h h' :
  state_ (commitState_ h') = state_ (commitState_ h) ->
  stack_ (commitState_ h') = stack_ (commitState_ h) -> no_replay h -> no_replay h'.
Proof. unfold no_replay. intros -> ->. done. Qed.

(** Handlers that leave the commit-undo state alone, or end it. *)
Ltac keeps := repeat case_match; simplify_eq; cbn in *; auto; try done.

Lemma idle_flags h : no_replay h -> IsReady (commitState_ h) = false /\ IsPrimed (commitState_ h) = false.
Proof. intros [Hi _]. unfold IsReady, IsPrimed. by rewrite Hi. Qed.

Lemma Cancelled h : no_replay (CancelCommitUndo h).
Proof. done. Qed.

Lemma ReplaceComposition_commit t v h : commitState_ (ReplaceComposition cfg t v h) = commitState_ h.
Proof. unfold ReplaceComposition, ReplaceEncoded. keeps. Qed.

Lemma TryExpandMacro_no_replay t h : no_replay h -> no_replay (TryExpandMacro cfg t h).2.
Proof. intros Hn. unfold TryExpandMacro. case_match; cbn; [done|]. case_match; done. Qed.

Lemma ExpandOnTrigger_no_replay v h : no_replay h -> no_replay (ExpandOnTrigger cfg v h).2.
Proof.
  intros Hn. unfold ExpandOnTrigger.
  pose proof (TryExpandMacro_no_replay (VkToMacroChar v (world_ h)) h Hn) as H.
  destruct (TryExpandMacro _ _ _) as [r h']. keeps.
Qed.

Lemma Track_no_replay h :
  no_replay h ->
  (forall v sh cp, no_replay (TrackLetter v sh cp h)) /\ (forall ch, no_replay (TrackTrigger ch h)) /\
  no_replay (UntrackLast h) /\ no_replay (EndMacroWord h).
Proof.
  intros Hn. split_and!; intros; unfold TrackLetter, TrackTrigger, UntrackLast; try case_match; done.
Qed.

Lemma HandleMacro_no_replay v sh cp c a wn h :
  v <> 8 -> no_replay h -> no_replay (HookMacro.HandleMacro cfg v sh cp c a wn h).2.
Proof.
  intros Hv Hn. unfold HookMacro.HandleMacro. apply Z.eqb_neq in Hv as Hv'. rewrite Hv'.
  rewrite andb_false_r. cbn [andb negb].
  set (h1 := if undo_active _ && _ then _ else h).
  assert (Hn1 : no_replay h1) by (unfold h1; case_match; done). clearbody h1. clear h Hn.
  destruct (Track_no_replay h1 Hn1) as (T1 & T2 & T3 & T4).
  unfold HandleMacroEnglish, HandleMacroVietnamese. cbn zeta.
  destruct (vietnameseMode_ cfg); cbn [negb].
  - set (active := macroEnabled_ cfg && _).
    set (h2 := if active then TrackMacroKey v sh cp h1 else h1).
    assert (Hn2 : no_replay h2) by (unfold h2, TrackMacroKey; keeps).
    destruct (Track_no_replay h2 Hn2) as (_ & _ & U3 & U4). clearbody h2.
    case_match; [done|].
    set (p := if active && _ && _ && _ then ExpandOnTrigger cfg v h2 else (None, h2)).
    assert (Hp : no_replay p.2) by (unfold p; case_match; [by apply ExpandOnTrigger_no_replay|done]).
    destruct p as [o h3]. cbn in Hp. destruct o; [done|]. cbn.
    destruct (Track_no_replay h3 Hp) as (_ & _ & V3 & V4).
    unfold CleanMacroBuffer. keeps.
  - destruct (negb (_ && _)); [done|]. destruct (is_alpha v); [apply T1|].
    destruct (SkipMacroKey _ _ _ && _); [done|].
    destruct (IsCommitTrigger v && _) eqn:?.
    + set (h2 := TrackTrigger _ h1). assert (Hn2 : no_replay h2) by apply T2. clearbody h2.
      destruct (negb _ && _).
      * pose proof (ExpandOnTrigger_no_replay v h2 Hn2). destruct (ExpandOnTrigger cfg v h2). done.
      * destruct (Track_no_replay h2 Hn2) as (_ & _ & _ & U4). case_match; done.
    + repeat case_match; done.
Qed.

Lemma HandleCommitUndoFsm_no_replay v vn sh cp c a wn h :
  no_replay h ->
  let '(o, h') := HandleCommitUndoFsm cfg v vn sh cp c a wn h in
  o = Fallthrough /\ no_replay h'.
Proof.
  intros Hn. unfold HandleCommitUndoFsm.
  set (h1 := CancelStale v c a wn (TrackGlyphs v h)).
  assert (Hn1 : no_replay h1).
  { unfold h1, CancelStale, TrackGlyphs. repeat case_match; done. }
  destruct (idle_flags h1 Hn1) as [-> ->]. cbn. destruct (idle_flags h1 Hn1) as [-> _]. done.
Qed.

Lemma TryEscRestore_no_replay v sh c a wn h :
  no_replay h -> no_replay (HookUndo.TryEscRestore cfg v sh c a wn h).2.
Proof.
  intros Hn. unfold HookUndo.TryEscRestore, TryEscRestoreRaw, EscRestoreLive, EscRestorePrimed.
  destruct (idle_flags h Hn) as [_ ->]. cbn. repeat case_match; simplify_eq; done.
Qed.

Lemma ToggleTempOff_no_replay h : no_replay (ToggleTempOff cfg h).
Proof. apply Cancelled. Qed.

(** ** Enter and Tab *)

Definition is_boundary (v : Z) : Prop := v = 13 \/ v = 9.

Lemma CommitComposition_commit verbatim h :
  let h' := (CommitComposition cfg verbatim h).2 in
  pushedToStack_ (commitState_ h') = false ->
  state_ (commitState_ h') = state_ (commitState_ h) /\
  stack_ (commitState_ h') = stack_ (commitState_ h).
Proof.
  unfold CommitComposition. destruct (Commit _) as [t e]. cbn zeta.
  set (h2 := if negb _ && negb _ then DispatchCoordinator _ _ _ _ else _).
  assert (Hc : commitState_ h2 = commitState_ h).
  { unfold h2, DispatchCoordinator. repeat case_match; try done; by rewrite ReplaceComposition_commit. }
  destruct (negb (HasActiveQuickConsonant _) && _); cbn; [done|]. rewrite Hc. done.
Qed.

Lemma CommitOnTrigger_boundary v m h :
  is_boundary v -> no_replay h -> no_replay (CommitOnTrigger cfg v m h).2.
Proof.
  intros Hv Hn. unfold CommitOnTrigger.
  pose proof (CommitComposition_commit (IsVerbatimCommitTrigger (VkToMacroChar v (world_ h))) h) as Hc.
  destruct (CommitComposition _ _ _) as [restored h1]. cbn [snd] in Hc.
  set (h2 := if negb _ then _ else _).
  assert (H2 : commitState_ h2 = commitState_ h1) by (unfold h2; keeps).
  assert (Ha : no_replay (ArmAfterCommit v h2)).
  { unfold ArmAfterCommit. rewrite H2. destruct (pushedToStack_ _) eqn:Ep.
    - destruct Hv as [-> | ->]; done.
    - destruct (Hc eq_refl) as [H3 H4]. unfold no_replay in *. rewrite H2, H3, H4. done. }
  revert Ha. generalize (ArmAfterCommit v h2). intros h3 H3. unfold DeliverTrigger. keeps.
Qed.

Lemma HandleOther_empty v h :
  Count (engine_ h) = 0%nat -> commitState_ (HandleOther cfg v h).2 = commitState_ h.
Proof. intros Hc. unfold HandleOther. rewrite Hc. cbn. keeps. Qed.

Lemma DispatchKeyAction_boundary v sh cp c a wn m h :
  is_boundary v -> no_replay h -> no_replay (DispatchKeyAction cfg v sh cp c a wn m h).2.
Proof.
  intros Hv Hn. unfold DispatchKeyAction.
  case_match; [unfold TempOffKey; keeps|]. case_match; [done|].
  assert (Hd : no_replay (DigitLedKey cfg v sh h).2) by (unfold DigitLedKey; case_match; done).
  destruct (DigitLedKey cfg v sh h) as [o h1]. cbn in Hd. destruct o; [done|].
  unfold DispatchTyping, DispatchEdit.
  assert (Ht : IsCommitTrigger v = true) by (destruct Hv as [-> | ->]; done).
  assert (Hx : is_alpha v = false /\ (v =w 219) || (v =w 221) = false /\ is_vk_digit v = false /\
               IsOemPunctVk v = false /\ (v =w 8) = false /\ (v =w 27) = false)
    by (destruct Hv as [-> | ->]; done).
  destruct Hx as (-> & -> & -> & -> & -> & ->). rewrite Ht, !andb_false_r. cbn [andb].
  destruct (Nat.ltb_spec 0 (Count (engine_ h1))).
  - by apply CommitOnTrigger_boundary.
  - unfold no_replay. rewrite HandleOther_empty by lia. done.
Qed.

Lemma KeyDownDispatch_boundary v sh cp c a wn h :
  is_boundary v -> no_replay h -> no_replay (KeyDownDispatch cfg v sh cp c a wn h).2.
Proof.
  intros Hv Hn. unfold KeyDownDispatch, HandlePreDispatch.
  destruct (vietnameseMode_ cfg); cbn [negb]; [|done].
  set (h1 := if autoCaps_ cfg then _ else h).
  assert (Hn1 : no_replay h1) by (unfold h1; case_match; done). clearbody h1. cbn zeta.
  destruct (down_hotkey cfg ToggleEnabled _ _); [apply ToggleTempOff_no_replay|].
  destruct (down_hotkey cfg ToggleGameMode _ _).
  - set (h2 := on_world _ h1).
    pose proof (DispatchKeyAction_boundary v sh cp c a wn (macroEnabled_ cfg) h2 Hv Hn1) as H.
    destruct (DispatchKeyAction _ _ _ _ _ _ _ _ h2). exact H.
  - pose proof (DispatchKeyAction_boundary v sh cp c a wn (macroEnabled_ cfg) h1 Hv Hn1) as H.
    destruct (DispatchKeyAction _ _ _ _ _ _ _ _ h1). exact H.
Qed.

Lemma RunTopGuards_commit v h : commitState_ (RunTopGuards v h).2 = commitState_ h.
Proof. unfold RunTopGuards. keeps. Qed.

(** C25. A committed word never survives the key that may leave its field: after
    Enter or Tab, through whichever of the guards, the macros, the hotkeys or the
    commit of a pending word, nothing is left that a backspace could reopen. *)
Theorem boundary_ends_replay v sh cp c a wn h ch :
  is_boundary v -> batch ch = [] ->
  no_replay (ProcessKeyDown cfg v sh cp c a wn (h, ch)).2.1.
Proof.
  intros Hv Hb. assert (Hu : u16 v = v) by (destruct Hv as [-> | ->]; done).
  apply ProcessKeyDown_keeps; rewrite ?Hu; try done; intros.
  - unfold KeyDownEntry. destruct Hv as [-> | ->]; cbn; case_match; done.
  - unfold no_replay. by rewrite RunTopGuards_commit.
  - unfold WatchSynthEvents. by case_match.
  - pose proof (HandleCommitUndoFsm_no_replay v (vietnameseMode_ cfg) sh cp c a wn h0 H) as Hf.
    destruct (HandleCommitUndoFsm _ _ _ _ _ _ _ _ h0). apply Hf.
  - apply HandleMacro_no_replay; [destruct Hv as [-> | ->]; done|done].
  - by apply TryEscRestore_no_replay.
  - by apply KeyDownDispatch_boundary.
Qed.

End Safety.

(** ** The commit-undo state is well formed whatever the keys

    The counters of the commit-undo state are bytes in the source and integers
    here: they stay within a byte, the stack within its bound, and every word on
    it has keys to replay, after any key through any path of the hook. *)

(** ** The operations on the state *)

Definition byte (z : Z) : Prop := 0 <= z <= 255.
Definition entry_wf (e : Entry) : Prop := history e <> [] /\ byte (extraLeadingTriggers e).

Record commit_wf (c : CommitState) : Prop := mkWf {
  wf_stack : (length (stack_ c) <= kMaxStack)%nat;
  wf_entries : Forall entry_wf (stack_ c);
  wf_pending : byte (pendingTriggerCount_ c);
  wf_leading : byte (leadingTriggersForCurrentWord_ c)
}.

Lemma commit_wf_new : commit_wf new_commit.
Proof. repeat constructor; unfold kMaxStack; cbn; lia. Qed.

Lemma commit_wf_Cancel c : commit_wf c -> commit_wf (Cancel c).
Proof. intros []. repeat constructor; unfold kMaxStack; cbn; try lia. Qed.
Lemma commit_wf_Discard c : commit_wf c -> commit_wf (DiscardReplayContext c).
Proof. intros []. repeat constructor; unfold kMaxStack; cbn; try lia. Qed.

Lemma commit_wf_history k c : commit_wf c -> commit_wf (set_history k c).
Proof. by intros []. Qed.
Lemma commit_wf_Append ch c : commit_wf c -> commit_wf (AppendHistory ch c).
Proof. by intros []. Qed.
Lemma commit_wf_Marker c : commit_wf c -> commit_wf (AppendBackspaceMarker c).
Proof. by intros []. Qed.
Lemma commit_wf_ClearHistory c : commit_wf c -> commit_wf (ClearHistory c).
Proof. by intros []. Qed.
Lemma commit_wf_Pushed b c : commit_wf c -> commit_wf (SetPushedToStack b c).
Proof. by intros []. Qed.
Lemma commit_wf_Gap b c : commit_wf c -> commit_wf (SetGapEndsInGlyph b c).
Proof. by intros []. Qed.
Lemma commit_wf_PrevGlyph ch c : commit_wf c -> commit_wf (SetPrevKeyGlyph ch c).
Proof. by intros []. Qed.
Lemma commit_wf_OpenGlyph ch c : commit_wf c -> commit_wf (SetWordOpenGlyph ch c).
Proof. by intros []. Qed.
Lemma commit_wf_SetIdle c : commit_wf c -> commit_wf (SetIdle c).
Proof. by intros []. Qed.
Lemma commit_wf_SetReady t c : commit_wf c -> commit_wf (SetReady t c).
Proof. by intros []. Qed.
Lemma commit_wf_SetPrimed c : commit_wf c -> commit_wf (SetPrimed c).
Proof. by intros []. Qed.
Lemma commit_wf_SetPending n c : byte n -> commit_wf c -> commit_wf (SetPendingTriggers n c).
Proof. by intros ? []. Qed.
Lemma commit_wf_SetLeading n c :
  byte n -> commit_wf c -> commit_wf (SetLeadingTriggersForCurrentWord n c).
Proof. by intros ? []. Qed.

Lemma commit_wf_Increment c : commit_wf c -> commit_wf (IncrementPendingTriggers c).
Proof.
  intros Hc. unfold IncrementPendingTriggers. case_match eqn:E; [|done].
  destruct Hc as [? ? Hp ?]. split; unfold byte in *; cbn in *; try done; lia.
Qed.
Lemma commit_wf_Decrement c : commit_wf c -> commit_wf (DecrementPendingTriggers c).
Proof.
  intros Hc. unfold DecrementPendingTriggers. case_match eqn:E; [|done].
  destruct Hc as [? ? Hp ?]. split; unfold byte in *; cbn in *; try done; lia.
Qed.

Lemma commit_wf_Pop c : commit_wf c -> commit_wf (PopStackTop c).
Proof.
  intros [Hl He Hp Hd]. unfold PopStackTop.
  destruct (stack_ c) as [|x l _] eqn:Es using rev_ind; [by rewrite <- Es in *; split|].
  destruct (l ++ [x]) as [|y l'] eqn:Ea; [by destruct l|]. rewrite <- Ea, removelast_last.
  rewrite <- Ea in Hl, He. rewrite length_app in Hl. apply Forall_app in He as [He _].
  split; cbn; try done. lia.
Qed.

Lemma commit_wf_Push e c : entry_wf e -> commit_wf c -> commit_wf (PushEntry e c).
Proof.
  intros He [Hl Hs Hp Hd]. unfold PushEntry.
  split; cbn [stack_ set_stack pendingTriggerCount_ leadingTriggersForCurrentWord_]; try done.
  - rewrite length_app. cbn [length].
    destruct (Nat.leb_spec kMaxStack (length (stack_ c))); [rewrite length_drop|];
      unfold kMaxStack in *; lia.
  - apply Forall_app. split; [|by constructor]. case_match; [by apply Forall_drop|done].
Qed.

Lemma StackTop_wf c e : commit_wf c -> StackTop c = Some e -> entry_wf e.
Proof.
  intros [_ Hs _ _] Ht. unfold StackTop in Ht.
  destruct (stack_ c) as [|x l _] using rev_ind; [done|].
  rewrite fmap_app in Ht. change (Some <$> [x]) with [Some x] in Ht.
  rewrite List.last_last in Ht. injection Ht as <-.
  by apply Forall_app in Hs as [_ [? _]%Forall_cons].
Qed.

Create HintDb commit_wf.
#[export] Hint Resolve commit_wf_Cancel commit_wf_Discard commit_wf_history commit_wf_Append
  commit_wf_Marker commit_wf_ClearHistory commit_wf_Pushed commit_wf_Gap commit_wf_PrevGlyph
  commit_wf_OpenGlyph commit_wf_SetIdle commit_wf_SetReady commit_wf_SetPrimed commit_wf_SetPending
  commit_wf_SetLeading commit_wf_Increment commit_wf_Decrement commit_wf_Pop wf_pending wf_leading
  : commit_wf.
#[export] Hint Extern 1 (byte 0) => (unfold byte; lia) : commit_wf.

(** ** The handlers *)

Section Handlers.
Context {E W : Type} {IE : InputEngine E} {OD : OutputDispatcher W} {HS : HookSystem W}.
Context {cm : CaseMapper} {SP : SpacePlatform} {PP : PunctPlatform} {Lo : Locale}.
Variable cfg : HookConfig.
Abbreviation Hook := (Hook E W).
Implicit Types h : Hook.

Definition hook_wf h : Prop := commit_wf (commitState_ h).

#[local] Arguments AppendHistory : simpl never.
#[local] Arguments AppendBackspaceMarker : simpl never.
#[local] Arguments ClearHistory : simpl never.
#[local] Arguments Cancel : simpl never.
#[local] Arguments SetReady : simpl never.
#[local] Arguments SetIdle : simpl never.
#[local] Arguments SetPrimed : simpl never.
#[local] Arguments set_history : simpl never.
#[local] Arguments SetPendingTriggers : simpl never.
#[local] Arguments SetGapEndsInGlyph : simpl never.
#[local] Arguments SetPushedToStack : simpl never.
#[local] Arguments SetLeadingTriggersForCurrentWord : simpl never.
#[local] Arguments SetWordOpenGlyph : simpl never.
#[local] Arguments SetPrevKeyGlyph : simpl never.
#[local] Arguments IncrementPendingTriggers : simpl never.
#[local] Arguments DecrementPendingTriggers : simpl never.
#[local] Arguments PopStackTop : simpl never.
#[local] Arguments PushEntry : simpl never.
#[local] Arguments DiscardReplayContext : simpl never.

Ltac wf := unfold hook_wf in *; repeat case_match; simplify_eq; cbn in *; eauto 8 with commit_wf.

Lemma Replace_wf t v h : hook_wf h -> hook_wf (ReplaceComposition cfg t v h).
Proof. unfold hook_wf. by rewrite ReplaceComposition_commit. Qed.
Lemma Dispatch_wf t v h : hook_wf h -> hook_wf (DispatchCoordinator cfg v t h).
Proof. intros Hw. unfold DispatchCoordinator. case_match; [by apply Replace_wf|done]. Qed.
Lemma push_and_show_wf push v h : hook_wf h -> hook_wf (push_and_show cfg push v h).
Proof. intros Hw. by apply Dispatch_wf. Qed.
Lemma ClearWordState_wf h : hook_wf h -> hook_wf (ClearWordState h).
Proof. wf. Qed.
Lemma ResetComposition_wf h : hook_wf h -> hook_wf (ResetComposition h).
Proof. wf. Qed.
Lemma CancelCommitUndo_wf h : hook_wf h -> hook_wf (CancelCommitUndo h).
Proof. wf. Qed.
Lemma SetCommitUndoReady_wf h : hook_wf h -> hook_wf (SetCommitUndoReady h).
Proof. intros Hw. unfold SetCommitUndoReady, hook_wf in *. cbn. auto 8 with commit_wf. Qed.

Lemma HandleAlphaKey_wf v sh cp h : hook_wf h -> hook_wf (HandleAlphaKey cfg v sh cp h).2.
Proof.
  intros Hw. unfold HandleAlphaKey.
  assert (Ha : forall c, hook_wf (AutoCapKey cfg c h).2)
    by (intros c; unfold AutoCapKey, AutoCapAlpha; wf).
  specialize (Ha (if xorb sh cp then v else towlower v)).
  destruct (AutoCapKey _ _ _) as [[ch capped] h0]. cbn [snd] in Ha.
  set (h1 := if _ && _ then clear_previous h0 else h0).
  assert (H1 : hook_wf h1) by (unfold h1; case_match; done). clearbody h1. clear Ha h0.
  cbn zeta. case_match; [wf|].
  set (p := if reinjects _ _ _ _ _ then _ else _).
  assert (Hp : hook_wf p.2) by (unfold p; wf). destruct p as [rv h2]. by apply Dispatch_wf.
Qed.

Lemma HandleVniDigitKey_wf v h : hook_wf h -> hook_wf (HandleVniDigitKey cfg v h).2.
Proof. intros Hw. apply push_and_show_wf. wf. Qed.

Lemma HandleBackspace_wf h : hook_wf h -> hook_wf (HandleBackspace cfg h).
Proof.
  intros Hw. unfold HandleBackspace. set (h1 := set_engine _ _).
  assert (H1 : hook_wf h1) by (unfold h1; wf). clearbody h1.
  case_match; [by apply Dispatch_wf|].
  set (h2 := if negb _ then clear_previous _ else h1).
  assert (H2 : hook_wf h2) by (unfold h2; wf). clearbody h2.
  case_match; [by apply SetCommitUndoReady_wf|done].
Qed.

Lemma CommitComposition_wf b h : hook_wf h -> hook_wf (CommitComposition cfg b h).2.
Proof.
  intros Hw. unfold CommitComposition. destruct (Commit _) as [t e]. cbn [snd].
  set (h2 := if negb _ && negb _ then DispatchCoordinator cfg _ _ (set_engine e h) else _).
  assert (H2 : hook_wf h2) by (unfold h2; case_match; [by apply Dispatch_wf|done]). clearbody h2.
  apply ClearWordState_wf.
  destruct (negb (HasActiveQuickConsonant _) && _) eqn:Eh; [|wf].
  apply andb_prop in Eh as [_ Eh]. apply negb_true_iff, bool_decide_eq_false in Eh.
  unfold hook_wf in *. cbn. apply commit_wf_Pushed, commit_wf_Push; [|wf].
  split; [done|]. cbn. by destruct H2.
Qed.

Lemma Replay_wf b h : hook_wf h -> hook_wf (ReplayCommittedChars b h).2.
Proof.
  intros Hw. unfold ReplayCommittedChars. destruct (StackTop _) as [e|] eqn:Et; [|wf].
  destruct (StackTop_wf _ _ Hw Et) as [_ Hb]. wf.
Qed.

Lemma TrackGlyphs_wf v h : hook_wf h -> hook_wf (TrackGlyphs v h).
Proof. intros Hw. unfold TrackGlyphs. wf. Qed.
Lemma CancelStale_wf v c a wn h : hook_wf h -> hook_wf (CancelStale v c a wn h).
Proof. intros Hw. unfold CancelStale. wf. Qed.
Lemma ReadyBackspace_wf h : hook_wf h -> hook_wf (ReadyBackspace h).2.
Proof. intros Hw. unfold ReadyBackspace. wf. Qed.
Lemma ReadyGap_wf v h : hook_wf h -> hook_wf (ReadyGap v h).
Proof. intros Hw. unfold ReadyGap. wf. Qed.

Lemma PrimedKey_wf v sh cp h : hook_wf h -> hook_wf (PrimedKey cfg v sh cp h).2.
Proof.
  intros Hw. unfold PrimedKey, PrimedAlpha, PrimedDigit, PrimedBackspace.
  pose proof (Replay_wf false h Hw) as H1. pose proof (Replay_wf true h Hw) as H2.
  destruct (ReplayCommittedChars false h) as [ok1 h1], (ReplayCommittedChars true h) as [ok2 h2].
  cbn [snd] in *.
  case_match; [wf|]. case_match.
  { case_match; [wf|]. case_match; [done|].
    pose proof (HandleAlphaKey_wf v sh cp h1 H1). destruct (HandleAlphaKey _ _ _ _ h1). done. }
  case_match.
  { case_match; [wf|]. pose proof (HandleVniDigitKey_wf v h1 H1).
    destruct (HandleVniDigitKey _ _ h1). done. }
  case_match; [case_match; [done|by apply HandleBackspace_wf]|].
  case_match; [|done]. unfold PrimedOther. wf.
Qed.

Lemma Fsm_wf v vn sh cp c a wn h :
  hook_wf h -> hook_wf (HandleCommitUndoFsm cfg v vn sh cp c a wn h).2.
Proof.
  intros Hw. unfold HandleCommitUndoFsm.
  set (h1 := CancelStale _ _ _ _ _).
  assert (H1 : hook_wf h1) by (by apply CancelStale_wf, TrackGlyphs_wf). clearbody h1.
  case_match; [by apply ReadyBackspace_wf|].
  set (p := if _ && _ && _ then PrimedKey _ _ _ _ _ else _).
  assert (Hp : hook_wf p.2) by (unfold p; case_match; [by apply PrimedKey_wf|done]).
  destruct p as [[o|] h2]; [done|]. cbn in *. case_match; [by apply ReadyGap_wf|done].
Qed.

Lemma EscRestore_wf v sh c a wn h :
  hook_wf h -> hook_wf (TryEscRestoreRaw cfg h).2 /\
               hook_wf (HookUndo.TryEscRestore cfg v sh c a wn h).2.
Proof.
  intros Hw. assert (H1 : hook_wf (TryEscRestoreRaw cfg h).2).
  { unfold TryEscRestoreRaw, EscRestoreLive, EscRestorePrimed. wf. }
  split; [done|]. unfold HookUndo.TryEscRestore. destruct (TryEscRestoreRaw cfg h). by case_match.
Qed.

Lemma TryExpandMacro_wf t h : hook_wf h -> hook_wf (TryExpandMacro cfg t h).2.
Proof.
  intros Hw. unfold TryExpandMacro. generalize (Plan (plan_inputs cfg t h)). intros plan.
  destruct (matched plan); [|exact Hw].
  generalize (SendExpansion cfg plan (world_ h)). intros s. cbn [negb snd].
  assert (H1 : hook_wf (CancelCommitUndo (ClearWordState (set_world (sent_world s) h))))
    by (by apply CancelCommitUndo_wf, ClearWordState_wf).
  revert H1. generalize (CancelCommitUndo (ClearWordState (set_world (sent_world s) h))).
  intros h1 H1. destruct (undoable _ _ _ _); exact H1.
Qed.

Lemma ExpandOnTrigger_wf v h : hook_wf h -> hook_wf (ExpandOnTrigger cfg v h).2.
Proof.
  intros Hw. unfold ExpandOnTrigger.
  pose proof (TryExpandMacro_wf (VkToMacroChar v (world_ h)) h Hw) as H1.
  destruct (TryExpandMacro _ _ _) as [r h1]. wf.
Qed.

Lemma Track_wf h :
  hook_wf h ->
  (forall v sh cp, hook_wf (TrackLetter v sh cp h)) /\ (forall ch, hook_wf (TrackTrigger ch h)) /\
  hook_wf (UntrackLast h) /\ hook_wf (EndMacroWord h).
Proof.
  intros Hw. unfold TrackLetter, TrackTrigger, UntrackLast, EndMacroWord.
  split_and!; intros; try case_match; done.
Qed.

Lemma UndoExpansion_wf h : hook_wf h -> hook_wf (UndoExpansion h).
Proof.
  intros Hw. unfold UndoExpansion.
  set (pending := (_ + _)%nat). set (typed := undo_shortcut _). set (h1 := ClearMacroUndo h).
  assert (H1 : hook_wf h1) by exact Hw. clearbody h1 pending typed. clear h Hw.
  destruct (erase_chunks pending pending (world_ h1)) as [ok1 w1].
  destruct ok1; [|by apply (ResetComposition_wf (set_world w1 h1))].
  cbn [negb]. destruct (type_chunks _ _ _) as [ok2 w2].
  destruct ok2; [exact H1|by apply (ResetComposition_wf (set_world w2 (set_world w1 h1)))].
Qed.

Lemma HandleMacro_wf v sh cp c a wn h :
  hook_wf h -> hook_wf (HookMacro.HandleMacro cfg v sh cp c a wn h).2.
Proof.
  intros Hw. unfold HookMacro.HandleMacro. case_match; [by apply UndoExpansion_wf|].
  set (h1 := if undo_active _ && _ then _ else h).
  assert (H1 : hook_wf h1) by (unfold h1; case_match; done). clearbody h1. clear h Hw H.
  destruct (Track_wf h1 H1) as (T1 & T2 & T3 & T4). case_match.
  - unfold HandleMacroEnglish. case_match; [done|]. case_match; [apply T1|]. case_match; [done|].
    case_match.
    + set (h2 := TrackTrigger _ h1). assert (Hh2 : hook_wf h2) by apply T2. clearbody h2.
      pose proof (ExpandOnTrigger_wf v h2 Hh2). destruct (Track_wf h2 Hh2) as (_ & _ & _ & U4).
      case_match; [destruct (ExpandOnTrigger cfg v h2); done|]. case_match; done.
    + repeat case_match; done.
  - unfold HandleMacroVietnamese. set (active := macroEnabled_ cfg && _).
    set (h2 := if active then TrackMacroKey v sh cp h1 else h1).
    assert (H2 : hook_wf h2)
      by (unfold h2, TrackMacroKey; repeat case_match; done). clearbody h2.
    case_match; [done|].
    set (p := if active && _ && _ && _ then ExpandOnTrigger cfg v h2 else (None, h2)).
    assert (Hp : hook_wf p.2) by (unfold p; case_match; [by apply ExpandOnTrigger_wf|done]).
    destruct p as [o h3]. cbn [snd] in Hp. destruct o; [done|].
    destruct (Track_wf h3 Hp) as (_ & _ & V3 & V4). cbn [snd]. unfold CleanMacroBuffer.
    repeat case_match; done.
Qed.

(** ** Every key *)

Lemma ToggleTempOff_wf h : hook_wf h -> hook_wf (ToggleTempOff cfg h).
Proof.
  intros Hw. unfold ToggleTempOff. apply CancelCommitUndo_wf.
  case_match; [|done]. by apply (CommitComposition_wf true) in Hw.
Qed.

Lemma CommitOnTrigger_wf v m h : hook_wf h -> hook_wf (CommitOnTrigger cfg v m h).2.
Proof.
  intros Hw. unfold CommitOnTrigger.
  pose proof (CommitComposition_wf (IsVerbatimCommitTrigger (VkToMacroChar v (world_ h))) h Hw) as H1.
  destruct (CommitComposition _ _ _) as [restored h1]. cbn [snd] in H1.
  set (h2 := if negb _ then _ else _).
  assert (H2 : hook_wf h2) by (unfold h2; repeat case_match; done). clearbody h2.
  assert (H3 : hook_wf (ArmAfterCommit v h2)).
  { unfold ArmAfterCommit. case_match; [|done]. case_match; [|done|by apply CancelCommitUndo_wf].
    case_match; [by apply CancelCommitUndo_wf|].
    pose proof (SetCommitUndoReady_wf h2 H2). wf. }
  revert H3. generalize (ArmAfterCommit v h2). intros h3 H3. unfold DeliverTrigger.
  repeat case_match; simplify_eq; done.
Qed.

Lemma HandleOther_wf v h : hook_wf h -> hook_wf (HandleOther cfg v h).2.
Proof.
  intros Hw. unfold HandleOther. pose proof (CommitComposition_wf false h Hw) as H1.
  destruct (CommitComposition cfg false h) as [r h1]. cbn [snd] in H1.
  destruct (0 <? Count (engine_ h))%nat; repeat case_match; done.
Qed.

Lemma HandleEscape_wf v h : hook_wf h -> hook_wf (HandleEscape v h).2.
Proof.
  intros Hw. unfold HandleEscape. cbn zeta. set (h1 := if (_ <? _)%nat then ResetComposition h else _).
  assert (H1 : hook_wf h1) by (unfold h1; case_match; [by apply ResetComposition_wf|exact Hw]).
  clearbody h1. case_match; exact H1.
Qed.

Lemma DispatchTyping_wf v sh cp m h : hook_wf h -> hook_wf (DispatchTyping cfg v sh cp m h).2.
Proof.
  intros Hw. unfold DispatchTyping, ate. case_match; [by apply HandleAlphaKey_wf|].
  case_match; [apply push_and_show_wf; wf|]. case_match; [by apply HandleVniDigitKey_wf|].
  set (o := if _ && _ then HandleOem _ _ _ _ _ else None).
  assert (Ho : forall h1, o = Some h1 -> hook_wf h1).
  { unfold o, HandleOem. intros h1.
    repeat case_match; intros; simplify_eq; apply push_and_show_wf; wf. }
  destruct o as [h1|]; [by apply Ho|]. unfold DispatchEdit.
  case_match; [by apply HandleBackspace_wf|].
  case_match; [by apply HandleEscape_wf|].
  case_match; [by apply CommitOnTrigger_wf|by apply HandleOther_wf].
Qed.

Lemma KeyDownDispatch_wf v sh cp c a wn h :
  hook_wf h -> hook_wf (KeyDownDispatch cfg v sh cp c a wn h).2.
Proof.
  intros Hw.
  assert (Hdisp : forall h, hook_wf h ->
            hook_wf (DispatchKeyAction cfg v sh cp c a wn (macroEnabled_ cfg) h).2).
  { clear. intros h Hw. unfold DispatchKeyAction. case_match; [unfold TempOffKey; repeat case_match; done|].
    case_match; [by apply ResetComposition_wf|].
    assert (H1 : hook_wf (DigitLedKey cfg v sh h).2) by (unfold DigitLedKey; case_match; done).
    destruct (DigitLedKey cfg v sh h) as [[o|] h1]; [done|]. by apply DispatchTyping_wf. }
  unfold KeyDownDispatch.
  set (p := HandlePreDispatch _ _ _ _ _ _ _ h).
  assert (Hp : hook_wf p.2).
  { unfold p, HandlePreDispatch. case_match; [done|]. cbn zeta.
    set (h1 := if autoCaps_ cfg then _ else h).
    assert (H1 : hook_wf h1) by (unfold h1; case_match; done). clearbody h1.
    case_match; [by apply ToggleTempOff_wf|]. case_match; done. }
  destruct p as [[] h1]; [done..|]. cbn [snd] in Hp. apply Hdisp in Hp.
  destruct (DispatchKeyAction _ _ _ _ _ _ _ _ h1). exact Hp.
Qed.

(** C26. Whatever the key and the path it takes - guards, pipeline features,
    macros, commits, reopenings - the stack keeps at most its three words, each
    with keys to replay, and the counters stay within the byte that holds them:
    neither the increments nor the counts restored from a word can wrap. *)
Theorem commit_state_bounded v sh cp c a wn h ch :
  batch ch = [] -> commit_wf (commitState_ h) ->
  commit_wf (commitState_ (ProcessKeyDown cfg v sh cp c a wn (h, ch)).2.1).
Proof.
  intros Hb Hw. apply (ProcessKeyDown_keeps cfg hook_wf); try done; intros.
  - unfold KeyDownEntry. repeat case_match; wf.
  - unfold hook_wf. by rewrite RunTopGuards_commit.
  - unfold WatchSynthEvents. by case_match.
  - by apply Fsm_wf.
  - by apply HandleMacro_wf.
  - by apply (EscRestore_wf (u16 v) sh c a wn).
  - by apply KeyDownDispatch_wf.
Qed.

End Handlers.
