(* ===== verification/HookHost.v ===== *)
(** * The dispatcher as the world of the hook

    [OutputDispatcher], the interface the hook is written against, is given by the
    dispatcher of Dispatcher.v; over an application that takes what it is sent it
    is a [Host], so that what is proved of the hook holds down to the events.  [Notepad] is such
    an application, on which the models run. *)

From Stdlib Require Import Strings.String.
From stdpp Require Import sets.
From S2P Require Import Prelude Injector OutputFacts Dispatcher.
From S2P Require Import Hook HookFacts.
Open Scope Z_scope.

Section Instances.
Context {S : Type} {KL : KeyboardLayout} {D : Desktop S} {HS : HookSystem S}.

Definition on_system (f : S -> S) (d : Dispatcher S) : Dispatcher S :=
  on_channel (on_desktop f) d.
Definition system (d : Dispatcher S) : S := desktop (channel d).

#[export] Instance Dispatcher_output : Hook.OutputDispatcher (Dispatcher S) := {
  Hook.ReplaceUnicode := Dispatcher.ReplaceUnicode;
  Hook.ReplaceRaw := Dispatcher.ReplaceRaw;
  Hook.SendBackspaces := Dispatcher.SendBackspaces;
  DispatchKey := Dispatcher.InjectKey;
  ClipboardPasteText := ClipboardPaste;
  SynthEventsPending d := synthEventsPending_ (channel d);
  LastSynthSendTime := lastSynthSendTime_;
  LastRealSynthTime := lastRealSynthTime_;
  Hook.ResetSynthEvents := on_channel Injector.ResetSynthEvents;
  ResetLastRealSynthTime d := set_times (lastSynthSendTime_ d) 0 d;
  HadSynthInWord := hadSynthInWord_;
  Hook.SetHadSynthInWord := Dispatcher.SetHadSynthInWord;
  Hook.IsSyncReplaceChannel := Dispatcher.IsSyncReplaceChannel;
  SkipEmptyChar := skipEmptyChar_;
  WantsGameReinject := wantsGameReinject_;
  InjectReplace n t d :=
    let '(ok, c) := Replace (injector_ d) n t 0 (channel d) in (ok, set_channel c d);
  Hook.RequiresSyntheticAlphaLockstep d := Injector.RequiresSyntheticAlphaLockstep (injector_ d);
  Hook.NeedsBaitCharPrefix d := Injector.NeedsBaitCharPrefix (injector_ d);
  Hook.SettleBudget d := Injector.SettleBudget (injector_ d)
}.

#[export] Instance Dispatcher_system : HookSystem (Dispatcher S) := {
  Hook.GetTickCount d := Hook.GetTickCount (system d);
  HasInputTarget d := HasInputTarget (system d);
  VkToMacroChar vk d := VkToMacroChar vk (system d);
  ReadAutoCapAnchor d := ReadAutoCapAnchor (system d);
  FreshControlIsPassword d := FreshControlIsPassword (system d);
  Hook.InvalidateFocusCache := on_system Hook.InvalidateFocusCache;
  RequestGameModeToggle := on_system RequestGameModeToggle;
  SyncFromSharedState := on_system SyncFromSharedState;
  RefreshBrowserRoute := on_system RefreshBrowserRoute;
  IsEffectiveTsf d := IsEffectiveTsf (system d);
  RouteIsForceEnglish d := RouteIsForceEnglish (system d);
  IsExcludedApp d := IsExcludedApp (system d);
  ForegroundIsExcludedPid d := ForegroundIsExcludedPid (system d);
  VerifyExcludedState d :=
    let '(b, s) := VerifyExcludedState (system d) in (b, on_system (fun _ => s) d);
  StoreExcludedPid := on_system StoreExcludedPid;
  ClearExcludedPid := on_system ClearExcludedPid;
  NotifyModeChange := on_system NotifyModeChange;
  CheckLayoutChange := on_system CheckLayoutChange
}.

End Instances.

(** A key that is let through reaches the application, which then shows it. *)
Class Typed (S : Type) `{Application S} `{HookSystem S} := {
  physical : wchar -> S -> S;
  physical_content ch s :
    responsive s -> content (physical ch s) = content s ++ [ch] /\ responsive (physical ch s);
  physical_willing ch s : willing s -> willing (physical ch s);
  responsive_target s : responsive s -> HasInputTarget s = true
}.

Section Host.
Context {S : Type} {KL : KeyboardLayout} {D : Desktop S} {A : Application S} {HS : HookSystem S}.
Context {T : Typed S}.
Implicit Types d : Dispatcher S.

(** The window takes synthetic keys, and the system whole batches of them. *)
Record Dispatcher_ready d : Prop := mkReady {
  ready_keys : by_keys (injector_ d) = true;
  ready_no_paste : useClipboardPaste_ d = false;
  ready_no_game : wantsGameReinject_ d = false;
  ready_responsive : responsive (system d);
  ready_willing : willing (system d)
}.

Lemma not_sync d : by_keys (injector_ d) = true -> Dispatcher.IsSyncReplaceChannel d = false.
Proof.
  unfold by_keys, Dispatcher.IsSyncReplaceChannel, Injector.SettleBudget. by destruct (kind (injector_ d)).
Qed.

Lemma ready_ext d d' :
  Dispatcher_ready d -> injector_ d' = injector_ d -> useClipboardPaste_ d' = useClipboardPaste_ d ->
  wantsGameReinject_ d' = wantsGameReinject_ d -> responsive (system d') -> willing (system d') ->
  Dispatcher_ready d'.
Proof. intros [] H1 H2 H3 H4 H5. split; congruence. Qed.

Lemma ReplaceRaw_edits n t d :
  Dispatcher_ready d -> (n <= length (content (system d)))%nat ->
  (n + length t <= output_capacity)%nat ->
  let '(ok, d') := Dispatcher.ReplaceRaw n t d in
  ok = true /\ content (system d') = edit n t (content (system d)) /\ Dispatcher_ready d'.
Proof.
  intros Hr Hn Hc. unfold Dispatcher.ReplaceRaw.
  pose proof (Replace_by_keys (injector_ d) n t (channel d) (ready_keys _ Hr)
    (ready_responsive _ Hr)) as Hrep.
  destruct (Nat.eqb_spec n 0) as [->|H0]; cbn [andb];
    [case_bool_decide as Ht; [subst; by rewrite edit_type, app_nil_r|]|].
  all: unfold while_sending; cbn [channel set_sending]; unfold done_or_refused in Hrep;
    destruct (Replace _ _ _ _ _) as [[] c]; [|destruct (Hrep (ready_willing _ Hr)); lia];
    destruct Hrep as (Hco & _ & Hre & Hwi); (split; [done|]); (split; [exact Hco|]);
    apply (ready_ext d); try done; apply Hwi, Hr.
Qed.

Lemma ReplaceUnicode_edits n t d :
  Dispatcher_ready d -> (n <= length (content (system d)))%nat ->
  (n + length t <= output_capacity)%nat ->
  content (system (Dispatcher.ReplaceUnicode n t 0 d)) = edit n t (content (system d)) /\
  Dispatcher_ready (Dispatcher.ReplaceUnicode n t 0 d).
Proof.
  intros Hr Hn Hc. unfold Dispatcher.ReplaceUnicode. rewrite not_sync by apply Hr.
  rewrite (ready_no_paste _ Hr). cbn [Z.eqb andb negb].
  set (d1 := if _ || _ then _ else d).
  assert (H1 : content (system d1) = edit n t (content (system d)) /\ Dispatcher_ready d1).
  { unfold d1. rewrite orb_false_r.
    pose proof (Replace_by_keys (injector_ d) n t (channel d) (ready_keys _ Hr)
                  (ready_responsive _ Hr)) as Hrep.
    destruct ((0 <? n)%nat || (t != [])) eqn:Hb.
    - unfold while_sending. cbn [channel set_sending]. unfold done_or_refused in Hrep.
      destruct (Replace _ _ _ _ _) as [[] c]; [|destruct (Hrep (ready_willing _ Hr)); lia].
      destruct Hrep as (Hco & _ & Hre & Hwi).
      split; [exact Hco|]. apply (ready_ext d); try done. apply Hwi, Hr.
    - apply orb_false_iff in Hb as [Hb%Nat.ltb_ge Ht%negb_false_iff%bool_decide_eq_true].
      assert (n = 0%nat) as -> by lia. subst t. by rewrite edit_type, app_nil_r. }
  unfold MarkSynthInWord. case_match; [|exact H1]. destruct H1 as [H1 Hr1].
  split; [exact H1|]. by apply (ready_ext d1); [..|apply Hr1|apply Hr1].
Qed.

Lemma SendBackspaces_edits n d :
  Dispatcher_ready d -> (n <= length (content (system d)))%nat -> (n <= output_capacity)%nat ->
  content (system (Dispatcher.SendBackspaces n d)) = edit n [] (content (system d)) /\
  Dispatcher_ready (Dispatcher.SendBackspaces n d).
Proof.
  intros Hr Hn Hc. unfold Dispatcher.SendBackspaces.
  destruct (Nat.eqb_spec n 0) as [->|H0]; [by rewrite edit_type, app_nil_r|].
  pose proof (ReplaceRaw_edits n [] d Hr Hn) as H. destruct (Dispatcher.ReplaceRaw n [] d) as [ok d'].
  destruct H as (_ & ? & ?); [cbn; lia|done].
Qed.

Lemma physical_types ch d :
  Dispatcher_ready d ->
  content (system (on_system (physical ch) d)) = content (system d) ++ [ch] /\
  Dispatcher_ready (on_system (physical ch) d).
Proof.
  intros Hr. destruct (physical_content ch (system d)) as [Hc Hre]; [apply Hr|].
  split; [exact Hc|]. apply (ready_ext d); try done. apply physical_willing, Hr.
Qed.

Lemma marked_ready b d : Dispatcher_ready d -> Dispatcher_ready (Dispatcher.SetHadSynthInWord b d).
Proof. intros Hr. by apply (ready_ext d); [..|apply Hr|apply Hr]. Qed.

#[export] Instance Dispatcher_Host : Host (Dispatcher S) := {
  screen d := content (system d);
  ready := Dispatcher_ready;
  type_char ch := on_system (physical ch);
  capacity := output_capacity;
  ReplaceUnicode_screen := ReplaceUnicode_edits;
  ReplaceRaw_screen := ReplaceRaw_edits;
  SendBackspaces_screen := SendBackspaces_edits;
  SetHadSynthInWord_screen b d := conj eq_refl (marked_ready b d);
  type_char_screen := physical_types;
  ready_target d Hr := responsive_target _ (ready_responsive _ Hr);
  ready_plain := ready_no_game
}.

End Host.

(** ** An application to run the models on

    A text with a caret at its end, the modifiers that are down, an edit control
    that answers messages unless it is told not to, and a clipboard that another
    process may hold; a batch longer than eight events may be cut short.  It is an
    instance of every interface to the system. *)

Open Scope list_scope.

Record Notepad := mkNotepad {
  note : wstring;
  down : list Z;
  limit : option nat;                (* what is taken of a long batch *)
  selection : option nat;            (* the start of a selection up to the caret *)
  clip : option wstring;
  clip_seq : Z;
  clip_busy : bool;                  (* another process holds the clipboard *)
  deaf : bool;                       (* EM_REPLACESEL times out *)
  now : Z
}.
Implicit Types a : Notepad.

Definition new_notepad : Notepad := mkNotepad [] [] None None None 1 false false 1000.

Definition with_note (t : wstring) a : Notepad :=
  mkNotepad t (down a) (limit a) (selection a) (clip a) (clip_seq a) (clip_busy a) (deaf a) (now a).
Definition with_down (l : list Z) a : Notepad :=
  mkNotepad (note a) l (limit a) (selection a) (clip a) (clip_seq a) (clip_busy a) (deaf a) (now a).
Definition with_limit (n : option nat) a : Notepad :=
  mkNotepad (note a) (down a) n (selection a) (clip a) (clip_seq a) (clip_busy a) (deaf a) (now a).
Definition with_selection (n : option nat) a : Notepad :=
  mkNotepad (note a) (down a) (limit a) n (clip a) (clip_seq a) (clip_busy a) (deaf a) (now a).
(** Every change of the clipboard has a new sequence number. *)
Definition with_clip (t : option wstring) a : Notepad :=
  mkNotepad (note a) (down a) (limit a) (selection a) t (clip_seq a + 1) (clip_busy a) (deaf a) (now a).
Definition with_busy (b : bool) a : Notepad :=
  mkNotepad (note a) (down a) (limit a) (selection a) (clip a) (clip_seq a) b (deaf a) (now a).
Definition with_deaf (b : bool) a : Notepad :=
  mkNotepad (note a) (down a) (limit a) (selection a) (clip a) (clip_seq a) (clip_busy a) b (now a).
Definition with_now (n : Z) a : Notepad :=
  mkNotepad (note a) (down a) (limit a) (selection a) (clip a) (clip_seq a) (clip_busy a) (deaf a) n.

Definition is_down (v : Z) a : bool := bool_decide (v ∈ down a).
Definition either_down (l r : Z) a : bool := is_down l a || is_down r a.
Definition down_now (v : Z) a : bool :=
  if v =w VK_SHIFT then either_down VK_LSHIFT VK_RSHIFT a
  else if v =w VK_CONTROL then either_down VK_LCONTROL VK_RCONTROL a
  else if v =w VK_MENU then either_down VK_LMENU VK_RMENU a
  else is_down v a.

Definition side (v : Z) : Z :=
  if v =w VK_SHIFT then VK_LSHIFT else if v =w VK_CONTROL then VK_LCONTROL
  else if v =w VK_MENU then VK_LMENU else v.

Definition any_down (vks : list Z) a : bool := existsb (fun v => is_down v a) vks.

(** What is selected goes first. *)
Definition without_selection a : Notepad :=
  match selection a with
  | Some n => with_selection None (with_note (take n (note a)) a)
  | None => a
  end.
Definition typed (t : wstring) a : Notepad :=
  let a := without_selection a in with_note (note a ++ t) a.

(** One event.  A backspace or a letter under a modifier is a command: it takes the
    whole text with it, but for the paste. *)
Definition note_input (ev : INPUT) a : Notepad :=
  let up := Z.testbit (ki_dwFlags ev) 1 in
  if Z.testbit (ki_dwFlags ev) 2 then
    if up then a
    else if any_down commands a then with_note [] a else typed [ki_wScan ev] a
  else
    let v := side (ki_wVk ev) in
    if bool_decide (v ∈ modifiers) then
      with_down (if up then filter (fun w => w <> v) (down a) else v :: down a) a
    else if up then a
    else if any_down modifiers a then
      if (v =w L "V") && negb (any_down shifts a)
      then typed (default [] (clip a)) a
      else with_note [] a
    else if v =w VK_BACK then
      match selection a with
      | Some _ => without_selection a
      | None => with_note (edit 1 [] (note a)) a
      end
    else typed [v] a.

Definition note_taken (evs : list INPUT) a : nat :=
  match limit a with
  | Some k => if (8 <? length evs)%nat then Nat.min k (length evs) else length evs
  | None => length evs
  end.
Definition note_run (evs : list INPUT) a : Notepad := foldl (flip note_input) a evs.

#[export] Instance us_layout : KeyboardLayout := { MapVirtualKeyW v := v mod 128 }.

(** Every event comes through the hook during the call. *)
#[export] Instance Notepad_desktop : Desktop Notepad := {|
  SendInput evs a := (note_taken evs a, note_taken evs a, note_run (take (note_taken evs a) evs) a);
  GetAsyncKeyState := down_now;
  GetKeyState := down_now;
  Sleep ms a := with_now (now a + ms) a;
  Injector.GetTickCount := now;
  steady_clock := now;
  EM_GETSEL _ a := (Some (Z.of_nat (length (note a))), a);
  EM_SETSEL _ b _ a := (true, with_selection (Some (Z.to_nat b)) a);
  EM_REPLACESEL _ t a := if deaf a then (false, a) else (true, typed t a);
  WM_SETREDRAW _ _ a := (true, a);
  InvalidateRect _ a := a;
  ResolveFocusedHwnd _ := 1;
  GetClassNameW _ _ := wstr "RichEditD2DPT";
  IsWindow _ _ := true;
  CachedFocusedHwnd _ := 1;
  CachedFocusedClass _ := wstr "RichEditD2DPT";
  RefreshFocusCache a := a;
  Injector.InvalidateFocusCache a := a;
  GetClipboardSequenceNumber := clip_seq;
  OpenClipboard a := (negb (clip_busy a), a);
  CloseClipboard a := a;
  EmptyClipboard := with_clip None;
  GetClipboardText := clip;
  GlobalAlloc _ a := (true, a);
  SetClipboardText t a := with_clip (Some t) a;
  ExcludeFromHistory a := a;
  SetTimer _ a := (7, a);
  KillTimer _ a := a
|}.

(** ** It is an application *)

Definition note_responsive a : Prop := selection a = None.
Definition note_willing a : Prop := limit a = None.

Lemma modifier_cases v : v ∈ modifiers -> side v = v /\ down_now v = is_down v.
Proof.
  unfold modifiers, shifts, commands. rewrite !elem_of_app, !elem_of_cons, !elem_of_nil.
  intros H. repeat (destruct H as [H|H]); subst; try done; by destruct H.
Qed.

Lemma modifier_flags vk up : Z.testbit (ki_dwFlags (MakeKeyEvent vk up)) 1 = up /\
  Z.testbit (ki_dwFlags (MakeKeyEvent vk up)) 2 = false.
Proof. unfold MakeKeyEvent. cbn [ki_dwFlags]. by destruct (IsExtendedKey vk), up. Qed.

Lemma any_down_false vks a :
  any_down vks a = false <-> forall v, v ∈ vks -> is_down v a = false.
Proof.
  unfold any_down. induction vks as [|w vks IH]; cbn [existsb].
  - split; [intros _ v Hv; by apply elem_of_nil in Hv|done].
  - rewrite orb_false_iff, IH. split.
    + intros [H1 H2] v Hv. apply elem_of_cons in Hv as [->|Hv]; auto.
    + intros H. split; [apply H, list_elem_of_here|]. intros v Hv. by apply H, list_elem_of_further.
Qed.

Lemma note_modifier vk up a : vk ∈ modifiers ->
  note (note_input (MakeKeyEvent vk up) a) = note a /\
  forall v, v ∈ modifiers -> down_now v (note_input (MakeKeyEvent vk up) a) =
    if v =w vk then negb up else down_now v a.
Proof.
  intros Hvk. unfold note_input. destruct (modifier_flags vk up) as [-> ->].
  change (ki_wVk (MakeKeyEvent vk up)) with vk. rewrite (proj1 (modifier_cases vk Hvk)).
  rewrite bool_decide_eq_true_2 by done. split; [done|]. intros v Hv.
  rewrite (proj2 (modifier_cases v Hv)). unfold is_down. cbn [down with_down].
  destruct (Z.eqb_spec v vk) as [->|Hne], up; cbn [negb].
  - apply bool_decide_eq_false_2. rewrite list_elem_of_filter. tauto.
  - apply bool_decide_eq_true_2, list_elem_of_here.
  - apply bool_decide_ext. rewrite list_elem_of_filter. tauto.
  - apply bool_decide_ext. rewrite elem_of_cons. tauto.
Qed.

Lemma note_back a : note_responsive a -> (forall v, v ∈ modifiers -> down_now v a = false) ->
  note (note_input (MakeKeyEvent VK_BACK false) a) = edit 1 [] (note a).
Proof.
  intros Hs Hu. unfold note_input. cbn -[edit any_down modifiers].
  rewrite (proj2 (any_down_false modifiers a)); [by rewrite Hs|].
  intros v Hv. rewrite <- (Hu v Hv). by rewrite (proj2 (modifier_cases v Hv)).
Qed.

Lemma note_input_down ev a :
  bool_decide (side (ki_wVk ev) ∈ modifiers) = false \/ Z.testbit (ki_dwFlags ev) 2 = true ->
  down (note_input ev a) = down a.
Proof.
  intros H. unfold note_input. cbv zeta. destruct (Z.testbit (ki_dwFlags ev) 2).
  - unfold typed, without_selection. by repeat case_match.
  - destruct H as [->|H]; [|done]. unfold typed, without_selection. by repeat case_match.
Qed.

Lemma same_down a a' v : down a' = down a -> down_now v a' = down_now v a.
Proof. unfold down_now, either_down, is_down. by intros ->. Qed.

Lemma note_char ch a : note_responsive a -> (forall v, v ∈ commands -> down_now v a = false) ->
  note (note_input (MakeUnicodeChar ch false) a) = note a ++ [ch].
Proof.
  intros Hs Hu. unfold note_input. cbn -[edit any_down commands typed].
  rewrite (proj2 (any_down_false commands a)); [unfold typed, without_selection; by rewrite Hs|].
  intros v Hv. rewrite <- (Hu v Hv). by rewrite (proj2 (modifier_cases v (commands_modifiers v Hv))).
Qed.

Lemma note_input_responsive ev a : note_responsive a -> note_responsive (note_input ev a).
Proof.
  intros Hs. unfold note_input, typed, without_selection, note_responsive in *. cbv zeta. rewrite Hs.
  by repeat case_match.
Qed.
Lemma note_input_willing ev a : note_willing a -> note_willing (note_input ev a).
Proof.
  unfold note_willing, note_input, typed, without_selection. cbv zeta. by repeat case_match.
Qed.
Lemma note_takes evs a : note_willing a -> (SendInput evs a).1.1 = length evs.
Proof. unfold note_willing. cbn. unfold note_taken. by intros ->. Qed.

Lemma note_taken_le evs a : (note_taken evs a <= length evs)%nat.
Proof. unfold note_taken. repeat case_match; lia. Qed.

#[export] Instance Notepad_application : Application Notepad := {
  content := note;
  input := note_input;
  SendInput_prefix evs a := conj (note_taken_le evs a) eq_refl;
  down_shift a := eq_refl;
  down_control a := eq_refl;
  down_menu a := eq_refl;
  input_modifier := note_modifier;
  input_back := note_back;
  input_back_up a := eq_refl;
  input_back_keys up v a _ := same_down _ _ v (note_input_down (MakeKeyEvent VK_BACK up) a (or_introl eq_refl));
  input_char := note_char;
  input_char_up ch a := eq_refl;
  input_char_keys ch up v a _ :=
    same_down _ _ v (note_input_down (MakeUnicodeChar ch up) a (or_introl eq_refl));
  Sleep_content ms a := eq_refl;
  Sleep_keys ms v a _ := eq_refl;
  responsive := note_responsive;
  responsive_input := note_input_responsive;
  responsive_Sleep ms a H := H;
  willing := note_willing;
  willing_takes := note_takes;
  willing_input := note_input_willing;
  willing_Sleep ms a H := H
}.

(** The rest of the system: one window, never excluded, no text service. *)
#[export] Instance Notepad_system : HookSystem Notepad := {
  Hook.GetTickCount := now;
  HasInputTarget _ := true;
  VkToMacroChar vk _ := vk;
  ReadAutoCapAnchor _ := None;
  FreshControlIsPassword _ := false;
  Hook.InvalidateFocusCache a := a;
  RequestGameModeToggle a := a;
  SyncFromSharedState a := a;
  RefreshBrowserRoute a := a;
  IsEffectiveTsf _ := false;
  RouteIsForceEnglish _ := false;
  IsExcludedApp _ := false;
  ForegroundIsExcludedPid _ := false;
  VerifyExcludedState a := (false, a);
  StoreExcludedPid a := a;
  ClearExcludedPid a := a;
  NotifyModeChange a := a;
  CheckLayoutChange a := a
}.

#[export] Instance Notepad_typed : Typed Notepad := {
  physical ch a := with_note (note a ++ [ch]) a;
  physical_content ch a H := conj eq_refl H;
  physical_willing ch a H := H;
  responsive_target a _ := eq_refl
}.
