(* ===== verification/Scenarios.v ===== *)
(** * The whole program on a notepad

    The hook over the typing engine and the dispatcher, the injector's events into
    an application: the theorems of the hook and of the output layer applied to
    executions, and the behaviours that are findings. *)

From Stdlib Require Import Strings.String.
From stdpp Require Import relations.
From S2P Require Import Prelude Action Config CodeTable MacroPrefix Macro.
From S2P Require Import Engine TypingEngine Invariant EngineInstance InputEngine Hotkey Session.
From S2P Require Import Pipeline.
From S2P Require Import Injector Dispatcher OutputFacts.
From S2P Require Import CommitState Hook HookUndo HookMacro HookKeys.
From S2P Require Import HookFacts HookSafety HookHost.
Open Scope Z_scope.
Open Scope list_scope.

(** ** Instances *)

Lemma note_all_seen evs (a : Notepad) :
  (note_taken evs a <= length evs)%nat /\
  Z.of_nat (note_taken evs a) <= 0 + Z.of_nat (note_taken evs a) /\
  0 = 0 + Z.of_nat (note_taken evs a) - Z.of_nat (note_taken evs a).
Proof. pose proof (note_taken_le evs a). lia. Qed.
#[export] Instance Notepad_flight : Flight Notepad := {
  in_flight _ := 0;
  in_flight_nonneg _ := Z.le_refl 0;
  SendInput_flight := note_all_seen
}.

Definition selection_start (a : Notepad) : nat := default (length (note a)) (selection a).
Lemma typed_replaces t a : note (typed t a) = take (selection_start a) (note a) ++ t.
Proof.
  unfold typed, without_selection, selection_start.
  destruct (selection a); cbn; [done|]. by rewrite take_ge.
Qed.

(** A deaf control takes no replacement; everything else is answered. *)
Lemma note_replace t (a : Notepad) :
  let '(ok, a') := if deaf a then (false, a) else (true, typed t a) in
  let done_ := take (selection_start a) (note a) ++ t in
  (if ok then note a' = done_ else note a' = note a \/ note a' = done_) /\
  (negb (deaf a) = true -> ok = true).
Proof. destruct (deaf a); cbn; [by split; [left|]|]. split; [apply typed_replaces|done]. Qed.
Lemma note_caret (a : Notepad) (b : bool) :
  Some (Z.of_nat (length (note a))) =
    (if b then Some (Z.of_nat (length (note a))) else Some (Z.of_nat (length (note a)))).
Proof. by destruct b. Qed.

#[export] Instance Notepad_control : EditControl Notepad := {
  edit_text := note;
  selected := selection_start;
  answers a := negb (deaf a);
  EM_GETSEL_law w a :=
    conj (note_caret a _) (conj (or_intror eq_refl) (conj eq_refl (conj eq_refl eq_refl)));
  EM_SETSEL_law w b a _ :=
    conj (fun _ => eq_refl) (conj (fun _ => eq_refl) (conj eq_refl eq_refl));
  EM_REPLACESEL_law w t a := note_replace t a;
  WM_SETREDRAW_law w b a := conj eq_refl (conj eq_refl eq_refl);
  InvalidateRect_law w a := eq_refl
}.

Lemma note_run_clip evs a :
  clip (note_run evs a) = clip a /\ clip_seq (note_run evs a) = clip_seq a /\
  clip_busy (note_run evs a) = clip_busy a.
Proof.
  revert a. induction evs as [|ev evs IH]; intros a; [done|].
  change (note_run (ev :: evs) a) with (note_run evs (note_input ev a)).
  destruct (IH (note_input ev a)) as (-> & -> & ->).
  unfold note_input, typed, without_selection. cbv zeta. by repeat case_match.
Qed.

#[export] Program Instance Notepad_clipboard : Clipboard Notepad :=
  {| available a := negb (clip_busy a) |}.
Next Obligation. intros s. by split_and!. Qed.
Next Obligation. done. Qed.
Next Obligation. intros s. split_and!; [done|cbn; lia|done]. Qed.
Next Obligation. intros t s. split_and!; [done|cbn; lia|done]. Qed.
Next Obligation. intros n s. by split_and!. Qed.
Next Obligation. intros s. split_and!; [done|cbn; lia|done]. Qed.
Next Obligation.
  intros evs s. destruct (note_run_clip (take (note_taken evs s) evs) s) as (H1 & H2 & H3).
  split_and!; [exact H1|exact H2|]. cbn. by f_equal.
Qed.
Next Obligation. done. Qed.
Next Obligation. done. Qed.
Next Obligation. done. Qed.

(** ** The scene *)

#[local] Existing Instances posix_c_locale posix_spaces ascii_mapper ascii_punct c_locale.

Definition setting (ct : CodeTable) (macros : gmap wstring wstring) : HookConfig :=
  mkHookConfig true true false false Telex ct telex_cfg macros
    (NewIndex (map fst (map_to_list macros))) Defaults.
Definition telex : HookConfig := setting Unicode ∅.
Definition vni_windows : HookConfig := setting VNIWindows ∅.

(** A window whose text is [before], and the hook of a user about to write in it. *)
Definition window (before : wstring) : Dispatcher Notepad :=
  Install (NewDispatcher (with_note before new_notepad)).
Definition writing (before : wstring) : Hook Engine (Dispatcher Notepad) :=
  new_hook (NewEngine telex_cfg) (window before).
Definition keys_of (s : wstring) : list WordKey := (fun c => Letter (towupper c) false false) <$> s.

Definition written (cfg : HookConfig) (before keys : wstring) : Hook Engine (Dispatcher Notepad) :=
  word_keys cfg (keys_of keys) (writing before).
Abbreviation on_screen h := (note (system (world_ h))).

Lemma window_ready before : Dispatcher_ready (window before).
Proof. by split. Qed.

Lemma writing_synced cfg before : synced cfg before (writing before).
Proof.
  split; [apply window_ready| |done|].
  - cbn. unfold shown. case_match; by rewrite app_nil_r.
  - unfold widths_of. by case_match.
Qed.

(** What is to fit is computed: every engine a key may lead to. *)
Definition outcomes (k : WordKey) (e : Engine) : list Engine :=
  match k with
  | Letter vk shift caps =>
      let c := typed_letter vk shift caps in
      [InputEngine.PushChar c e; InputEngine.PushChar (towupper c) e]
  | Digit vk => [InputEngine.PushChar vk e]
  | Bracket vk shift caps =>
      let key := ResolveBracketKey (if vk =w 219 then L "[" else L "]") shift caps in
      [InputEngine.PushKey (bk_character key) (bk_uppercase key) e]
  | Erase => [InputEngine.Backspace e]
  end.

Fixpoint keys_fit_b (cfg : HookConfig) (ks : list WordKey) (h : Hook Engine (Dispatcher Notepad))
    : bool :=
  match ks with
  | [] => true
  | k :: ks =>
      let n := length (shown (currentCodeTable_ cfg) (previousComposition_ h)) in
      forallb (fun e => n + length (shown (currentCodeTable_ cfg) (InputEngine.Peek e)) <=?
                        output_capacity)%nat (outcomes k (engine_ h)) &&
      keys_fit_b cfg ks (word_key cfg k h)
  end.

Lemma step_outcomes k e e' : engine_step k e e' -> e' ∈ outcomes k e.
Proof.
  intros [vk sh cp ch e0 [-> | ->]| | |]; unfold outcomes; cbv zeta;
    rewrite !elem_of_cons; [by left|by right; left|by left..].
Qed.

Lemma keys_fit_b_sound cfg ks h : keys_fit_b cfg ks h = true -> keys_fit cfg ks h.
Proof.
  revert h. induction ks as [|k ks IH]; intros h; [done|]. cbn [keys_fit_b keys_fit].
  rewrite andb_true_iff. intros [H1 H2]. split; [|by apply IH].
  intros e He%step_outcomes. by apply Nat.leb_le, (forallb_elem _ _ _ H1 He).
Qed.

#[export] Instance word_key_ok_dec k : Decision (word_key_ok k).
Proof. destruct k; cbn; apply _. Defined.

Lemma wf_new_engine : WF (NewEngine telex_cfg).
Proof. constructor. Qed.

(** "tieengs" in VNI Windows after "ab ": the letter of two units is one letter. *)
Lemma word_keys_on_screen_witness :
  let h := written vni_windows (wstr "ab ") (wstr "tieengs") in
  on_screen h = wstr "ab " ++ [116; 105; 101; 225; 110; 103] /\
  screen (world_ h) = wstr "ab " ++ shown VNIWindows (InputEngine.Peek (engine_ h)) /\
  engine_steps (keys_of (wstr "tieengs")) (engine_ (writing (wstr "ab "))) (engine_ h).
Proof.
  split; [vm_compute; reflexivity|].
  apply (word_keys_on_screen vni_windows eq_refl (wstr "ab ") (keys_of (wstr "tieengs"))
            (writing (wstr "ab "))).
  - apply writing_synced.
  - split; [apply wf_new_engine|constructor].
  - apply (bool_decide_unpack _). vm_compute. exact I.
  - apply keys_fit_b_sound. vm_compute. reflexivity.
Defined.

(** "vieetj" committed by a space, the space erased, and the word reopened. *)
Definition vieet : Hook Engine (Dispatcher Notepad) := written telex (wstr "ab ") (wstr "vieetj").
Definition committed : Hook Engine (Dispatcher Notepad) := (CommitComposition telex false vieet).2.
Definition no_intents : Pipeline.OutputChannel := Pipeline.mkChannel [] [].
Definition key_down (vk : Z) (h : Hook Engine (Dispatcher Notepad)) :=
  ProcessKeyDown telex vk false false false false false (h, no_intents).
(** The space that commits goes through to the application, and so does the
    backspace that erases it. *)
Definition space_typed : Hook Engine (Dispatcher Notepad) :=
  on_world (type_char (L " ")) (key_down 32 vieet).2.1.
Definition space_erased : Hook Engine (Dispatcher Notepad) :=
  on_world (on_system (fun a => with_note (edit 1 [] (note a)) a)) (key_down 8 space_typed).2.1.
Definition reopened : bool * Hook Engine (Dispatcher Notepad) :=
  ReplayCommittedChars false space_erased.

Lemma vieet_synced : synced telex (wstr "ab ") vieet.
Proof. split; [by split|vm_compute; reflexivity..]. Qed.

Lemma commit_and_reopen_witness :
  on_screen committed = wstr "ab " ++ [118; 105; 7879; 116] /\
  (key_down 32 vieet).1 = false /\ (key_down 8 space_typed).1 = false /\ reopened.1 = true /\
  let '(ok, h) := reopened in
  screen (world_ h) = wstr "ab " ++ shown Unicode (committed_text false (engine_ vieet)) /\
  if ok then synced telex (wstr "ab ") h /\
             InputEngine.Peek (engine_ h) = committed_text false (engine_ vieet)
  else InputEngine.Count (engine_ h) = 0%nat /\
       previousComposition_ h = previousComposition_ space_erased.
Proof.
  do 4 (split; [vm_compute; reflexivity|]).
  apply (commit_and_reopen telex eq_refl (wstr "ab ") false false vieet space_erased).
  - apply vieet_synced.
  - split; apply (bool_decide_unpack _); vm_compute; exact I.
  - vm_compute. discriminate.
  - apply Nat.leb_le. vm_compute. reflexivity.
  - vm_compute. reflexivity.
  - vm_compute. reflexivity.
  - split; vm_compute; reflexivity.
  - vm_compute. reflexivity.
Defined.

(** The macro "vn" expanded by a space; the space arrives, and the backspace takes
    all of it back. *)
Definition with_macro_undo (b : bool) (c : TypingConfig) : TypingConfig := {|
  inputMethod := inputMethod c; codeTable := codeTable c; spellCheckEnabled :=
  spellCheckEnabled c; spellSuggestEnabled := spellSuggestEnabled c; beepOnSwitch :=
  beepOnSwitch c; smartSwitch := smartSwitch c; excludeApps := excludeApps c; tsfApps :=
  tsfApps c; hidePreeditUnderline := hidePreeditUnderline c; optimizeLevel :=
  optimizeLevel c; modernOrtho := modernOrtho c; autoCaps := autoCaps c; allowZwjf :=
  allowZwjf c; autoRestoreEnabled := autoRestoreEnabled c; cjkAutoSwitch := cjkAutoSwitch
  c; macroEnabled := macroEnabled c; macroInEnglish := macroInEnglish c; quickConsonant :=
  quickConsonant c; quickStartConsonant := quickStartConsonant c; quickEndConsonant :=
  quickEndConsonant c; escRestoreRawEnabled := escRestoreRawEnabled c; autoCapsMacro :=
  autoCapsMacro c; macroUndoOnBackspace := b; macroTitleCase := macroTitleCase c;
  allowEnglishBypass := allowEnglishBypass c; suggestKeepChars := suggestKeepChars c;
  debugLogEnabled := debugLogEnabled c; enableToast := enableToast c; perfHistogramEnabled
  := perfHistogramEnabled c; macroTriggerSpace := macroTriggerSpace c; macroTriggerEnter
  := macroTriggerEnter c; macroTriggerTab := macroTriggerTab c; macroTriggerDir :=
  macroTriggerDir c; spellExclusions := spellExclusions c; customKeyMap := customKeyMap c
|}.
Definition vn_table : gmap wstring wstring := {[wstr "vn" := wstr "Viet Nam"]}.
Definition vn_macro : HookConfig :=
  mkHookConfig true true true false Telex Unicode (with_macro_undo true telex_cfg) vn_table
    (NewIndex [wstr "vn"]) Defaults.
Definition vn_typed : Hook Engine (Dispatcher Notepad) :=
  set_rawMacroBuffer (wstr "vn") (written telex (wstr "ab ") (wstr "vn")).
Definition vn_expanded : MacroResult * Hook Engine (Dispatcher Notepad) :=
  TryExpandMacro vn_macro (L " ") vn_typed.
Definition vn_undone : Hook Engine (Dispatcher Notepad) :=
  UndoExpansion (on_world (type_char (L " ")) vn_expanded.2).

#[export] Instance MacroResult_eq_dec : EqDecision MacroResult.
Proof. solve_decision. Defined.


(** Enter after a committed word; a letter typed into one. *)
Lemma boundary_ends_replay_witness :
  IsPrimed (commitState_ (key_down 8 (key_down 32 vieet).2.1).2.1) = true /\
  no_replay (key_down 13 committed).2.1.
Proof.
  split; [vm_compute; reflexivity|].
  apply (boundary_ends_replay telex 13 false false false false false committed no_intents);
    [by left|reflexivity].
Defined.

Lemma commit_state_bounded_witness :
  length (stack_ (commitState_ (key_down 32 vieet).2.1)) = 1%nat /\
  commit_wf (commitState_ (key_down 32 vieet).2.1).
Proof.
  split; [vm_compute; reflexivity|].
  apply (commit_state_bounded telex 32 false false false false false vieet no_intents);
    [reflexivity|].
  split; [apply Nat.leb_le; vm_compute; reflexivity|vm_compute; constructor|..];
    split; vm_compute; discriminate.
Defined.

(** ** The output layer alone *)

(** A capital typed with Shift and the left Control held, cut short or not. *)
Definition desk (before : wstring) (held : list Z) (cut : option nat) : Channel Notepad :=
  Injector.mkChannel true 0 no_clipboard
    (with_limit cut (with_down held (with_note before new_notepad))).
Definition chromium : IOutputInjector := mkInjector (Win32SendInputInjector true) false.
Definition electron : IOutputInjector := Create (mkWindow false true false true false 0 false).

Lemma replacement_whole_or_not_witness :
  let c := desk (wstr "ab tie") [VK_RSHIFT; VK_LCONTROL] None in
  (Replace electron 1 [234] 0 c).1 = true /\
  note (desktop (Replace electron 1 [234] 0 c).2) = wstr "ab ti" ++ [234] /\
  let '(ok, c') := Replace electron 1 [234] 0 c in
  if ok then content (desktop c') = edit 1 [234] (content (desktop c)) /\
             same_keys (desktop c) (desktop c')
  else willing (desktop c) -> c' = c /\ (output_capacity < 1 + length [234])%nat.
Proof.
  intros c. split; [vm_compute; reflexivity|]. split; [vm_compute; reflexivity|].
  exact (replacement_whole_or_not electron 1 [234] c eq_refl eq_refl).
Defined.

(** Five events of the twelve go through: the modifiers are down again. *)
Lemma modifiers_come_back_witness :
  let c := desk (wstr "ab tie") [VK_RSHIFT; VK_LCONTROL] (Some 5%nat) in
  (Replace chromium 2 (wstr "xyz") 0 c).1 = false /\
  note (desktop (Replace chromium 2 (wstr "xyz") 0 c).2) = wstr "ab tie" /\
  let '(ok, c') := Replace chromium 2 (wstr "xyz") 0 c in
  (same_keys (desktop c) (desktop c') \/ ok = false /\ restore_cut c c') /\
  forall v, v ∈ modifiers ->
    GetAsyncKeyState v (desktop c') = true -> GetAsyncKeyState v (desktop c) = true.
Proof.
  intros c. split; [vm_compute; reflexivity|]. split; [vm_compute; reflexivity|].
  exact (modifiers_come_back chromium 2 (wstr "xyz") c eq_refl).
Defined.

Lemma own_events_counted_witness :
  let c := (TrackedSendInput (tap_key VK_BACK) (set_callback true
              (Injector.mkChannel false 0 no_clipboard new_notepad))).2 in
  synthEventsPending_ c = 0 /\
  synthEventsPending_ c <= flight c + 0 /\
  (false = false -> synthEventsPending_ c = flight c + 0) /\
  (flight c = 0 -> 0 = 0 -> (0 <? synthEventsPending_ c) = false).
Proof.
  intros c. split; [vm_compute; reflexivity|].
  apply (own_events_counted false new_notepad c 0); [reflexivity|].
  apply rtc_once, step_send. vm_compute. reflexivity.
Defined.

Lemma message_replacement_is_edit_witness :
  let c := desk (wstr "tie") [] None in
  (RichEdit_Replace false 2 [234] 65 c).1 = true /\
  let '(ok, c') := RichEdit_Replace false 2 [234] 65 c in
  (text_of c' = edit 1 [234] (text_of c) /\ (1 <= length (text_of c))%nat \/
   ok = false /\ text_of c' = text_of c) /\
  (answers (desktop c) = true -> ok = bool_decide (1 <= length (text_of c))%nat).
Proof.
  intros c. split; [vm_compute; reflexivity|].
  apply (message_replacement_is_edit false 2 [234] 65 c); [by repeat constructor|by vm_compute..].
Defined.

(** A replacement by the clipboard, a copy by the user, another replacement, and
    the timer. *)
Definition copy_there (a : Notepad) : Notepad := with_clip (Some (wstr "mine")) a.
Definition borrowed : Channel Notepad :=
  (Clipboard_Replace 1 (wstr "b") 0
    (on_desktop copy_there (Clipboard_Replace 0 (wstr "a") 0
      (Injector.mkChannel true 0 no_clipboard (with_clip (Some (wstr "old")) new_notepad))).2)).2.


(** ** Behaviours that are findings *)

(** An expansion too long for a batch and too short for the clipboard is lost: the
    shortcut stays, and the hook believes it expanded. *)
Definition long_macro : HookConfig :=
  mkHookConfig true true true false Telex Unicode telex_cfg {[wstr "vn" := replicate 150 (L "a")]}
    (NewIndex [wstr "vn"]) Defaults.
Lemma long_expansion_lost :
  let '(result, h) := TryExpandMacro long_macro (L " ") vn_typed in
  result = ExpandedPassTrigger /\ on_screen h = on_screen vn_typed /\
  previousComposition_ h = [] /\ (150 <= kMacroClipboardThreshold)%nat.
Proof. vm_compute. repeat split. lia. Qed.

(** When EM_REPLACESEL times out the selection stays, and the fallback's first
    backspace deletes it whole: one character too many goes. *)
Definition deaf_editor : Dispatcher Notepad :=
  set_policy (mkInjector (RichEditEmReplaceSelInjector true) false) false false false
    (Install (NewDispatcher (with_deaf true (with_note (wstr "abcd") new_notepad)))).
Lemma timed_out_replace_overdeletes :
  note (system (Dispatcher.ReplaceUnicode 2 (wstr "X") 0 deaf_editor)) =
    wstr "aX" /\ edit 2 (wstr "X") (wstr "abcd") = wstr "abX".
Proof. vm_compute. repeat split. Qed.

(** While another process holds the clipboard, the injector pastes what was there
    and reports success. *)
Definition busy_clipboard : Channel Notepad :=
  Injector.mkChannel true 0 no_clipboard
    (with_busy true (with_note (wstr "ab") (with_clip (Some (wstr "OLD")) new_notepad))).
Lemma busy_clipboard_pastes_old_text :
  let '(ok, c) := Clipboard_Replace 1 (wstr "X") 0 busy_clipboard in
  ok = true /\ note (desktop c) = wstr "aOLD".
Proof. vm_compute. repeat split. Qed.

(** The timer that fires while another process holds the clipboard with our text on it
    forgets what it saved: the user's text is gone. *)
Definition timer_while_busy : Channel Notepad :=
  let c := (Clipboard_Replace 0 (wstr "a") 0
              (Injector.mkChannel true 0 no_clipboard (with_clip (Some (wstr "old")) new_notepad))).2 in
  on_desktop (with_busy false)
    (RestoreTimerProc (g_restoreTimerId (clipboard c)) (on_desktop (with_busy true) c)).
Lemma busy_timer_loses_text :
  g_hasOriginalClip (clipboard timer_while_busy) = false /\
  held_text timer_while_busy = wstr "a" /\ g_originalClipText (clipboard timer_while_busy) = [] /\
  g_restoreTimerId (clipboard timer_while_busy) = 0.
Proof. vm_compute. repeat split. Qed.

(** The clipboard injector sends its backspaces under a Shift that is held. *)
Lemma clipboard_keeps_shift_down :
  let '(ok, c) := Clipboard_Replace 1 (wstr "X") 0 (desk (wstr "ab") [VK_LSHIFT] None) in
  ok = true /\ note (desktop c) = [].
Proof. vm_compute. repeat split. Qed.

(** Esc gives back the keys of a word by its letters: in VNI Windows, where one of
    them is two units, a unit stays. *)
Lemma esc_restore_counts_letters :
  let '(outcome, h) := EscRestoreLive (written vni_windows (wstr "ab ") (wstr "tieengs")) in
  outcome = Eat /\ on_screen h = wstr "ab ttieengs".
Proof. vm_compute. repeat split. Qed.

(** After Esc the hook still remembers the word it showed: a bracket then replaces
    the keys that were given back. *)
Lemma bracket_after_esc_erases :
  let '(_, h) := EscRestoreLive vieet in
  on_screen h = wstr "ab vieetj" /\ previousComposition_ h = [118; 105; 7879; 116] /\
  on_screen (HandleBracket telex 219 false false h) = wstr "ab vi" ++ [417].
Proof. vm_compute. repeat split. Qed.
