(* ===== verification/SharedState.v ===== *)
(** * The shared block of settings (src/src/core/ipc/SharedState.h,
      SharedStateManager.cpp)

    What the main process, the hook and every text service share: the header, the
    runtime flags, the packed settings and the document anchor, with the encoders
    and decoders of each, and the operations on the mapped block. *)

From S2P Require Import Prelude AutoCap QuickConvert Config.
From coqutil Require Import Datatypes.RecordSettersUsingExistingGetters.
Open Scope Z_scope.

(** ** Flags *)

Definition VIETNAMESE_MODE : Z := 0x0001.
Definition ENGINE_ENABLED : Z := 0x0002.
Definition SPELL_CHECK : Z := 0x0004.
Definition TSF_ACTIVE : Z := 0x0008.
Definition TSF_READONLY : Z := 0x0010.
Definition TSF_ABI_MISMATCH : Z := 0x0020.
Definition TSF_PENDING_DLL_SWAP : Z := 0x0040.
Definition TSF_POST_UPDATE_REBOOT : Z := 0x0080.
Definition TSF_TIP_ACTIVE : Z := 0x0100.
Definition CLASSIC_MODE : Z := 0x0200.
Definition TSF_ENGINE_UNTRUSTED : Z := 0x0400.
Definition TSF_NATIVE_CONVERT_READY : Z := 0x0800.

(** [DiagFlags::PERF_HISTOGRAM]. *)
Definition PERF_HISTOGRAM : Z := 0x01.

Definition MODERN_ORTHO : Z := 0x0001.
Definition AUTO_CAPS : Z := 0x0002.
Definition ALLOW_ZWJF : Z := 0x0004.
Definition AUTO_RESTORE : Z := 0x0008.
Definition CJK_AUTO_SWITCH : Z := 0x0010.
Definition ESC_RESTORE_RAW : Z := 0x0020.
Definition BEEP_ON_SWITCH : Z := 0x0080.
Definition MACRO_ENABLED : Z := 0x0100.
Definition MACRO_IN_ENGLISH : Z := 0x0200.
Definition QUICK_CONSONANT : Z := 0x0400.
Definition QUICK_START_CONSONANT : Z := 0x0800.
Definition QUICK_END_CONSONANT : Z := 0x1000.
Definition SMART_SWITCH : Z := 0x4000.
Definition EXCLUDE_APPS : Z := 0x8000.
Definition AUTO_CAPS_MACRO : Z := 0x10000.
Definition ALLOW_ENGLISH_BYPASS : Z := 0x20000.
Definition DEBUG_LOG_ENABLED : Z := 0x40000.
Definition SUGGEST_KEEP_CHARS : Z := 0x80000.
Definition HIDE_PREEDIT_UNDERLINE : Z := 0x100000.
Definition MACRO_TITLE_CASE : Z := 0x200000.
Definition MACRO_UNDO_ON_BACKSPACE : Z := 0x400000.

(** A bit of a mask of flags. *)
Definition has_flag (flags bit : Z) : bool := Z.land flags bit <>w 0.
Definition with_flag (b : bool) (bit flags : Z) : Z := if b then Z.lor flags bit else flags.

Definition EncodeFeatureFlags (c : TypingConfig) : Z :=
  let flags := 0 in
  let flags := with_flag (modernOrtho c) MODERN_ORTHO flags in
  let flags := with_flag (autoCaps c) AUTO_CAPS flags in
  let flags := with_flag (allowZwjf c) ALLOW_ZWJF flags in
  let flags := with_flag (autoRestoreEnabled c) AUTO_RESTORE flags in
  let flags := with_flag (cjkAutoSwitch c) CJK_AUTO_SWITCH flags in
  let flags := with_flag (escRestoreRawEnabled c) ESC_RESTORE_RAW flags in
  let flags := with_flag (beepOnSwitch c) BEEP_ON_SWITCH flags in
  let flags := with_flag (macroEnabled c) MACRO_ENABLED flags in
  let flags := with_flag (macroInEnglish c) MACRO_IN_ENGLISH flags in
  let flags := with_flag (quickConsonant c) QUICK_CONSONANT flags in
  let flags := with_flag (quickStartConsonant c) QUICK_START_CONSONANT flags in
  let flags := with_flag (quickEndConsonant c) QUICK_END_CONSONANT flags in
  let flags := with_flag (smartSwitch c) SMART_SWITCH flags in
  let flags := with_flag (excludeApps c) EXCLUDE_APPS flags in
  let flags := with_flag (autoCapsMacro c) AUTO_CAPS_MACRO flags in
  let flags := with_flag (macroTitleCase c) MACRO_TITLE_CASE flags in
  let flags := with_flag (allowEnglishBypass c) ALLOW_ENGLISH_BYPASS flags in
  let flags := with_flag (debugLogEnabled c) DEBUG_LOG_ENABLED flags in
  let flags := with_flag (suggestKeepChars c) SUGGEST_KEEP_CHARS flags in
  let flags := with_flag (hidePreeditUnderline c) HIDE_PREEDIT_UNDERLINE flags in
  with_flag (macroUndoOnBackspace c) MACRO_UNDO_ON_BACKSPACE flags.

Definition DecodeFeatureFlags (flags : Z) (c : TypingConfig) : TypingConfig :=
  { c with
    modernOrtho := has_flag flags MODERN_ORTHO;
    autoCaps := has_flag flags AUTO_CAPS;
    allowZwjf := has_flag flags ALLOW_ZWJF;
    autoRestoreEnabled := has_flag flags AUTO_RESTORE;
    cjkAutoSwitch := has_flag flags CJK_AUTO_SWITCH;
    escRestoreRawEnabled := has_flag flags ESC_RESTORE_RAW;
    beepOnSwitch := has_flag flags BEEP_ON_SWITCH;
    macroEnabled := has_flag flags MACRO_ENABLED;
    macroInEnglish := has_flag flags MACRO_IN_ENGLISH;
    quickConsonant := has_flag flags QUICK_CONSONANT;
    quickStartConsonant := has_flag flags QUICK_START_CONSONANT;
    quickEndConsonant := has_flag flags QUICK_END_CONSONANT;
    smartSwitch := has_flag flags SMART_SWITCH;
    excludeApps := has_flag flags EXCLUDE_APPS;
    autoCapsMacro := has_flag flags AUTO_CAPS_MACRO;
    macroTitleCase := has_flag flags MACRO_TITLE_CASE;
    allowEnglishBypass := has_flag flags ALLOW_ENGLISH_BYPASS;
    debugLogEnabled := has_flag flags DEBUG_LOG_ENABLED;
    suggestKeepChars := has_flag flags SUGGEST_KEEP_CHARS;
    hidePreeditUnderline := has_flag flags HIDE_PREEDIT_UNDERLINE;
    macroUndoOnBackspace := has_flag flags MACRO_UNDO_ON_BACKSPACE }.

(** ** The anchor: where the caret of the document is *)

Record HookContextAnchor := mkAnchor {
  generation : Z; isAvailable : bool; isSentenceStart : bool; isLineStart : bool;
  isWordStart : bool; syllableLen : nat; currentSyllable : wstring
}.
Definition kMaxSyllable : nat := 16.
(** [HookContextAnchor{}]. *)
Definition zero_anchor : HookContextAnchor :=
  mkAnchor 0 false false false false 0 (replicate kMaxSyllable 0).

Definition is_blank (c : wchar) : bool := (c =w L " ") || (c =w 9) || (c =w 10) || (c =w 13).

(** The run of characters other than blanks at the end of a text. *)
Fixpoint leading_run (rev : wstring) : wstring :=
  match rev with c :: rest => if is_blank c then [] else c :: leading_run rest | [] => [] end.
Definition syllable_before (preceding : wstring) : wstring :=
  rev (take kMaxSyllable (leading_run (rev preceding))).

Definition DeriveAnchorFromPreceding (preceding : wstring) (out : HookContextAnchor)
    : HookContextAnchor :=
  let out := { out with isSentenceStart := true; isLineStart := true; isWordStart := true;
                        syllableLen := 0%nat; currentSyllable := replicate kMaxSyllable 0 } in
  match list.last preceding with
  | None => out
  | Some c =>
      let out := { out with isWordStart := is_blank c } in
      let out :=
        match ClassifyCapTrigger preceding with
        | DocStart => { out with isSentenceStart := true; isLineStart := true }
        | LineStart => { out with isSentenceStart := false; isLineStart := true }
        | SentenceEnd => { out with isSentenceStart := true; isLineStart := false }
        | TrigNone => { out with isSentenceStart := false; isLineStart := false }
        end in
      if isWordStart out then out
      else
        let syllable := syllable_before preceding in
        { out with syllableLen := length syllable;
                   currentSyllable := syllable ++ replicate (kMaxSyllable - length syllable) 0 }
  end.

(** What each of the three attempts finds: [src->generation], the fields as they
    are copied, and [src->generation] again. *)
Fixpoint ReadAnchorSeqlock (attempts : list (Z * HookContextAnchor * Z))
    : option HookContextAnchor :=
  match attempts with
  | [] => None
  | (g1, fields, g2) :: attempts =>
      if Z.odd g1 then ReadAnchorSeqlock attempts
      else if g1 =w g2 then Some { fields with generation := g1 }
      else ReadAnchorSeqlock attempts
  end.
Definition u32_incr (n : Z) : Z := (n + 1) mod 2 ^ 32.
Definition WriteAnchorSeqlock (dst src : HookContextAnchor) : HookContextAnchor :=
  let dst := { dst with generation ::= u32_incr } in
  let dst := { dst with isAvailable := isAvailable src;
                        isSentenceStart := isSentenceStart src; isLineStart := isLineStart src;
                        isWordStart := isWordStart src; syllableLen := syllableLen src;
                        currentSyllable := currentSyllable src } in
  { dst with generation ::= u32_incr }.

(** ** The block *)

Record SharedState := mkShared {
  ss_magic : Z; ss_structVersion : Z; ss_structSize : Z; ss_epoch : Z; ss_flags : Z;
  ss_inputMethod : Z; ss_spellCheck : Z; ss_optimizeLevel : Z;
  ss_featureFlags : Z * Z; ss_extFeatureFlags : Z; ss_codeTable : Z;
  ss_hotkeyMods : Z; ss_hotkeyKeyLo : Z; ss_hotkeyKeyHi : Z;
  ss_convertMods : Z; ss_convertKeyLo : Z; ss_convertKeyHi : Z;
  ss_configGeneration : Z; ss_diagFlags : Z;
  ss_reserved : list Z; ss_contextAnchor : HookContextAnchor
}.
Implicit Types s : SharedState.

Definition kReserved : nat := 1024.
(** [SharedState{}]. *)
Definition zero_state : SharedState :=
  mkShared 0 0 0 0 0 0 0 0 (0, 0) 0 0 0 0 0 0 0 0 0 0 (replicate kReserved 0) zero_anchor.

Definition MAGIC_VALUE : Z := 0x59454B4E.
Definition CURRENT_VERSION : Z := 4.
Definition sizeof_SharedState : Z := 1104.
Definition NATIVE_CONVERT_OWNER_OFFSET : nat := 5.

Definition IsValid s : bool :=
  (ss_magic s =w MAGIC_VALUE) && (ss_structVersion s <=? CURRENT_VERSION) &&
  (24 <=? ss_structSize s).

Definition u8 (z : Z) : Z := z mod 2 ^ 8.

Definition GetFeatureFlags s : Z :=
  Z.lor (Z.lor (ss_featureFlags s).1 (Z.shiftl (ss_featureFlags s).2 8))
        (Z.shiftl (ss_extFeatureFlags s) 16).
Definition SetFeatureFlags (ff : Z) s : SharedState :=
  { s with ss_featureFlags := (u8 ff, u8 (Z.shiftr ff 8));
           ss_extFeatureFlags := u8 (Z.shiftr ff 16) }.

(** One byte of modifiers and two of key each. *)
Definition SetHotkey (hk : HotkeyConfig) s : SharedState :=
  { s with ss_hotkeyMods := ToMods hk; ss_hotkeyKeyLo := u8 (hk_vk hk);
           ss_hotkeyKeyHi := u8 (Z.shiftr (hk_vk hk) 8) }.
Definition GetHotkey s : HotkeyConfig :=
  SetModsFromMask
    (mkHotkey false false false false
       (Z.lor (ss_hotkeyKeyLo s) (Z.shiftl (ss_hotkeyKeyHi s) 8)))
    (ss_hotkeyMods s).

Definition convert_flags (c : ConvertConfig) : Z :=
  let f := 0 in
  let f := with_flag (allCaps c) 1 f in
  let f := with_flag (allLower c) 2 f in
  let f := with_flag (capsFirst c) 4 f in
  let f := with_flag (capsEach c) 8 f in
  let f := with_flag (removeMark c) 16 f in
  let f := with_flag (alertDone c) 32 f in
  let f := with_flag (autoPaste c) 64 f in
  let f := with_flag (sequential c) 128 f in
  with_flag (enableLog c) 256 f.
Definition SetConvertConfig (config : ConvertConfig) s : SharedState :=
  let hk := cc_hotkey config in
  let flags := convert_flags config in
  { s with ss_convertMods := u8 (ToMods hk); ss_convertKeyLo := u8 (hk_vk hk);
           ss_convertKeyHi := u8 (Z.shiftr (hk_vk hk) 8);
           ss_reserved ::= fun r => [u8 flags; u8 (Z.shiftr flags 8);
                                     sourceEncoding config; destEncoding config] ++ drop 4 r }.
Definition GetConvertConfig s : ConvertConfig :=
  let byte i := nth i (ss_reserved s) 0 in
  let f := Z.lor (byte 0%nat) (Z.shiftl (byte 1%nat) 8) in
  let encoding z := if z <=? 4 then z else 0 in
  let get := has_flag f in
  mkConvert (get 1) (get 2) (get 4) (get 8) (get 16) (get 32) (get 64) (get 128) (get 256)
    (encoding (byte 2%nat)) (encoding (byte 3%nat))
    (SetModsFromMask
       (mkHotkey false false false false
          (Z.lor (ss_convertKeyLo s) (Z.shiftl (ss_convertKeyHi s) 8)))
       (Z.land (ss_convertMods s) 0x0F)).

(** The process id of the route owner, [reserved[5..8]], little-endian. *)
Definition owner_bytes (reserved : list Z) : list Z :=
  take 4 (drop NATIVE_CONVERT_OWNER_OFFSET reserved).
Definition GetNativeConvertOwnerProcessId s : Z :=
  foldr (fun b acc => Z.lor b (Z.shiftl acc 8)) 0 (owner_bytes (ss_reserved s)).
Definition pid_bytes (processId : Z) : list Z :=
  (fun i => u8 (Z.shiftr processId (8 * Z.of_nat i))) <$> seq 0 4.
Definition SetNativeConvertOwnerProcessId (processId : Z) s : SharedState :=
  { s with ss_reserved ::= fun r =>
      take NATIVE_CONVERT_OWNER_OFFSET r ++ pid_bytes processId ++
      drop (NATIVE_CONVERT_OWNER_OFFSET + 4) r }.

Definition InitDefaults : SharedState :=
  SetFeatureFlags (Z.lor ALLOW_ZWJF MODERN_ORTHO)
    { zero_state with
        ss_magic := MAGIC_VALUE; ss_structVersion := CURRENT_VERSION;
        ss_structSize := sizeof_SharedState; ss_flags := Z.lor VIETNAMESE_MODE ENGINE_ENABLED }.

(** ** Flags as bits *)

Lemma has_flag_pow2 flags k : 0 <= k -> has_flag flags (2 ^ k) = Z.testbit flags k.
Proof.
  intros Hk. unfold has_flag. rewrite Z.land_comm.
  assert (E : Z.land (2 ^ k) flags = if Z.testbit flags k then 2 ^ k else 0).
  { apply Z.bits_inj'. intros n Hn. rewrite Z.land_spec, Z.pow2_bits_eqb by done.
    destruct (Z.eqb_spec k n) as [->|Hne].
    - destruct (Z.testbit flags n); [by rewrite Z.pow2_bits_true|by rewrite Z.bits_0].
    - destruct (Z.testbit flags k); [by rewrite Z.pow2_bits_false|by rewrite Z.bits_0]. }
  rewrite E. destruct (Z.testbit flags k); [|done]. pose proof (Z.pow_pos_nonneg 2 k). lia.
Qed.

Lemma testbit_with_flag b k flags n :
  0 <= k -> Z.testbit (with_flag b (2 ^ k) flags) n = Z.testbit flags n || (b && (k =w n)).
Proof.
  intros Hk. destruct b; simpl; [|by rewrite orb_false_r].
  by rewrite Z.lor_spec, Z.pow2_bits_eqb.
Qed.

Lemma testbit_with_flag' b bit k flags n :
  0 <= k -> bit = 2 ^ k ->
  Z.testbit (with_flag b bit flags) n = Z.testbit flags n || ((k =w n) && b).
Proof. intros Hk ->. rewrite testbit_with_flag by done. f_equal. apply andb_comm. Qed.

Lemma lor_bound a b w : 0 <= w -> 0 <= a < 2 ^ w -> 0 <= b < 2 ^ w -> 0 <= Z.lor a b < 2 ^ w.
Proof.
  intros Hw Ha Hb. assert (0 <= Z.lor a b) by (apply Z.lor_nonneg; lia).
  assert (E : Z.shiftr (Z.lor a b) w = 0).
  { by rewrite Z.shiftr_lor, !Z.shiftr_div_pow2, !Z.div_small by lia. }
  rewrite Z.shiftr_div_pow2 in E by done. apply Z.div_small_iff in E; lia.
Qed.

Lemma with_flag_bound b bit flags w :
  0 <= w -> 0 <= bit < 2 ^ w -> 0 <= flags < 2 ^ w -> 0 <= with_flag b bit flags < 2 ^ w.
Proof. intros. destruct b; simpl; [by apply lor_bound|done]. Qed.

(** Three bytes and back. *)
Lemma bytes3_roundtrip z :
  0 <= z < 2 ^ 24 ->
  Z.lor (Z.lor (u8 z) (Z.shiftl (u8 (Z.shiftr z 8)) 8)) (Z.shiftl (u8 (Z.shiftr z 16)) 16) = z.
Proof.
  intros Hz. apply Z.bits_inj'. intros n Hn. unfold u8.
  rewrite !Z.lor_spec, !Z.shiftl_spec by lia.
  destruct (Z.ltb_spec n 8).
  { rewrite Z.mod_pow2_bits_low, !(Z.testbit_neg_r _ (n - _)) by lia. by rewrite !orb_false_r. }
  rewrite Z.mod_pow2_bits_high by lia.
  destruct (Z.ltb_spec n 16).
  { rewrite Z.mod_pow2_bits_low, Z.shiftr_spec by lia.
    rewrite !(Z.testbit_neg_r _ (n - 16)) by lia. rewrite orb_false_r. simpl. f_equal. lia. }
  rewrite (Z.mod_pow2_bits_high _ 8 (n - 8)) by lia.
  destruct (Z.ltb_spec n 24).
  { rewrite Z.mod_pow2_bits_low, Z.shiftr_spec by lia. simpl. f_equal. lia. }
  rewrite Z.mod_pow2_bits_high by lia. simpl.
  rewrite <- (Z.mod_small z (2 ^ 24)) by lia. by rewrite Z.mod_pow2_bits_high by lia.
Qed.

Lemma bytes2_roundtrip z :
  0 <= z < 2 ^ 16 -> Z.lor (u8 z) (Z.shiftl (u8 (Z.shiftr z 8)) 8) = z.
Proof.
  intros Hz. rewrite <- (bytes3_roundtrip z) at 3 by lia.
  rewrite (Z.shiftr_div_pow2 z 16), (Z.div_small z) by lia. by rewrite Z.lor_0_r.
Qed.

Lemma GetSetFeatureFlags ff s :
  0 <= ff < 2 ^ 24 -> GetFeatureFlags (SetFeatureFlags ff s) = ff.
Proof. apply bytes3_roundtrip. Qed.

Lemma EncodeFeatureFlags_bound c : 0 <= EncodeFeatureFlags c < 2 ^ 24.
Proof.
  unfold EncodeFeatureFlags. cbv zeta.
  repeat (apply with_flag_bound; [lia|split; [by vm_compute|by vm_compute]|]). done.
Qed.

(** The bits of a packed configuration, each at its place. *)
Lemma testbit_EncodeFeatureFlags c n :
  Z.testbit (EncodeFeatureFlags c) n = existsb (fun '(k, b) => (k =w n) && b) (rev [
    (0, modernOrtho c); (1, autoCaps c); (2, allowZwjf c); (3, autoRestoreEnabled
    c); (4, cjkAutoSwitch c); (5, escRestoreRawEnabled c); (7, beepOnSwitch c); (8,
    macroEnabled c); (9, macroInEnglish c); (10, quickConsonant c); (11,
    quickStartConsonant c); (12, quickEndConsonant c); (14, smartSwitch c); (15,
    excludeApps c); (16, autoCapsMacro c); (21, macroTitleCase c); (17,
    allowEnglishBypass c); (18, debugLogEnabled c); (19, suggestKeepChars c); (20,
    hidePreeditUnderline c); (22, macroUndoOnBackspace c)]).
Proof.
  unfold EncodeFeatureFlags. cbv zeta. simpl existsb.
  repeat match goal with |- context [with_flag ?b ?bit ?f] =>
    lazymatch goal with |- Z.testbit (with_flag b bit f) _ = _ =>
      let k := eval vm_compute in (Z.log2 bit) in
      rewrite (testbit_with_flag' b bit k f n ltac:(lia) eq_refl); rewrite orb_comm; f_equal
    end end.
  by rewrite Z.bits_0.
Qed.

(** The flags a configuration packs are the flags it unpacks to. *)
Lemma DecodeEncodeFeatureFlags c : DecodeFeatureFlags (EncodeFeatureFlags c) c = c.
Proof.
  assert (H : forall bit k, 0 <= k -> bit = 2 ^ k ->
    has_flag (EncodeFeatureFlags c) bit = Z.testbit (EncodeFeatureFlags c) k).
  { intros bit k Hk ->. by apply has_flag_pow2. }
  unfold DecodeFeatureFlags.
  repeat match goal with |- context [has_flag _ ?bit] =>
    let k := eval vm_compute in (Z.log2 bit) in
    rewrite (H bit k ltac:(lia) eq_refl), testbit_EncodeFeatureFlags; cbn -[tset]; rewrite ?orb_false_r
  end.
  by destruct c.
Qed.

(** ** Hotkeys and the settings of the conversion *)

Lemma ToMods_bound hk : 0 <= ToMods hk < 16.
Proof. by destruct hk as [[] [] [] [] ?]. Qed.

Lemma GetSetHotkey hk s : 0 <= hk_vk hk < 2 ^ 16 -> GetHotkey (SetHotkey hk s) = hk.
Proof.
  intros Hvk. unfold GetHotkey, SetHotkey. record.simp. rewrite bytes2_roundtrip by done.
  by apply hotkey_mods_roundtrip.
Qed.

Lemma testbit_convert_flags c n :
  Z.testbit (convert_flags c) n = existsb (fun '(k, b) => (k =w n) && b)
    [(8, enableLog c); (7, sequential c); (6, autoPaste c); (5, alertDone c);
     (4, removeMark c); (3, capsEach c); (2, capsFirst c); (1, allLower c); (0, allCaps c)].
Proof.
  unfold convert_flags. cbv zeta. simpl existsb.
  repeat match goal with |- Z.testbit (with_flag ?b ?bit ?f) _ = _ =>
    let k := eval vm_compute in (Z.log2 bit) in
    rewrite (testbit_with_flag' b bit k f n ltac:(lia) eq_refl); rewrite orb_comm; f_equal
  end.
  by rewrite Z.bits_0.
Qed.

Lemma convert_flags_bound c : 0 <= convert_flags c < 2 ^ 16.
Proof. unfold convert_flags. cbv zeta. repeat (apply with_flag_bound; [lia|done|]). done. Qed.

(** What the settings of the conversion may hold: a key of two bytes and known
    encodings. *)
Definition convert_valid (c : ConvertConfig) : Prop :=
  0 <= hk_vk (cc_hotkey c) < 2 ^ 16 /\ 0 <= sourceEncoding c <= 4 /\ 0 <= destEncoding c <= 4.

Lemma GetSetConvertConfig c s : convert_valid c -> GetConvertConfig (SetConvertConfig c s) = c.
Proof.
  intros (Hvk & Hs & Hd). unfold GetConvertConfig, SetConvertConfig. record.simp. cbn [nth app].
  rewrite !bytes2_roundtrip by (try done; apply convert_flags_bound).
  replace (sourceEncoding c <=? 4) with true by lia.
  replace (destEncoding c <=? 4) with true by lia.
  assert (H : forall bit k, 0 <= k -> bit = 2 ^ k ->
    has_flag (convert_flags c) bit = Z.testbit (convert_flags c) k).
  { intros bit k Hk ->. by apply has_flag_pow2. }
  repeat match goal with |- context [has_flag _ ?bit] =>
    let k := eval vm_compute in (Z.log2 bit) in
    rewrite (H bit k ltac:(lia) eq_refl), testbit_convert_flags; cbn -[has_flag u8];
    rewrite ?orb_false_r
  end.
  assert (E : Z.land (u8 (ToMods (cc_hotkey c))) 15 = ToMods (cc_hotkey c)).
  { by destruct (cc_hotkey c) as [[] [] [] [] ?]. }
  rewrite E, hotkey_mods_roundtrip by done. by destruct c.
Qed.

(** The settings of the conversion leave the owner's bytes alone. *)
Lemma owner_SetConvertConfig c s :
  GetNativeConvertOwnerProcessId (SetConvertConfig c s) = GetNativeConvertOwnerProcessId s.
Proof.
  unfold GetNativeConvertOwnerProcessId, owner_bytes, SetConvertConfig, NATIVE_CONVERT_OWNER_OFFSET.
  record.simp. f_equal.
  rewrite (drop_app_ge _ _ 5) by (simpl; lia). rewrite drop_drop. done.
Qed.

(** ** The owner of the conversion key *)

Definition bytes4 (z : Z) : Z := foldr (fun b acc => Z.lor b (Z.shiftl acc 8)) 0 (pid_bytes z).

Lemma bytes4_roundtrip z : 0 <= z < 2 ^ 32 -> bytes4 z = z.
Proof.
  intros Hz. unfold bytes4, pid_bytes. cbn [seq fmap list_fmap foldr].
  change (8 * Z.of_nat 0) with 0. change (8 * Z.of_nat 1) with 8.
  change (8 * Z.of_nat 2) with 16. change (8 * Z.of_nat 3) with 24.
  change (Z.shiftl 0 8) with 0. rewrite Z.lor_0_r, Z.shiftr_0_r.
  replace (Z.shiftr z 16) with (Z.shiftr (Z.shiftr z 8) 8) by (rewrite Z.shiftr_shiftr by lia; done).
  replace (Z.shiftr z 24) with (Z.shiftr (Z.shiftr z 8) 16) by (rewrite Z.shiftr_shiftr by lia; done).
  assert (Hb : 0 <= Z.shiftr z 8 < 2 ^ 24).
  { rewrite Z.shiftr_div_pow2 by lia. change (2 ^ 32) with (2 ^ 24 * 2 ^ 8) in Hz.
    split; [apply Z.div_pos; lia|]. apply Z.div_lt_upper_bound; lia. }
  assert (E : Z.lor (u8 (Z.shiftr z 8)) (Z.shiftl (Z.lor (u8 (Z.shiftr (Z.shiftr z 8) 8))
    (Z.shiftl (u8 (Z.shiftr (Z.shiftr z 8) 16)) 8)) 8) = Z.shiftr z 8).
  { rewrite Z.shiftl_lor, Z.shiftl_shiftl, Z.lor_assoc by lia. exact (bytes3_roundtrip _ Hb). }
  rewrite E. apply Z.bits_inj'. intros n Hn. unfold u8. rewrite Z.lor_spec, Z.shiftl_spec by done.
  destruct (Z.ltb_spec n 8).
  - rewrite Z.mod_pow2_bits_low, (Z.testbit_neg_r _ (n - 8)) by lia. by rewrite orb_false_r.
  - rewrite Z.mod_pow2_bits_high, Z.shiftr_spec by lia. simpl. f_equal. lia.
Qed.

Definition whole s : Prop := length (ss_reserved s) = kReserved.

Lemma owner_bytes_set r z :
  length r = kReserved ->
  owner_bytes (take NATIVE_CONVERT_OWNER_OFFSET r ++ pid_bytes z ++
               drop (NATIVE_CONVERT_OWNER_OFFSET + 4) r) = pid_bytes z.
Proof.
  unfold kReserved, owner_bytes, NATIVE_CONVERT_OWNER_OFFSET. intros Hr.
  rewrite drop_app_length' by (rewrite length_take; lia).
  by rewrite take_app_length' by done.
Qed.

Lemma GetSetNativeConvertOwner z s :
  whole s -> 0 <= z < 2 ^ 32 ->
  GetNativeConvertOwnerProcessId (SetNativeConvertOwnerProcessId z s) = z.
Proof.
  intros Hw Hz. unfold GetNativeConvertOwnerProcessId, SetNativeConvertOwnerProcessId.
  record.simp.
  rewrite owner_bytes_set by done. by apply bytes4_roundtrip.
Qed.

(** ** What an anchor says of the text before the caret *)

Lemma leading_run_spec r :
  exists rest, r = leading_run r ++ rest /\ Forall (fun c => is_blank c = false) (leading_run r) /\
    match rest with c :: _ => is_blank c = true | [] => True end.
Proof.
  induction r as [|c r (rest & E & Hf & Hr)]; simpl; [by exists []|].
  destruct (is_blank c) eqn:Ec; [by exists (c :: r)|].
  exists rest. split; [by rewrite E at 1|]. split; [by constructor|done].
Qed.

(** A syllable before the caret: the end of the text, without a blank, whole
    unless it is as long as the anchor can hold. *)
Definition ends_with_syllable (text syllable : wstring) : Prop :=
  exists before, text = before ++ syllable /\
    Forall (fun c => is_blank c = false) syllable /\ (length syllable <= kMaxSyllable)%nat /\
    ((length syllable < kMaxSyllable)%nat ->
     match list.last before with Some c => is_blank c = true | None => True end).

Lemma syllable_before_spec text : ends_with_syllable text (syllable_before text).
Proof.
  destruct (leading_run_spec (rev text)) as (rest & E & Hf & Hr).
  set (run := leading_run (rev text)) in *.
  exists (rev (drop kMaxSyllable run ++ rest)). unfold syllable_before. fold run.
  split; [|split; [|split]].
  - rewrite <- rev_app_distr, app_assoc, take_drop, <- E. by rewrite rev_involutive.
  - rewrite <- (take_drop kMaxSyllable run), Forall_app in Hf. by apply List.Forall_rev, (proj1 Hf).
  - rewrite length_rev, length_take. lia.
  - rewrite length_rev, length_take. intros Hlt.
    rewrite drop_ge by lia. simpl. destruct rest as [|c rest]; [done|].
    simpl. by rewrite last_snoc.
Qed.

Lemma DeriveAnchor_capital text out :
  isSentenceStart (DeriveAnchorFromPreceding text out) ||
  isLineStart (DeriveAnchorFromPreceding text out) = ComputeShouldAutoCap text.
Proof.
  unfold DeriveAnchorFromPreceding, ComputeShouldAutoCap.
  destruct (list.last text) as [c|] eqn:El.
  - by destruct (ClassifyCapTrigger text); cbn -[is_blank kMaxSyllable syllable_before];
      destruct (is_blank c).
  - by apply last_None in El as ->.
Qed.

Lemma DeriveAnchor_syllable text out :
  let a := DeriveAnchorFromPreceding text out in
  if isWordStart a
  then syllableLen a = 0%nat /\ match list.last text with Some c => is_blank c = true | None => True end
  else ends_with_syllable text (take (syllableLen a) (currentSyllable a)) /\
       length (currentSyllable a) = kMaxSyllable.
Proof.
  cbv zeta. unfold DeriveAnchorFromPreceding. destruct (list.last text) as [c|] eqn:El; [|done].
  set (s := syllable_before text).
  assert (Hs : ends_with_syllable text s) by apply syllable_before_spec.
  assert (Hl : (length s <= kMaxSyllable)%nat) by (by destruct Hs as (? & ? & ? & ? & _)).
  clearbody s.
  destruct (ClassifyCapTrigger text); record.simp; destruct (is_blank c) eqn:Ec; record.simp;
    rewrite ?Ec; try done; rewrite take_app_length, length_app, length_replicate;
    (split; [done|lia]).
Qed.

(** ** The anchor's own lock *)

Lemma u32_incr_odd n : 0 <= n < 2 ^ 32 -> Z.odd (u32_incr n) = Z.even n.
Proof.
  intros Hn. unfold u32_incr. destruct (Z.eq_dec n (2 ^ 32 - 1)) as [->|]; [done|].
  rewrite Z.mod_small, Z.odd_add, xorb_true_r by lia. apply Z.negb_odd.
Qed.

(** What is written is what an undisturbed reader gets. *)
Lemma ReadWriteAnchor dst src attempts :
  0 <= generation dst < 2 ^ 32 -> Z.even (generation dst) = true ->
  let a := WriteAnchorSeqlock dst src in
  ReadAnchorSeqlock ((generation a, a, generation a) :: attempts) =
    Some { src with generation := generation a }.
Proof.
  intros Hg He. cbv zeta. cbn [ReadAnchorSeqlock].
  assert (Ho : Z.odd (generation (WriteAnchorSeqlock dst src)) = false).
  { unfold WriteAnchorSeqlock. record.simp.
    rewrite u32_incr_odd by (unfold u32_incr; apply Z.mod_pos_bound; lia).
    rewrite <- Z.negb_odd, u32_incr_odd, He by done. done. }
  rewrite Ho, Z.eqb_refl. by destruct src.
Qed.
