(* ===== verification/SharedStateManager.v ===== *)
(** * Access to the shared block (src/src/core/ipc/SharedStateManager.cpp)

    The main process creates the block, every process that changes a setting writes
    it, the text services read it and write two parts of their own: the anchor and
    the owner of the conversion key.  The operations first as they act on a block
    nobody else touches, then the interleavings: the sequence lock of the settings
    while a reader loads field after field, and the hand-over of the conversion key
    between text services. *)

From S2P Require Import Prelude QuickConvert Config SharedState.
From coqutil Require Import Datatypes.RecordSettersUsingExistingGetters.
Open Scope Z_scope.

Implicit Types s p state : SharedState.

(** ** Operations *)

(** What a process holds: a mapped view or nothing, and whether it may write. *)
Record Handle := mkHandle { pState : bool; isWritable : bool }.

Definition connected (h : Handle) p : bool := pState h && (ss_magic p =w MAGIC_VALUE).
Definition IsConnected := connected.

Definition SEQLOCK_MAX_RETRIES : nat := 3.

(** A store into the block, and a sequence of them. *)
Definition Store := SharedState -> SharedState.
Definition do_stores (stores : list Store) p : SharedState := fold_left (fun p f => f p) stores p.

Definition set_epoch (e : Z) : Store := fun p => { p with ss_epoch := e }.
Definition set_magic (m : Z) : Store := fun p => { p with ss_magic := m }.

(** The assignment [*p = initialState] of Create, field by field. *)
Definition AssignStores state : list Store := [
  set_magic (ss_magic state);
  (fun p => { p with ss_structVersion := ss_structVersion state });
  (fun p => { p with ss_structSize := ss_structSize state });
  set_epoch (ss_epoch state);
  (fun p => { p with ss_flags := ss_flags state });
  (fun p => { p with ss_inputMethod := ss_inputMethod state });
  (fun p => { p with ss_spellCheck := ss_spellCheck state });
  (fun p => { p with ss_optimizeLevel := ss_optimizeLevel state });
  (fun p => { p with ss_featureFlags := ss_featureFlags state });
  (fun p => { p with ss_extFeatureFlags := ss_extFeatureFlags state });
  (fun p => { p with ss_codeTable := ss_codeTable state });
  (fun p => { p with ss_hotkeyMods := ss_hotkeyMods state });
  (fun p => { p with ss_hotkeyKeyLo := ss_hotkeyKeyLo state });
  (fun p => { p with ss_hotkeyKeyHi := ss_hotkeyKeyHi state });
  (fun p => { p with ss_convertMods := ss_convertMods state });
  (fun p => { p with ss_convertKeyLo := ss_convertKeyLo state });
  (fun p => { p with ss_convertKeyHi := ss_convertKeyHi state });
  (fun p => { p with ss_configGeneration := ss_configGeneration state });
  (fun p => { p with ss_diagFlags := ss_diagFlags state });
  (fun p => { p with ss_reserved := ss_reserved state });
  (fun p => { p with ss_contextAnchor := ss_contextAnchor state }) ].

(** [priorEpoch | 1] is odd, and the epoch after it even and new. *)
Definition CreateStores p : list Store :=
  let priorEpoch := ss_epoch p in
  let writingEpoch := Z.lor priorEpoch 1 in
  let doneEpoch := u32_incr writingEpoch in
  let initialState := InitDefaults in
  let initialState := { initialState with ss_magic := 0; ss_epoch := writingEpoch } in
  [set_epoch writingEpoch; set_magic 0] ++ AssignStores initialState ++
  [set_magic MAGIC_VALUE; set_epoch doneEpoch].
Definition Create p : SharedState := do_stores (CreateStores p) p.

Definition dllOwnedFlags : Z := TSF_NATIVE_CONVERT_READY.
(** [~] on 32 bits. *)
Definition not32 (z : Z) : Z := 2 ^ 32 - 1 - z.
Definition merge_flags (caller live : Z) : Z :=
  Z.lor (Z.land caller (not32 dllOwnedFlags)) (Z.land live dllOwnedFlags).

(** The two copies around the owner's bytes. *)
Definition copy_before_owner (caller live : list Z) : list Z :=
  take NATIVE_CONVERT_OWNER_OFFSET caller ++ drop NATIVE_CONVERT_OWNER_OFFSET live.
Definition copy_after_owner (caller live : list Z) : list Z :=
  take (NATIVE_CONVERT_OWNER_OFFSET + 4) live ++ drop (NATIVE_CONVERT_OWNER_OFFSET + 4) caller.

(** The anchor is not copied. *)
Definition CopyStores state : list Store := [
  set_magic (ss_magic state);
  (fun p => { p with ss_structVersion := ss_structVersion state });
  (fun p => { p with ss_structSize := ss_structSize state });
  (fun p => { p with ss_flags := merge_flags (ss_flags state) (ss_flags p) });
  (fun p => { p with ss_inputMethod := ss_inputMethod state });
  (fun p => { p with ss_spellCheck := ss_spellCheck state });
  (fun p => { p with ss_optimizeLevel := ss_optimizeLevel state });
  (fun p => { p with ss_featureFlags ::= fun f => ((ss_featureFlags state).1, f.2) });
  (fun p => { p with ss_featureFlags ::= fun f => (f.1, (ss_featureFlags state).2) });
  (fun p => { p with ss_extFeatureFlags := ss_extFeatureFlags state });
  (fun p => { p with ss_codeTable := ss_codeTable state });
  (fun p => { p with ss_hotkeyMods := ss_hotkeyMods state });
  (fun p => { p with ss_hotkeyKeyLo := ss_hotkeyKeyLo state });
  (fun p => { p with ss_hotkeyKeyHi := ss_hotkeyKeyHi state });
  (fun p => { p with ss_convertMods := ss_convertMods state });
  (fun p => { p with ss_convertKeyLo := ss_convertKeyLo state });
  (fun p => { p with ss_convertKeyHi := ss_convertKeyHi state });
  (fun p => { p with ss_configGeneration := ss_configGeneration state });
  (fun p => { p with ss_diagFlags := ss_diagFlags state });
  (fun p => { p with ss_reserved ::= copy_before_owner (ss_reserved state) });
  (fun p => { p with ss_reserved ::= copy_after_owner (ss_reserved state) }) ].

Definition WriteStores state p : list Store :=
  let seq := u32_incr (ss_epoch p) in
  [set_epoch seq] ++ CopyStores state ++ [set_epoch (u32_incr seq)].
Definition Write (h : Handle) state p : SharedState :=
  if negb (pState h) || negb (isWritable h) then p else do_stores (WriteStores state p) p.

(** The attempts: the epoch, the copy, the epoch again.  [magic] is what the test
    before the loop reads. *)
Fixpoint read_attempts (n : nat) (attempts : list (Z * SharedState * Z)) : SharedState :=
  match n, attempts with
  | S n, (before, state, after) :: attempts =>
      if (before =w after) && (Z.land before 1 =w 0) then state else read_attempts n attempts
  | _, _ => zero_state
  end.
Definition Read (h : Handle) (magic : Z) (attempts : list (Z * SharedState * Z)) : SharedState :=
  if negb (pState h) || (magic <>w MAGIC_VALUE) then zero_state
  else read_attempts SEQLOCK_MAX_RETRIES attempts.
(** A read nobody disturbs. *)
Definition ReadNow (h : Handle) p : SharedState :=
  Read h (ss_magic p) [(ss_epoch p, p, ss_epoch p)].

Definition ReadEpoch (h : Handle) p : Z := if connected h p then ss_epoch p else 0.
Definition ReadFlags (h : Handle) p : Z := if connected h p then ss_flags p else 0.
Definition ReadNativeConvertOwnerProcessId (h : Handle) p : Z :=
  if connected h p then GetNativeConvertOwnerProcessId p else 0.

Definition ToggleFlag (h : Handle) (flagBit : Z) p : Z * SharedState :=
  if connected h p then
    let now := Z.lxor (ss_flags p) flagBit in (now, { p with ss_flags := now })
  else (0, p).
Definition SetOrClearFlag (h : Handle) (flagBit : Z) (on : bool) p : SharedState :=
  if connected h p then
    { p with ss_flags ::= fun f => if on then Z.lor f flagBit else Z.land f (not32 flagBit) }
  else p.

(** The two words of the route, stored one after the other ([ConvertRoute] has
    the stores of several processes in between). *)
Definition PublishNativeConvertCapability (h : Handle) (processId : Z) (ready : bool) p
    : SharedState :=
  if negb (connected h p) || negb (isWritable h) || (processId =w 0) then p
  else if ready then
    let p := SetNativeConvertOwnerProcessId processId p in
    { p with ss_flags ::= fun f => Z.lor f TSF_NATIVE_CONVERT_READY }
  else if GetNativeConvertOwnerProcessId p <>w processId then p
  else
    let p := { p with ss_flags ::= fun f => Z.land f (not32 TSF_NATIVE_CONVERT_READY) } in
    if GetNativeConvertOwnerProcessId p =w processId
    then SetNativeConvertOwnerProcessId 0 p else p.

Definition WriteAnchor (h : Handle) (a : HookContextAnchor) p : SharedState :=
  if pState h && isWritable h && (ss_magic p =w MAGIC_VALUE)
  then { p with ss_contextAnchor ::= fun dst => WriteAnchorSeqlock dst a } else p.
Definition ReadAnchor (h : Handle) p (attempts : list (Z * HookContextAnchor * Z))
    : option HookContextAnchor :=
  if connected h p then ReadAnchorSeqlock (take 3 attempts) else None.

Inductive AbiCheckResult := Compatible | Incompatible | Retry.
#[export] Instance AbiCheckResult_eq_dec : EqDecision AbiCheckResult.
Proof. solve_decision. Defined.

Definition header_compatible (magic ver size : Z) : bool :=
  (magic =w MAGIC_VALUE) && (ver <=? CURRENT_VERSION) && (24 <=? size).
Fixpoint abi_attempts (n : nat) (attempts : list (Z * (Z * Z * Z) * Z)) : AbiCheckResult :=
  match n, attempts with
  | S n, (before, (magic, ver, size), after) :: attempts =>
      if (before =w after) && (Z.land before 1 =w 0)
      then if header_compatible magic ver size then Compatible else Incompatible
      else abi_attempts n attempts
  | _, _ => Retry
  end.
Definition CheckAbiCompatibility (h : Handle) (attempts : list (Z * (Z * Z * Z) * Z))
    : AbiCheckResult :=
  if negb (pState h) then Incompatible else abi_attempts SEQLOCK_MAX_RETRIES attempts.

(** [OpenReadWrite]: nothing of that name, a view that is not yet the block, or
    the block. *)
Definition OpenReadWrite (mapping : option SharedState) : Handle * bool :=
  match mapping with
  | None => (mkHandle false false, false)
  | Some p => (mkHandle true true, ss_magic p =w MAGIC_VALUE)
  end.
Definition Open (mapping : option SharedState) : Handle * bool :=
  match mapping with
  | None => (mkHandle false false, false)
  | Some p => (mkHandle true false, ss_magic p =w MAGIC_VALUE)
  end.

(** ** What a write leaves *)

Lemma Write_spec h state p :
  pState h = true -> isWritable h = true ->
  Write h state p =
    { state with
        ss_epoch := u32_incr (u32_incr (ss_epoch p));
        ss_flags := merge_flags (ss_flags state) (ss_flags p);
        ss_reserved := copy_after_owner (ss_reserved state)
                         (copy_before_owner (ss_reserved state) (ss_reserved p));
        ss_contextAnchor := ss_contextAnchor p }.
Proof.
  intros Hp Hw. unfold Write. rewrite Hp, Hw.
  destruct state as [? ? ? ? ? ? ? ? [? ?]], p as [? ? ? ? ? ? ? ? [? ?]]. reflexivity.
Qed.

Lemma length_copy_before caller live :
  length caller = kReserved -> length live = kReserved ->
  length (copy_before_owner caller live) = kReserved.
Proof.
  unfold copy_before_owner, kReserved, NATIVE_CONVERT_OWNER_OFFSET. intros.
  rewrite length_app, length_take, length_drop. lia.
Qed.
Lemma length_copy_after caller live :
  length caller = kReserved -> length live = kReserved ->
  length (copy_after_owner caller live) = kReserved.
Proof.
  unfold copy_after_owner, kReserved, NATIVE_CONVERT_OWNER_OFFSET. intros.
  rewrite length_app, length_take, length_drop. lia.
Qed.

Lemma Write_whole h state p : whole state -> whole p -> whole (Write h state p).
Proof.
  unfold whole. intros Hs Hp. destruct (pState h) eqn:Ep, (isWritable h) eqn:Ew;
    try (by unfold Write; rewrite ?Ep, ?Ew).
  rewrite Write_spec by done. record.simp.
  apply length_copy_after; [done|by apply length_copy_before].
Qed.

Lemma owner_bytes_merge caller live :
  length caller = kReserved -> length live = kReserved ->
  owner_bytes (copy_after_owner caller (copy_before_owner caller live)) = owner_bytes live.
Proof.
  unfold kReserved, owner_bytes, copy_after_owner, copy_before_owner, NATIVE_CONVERT_OWNER_OFFSET.
  intros Hc Hl. set (l := take 5 caller ++ drop 5 live).
  assert (Hlen : length l = 1024%nat) by (unfold l; rewrite length_app, length_take, length_drop; lia).
  rewrite take_drop_commute, take_app_length' by (rewrite length_take; lia).
  rewrite <- take_drop_commute. unfold l. by rewrite drop_app_length' by (rewrite length_take; lia).
Qed.

(** A byte of the settings that is not the owner's comes from the caller. *)
Lemma nth_merge caller live i :
  length caller = kReserved -> length live = kReserved -> (i < 5 \/ 9 <= i < kReserved)%nat ->
  nth i (copy_after_owner caller (copy_before_owner caller live)) 0 = nth i caller 0.
Proof.
  unfold kReserved, copy_after_owner, copy_before_owner, NATIVE_CONVERT_OWNER_OFFSET.
  intros Hc Hl Hi. rewrite !nth_lookup. f_equal.
  destruct (decide (i < 9)%nat).
  - rewrite lookup_app_l by (rewrite length_take, length_app, length_take, length_drop; lia).
    rewrite lookup_take_lt, lookup_app_l by (rewrite ?length_take; lia). by rewrite lookup_take_lt by lia.
  - rewrite lookup_app_r by (rewrite length_take, length_app, length_take, length_drop; lia).
    rewrite lookup_drop, length_take, length_app, length_take, length_drop. f_equal. lia.
Qed.

(** What the text services own survives a write by anyone else. *)
Lemma Write_keeps_owned h state p :
  whole state -> whole p ->
  let p' := Write h state p in
  GetNativeConvertOwnerProcessId p' = GetNativeConvertOwnerProcessId p /\
  ss_contextAnchor p' = ss_contextAnchor p.
Proof.
  intros Hs Hp. cbv zeta. destruct (pState h) eqn:Ep, (isWritable h) eqn:Ew;
    try (by unfold Write; rewrite ?Ep, ?Ew).
  rewrite Write_spec by done. unfold GetNativeConvertOwnerProcessId. record.simp.
  by rewrite owner_bytes_merge.
Qed.

Lemma land1_even z : (Z.land z 1 =w 0) = negb (Z.odd z).
Proof.
  change 1 with (Z.ones 1). rewrite Z.land_ones by lia. change (2 ^ 1) with 2.
  rewrite Zmod_odd. by destruct (Z.odd z).
Qed.

(** A block at rest, as its readers may meet it. *)
Definition epoch_ok p : Prop := 0 <= ss_epoch p < 2 ^ 32.
Definition at_rest p : Prop := epoch_ok p /\ Z.even (ss_epoch p) = true.

Lemma ReadNow_at_rest h p :
  pState h = true -> ss_magic p = MAGIC_VALUE -> at_rest p -> ReadNow h p = p.
Proof.
  intros Hp Hm [_ He]. unfold ReadNow, Read. rewrite Hp, Hm. simpl.
  rewrite Z.eqb_refl, land1_even, <- Z.negb_even, He. done.
Qed.

Lemma u32_incr_range n : 0 <= u32_incr n < 2 ^ 32.
Proof. apply Z.mod_pos_bound. lia. Qed.

Lemma u32_incr_even n : 0 <= n < 2 ^ 32 -> Z.even (u32_incr n) = Z.odd n.
Proof.
  intros Hn. by rewrite <- Z.negb_odd, u32_incr_odd, <- Z.negb_odd, negb_involutive.
Qed.

Lemma Write_at_rest h state p : at_rest p -> at_rest (Write h state p).
Proof.
  intros [Hr He]. destruct (pState h) eqn:Ep, (isWritable h) eqn:Ew;
    try (by unfold Write; rewrite ?Ep, ?Ew).
  rewrite Write_spec by done. split; [apply u32_incr_range|]. record.simp.
  rewrite u32_incr_even by apply u32_incr_range. by rewrite u32_incr_odd.
Qed.

(** ** Creation publishes from any epoch, whatever a dead process left *)

Lemma lor_1 z : Z.lor z 1 = if Z.odd z then z else z + 1.
Proof.
  apply Z.bits_inj'. intros n Hn. rewrite Z.lor_spec.
  destruct (Z.odd z) eqn:Eo.
  - destruct (Z.eqb_spec n 0) as [->|].
    + by rewrite Z.bit0_odd, Eo.
    + rewrite (Z.bits_above_log2 1) by (simpl; lia). apply orb_false_r.
  - assert (E : z = 2 * (z / 2)).
    { rewrite <- Zdiv2_div. rewrite (Z.div2_odd z) at 1. rewrite Eo. simpl. lia. }
    destruct (Z.eqb_spec n 0) as [->|].
    + rewrite (Z.bit0_odd (z + 1)), Z.odd_add, Eo. by rewrite orb_true_r.
    + rewrite (Z.bits_above_log2 1) by (simpl; lia). rewrite orb_false_r.
      replace n with (Z.succ (n - 1)) by lia. rewrite E.
      rewrite Z.testbit_even_succ, Z.testbit_odd_succ by lia. done.
Qed.

Lemma Create_spec p :
  Create p = { InitDefaults with ss_epoch := u32_incr (Z.lor (ss_epoch p) 1) }.
Proof. by destruct p as [? ? ? ? ? ? ? ? [? ?]]. Qed.

Lemma Create_at_rest p : epoch_ok p -> at_rest (Create p).
Proof.
  intros Hr. rewrite Create_spec. split; [apply u32_incr_range|]. record.simp.
  rewrite lor_1. unfold epoch_ok in Hr. destruct (Z.odd (ss_epoch p)) eqn:Eo.
  - by rewrite u32_incr_even.
  - assert (ss_epoch p <> 2 ^ 32 - 1) by (intros E; by rewrite E in Eo).
    rewrite u32_incr_even, Z.odd_add, Eo by lia. done.
Qed.
