(* ===== verification/SettingsLock.v ===== *)
(** * The sequence lock of the settings (src/src/core/ipc/SharedStateManager.cpp)

    [Create] and [Write] store field after field between an odd and an even epoch;
    [Read] and [CheckAbiCompatibility] load field after field between two loads of
    the epoch.  The text services store the flags, the owner and the anchor at any
    time, outside the lock.  The steps are those stores and loads. *)

From S2P Require Import Prelude QuickConvert Config SharedState SharedStateManager.
From coqutil Require Import Datatypes.RecordSettersUsingExistingGetters.
Open Scope Z_scope.

Implicit Types (p : SharedState).

(** ** The fields under the lock *)

Inductive Field :=
  | FMagic | FVersion | FSize | FInputMethod | FSpellCheck | FOptimizeLevel
  | FFeature0 | FFeature1 | FExtFeature | FCodeTable
  | FHotkeyMods | FHotkeyKeyLo | FHotkeyKeyHi | FConvertMods | FConvertKeyLo | FConvertKeyHi
  | FConfigGeneration | FDiagFlags | FReserved (i : nat).

Definition load (f : Field) p : Z :=
  match f with
  | FMagic => ss_magic p | FVersion => ss_structVersion p | FSize => ss_structSize p
  | FInputMethod => ss_inputMethod p | FSpellCheck => ss_spellCheck p
  | FOptimizeLevel => ss_optimizeLevel p
  | FFeature0 => (ss_featureFlags p).1 | FFeature1 => (ss_featureFlags p).2
  | FExtFeature => ss_extFeatureFlags p | FCodeTable => ss_codeTable p
  | FHotkeyMods => ss_hotkeyMods p | FHotkeyKeyLo => ss_hotkeyKeyLo p
  | FHotkeyKeyHi => ss_hotkeyKeyHi p | FConvertMods => ss_convertMods p
  | FConvertKeyLo => ss_convertKeyLo p | FConvertKeyHi => ss_convertKeyHi p
  | FConfigGeneration => ss_configGeneration p | FDiagFlags => ss_diagFlags p
  | FReserved i => nth i (ss_reserved p) 0
  end.
(** Bytes 5 to 8 of the reserve are the owner's. *)
Definition locked (f : Field) : bool :=
  match f with FReserved i => (i <? 5)%nat || (9 <=? i)%nat | _ => true end.

(** ** The system: the block, the writers, one reader *)

Inductive Op := OpCreate | OpWrite (state : SharedState).
Definition op_stores (op : Op) p : list Store :=
  match op with OpCreate => CreateStores p | OpWrite state => WriteStores state p end.

Inductive ReaderPc :=
  | RIdle
  | RLoading (before : Z) (start : Z) (got : list (Field * Z)) (todo : list Field)
  | RDone (got : list (Field * Z))
  | RRetry.

(** What an operation is to leave in the fields under the lock. *)
Definition op_result (op : Op) : SharedState :=
  match op with OpCreate => InitDefaults | OpWrite state => state end.

(** [writer] and [other] are the stores that two processes still have to do.
    Ghosts: [count] is the epoch without wrap-around, [pending] what the writer at
    work is to publish, [published] what the last one that finished was to. *)
Record System := mkSystem {
  mem : SharedState; writer : list Store; other : list Store; reader : ReaderPc;
  count : Z; pending : SharedState; published : SharedState
}.
Implicit Types s : System.

Inductive DllStore := DllFlag (bit : Z) (on : bool) | DllOwner (pid : Z) | DllAnchor (a : HookContextAnchor).
Definition dll_store (d : DllStore) p : SharedState :=
  match d with
  | DllFlag bit on => { p with ss_flags ::= fun f => if on then Z.lor f bit else Z.land f (not32 bit) }
  | DllOwner pid => SetNativeConvertOwnerProcessId pid p
  | DllAnchor a => { p with ss_contextAnchor := a }
  end.

Inductive Event :=
  | Begin (op : Op)            (* the writer reads the epoch and stores the odd one *)
  | Next                       (* its next store *)
  | BeginOther (op : Op) | NextOther      (* a second writer *)
  | Dll (d : DllStore)         (* a text service *)
  | BeginRead (want : list Field) | Load | EndRead.

Definition begin (op : Op) s : SharedState * list Store :=
  match op_stores op (mem s) with f :: rest => (f (mem s), rest) | [] => (mem s, []) end.

Definition step (e : Event) s : option System :=
  match e with
  | Begin op =>
      match writer s with
      | [] => let '(m, rest) := begin op s in
              Some { s with mem := m; writer := rest; count ::= Z.succ;
                             pending := op_result op }
      | _ => None
      end
  | Next =>
      match writer s with
      | [f] => Some { s with mem ::= f; writer := []; count ::= Z.succ; published := pending s }
      | f :: rest => Some { s with mem ::= f; writer := rest }
      | [] => None
      end
  | BeginOther op =>
      match other s with
      | [] => let '(m, rest) := begin op s in Some { s with mem := m; other := rest }
      | _ => None
      end
  | NextOther =>
      match other s with f :: rest => Some { s with mem ::= f; other := rest } | [] => None end
  | Dll d => Some { s with mem ::= dll_store d }
  | BeginRead want =>
      match reader s with
      | RLoading _ _ _ _ => None
      | _ => Some { s with reader := RLoading (ss_epoch (mem s)) (count s) [] want }
      end
  | Load =>
      match reader s with
      | RLoading before start got (f :: todo) =>
          Some { s with reader := RLoading before start ((f, load f (mem s)) :: got) todo }
      | _ => None
      end
  | EndRead =>
      match reader s with
      | RLoading before start got [] =>
          Some { s with reader :=
            if (before =w ss_epoch (mem s)) && (Z.land before 1 =w 0) then RDone got else RRetry }
      | _ => None
      end
  end.

Fixpoint run (es : list Event) s : option System :=
  match es with
  | [] => Some s
  | e :: es => match step e s with Some s => run es s | None => None end
  end.

Definition start p : System := mkSystem p [] [] RIdle (ss_epoch p) p p.

(** One writer at a time, whole blocks, and readers that ask for what the lock
    covers. *)
Definition orderly (e : Event) : Prop :=
  match e with
  | BeginOther _ | NextOther => False
  | Begin (OpWrite state) => whole state
  | BeginRead want => Forall (fun f => locked f = true) want
  | _ => True
  end.

(** ** Stores that respect the lock *)

Definition agree p q : Prop := forall f, locked f = true -> load f p = load f q.
#[export] Instance agree_equiv : Equivalence agree.
Proof.
  split; [done|by intros p q H f Hf; rewrite H|].
  intros p q r H1 H2 f Hf. by rewrite H1, H2.
Qed.

(** It takes agreeing blocks to agreeing blocks. *)
Definition respects (f : Store) : Prop :=
  forall p q, whole p -> whole q -> agree p q -> whole (f p) /\ agree (f p) (f q).
Definition keeps_epoch (f : Store) : Prop := forall p, ss_epoch (f p) = ss_epoch p.
Definition inner (e : Z) (f : Store) : Prop :=
  respects f /\ (keeps_epoch f \/ f = set_epoch e).

Lemma nth_copy_before caller live i :
  length caller = kReserved -> length live = kReserved ->
  nth i (copy_before_owner caller live) 0 = if (i <? 5)%nat then nth i caller 0 else nth i live 0.
Proof.
  unfold copy_before_owner, kReserved, NATIVE_CONVERT_OWNER_OFFSET. intros Hc Hl.
  rewrite !nth_lookup. destruct (Nat.ltb_spec i 5); f_equal.
  - rewrite lookup_app_l by (rewrite length_take; lia). by rewrite lookup_take_lt.
  - rewrite lookup_app_r by (rewrite length_take; lia).
    rewrite lookup_drop, length_take. f_equal. lia.
Qed.
Lemma nth_copy_after caller live i :
  length caller = kReserved -> length live = kReserved ->
  nth i (copy_after_owner caller live) 0 = if (i <? 9)%nat then nth i live 0 else nth i caller 0.
Proof.
  unfold copy_after_owner, kReserved, NATIVE_CONVERT_OWNER_OFFSET. intros Hc Hl.
  rewrite !nth_lookup. destruct (Nat.ltb_spec i 9); f_equal.
  - rewrite lookup_app_l by (rewrite length_take; lia). by rewrite lookup_take_lt.
  - rewrite lookup_app_r by (rewrite length_take; lia).
    rewrite lookup_drop, length_take. f_equal. lia.
Qed.

Lemma respects_set_epoch e : respects (set_epoch e).
Proof. intros p q Hp Hq H. split; [done|]. intros f Hf. specialize (H f Hf). by destruct f. Qed.

(** A store of one field: the same value in any block. *)
Ltac store_respects :=
  let p := fresh "p" in let q := fresh "q" in let H := fresh "H" in
  intros p q ? ? H; split;
    [first [assumption|match goal with Hw : whole ?st |- _ => exact Hw end]|let f := fresh "f" in let Hf := fresh in intros f Hf; specialize (H f Hf); destruct f; simpl in *; first [reflexivity|assumption|congruence]].

Lemma respects_reserved (r : list Z) (g : list Z -> list Z -> list Z) :
  length r = kReserved -> (forall l, length l = kReserved -> length (g r l) = kReserved) ->
  (forall l l' i, length l = kReserved -> length l' = kReserved ->
     locked (FReserved i) = true -> nth i l 0 = nth i l' 0 -> nth i (g r l) 0 = nth i (g r l') 0) ->
  respects (fun p => { p with ss_reserved ::= g r }).
Proof.
  intros Hr Hg Hn p q Hp Hq H. split; [by apply Hg|].
  intros f Hf. specialize (H f Hf). destruct f; try exact H. by apply Hn.
Qed.

Lemma respects_before r :
  length r = kReserved -> respects (fun p => { p with ss_reserved ::= copy_before_owner r }).
Proof.
  intros Hr. apply respects_reserved; [done|by intros; apply length_copy_before|].
  intros l l' i Hl Hl' _ E. rewrite !nth_copy_before by done. by destruct (i <? 5)%nat.
Qed.
Lemma respects_after r :
  length r = kReserved -> respects (fun p => { p with ss_reserved ::= copy_after_owner r }).
Proof.
  intros Hr. apply respects_reserved; [done|by intros; apply length_copy_after|].
  intros l l' i Hl Hl' _ E. rewrite !nth_copy_after by done. by destruct (i <? 9)%nat.
Qed.

Lemma CopyStores_inner state e : whole state -> Forall (inner e) (CopyStores state).
Proof.
  intros Hw. unfold CopyStores.
  repeat (apply Forall_cons_2;
    [split; [first [apply respects_before, Hw|apply respects_after, Hw|store_respects]
            |by left]|]).
  constructor.
Qed.

Lemma AssignStores_inner state e :
  whole state -> ss_epoch state = e -> Forall (inner e) (AssignStores state).
Proof.
  intros Hw <-. unfold AssignStores.
  repeat (apply Forall_cons_2;
    [split; [first [apply respects_set_epoch|store_respects]|first [by left|by right]]|]).
  constructor.
Qed.

Lemma whole_InitDefaults : whole InitDefaults.
Proof. by vm_compute. Qed.

Lemma inner_set_magic e m : inner e (set_magic m).
Proof. split; [store_respects|by left]. Qed.

Lemma op_stores_shape op p :
  orderly (Begin op) -> at_rest p ->
  exists mid, let e := u32_incr (ss_epoch p) in
    op_stores op p = set_epoch e :: mid ++ [set_epoch (u32_incr e)] /\ Forall (inner e) mid.
Proof.
  intros Ho [Hr He]. destruct op as [|state]; simpl op_stores.
  - unfold CreateStores. cbv zeta.
    assert (El : Z.lor (ss_epoch p) 1 = u32_incr (ss_epoch p)).
    { rewrite lor_1, <- Z.negb_even, He. unfold u32_incr, epoch_ok in *. simpl.
      rewrite Z.mod_small; [done|]. assert (ss_epoch p <> 2 ^ 32 - 1) by (intros E; by rewrite E in He).
      lia. }
    rewrite El. set (e := u32_incr (ss_epoch p)).
    exists (set_magic 0 :: AssignStores { InitDefaults with ss_magic := 0; ss_epoch := e }
              ++ [set_magic MAGIC_VALUE]). split.
    { reflexivity. }
    apply Forall_cons_2; [apply inner_set_magic|]. apply Forall_app. split.
    + apply AssignStores_inner; [exact whole_InitDefaults|done].
    + apply Forall_cons_2; [apply inner_set_magic|constructor].
  - exists (CopyStores state). split; [done|]. by apply CopyStores_inner.
Qed.

Lemma do_stores_app l l' p : do_stores (l ++ l') p = do_stores l' (do_stores l p).
Proof. apply fold_left_app. Qed.

Lemma agree_epoch r e : agree { r with ss_epoch := e } r.
Proof. by intros [] ?. Qed.

(** The whole operation leaves what it is to publish, whatever was there. *)
Lemma op_stores_result op p :
  orderly (Begin op) -> whole p -> agree (do_stores (op_stores op p) p) (op_result op).
Proof.
  intros Ho Hw. destruct op as [|state]; simpl op_stores; simpl op_result.
  - change (do_stores (CreateStores p) p) with (Create p). rewrite Create_spec. apply agree_epoch.
  - assert (E : do_stores (WriteStores state p) p = Write (mkHandle true true) state p) by done.
    rewrite E, Write_spec by done. intros f Hf. destruct f; try done. unfold locked, load in *. record.simp.
    apply orb_true_iff in Hf.
    destruct (decide (i < kReserved)%nat) as [Hi|Hi].
    + apply nth_merge; [done|done|]. destruct Hf as [Hf%Nat.ltb_lt|Hf%Nat.leb_le]; [by left|by right].
    + assert (kReserved <= i)%nat by lia.
      simpl in Ho. unfold whole in *. rewrite !nth_overflow; [done|by rewrite Ho|].
      by rewrite length_copy_after by (by try apply length_copy_before).
Qed.

Lemma do_stores_respects l p q :
  Forall respects l -> whole p -> whole q -> agree p q ->
  whole (do_stores l p) /\ agree (do_stores l p) (do_stores l q).
Proof.
  intros Hl. revert p q. induction Hl as [|f l Hf Hl IH]; intros p q Hp Hq H; [done|].
  destruct (Hf p q Hp Hq H) as [H1 H2]. destruct (Hf q q Hq Hq) as [H3 _]; [done|]. by apply IH.
Qed.

(** What the text services store is outside the lock. *)
Lemma dll_store_respects d p : whole p ->
  whole (dll_store d p) /\ agree (dll_store d p) p /\ ss_epoch (dll_store d p) = ss_epoch p.
Proof.
  intros Hw. destruct d; simpl; [by split_and!; try (intros [] ?)| |by split_and!; try (intros [] ?)].
  unfold SetNativeConvertOwnerProcessId, whole in *. record.simp.
  assert (Hl : length (pid_bytes pid) = 4%nat) by done. unfold kReserved in *.
  split_and!; [|intros f Hf|done].
  - rewrite !length_app, length_take, length_drop, Hl. unfold NATIVE_CONVERT_OWNER_OFFSET. lia.
  - destruct f; try done. unfold locked, load in *. record.simp. rewrite !nth_lookup. f_equal.
    apply orb_true_iff in Hf. unfold NATIVE_CONVERT_OWNER_OFFSET.
    destruct Hf as [Hf%Nat.ltb_lt|Hf%Nat.leb_le].
    + rewrite lookup_app_l by (rewrite length_take; lia). by rewrite lookup_take_lt.
    + rewrite !lookup_app_r by (rewrite ?length_take, ?Hl; lia).
      rewrite lookup_drop, length_take, Hl. f_equal. lia.
Qed.

(** ** The invariant *)

Definition writer_inv s : Prop :=
  match writer s with
  | [] => Z.even (count s) = true /\ agree (mem s) (published s)
  | _ => Z.odd (count s) = true /\ agree (do_stores (writer s) (mem s)) (pending s) /\
         exists mid, writer s = mid ++ [set_epoch (u32_incr (ss_epoch (mem s)))] /\
           Forall (inner (ss_epoch (mem s))) mid
  end.

Definition reader_inv s : Prop :=
  match reader s with
  | RLoading before start got todo =>
      before = start mod 2 ^ 32 /\ start <= count s /\ Forall (fun f => locked f = true) todo /\
      (Z.even start = true -> start = count s ->
       Forall (fun '(f, v) => locked f = true /\ v = load f (mem s)) got)
  | _ => True
  end.

Definition lock_inv s : Prop :=
  ss_epoch (mem s) = count s mod 2 ^ 32 /\ 0 <= count s /\ whole (mem s) /\
  writer_inv s /\ reader_inv s.

Lemma mod_u32_even n : Z.even (n mod 2 ^ 32) = Z.even n.
Proof.
  rewrite (Z.div_mod n (2 ^ 32)) at 2 by lia.
  rewrite Z.even_add, Z.even_mul. change (Z.even (2 ^ 32)) with true. simpl orb.
  by destruct (Z.even (n mod 2 ^ 32)).
Qed.
Lemma u32_incr_mod n : u32_incr (n mod 2 ^ 32) = Z.succ n mod 2 ^ 32.
Proof. unfold u32_incr. by rewrite Zplus_mod_idemp_l. Qed.

(** A reader in the middle of its loads, after a store that leaves the fields. *)
Lemma reader_inv_frame s s' :
  reader s' = reader s -> count s' = count s -> agree (mem s') (mem s) ->
  reader_inv s -> reader_inv s'.
Proof.
  unfold reader_inv. intros -> -> Hm. destruct (reader s); try done.
  intros (? & ? & ? & H). split_and!; try done. intros He Ec. specialize (H He Ec).
  eapply List.Forall_impl; [|exact H]. intros [f v] [Hf ->]. split; [done|]. symmetry. by apply Hm.
Qed.

(** A reader whose count is behind, or odd. *)
Lemma reader_inv_moved s s' :
  reader s' = reader s -> count s <= count s' ->
  (count s < count s' \/ Z.odd (count s') = true) -> reader_inv s -> reader_inv s'.
Proof.
  unfold reader_inv. intros -> Hle Hd. destruct (reader s); try done.
  intros (? & ? & ? & H). split_and!; try done; [lia|]. intros He Ec. exfalso.
  destruct Hd as [Hd|Hd]; [lia|]. rewrite <- Ec, <- Z.negb_even, He in Hd. done.
Qed.

(** Field accesses of updated records, where there are any. *)
Ltac rsimp := try record.simp.

Lemma do_stores_cons f l p : do_stores (f :: l) p = do_stores l (f p).
Proof. done. Qed.

Lemma inner_epoch e f p : inner e f -> ss_epoch p = e -> ss_epoch (f p) = e.
Proof. intros [_ [Hk| ->]] <-; [by rewrite Hk|done]. Qed.

Lemma inner_respects e l : Forall (inner e) l -> Forall respects l.
Proof. intros H. eapply List.Forall_impl; [|exact H]. by intros f [? _]. Qed.

Lemma respects_whole f p : respects f -> whole p -> whole (f p).
Proof. intros Hf Hp. by destruct (Hf p p Hp Hp ltac:(done)). Qed.

Lemma count_at_rest s : lock_inv s -> Z.even (count s) = true -> at_rest (mem s).
Proof.
  intros (Hq & Hc & _) He. split; [unfold epoch_ok; rewrite Hq; apply Z.mod_pos_bound; lia|].
  by rewrite Hq, mod_u32_even.
Qed.

Lemma lock_inv_begin op s s' :
  orderly (Begin op) -> step (Begin op) s = Some s' -> lock_inv s -> lock_inv s'.
Proof.
  intros Ho H Hi. pose proof Hi as (Hq & Hc & Hw & Hwr & Hr). simpl in H.
  destruct (writer s) eqn:Ew; [|done]. unfold writer_inv in Hwr. rewrite Ew in Hwr.
  destruct Hwr as [Hev _]. pose proof (count_at_rest s Hi Hev) as Hrest.
  destruct (op_stores_shape op (mem s) Ho Hrest) as (mid & E & Hmid). cbv zeta in *.
  pose proof (op_stores_result op (mem s) Ho Hw) as Hres.
  unfold begin in H. rewrite E in H, Hres. injection H as <-. rsimp.
  split; [|split; [|split; [|split]]].
  - rsimp. cbn. by rewrite Hq, u32_incr_mod.
  - rsimp. lia.
  - exact Hw.
  - unfold writer_inv. rsimp.
    rewrite do_stores_cons in Hres.
    destruct (mid ++ _) eqn:El; [by destruct mid|].
    split; [by rewrite Z.odd_succ|]. split; [exact Hres|]. by exists mid.
  - apply (reader_inv_moved s); rsimp; [done|lia|left; lia|exact Hr].
Qed.

Lemma lock_inv_next s s' : step Next s = Some s' -> lock_inv s -> lock_inv s'.
Proof.
  intros H Hi. pose proof Hi as (Hq & Hc & Hw & Hwr & Hr). simpl in H.
  unfold writer_inv in Hwr. destruct (writer s) as [|f rest] eqn:Ew; [done|].
  destruct Hwr as (Hodd & Hag & mid & E & Hmid).
  destruct mid as [|f' mid]; simpl in E; injection E as -> ->.
  - injection H as <-. split; [|split; [|split; [|split]]]; rsimp.
    + cbn. by rewrite Hq, u32_incr_mod.
    + lia.
    + exact Hw.
    + unfold writer_inv. rsimp. by rewrite Z.even_succ.
    + apply (reader_inv_moved s); rsimp; [done|lia|left; lia|exact Hr].
  - assert (Hs : s' = { s with mem ::= f'; writer := mid ++ [set_epoch (u32_incr (ss_epoch (mem s)))] }).
    { destruct (mid ++ _) eqn:El; [by destruct mid|]. by injection H as <-. }
    subst s'. apply Forall_cons_1 in Hmid as [Hf Hmid].
    pose proof (inner_epoch _ _ (mem s) Hf eq_refl) as He. destruct Hf as [Hresp _].
    split; [|split; [|split; [|split]]]; rsimp.
    + by rewrite He.
    + done.
    + by apply respects_whole.
    + unfold writer_inv. rsimp. rewrite He.
      destruct (mid ++ _) eqn:El; [by destruct mid|].
      split; [done|]. split; [exact Hag|]. by exists mid.
    + apply (reader_inv_moved s); rsimp; [done|lia|by right|exact Hr].
Qed.

Lemma lock_inv_dll d s s' : step (Dll d) s = Some s' -> lock_inv s -> lock_inv s'.
Proof.
  intros H (Hq & Hc & Hw & Hwr & Hr). injection H as <-.
  destruct (dll_store_respects d (mem s) Hw) as (Hw' & Hag & He).
  split; [|split; [|split; [|split]]]; rsimp; [by rewrite He|done|done| |].
  - unfold writer_inv in *. rsimp. destruct (writer s) as [|f l] eqn:Ew.
    + destruct Hwr as [? Hp]. split; [done|]. by rewrite Hag.
    + destruct Hwr as (? & Hp & mid & E & Hmid). rewrite He. split_and!; [done| |by exists mid].
      assert (Hl : Forall respects (f :: l)).
      { rewrite E. apply Forall_app. split; [by eapply inner_respects|].
        apply Forall_cons_2; [apply respects_set_epoch|constructor]. }
      destruct (do_stores_respects _ _ _ Hl Hw' Hw Hag) as [_ Hl']. by rewrite Hl'.
  - apply (reader_inv_frame s); rsimp; done.
Qed.

Lemma lock_inv_step e s s' : orderly e -> step e s = Some s' -> lock_inv s -> lock_inv s'.
Proof.
  intros Ho H Hi. destruct e; try done;
    [by eapply lock_inv_begin|by eapply lock_inv_next|by eapply lock_inv_dll|..];
    destruct Hi as (Hq & Hc & Hw & Hwr & Hr); simpl in H.
  - assert (Hs : s' = { s with reader := RLoading (ss_epoch (mem s)) (count s) [] want })
      by (by destruct (reader s); simplify_eq). subst s'.
    split; [done|split; [done|split; [done|split; [exact Hwr|]]]]. unfold reader_inv. rsimp.
    split_and!; [done|lia|done|by constructor].
  - destruct (reader s) as [|b st got [|f todo]| |] eqn:Er; try done. injection H as <-.
    split; [done|split; [done|split; [done|split; [exact Hwr|]]]]. unfold reader_inv in *. rsimp. rewrite Er in Hr.
    destruct Hr as (? & ? & Ht & Hg). apply Forall_cons_1 in Ht as [Hf Ht].
    split_and!; try done. intros E1 E2. apply Forall_cons_2; [done|by apply Hg].
  - destruct (reader s) as [|b st got [|f todo]| |] eqn:Er; try done. injection H as <-.
    split; [done|split; [done|split; [done|split; [exact Hwr|]]]]. unfold reader_inv. rsimp. by destruct (_ && _).
Qed.

Lemma lock_inv_run es s s' :
  Forall orderly es -> run es s = Some s' -> lock_inv s -> lock_inv s'.
Proof.
  intros Ho. revert s. induction Ho as [|e es He Ho IH]; intros s H Hi; simpl in H; [by simplify_eq|].
  destruct (step e s) as [s1|] eqn:E; [|done]. apply (IH s1); [done|]. by eapply lock_inv_step.
Qed.

Lemma lock_inv_start p : whole p -> at_rest p -> lock_inv (start p).
Proof.
  intros Hw [Hr He]. unfold epoch_ok in Hr. split_and!; simpl; try done; [|lia].
  by rewrite Z.mod_small.
Qed.

(** ** What a validated read returns *)

Lemma done_is_published s s' before st got got' :
  lock_inv s -> reader s = RLoading before st got [] -> count s - st < 2 ^ 32 ->
  step EndRead s = Some s' -> reader s' = RDone got' ->
  got' = got /\ writer s = [] /\ s' = { s with reader := RDone got } /\
  Forall (fun '(f, v) => v = load f (published s)) got.
Proof.
  intros (Hq & Hc & Hw & Hwr & Hr) Er Hlt Hstep Hdone.
  simpl in Hstep. rewrite Er in Hstep. injection Hstep as <-. rsimp.
  unfold reader_inv in Hr. rewrite Er in Hr. destruct Hr as (Eb & Hle & _ & Hg).
  destruct ((before =w ss_epoch (mem s)) && (Z.land before 1 =w 0)) eqn:E; [|done].
  injection Hdone as <-. bool_hyps.
  assert (Hev : Z.even st = true).
  { rewrite <- mod_u32_even, <- Eb, <- Z.negb_odd. rewrite <- land1_even. lia. }
  assert (Est : st = count s).
  { assert (Em : st mod 2 ^ 32 = count s mod 2 ^ 32) by congruence.
    pose proof (Z.div_mod st (2 ^ 32) ltac:(lia)). pose proof (Z.div_mod (count s) (2 ^ 32) ltac:(lia)).
    assert (st / 2 ^ 32 = count s / 2 ^ 32) by (change (2 ^ 32) with 4294967296 in *; lia). lia. }
  unfold writer_inv in Hwr. destruct (writer s) eqn:Ew.
  - split_and!; [done|done|done|]. destruct Hwr as [_ Hag].
    eapply List.Forall_impl; [|by apply Hg]. intros [f v] [Hf ->]. by apply Hag.
  - destruct Hwr as [Hodd _]. rewrite <- Est, <- Z.negb_even, Hev in Hodd. done.
Qed.

(** C8. Settings arrive whole: on a block at rest, one writer at a time (creations of
    the block included), whatever a text service stores of its own in between, a read
    that validates returns of the last operation that finished each field it asked
    for, as long as fewer than 2^31 operations finish during the read.  The fields
    are those under the lock: not the flag word, the owner of the conversion keys and
    the anchor, which the services store beside it.  At rest means an even epoch, of
    a new block or one whose writers all finished; no writer dies on the way, for
    over a block left odd every later read fails ([write_after_death]). *)
Theorem settings_read_is_published p es s s' before st got got' :
  whole p -> at_rest p -> Forall orderly es -> run es (start p) = Some s ->
  reader s = RLoading before st got [] -> count s - st < 2 ^ 32 ->
  step EndRead s = Some s' -> reader s' = RDone got' ->
  writer s' = [] /\ Forall (fun '(f, v) => v = load f (published s')) got'.
Proof.
  intros Hp Hrest Ho Hrun Er Hlt Hstep Hdone.
  pose proof (lock_inv_run _ _ _ Ho Hrun (lock_inv_start p Hp Hrest)) as Hi.
  destruct (done_is_published _ _ _ _ _ _ Hi Er Hlt Hstep Hdone) as (-> & Hw & -> & H).
  done.
Qed.

(** A settings window writes another input method and spelling level. *)
Definition demo_state : SharedState := { InitDefaults with ss_inputMethod := 1; ss_spellCheck := 1 }.
Definition demo_events : list Event :=
  Begin (OpWrite demo_state) :: replicate 5 Next ++ [Dll (DllFlag TSF_TIP_ACTIVE true)] ++
  replicate 17 Next ++ [BeginRead [FInputMethod; FSpellCheck]; Load; Dll (DllOwner 7); Load].
Definition demo_system : System := default (start InitDefaults) (run demo_events (start InitDefaults)).
Definition demo_after : System := default demo_system (step EndRead demo_system).

Lemma settings_read_is_published_witness :
  Forall (fun '(f, v) => v = load f (published demo_after)) [(FSpellCheck, 1); (FInputMethod, 1)].
Proof.
  apply (settings_read_is_published InitDefaults demo_events demo_system demo_after 2 2
           [(FSpellCheck, 1); (FInputMethod, 1)]).
  - exact whole_InitDefaults.
  - split; [split; [by vm_compute|by vm_compute]|by vm_compute].
  - repeat (apply Forall_cons_2; [first [exact I|by vm_compute|by repeat constructor]|]). constructor.
  - vm_compute. reflexivity.
  - vm_compute. reflexivity.
  - vm_compute. reflexivity.
  - vm_compute. reflexivity.
  - vm_compute. reflexivity.
Defined.

(** ** The check of the layout *)

(** The three loads of [CheckAbiCompatibility] and its verdict. *)
Definition header_fields : list Field := [FMagic; FVersion; FSize].
Definition verdict (got : list (Field * Z)) : AbiCheckResult :=
  match got with
  | [(FSize, size); (FVersion, ver); (FMagic, magic)] =>
      abi_attempts 1 [(0, (magic, ver, size), 0)]
  | _ => Retry
  end.

Definition compatible p : Prop :=
  header_compatible (ss_magic p) (ss_structVersion p) (ss_structSize p) = true.
Definition op_compatible (e : Event) : Prop :=
  match e with Begin (OpWrite state) => compatible state | _ => True end.

Lemma published_compatible es : forall s s',
  Forall op_compatible es -> Forall orderly es -> run es s = Some s' ->
  compatible (published s) /\ (writer s <> [] -> compatible (pending s)) ->
  compatible (published s') /\ (writer s' <> [] -> compatible (pending s')).
Proof.
  induction es as [|e es IH]; intros s s' Hc Ho H Hi; simpl in H; [by simplify_eq|].
  apply Forall_cons_1 in Hc as [He Hc]. apply Forall_cons_1 in Ho as [Hoe Ho].
  destruct (step e s) as [s1|] eqn:E; [|done]. apply (IH s1); try done.
  destruct Hi as [Hp Hpend]. destruct e; simpl in E; try done.
  - destruct (writer s); [|done]. destruct (begin op s) as [m rest] eqn:Eb. injection E as <-. rsimp.
    split; [done|]. intros _. by destruct op.
  - destruct (writer s) as [|f [|f' rest]]; [done|injection E as <-..]; rsimp; split; try done;
      intros; by apply Hpend.
  - by injection E as <-.
  - destruct (reader s); try done; by injection E as <-.
  - destruct (reader s) as [|? ? ? [|]| |]; try done; by injection E as <-.
  - destruct (reader s) as [|? ? ? [|]| |]; try done; by injection E as <-.
Qed.

(** No false alarm: while every creation and every write publishes a header of
    this layout, a text service whose check of the layout gets a stable read finds
    it compatible, in the middle of whatever restart of the main process. *)
Theorem abi_check_no_false_alarm p es s s' before st got got' :
  whole p -> at_rest p -> compatible p -> Forall orderly es -> Forall op_compatible es ->
  run es (start p) = Some s ->
  reader s = RLoading before st got [] -> count s - st < 2 ^ 32 -> map fst got = rev header_fields ->
  step EndRead s = Some s' -> reader s' = RDone got' -> verdict got' = Compatible.
Proof.
  intros Hp Hrest Hcp Ho Hoc Hrun Er Hlt Hf Hstep Hdone.
  pose proof (lock_inv_run _ _ _ Ho Hrun (lock_inv_start p Hp Hrest)) as Hi.
  destruct (done_is_published _ _ _ _ _ _ Hi Er Hlt Hstep Hdone) as (-> & _ & _ & H).
  assert (Hpub : compatible (published s)) by (eapply published_compatible; [exact Hoc| |exact Hrun|]; done).
  destruct got as [|[f1 v1] [|[f2 v2] [|[f3 v3] [|]]]]; simplify_eq/=.
  repeat (apply Forall_cons_1 in H as [-> H]). simpl. unfold compatible in Hpub. by rewrite Hpub.
Qed.

Definition demo_restart : list Event :=
  BeginRead header_fields :: Load :: Begin OpCreate :: replicate 10 Next ++ [Load; Load; EndRead] ++
  replicate 14 Next ++ [BeginRead header_fields; Load; Dll (DllFlag TSF_ABI_MISMATCH true); Load; Load].
Definition demo_restarted : System :=
  default (start InitDefaults) (run demo_restart (start InitDefaults)).
Definition demo_header : list (Field * Z) :=
  [(FSize, sizeof_SharedState); (FVersion, CURRENT_VERSION); (FMagic, MAGIC_VALUE)].

Lemma abi_check_no_false_alarm_witness : verdict demo_header = Compatible.
Proof.
  apply (abi_check_no_false_alarm InitDefaults demo_restart demo_restarted
           (default demo_restarted (step EndRead demo_restarted)) 2 2 demo_header).
  - exact whole_InitDefaults.
  - split; [split; [by vm_compute|by vm_compute]|by vm_compute].
  - by vm_compute.
  - repeat (apply Forall_cons_2; [first [exact I|by repeat constructor]|]). constructor.
  - repeat (apply Forall_cons_2; [exact I|]). constructor.
  - vm_compute. reflexivity.
  - vm_compute. reflexivity.
  - vm_compute. reflexivity.
  - reflexivity.
  - vm_compute. reflexivity.
  - vm_compute. reflexivity.
Defined.

(** ** Two writers at once

    The epoch is read and stored without a lock between writers.  The main process
    and a settings window both write; the second to begin makes the epoch even
    while both are still storing, and a reader takes half of one for a stable
    block: the new input method with the old spelling level, which neither wrote. *)
Definition two_writers : list Event :=
  Begin (OpWrite demo_state) :: replicate 5 Next ++ [BeginOther (OpWrite InitDefaults)] ++
  [BeginRead [FInputMethod; FSpellCheck]; Load; Load; EndRead].

Lemma two_writers_torn :
  reader <$> run two_writers (start InitDefaults) = Some (RDone [(FSpellCheck, 0); (FInputMethod, 1)]) /\
  (ss_inputMethod InitDefaults, ss_spellCheck InitDefaults) = (0, 0) /\
  (ss_inputMethod demo_state, ss_spellCheck demo_state) = (1, 1).
Proof. split; [vm_compute; reflexivity|done]. Qed.

(** ** A writer that died

    The next write inverts the parity: what it leaves looks busy, and every read
    after it fails, until the block is created again. *)
Lemma write_after_death h p :
  pState h = true -> isWritable h = true -> epoch_ok p -> Z.odd (ss_epoch p) = true ->
  forall state, Z.odd (ss_epoch (Write h state p)) = true /\
    forall h', ReadNow h' (Write h state p) = zero_state.
Proof.
  intros Hp Hw Hr Ho state.
  assert (E : Z.odd (ss_epoch (Write h state p)) = true).
  { rewrite Write_spec by done. rsimp.
    rewrite u32_incr_odd by apply u32_incr_range. by rewrite u32_incr_even. }
  split; [done|]. intros h'. unfold ReadNow, Read. destruct (_ || _); [done|].
  cbn [read_attempts SEQLOCK_MAX_RETRIES]. rewrite land1_even, E. by rewrite andb_false_r.
Qed.
