(* ===== verification/ConvertRoute.v ===== *)
(** * Who handles the conversion key (SharedStateManager.cpp,
      PublishNativeConvertCapability; HookEngine.cpp, ShouldUseNativeQuickConvert;
      HotkeyWiring.cpp, PublishConvertConfig)

    A text service that has registered the conversion key publishes its process as
    the owner and raises a flag; it lowers the flag and gives the ownership up when
    it loses the focus.  Several text services, the main process and the settings
    windows store into the two words at any time.  The hook lets the key through to
    the foreground process when the flag is up and the owner is that process. *)

From S2P Require Import Prelude QuickConvert Config SharedState SharedStateManager.
From coqutil Require Import Datatypes.RecordSettersUsingExistingGetters.
From stdpp Require Import gmap.
Open Scope Z_scope.

Implicit Types (p : SharedState) (pid : Z).

(** ** The steps of one process *)

(** Where a process is in its calls: between two of them it is published or
    withdrawn. *)
Inductive Pc := Withdrawn | Publishing | Published | Withdrawing | Releasing.
#[export] Instance Pc_eq_dec : EqDecision Pc.
Proof. solve_decision. Defined.

(** [loaded] is the flag word that a write in progress has read and not yet
    stored back, with what its caller wants of the others. *)
Record System := mkSystem { mem : SharedState; pcs : gmap Z Pc; loaded : option (Z * Z) }.
Implicit Types s : System.

Definition pc s pid : Pc := default Withdrawn (pcs s !! pid).
Definition owner p : Z := GetNativeConvertOwnerProcessId p.
Definition goto pid (c : Pc) (m : SharedState) s : System :=
  { s with mem := m; pcs ::= <[pid := c]> }.

Definition flag_on p : SharedState := { p with ss_flags ::= fun f => Z.lor f TSF_NATIVE_CONVERT_READY }.
Definition flag_off p : SharedState :=
  { p with ss_flags ::= fun f => Z.land f (not32 TSF_NATIVE_CONVERT_READY) }.

Inductive Event :=
  | Publish pid          (* (pid, true): the owner is exchanged ... *)
  | Raise pid            (* ... and the flag raised *)
  | Withdraw pid         (* (pid, false): the owner is compared ... *)
  | Lower pid            (* ... the flag lowered ... *)
  | Release pid          (* ... and the ownership given up, if it is still there *)
  | WriteLoad (state : SharedState) | WriteStore     (* Write: the flags, read and stored *)
  | WriteRest (state : SharedState)                  (* the copies around the owner *)
  | ClearReady                                       (* SetOrClearFlag(ready, false) *)
  | Recreate.                                        (* Create *)

Definition step (e : Event) s : option System :=
  match e with
  | Publish pid =>
      match pc s pid with
      | Withdrawn | Published =>
          if pid =w 0 then Some s
          else Some (goto pid Publishing (SetNativeConvertOwnerProcessId pid (mem s)) s)
      | _ => None
      end
  | Raise pid =>
      match pc s pid with
      | Publishing => Some (goto pid Published (flag_on (mem s)) s)
      | _ => None
      end
  | Withdraw pid =>
      match pc s pid with
      | Withdrawn | Published =>
          if pid =w 0 then Some s
          else if owner (mem s) <>w pid then Some (goto pid Withdrawn (mem s) s)
          else Some (goto pid Withdrawing (mem s) s)
      | _ => None
      end
  | Lower pid =>
      match pc s pid with
      | Withdrawing => Some (goto pid Releasing (flag_off (mem s)) s)
      | _ => None
      end
  | Release pid =>
      match pc s pid with
      | Releasing =>
          let m := if owner (mem s) =w pid then SetNativeConvertOwnerProcessId 0 (mem s) else mem s in
          Some (goto pid Withdrawn m s)
      | _ => None
      end
  | WriteLoad state =>
      match loaded s with
      | None => Some { s with loaded := Some (ss_flags state, ss_flags (mem s)) }
      | Some _ => None
      end
  | WriteStore =>
      match loaded s with
      | Some (caller, live) =>
          Some { s with mem ::= (fun p => { p with ss_flags := merge_flags caller live });
                        loaded := None }
      | None => None
      end
  | WriteRest state =>
      Some { s with mem ::= fun p => { p with ss_reserved ::=
        fun live => copy_after_owner (ss_reserved state)
                      (copy_before_owner (ss_reserved state) live) } }
  | ClearReady => Some { s with mem ::= flag_off }
  | Recreate => Some { s with mem ::= Create }
  end.

Fixpoint run (es : list Event) s : option System :=
  match es with
  | [] => Some s
  | e :: es => match step e s with Some s => run es s | None => None end
  end.

(** [ShouldUseNativeQuickConvert], for the process that has the foreground. *)
Definition ShouldUseNativeQuickConvert (isTsfApp : bool) (foreground : Z) p : bool :=
  let ownerPid := owner p in
  match DecideQuickConvertBackend isTsfApp
          (has_flag (ss_flags p) TSF_NATIVE_CONVERT_READY && (ownerPid <>w 0) &&
           (ownerPid =w foreground)) with
  | TsfNative => true
  | HookClipboard => false
  end.

(** [PublishConvertConfig]: the flag is dropped on both sides of the write. *)
Definition PublishConvertConfig (h : Handle) (config : ConvertConfig) p : SharedState :=
  let p := SetOrClearFlag h TSF_NATIVE_CONVERT_READY false p in
  let state := ReadNow h p in
  if negb (IsValid state) then p
  else SetOrClearFlag h TSF_NATIVE_CONVERT_READY false (Write h (SetConvertConfig config state) p).

(** Process ids are 32-bit words and writers hand whole blocks over. *)
Definition proper (e : Event) : Prop :=
  match e with
  | Publish pid => 0 <= pid < 2 ^ 32
  | WriteRest state => whole state
  | _ => True
  end.

(** ** The owner is never a process that withdrew *)

Definition route_inv s : Prop :=
  whole (mem s) /\ (owner (mem s) <> 0 -> pc s (owner (mem s)) <> Withdrawn).

Lemma mem_goto pid c m s : mem (goto pid c m s) = m.
Proof. done. Qed.

Lemma pc_goto pid c m s pid' : pc (goto pid c m s) pid' = if decide (pid = pid') then c else pc s pid'.
Proof.
  unfold pc, goto. record.simp. case_decide as E; [by rewrite E, lookup_insert_eq|].
  by rewrite lookup_insert_ne.
Qed.

Lemma whole_set_owner z p : whole p -> whole (SetNativeConvertOwnerProcessId z p).
Proof.
  unfold whole, SetNativeConvertOwnerProcessId, kReserved, NATIVE_CONVERT_OWNER_OFFSET.
  record.simp. intros H. rewrite !length_app, length_take, length_drop.
  change (length (pid_bytes z)) with 4%nat. lia.
Qed.

Lemma owner_Create p : owner (Create p) = 0.
Proof. by rewrite Create_spec. Qed.
Lemma whole_Create p : whole (Create p).
Proof. rewrite Create_spec. by vm_compute. Qed.

Lemma route_inv_keep s s' :
  whole (mem s') -> owner (mem s') = owner (mem s) -> (forall pid, pc s' pid = pc s pid) ->
  route_inv s -> route_inv s'.
Proof. intros Hw Ho Hp [_ H]. split; [done|]. by rewrite Ho, Hp. Qed.

(** A process moves on, the owner staying: it does not become withdrawn unless it
    is not the owner. *)
Lemma route_inv_goto pid c m s :
  whole m -> owner m = owner (mem s) -> (c = Withdrawn -> owner m <> pid) ->
  route_inv s -> route_inv (goto pid c m s).
Proof.
  intros Hw Ho Hc [_ H]. split; [done|]. rewrite !mem_goto. intros Hz.
  rewrite pc_goto. case_decide as E; [subst pid; intros ->; by apply Hc|].
  rewrite Ho in *. by apply H.
Qed.

Lemma route_inv_step e s s' : proper e -> step e s = Some s' -> route_inv s -> route_inv s'.
Proof.
  intros Hok Hs Hi. pose proof Hi as [Hw Ho]. destruct e as [pid|pid|pid|pid|pid|state| |state| |];
    simpl in Hs.
  - assert (Hs' : s' = s \/ s' = goto pid Publishing (SetNativeConvertOwnerProcessId pid (mem s)) s)
      by (destruct (pc s pid), (pid =w 0); simplify_eq; auto).
    destruct Hs' as [->| ->]; [done|]. split; [by apply whole_set_owner|].
    rewrite !mem_goto. unfold owner. rewrite GetSetNativeConvertOwner by done.
    intros _. rewrite pc_goto. by rewrite decide_True.
  - destruct (pc s pid) eqn:Ep; simplify_eq. by apply route_inv_goto.
  - assert (Hs' : s' = s \/ s' = goto pid Withdrawn (mem s) s /\ owner (mem s) <> pid \/
                  s' = goto pid Withdrawing (mem s) s).
    { destruct (pc s pid), (pid =w 0); simplify_eq; auto;
        destruct (Z.eqb_spec (owner (mem s)) pid); simplify_eq/=; auto. }
    destruct Hs' as [->|[[-> Hne]| ->]]; [done|by apply route_inv_goto|by apply route_inv_goto].
  - destruct (pc s pid) eqn:Ep; simplify_eq. by apply route_inv_goto.
  - destruct (pc s pid) eqn:Ep; simplify_eq. destruct (Z.eqb_spec (owner (mem s)) pid) as [E|E].
    + split; [by apply whole_set_owner|]. rewrite mem_goto. unfold owner.
      by rewrite GetSetNativeConvertOwner by done.
    + by apply route_inv_goto.
  - destruct (loaded s); simplify_eq. by apply (route_inv_keep s).
  - destruct (loaded s) as [[caller live]|]; simplify_eq. by apply (route_inv_keep s).
  - simplify_eq. apply (route_inv_keep s); [|unfold owner, GetNativeConvertOwnerProcessId|done|done];
      record.simp; [|by rewrite owner_bytes_merge].
    apply length_copy_after; [done|by apply length_copy_before].
  - simplify_eq. by apply (route_inv_keep s).
  - simplify_eq. split; [apply whole_Create|]. record.simp. by rewrite owner_Create.
Qed.

Definition start : System := mkSystem InitDefaults ∅ None.

Lemma route_inv_run es : forall s s',
  Forall proper es -> run es s = Some s' -> route_inv s -> route_inv s'.
Proof.
  induction es as [|e es IH]; intros s s' Hok H Hi; simpl in H; [by simplify_eq|].
  apply Forall_cons_1 in Hok as [He Hok]. destruct (step e s) as [s1|] eqn:E; [|done].
  apply (IH s1); [done|done|]. by eapply route_inv_step.
Qed.

(** C39. The conversion key is never lost to a process that gave it up: whatever text
    services publish and withdraw, settings are written and the block is created
    again, in any interleaving of the stores (the flag word read and stored back by
    a write included), a key the hook lets through to the foreground process goes
    to one that has published itself and not finished withdrawing. *)
Theorem native_route_is_willing es s isTsfApp foreground :
  Forall proper es -> run es start = Some s ->
  ShouldUseNativeQuickConvert isTsfApp foreground (mem s) = true ->
  pc s foreground <> Withdrawn.
Proof.
  intros Hok Hrun Hs.
  assert (Hi : route_inv s).
  { eapply route_inv_run; [done|done|]. split; [by vm_compute|]. intros H. exfalso. by apply H. }
  unfold ShouldUseNativeQuickConvert, DecideQuickConvertBackend in Hs.
  destruct (isTsfApp && _) eqn:E; [|done]. destruct Hi as [_ Hi].
  apply andb_true_iff in E as [_ E]. apply andb_true_iff in E as [E Ef].
  apply andb_true_iff in E as [_ Ez]. apply Z.eqb_eq in Ef as <-.
  by apply Hi, Z.eqb_neq, negb_true_iff.
Qed.

(** Two hosts change places while a setting is written: the write puts the flag the
    first one has lowered up again, and the second one takes it over. *)
Definition demo_events : list Event :=
  [Publish 41; Raise 41; WriteLoad InitDefaults; Withdraw 41; Publish 42; Lower 41; WriteStore;
   Release 41; Raise 42; WriteRest InitDefaults].

Lemma native_route_is_willing_witness :
  Forall proper demo_events /\
  ShouldUseNativeQuickConvert true 42 (mem (default start (run demo_events start))) = true /\
  pc (default start (run demo_events start)) 42 <> Withdrawn.
Proof.
  split; [|split].
  - repeat (apply Forall_cons_2; [first [exact I|by vm_compute]|]). constructor.
  - vm_compute. reflexivity.
  - apply (native_route_is_willing demo_events _ true 42).
    + repeat (apply Forall_cons_2; [first [exact I|by vm_compute]|]). constructor.
    + vm_compute. reflexivity.
    + vm_compute. reflexivity.
Defined.
