(* ===== verification/SettingsSync.v ===== *)
(** * Settings on their way from a window to the hook
      (SettingsDialog.cpp, main.cpp; HookEngine.cpp, QuickSyncFromSharedState,
      ReloadFromToml)

    A settings window packs its configuration into the shared block at once and
    saves the file up to thirty seconds later.  The hook compares the epoch before
    each key; off the hook's thread it decodes the block, and reloads the file when
    the generation has moved. *)

From S2P Require Import Prelude QuickConvert Config SharedState SharedStateManager.
From coqutil Require Import Datatypes.RecordSettersUsingExistingGetters.
Open Scope Z_scope.

(** ** Enumerations as bytes *)

Definition byte_of_method (m : InputMethod) : Z :=
  match m with Telex => 0 | VNI => 1 | SimpleTelex => 2 | Combined => 3 | UserDefined => 4 end.
(** The casts back; no writer stores another byte. *)
Definition method_of_byte (z : Z) : InputMethod :=
  if z =w 1 then VNI else if z =w 2 then SimpleTelex else if z =w 3 then Combined
  else if z =w 4 then UserDefined else Telex.
Definition byte_of_table (t : CodeTable) : Z :=
  match t with
  | Unicode => 0 | TCVN3 => 1 | VNIWindows => 2 | UnicodeCompound => 3 | VietnameseLocale => 4
  end.
Definition table_of_byte (z : Z) : CodeTable :=
  if z =w 1 then TCVN3 else if z =w 2 then VNIWindows else if z =w 3 then UnicodeCompound
  else if z =w 4 then VietnameseLocale else Unicode.
Definition byte_of_level (l : SpellCheckLevel) : Z :=
  match l with LevelOff => 0 | LevelStandard => 1 | LevelAdvanced => 2 end.
Definition level_of_byte (z : Z) : SpellCheckLevel :=
  if z =w 0 then LevelOff else if z =w 2 then LevelAdvanced else LevelStandard.

Lemma method_roundtrip m : method_of_byte (byte_of_method m) = m.
Proof. by destruct m. Qed.
Lemma table_roundtrip t : table_of_byte (byte_of_table t) = t.
Proof. by destruct t. Qed.
Lemma level_roundtrip l : level_of_byte (byte_of_level l) = l.
Proof. by destruct l. Qed.

Definition with_level (l : SpellCheckLevel) (c : TypingConfig) : TypingConfig :=
  let '(check, suggest) := SetSpellCheckLevel l in
  { c with spellCheckEnabled := check; spellSuggestEnabled := suggest }.

(** ** The writers *)

Definition PackConfig (config : TypingConfig) (state : SharedState) : SharedState :=
  SetFeatureFlags (EncodeFeatureFlags config)
    { state with ss_inputMethod := byte_of_method (inputMethod config);
                 ss_spellCheck := byte_of_level (GetSpellCheckLevel config);
                 ss_codeTable := byte_of_table (codeTable config) }.
Definition diag_of (config : TypingConfig) : Z :=
  if perfHistogramEnabled config then PERF_HISTOGRAM else 0.

(** wWinMain, hook engine mode. *)
Definition StartHookMode (config : TypingConfig) (hotkey : HotkeyConfig) (startVietnamese : bool)
    (p : SharedState) : SharedState :=
  let p := Create p in
  let state := PackConfig config { InitDefaults with ss_optimizeLevel := optimizeLevel config } in
  let state := { state with ss_diagFlags := diag_of config;
                 ss_flags ::= fun f => if startVietnamese then f else Z.land f (not32 VIETNAMESE_MODE) } in
  Write (mkHandle true true) (SetHotkey hotkey state) p.

Definition next_generation (g : Z) : Z := (g + 1) mod 2 ^ 8.

Definition syncToSharedState (h : Handle) (config : TypingConfig) (hotkey : HotkeyConfig)
    (p : SharedState) : SharedState :=
  if negb (connected h p) then p
  else
    let state := ReadNow h p in
    if negb (IsValid state) then p
    else
      let state := SetHotkey hotkey (PackConfig config state) in
      Write h { state with ss_configGeneration ::= next_generation } p.

(** The shared part of ApplyConfigChange, after the file is saved. *)
Definition ApplyConfigChange (h : Handle) (config : TypingConfig) (p : SharedState) : SharedState :=
  if negb (ss_magic p =w MAGIC_VALUE) then p
  else
    let state := ReadNow h p in
    if negb (IsValid state) then p
    else
      let state := PackConfig config state in
      Write h { state with ss_diagFlags := diag_of config; ss_configGeneration ::= next_generation } p.

(** The end of saveToToml. *)
Definition BumpGeneration (h : Handle) (p : SharedState) : SharedState :=
  if negb (connected h p) then p
  else
    let state := ReadNow h p in
    if negb (IsValid state) then p
    else Write h { state with ss_configGeneration ::= next_generation } p.

(** ** The hook *)

(** The atomics of the hook that hold settings; [configApplyPosted_] is whether the
    hook's thread was told to rebuild its engine. *)
Record HookSettings := mkHookSettings {
  lastEpoch_ : Z; lastConfigGeneration_ : Z; lastToggleHotkey_ : HotkeyConfig;
  lastFeatureFlags_ : Z; lastSpellCheck_ : Z; lastInputMethod_ : Z; lastCodeTable_ : Z;
  config_ : TypingConfig; currentMethod_ : InputMethod;
  currentCodeTable_ : CodeTable; globalCodeTable_ : CodeTable;
  perfHistogram_ : bool; configApplyPosted_ : bool
}.
Implicit Types s : HookSettings.

(** The configuration the hook makes of a block, over one it has. *)
Definition DecodeConfig (state : SharedState) (c : TypingConfig) : TypingConfig :=
  with_level (level_of_byte (ss_spellCheck state))
    { DecodeFeatureFlags (GetFeatureFlags state) c with
        inputMethod := method_of_byte (ss_inputMethod state) }.

(** [toml] is the file as ConfigManager::LoadOrDefault reads it, [appTable] the code
    table of the application in front when it has one of its own. *)
Definition ReloadFromToml (toml : TypingConfig) (appTable : option CodeTable)
    (state : SharedState) s : HookSettings :=
  let config := if IsValid state then DecodeConfig state toml else toml in
  { s with config_ := config;
           currentCodeTable_ := default (codeTable config) appTable;
           globalCodeTable_ := codeTable config;
           configApplyPosted_ := true }.

(** The decoded configuration is published; a new method has the engine rebuilt. *)
Definition PublishConfig (cfg : TypingConfig) s : HookSettings :=
  let methodChanged := currentMethod_ s != inputMethod cfg in
  let codeTableChanged := currentCodeTable_ s != codeTable cfg in
  let s := { s with config_ := cfg } in
  let s := if methodChanged then { s with configApplyPosted_ := true } else s in
  if codeTableChanged
  then { s with currentCodeTable_ := codeTable cfg; globalCodeTable_ := codeTable cfg } else s.

(** The part after the toggle hotkey, off the hook's thread; the macro table is
    rebuilt after it when its switch has moved ([MacroReload]). *)
Definition SyncFields (state : SharedState) s : HookSettings :=
  let ff := GetFeatureFlags state in
  let sc := ss_spellCheck state in
  let im := ss_inputMethod state in
  let ct := ss_codeTable state in
  if (ff =w lastFeatureFlags_ s) && (sc =w lastSpellCheck_ s) && (im =w lastInputMethod_ s) &&
     (ct =w lastCodeTable_ s)
  then s
  else
    PublishConfig { DecodeConfig state (config_ s) with codeTable := table_of_byte ct }
      { s with lastFeatureFlags_ := ff; lastSpellCheck_ := sc;
               lastInputMethod_ := im; lastCodeTable_ := ct }.

Definition QuickSyncFromSharedState (h : Handle) (onHookThread : bool) (toml : TypingConfig)
    (appTable : option CodeTable) (p : SharedState) s : HookSettings :=
  let epoch := ReadEpoch h p in
  if (epoch =w lastEpoch_ s) && (Z.land epoch 1 =w 0) then s
  else if onHookThread then s                  (* the worker is signalled *)
  else
    let state := ReadNow h p in
    if negb (IsValid state) then s
    else
      let s := { s with lastEpoch_ := ss_epoch state;
                        perfHistogram_ := has_flag (ss_diagFlags state) PERF_HISTOGRAM } in
      let s := if ss_configGeneration state <>w lastConfigGeneration_ s
               then ReloadFromToml toml appTable state
                      { s with lastConfigGeneration_ := ss_configGeneration state }
               else s in
      let s := { s with lastToggleHotkey_ := GetHotkey state } in
      SyncFields state s.

(** ** What is packed is what is unpacked *)

(** What the block carries of a configuration. *)
Definition carried (from onto : TypingConfig) : TypingConfig :=
  DecodeFeatureFlags (EncodeFeatureFlags from)
    (with_level (GetSpellCheckLevel from) { onto with inputMethod := inputMethod from }).

Lemma carried_self c : (spellSuggestEnabled c = true -> spellCheckEnabled c = true) -> carried c c = c.
Proof.
  intros H. unfold carried.
  assert (E : with_level (GetSpellCheckLevel c) { c with inputMethod := inputMethod c } = c).
  { destruct c. unfold GetSpellCheckLevel, with_level, SetSpellCheckLevel. cbn in *.
    destruct spellCheckEnabled, spellSuggestEnabled; cbn; try done. by specialize (H eq_refl). }
  rewrite E. apply DecodeEncodeFeatureFlags.
Qed.

Lemma DecodeConfig_PackConfig c d state : DecodeConfig (PackConfig c state) d = carried c d.
Proof.
  unfold DecodeConfig, PackConfig. rewrite GetSetFeatureFlags by apply EncodeFeatureFlags_bound.
  unfold SetFeatureFlags, carried. record.simp. rewrite level_roundtrip, method_roundtrip.
  unfold with_level. destruct (SetSpellCheckLevel _). done.
Qed.

(** Only these fields of the block matter to the decoding. *)
Lemma DecodeConfig_ext st st' d :
  ss_spellCheck st = ss_spellCheck st' -> ss_inputMethod st = ss_inputMethod st' ->
  GetFeatureFlags st = GetFeatureFlags st' -> DecodeConfig st d = DecodeConfig st' d.
Proof. unfold DecodeConfig. by intros -> -> ->. Qed.

Lemma has_flag_Encode c bit k :
  0 <= k -> bit = 2 ^ k -> has_flag (EncodeFeatureFlags c) bit = Z.testbit (EncodeFeatureFlags c) k.
Proof. intros Hk ->. by apply has_flag_pow2. Qed.

(** The switches a window has and the hook follows, each by its name. *)
Definition switches (c : TypingConfig) : list bool := [
  modernOrtho c; autoCaps c; allowZwjf c; autoRestoreEnabled c; cjkAutoSwitch c;
  escRestoreRawEnabled c; beepOnSwitch c; macroEnabled c; macroInEnglish c; quickConsonant c;
  quickStartConsonant c; quickEndConsonant c; smartSwitch c; excludeApps c; autoCapsMacro c;
  macroTitleCase c; allowEnglishBypass c; debugLogEnabled c; suggestKeepChars c;
  hidePreeditUnderline c; macroUndoOnBackspace c ].

Lemma switches_decoded c d : switches (DecodeFeatureFlags (EncodeFeatureFlags c) d) = switches c.
Proof.
  unfold switches at 1, DecodeFeatureFlags. record.simp.
  repeat match goal with |- context [has_flag (EncodeFeatureFlags c) ?bit] =>
    let k := eval vm_compute in (Z.log2 bit) in
    rewrite (has_flag_Encode c bit k ltac:(lia) eq_refl), testbit_EncodeFeatureFlags; simpl;
    rewrite ?orb_false_r
  end.
  reflexivity.
Qed.

(** [c] has the method, the spelling level and the switches of [d]; the advanced
    level counts only where spelling is checked at all. *)
Definition shares (c d : TypingConfig) : Prop :=
  inputMethod c = inputMethod d /\ spellCheckEnabled c = spellCheckEnabled d /\
  spellSuggestEnabled c = (spellCheckEnabled d && spellSuggestEnabled d) /\
  switches c = switches d.

Lemma shares_carried c d : shares (carried c d) c.
Proof.
  split_and!; [| | |apply switches_decoded];
    unfold carried, DecodeFeatureFlags, with_level, SetSpellCheckLevel, GetSpellCheckLevel; record.simp;
    by destruct (spellCheckEnabled c), (spellSuggestEnabled c).
Qed.

Lemma shares_table c d t : shares { c with codeTable := t } d <-> shares c d.
Proof. by destruct c. Qed.

(** ** The block after a settings window *)

Lemma IsValid_magic p : IsValid p = true -> ss_magic p = MAGIC_VALUE.
Proof. unfold IsValid. rewrite !andb_true_iff. lia. Qed.

Section Sync.
Variables (h : Handle) (config : TypingConfig) (hotkey : HotkeyConfig) (p : SharedState).
Hypotheses (Hh : pState h = true) (Hhw : isWritable h = true).
Hypotheses (Hrest : at_rest p) (Hvalid : IsValid p = true).
Hypothesis Hvk : 0 <= hk_vk hotkey < 2 ^ 16.

Let p' := syncToSharedState h config hotkey p.

Lemma sync_is_write :
  p' = Write h { SetHotkey hotkey (PackConfig config p) with ss_configGeneration ::= next_generation } p.
Proof.
  unfold p', syncToSharedState, connected. rewrite Hh, (IsValid_magic p Hvalid).
  rewrite ReadNow_at_rest, Hvalid; [done|done|by apply IsValid_magic|done].
Qed.

Lemma sync_fields :
  IsValid p' = true /\ at_rest p' /\ ss_epoch p' = u32_incr (u32_incr (ss_epoch p)) /\
  ss_configGeneration p' = next_generation (ss_configGeneration p) /\
  GetHotkey p' = hotkey /\ ss_codeTable p' = byte_of_table (codeTable config) /\
  forall d, DecodeConfig p' d = carried config d.
Proof.
  rewrite sync_is_write. split; [|split; [by apply Write_at_rest|]]; rewrite Write_spec by done.
  - exact Hvalid.
  - split; [done|]. split; [done|]. split; [|split; [done|]].
    + etransitivity; [|exact (GetSetHotkey hotkey p Hvk)]. done.
    + intros d. etransitivity; [|exact (DecodeConfig_PackConfig config d p)].
      by apply DecodeConfig_ext.
Qed.

Lemma sync_ReadNow : ReadNow h p' = p'.
Proof.
  destruct sync_fields as (Hv & Hr & _). apply ReadNow_at_rest; try done. by apply IsValid_magic.
Qed.
End Sync.

Lemma next_generation_ne g : 0 <= g < 2 ^ 8 -> next_generation g <> g.
Proof.
  unfold next_generation. change (2 ^ 8) with 256. intros Hg E.
  Z.to_euclidean_division_equations. lia.
Qed.

Lemma epoch_moves e : 0 <= e < 2 ^ 32 -> u32_incr (u32_incr e) <> e.
Proof.
  intros He E. unfold u32_incr in E. rewrite Zplus_mod_idemp_l in E.
  change (2 ^ 32) with 4294967296 in *. Z.to_euclidean_division_equations. lia.
Qed.

(** The hook has seen the block as it is. *)
Definition in_step (p : SharedState) s : Prop :=
  lastEpoch_ s = ss_epoch p /\ lastConfigGeneration_ s = ss_configGeneration p /\
  0 <= ss_configGeneration p < 2 ^ 8.

Lemma PublishConfig_spec cfg s :
  config_ (PublishConfig cfg s) = cfg /\ currentCodeTable_ (PublishConfig cfg s) = codeTable cfg /\
  lastEpoch_ (PublishConfig cfg s) = lastEpoch_ s /\
  lastToggleHotkey_ (PublishConfig cfg s) = lastToggleHotkey_ s /\
  (configApplyPosted_ s = true -> configApplyPosted_ (PublishConfig cfg s) = true).
Proof.
  unfold PublishConfig. destruct (currentMethod_ s != inputMethod cfg);
    destruct (currentCodeTable_ s != codeTable cfg) eqn:E; record.simp; split_and!; try done.
  all: by apply negb_false_iff, bool_decide_eq_true in E.
Qed.

(** What SyncFields leaves of the settings, whichever way it goes. *)
Lemma SyncFields_shares state s c :
  (forall d, DecodeConfig state d = carried c d) -> shares (config_ s) c ->
  shares (config_ (SyncFields state s)) c.
Proof.
  intros Hd Hs. unfold SyncFields. destruct (_ && _); [done|].
  destruct (PublishConfig_spec { DecodeConfig state (config_ s) with
    codeTable := table_of_byte (ss_codeTable state) }
    { s with lastFeatureFlags_ := GetFeatureFlags state; lastSpellCheck_ := ss_spellCheck state;
             lastInputMethod_ := ss_inputMethod state; lastCodeTable_ := ss_codeTable state }) as [E _].
  cbv zeta. rewrite E. apply shares_table. rewrite Hd. apply shares_carried.
Qed.

Lemma SyncFields_frame state s :
  lastEpoch_ (SyncFields state s) = lastEpoch_ s /\
  lastToggleHotkey_ (SyncFields state s) = lastToggleHotkey_ s /\
  (configApplyPosted_ s = true -> configApplyPosted_ (SyncFields state s) = true).
Proof.
  unfold SyncFields. destruct (_ && _); [done|]. cbv zeta.
  by destruct (PublishConfig_spec { DecodeConfig state (config_ s) with
    codeTable := table_of_byte (ss_codeTable state) }
    { s with lastFeatureFlags_ := GetFeatureFlags state; lastSpellCheck_ := ss_spellCheck state;
             lastInputMethod_ := ss_inputMethod state; lastCodeTable_ := ss_codeTable state })
    as (_ & _ & -> & -> & ?).
Qed.

(** C14. A setting changed in a window reaches the hook before the file is saved:
    whatever the file holds, after the window's write the next synchronisation off
    the hook's thread has the hook use the window's input method, its spelling level
    and each of its twenty-one switches, named in [switches]; the hook's thread is
    told to rebuild the engine, the toggle hotkey goes to the hotkey manager, and the
    next key finds nothing new.  The block is at rest and valid, and the hook has seen
    it as it was before.  The code table is not promised ([code_table_reverts]). *)
Theorem settings_reach_hook h config hotkey p s toml appTable :
  pState h = true -> isWritable h = true -> at_rest p -> IsValid p = true ->
  0 <= hk_vk hotkey < 2 ^ 16 -> in_step p s ->
  let p' := syncToSharedState h config hotkey p in
  let s' := QuickSyncFromSharedState h false toml appTable p' s in
  shares (config_ s') config /\ configApplyPosted_ s' = true /\ lastToggleHotkey_ s' = hotkey /\
  QuickSyncFromSharedState h true toml appTable p' s' = s'.
Proof.
  intros Hh Hw Hrest Hv Hvk (He & Hg & Hgr). cbv zeta.
  destruct (sync_fields h config hotkey p Hh Hw Hrest Hv Hvk) as (Hv' & Hr' & He' & Hg' & Hk' & _ & Hd).
  pose proof (sync_ReadNow h config hotkey p Hh Hw Hrest Hv Hvk) as HR.
  set (p' := syncToSharedState h config hotkey p) in *.
  assert (Hep : ReadEpoch h p' = ss_epoch p').
  { unfold ReadEpoch, connected. by rewrite Hh, (IsValid_magic p' Hv'). }
  assert (Hs' : exists s1, QuickSyncFromSharedState h false toml appTable p' s = SyncFields p' s1 /\
    shares (config_ s1) config /\ lastEpoch_ s1 = ss_epoch p' /\ lastToggleHotkey_ s1 = hotkey /\
    configApplyPosted_ s1 = true).
  { unfold QuickSyncFromSharedState. rewrite Hep, HR, Hv', He.
    replace (ss_epoch p' =w ss_epoch p) with false.
    2: { symmetry. apply Z.eqb_neq. rewrite He'. apply epoch_moves, Hrest. }
    record.simp. rewrite Hg, Hg'.
    replace (next_generation (ss_configGeneration p) <>w ss_configGeneration p) with true.
    2: { symmetry. apply negb_true_iff, Z.eqb_neq. by apply next_generation_ne. }
    eexists. split; [reflexivity|]. unfold ReloadFromToml. record.simp. rewrite Hv', Hd, Hk'.
    split; [apply shares_carried|done]. }
  destruct Hs' as (s1 & -> & H1 & H2 & H3 & H4). destruct (SyncFields_frame p' s1) as (F1 & F2 & F3).
  split; [by apply SyncFields_shares|]. split; [by apply F3|]. split; [by rewrite F2|].
  unfold QuickSyncFromSharedState. rewrite Hep, F1, H2, Z.eqb_refl. by destruct (_ && _).
Qed.

(** ** A session: Telex in the file, VNI and TCVN3 from the window *)

Definition rw : Handle := mkHandle true true.
Definition no_hotkey : HotkeyConfig := mkHotkey false false false false 0.
Definition ctrl_shift : HotkeyConfig := mkHotkey true true false false 0.
Definition ctrl_z : HotkeyConfig := mkHotkey true false false false 90.
Definition demo_config : TypingConfig :=
  { default_config with inputMethod := VNI; codeTable := TCVN3; macroEnabled := true }.
Definition demo_hook : HookSettings :=
  mkHookSettings (ss_epoch InitDefaults) 0 no_hotkey 0 0 0 0 default_config Telex Unicode Unicode
    false false.

Lemma settings_reach_hook_witness :
  let p' := syncToSharedState rw demo_config ctrl_shift InitDefaults in
  let s' := QuickSyncFromSharedState rw false default_config None p' demo_hook in
  shares (config_ s') demo_config /\ configApplyPosted_ s' = true /\ lastToggleHotkey_ s' = ctrl_shift /\
  QuickSyncFromSharedState rw true default_config None p' s' = s'.
Proof.
  apply settings_reach_hook.
  - reflexivity.
  - reflexivity.
  - split; [split; [by vm_compute|by vm_compute]|by vm_compute].
  - vm_compute. reflexivity.
  - split; [by vm_compute|by vm_compute].
  - split_and!; by vm_compute.
Defined.

(** The code table is not among what the reload takes from the block.  The window
    sets TCVN3 and the hook follows; then, before the file is saved, the window
    changes nothing but the toggle hotkey, and the hook is back at the file's table
    while the block still says TCVN3. *)
Lemma code_table_reverts :
  let p1 := syncToSharedState rw demo_config ctrl_shift InitDefaults in
  let s1 := QuickSyncFromSharedState rw false default_config None p1 demo_hook in
  let p2 := syncToSharedState rw demo_config ctrl_z p1 in
  let s2 := QuickSyncFromSharedState rw false default_config None p2 s1 in
  currentCodeTable_ s1 = TCVN3 /\ table_of_byte (ss_codeTable p2) = TCVN3 /\
  currentCodeTable_ s2 = Unicode.
Proof. cbv zeta. split_and!; vm_compute; reflexivity. Qed.
