(* ===== verification/TextStore.v ===== *)
(** * The document of a host, as the text service sees it

    The host application implements the interfaces of the Text Services Framework
    (ITfContext, ITfRange, ITfComposition); the source only calls them.  Here they
    are a class of operations, each of which may fail, and a second class says what
    a host that keeps plain text does with them.  [Sheet] at the end is one. *)

From S2P Require Import Prelude.
From coqutil Require Import Datatypes.RecordSettersUsingExistingGetters.
Open Scope Z_scope.

(** ** The interface *)

(** [D] is the host with its document and selection, [R] its ranges.  [None] is a
    failure code; the boolean of the others is success. *)
Class TextContext (D R : Type) := {
  GrantsSync : bool -> D -> bool;               (* RequestEditSession; true: read and write *)
  GetSelection : D -> option R;
  RangeIsEmpty : R -> D -> option bool;
  ShiftStart : R -> Z -> D -> option (Z * R);   (* how far the start moved *)
  GetText : R -> nat -> D -> option wstring;
  SetText : R -> wstring -> D -> option (R * D);
  CollapseEnd : R -> D -> option R;
  SetSelection : R -> D -> bool * D;
  InsertTextAtSelection : wstring -> D -> option (R * D);
  AtDocumentStart : R -> D -> bool;             (* GetStart and IsEqualStart *)
  ComposeOn : R -> D -> option D;               (* ITfContextComposition::StartComposition *)
  CompositionRange : D -> option R;
  EndComposing : D -> D;
  SetAttribute : R -> D -> bool * D;            (* GUID_PROP_ATTRIBUTE *)
  ClearAttribute : R -> D -> bool * D
}.

(** ** Hosts that keep plain text *)

(** What there is to see of one: the text, the selection and the composition, each
    as a start and a length. *)
Record View := mkView { v_text : wstring; v_selection : nat * nat; v_composition : option (nat * nat) }.

Definition piece (sp : nat * nat) (t : wstring) : wstring := take sp.2 (drop sp.1 t).
Definition splice (sp : nat * nat) (t : wstring) (doc : wstring) : wstring :=
  take sp.1 doc ++ t ++ drop (sp.1 + sp.2) doc.
Definition inside (sp : nat * nat) (doc : wstring) : Prop := (sp.1 + sp.2 <= length doc)%nat.

(** The view of a host and the place of a range.  Writing text moves the selection
    as the host likes; the composition stays with the text it covers. *)
Class PlainHost (D R : Type) `{TextContext D R} := {
  view : D -> View;
  place : R -> D -> nat * nat;
  plain_inside r d : inside (place r d) (v_text (view d));
  plain_selection d : inside (v_selection (view d)) (v_text (view d));
  plain_grants rw d : GrantsSync rw d = true;
  plain_GetSelection d : exists r, GetSelection d = Some r /\ place r d = v_selection (view d);
  plain_IsEmpty r d : RangeIsEmpty r d = Some ((place r d).2 =? 0)%nat;
  plain_ShiftStart r d n :
    let k := Nat.min n (place r d).1 in
    exists r', ShiftStart r (- Z.of_nat n) d = Some (- Z.of_nat k, r') /\
      place r' d = ((place r d).1 - k, (place r d).2 + k)%nat;
  plain_GetText r d n : GetText r n d = Some (take n (piece (place r d) (v_text (view d))));
  plain_SetText r d t :
    exists r' d', SetText r t d = Some (r', d') /\
      place r' d' = ((place r d).1, length t) /\
      v_text (view d') = splice (place r d) t (v_text (view d)) /\
      (v_composition (view d) = None -> v_composition (view d') = None) /\
      (v_composition (view d) = Some (place r d) ->
       v_composition (view d') = Some ((place r d).1, length t));
  plain_Collapse r d :
    exists r', CollapseEnd r d = Some r' /\ place r' d = ((place r d).1 + (place r d).2, 0)%nat;
  plain_SetSelection r d :
    exists d', SetSelection r d = (true, d') /\ v_selection (view d') = place r d /\
      v_text (view d') = v_text (view d) /\ v_composition (view d') = v_composition (view d);
  plain_Insert t d :
    v_composition (view d) = None ->
    exists r d', InsertTextAtSelection t d = Some (r, d') /\
      place r d' = ((v_selection (view d)).1, length t) /\
      v_text (view d') = splice (v_selection (view d)) t (v_text (view d)) /\
      v_composition (view d') = None;
  plain_AtStart r d : AtDocumentStart r d = ((place r d).1 =? 0)%nat;
  plain_Compose r d : v_composition (view d) = None ->
    exists d', ComposeOn r d = Some d' /\ v_composition (view d') = Some (place r d) /\
      v_text (view d') = v_text (view d) /\ v_selection (view d') = v_selection (view d) /\
      place r d' = place r d;
  plain_CompositionRange d sp : v_composition (view d) = Some sp ->
    exists r, CompositionRange d = Some r /\ place r d = sp;
  plain_EndComposing d :
    v_text (view (EndComposing d)) = v_text (view d) /\
    v_selection (view (EndComposing d)) = v_selection (view d) /\
    v_composition (view (EndComposing d)) = None;
  plain_SetAttribute r d : view (SetAttribute r d).2 = view d /\
    place r (SetAttribute r d).2 = place r d;
  plain_ClearAttribute r d : view (ClearAttribute r d).2 = view d /\
    place r (ClearAttribute r d).2 = place r d
}.

(** ** Lemmas on places *)

Lemma splice_middle before old after t :
  splice (length before, length old) t (before ++ old ++ after) = before ++ t ++ after.
Proof.
  unfold splice. simpl. rewrite take_app_length, <- drop_drop, drop_app_length.
  by rewrite drop_app_length.
Qed.
Lemma piece_middle before old after :
  piece (length before, length old) (before ++ old ++ after) = old.
Proof. unfold piece. simpl. by rewrite drop_app_length, take_app_length. Qed.
Lemma inside_middle before old after :
  inside (length before, length old) (before ++ old ++ after).
Proof. unfold inside. simpl. rewrite !length_app. lia. Qed.

(** ** A host that never refuses

    Ranges are places in the text as it is when they are made, brought inside it
    when they are used; an edit leaves the selection at the end of what it wrote. *)
Module Sheet.

Definition range : Type := nat * nat.

Definition clip (t : wstring) (r : range) : range :=
  let start := Nat.min r.1 (length t) in (start, Nat.min r.2 (length t - start)).
Definition clipped (d : View) : View :=
  { d with v_selection ::= clip (v_text d); v_composition ::= option_map (clip (v_text d)) }.

Definition set_text (r : range) (t : wstring) (d : View) : range * View :=
  let d := clipped d in
  ((r.1, length t),
   mkView (splice r t (v_text d)) (r.1 + length t, 0)%nat
     (if decide (v_composition d = Some r) then Some (r.1, length t) else v_composition d)).

#[export] Instance sheet : TextContext View range := {|
  GrantsSync := fun _ _ => true;
  GetSelection := fun d => Some (v_selection d);
  RangeIsEmpty := fun r d => Some ((clip (v_text d) r).2 =? 0)%nat;
  ShiftStart := fun r z d =>
    let r := clip (v_text d) r in
    let k := Nat.min (Z.to_nat (- z)) r.1 in Some (- Z.of_nat k, (r.1 - k, r.2 + k)%nat);
  GetText := fun r n d => Some (take n (piece (clip (v_text d) r) (v_text d)));
  SetText := fun r t d => Some (set_text (clip (v_text d) r) t d);
  CollapseEnd := fun r d => let r := clip (v_text d) r in Some (r.1 + r.2, 0)%nat;
  SetSelection := fun r d => (true, { d with v_selection := r });
  InsertTextAtSelection := fun t d => Some (set_text (v_selection (clipped d)) t d);
  AtDocumentStart := fun r d => ((clip (v_text d) r).1 =? 0)%nat;
  ComposeOn := fun r d => Some { d with v_composition := Some r };
  CompositionRange := v_composition;
  EndComposing := fun d => { d with v_composition := None };
  SetAttribute := fun _ d => (true, d);
  ClearAttribute := fun _ d => (true, d)
|}.

Lemma clip_inside t r : inside (clip t r) t.
Proof. unfold inside, clip. simpl. lia. Qed.
Lemma clip_id t r : inside r t -> clip t r = r.
Proof. destruct r. unfold inside, clip. simpl. intros. f_equal; lia. Qed.
Lemma clip_clip t r : clip t (clip t r) = clip t r.
Proof. apply clip_id, clip_inside. Qed.

Lemma splice_length r t doc :
  inside r doc -> length (splice r t doc) = (length doc - r.2 + length t)%nat.
Proof.
  unfold inside, splice. intros. rewrite !length_app, length_take, length_drop. lia.
Qed.

(** The new text is inside the document that has it. *)
Lemma splice_inside r t doc : inside r doc -> inside (r.1, length t) (splice r t doc).
Proof. intros H. unfold inside. rewrite splice_length by done. unfold inside in H. simpl. lia. Qed.

(** A composition elsewhere stays one. *)
Lemma set_text_spec r t d :
  inside r (v_text d) ->
  let '(r', d') := set_text r t d in
  clip (v_text d') r' = (r.1, length t) /\ v_text d' = splice r t (v_text d) /\
  (v_composition (clipped d) = None -> v_composition (clipped d') = None) /\
  (v_composition (clipped d) = Some r -> v_composition (clipped d') = Some (r.1, length t)).
Proof.
  intros Hr. unfold set_text. cbv zeta.
  assert (E : clip (splice r t (v_text d)) (r.1, length t) = (r.1, length t))
    by (apply clip_id; by apply splice_inside).
  split_and!; try done.
  - intros H. unfold clipped at 1. record.simp. rewrite H. by case_decide.
  - intros H. unfold clipped at 1. record.simp. rewrite H, decide_True by done. simpl. by rewrite E.
Qed.

#[export] Instance sheet_plain : PlainHost View range.
Proof.
  refine {| view := clipped; place := fun r d => clip (v_text d) r |}.
  - intros. apply clip_inside.
  - intros. apply clip_inside.
  - done.
  - intros d. by eexists.
  - done.
  - intros r d n. cbv zeta. eexists. split; [by cbn; rewrite Z.opp_involutive, Nat2Z.id|].
    apply clip_id. pose proof (clip_inside (v_text d) r) as H. unfold inside in *. cbn. lia.
  - done.
  - intros r d t. pose proof (set_text_spec (clip (v_text d) r) t d (clip_inside _ _)) as H.
    cbn. destruct (set_text _ _ _) as [r' d']. by exists r', d'.
  - intros r d. eexists. split; [done|]. apply clip_id.
    pose proof (clip_inside (v_text d) r) as H. unfold inside in *. cbn. lia.
  - intros r d. eexists. split; [done|]. done.
  - intros t d Hn. pose proof (set_text_spec (clip (v_text d) (v_selection d)) t d (clip_inside _ _)) as H.
    change (v_selection (clipped d)) with (clip (v_text d) (v_selection d)) in *.
    cbn [InsertTextAtSelection sheet].
    change (v_selection (clipped d)) with (clip (v_text d) (v_selection d)).
    destruct (set_text _ _ _) as [r' d']. exists r', d'. destruct H as (? & ? & ? & _).
    split_and!; auto.
  - done.
  - intros r d Hn. eexists. split; [done|]. done.
  - intros d sp H. cbn in *. destruct (v_composition d) as [r|]; [|done]. exists r.
    split; [done|]. by injection H.
  - intros d. split_and!; done.
  - done.
  - done.
Defined.

End Sheet.
