(* ===== verification/Composition.v ===== *)
(** * Compositions and edit sessions
      (src/src/tsf/CompositionManager.cpp, CompositionEditSession.h,
      EscRestoreLastCommitSession.h; core/TsfEditDecision.h)

    The composition manager writes the word being typed into the host's document
    and keeps it a composition; the edit sessions are what the controller asks the
    host to run.  A session returns whether it succeeded and what it left behind,
    also when it failed half way.  The second part proves what they do on a host
    that keeps plain text. *)

From S2P Require Import Prelude Tables CharState AutoCap InputEngine TextStore.
From coqutil Require Import Datatypes.RecordSettersUsingExistingGetters.
Open Scope Z_scope.

(** ** Decisions (TsfEditDecision.h) *)

Definition kTsfReadOnlyDocumentFlag : Z := 0x1.
Definition IsReadOnlyTsfDocument (dynamicStatusFlags : Z) : bool :=
  Z.land dynamicStatusFlags kTsfReadOnlyDocumentFlag <>w 0.

Record TsfContextInputState := mkInputState {
  hasContext : bool; dynamicStatusFlags : Z; staticStatusFlags : Z;
  keyboardDisabled : bool; emptyContext : bool; in_scopeBlocked : bool
}.
Definition ShouldBlockTsfContext (s : TsfContextInputState) : bool :=
  negb (hasContext s) || IsReadOnlyTsfDocument (dynamicStatusFlags s) ||
  keyboardDisabled s || emptyContext s || in_scopeBlocked s.

Definition IsExactBackwardRangeShift (requestedChars shiftedChars : Z) : bool :=
  (0 <? requestedChars) && (shiftedChars =w - requestedChars).

Definition ShouldSuppressClaimedKeyDown (pendingVk currentVk lParam : Z) : bool :=
  (pendingVk <>w 0) && (pendingVk =w currentVk) && (Z.land lParam (2 ^ 30) =w 0).

(** ** The manager *)

(** [pComposition_] is whether there is one: the object itself is the host's. *)
Record Manager := mkManager {
  pComposition_ : bool; currentText_ : wstring;
  hidePreeditUnderline_ : bool; displayAttributeApplied_ : bool
}.
Definition new_manager : Manager := mkManager false [] false false.

Definition CurrentTextEquals (text : wstring) (m : Manager) : bool := currentText_ m == text.
(** [TerminateComposition]: the local state only. *)
Definition TerminateComposition (m : Manager) : Manager :=
  { m with pComposition_ := false; currentText_ := []; displayAttributeApplied_ := false }.

Section Composition.
Context {D R : Type} {TC : TextContext D R}.
Implicit Types (d : D) (r : R) (m : Manager).

Definition ApplyDisplayAttribute r m d : Manager * D :=
  let '(ok, d) := SetAttribute r d in
  (if ok then { m with displayAttributeApplied_ := true } else m, d).
Definition ClearDisplayAttribute r m d : Manager * D :=
  if displayAttributeApplied_ m then
    let '(ok, d) := ClearAttribute r d in
    (if ok then { m with displayAttributeApplied_ := false } else m, d)
  else (m, d).

Definition MoveCaretToEnd m d : D :=
  if pComposition_ m then
    match CompositionRange d with
    | Some r => (SetSelection (default r (CollapseEnd r d)) d).2
    | None => d
    end
  else d.

Definition EndComposition m d : Manager * D :=
  if pComposition_ m then
    let '(m, d) :=
      match CompositionRange d with Some r => ClearDisplayAttribute r m d | None => (m, d) end in
    (TerminateComposition m, EndComposing d)
  else (m, d).

Definition BeginCompositionOnRange r (text : wstring) m d : bool * Manager * D :=
  match ComposeOn r d with
  | None => (false, m, d)
  | Some d =>
      let m := { m with pComposition_ := true; currentText_ := text;
                        displayAttributeApplied_ := false } in
      let '(m, d) := if hidePreeditUnderline_ m then ApplyDisplayAttribute r m d else (m, d) in
      (true, m, d)
  end.

Definition StartComposition (initialText : wstring) m d : bool * Manager * D :=
  if bool_decide (initialText = []) then (false, m, d)
  else
    let '(m, d) := EndComposition m d in
    match InsertTextAtSelection initialText d with
    | None => (false, m, d)
    | Some (r, d) =>
        let '(ok, m, d) := BeginCompositionOnRange r initialText m d in
        if ok then (true, m, MoveCaretToEnd m d)
        else (false, m, match SetText r [] d with Some (_, d) => d | None => d end)
    end.

Definition StartCompositionOnRange r (existingText : wstring) m d : bool * Manager * D :=
  if bool_decide (existingText = []) then (false, m, d)
  else
    let '(m, d) := EndComposition m d in
    BeginCompositionOnRange r existingText m d.

Definition SetCompositionText (text : wstring) m d : bool * Manager * D :=
  if negb (pComposition_ m) then (false, m, d)
  else
    match CompositionRange d with
    | None => (false, m, d)
    | Some r =>
        match SetText r text d with
        | None => (false, m, d)
        | Some (r, d) =>
            let m := { m with currentText_ := text } in
            let '(m, d) := if hidePreeditUnderline_ m then ApplyDisplayAttribute r m d
                           else ClearDisplayAttribute r m d in
            (true, m, MoveCaretToEnd m d)
        end
    end.

(** ** Sessions on the composition *)

Definition StartCompositionEditSession (text : wstring) m d : bool * Manager * D :=
  StartComposition text m d.

Definition UpdateCompositionEditSession (text : wstring) m d : bool * Manager * D :=
  if negb (pComposition_ m) then StartComposition text m d else SetCompositionText text m d.

Definition EndCompositionEditSession m d : bool * Manager * D :=
  let '(m, d) := EndComposition m d in (true, m, d).

(** Nothing is written when the composition is gone. *)
Definition CommitEditSession (finalText : wstring) m d : bool * Manager * D :=
  if pComposition_ m then
    let '(ok, m, d) :=
      if CurrentTextEquals finalText m then (true, m, d) else SetCompositionText finalText m d in
    if ok then let '(m, d) := EndComposition m d in (true, m, d) else (false, m, d)
  else (true, m, d).

(** ** Sessions on the text before the caret *)

(** An empty selection, or nothing. *)
Definition empty_selection d : option R :=
  match GetSelection d with
  | Some r => match RangeIsEmpty r d with Some true => Some r | _ => None end
  | None => None
  end.

Definition set_caret_after r d : bool * D :=
  match CollapseEnd r d with Some r => SetSelection r d | None => (false, d) end.

(** Was the text replaced, did the session succeed. *)
Definition ReplacePrecedingTextEditSession (characterCount : nat) (replacement expected : wstring) d
    : bool * bool * D :=
  if (characterCount =? 0)%nat then (false, false, d)
  else
    match empty_selection d with
    | None => (false, false, d)
    | Some r =>
        match ShiftStart r (- Z.of_nat characterCount) d with
        | None => (false, false, d)
        | Some (shifted, r) =>
            if shifted <>w - Z.of_nat characterCount then (false, false, d)
            else
              let there :=
                if bool_decide (expected = []) then true
                else GetText r (length expected) d == Some expected in
              if negb there then (false, false, d)
              else
                match SetText r replacement d with
                | None => (false, false, d)
                | Some (r, d) => let '(ok, d) := set_caret_after r d in (true, ok, d)
                end
        end
    end.

Definition EscRestoreLastCommitSession (textToReplace rawInput : wstring) d : bool * D :=
  if bool_decide (textToReplace = []) then (false, d)
  else
    match GetSelection d with
    | None => (false, d)
    | Some r =>
        match ShiftStart r (- Z.of_nat (length textToReplace)) d with
        | None => (false, d)
        | Some (shifted, r) =>
            if shifted <>w - Z.of_nat (length textToReplace) then (false, d)
            else if negb (GetText r (length textToReplace) d == Some textToReplace) then (false, d)
            else
              match SetText r rawInput d with
              | None => (false, d)
              | Some (r, d) => (true, (set_caret_after r d).2)
              end
        end
    end.

Definition MAX_CHARS : nat := 64.

(** The text, and whether the caret cannot move back. *)
Definition ReadPrecedingCharsEditSession (maxChars : nat) d : wstring * bool :=
  let maxChars := Nat.min maxChars MAX_CHARS in
  match empty_selection d with
  | None => ([], false)
  | Some r =>
      match ShiftStart r (- Z.of_nat maxChars) d with
      | None => ([], false)
      | Some (shifted, peek) =>
          if shifted =w 0 then ([], true)
          else if 0 <? shifted then ([], false)
          else (default [] (GetText peek (Z.to_nat (- shifted)) d), false)
      end
  end.

(** The Vietnamese letters at the end of a text. *)
Definition is_viet (c : wchar) : bool :=
  match DecomposeVietChar c with Some _ => true | None => false end.
Definition preceding_word (text : wstring) : wstring :=
  let fix run (rev : wstring) : nat :=
    match rev with c :: rest => if is_viet c then S (run rest) else O | [] => O end in
  drop (length text - run (rev text)) text.

(** The word and its range. *)
Definition ReadPrecedingWordEditSession d : option (wstring * R) :=
  match empty_selection d with
  | None => None
  | Some r =>
      match ShiftStart r (-16) d with
      | None => None
      | Some (shifted, peek) =>
          if 0 <=? shifted then None
          else
            match GetText peek (Nat.min (Z.to_nat (- shifted)) 16) d with
            | None => None
            | Some text =>
                let word := preceding_word text in
                let wordlen := Z.of_nat (length word) in
                if wordlen =w 0 then None
                else
                  match ShiftStart r (- wordlen) d with
                  | None => None
                  | Some (shifted2, range) =>
                      if IsExactBackwardRangeShift wordlen shifted2 then Some (word, range) else None
                  end
            end
      end
  end.

Record Inspection := mkInspection {
  in_word : wstring; in_wordRange : option R; in_shouldAutoCap : bool; in_atDocStart : bool
}.
Definition no_inspection : Inspection := mkInspection [] None false false.

Definition InspectPrecedingTextEditSession d : Inspection :=
  match empty_selection d with
  | None => no_inspection
  | Some r =>
      match ShiftStart r (- Z.of_nat MAX_CHARS) d with
      | None => no_inspection
      | Some (shifted, peek) =>
          if shifted =w 0 then
            if AtDocumentStart r d then mkInspection [] None true true else no_inspection
          else if 0 <? shifted then no_inspection
          else
            match GetText peek (Z.to_nat (- shifted)) d with
            | None | Some [] => no_inspection
            | Some text =>
                let word := preceding_word text in
                let wordLen := Z.of_nat (length word) in
                let range :=
                  if 0 <? wordLen then
                    match ShiftStart r (- wordLen) d with
                    | Some (shifted2, range) =>
                        if IsExactBackwardRangeShift wordLen shifted2 then Some range else None
                    | None => None
                    end
                  else None in
                mkInspection word range (ComputeShouldAutoCap text) false
            end
      end
  end.

(** Is something selected. *)
Definition SelectionCheckEditSession d : bool :=
  match GetSelection d with
  | Some r => match RangeIsEmpty r d with Some isEmpty => negb isEmpty | None => false end
  | None => false
  end.

(** ** Sessions that reopen a word *)

Context {E : Type} {IE : InputEngine E}.
Implicit Types e : E.

Definition SeedRevivedWord (word rawInput : wstring) e : bool * E :=
  let '(e, result) :=
    RestoreCommittedText word (fun e => fold_left (fun e c => PushChar c e) rawInput e)
      PreferHistory e in
  (result != RestoreFailed, e).

(** The end of the two sessions: the text of the engine is written over the word,
    and the composition ended when nothing of it is left. *)
Definition write_revived e m d : bool * E * Manager * D :=
  let '(ok, m, d) := SetCompositionText (Peek e) m d in
  if negb ok then let '(m, d) := EndComposition m d in (false, Reset e, m, d)
  else if (Count e =? 0)%nat then let '(m, d) := EndComposition m d in (true, e, m, d)
  else (true, e, m, d).

Definition ReviveCompositionEditSession (word : wstring) r (rawInput : wstring) e m d
    : bool * E * Manager * D :=
  if bool_decide (word = []) then (false, e, m, d)
  else
    let '(seeded, e) := SeedRevivedWord word rawInput e in
    if negb seeded then (false, e, m, d)
    else
      let '(started, m, d) := StartCompositionOnRange r word m d in
      if negb started then
        let e := Backspace e in
        match SetText r (Peek e) d with
        | Some (_, d) => (true, Reset e, m, d)
        | None => (false, Reset e, m, d)
        end
      else write_revived (Backspace e) m d.

(** The last boolean: the key is in the document. *)
Definition ReviveAndTypeEditSession (word : wstring) r (ch : wchar) (uppercase : bool)
    (rawInput : wstring) e m d : bool * E * Manager * D * bool :=
  if bool_decide (word = []) || (ch =w 0) then (false, e, m, d, false)
  else
    let '(seeded, e) := SeedRevivedWord word rawInput e in
    if negb seeded then (true, Reset e, m, d, false)
    else
      let '(started, m, d) := StartCompositionOnRange r word m d in
      if negb started then (true, Reset e, m, d, false)
      else let '(ok, e, m, d) := write_revived (PushKey ch uppercase e) m d in (ok, e, m, d, ok).

End Composition.

(** ** What the compositions and the edit sessions do on a host that keeps plain text

    A composition covers the word it shows and nothing else; each session is an
    edit of one place of the document, and ends or keeps the composition as its
    name says. *)

Section Facts.
Context {D R : Type} {TC : TextContext D R} {PH : PlainHost D R}.
Implicit Types (d : D) (r : R) (m : Manager).

(** ** Places *)

Lemma inside_split sp (t : wstring) :
  inside sp t -> exists before old after,
    t = before ++ old ++ after /\ sp = (length before, length old).
Proof.
  destruct sp as [s n]. unfold inside. cbn. intros H.
  exists (take s t), (take n (drop s t)), (drop n (drop s t)).
  split; [by rewrite !take_drop|]. rewrite !length_take, length_drop. f_equal; lia.
Qed.

(** A word shown as a composition between two texts. *)
Record Composed (before old after : wstring) m d : Prop := {
  composed_text : v_text (view d) = before ++ old ++ after;
  composed_range : v_composition (view d) = Some (length before, length old);
  composed_mgr : pComposition_ m = true;
  composed_current : currentText_ m = old
}.
(** No composition, and the manager knows. *)
Record Resting m d : Prop := {
  resting_mgr : pComposition_ m = false;
  resting_range : v_composition (view d) = None
}.
Definition caret_at (n : nat) d : Prop := v_selection (view d) = (n, 0%nat).

(** Operations that do not touch the view and move no range. *)
Lemma ApplyDisplayAttribute_spec r m d :
  let '(m', d') := ApplyDisplayAttribute r m d in
  view d' = view d /\ place r d' = place r d /\
  pComposition_ m' = pComposition_ m /\ currentText_ m' = currentText_ m.
Proof.
  unfold ApplyDisplayAttribute. destruct (plain_SetAttribute r d) as [Hv Hp].
  destruct (SetAttribute r d) as [ok d']. cbn in *. by destruct ok.
Qed.
Lemma ClearDisplayAttribute_spec r m d :
  let '(m', d') := ClearDisplayAttribute r m d in
  view d' = view d /\ place r d' = place r d /\
  pComposition_ m' = pComposition_ m /\ currentText_ m' = currentText_ m.
Proof.
  unfold ClearDisplayAttribute. destruct (displayAttributeApplied_ m); [|done].
  destruct (plain_ClearAttribute r d) as [Hv Hp].
  destruct (ClearAttribute r d) as [ok d']. cbn in *. by destruct ok.
Qed.

Lemma Composed_view before old after m d m' d' :
  view d' = view d -> pComposition_ m' = pComposition_ m -> currentText_ m' = currentText_ m ->
  Composed before old after m d -> Composed before old after m' d'.
Proof. intros Hv Hp Hc [H1 H2 H3 H4]. split; by rewrite ?Hv, ?Hp, ?Hc. Qed.

Lemma SetSelection_spec r d :
  exists d', SetSelection r d = (true, d') /\ v_selection (view d') = place r d /\
    v_text (view d') = v_text (view d) /\ v_composition (view d') = v_composition (view d).
Proof. apply plain_SetSelection. Qed.

(** ** The manager *)

Lemma EndComposition_spec before old after m d :
  Composed before old after m d ->
  let '(m', d') := EndComposition m d in
  Resting m' d' /\ v_text (view d') = before ++ old ++ after /\
  v_selection (view d') = v_selection (view d).
Proof.
  intros [H1 H2 H3 H4]. unfold EndComposition. rewrite H3.
  destruct (plain_CompositionRange d _ H2) as (r & -> & Hr).
  pose proof (ClearDisplayAttribute_spec r m d) as Hc.
  destruct (ClearDisplayAttribute r m d) as [m' d']. destruct Hc as (Hv & _ & Hm & _).
  destruct (plain_EndComposing d') as (Ht & Hs & Hn).
  split_and!; [by split|by rewrite Ht, Hv|by rewrite Hs, Hv].
Qed.

Lemma EndComposition_rests m d :
  pComposition_ m = true -> (exists sp, v_composition (view d) = Some sp) ->
  let '(m', d') := EndComposition m d in Resting m' d'.
Proof.
  intros H3 [sp H2]. unfold EndComposition. rewrite H3.
  destruct (plain_CompositionRange d _ H2) as (r & -> & Hr).
  pose proof (ClearDisplayAttribute_spec r m d) as Hc.
  destruct (ClearDisplayAttribute r m d) as [m' d'].
  destruct (plain_EndComposing d') as (_ & _ & Hn). by split.
Qed.

Lemma EndComposition_resting m d : Resting m d -> EndComposition m d = (m, d).
Proof. intros [H _]. unfold EndComposition. by rewrite H. Qed.

Lemma MoveCaretToEnd_spec before old after m d :
  Composed before old after m d ->
  Composed before old after m (MoveCaretToEnd m d) /\
  caret_at (length before + length old) (MoveCaretToEnd m d).
Proof.
  intros [H1 H2 H3 H4].
  assert (exists r', MoveCaretToEnd m d = (SetSelection r' d).2 /\
    place r' d = (length before + length old, 0)%nat) as (r' & -> & Hr).
  { unfold MoveCaretToEnd. rewrite H3.
    destruct (plain_CompositionRange d _ H2) as (r & -> & Hr).
    destruct (plain_Collapse r d) as (r' & -> & Hr'). exists r'. by rewrite Hr', Hr. }
  destruct (SetSelection_spec r' d) as (d' & -> & Hs & Ht & Hn). cbn [snd].
  split; [split; by rewrite ?Ht, ?Hn|]. unfold caret_at. by rewrite Hs, Hr.
Qed.

(** Whatever the composition covers, a new text takes its place. *)
Lemma SetCompositionText_covered text before old after m d :
  pComposition_ m = true -> v_text (view d) = before ++ old ++ after ->
  v_composition (view d) = Some (length before, length old) ->
  exists m' d', SetCompositionText text m d = (true, m', d') /\
    Composed before text after m' d' /\ caret_at (length before + length text) d'.
Proof.
  intros H3 H1 H2. unfold SetCompositionText. rewrite H3. cbn [negb].
  destruct (plain_CompositionRange d _ H2) as (r & -> & Hr).
  destruct (plain_SetText r d text) as (r' & d' & -> & Hr' & Ht & _ & Hc).
  rewrite Hr in *. rewrite H1, splice_middle in Ht.
  set (m1 := { m with currentText_ := text }).
  assert (H : Composed before text after m1 d') by (split; by rewrite ?Ht, ?Hc).
  set (styled := if hidePreeditUnderline_ m1 then _ else _).
  assert (Hs : let '(m2, d2) := styled in Composed before text after m2 d2).
  { subst styled. destruct (hidePreeditUnderline_ m1).
    - pose proof (ApplyDisplayAttribute_spec r' m1 d') as Ha.
      destruct (ApplyDisplayAttribute r' m1 d') as [m2 d2]. destruct Ha as (? & _ & ? & ?).
      by eapply Composed_view.
    - pose proof (ClearDisplayAttribute_spec r' m1 d') as Ha.
      destruct (ClearDisplayAttribute r' m1 d') as [m2 d2]. destruct Ha as (? & _ & ? & ?).
      by eapply Composed_view. }
  destruct styled as [m2 d2]. exists m2, (MoveCaretToEnd m2 d2).
  split; [done|]. by apply (MoveCaretToEnd_spec before text after).
Qed.

Lemma SetCompositionText_spec text before old after m d :
  Composed before old after m d ->
  exists m' d', SetCompositionText text m d = (true, m', d') /\
    Composed before text after m' d' /\ caret_at (length before + length text) d'.
Proof. intros [H1 H2 H3 _]. by apply (SetCompositionText_covered _ _ old). Qed.

(** The composition covers the range, whatever it is said to hold. *)
Lemma BeginCompositionOnRange_covers text r m d :
  Resting m d ->
  exists m' d', BeginCompositionOnRange r text m d = (true, m', d') /\
    pComposition_ m' = true /\ currentText_ m' = text /\
    v_composition (view d') = Some (place r d) /\
    v_text (view d') = v_text (view d) /\ v_selection (view d') = v_selection (view d).
Proof.
  intros [Hm Hn]. unfold BeginCompositionOnRange.
  destruct (plain_Compose r d Hn) as (d' & -> & Hc & Ht' & Hs' & _).
  set (m1 := { m with pComposition_ := true; currentText_ := text; displayAttributeApplied_ := false }).
  destruct (hidePreeditUnderline_ m1).
  - pose proof (ApplyDisplayAttribute_spec r m1 d') as Ha.
    destruct (ApplyDisplayAttribute r m1 d') as [m2 d2]. destruct Ha as (Hv & _ & ? & ?).
    exists m2, d2. by rewrite Hv.
  - by exists m1, d'.
Qed.

Lemma BeginCompositionOnRange_spec before old after r m d :
  Resting m d -> v_text (view d) = before ++ old ++ after ->
  place r d = (length before, length old) ->
  exists m' d', BeginCompositionOnRange r old m d = (true, m', d') /\
    Composed before old after m' d' /\ v_selection (view d') = v_selection (view d).
Proof.
  intros Hrest Ht Hr.
  destruct (BeginCompositionOnRange_covers old r m d Hrest) as (m' & d' & -> & ? & ? & Hc & Ht' & ?).
  exists m', d'. split; [done|]. split; [|done]. split; rewrite ?Ht', ?Hc, ?Hr; done.
Qed.

Lemma StartComposition_spec text before old after m d :
  text <> [] -> Resting m d -> v_text (view d) = before ++ old ++ after ->
  v_selection (view d) = (length before, length old) ->
  exists m' d', StartComposition text m d = (true, m', d') /\
    Composed before text after m' d' /\ caret_at (length before + length text) d'.
Proof.
  intros Hx Hrest Ht Hs. unfold StartComposition. rewrite bool_decide_eq_false_2 by done.
  rewrite EndComposition_resting by done.
  destruct (plain_Insert text d (resting_range _ _ Hrest)) as (r & d' & -> & Hr & Ht' & Hn).
  rewrite Hs in *. rewrite Ht, splice_middle in Ht'.
  destruct (BeginCompositionOnRange_spec before text after r m d') as (m' & d2 & -> & H & _); [|done|done|].
  { split; [apply Hrest|done]. }
  exists m', (MoveCaretToEnd m' d2). split; [done|]. by apply (MoveCaretToEnd_spec before text after).
Qed.

(** ** Sessions on the composition *)

(** An update, whether a composition is there to be updated or not. *)
Lemma Update_composed text before old after m d :
  Composed before old after m d ->
  exists m' d', UpdateCompositionEditSession text m d = (true, m', d') /\
    Composed before text after m' d' /\ caret_at (length before + length text) d'.
Proof.
  intros H. unfold UpdateCompositionEditSession. rewrite (composed_mgr _ _ _ _ _ H). cbn [negb].
  by apply (SetCompositionText_spec text before old after).
Qed.

Lemma Commit_composed text before old after m d :
  Composed before old after m d ->
  exists m' d', CommitEditSession text m d = (true, m', d') /\ Resting m' d' /\
    v_text (view d') = before ++ text ++ after /\
    (caret_at (length before + length old) d -> caret_at (length before + length text) d').
Proof.
  intros H. unfold CommitEditSession. rewrite (composed_mgr _ _ _ _ _ H).
  unfold CurrentTextEquals. rewrite (composed_current _ _ _ _ _ H). case_bool_decide as E.
  - subst old. pose proof (EndComposition_spec _ _ _ _ _ H) as He.
    destruct (EndComposition m d) as [m' d']. destruct He as (? & ? & Hs). exists m', d'.
    split_and!; try done. unfold caret_at. by rewrite Hs.
  - destruct (SetCompositionText_spec text _ _ _ _ _ H) as (m1 & d1 & -> & H1 & Hc).
    pose proof (EndComposition_spec _ _ _ _ _ H1) as He.
    destruct (EndComposition m1 d1) as [m' d']. destruct He as (? & ? & Hs). exists m', d'.
    split_and!; try done. intros _. unfold caret_at. by rewrite Hs.
Qed.

Lemma Commit_resting text m d : Resting m d -> CommitEditSession text m d = (true, m, d).
Proof. intros [H _]. unfold CommitEditSession. by rewrite H. Qed.

(** ** Sessions on the text before the caret *)

Lemma empty_selection_spec d :
  match empty_selection d with
  | Some r => place r d = v_selection (view d) /\ (v_selection (view d)).2 = 0%nat
  | None => (v_selection (view d)).2 <> 0%nat
  end.
Proof.
  unfold empty_selection. destruct (plain_GetSelection d) as (r & -> & Hr).
  rewrite plain_IsEmpty, Hr. destruct (Nat.eqb_spec (v_selection (view d)).2 0); done.
Qed.

(** A shift that goes all the way: the characters before the place are those. *)
Lemma ShiftStart_exact r d n :
  exists shifted r', ShiftStart r (- Z.of_nat n) d = Some (shifted, r') /\
    (shifted = - Z.of_nat n <-> (n <= (place r d).1)%nat) /\
    (n <= (place r d).1 -> place r' d = ((place r d).1 - n, (place r d).2 + n))%nat.
Proof.
  destruct (plain_ShiftStart r d n) as (r' & Hs & Hp). cbv zeta in *.
  eexists _, r'. split; [exact Hs|]. split; [lia|]. intros Hn. rewrite Hp. f_equal; lia.
Qed.

Lemma GetText_all r d n :
  n = (place r d).2 -> GetText r n d = Some (piece (place r d) (v_text (view d))).
Proof.
  intros ->. rewrite plain_GetText. f_equal. apply take_ge. unfold piece. rewrite length_take. lia.
Qed.

(** The caret goes to the end of what was written; nothing else changes. *)
Lemma set_caret_after_spec r d :
  exists d', set_caret_after r d = (true, d') /\
    caret_at ((place r d).1 + (place r d).2) d' /\
    v_text (view d') = v_text (view d) /\ v_composition (view d') = v_composition (view d).
Proof.
  unfold set_caret_after. destruct (plain_Collapse r d) as (r' & -> & Hr').
  destruct (SetSelection_spec r' d) as (d' & -> & Hs & Ht & Hc). exists d'.
  split_and!; try done. unfold caret_at. by rewrite Hs, Hr'.
Qed.

(** A replacement before the caret: done exactly when the selection is empty, the
    count is there and so is the text expected, and then it is that edit. *)
Lemma ReplacePrecedingText_spec n replacement expected d :
  v_composition (view d) = None ->
  exists replaced ok d', ReplacePrecedingTextEditSession n replacement expected d = (replaced, ok, d') /\
    v_composition (view d') = None /\
    if replaced then
      exists before old after, length old = n /\ (expected = [] \/ take (length expected) old = expected) /\
        v_text (view d) = before ++ old ++ after /\ caret_at (length before + length old) d /\
        v_text (view d') = before ++ replacement ++ after /\
        caret_at (length before + length replacement) d'
    else d' = d.
Proof.
  intros Hn. unfold ReplacePrecedingTextEditSession. destruct (n =? 0)%nat; [by do 3 eexists|].
  pose proof (empty_selection_spec d) as He. destruct (empty_selection d) as [r|]; [|by do 3 eexists].
  destruct He as [Hr Hz].
  destruct (ShiftStart_exact r d n) as (shifted & r1 & -> & Hiff & Hp).
  destruct (Z.eqb_spec shifted (- Z.of_nat n)) as [E|]; [|by do 3 eexists]. cbn [negb].
  specialize (Hp (proj1 Hiff E)). apply Hiff in E.
  destruct (inside_split _ _ (plain_inside r1 d)) as (before & old & after & Ht & Hpl).
  assert (Hlo : length old = n /\ (length before + length old)%nat = (place r d).1).
  { rewrite Hpl, Hr, Hz in Hp. rewrite Hr in E. injection Hp. rewrite Hr. lia. }
  set (there := if bool_decide (expected = []) then true else _).
  destruct there eqn:Eth; cbn [negb]; [|by do 3 eexists].
  destruct (plain_SetText r1 d replacement) as (r2 & d1 & -> & Hr2 & Ht1 & Hn1 & _).
  rewrite Hpl in *. rewrite Ht, splice_middle in Ht1.
  destruct (set_caret_after_spec r2 d1) as (d2 & -> & Hc2 & Ht2 & Hn2). rewrite Hr2 in Hc2.
  exists true, true, d2. split; [done|]. split; [by rewrite Hn2; apply Hn1|].
  exists before, old, after. split_and!; try done; [apply Hlo| | |by rewrite Ht2].
  - subst there. case_bool_decide; [by left|right]. apply bool_decide_eq_true in Eth.
    rewrite plain_GetText, Hpl, Ht, piece_middle in Eth. by injection Eth.
  - unfold caret_at. destruct Hlo as [_ ->]. rewrite Hr. by rewrite <- Hz, <- surjective_pairing.
Qed.

(** The raw keys of the last commit: written only over that very text, right before
    the selection; what is selected goes with it. *)
Lemma EscRestore_spec body raw d :
  v_composition (view d) = None ->
  exists replaced d', EscRestoreLastCommitSession body raw d = (replaced, d') /\
    v_composition (view d') = None /\
    if replaced then
      exists before selected after,
        v_text (view d) = before ++ body ++ selected ++ after /\
        v_selection (view d) = (length before + length body, length selected)%nat /\
        v_text (view d') = before ++ raw ++ after /\ caret_at (length before + length raw) d'
    else d' = d.
Proof.
  intros Hn. unfold EscRestoreLastCommitSession. case_bool_decide as Hb; [by do 2 eexists|].
  destruct (plain_GetSelection d) as (r & -> & Hr).
  destruct (ShiftStart_exact r d (length body)) as (shifted & r1 & -> & Hiff & Hp).
  destruct (Z.eqb_spec shifted (- Z.of_nat (length body))) as [E|]; [|by do 2 eexists]. cbn [negb].
  specialize (Hp (proj1 Hiff E)). apply Hiff in E.
  destruct (inside_split _ _ (plain_inside r1 d)) as (before & old & after & Ht & Hpl).
  case_bool_decide as Eg; cbn [negb]; [|by do 2 eexists].
  destruct (plain_SetText r1 d raw) as (r2 & d1 & -> & Hr2 & Ht1 & Hn1 & _).
  rewrite Hpl in *. rewrite Ht, splice_middle in Ht1.
  destruct (set_caret_after_spec r2 d1) as (d2 & -> & Hc2 & Ht2 & Hn2). rewrite Hr2 in Hc2. cbn [snd].
  exists true, d2. split; [done|]. split; [by rewrite Hn2; apply Hn1|].
  rewrite plain_GetText, Hpl, Ht, piece_middle in Eg. injection Eg as Eg.
  exists before, (drop (length body) old), after. rewrite Hr in Hp.
  injection Hp as Hp1 Hp2. rewrite Hr in E. split_and!; try done.
  - rewrite Ht. f_equal. by rewrite <- Eg at 1; rewrite app_assoc, take_drop.
  - rewrite length_drop. destruct (v_selection (view d)) as [s l]. cbn in *. f_equal; lia.
  - by rewrite Ht2.
Qed.

End Facts.
