(* ===== verification/Controller.v ===== *)
(** * The controller of the text service: state, routing and configuration
      (src/src/tsf/EngineController.h, EngineController.cpp; InputScopeChecker.h,
      core/TsfPromotionDecision.h)

    One object per thread of a host application.  It holds the engine and the
    composition, and decides from the shared block whether keys are its own and
    when a new configuration may replace the engine.  What a callback finds of
    Windows is a [Moment]; the host's document and the shared block are fields of
    the state, and between two callbacks both may change.

    The build is the one without the closed-source engine (VKEY_USE_RUST_ENGINE
    off): EngineFactory then makes a TypingEngine whatever the configuration. *)

From S2P Require Import Prelude Tables Config Action MacroPrefix MacroReload Macro QuickConvert.
From S2P Require Import SharedState SharedStateManager SettingsSync InputEngine TextStore Composition.
From coqutil Require Import Datatypes.RecordSettersUsingExistingGetters.
Open Scope Z_scope.

Class EngineFactory (E : Type) := { Create : TypingConfig -> E }.

(** ** What a callback finds *)

(** The scopes the checker names; the rest of the platform's is [OtherScope]. *)
Inductive InputScope :=
  | IS_PASSWORD | IS_NUMERIC_PASSWORD | IS_NUMERIC_PIN | IS_ALPHANUMERIC_PIN
  | IS_ALPHANUMERIC_PIN_SET | IS_EMAIL_USERNAME | IS_EMAIL_SMTPEMAILADDRESS
  | IS_EMAILNAME_OR_ADDRESS | IS_LOGINNAME | OtherScope.

(** [InputScopeCheckSession]; the list is empty when the host has no scopes. *)
Definition InputScopeCheck (scopes : list InputScope) : bool :=
  existsb (fun s => match s with OtherScope => false | _ => true end) scopes.

(** [config.toml] and its macros, when they can be read. *)
Definition Disk : Type := option (TypingConfig * gmap wstring wstring).

Record Moment := mkMoment {
  m_context : option Z;                               (* pContext *)
  m_ctrl : bool; m_alt : bool; m_win : bool; m_shift : bool; m_capsLock : bool; (* GetKeyState *)
  m_char : wchar;                                     (* VkToChar of the key *)
  m_lParam : Z; m_tick : Z;                           (* GetTickCount *)
  m_dynamicFlags : Z; m_staticFlags : Z;              (* GetStatus, zero when it fails *)
  m_keyboardDisabled : bool; m_emptyContext : bool;   (* the compartments *)
  m_scopes : list InputScope;
  m_scintilla : bool;                                 (* the classes of the windows in front *)
  m_disk : Disk; m_processId : Z;
  m_preserves : bool;                                 (* PreserveKey succeeds *)
  m_repostTimer : bool                                (* a focused window and a timer *)
}.

Definition u32_sub (a b : Z) : Z := (a - b) mod 2 ^ 32.

(** ** When a configuration may be promoted (TsfPromotionDecision.h) *)

Record TsfPromotionInputs := mkPromotion {
  engineBufferCount : nat; promo_isComposing : bool; rawMacroBufferEmpty : bool;
  pendingReviveEmpty : bool
}.
Definition CanPromoteTsfConfig (inp : TsfPromotionInputs) : bool :=
  (engineBufferCount inp =? 0)%nat && negb (promo_isComposing inp) &&
  rawMacroBufferEmpty inp && pendingReviveEmpty inp.

(** ** State *)

Record LastCommit := mkLastCommit {
  lc_text : wstring; lc_rawInput : wstring; lc_hasTrailingChar : bool; lc_timestamp : Z
}.
Definition no_commit : LastCommit := mkLastCommit [] [] false 0.
Inductive CommitUndoState := UndoIdle | UndoReady | UndoPrimed.
#[export] Instance CommitUndoState_eq_dec : EqDecision CommitUndoState.
Proof. solve_decision. Defined.

Record MacroUndo := mkMacroUndo {
  mu_shortcut : wstring; mu_expansion : wstring; mu_expansionLength : nat;
  mu_timestamp : Z; mu_active : bool
}.
Definition no_macro_undo : MacroUndo := mkMacroUndo [] [] 0 0 false.

(** The members that hold macros, those of the routing, those of the settings. *)
Record Macros := mkMacros {
  macroTable_ : gmap wstring wstring; macroPrefixIndex_ : MacroPrefixIndex;
  maxMacroKeyLen_ : nat; macroGeneration_ : Z; macroConfigLoaded_ : bool;
  rawMacroBuffer_ : wstring; wasFirstCharAutoCapped_ : bool; macroCrossCommit_ : bool;
  macroUndoState_ : MacroUndo; tempMacroOff_ : bool
}.
Record Routing := mkRouting {
  engineEnabled_ : bool; tsfActive_ : bool; vietnameseMode_ : bool; abiOk_ : bool;
  lastContext_ : option Z; scopeBlocked_ : bool; contextBlocked_ : bool; isScintillaApp_ : bool
}.
Record Settings := mkSettings {
  activeConfig_ : TypingConfig; pendingConfig_ : option TypingConfig;
  pendingSnapshotSerial_ : Z; engineNeedsRecreate_ : bool; convertConfig_ : ConvertConfig;
  sharedState_ : Handle; lastEpoch_ : Z
}.

Section Controller.
Context {E D R : Type} {IE : InputEngine E} {EF : EngineFactory E} {TC : TextContext D R}.
Context {CM : CaseMapper} {SP : CodeTable.SpacePlatform} {PP : PunctPlatform} {Lo : Locale}.

(** With the host's document and the shared block, when there is one. *)
Record Controller := mkController {
  engine_ : E; mgr_ : Manager; settings_ : Settings; routing_ : Routing; macros_ : Macros;
  digitLedWord_ : bool; pendingReviveWord_ : wstring; pendingReviveRange_ : option R;
  lastCommit_ : LastCommit; commitUndoState_ : CommitUndoState;
  doc_ : D; block_ : option SharedState
}.
Implicit Types (c : Controller) (m : Moment).

Definition config c : TypingConfig := activeConfig_ (settings_ c).
Definition IsComposing c : bool := pComposition_ (mgr_ c).
Definition HasEngineBuffer c : bool := (0 <? Count (engine_ c))%nat.

(** ** Edit sessions *)

(** [RequestEditSession]: synchronous, for reading and writing; a host that refuses
    or a session that fails is logged only. *)
Definition RequestEditSession m (session : Manager -> D -> bool * Manager * D) c : Controller :=
  match m_context m with
  | None => c
  | Some _ =>
      if GrantsSync true (doc_ c) then
        let '(_, mgr, d) := session (mgr_ c) (doc_ c) in { c with mgr_ := mgr; doc_ := d }
      else c
  end.
(** A session for reading, and what is known without it. *)
Definition ReadSession {A} m (session : D -> A) (otherwise : A) c : A :=
  match m_context m with
  | None => otherwise
  | Some _ => if GrantsSync false (doc_ c) then session (doc_ c) else otherwise
  end.

(** ** The shared block *)

Definition on_block (f : Handle -> SharedState -> SharedState) c : Controller :=
  { c with block_ ::= option_map (f (sharedState_ (settings_ c))) }.
Definition from_block {A} (f : Handle -> SharedState -> A) (otherwise : A) c : A :=
  match block_ c with Some p => f (sharedState_ (settings_ c)) p | None => otherwise end.

Definition shared_connected c : bool := from_block connected false c.
Definition shared_flags c : Z := from_block ReadFlags 0 c.
(** The reads of a callback find the block as it is; while its epoch is odd they
    fail, and so they do when a writer outlasts the retries. *)
Definition shared_read c : SharedState := from_block ReadNow zero_state c.
Definition shared_abi c : AbiCheckResult :=
  from_block (fun h p =>
    CheckAbiCompatibility h
      (replicate SEQLOCK_MAX_RETRIES
         (ss_epoch p, (ss_magic p, ss_structVersion p, ss_structSize p), ss_epoch p)))
    Incompatible c.
Definition reopen c : bool * Controller :=
  let '(h, ok) := OpenReadWrite (block_ c) in
  (ok, { c with settings_ ::= fun s => { s with sharedState_ := h } }).

Definition set_flag (flag : Z) (on : bool) c : Controller :=
  on_block (fun h => SetOrClearFlag h flag on) c.
Definition SetTsfTipActive (active : bool) c : Controller := set_flag TSF_TIP_ACTIVE active c.
Definition SetTsfNativeConvertReady m (ready : bool) c : Controller :=
  if shared_connected c
  then on_block (fun h => PublishNativeConvertCapability h (m_processId m) ready) c else c.

(** ** Macro tracking, as far as routing needs it *)

Definition clear_macro_undo (s : Macros) : Macros := { s with macroUndoState_ := no_macro_undo }.
Definition clear_macros (s : Macros) : Macros :=
  { s with macroUndoState_ := no_macro_undo; tempMacroOff_ := false; rawMacroBuffer_ := [];
           wasFirstCharAutoCapped_ := false; macroCrossCommit_ := false }.
Definition ResetMacroUndo c : Controller := { c with macros_ ::= clear_macro_undo }.
Definition ClearMacroTracking c : Controller := { c with macros_ ::= clear_macros }.

(** ** Routing *)

(** Is a key this instance's at all. *)
Definition RefreshKeyRouting c : bool * Controller :=
  if negb (abiOk_ (routing_ c)) || negb (shared_connected c) then (false, c)
  else
    let flags := shared_flags c in
    let enabled := has_flag flags ENGINE_ENABLED in
    let c := if Bool.eqb enabled (engineEnabled_ (routing_ c)) then c
             else ClearMacroTracking
                    { c with routing_ ::= fun r => { r with engineEnabled_ := enabled } } in
    if negb enabled then (false, c)
    else
      let active := has_flag flags TSF_ACTIVE in
      let c := if Bool.eqb active (tsfActive_ (routing_ c)) then c
               else ClearMacroTracking
                      { c with routing_ ::= fun r => { r with tsfActive_ := active } } in
      if negb active then (false, c)
      else
        let vietnamese := has_flag flags VIETNAMESE_MODE in
        let c := if Bool.eqb vietnamese (vietnameseMode_ (routing_ c)) then c
                 else ClearMacroTracking
                        { c with routing_ ::= fun r => { r with vietnameseMode_ := vietnamese } } in
        (true, c).

(** The scopes are looked at once for each context, the rest at each key. *)
Definition CheckContextBlocked m c : Controller :=
  let c := if bool_decide (m_context m = lastContext_ (routing_ c)) then c
           else
             let blocked := ReadSession m (fun _ => InputScopeCheck (m_scopes m)) false c in
             { c with routing_ ::= fun r => { r with lastContext_ := m_context m;
                                                     scopeBlocked_ := blocked } } in
  let input := mkInputState (bool_decide (m_context m <> None)) (m_dynamicFlags m)
                 (m_staticFlags m) (m_keyboardDisabled m) (m_emptyContext m)
                 (scopeBlocked_ (routing_ c)) in
  { c with routing_ ::= fun r => { r with contextBlocked_ := ShouldBlockTsfContext input } }.

Definition DetectScintillaApp m c : Controller :=
  { c with routing_ ::= fun r => { r with isScintillaApp_ := m_scintilla m } }.

(** ** Configuration *)

Definition CanPromotePendingConfig c : bool :=
  CanPromoteTsfConfig
    (mkPromotion (Count (engine_ c)) (IsComposing c)
       (bool_decide (rawMacroBuffer_ (macros_ c) = []))
       (bool_decide (pendingReviveWord_ c = []))).

(** The pending configuration becomes the active one. *)
Definition promote_config c : Controller :=
  match pendingConfig_ (settings_ c) with
  | None => c
  | Some cfg =>
      { c with settings_ ::= (fun s => { s with activeConfig_ := cfg; pendingConfig_ := None });
               mgr_ ::= fun g => { g with hidePreeditUnderline_ := hidePreeditUnderline cfg } }
  end.
Definition recreate_engine c : Controller :=
  let c := { c with engine_ := Create (config c);
                    settings_ ::= fun s => { s with engineNeedsRecreate_ := false } } in
  if spellSuggestEnabled (config c) then c else set_flag TSF_ENGINE_UNTRUSTED false c.
Definition TryPromotePendingConfig c : bool * Controller :=
  if negb (engineNeedsRecreate_ (settings_ c)) then (false, c)
  else if negb (CanPromotePendingConfig c) then (false, c)
  else (true, recreate_engine (promote_config c)).
Definition try_promote c : Controller := (TryPromotePendingConfig c).2.

(** The trigger switches are in the file only. *)
Definition with_triggers (disk cfg : TypingConfig) : TypingConfig :=
  { cfg with macroTriggerSpace := macroTriggerSpace disk;
             macroTriggerEnter := macroTriggerEnter disk;
             macroTriggerTab := macroTriggerTab disk; macroTriggerDir := macroTriggerDir disk }.
Definition spaceMacroKeys (table : gmap wstring wstring) : list wstring :=
  filter (fun k => L " " ∈ k) (map_to_list table).*1.
Definition load_table (table : gmap wstring wstring) (s : Macros) : Macros :=
  { s with macroTable_ := table; macroPrefixIndex_ := NewIndex (spaceMacroKeys table);
           maxMacroKeyLen_ := LongestMacroKeyLength table }.

Definition wants_macros c : bool :=
  macroEnabled (config c) ||
  match pendingConfig_ (settings_ c) with Some cfg => macroEnabled cfg | None => false end.

Definition ReloadMacros m (generation : Z) c : Controller :=
  if macroConfigLoaded_ (macros_ c) && (macroGeneration_ (macros_ c) =w generation) then c
  else
    match m_disk m with
    | None => { c with macros_ ::= fun s => { s with macroGeneration_ := generation } }
    | Some (disk, table) =>
        let c := { c with macros_ ::= fun s =>
          load_table ∅ (clear_macros { s with macroConfigLoaded_ := true;
                                              macroGeneration_ := generation }) } in
        if negb (wants_macros c) then c
        else
          { c with settings_ ::= (fun s =>
                     { s with activeConfig_ ::= with_triggers disk;
                              pendingConfig_ ::= option_map (with_triggers disk) });
                   macros_ ::= load_table table }
    end.

(** What the block says of the configuration; the bytes are checked, and more
    narrowly than the hook does. *)
Definition shared_config (state : SharedState) (cfg : TypingConfig) : TypingConfig :=
  let im := ss_inputMethod state in
  let ol := ss_optimizeLevel state in
  DecodeFeatureFlags (GetFeatureFlags state)
    { with_level (level_of_byte (ss_spellCheck state))
        { cfg with inputMethod := if im <=? 2 then method_of_byte im else Telex } with
        optimizeLevel := if ol <=? 2 then ol else 0 }.
Definition snapshot_serial (state : SharedState) : Z :=
  Z.lor (Z.shiftl (ss_epoch state) 8) (ss_configGeneration state).

Definition ApplySharedState m (state : SharedState) (allowMacroDiskRead : bool) c : Controller :=
  let wasVietnameseMode := vietnameseMode_ (routing_ c) in
  let wasMacroEnabled := macroEnabled (config c) in
  let vietnamese := has_flag (ss_flags state) VIETNAMESE_MODE in
  let newConfig := shared_config state (config c) in
  let c := { c with
    routing_ ::= (fun r => { r with engineEnabled_ := has_flag (ss_flags state) ENGINE_ENABLED;
                                    vietnameseMode_ := vietnamese });
    settings_ ::= (fun s => { s with convertConfig_ := GetConvertConfig state;
                                     pendingConfig_ := Some newConfig;
                                     engineNeedsRecreate_ := true;
                                     pendingSnapshotSerial_ := snapshot_serial state }) } in
  let c := if Bool.eqb wasVietnameseMode vietnamese then c else ClearMacroTracking c in
  let c := if Bool.eqb wasMacroEnabled (macroEnabled newConfig) then c
           else { c with macros_ ::= fun s => { s with macroConfigLoaded_ := false } } in
  let c :=
    match DecideMacroTable (mkTableInputs (macroConfigLoaded_ (macros_ c))
            (macroGeneration_ (macros_ c)) (ss_configGeneration state) allowMacroDiskRead) with
    | MacroReload => ReloadMacros m (ss_configGeneration state) c
    | MacroNone | MacroKeepStale => c
    end in
  try_promote c.

Definition set_abi (ok : bool) c : Controller :=
  { c with routing_ ::= fun r => { r with abiOk_ := ok } }.

(** The block is new, or valid again. *)
Definition take_block m (allowMacroDiskRead recovered : bool) c : bool * Controller :=
  let currentEpoch := from_block ReadEpoch 0 c in
  if negb recovered && (currentEpoch =w lastEpoch_ (settings_ c)) then
    let '(promoted, c) := TryPromotePendingConfig c in
    if allowMacroDiskRead && negb (macroConfigLoaded_ (macros_ c))
    then (true, ReloadMacros m (macroGeneration_ (macros_ c)) c) else (promoted, c)
  else
    let state := shared_read c in
    if negb (IsValid state) then
      match shared_abi c with
      | Incompatible => (false, set_flag TSF_ABI_MISMATCH true (set_abi false c))
      | _ => (false, c)
      end
    else
      let c := { c with settings_ ::= fun s => { s with lastEpoch_ := ss_epoch state } } in
      (true, ApplySharedState m state (allowMacroDiskRead || recovered) c).

Definition CheckConfigEvent m (allowMacroDiskRead : bool) c : bool * Controller :=
  let c := try_promote c in
  let '(opened, c) := if shared_connected c then (true, c) else reopen c in
  if negb opened then (false, c)
  else if abiOk_ (routing_ c) then take_block m allowMacroDiskRead false c
  else
    match shared_abi c with
    | Incompatible => (false, set_flag TSF_ABI_MISMATCH true c)
    | Retry => (false, c)
    | Compatible => take_block m allowMacroDiskRead true (set_abi true c)
    end.

Definition disable c : Controller :=
  let c := if engineEnabled_ (routing_ c) || tsfActive_ (routing_ c)
           then ClearMacroTracking c else c in
  { c with routing_ ::= fun r => { r with engineEnabled_ := false; tsfActive_ := false } }.

Definition read_flags (state : SharedState) c : Controller :=
  let flags := ss_flags state in
  { c with routing_ ::= fun r => { r with engineEnabled_ := has_flag flags ENGINE_ENABLED;
                                          tsfActive_ := has_flag flags TSF_ACTIVE;
                                          vietnameseMode_ := has_flag flags VIETNAMESE_MODE } }.

Definition RefreshFlags m c : Controller :=
  let c := DetectScintillaApp m c in
  let '(opened, c) := if shared_connected c then (true, c) else reopen c in
  if negb opened then disable c
  else
    let state := shared_read c in
    if negb (IsValid state) then disable c
    else
      let was := routing_ c in
      let c := read_flags state c in
      let now := routing_ c in
      let c := if Bool.eqb (engineEnabled_ was) (engineEnabled_ now) &&
                  Bool.eqb (tsfActive_ was) (tsfActive_ now) &&
                  Bool.eqb (vietnameseMode_ was) (vietnameseMode_ now)
               then c else ClearMacroTracking c in
      if negb (engineEnabled_ was) && engineEnabled_ now then ApplySharedState m state true c else c.

(** [SetCodeTable]. *)
Definition SetCodeTable (ct : CodeTable) c : Controller :=
  { c with settings_ ::= fun s =>
      { s with activeConfig_ ::= (fun cfg => { cfg with codeTable := ct });
               pendingConfig_ ::= option_map (fun cfg => { cfg with codeTable := ct }) } }.

Definition ToggleVietnameseMode c : Controller :=
  let c := on_block (fun h p => (ToggleFlag h VIETNAMESE_MODE p).2) c in
  let c := { c with routing_ ::= (fun r =>
                      { r with vietnameseMode_ := has_flag (shared_flags c) VIETNAMESE_MODE });
                    digitLedWord_ := false } in
  ClearMacroTracking c.

(** ** Construction *)

Definition fallback_config : TypingConfig :=
  { default_config with inputMethod := Telex; spellCheckEnabled := false; optimizeLevel := 0 }.

(** The members at their initial values.  There is no engine yet: its place is
    taken by one that every path of the constructor replaces. *)
Definition initial_controller (d : D) (block : option SharedState) : Controller :=
  mkController (Create default_config) new_manager
    (mkSettings default_config None 0 false QuickConvert.default_convert (mkHandle false false) 0)
    (mkRouting true false true false None false false false)
    (mkMacros ∅ (NewIndex []) 0 0 false [] false false no_macro_undo false)
    false [] None no_commit UndoIdle d block.

Definition with_fallback c : Controller :=
  { c with settings_ ::= (fun s => { s with activeConfig_ := fallback_config });
           engine_ := Create fallback_config }.

Definition NewController m (d : D) (block : option SharedState) : Controller :=
  let '(opened, c) := reopen (initial_controller d block) in
  if negb opened then
    with_fallback { c with routing_ ::= fun r => { r with engineEnabled_ := false } }
  else
    match shared_abi c with
    | Incompatible => with_fallback (set_flag TSF_ABI_MISMATCH true (set_abi false c))
    | Retry => with_fallback (set_abi false c)
    | Compatible =>
        let c := set_abi true c in
        let state := shared_read c in
        if IsValid state then
          let c := ApplySharedState m state true c in
          { c with settings_ ::= fun s => { s with lastEpoch_ := ss_epoch state } }
        else with_fallback c
    end.

End Controller.

Arguments Controller : clear implicits.
