(* ===== verification/Readonly.v ===== *)
(** * The text before the caret, published for the hook
      (src/src/tsf/ReadonlyContextProvider.h, ReadonlyContextProvider.cpp)

    When the hook types in the application in front, the text service there only
    watches: after each edit of the document it derives an anchor from the text
    before the caret and writes it to the shared block, unless it is the anchor it
    wrote last.  The hook reads it before the first letter of a word.  The
    application in front, the ones behind it and the writers of the settings are
    steps of one system. *)

From Stdlib Require Import Strings.String.
From S2P Require Import Prelude AutoCap SharedState SharedStateManager TextStore Composition Controller.
From coqutil Require Import Datatypes.RecordSettersUsingExistingGetters.
Open Scope Z_scope.
Open Scope list_scope.

Implicit Types (p : SharedState) (a b : HookContextAnchor).

(** ** Anchors that say the same *)

Definition AnchorPayloadEquals a b : bool :=
  Bool.eqb (isAvailable a) (isAvailable b) && Bool.eqb (isSentenceStart a) (isSentenceStart b) &&
  Bool.eqb (isLineStart a) (isLineStart b) && Bool.eqb (isWordStart a) (isWordStart b) &&
  (syllableLen a =? syllableLen b)%nat &&
  bool_decide (take (syllableLen a) (currentSyllable a) = take (syllableLen a) (currentSyllable b)).

Definition same_payload a b : Prop := AnchorPayloadEquals a b = true.

Lemma same_payload_iff a b :
  same_payload a b <->
  isAvailable a = isAvailable b /\ isSentenceStart a = isSentenceStart b /\
  isLineStart a = isLineStart b /\ isWordStart a = isWordStart b /\
  syllableLen a = syllableLen b /\
  take (syllableLen a) (currentSyllable a) = take (syllableLen b) (currentSyllable b).
Proof.
  unfold same_payload, AnchorPayloadEquals.
  rewrite !andb_true_iff, !eqb_true_iff, Nat.eqb_eq, bool_decide_eq_true.
  split; intros H; destruct_and!; split_and!; congruence.
Qed.

#[export] Instance same_payload_equivalence : Equivalence same_payload.
Proof.
  split.
  - intros a. apply same_payload_iff. by split_and!.
  - intros a b H. apply same_payload_iff in H. apply same_payload_iff. by destruct_and!; split_and!.
  - intros a b c H1 H2. apply same_payload_iff in H1, H2. apply same_payload_iff.
    destruct_and!; split_and!; congruence.
Qed.

(** ** What the hook makes of one *)

(** The capital the text calls for, when there is an anchor to go by. *)
Definition anchor_capital a : option bool :=
  if isAvailable a then Some (isSentenceStart a || isLineStart a) else None.
(** The syllable before the caret. *)
Definition anchor_syllable a : wstring := take (syllableLen a) (currentSyllable a).

#[export] Instance anchor_capital_proper : Proper (same_payload ==> eq) anchor_capital.
Proof. intros a b H. apply same_payload_iff in H as (H1 & H2 & H3 & _). unfold anchor_capital. by rewrite H1, H2, H3. Qed.
#[export] Instance anchor_syllable_proper : Proper (same_payload ==> eq) anchor_syllable.
Proof. intros a b H. apply same_payload_iff in H. by destruct H as (_ & _ & _ & _ & _ & H). Qed.

(** The probe of ProcessKeyDown before the first letter of a word, nobody writing
    meanwhile. *)
Definition ReadAutoCapAnchor (h : Handle) p : option bool :=
  if has_flag (ReadFlags h p) TSF_READONLY then
    let g := generation (ss_contextAnchor p) in
    match ReadAnchor h p [(g, ss_contextAnchor p, g)] with
    | Some snap => if isAvailable snap then Some (isSentenceStart snap || isLineStart snap) else None
    | None => None
    end
  else None.

(** ** The provider *)

(** [listening_] and [editing_] are whether the two cookies are valid. *)
Record Provider := mkProvider {
  pSharedState_ : option Handle; isFocused_ : bool;
  listening_ : bool; editing_ : bool; lastWritten_ : HookContextAnchor
}.
Definition new_provider (mgr : option Handle) : Provider := mkProvider mgr false false false zero_anchor.

Implicit Types (s : Provider).

Definition IsReadonlyModeActive s p : bool :=
  match pSharedState_ s with
  | None => false
  | Some h => IsConnected h p && has_flag (ReadFlags h p) TSF_READONLY
  end.

(** [advised] is whether the context in front takes the sink. *)
Definition UnadviseEditSink s : Provider := { s with editing_ := false }.
Definition AdviseEditSink (advised : bool) s : Provider :=
  let s := UnadviseEditSink s in if advised then { s with editing_ := true } else s.

(** [focus]: the document in front at that time, and whether it takes the sink. *)
Definition Advise (source : bool) (focus : option bool) s : bool * Provider :=
  if listening_ s then (true, s)
  else if negb source then (false, s)
  else
    let s := { s with listening_ := true } in
    (true, match focus with
           | Some advised => AdviseEditSink advised { s with isFocused_ := true }
           | None => s
           end).
Definition Unadvise s : Provider :=
  let s := UnadviseEditSink s in { s with listening_ := false; isFocused_ := false }.

Definition OnSetFocus (focus : option bool) s p : Provider * SharedState :=
  match focus with
  | None =>
      let '(s, p) :=
        match pSharedState_ s with
        | Some h => if IsConnected h p then ({ s with lastWritten_ := zero_anchor }, WriteAnchor h zero_anchor p)
                    else (s, p)
        | None => (s, p)
        end in
      ({ (UnadviseEditSink s) with isFocused_ := false }, p)
  | Some advised => (AdviseEditSink advised { s with isFocused_ := true }, p)
  end.

(** *** The anchor of a document *)

Definition kReadbackChars : nat := 64.

(** What the context says besides its text: there is one, its compartment disables
    the keyboard, the scopes at the caret. *)
Record Surroundings := mkSurroundings {
  sr_context : bool; sr_keyboardDisabled : bool; sr_scopes : list InputScope
}.

Section Documents.
Context {D R : Type} {TC : TextContext D R}.
Implicit Types (d : D) (sr : Surroundings).

Definition IsContextBlockedInline sr d : bool :=
  if negb (sr_context sr) then true
  else if sr_keyboardDisabled sr then true
  else match GetSelection d with None => false | Some _ => InputScopeCheck (sr_scopes sr) end.

Definition ReadPrecedingCharsInline sr (bufSize : nat) d : wstring :=
  if negb (sr_context sr) || (bufSize =? 0)%nat then []
  else
    match empty_selection d with
    | None => []
    | Some r =>
        match ShiftStart r (- Z.of_nat bufSize) d with
        | None => []
        | Some (shifted, peek) =>
            if 0 <=? shifted then [] else default [] (GetText peek (Z.to_nat (- shifted)) d)
        end
    end.

Definition AnchorOf sr d : HookContextAnchor :=
  let anchor := zero_anchor in
  if IsContextBlockedInline sr d then { anchor with isAvailable := false }
  else
    let anchor := DeriveAnchorFromPreceding (ReadPrecedingCharsInline sr kReadbackChars d) anchor in
    { anchor with isAvailable := true }.

Definition UpdateAnchor sr d s p : Provider * SharedState :=
  let anchor := AnchorOf sr d in
  if AnchorPayloadEquals anchor (lastWritten_ s) then (s, p)
  else
    let p := match pSharedState_ s with Some h => WriteAnchor h anchor p | None => p end in
    ({ s with lastWritten_ := anchor }, p).

Definition OnEndEdit sr d s p : Provider * SharedState :=
  if negb (isFocused_ s) then (s, p)
  else if negb (IsReadonlyModeActive s p) then (s, p)
  else UpdateAnchor sr d s p.

(** ** Several applications and one block *)

Record System := mkSystem { sys_apps : list (Provider * D); sys_block : SharedState }.
Implicit Types (w : System).

Definition write_handle : Handle := mkHandle true true.

(** The host changes a document before it reports the edit.  An application comes
    to the front when the one before has gone to the back; a service is loaded in
    an application at the back, or at the front when none is there, and unloaded at
    the back. *)
Definition nobody_in_front w : Prop :=
  forall i s d, sys_apps w !! i = Some (s, d) -> isFocused_ s = false.

Inductive step : System -> System -> Prop :=
  | step_load d focus w :
      (focus = None \/ nobody_in_front w) ->
      step w { w with sys_apps ::= fun apps =>
                 apps ++ [((Advise true focus (new_provider (Some write_handle))).2, d)] }
  | step_edit i s d d' w : sys_apps w !! i = Some (s, d) ->
      step w { w with sys_apps ::= <[i := (s, d')]> }
  | step_unload i s d w : sys_apps w !! i = Some (s, d) -> isFocused_ s = false ->
      step w { w with sys_apps ::= <[i := (Unadvise s, d)]> }
  | step_front i s d advised w :
      sys_apps w !! i = Some (s, d) -> listening_ s = true -> nobody_in_front w ->
      step w (let '(s', p') := OnSetFocus (Some advised) s (sys_block w) in
              mkSystem (<[i := (s', d)]> (sys_apps w)) p')
  | step_back i s d w : sys_apps w !! i = Some (s, d) -> isFocused_ s = true ->
      step w (let '(s', p') := OnSetFocus None s (sys_block w) in
              mkSystem (<[i := (s', d)]> (sys_apps w)) p')
  | step_end_edit i s d sr w : sys_apps w !! i = Some (s, d) -> editing_ s = true ->
      step w (let '(s', p') := OnEndEdit sr d s (sys_block w) in
              mkSystem (<[i := (s', d)]> (sys_apps w)) p')
  | step_settings h state w : ss_magic state = MAGIC_VALUE ->
      step w { w with sys_block ::= Write h state }
  | step_flag h bit on w : step w { w with sys_block ::= SetOrClearFlag h bit on }
  | step_toggle h bit w : step w { w with sys_block ::= fun p => (ToggleFlag h bit p).2 }.

Definition initial : System := mkSystem [] { InitDefaults with ss_epoch := 2 }.
Inductive reachable : System -> Prop :=
  | reachable_initial : reachable initial
  | reachable_step w w' : reachable w -> step w w' -> reachable w'.

(** ** The invariant *)

(** The block holds what the application in front wrote last, or nothing. *)
Record Agrees (apps : list (Provider * D)) p : Prop := {
  agrees_magic : ss_magic p = MAGIC_VALUE;
  agrees_range : 0 <= generation (ss_contextAnchor p) < 2 ^ 32;
  agrees_even : Z.even (generation (ss_contextAnchor p)) = true;
  agrees_handle i s d : apps !! i = Some (s, d) -> pSharedState_ s = Some write_handle;
  agrees_behind i s d : apps !! i = Some (s, d) -> isFocused_ s = false -> lastWritten_ s = zero_anchor;
  agrees_front i s d : apps !! i = Some (s, d) -> isFocused_ s = true ->
    same_payload (ss_contextAnchor p) (lastWritten_ s);
  agrees_alone i j s d s' d' : apps !! i = Some (s, d) -> apps !! j = Some (s', d') ->
    isFocused_ s = true -> isFocused_ s' = true -> i = j;
  agrees_nobody : (forall i s d, apps !! i = Some (s, d) -> isFocused_ s = false) ->
    same_payload (ss_contextAnchor p) zero_anchor
}.
Definition agreed w : Prop := Agrees (sys_apps w) (sys_block w).

Lemma WriteAnchorSeqlock_payload dst src : same_payload (WriteAnchorSeqlock dst src) src.
Proof. apply same_payload_iff. by split_and!. Qed.
Lemma WriteAnchorSeqlock_even dst src :
  0 <= generation dst < 2 ^ 32 -> Z.even (generation dst) = true ->
  0 <= generation (WriteAnchorSeqlock dst src) < 2 ^ 32 /\
  Z.even (generation (WriteAnchorSeqlock dst src)) = true.
Proof.
  intros Hg He. unfold WriteAnchorSeqlock. record.simp.
  assert (forall n, 0 <= u32_incr n < 2 ^ 32) by (intros; apply Z.mod_pos_bound; lia).
  split; [done|]. rewrite <- Z.negb_odd, u32_incr_odd by done.
  by rewrite <- Z.negb_odd, u32_incr_odd, He.
Qed.
Lemma WriteAnchor_ready a p :
  ss_magic p = MAGIC_VALUE ->
  WriteAnchor write_handle a p =
    { p with ss_contextAnchor ::= fun dst => WriteAnchorSeqlock dst a }.
Proof. intros H. unfold WriteAnchor. by rewrite H. Qed.

(** One application changes, what it wrote last with it. *)
Lemma Agrees_insert i s d s' d' apps p p' :
  Agrees apps p -> apps !! i = Some (s, d) ->
  pSharedState_ s' = pSharedState_ s ->
  (isFocused_ s' = true -> isFocused_ s = true \/ forall j s d, apps !! j = Some (s, d) -> isFocused_ s = false) ->
  (isFocused_ s' = false -> lastWritten_ s' = zero_anchor) ->
  ss_magic p' = MAGIC_VALUE ->
  0 <= generation (ss_contextAnchor p') < 2 ^ 32 -> Z.even (generation (ss_contextAnchor p')) = true ->
  (isFocused_ s' = true -> same_payload (ss_contextAnchor p') (lastWritten_ s')) ->
  (isFocused_ s' = false ->
     ss_contextAnchor p' = ss_contextAnchor p /\ isFocused_ s = false \/
     isFocused_ s = true /\ same_payload (ss_contextAnchor p') zero_anchor) ->
  Agrees (<[i := (s', d')]> apps) p'.
Proof.
  intros A Hi Hmgr Hfront Hbehind Hm Hr He Hsame Hclear.
  assert (Hlk : forall j s1 d1, <[i := (s', d')]> apps !! j = Some (s1, d1) ->
    j = i /\ s1 = s' \/ j <> i /\ apps !! j = Some (s1, d1)).
  { intros j s1 d1. destruct (decide (j = i)) as [->|Hne].
    - rewrite list_lookup_insert_eq by (by eapply lookup_lt_Some). intros [= <- <-]. auto.
    - rewrite list_lookup_insert_ne by done. auto. }
  assert (Hothers : isFocused_ s' = true -> forall j s1 d1, j <> i -> apps !! j = Some (s1, d1) ->
    isFocused_ s1 = false).
  { intros Hf j s1 d1 Hne Hj. destruct (Hfront Hf) as [Hs|Hn]; [|by eapply Hn].
    apply not_true_is_false. intros H1. by destruct (agrees_alone _ _ A _ _ _ _ _ _ Hj Hi H1 Hs). }
  split; [done..| | | | |].
  - intros j s1 d1 [[-> ->]|[_ Hj]]%Hlk; [rewrite Hmgr|]; by eapply agrees_handle.
  - intros j s1 d1 [[-> ->]|[_ Hj]]%Hlk; [done|by eapply agrees_behind].
  - intros j s1 d1 [[-> ->]|[Hne Hj]]%Hlk; [done|]. intros H1.
    destruct (isFocused_ s') eqn:Ef; [by rewrite (Hothers eq_refl _ _ _ Hne Hj) in H1|].
    destruct (Hclear eq_refl) as [[-> _]|[Hs _]]; [by eapply agrees_front|].
    by destruct (agrees_alone _ _ A _ _ _ _ _ _ Hj Hi H1 Hs).
  - intros j k s1 d1 s2 d2 [[-> ->]|[Hj Hj']]%Hlk [[-> ->]|[Hk Hk']]%Hlk H1 H2; try done.
    + by rewrite (Hothers H1 _ _ _ Hk Hk') in H2.
    + by rewrite (Hothers H2 _ _ _ Hj Hj') in H1.
    + by eapply agrees_alone.
  - intros Hn.
    assert (Ef : isFocused_ s' = false).
    { apply (Hn i s' d'). apply list_lookup_insert_eq. by eapply lookup_lt_Some. }
    destruct (Hclear Ef) as [[-> Hs]|[_ H]]; [|done].
    apply (agrees_nobody _ _ A). intros j s1 d1 Hj. destruct (decide (j = i)) as [->|Hne].
    + by simplify_eq.
    + apply (Hn j s1 d1). by rewrite list_lookup_insert_ne.
Qed.

(** The block changes but for the anchor. *)
Lemma Agrees_block apps p p' :
  Agrees apps p -> ss_magic p' = MAGIC_VALUE -> ss_contextAnchor p' = ss_contextAnchor p ->
  Agrees apps p'.
Proof. intros [] Hm Ha. split; rewrite ?Ha; done. Qed.

Lemma agreed_settings h state apps p :
  ss_magic state = MAGIC_VALUE -> Agrees apps p -> Agrees apps (Write h state p).
Proof.
  intros Hm A. destruct (pState h) eqn:Ep, (isWritable h) eqn:Ew;
    try (by unfold Write; rewrite ?Ep, ?Ew).
  rewrite Write_spec by done. by apply (Agrees_block _ p).
Qed.
Lemma agreed_flag h bit on apps p : Agrees apps p -> Agrees apps (SetOrClearFlag h bit on p).
Proof.
  intros A. unfold SetOrClearFlag. destruct (connected h p); [|done].
  apply (Agrees_block _ p); [done| |done]. apply (agrees_magic _ _ A).
Qed.
Lemma agreed_toggle h bit apps p : Agrees apps p -> Agrees apps (ToggleFlag h bit p).2.
Proof.
  intros A. unfold ToggleFlag. destruct (connected h p); [|done].
  apply (Agrees_block _ p); [done| |done]. apply (agrees_magic _ _ A).
Qed.

(** A write of the application in front, or of the one that leaves. *)
Lemma UpdateAnchor_spec sr d s p :
  ss_magic p = MAGIC_VALUE -> pSharedState_ s = Some write_handle ->
  0 <= generation (ss_contextAnchor p) < 2 ^ 32 -> Z.even (generation (ss_contextAnchor p)) = true ->
  same_payload (ss_contextAnchor p) (lastWritten_ s) ->
  let '(s', p') := UpdateAnchor sr d s p in
  pSharedState_ s' = pSharedState_ s /\ isFocused_ s' = isFocused_ s /\
  ss_magic p' = MAGIC_VALUE /\ ss_flags p' = ss_flags p /\
  0 <= generation (ss_contextAnchor p') < 2 ^ 32 /\ Z.even (generation (ss_contextAnchor p')) = true /\
  same_payload (ss_contextAnchor p') (lastWritten_ s') /\
  same_payload (ss_contextAnchor p') (AnchorOf sr d).
Proof.
  intros Hm Hh Hr He Hs. pose proof Hr as [? ?]. unfold UpdateAnchor.
  destruct (AnchorPayloadEquals (AnchorOf sr d) (lastWritten_ s)) eqn:Ea.
  - split_and!; try done. etransitivity; [exact Hs|]. by symmetry.
  - rewrite Hh, WriteAnchor_ready by done. record.simp.
    destruct (WriteAnchorSeqlock_even _ (AnchorOf sr d) Hr He) as [[? ?] ?].
    split_and!; try done; apply WriteAnchorSeqlock_payload.
Qed.

Lemma agreed_load d focus apps p :
  focus = None \/ (forall i s d, apps !! i = Some (s, d) -> isFocused_ s = false) ->
  Agrees apps p ->
  Agrees (apps ++ [((Advise true focus (new_provider (Some write_handle))).2, d)]) p.
Proof.
  intros Hf A. set (s' := (Advise true focus _).2).
  assert (Hs : pSharedState_ s' = Some write_handle /\ lastWritten_ s' = zero_anchor /\
    (isFocused_ s' = true -> forall i s d, apps !! i = Some (s, d) -> isFocused_ s = false)).
  { destruct focus as [[]|]; (split_and!; [done|done|]); try done;
      by (destruct Hf as [|Hf]; [done|]). }
  clearbody s'. destruct Hs as (Hh & Hl & Hn).
  assert (Hlk : forall i s1 d1, (apps ++ [(s', d)]) !! i = Some (s1, d1) ->
    apps !! i = Some (s1, d1) \/ i = length apps /\ s1 = s').
  { intros i s1 d1 H. apply lookup_snoc_Some in H as [[_ H]|[-> [= <- <-]]]; auto. }
  split; try apply A.
  - intros i s1 d1 [H|[_ ->]]%Hlk; [by eapply agrees_handle|done].
  - intros i s1 d1 [H|[_ ->]]%Hlk; [by eapply agrees_behind|done].
  - intros i s1 d1 [H|[_ ->]]%Hlk H1; [by eapply agrees_front|].
    rewrite Hl. apply (agrees_nobody _ _ A). eauto.
  - intros i j s1 d1 s2 d2 [Hi|[Hi ->]]%Hlk [Hj|[Hj ->]]%Hlk H1 H2; try by subst.
    + by eapply agrees_alone.
    + by rewrite (Hn H2 _ _ _ Hi) in H1.
    + by rewrite (Hn H1 _ _ _ Hj) in H2.
  - intros H. apply (agrees_nobody _ _ A). intros i s1 d1 Hi. apply (H i s1 d1).
    by apply lookup_app_l_Some.
Qed.

Lemma agreed_edit i s d d' apps p :
  apps !! i = Some (s, d) -> Agrees apps p -> Agrees (<[i := (s, d')]> apps) p.
Proof.
  intros Hi A. apply (Agrees_insert i s d s d' apps p p); try done; try apply A; auto.
  - by eapply agrees_behind.
  - by eapply agrees_front.
Qed.
Lemma agreed_unload i s d apps p :
  apps !! i = Some (s, d) -> isFocused_ s = false ->
  Agrees apps p -> Agrees (<[i := (Unadvise s, d)]> apps) p.
Proof.
  intros Hi Hf A. apply (Agrees_insert i s d _ d apps p p); try done; try apply A; auto.
  intros _. exact (agrees_behind _ _ A i s d Hi Hf).
Qed.
Lemma agreed_front i s d advised apps p :
  apps !! i = Some (s, d) -> (forall i s d, apps !! i = Some (s, d) -> isFocused_ s = false) ->
  Agrees apps p ->
  let '(s', p') := OnSetFocus (Some advised) s p in Agrees (<[i := (s', d)]> apps) p'.
Proof.
  intros Hi Hn A. cbn [OnSetFocus].
  apply (Agrees_insert i s d _ d apps p p); destruct advised; try done; try apply A; auto;
    intros _; change (same_payload (ss_contextAnchor p) (lastWritten_ s));
    rewrite (agrees_behind _ _ A i s d) by eauto; by apply (agrees_nobody _ _ A).
Qed.
Lemma agreed_back i s d apps p :
  apps !! i = Some (s, d) -> isFocused_ s = true -> Agrees apps p ->
  let '(s', p') := OnSetFocus None s p in Agrees (<[i := (s', d)]> apps) p'.
Proof.
  intros Hi Hf A. unfold OnSetFocus. rewrite (agrees_handle _ _ A i s d) by done.
  assert (IsConnected write_handle p = true) as ->
    by (unfold IsConnected, connected; by rewrite (agrees_magic _ _ A)).
  rewrite WriteAnchor_ready by apply A.
  destruct (WriteAnchorSeqlock_even (ss_contextAnchor p) zero_anchor (agrees_range _ _ A) (agrees_even _ _ A)).
  apply (Agrees_insert i s d _ d apps p); try done; try apply A; auto.
  intros _. right. split; [done|]. apply WriteAnchorSeqlock_payload.
Qed.
Lemma agreed_end_edit i s d sr apps p :
  apps !! i = Some (s, d) -> Agrees apps p ->
  let '(s', p') := OnEndEdit sr d s p in Agrees (<[i := (s', d)]> apps) p'.
Proof.
  intros Hi A. unfold OnEndEdit. destruct (isFocused_ s) eqn:Ef; cbn [negb];
    [|by apply (agreed_edit i s d d)].
  destruct (IsReadonlyModeActive s p); cbn [negb]; [|by apply (agreed_edit i s d d)].
  pose proof (UpdateAnchor_spec sr d s p (agrees_magic _ _ A) (agrees_handle _ _ A _ _ _ Hi)
    (agrees_range _ _ A) (agrees_even _ _ A) (agrees_front _ _ A _ _ _ Hi Ef)) as H.
  destruct (UpdateAnchor sr d s p) as [s' p'].
  destruct H as (H1 & H2 & H3 & _ & H4 & H5 & H6 & _).
  apply (Agrees_insert i s d _ d apps p); try done; auto; by rewrite H2, Ef.
Qed.

Lemma agreed_step w w' : agreed w -> step w w' -> agreed w'.
Proof.
  intros A St. destruct St; unfold agreed in *; try record.simp;
    auto using agreed_load, agreed_settings, agreed_flag, agreed_toggle.
  - by apply (agreed_edit i s d).
  - by apply (agreed_unload i s d).
  - by apply (agreed_front i s d advised).
  - pose proof (agreed_back i s d _ _ H H0 A). by destruct (OnSetFocus None s _).
  - pose proof (agreed_end_edit i s d sr _ _ H A). by destruct (OnEndEdit sr d s _).
Qed.

Lemma reachable_agreed w : reachable w -> agreed w.
Proof.
  induction 1 as [|w w' _ IH St]; [|by apply (agreed_step w)]. by split.
Qed.

(** ** What the hook reads *)

Lemma ReadAutoCapAnchor_spec h p :
  pState h = true -> ss_magic p = MAGIC_VALUE -> has_flag (ss_flags p) TSF_READONLY = true ->
  Z.even (generation (ss_contextAnchor p)) = true ->
  ReadAutoCapAnchor h p = anchor_capital (ss_contextAnchor p).
Proof.
  intros Hh Hm Hf He.
  assert (Hc : connected h p = true) by (unfold connected; by rewrite Hh, Hm).
  unfold ReadAutoCapAnchor, ReadFlags, ReadAnchor. rewrite Hc, Hf. cbn [take ReadAnchorSeqlock].
  by rewrite <- Z.negb_even, He, Z.eqb_refl.
Qed.

Context {PH : PlainHost D R}.

Definition last_chars (n : nat) (t : wstring) : wstring := drop (length t - n) t.
Definition before_caret d : wstring := take (v_selection (view d)).1 (v_text (view d)).

Lemma ReadPrecedingCharsInline_spec sr n d :
  sr_context sr = true -> (v_selection (view d)).2 = 0%nat ->
  ReadPrecedingCharsInline sr n d = last_chars n (before_caret d).
Proof.
  intros Hc Hs. unfold ReadPrecedingCharsInline, empty_selection. rewrite Hc. cbn [negb orb].
  pose proof (plain_selection d) as Hin. unfold inside in Hin.
  destruct (plain_GetSelection d) as (r & -> & Hr). rewrite plain_IsEmpty, Hr, Hs. cbn [Nat.eqb].
  unfold last_chars, before_caret. rewrite length_take_le by lia.
  destruct (Nat.eqb_spec n 0) as [->|Hn]; [by rewrite drop_ge by (rewrite length_take; lia)|].
  destruct (plain_ShiftStart r d n) as (r' & -> & Hr'). rewrite Hr, Hs in *.
  set (start := (v_selection (view d)).1) in *. cbn [Nat.add].
  destruct (Z.leb_spec 0 (- Z.of_nat (Nat.min n start))).
  { assert (start = 0%nat) as -> by lia. by rewrite take_0, drop_nil. }
  rewrite plain_GetText, Hr', Z.opp_involutive, Nat2Z.id. unfold piece. cbn [fst snd Nat.add].
  change (default [] ?o) with (match o with Some t => t | None => [] end). cbn iota.
  rewrite take_take, Nat.min_id, take_drop_commute.
  replace (start - Nat.min n start + Nat.min n start)%nat with start by lia.
  by replace (start - Nat.min n start)%nat with (start - n)%nat by lia.
Qed.

Lemma AnchorOf_capital sr d :
  anchor_capital (AnchorOf sr d) =
    if IsContextBlockedInline sr d then None
    else Some (ComputeShouldAutoCap (ReadPrecedingCharsInline sr kReadbackChars d)).
Proof.
  unfold AnchorOf. destruct (IsContextBlockedInline sr d); [done|].
  unfold anchor_capital. record.simp. by rewrite DeriveAnchor_capital.
Qed.

Lemma AnchorOf_syllable sr d :
  IsContextBlockedInline sr d = false ->
  ends_with_syllable (ReadPrecedingCharsInline sr kReadbackChars d) (anchor_syllable (AnchorOf sr d)).
Proof.
  intros Hb. unfold AnchorOf, anchor_syllable. rewrite Hb. record.simp.
  set (text := ReadPrecedingCharsInline sr kReadbackChars d).
  pose proof (DeriveAnchor_syllable text zero_anchor) as H. cbv zeta in H.
  destruct (isWordStart _); [|by destruct H].
  destruct H as [-> H]. rewrite take_0. exists text. rewrite app_nil_r.
  split_and!; [done|constructor|unfold kMaxSyllable; cbn; lia|done].
Qed.

(** C13. The document of the application in front has been edited, in read-only mode
    and with the block connected, and the caret is in it with nothing selected: the
    block tells the hook what the last 64 characters before the caret say, nothing
    when the field is blocked, and otherwise whether the next letter is to be a
    capital and which syllable it continues.  That holds in every state the services
    can reach by being loaded, focused and unfocused, by edits and by the writers of
    the settings, in whatever order, where a service is unloaded only from the back:
    one unloaded in front leaves an anchor of another window for the hook to read
    ([unloading_leaves_anchor]). *)
Theorem published_anchor_is_text w i s d sr h :
  reachable w -> sys_apps w !! i = Some (s, d) -> isFocused_ s = true ->
  IsReadonlyModeActive s (sys_block w) = true -> pState h = true ->
  sr_context sr = true -> (v_selection (view d)).2 = 0%nat ->
  let p := (OnEndEdit sr d s (sys_block w)).2 in
  let text := last_chars kReadbackChars (before_caret d) in
  if IsContextBlockedInline sr d then ReadAutoCapAnchor h p = None
  else ReadAutoCapAnchor h p = Some (ComputeShouldAutoCap text) /\
       ends_with_syllable text (anchor_syllable (ss_contextAnchor p)).
Proof.
  intros Hw Hi Hf Ha Hh Hc Hs. cbv zeta. pose proof (reachable_agreed w Hw) as A.
  rewrite <- (ReadPrecedingCharsInline_spec sr) by done.
  unfold OnEndEdit. rewrite Hf, Ha. cbn [negb].
  pose proof (UpdateAnchor_spec sr d s _ (agrees_magic _ _ A) (agrees_handle _ _ A _ _ _ Hi)
    (agrees_range _ _ A) (agrees_even _ _ A) (agrees_front _ _ A _ _ _ Hi Hf)) as H.
  destruct (UpdateAnchor sr d s (sys_block w)) as [s' p].
  destruct H as (_ & _ & Hm & Hfl & _ & He & _ & Hp). cbn [snd].
  rewrite ReadAutoCapAnchor_spec; [| | |rewrite Hfl|]; try done.
  2: { unfold IsReadonlyModeActive in Ha. rewrite (agrees_handle _ _ A _ _ _ Hi) in Ha.
       unfold ReadFlags, IsConnected, connected in Ha. by rewrite (agrees_magic _ _ A) in Ha. }
  rewrite (anchor_capital_proper _ _ Hp), (anchor_syllable_proper _ _ Hp), AnchorOf_capital.
  destruct (IsContextBlockedInline sr d) eqn:Eb; [done|].
  split; [done|]. by apply AnchorOf_syllable.
Qed.

End Documents.

(** ** On a sheet *)

Module Sheets.
Import Sheet.

Definition plain_field : Surroundings := mkSurroundings true false [].
Definition password_field : Surroundings := mkSurroundings true false [IS_PASSWORD].

(** A window with the caret at [caret] and [selected] characters selected. *)
Definition window (text : string) (caret selected : nat) : View :=
  mkView (wstr text) (caret, selected) None.
Definition readonly_block : SharedState := SetOrClearFlag write_handle TSF_READONLY true (sys_block (D := View) initial).
(** One application, loaded in front. *)
Definition loaded : Provider := (Advise true (Some true) (new_provider (Some write_handle))).2.
Definition one_window (d : View) : System := mkSystem [(loaded, d)] readonly_block.

Lemma one_window_reachable d : reachable (one_window d).
Proof.
  apply (reachable_step {| sys_apps := []; sys_block := readonly_block |}).
  - apply (reachable_step initial); [constructor|]. exact (step_flag write_handle TSF_READONLY true initial).
  - refine (step_load d (Some true) (mkSystem [] readonly_block) _). by right.
Qed.

Lemma published_anchor_is_text_witness :
  let after sr (text : string) caret :=
    (OnEndEdit sr (window text caret 0) loaded readonly_block).2 in
  ReadAutoCapAnchor write_handle (after plain_field "Xin ch"%string 6%nat) = Some false /\
  ends_with_syllable (wstr "Xin ch") (anchor_syllable (ss_contextAnchor (after plain_field "Xin ch"%string 6%nat))).
Proof.
  cbv zeta.
  exact (published_anchor_is_text (one_window (window "Xin ch" 6 0)) 0 loaded (window "Xin ch" 6 0)
           plain_field write_handle (one_window_reachable _) eq_refl eq_refl eq_refl eq_refl eq_refl eq_refl).
Defined.

(** The service is unloaded in front: the anchor of its document stays, and the
    service loaded next does not take it back in a password field. *)
Lemma unloading_leaves_anchor :
  let block := (OnEndEdit plain_field (window "Xin ch" 6 0) loaded readonly_block).2 in
  let next := (Advise true (Some true) (new_provider (Some write_handle))).2 in
  IsContextBlockedInline password_field (window "" 0 0) = true /\
  let after := (OnEndEdit password_field (window "" 0 0) next block).2 in
  after = block /\ ReadAutoCapAnchor write_handle after = Some false.
Proof. by vm_compute. Qed.

(** With a word selected in the middle of a sentence the anchor says a sentence
    starts there. *)
Lemma selection_reads_as_start :
  let d := window "xin chao ban" 4 4 in
  ReadAutoCapAnchor write_handle (OnEndEdit plain_field d loaded readonly_block).2 = Some true /\
  ComputeShouldAutoCap (before_caret d) = false.
Proof. by vm_compute. Qed.
End Sheets.
