(* ===== verification/ControllerKeys.v ===== *)
(** * The controller of the text service: keys, commits, macros and undo
      (src/src/tsf/EngineController.cpp)

    What the key sink asks the controller to do with a key it wants, and the two
    windows after a word: the raw keys of the last commit, and the shortcut of the
    last expansion. *)

From S2P Require Import Prelude Tables Config Action MacroPrefix Macro.
From S2P Require Import SharedState SharedStateManager InputEngine TextStore Composition Controller.
From S2P Require KeyDecisions CommitState.
From coqutil Require Import Datatypes.RecordSettersUsingExistingGetters.
Import KeyDecisions.DigitLed.
Open Scope Z_scope.

Definition kMaxRawMacroBuffer : nat := 128.
Definition kMacroClipboardThreshold : nat := 200.
Definition kMacroUndoTimeoutMs : Z := 4000.
Definition kCommitUndoTimeoutMs : Z := 1500.

Definition VK_BACK : Z := 8.
Definition VK_SPACE : Z := 32.
Definition VK_OEM_4 : Z := 219.
Definition VK_OEM_6 : Z := 221.
Definition is_alpha (vk : Z) : bool := in_range vk 65 90.

Inductive MacroResult := NoMatch | ExpandedEatTrigger | ExpandedPassTrigger.
#[export] Instance MacroResult_eq_dec : EqDecision MacroResult.
Proof. solve_decision. Defined.

Section Keys.
Context {E D R : Type} {IE : InputEngine E} {EF : EngineFactory E} {TC : TextContext D R}.
Context {CM : CaseMapper} {SP : CodeTable.SpacePlatform} {PP : PunctPlatform} {Lo : Locale}.
Abbreviation Controller := (Controller E D R).
Implicit Types (c : Controller) (m : Moment).

(** ** The state of a word *)

Definition on_engine (f : E -> E) c : Controller := { c with engine_ ::= f }.
Definition ResetEngine c : Controller := on_engine Reset c.
Definition ClearContext c : Controller := on_engine ClearContext c.
Definition clear_digit_led c : Controller := { c with digitLedWord_ := false }.
Definition ClearPendingRevive c : Controller :=
  { c with pendingReviveWord_ := []; pendingReviveRange_ := None }.
Definition HasPendingRevive c : bool :=
  match pendingReviveRange_ c with Some _ => true | None => false end.

Definition IsEngineDigitKey m (vkCode : Z) c : bool :=
  let im := inputMethod (config c) in
  ((im == VNI) || (im == Combined) || (im == UserDefined)) &&
  in_range vkCode 48 57 && negb (m_shift m).

Definition ResolveEngineBracketKey m (vkCode : Z) : BracketKey :=
  ResolveBracketKey (if vkCode =w VK_OEM_4 then L "[" else L "]") (m_shift m) (m_capsLock m).
Definition mapped_action (ch : wchar) c : TypingAction :=
  nth (Z.to_nat (ch mod 256)) (customKeyMap (config c)) ActNone.
Definition IsEngineBracketKey m (vkCode : Z) c : bool :=
  if (vkCode <>w VK_OEM_4) && (vkCode <>w VK_OEM_6) then false
  else if inputMethod (config c) == Telex then true
  else if inputMethod (config c) != UserDefined then false
  else
    let base := if vkCode =w VK_OEM_4 then L "[" else L "]" in
    let physical := bk_character (ResolveEngineBracketKey m vkCode) in
    let action := mapped_action physical c in
    let action := if (action == ActNone) && (physical <>w base) then mapped_action base c else action in
    (action != ActNone) && ((0 <? Count (engine_ c))%nat || IsInsertTypeAction action).

(** ** Macros: what is tracked *)

Definition tracking_allowed c : bool :=
  abiOk_ (routing_ c) && negb (contextBlocked_ (routing_ c)) && macroEnabled (config c) &&
  negb (bool_decide (macroTable_ (macros_ c) = ∅)) && shared_connected c.
Definition routed_flags (flags : Z) : bool := has_flag flags ENGINE_ENABLED && has_flag flags TSF_ACTIVE.

Definition IsMacroTrackingEnabled c : bool :=
  let flags := shared_flags c in
  tracking_allowed c && routed_flags flags &&
  (has_flag flags VIETNAMESE_MODE || macroInEnglish (config c)).
Definition IsEnglishMacroTrackingActive c : bool :=
  let flags := shared_flags c in
  tracking_allowed c && macroInEnglish (config c) && routed_flags flags &&
  negb (has_flag flags VIETNAMESE_MODE).

Definition set_raw (raw : wstring) c : Controller :=
  { c with macros_ ::= fun s => { s with rawMacroBuffer_ := raw } }.
Definition set_crossCommit c : Controller :=
  { c with macros_ ::= fun s => { s with macroCrossCommit_ := true } }.
Definition raw_buffer c : wstring := rawMacroBuffer_ (macros_ c).

Definition HasMacroCandidate c : bool :=
  IsMacroTrackingEnabled c && (negb (bool_decide (raw_buffer c = [])) || HasEngineBuffer c).
Definition ClearMacroTrackingAfterCommit c : Controller :=
  if macroCrossCommit_ (macros_ c) then c else ClearMacroTracking c.
Definition TrackMacroCharacter (ch : wchar) c : Controller :=
  if negb (IsMacroTrackingEnabled c) || (ch =w 0) then c
  else
    let c := set_raw (raw_buffer c ++ [ch]) c in
    if (kMaxRawMacroBuffer <? length (raw_buffer c))%nat then ClearMacroTracking c else c.
Definition TrackMacroBackspace c : Controller :=
  if negb (IsMacroTrackingEnabled c) || bool_decide (raw_buffer c = []) then c
  else
    let c := set_raw (removelast (raw_buffer c)) c in
    if bool_decide (raw_buffer c = []) then ClearMacroTracking c else c.

Definition HasMacroUndo m c : bool :=
  let u := macroUndoState_ (macros_ c) in
  mu_active u && macroUndoOnBackspace (config c) && IsMacroTrackingEnabled c &&
  (u32_sub (m_tick m) (mu_timestamp u) <=? kMacroUndoTimeoutMs).

(** ** The undo window of a commit *)

Definition RecordCommitSnapshot m (text rawInput : wstring) (hasTrailingChar : bool) c : Controller :=
  if bool_decide (text = []) || bool_decide (rawInput = [])
  then { c with commitUndoState_ := UndoIdle; lastCommit_ := no_commit }
  else { c with lastCommit_ := mkLastCommit text rawInput hasTrailingChar (m_tick m);
                commitUndoState_ := if hasTrailingChar then UndoReady else UndoIdle }.

Definition committed_body (lc : LastCommit) : wstring :=
  if lc_hasTrailingChar lc then removelast (lc_text lc) else lc_text lc.
Definition MatchingRawForCommittedWord (word : wstring) c : wstring :=
  let lc := lastCommit_ c in
  if bool_decide (word = []) || bool_decide (lc_text lc = []) || bool_decide (lc_rawInput lc = [])
  then []
  else if committed_body lc == word then lc_rawInput lc else [].

Definition IsCommitUndoReady c : bool := commitUndoState_ c == UndoReady.
Definition IsCommitUndoPrimed c : bool := commitUndoState_ c == UndoPrimed.
Definition WithinUndoWindow m c : bool :=
  (commitUndoState_ c != UndoIdle) &&
  (u32_sub (m_tick m) (lc_timestamp (lastCommit_ c)) <=? kCommitUndoTimeoutMs).
Definition TransitionUndoReadyToPrimed c : Controller :=
  if IsCommitUndoReady c then { c with commitUndoState_ := UndoPrimed } else c.
Definition ResetCommitUndo c : Controller :=
  if commitUndoState_ c == UndoIdle then c
  else { c with commitUndoState_ := UndoIdle; lastCommit_ := no_commit }.
Definition OnNonRestoreKey c : Controller := ResetMacroUndo (ResetCommitUndo c).

Definition TryRestoreLastCommitRaw m c : bool * Controller :=
  if negb (IsCommitUndoPrimed c) then (false, c)
  else if negb (WithinUndoWindow m c) then (false, ResetCommitUndo c)
  else
    let lc := lastCommit_ c in
    if bool_decide (lc_text lc = []) || bool_decide (lc_rawInput lc = [])
    then (false, ResetCommitUndo c)
    else
      let '(replaced, d) :=
        match m_context m with
        | Some _ =>
            if GrantsSync true (doc_ c)
            then EscRestoreLastCommitSession (committed_body lc) (lc_rawInput lc) (doc_ c)
            else (false, doc_ c)
        | None => (false, doc_ c)
        end in
      (replaced, ResetCommitUndo { c with doc_ := d }).

(** ** Ends of a composition *)

(** The final text is written over the composition, which ends. *)
Definition commit_session m (text : wstring) c : Controller :=
  RequestEditSession m (CommitEditSession text) c.
Definition take_commit c : wstring * Controller :=
  let '(text, e) := Commit (engine_ c) in (text, { c with engine_ := e }).

Definition ControllerCommit m c : Controller :=
  let rawSnapshot := PeekRaw (engine_ c) in
  let '(committed, c) := take_commit c in
  let c := ClearMacroTracking (clear_digit_led (ResetEngine (commit_session m committed c))) in
  try_promote (RecordCommitSnapshot m committed rawSnapshot false c).

Definition CommitWithChar m (appendChar : wchar) c : Controller :=
  let rawSnapshot := PeekRaw (engine_ c) in
  let verbatim := IsVerbatimCommitTrigger appendChar in
  let rendered := if verbatim then Peek (engine_ c) else [] in
  let '(committed, c) := take_commit c in
  let committed := if LastCommitWasCorrected (engine_ c) && verbatim then rendered else committed in
  let committed := if appendChar <>w 0 then committed ++ [appendChar] else committed in
  let c := ClearMacroTrackingAfterCommit
             (clear_digit_led (ResetEngine (commit_session m committed c))) in
  try_promote (RecordCommitSnapshot m committed rawSnapshot (appendChar <>w 0) c).

Definition CommitRawAndEnd m c : bool * Controller :=
  let raw := PeekRaw (engine_ c) in
  if bool_decide (raw = []) then (false, c)
  else
    let c := ClearContext (ResetEngine (commit_session m raw c)) in
    (true, try_promote (ClearMacroTracking (clear_digit_led c))).

Definition EndCompositionVerbatim m c : Controller :=
  let c := ClearContext (ResetEngine (commit_session m (Peek (engine_ c)) c)) in
  try_promote (ResetCommitUndo (ClearMacroTracking (clear_digit_led c))).

Definition HasNonEmptySelection m c : bool := ReadSession m SelectionCheckEditSession false c.

Definition ControllerReset c : Controller :=
  let c := ClearContext (ResetEngine (ClearMacroTracking c)) in
  try_promote (clear_digit_led { c with mgr_ ::= TerminateComposition }).

(** The host ends the composition: the text stays, the word is forgotten. *)
Definition OnCompositionTerminated c : Controller :=
  if IsComposing c then ControllerReset { c with mgr_ ::= TerminateComposition } else c.

(** ** Macros: expansion *)

Definition ReplacePrecedingText m (count : nat) (replacement expected : wstring) c
    : bool * Controller :=
  match m_context m with
  | None => (false, c)
  | Some _ =>
      if (count =? 0)%nat || negb (GrantsSync true (doc_ c)) then (false, c)
      else
        let '(replaced, _, d) :=
          ReplacePrecedingTextEditSession count replacement expected (doc_ c) in
        (replaced, { c with doc_ := d })
  end.

Definition ReadPrecedingTextFromContext m (maxChars : nat) c : wstring :=
  if isScintillaApp_ (routing_ c) then []
  else (ReadSession m (ReadPrecedingCharsEditSession maxChars) ([], false) c).1.

Definition LookupMacroInContext m (trigger : wchar) c : option ContextMatch :=
  let s := macros_ c in
  if bool_decide (m_context m = None) || bool_decide (macroTable_ s = ∅) ||
     (maxMacroKeyLen_ s =? 0)%nat then None
  else
    let text := ReadPrecedingTextFromContext m (Nat.min (maxMacroKeyLen_ s + 1) 64) c in
    if bool_decide (text = []) then None
    else MatchInPrecedingText text trigger (macroTable_ s) (autoCapsMacro (config c))
           (macroTitleCase (config c)) kMacroClipboardThreshold (maxMacroKeyLen_ s).

Definition EvaluateMacroPlan (raw : wstring) (trigger : wchar) c : MacroPlan :=
  let comp := Peek (engine_ c) in
  if bool_decide (raw = []) && bool_decide (comp = []) then no_plan
  else
    let s := macros_ c in
    Plan (mkInputs raw comp [] (macroTable_ s) (macroCrossCommit_ s) Unicode
            (autoCapsMacro (config c)) (macroTitleCase (config c)) (wasFirstCharAutoCapped_ s)
            trigger kMacroClipboardThreshold).

Definition ControllerShouldTrigger (vkCode : Z) c : bool :=
  let cfg := config c in
  ShouldTrigger vkCode (macroTriggerSpace cfg) (macroTriggerEnter cfg) (macroTriggerTab cfg)
    (macroTriggerDir cfg).

Definition WouldExpandMacroTrigger m (vkCode : Z) (trigger : wchar) c : bool :=
  if tempMacroOff_ (macros_ c) || negb (IsCommitTrigger vkCode) ||
     negb (IsMacroTrackingEnabled c) || negb (ControllerShouldTrigger vkCode c) then false
  else
    let printable := L " " <? trigger in
    let candidate := if printable then raw_buffer c ++ [trigger] else raw_buffer c in
    if printable && (kMaxRawMacroBuffer <? length candidate)%nat then false
    else matched (EvaluateMacroPlan candidate trigger c) ||
         bool_decide (LookupMacroInContext m trigger c <> None).

(** A space inside a shortcut: the word so far is the start of one. *)
Definition begins_shortcut (vkCode : Z) c : bool :=
  (vkCode =w VK_SPACE) && negb (bool_decide (raw_buffer c = [])) &&
  ContainsPrefix (macroPrefixIndex_ (macros_ c)) (raw_buffer c ++ [L " "]).
Definition keep_shortcut c : Controller := set_crossCommit (set_raw (raw_buffer c ++ [L " "]) c).

(** The plan, from what was typed or from the text before the caret. *)
Definition macro_plan m (trigger : wchar) c : MacroPlan * Controller :=
  let plan := EvaluateMacroPlan (raw_buffer c) trigger c in
  if matched plan then (plan, c)
  else
    match LookupMacroInContext m trigger c with
    | Some match_ => (cm_plan match_, set_crossCommit c)
    | None => (plan, c)
    end.

(** The expansion takes the place of the shortcut. *)
Definition write_expansion m (plan : MacroPlan) (replacement : wstring) c : bool * Controller :=
  if macroCrossCommit_ (macros_ c) || negb (IsComposing c) then
    let c := if IsComposing c
             then clear_digit_led (ResetEngine (commit_session m (Peek (engine_ c)) c)) else c in
    ReplacePrecedingText m (bsCount plan) replacement [] c
  else
    let c := commit_session m replacement c in (negb (IsComposing c), c).

Definition arm_macro_undo m (vkCode : Z) (trigger : wchar) (plan : MacroPlan)
    (replacement : wstring) c : Controller :=
  let armed := macroUndoOnBackspace (config c) && negb (bool_decide (shortcut plan = [])) &&
               ((vkCode =w VK_SPACE) || (L " " <? trigger)) in
  let undo := if armed
              then mkMacroUndo (shortcut plan) replacement (length replacement) (m_tick m) true
              else no_macro_undo in
  { c with macros_ ::= fun s => { s with macroUndoState_ := undo } }.

Definition expand_macro m (vkCode : Z) (trigger : wchar) (plan : MacroPlan) c
    : MacroResult * Controller :=
  let replacement := ExpandEscapesForClipboard (expansion plan) in
  let typed := (vkCode =w VK_SPACE) || (L " " <? trigger) in
  let appends := negb (isPartOfMacro plan) && typed in
  let replacement :=
    if appends then replacement ++ [if vkCode =w VK_SPACE then L " " else trigger]
    else replacement in
  let eatTrigger := isPartOfMacro plan || appends in
  let '(replaced, c) := write_expansion m plan replacement c in
  if negb replaced then (NoMatch, ClearMacroTracking c)
  else
    let c := ResetCommitUndo (ClearMacroTracking (clear_digit_led (ResetEngine c))) in
    (if eatTrigger then ExpandedEatTrigger else ExpandedPassTrigger,
     arm_macro_undo m vkCode trigger plan replacement c).

(** No shortcut matches. *)
Definition no_macro m (vkCode : Z) (trigger : wchar) c : Controller :=
  if (vkCode =w VK_SPACE) && negb (bool_decide (raw_buffer c = [])) then
    if begins_shortcut vkCode c then keep_shortcut c else ClearMacroTracking c
  else if (L " " <? trigger) && negb (IsEngineDigitKey m vkCode c && HasEngineBuffer c)
  then set_crossCommit c
  else ClearMacroTracking c.

Definition HandleMacroTrigger m (vkCode : Z) (trigger : wchar) c : MacroResult * Controller :=
  if negb (IsCommitTrigger vkCode) then (NoMatch, c)
  else if tempMacroOff_ (macros_ c) || negb (IsMacroTrackingEnabled c)
  then (NoMatch, ClearMacroTracking c)
  else if negb (ControllerShouldTrigger vkCode c) then
    (NoMatch, if begins_shortcut vkCode c then keep_shortcut c else ClearMacroTracking c)
  else
    let tracked := negb (bool_decide (raw_buffer c = [])) || HasEngineBuffer c in
    let c := if tracked && (L " " <? trigger) then set_raw (raw_buffer c ++ [trigger]) c else c in
    if tracked && (L " " <? trigger) && (kMaxRawMacroBuffer <? length (raw_buffer c))%nat
    then (NoMatch, ClearMacroTracking c)
    else
      let '(plan, c) := macro_plan m trigger c in
      if negb (matched plan) then (NoMatch, no_macro m vkCode trigger c)
      else expand_macro m vkCode trigger plan c.

Definition UndoMacro m c : bool * Controller :=
  if negb (HasMacroUndo m c) then (false, c)
  else
    let u := macroUndoState_ (macros_ c) in
    let '(replaced, c) :=
      ReplacePrecedingText m (mu_expansionLength u) (mu_shortcut u) (mu_expansion u)
        (ResetMacroUndo c) in
    if negb replaced then (false, c)
    else (true, { c with macros_ ::= fun s =>
                    { s with rawMacroBuffer_ := mu_shortcut u; macroCrossCommit_ := true;
                             tempMacroOff_ := true } }).

(** ** Keys the controller takes *)

Definition WantKey m (vkCode : Z) c : bool * Controller :=
  let '(routed, c) := RefreshKeyRouting c in
  if negb routed || negb (vietnameseMode_ (routing_ c)) || m_ctrl m || m_alt m || m_win m
  then (false, c)
  else
    let engineHasComp := HasEngineBuffer c in
    let input := mkDigit vkCode (m_shift m) (negb engineHasComp) (inputMethod (config c))
                   (digitLedWord_ c) in
    let c := { c with digitLedWord_ := armed_after input } in
    match DecideDigitLed input with
    | ArmDigit | Bypass | ResetDigit => (false, c)
    | Continue | ResetAndContinue =>
        (if is_alpha vkCode then true
         else if IsEngineBracketKey m vkCode c then true
         else if IsEngineDigitKey m vkCode c && engineHasComp then true
         else if vkCode =w VK_BACK then HasMacroUndo m c || engineHasComp
         else if vkCode =w VK_SPACE then negb (isScintillaApp_ (routing_ c)) && engineHasComp
         else false, c)
    end.

Definition PrepareBackspaceRevive m c : bool * Controller :=
  let c := ClearPendingRevive c in
  let r := routing_ c in
  if negb (engineEnabled_ r) || negb (tsfActive_ r) || negb (vietnameseMode_ r) ||
     contextBlocked_ r || HasEngineBuffer c || isScintillaApp_ r then (false, c)
  else
    match ReadSession m ReadPrecedingWordEditSession None c with
    | None | Some ([], _) => (false, c)
    | Some (word, range) =>
        let '(temp, seeded) := SeedFromText word (Create (config c)) in
        if negb seeded || IsEnglishWord temp then (false, c)
        else (true, { c with pendingReviveWord_ := word; pendingReviveRange_ := Some range })
    end.

(** The engine's text goes into the document. *)
Definition show m c : Controller :=
  let text := Peek (engine_ c) in
  RequestEditSession m
    (if IsComposing c then UpdateCompositionEditSession text else StartCompositionEditSession text) c.
Definition PushEngineKey m (ch : wchar) (uppercase : bool) c : bool * Controller :=
  let wasComposing := IsComposing c in
  let c := show m (on_engine (PushKey ch uppercase) c) in
  if negb wasComposing && negb (IsComposing c) then (false, ResetEngine c) else (true, c).

Definition ProcessBackspace m c : Controller :=
  let c := on_engine Backspace (TrackMacroBackspace c) in
  if HasEngineBuffer c then RequestEditSession m (UpdateCompositionEditSession (Peek (engine_ c))) c
  else try_promote (commit_session m [] c).

(** A session that works on the engine too, and what it found when refused. *)
Definition RequestEngineSession {A} m (session : E -> Manager -> D -> A * E * Manager * D)
    (refused : A) c : A * Controller :=
  match m_context m with
  | None => (refused, c)
  | Some _ =>
      if GrantsSync true (doc_ c) then
        let '(x, e, mgr, d) := session (engine_ c) (mgr_ c) (doc_ c) in
        (x, { c with engine_ := e; mgr_ := mgr; doc_ := d })
      else (refused, c)
  end.

Definition revive_by_backspace m (range : R) c : Controller :=
  let word := pendingReviveWord_ c in
  let raw := MatchingRawForCommittedWord word c in
  ClearPendingRevive
    (RequestEngineSession m (ReviveCompositionEditSession word range raw) false c).2.

(** The word before the caret is reopened and the key typed into it. *)
Definition try_revive m (word : wstring) (range : option R) (ch : wchar) (upper : bool) c
    : bool * Controller :=
  match range with
  | Some range =>
      if bool_decide (word = []) || negb (SeedFromText word (Create (config c))).2
      then (false, c)
      else
        let raw := MatchingRawForCommittedWord word c in
        RequestEngineSession m
          (fun e g d => let '(_, e, g, d, revived) :=
                          ReviveAndTypeEditSession word range ch upper raw e g d in
                        (revived, e, g, d)) false c
  | None => (false, c)
  end.

(** A letter or a bracket: the character and its case. *)
Definition typed_key m (vkCode : Z) (isBracket : bool) : wchar * bool :=
  if isBracket then
    let key := ResolveEngineBracketKey m vkCode in (bk_character key, bk_uppercase key)
  else
    let upper := xorb (m_shift m) (m_capsLock m) in
    (if upper then vkCode else towlower vkCode, upper).

(** At the start of a word, after the reopening was refused. *)
Definition auto_cap (shouldAutoCap isBracket : bool) (ch : wchar) (upper : bool) c
    : wchar * bool * Controller :=
  if autoCaps (config c) && shouldAutoCap then
    let c := if bool_decide (raw_buffer c = []) && negb upper
             then { c with macros_ ::= fun s => { s with wasFirstCharAutoCapped_ := true } } else c in
    (if isBracket then ch else towupper ch, true, c)
  else (ch, upper, c).

Definition HandleTextKey m (vkCode : Z) (isBracket : bool) c : bool * Controller :=
  let '(ch, upper) := typed_key m vkCode isBracket in
  if (Count (engine_ c) =? 0)%nat && negb (IsComposing c) && negb (isScintillaApp_ (routing_ c))
  then
    let inspection := ReadSession m InspectPrecedingTextEditSession no_inspection c in
    let '(revived, c) := try_revive m (in_word inspection) (in_wordRange inspection) ch upper c in
    if revived then (true, c)
    else
      let '(capped, upper', c) := auto_cap (in_shouldAutoCap inspection) isBracket ch upper c in
      PushEngineKey m capped upper' (TrackMacroCharacter ch c)
  else PushEngineKey m ch upper (TrackMacroCharacter ch c).

Definition HandleKey m (vkCode : Z) c : bool * Controller :=
  if vkCode =w VK_BACK then
    if HasMacroUndo m c then UndoMacro m c
    else
      match pendingReviveRange_ c with
      | Some range => (true, revive_by_backspace m range c)
      | None => (true, ProcessBackspace m c)
      end
  else if vkCode =w VK_SPACE then (true, CommitWithChar m (L " ") c)
  else
    let isBracket := IsEngineBracketKey m vkCode c in
    if isBracket || is_alpha vkCode then HandleTextKey m vkCode isBracket c
    else if IsEngineDigitKey m vkCode c && HasEngineBuffer c then
      let c := on_engine (PushChar vkCode) c in
      (true, if IsComposing c
             then RequestEditSession m (UpdateCompositionEditSession (Peek (engine_ c))) c else c)
    else (false, try_promote c).

End Keys.
