(* ===== verification/ControllerFacts.v ===== *)
(** * The controller keeps the engine and the composition in step

    On a host that keeps plain text, the composition covers the word the engine
    shows, and there is none while the engine is empty.  Every operation of the
    controller keeps it so, whatever the shared block, the file and the keys say: first those that follow the
    settings, then those that write the document. *)

From S2P Require Import Prelude Tables Config Action MacroPrefix MacroReload Macro QuickConvert.
From S2P Require Import SharedState SharedStateManager SettingsSync InputEngine TextStore.
From S2P Require Import Composition Controller ControllerKeys.
From S2P Require KeyDecisions.
From coqutil Require Import Datatypes.RecordSettersUsingExistingGetters.
Open Scope Z_scope.
#[local] Hint Resolve or_introl or_intror : core.

(** A new engine is one of its own states and has no letters. *)
Class EngineFactoryLaws (E : Type) `{InputEngineLaws E} `{EngineFactory E} := {
  Create_ok cfg : engine_ok (Create cfg);
  Create_Count cfg : Count (Create cfg) = 0%nat
}.

Section Updates.
Context {E D R : Type} {IE : InputEngine E} {IEL : InputEngineLaws E} {EF : EngineFactory E}.
Context {EFL : EngineFactoryLaws E} {TC : TextContext D R} {PH : PlainHost D R}.
Context {CM : CaseMapper} {SP : CodeTable.SpacePlatform} {PP : PunctPlatform} {Lo : Locale}.
Abbreviation Controller := (Controller E D R).
Implicit Types (c : Controller).

(** ** The invariant *)

Definition in_step c : Prop :=
  if IsComposing c
  then exists before after, Composed before (Peek (engine_ c)) after (mgr_ c) (doc_ c)
  else Count (engine_ c) = 0%nat /\ v_composition (view (doc_ c)) = None.

(** An expansion that a backspace would still take back. *)
Definition young (m : Moment) c : Prop :=
  mu_active (macroUndoState_ (macros_ c)) = true /\
  u32_sub (m_tick m) (mu_timestamp (macroUndoState_ (macros_ c))) <= kMacroUndoTimeoutMs.

(** With it: the word a backspace will reopen is one an engine can be seeded with,
    and the keys of the last commit are keys. *)
Record Base c : Prop := {
  inv_ok : engine_ok (engine_ c);
  inv_pending : pendingReviveRange_ c <> None ->
    pendingReviveWord_ c <> [] /\ forall e : E, (SeedFromText (pendingReviveWord_ c) e).2 = true;
  inv_commit : Forall (fun k => k <> 0) (lc_rawInput (lastCommit_ c))
}.
Record Inv c : Prop := { inv_base : Base c; inv_step : in_step c }.

(** No word is composed while an expansion is young: the keys in between end it. *)
Definition settled m c : Prop := IsComposing c = true -> ~ young m c.

(** ** Operations that leave the word alone *)

Record Frame c c' : Prop := {
  frame_engine : engine_ c' = engine_ c;
  frame_mgr : pComposition_ (mgr_ c') = pComposition_ (mgr_ c);
  frame_current : currentText_ (mgr_ c') = currentText_ (mgr_ c);
  frame_doc : doc_ c' = doc_ c;
  frame_pending : pendingReviveRange_ c' = None \/
    (pendingReviveRange_ c' = pendingReviveRange_ c /\ pendingReviveWord_ c' = pendingReviveWord_ c);
  frame_commit : lc_rawInput (lastCommit_ c') = [] \/ lastCommit_ c' = lastCommit_ c;
  frame_undo : mu_active (macroUndoState_ (macros_ c')) = false \/
    macroUndoState_ (macros_ c') = macroUndoState_ (macros_ c)
}.
Lemma Frame_refl c : Frame c c.
Proof. by split; auto. Qed.
Lemma Frame_trans c1 c2 c3 : Frame c1 c2 -> Frame c2 c3 -> Frame c1 c3.
Proof.
  intros [A1 A2 A3 A4 A5 A6 A7] [B1 B2 B3 B4 B5 B6 B7]. split; try congruence.
  - destruct B5 as [ |[-> ->]]; auto.
  - destruct B6 as [ | ->]; auto.
  - destruct B7 as [ | ->]; auto.
Qed.

Lemma Frame_Inv c c' : Frame c c' -> Inv c -> Inv c'.
Proof.
  intros [A1 A2 A3 A4 A5 A6 _] [[H1 H3 H4] H2]. split; [split|].
  - by rewrite A1.
  - destruct A5 as [->|[-> ->]]; [done|exact H3].
  - destruct A6 as [->| ->]; [constructor|done].
  - unfold in_step, IsComposing in *. rewrite A1, A2, A4. destruct (pComposition_ (mgr_ c)); [|done].
    destruct H2 as (before & after & H). exists before, after.
    eapply (Composed_view _ _ _ (mgr_ c) (doc_ c)); [done| |done|exact H].
    by rewrite (composed_mgr _ _ _ _ _ H).
Qed.
Lemma Frame_settled m c c' : Frame c c' -> settled m c -> settled m c'.
Proof.
  intros [_ A2 _ _ _ _ A7] H Hc [Hy Ht]. unfold IsComposing in Hc. rewrite A2 in Hc.
  destruct A7 as [|A7]; [congruence|]. rewrite A7 in *. by apply (H Hc).
Qed.

(** What the operations of a callback keep. *)
Definition Good m c : Prop := Inv c /\ settled m c.
Lemma Frame_good m c c' : Frame c c' -> Good m c -> Good m c'.
Proof. intros F [H1 H2]. split; [by eapply Frame_Inv|by eapply Frame_settled]. Qed.

Implicit Types (m : Moment).

Lemma routing_good m f c : Good m c -> Good m { c with routing_ ::= f }.
Proof. apply Frame_good. by split; auto. Qed.
Lemma settings_good m f c : Good m c -> Good m { c with settings_ ::= f }.
Proof. apply Frame_good. by split; auto. Qed.
Lemma block_good m f c : Good m c -> Good m { c with block_ ::= f }.
Proof. apply Frame_good. by split; auto. Qed.
Lemma digit_good m b c : Good m c -> Good m { c with digitLedWord_ := b }.
Proof. apply Frame_good. by split; auto. Qed.
Lemma macros_good m f c :
  (forall s, mu_active (macroUndoState_ (f s)) = false \/ macroUndoState_ (f s) = macroUndoState_ s) ->
  Good m c -> Good m { c with macros_ ::= f }.
Proof. intros Hf. apply Frame_good. split; cbn; auto. Qed.
Lemma hide_good m b c : Good m c -> Good m { c with mgr_ ::= fun g => { g with hidePreeditUnderline_ := b } }.
Proof. apply Frame_good. by split; auto. Qed.
Lemma commit_state_good m st c : Good m c -> Good m { c with commitUndoState_ := st }.
Proof. apply Frame_good. by split; auto. Qed.

End Updates.

(** Closes the goal that a chain of such updates is good. *)
Ltac good :=
  repeat first
    [ assumption
    | apply digit_good | apply block_good | apply settings_good | apply routing_good
    | apply hide_good | apply commit_state_good
    | (apply macros_good; [by intros; cbn; auto|]) ].

Section Facts.
Context {E D R : Type} {IE : InputEngine E} {IEL : InputEngineLaws E} {EF : EngineFactory E}.
Context {EFL : EngineFactoryLaws E} {TC : TextContext D R} {PH : PlainHost D R}.
Context {CM : CaseMapper} {SP : CodeTable.SpacePlatform} {PP : PunctPlatform} {Lo : Locale}.
(** The moment of the operation, and one at which an expansion may be young. *)
Variables m n : Moment.
Implicit Types (c : Controller E D R).

Lemma ClearMacroTracking_good c : Good n c -> Good n (ClearMacroTracking c).
Proof. intros. unfold ClearMacroTracking. good. Qed.
Lemma ResetMacroUndo_good c : Good n c -> Good n (ResetMacroUndo c).
Proof. intros. unfold ResetMacroUndo. good. Qed.
Lemma ClearPendingRevive_good c : Good n c -> Good n (ClearPendingRevive c).
Proof. apply Frame_good. by split; auto. Qed.
Lemma ResetCommitUndo_good c : Good n c -> Good n (ResetCommitUndo c).
Proof. intros H. unfold ResetCommitUndo. case_match; [done|]. revert H. apply Frame_good. by split; auto. Qed.
Lemma set_flag_good f b c : Good n c -> Good n (set_flag f b c).
Proof. intros. unfold set_flag, on_block. good. Qed.
Lemma SetTsfNativeConvertReady_good b c : Good n c -> Good n (SetTsfNativeConvertReady m b c).
Proof. intros. unfold SetTsfNativeConvertReady, on_block. case_match; good. Qed.
Lemma reopen_good c : Good n c -> Good n (reopen c).2.
Proof. intros. unfold reopen. case_match. cbn. good. Qed.

(** ** Routing *)

Lemma RefreshKeyRouting_good c : Good n c -> Good n (RefreshKeyRouting c).2.
Proof.
  intros. unfold RefreshKeyRouting. cbv zeta.
  repeat case_match; cbn [snd]; repeat (apply ClearMacroTracking_good || good).
Qed.
Lemma CheckContextBlocked_good c : Good n c -> Good n (CheckContextBlocked m c).
Proof. intros. unfold CheckContextBlocked. case_match; cbn -[ReadSession]; good. Qed.
Lemma DetectScintillaApp_good c : Good n c -> Good n (DetectScintillaApp m c).
Proof. intros. unfold DetectScintillaApp. good. Qed.

(** ** Configuration *)

(** A new engine takes the place of an empty one. *)
Lemma fresh_engine_good cfg c :
  HasEngineBuffer c = false -> IsComposing c = false -> Good n c ->
  Good n { c with engine_ := Create cfg }.
Proof.
  intros He Hc [[[H1 H3 H4] H2] Hs]. split; [split; [split|]|exact Hs]; cbn; try done; [apply Create_ok|].
  unfold in_step in *. unfold IsComposing in *. cbn. rewrite Hc in *.
  split; [apply Create_Count|apply H2].
Qed.

Lemma promote_config_good c : Good n c -> Good n (promote_config c).
Proof.
  intros H. unfold promote_config. case_match; [|done]. revert H. apply Frame_good. by split; auto.
Qed.

Lemma TryPromote_good c : Good n c -> Good n (try_promote c).
Proof.
  intros H. unfold try_promote, TryPromotePendingConfig. case_match; [done|].
  case_match eqn:Ep; [done|]. cbn [snd]. apply negb_false_iff in Ep.
  unfold CanPromotePendingConfig, CanPromoteTsfConfig in Ep. cbn in Ep.
  apply andb_true_iff in Ep as [[[Hc Hn]%andb_true_iff _]%andb_true_iff _].
  assert (Hp : Good n (promote_config c)) by by apply promote_config_good.
  assert (He : HasEngineBuffer (promote_config c) = false /\ IsComposing (promote_config c) = false).
  { unfold promote_config, HasEngineBuffer, IsComposing. apply Nat.eqb_eq in Hc.
    apply negb_true_iff in Hn. case_match; cbn; by rewrite Hc. }
  unfold recreate_engine. destruct He as [He Hcomp].
  pose proof (fresh_engine_good (config (promote_config c)) _ He Hcomp Hp) as Hf.
  apply (settings_good n (fun s => { s with engineNeedsRecreate_ := false })) in Hf.
  cbv zeta. case_match; [exact Hf|by apply set_flag_good].
Qed.

Lemma ReloadMacros_Frame g c : Frame c (ReloadMacros m g c).
Proof.
  unfold ReloadMacros. cbv zeta.
  destruct (_ && _); [apply Frame_refl|]. destruct (m_disk m) as [[disk table]|]; [|by split; auto].
  destruct (wants_macros _); by split; auto.
Qed.
Lemma ReloadMacros_good g c : Good n c -> Good n (ReloadMacros m g c).
Proof. apply Frame_good, ReloadMacros_Frame. Qed.

Lemma ApplySharedState_good st allow c : Good n c -> Good n (ApplySharedState m st allow c).
Proof.
  intros. unfold ApplySharedState. cbv zeta. apply TryPromote_good.
  assert (Hm : forall d, Good n d ->
    Good n match DecideMacroTable (mkTableInputs (macroConfigLoaded_ (macros_ d))
             (macroGeneration_ (macros_ d)) (ss_configGeneration st) allow) with
           | MacroReload => ReloadMacros m (ss_configGeneration st) d
           | MacroNone | MacroKeepStale => d end).
  { intros. case_match; try done. by apply ReloadMacros_good. }
  apply Hm. clear Hm. repeat case_match; repeat (good || apply ClearMacroTracking_good).
Qed.

Lemma try_promote_pair c : TryPromotePendingConfig c = ((TryPromotePendingConfig c).1, try_promote c).
Proof. unfold try_promote. by destruct (TryPromotePendingConfig c). Qed.

Lemma take_block_good allow rec c : Good n c -> Good n (take_block m allow rec c).2.
Proof.
  intros H. unfold take_block. cbv zeta. case_match.
  - rewrite try_promote_pair. apply TryPromote_good in H. case_match; [|done].
    by apply ReloadMacros_good.
  - case_match; [case_match; try done|].
    + apply set_flag_good. unfold set_abi. good.
    + apply ApplySharedState_good. good.
Qed.

Lemma CheckConfigEvent_good allow c : Good n c -> Good n (CheckConfigEvent m allow c).2.
Proof.
  intros H. apply TryPromote_good in H. unfold CheckConfigEvent. cbv zeta.
  set (r := if shared_connected (try_promote c) then _ else _).
  assert (Hr : Good n r.2) by (subst r; destruct (shared_connected _); [done|by apply reopen_good]).
  destruct r as [opened c1]. cbn [snd] in Hr. case_match; [done|].
  case_match; [by apply take_block_good|]. case_match; [|by apply set_flag_good|done].
  apply take_block_good. unfold set_abi. good.
Qed.

Lemma disable_good c : Good n c -> Good n (disable c).
Proof. intros. unfold disable. apply routing_good. case_match; [by apply ClearMacroTracking_good|done]. Qed.

Lemma RefreshFlags_good c : Good n c -> Good n (RefreshFlags m c).
Proof.
  intros H. apply DetectScintillaApp_good in H. unfold RefreshFlags. cbv zeta.
  set (r := if shared_connected (DetectScintillaApp m c) then _ else _).
  assert (Hr : Good n r.2) by (subst r; destruct (shared_connected _); [done|by apply reopen_good]).
  destruct r as [opened c1]. cbn [snd] in Hr. case_match; [by apply disable_good|].
  case_match; [by apply disable_good|].
  assert (Hf : forall x, Good n (read_flags x c1)) by (intros; unfold read_flags; good).
  repeat case_match; try apply ApplySharedState_good; try apply ClearMacroTracking_good; apply Hf.
Qed.

Lemma SetCodeTable_good ct c : Good n c -> Good n (SetCodeTable ct c).
Proof. intros. unfold SetCodeTable. good. Qed.
Lemma ToggleVietnameseMode_good c : Good n c -> Good n (ToggleVietnameseMode c).
Proof. intros. unfold ToggleVietnameseMode, on_block. apply ClearMacroTracking_good. apply digit_good. good. Qed.

(** A new controller is in step with a document that has no composition. *)
Lemma initial_Inv (d : D) block : v_composition (view d) = None -> Inv (initial_controller d block).
Proof.
  intros H. split; [split|]; cbn; [apply Create_ok|done|constructor|].
  unfold in_step. cbn. by rewrite Create_Count.
Qed.
Lemma with_fallback_good c : IsComposing c = false -> Good n c -> Good n (with_fallback c).
Proof.
  intros Hc [[[H1 H3 H4] H2] Hs]. split; [split; [split|]|exact Hs]; cbn; try done; [apply Create_ok|].
  unfold in_step in *. unfold IsComposing in *. cbn. rewrite Hc in *.
  split; [apply Create_Count|apply H2].
Qed.

End Facts.

(** ** What the controller does with keys keeps the word in step

    The operations that write the document: the keys of a word, the ends of a
    composition, macros and their undo, and the words that are reopened. *)

#[local] Hint Resolve or_introl or_intror : core.

Section Facts.
Context {E D R : Type} {IE : InputEngine E} {IEL : InputEngineLaws E} {EF : EngineFactory E}.
Context {EFL : EngineFactoryLaws E} {TC : TextContext D R} {PH : PlainHost D R}.
Context {CM : CaseMapper} {SP : CodeTable.SpacePlatform} {PP : PunctPlatform} {Lo : Locale}.
Variables m n : Moment.
Hypothesis has_context : m_context m <> None.
Implicit Types (c : Controller E D R) (g : Manager) (d : D).

(** ** The word, its engine and the document *)

Definition with_word c (e : E) g d : Controller E D R :=
  { c with engine_ := e; mgr_ := g; doc_ := d }.

(** The manager and the host agree on the composition, whatever it shows. *)
Definition agreed g d : Prop :=
  if pComposition_ g then exists sp, v_composition (view d) = Some sp
  else v_composition (view d) = None.

Lemma agreed_covers g d :
  agreed g d -> pComposition_ g = true ->
  exists before old after, v_text (view d) = before ++ old ++ after /\
    v_composition (view d) = Some (length before, length old).
Proof.
  unfold agreed. intros H Hg. rewrite Hg in H. destruct H as [sp Hsp].
  destruct (plain_CompositionRange d sp Hsp) as (r & _ & Hr).
  destruct (inside_split _ _ (plain_inside r d)) as (before & old & after & Ht & Hp).
  exists before, old, after. split; [done|]. by rewrite Hsp, <- Hp, Hr.
Qed.

Lemma agreed_resting g d : agreed g d -> pComposition_ g = false -> Resting g d.
Proof. unfold agreed. intros H Hg. rewrite Hg in H. by split. Qed.

Definition word_ok (e : E) g d : Prop :=
  if pComposition_ g then exists before after, Composed before (Peek e) after g d
  else Count e = 0%nat /\ v_composition (view d) = None.

Lemma Inv_agreed c : Inv c -> agreed (mgr_ c) (doc_ c).
Proof.
  intros [_ H]. unfold in_step, IsComposing, agreed in *.
  destruct (pComposition_ (mgr_ c)); [|tauto]. destruct H as (b & a & [_ H _ _]). eauto.
Qed.

Lemma Inv_word c e g d : Inv c -> engine_ok e -> word_ok e g d -> Inv (with_word c e g d).
Proof. intros [[H1 H3 H4] H2] He Hw. split; [by split|exact Hw]. Qed.

Lemma Resting_word e g d : Resting g d -> Count e = 0%nat -> word_ok e g d.
Proof. intros [Hg Hd] He. unfold word_ok. by rewrite Hg. Qed.

Lemma Composed_word before e after g d : Composed before (Peek e) after g d -> word_ok e g d.
Proof. intros H. unfold word_ok. rewrite (composed_mgr _ _ _ _ _ H). eauto. Qed.

(** With no composition an expansion may be young. *)
Lemma Resting_good c e g d :
  Inv c -> engine_ok e -> Resting g d -> Count e = 0%nat -> Good n (with_word c e g d).
Proof.
  intros Hi He Hr Hn. split; [by apply Inv_word; auto using Resting_word|].
  intros Hc. change (pComposition_ g = true) in Hc. by rewrite (resting_mgr _ _ Hr) in Hc.
Qed.

Lemma Good_Inv c : Good n c -> Inv c.
Proof. by intros []. Qed.

(** ** Sessions that end the composition *)

Lemma CommitEditSession_rests text g d :
  agreed g d -> let '(_, g', d') := CommitEditSession text g d in Resting g' d'.
Proof.
  intros H. destruct (pComposition_ g) eqn:Eg.
  - destruct (agreed_covers _ _ H Eg) as (before & old & after & Ht & Hc).
    unfold CommitEditSession. rewrite Eg.
    set (r := if CurrentTextEquals text g then _ else _).
    assert (Hr : exists old' g' d', r = (true, g', d') /\ pComposition_ g' = true /\
      v_text (view d') = before ++ old' ++ after /\
      v_composition (view d') = Some (length before, length old')).
    { subst r. destruct (CurrentTextEquals text g); [by exists old, g, d|].
      destruct (SetCompositionText_covered text before old after g d Eg Ht Hc)
        as (g' & d' & -> & [] & _). by exists text, g', d'. }
    destruct Hr as (old' & g' & d' & -> & Hg' & Ht' & Hc').
    pose proof (EndComposition_rests g' d' Hg' (ex_intro _ _ Hc')) as He.
    by destruct (EndComposition g' d').
  - pose proof (agreed_resting _ _ H Eg). by rewrite Commit_resting.
Qed.

Lemma RequestEditSession_granted s c :
  RequestEditSession m s c =
  let '(_, g, d) := s (mgr_ c) (doc_ c) in with_word c (engine_ c) g d.
Proof. unfold RequestEditSession. destruct (m_context m); [|done]. by rewrite plain_grants. Qed.

Lemma commit_session_rests text c :
  agreed (mgr_ c) (doc_ c) ->
  exists g d, commit_session m text c = with_word c (engine_ c) g d /\ Resting g d.
Proof.
  intros H. unfold commit_session. rewrite RequestEditSession_granted.
  pose proof (CommitEditSession_rests text _ _ H) as Hr.
  destruct (CommitEditSession text (mgr_ c) (doc_ c)) as [[ok g] d]. eauto.
Qed.

(** The word ends: the engine is reset after the session, whatever it held. *)
Lemma end_word_good text e c :
  Inv c -> Good n (ResetEngine (commit_session m text { c with engine_ := e })).
Proof.
  intros H. destruct (commit_session_rests text { c with engine_ := e }) as (g & d & -> & Hr).
  { by apply (Inv_agreed c). }
  by apply (Resting_good c (Reset e)); [|apply Reset_ok| |apply Reset_Count].
Qed.
Lemma end_word_good' text c : Inv c -> Good n (ResetEngine (commit_session m text c)).
Proof. intros H. apply (end_word_good text (engine_ c)) in H. by destruct c. Qed.

Lemma take_commit_eq c :
  take_commit c = ((Commit (engine_ c)).1, { c with engine_ := (Commit (engine_ c)).2 }).
Proof. unfold take_commit. by destruct (Commit (engine_ c)). Qed.

Lemma RecordCommitSnapshot_good text raw b c :
  Forall (fun k => k <> 0) raw -> Good n c -> Good n (RecordCommitSnapshot m text raw b c).
Proof.
  intros Hraw [[[H1 H3 H4] H2] Hs]. unfold RecordCommitSnapshot.
  destruct (_ || _); (split; [split; [split|]|exact Hs]); try done; constructor.
Qed.

Lemma ControllerCommit_good c : Inv c -> Good n (ControllerCommit m c).
Proof.
  intros H. unfold ControllerCommit. rewrite take_commit_eq. cbv zeta.
  apply TryPromote_good, RecordCommitSnapshot_good; [by apply PeekRaw_keys, (inv_ok _ (inv_base _ H))|].
  by apply ClearMacroTracking_good, digit_good, end_word_good.
Qed.

Lemma try_promote_composing c : IsComposing (try_promote c) = IsComposing c.
Proof.
  unfold try_promote, TryPromotePendingConfig. destruct (negb _); [done|].
  destruct (negb _); [done|]. cbn [snd]. unfold recreate_engine, promote_config. cbv zeta.
  destruct (pendingConfig_ _); by destruct (spellSuggestEnabled _).
Qed.
Lemma ControllerCommit_rests c : Inv c -> IsComposing (ControllerCommit m c) = false.
Proof.
  intros H. unfold ControllerCommit. rewrite take_commit_eq. cbv zeta. rewrite try_promote_composing.
  destruct (commit_session_rests (Commit (engine_ c)).1 { c with engine_ := (Commit (engine_ c)).2 })
    as (g & d & -> & [Hr _]); [by apply (Inv_agreed c)|].
  unfold RecordCommitSnapshot. by destruct (_ || _).
Qed.

Lemma CommitWithChar_good ch c : Inv c -> Good n (CommitWithChar m ch c).
Proof.
  intros H. unfold CommitWithChar. rewrite take_commit_eq. cbv zeta.
  apply TryPromote_good, RecordCommitSnapshot_good; [by apply PeekRaw_keys, (inv_ok _ (inv_base _ H))|].
  unfold ClearMacroTrackingAfterCommit.
  case_match; [|apply ClearMacroTracking_good]; by apply digit_good, end_word_good.
Qed.

Lemma ClearContext_good c : Good n c -> Good n (ControllerKeys.ClearContext c).
Proof.
  intros [[[H1 H3 H4] H2] Hs]. split; [split; [split|]|exact Hs]; try done; [by apply ClearContext_ok|].
  unfold in_step, IsComposing in *. cbn. destruct (pComposition_ (mgr_ c)).
  - by rewrite ClearContext_Peek.
  - by rewrite ClearContext_Count.
Qed.

Lemma CommitRawAndEnd_good c : Good n c -> Good n (CommitRawAndEnd m c).2.
Proof.
  intros H. unfold CommitRawAndEnd. case_bool_decide; [done|]. cbv zeta. cbn [snd].
  apply TryPromote_good, ClearMacroTracking_good, digit_good, ClearContext_good.
  by apply end_word_good', H.
Qed.

Lemma EndCompositionVerbatim_good c : Inv c -> Good n (EndCompositionVerbatim m c).
Proof.
  intros H. unfold EndCompositionVerbatim. cbv zeta.
  by apply TryPromote_good, ResetCommitUndo_good, ClearMacroTracking_good, digit_good,
    ClearContext_good, end_word_good'.
Qed.

(** The reset forgets the composition too; the host must have ended it. *)
Lemma ControllerReset_good c :
  Base c -> v_composition (view (doc_ c)) = None -> Good n (ControllerReset c).
Proof.
  intros [H1 H3 H4] Hn. unfold ControllerReset. cbv zeta. apply TryPromote_good, digit_good.
  split; [split; [split|]|]; try done; cbn.
  - by apply ClearContext_ok, Reset_ok.
  - unfold in_step. cbn. by rewrite ClearContext_Count, Reset_Count.
Qed.

(** ** Edits before the caret *)

Lemma not_composing_resting c : Inv c -> IsComposing c = false -> Resting (mgr_ c) (doc_ c).
Proof. intros H Hc. by apply agreed_resting; [apply Inv_agreed|]. Qed.
Lemma not_composing_empty c : Inv c -> IsComposing c = false -> Count (engine_ c) = 0%nat.
Proof. intros [_ H] Hc. unfold in_step in H. rewrite Hc in H. apply H. Qed.

Lemma ReplacePrecedingText_good k t expected c :
  Inv c -> IsComposing c = false -> Good n (ReplacePrecedingText m k t expected c).2.
Proof.
  intros H Hc. unfold ReplacePrecedingText. destruct (m_context m); [|done].
  assert (Hg : Good n c) by (split; [done|intros Hy; congruence]).
  destruct (_ || _); [done|].
  destruct (ReplacePrecedingText_spec k t expected (doc_ c)) as (b & ok & d' & -> & Hn & _).
  { apply (not_composing_resting c H Hc). }
  cbn [snd]. change (Good n (with_word c (engine_ c) (mgr_ c) d')).
  apply Resting_good; [done|apply H|split; [done|exact Hn]|by apply not_composing_empty].
Qed.

Lemma TryRestoreLastCommitRaw_good c :
  Inv c -> IsComposing c = false -> Good n (TryRestoreLastCommitRaw m c).2.
Proof.
  intros H Hc. assert (Hg : Good n c) by (split; [done|intros Hy; congruence]).
  unfold TryRestoreLastCommitRaw. destruct (negb _); [done|].
  destruct (negb _); [by apply ResetCommitUndo_good|]. cbv zeta.
  destruct (_ || _); [by apply ResetCommitUndo_good|].
  destruct (m_context m); [|done]. rewrite plain_grants.
  destruct (EscRestore_spec (committed_body (lastCommit_ c)) (lc_rawInput (lastCommit_ c)) (doc_ c))
    as (b & d' & -> & Hn & _). { apply (not_composing_resting c H Hc). }
  cbn [snd]. apply ResetCommitUndo_good. change (Good n (with_word c (engine_ c) (mgr_ c) d')).
  apply Resting_good; [done|apply H|split; [done|exact Hn]|by apply not_composing_empty].
Qed.

(** ** Macros *)

Lemma set_raw_good raw c : Good n c -> Good n (set_raw raw c).
Proof. intros. unfold set_raw. good. Qed.
Lemma set_crossCommit_good c : Good n c -> Good n (set_crossCommit c).
Proof. intros. unfold set_crossCommit. good. Qed.

Lemma TrackMacroCharacter_good ch c : Good n c -> Good n (TrackMacroCharacter ch c).
Proof.
  intros. unfold TrackMacroCharacter. cbv zeta.
  repeat case_match; try apply ClearMacroTracking_good; by try apply set_raw_good.
Qed.
Lemma TrackMacroBackspace_good c : Good n c -> Good n (TrackMacroBackspace c).
Proof.
  intros. unfold TrackMacroBackspace. cbv zeta.
  repeat case_match; try apply ClearMacroTracking_good; by try apply set_raw_good.
Qed.
Lemma keep_shortcut_good c : Good n c -> Good n (keep_shortcut c).
Proof. intros. by apply set_crossCommit_good, set_raw_good. Qed.
Lemma macro_plan_good t c : Good n c -> Good n (macro_plan m t c).2.
Proof.
  intros. unfold macro_plan. cbv zeta. destruct (matched _); [done|].
  destruct (LookupMacroInContext _ _ _); [by apply set_crossCommit_good|done].
Qed.
Lemma no_macro_good vk t c : Good n c -> Good n (no_macro m vk t c).
Proof.
  intros. unfold no_macro.
  repeat case_match; auto using keep_shortcut_good, ClearMacroTracking_good, set_crossCommit_good.
Qed.

(** The expansion is written with no composition left; a refusal leaves the engine
    empty. *)
Lemma write_expansion_rests plan t c :
  Inv c -> let '(ok, c') := write_expansion m plan t c in
  Good n (if ok then ResetEngine c' else c') /\ IsComposing c' = false.
Proof.
  intros H. unfold write_expansion. destruct (_ || _) eqn:Eb.
  - set (c1 := if IsComposing c then _ else c).
    assert (Good n c1 /\ IsComposing c1 = false) as [Hg1 Hc1].
    { subst c1. destruct (IsComposing c) eqn:Ec.
      - split; [by apply digit_good, end_word_good'|].
        destruct (commit_session_rests (Peek (engine_ c)) c) as (g & d & -> & [Hr _]);
          [by apply Inv_agreed|exact Hr].
      - split; [split; [done|intros Hy; congruence]|done]. }
    cbv zeta. assert (IsComposing (ReplacePrecedingText m (bsCount plan) t [] c1).2 = false).
    { unfold ReplacePrecedingText. repeat case_match; done. }
    pose proof (ReplacePrecedingText_good (bsCount plan) t [] c1 (proj1 Hg1) Hc1) as Hg2.
    destruct (ReplacePrecedingText _ _ _ _ _) as [ok c2]. cbn [snd] in *.
    split; [|done]. destruct ok; [|done]. destruct Hg2 as [Hg2 _].
    apply (Resting_good c2 (Reset (engine_ c2)) _ _ Hg2); [apply Reset_ok| |apply Reset_Count].
    by apply not_composing_resting.
  - cbv zeta. pose proof (end_word_good' t c H) as He.
    destruct (commit_session_rests t c) as (g & d & Es & Hr); [by apply Inv_agreed|].
    rewrite Es in *. assert (Hc : IsComposing (with_word c (engine_ c) g d) = false) by apply Hr.
    by rewrite Hc.
Qed.

Lemma arm_macro_undo_good vk t plan r c :
  Good n c -> IsComposing c = false -> Good n (arm_macro_undo m vk t plan r c).
Proof.
  intros [[[H1 H3 H4] H2] Hs] Hc. unfold arm_macro_undo. cbv zeta.
  split; [split; [by split|exact H2]|]. intros Hy. change (IsComposing c = true) in Hy. congruence.
Qed.

Lemma expand_macro_good vk t plan c : Inv c -> Good n (expand_macro m vk t plan c).2.
Proof.
  intros H. unfold expand_macro. cbv zeta.
  set (r := if negb (isPartOfMacro plan) && _ then _ else _).
  pose proof (write_expansion_rests plan r c H) as Hw.
  destruct (write_expansion m plan r c) as [[] c1]; destruct Hw as [Hg Hc]; cbn [negb snd].
  - apply arm_macro_undo_good; [by apply ResetCommitUndo_good, ClearMacroTracking_good, digit_good|].
    unfold ResetCommitUndo. by destruct (_ == _).
  - by apply ClearMacroTracking_good.
Qed.

Lemma HandleMacroTrigger_good vk t c : Good n c -> Good n (HandleMacroTrigger m vk t c).2.
Proof.
  intros H. unfold HandleMacroTrigger. destruct (negb _); [apply H|].
  destruct (_ || _); [by apply ClearMacroTracking_good|].
  destruct (negb _); [destruct (begins_shortcut _ _);
    [by apply keep_shortcut_good|by apply ClearMacroTracking_good]|].
  cbv zeta. set (c1 := if (_ && _)%bool then set_raw _ c else c).
  assert (H1 : Good n c1) by (subst c1; destruct (_ && _); [by apply set_raw_good|done]).
  destruct (_ && (kMaxRawMacroBuffer <? _)%nat); [by apply ClearMacroTracking_good|].
  pose proof (macro_plan_good t c1 H1) as H2. destruct (macro_plan m t c1) as [plan c2].
  destruct (negb (matched plan)); [by apply no_macro_good|by apply expand_macro_good, H2].
Qed.

Lemma UndoMacro_good c : settled m c -> Good n c -> Good n (UndoMacro m c).2.
Proof.
  intros Hm H. unfold UndoMacro. destruct (HasMacroUndo m c) eqn:Eh; [|exact H]. cbn [negb].
  assert (Hc : IsComposing c = false).
  { destruct (IsComposing c) eqn:Ec; [|done]. exfalso. apply (Hm Ec).
    unfold HasMacroUndo in Eh. cbv zeta in Eh. rewrite !andb_true_iff in Eh.
    split; [tauto|]. apply Z.leb_le. tauto. }
  cbv zeta. set (u := macroUndoState_ (macros_ c)).
  assert (Hg : Good n (ReplacePrecedingText m (mu_expansionLength u) (mu_shortcut u) (mu_expansion u)
                         (ResetMacroUndo c)).2).
  { apply ReplacePrecedingText_good; [by apply Good_Inv, ResetMacroUndo_good|done]. }
  destruct (ReplacePrecedingText _ _ _ _ _) as [[] c1]; cbn [negb snd] in *; [|exact Hg].
  revert Hg. apply (macros_good n). intros. by right.
Qed.

(** ** Keys of a word *)

Lemma selection_split d : exists before selected after,
  v_text (view d) = before ++ selected ++ after /\
  v_selection (view d) = (length before, length selected).
Proof. apply inside_split, plain_selection. Qed.

Lemma show_eq e c :
  show m { c with engine_ := e } =
  let '(_, g, d) :=
    if IsComposing c then UpdateCompositionEditSession (Peek e) (mgr_ c) (doc_ c)
    else StartCompositionEditSession (Peek e) (mgr_ c) (doc_ c) in with_word c e g d.
Proof.
  unfold show. rewrite RequestEditSession_granted.
  change (IsComposing { c with engine_ := e }) with (IsComposing c). by destruct (IsComposing c).
Qed.

(** Whatever the engine has become, its text is shown. *)
Lemma show_step e c :
  Inv c -> engine_ok e ->
  let c' := show m { c with engine_ := e } in
  Base c' /\ engine_ c' = e /\
  (in_step c' \/ (IsComposing c = false /\ IsComposing c' = false /\ Peek e = [] /\
                  v_composition (view (doc_ c')) = None)).
Proof.
  intros H He. cbv zeta. rewrite show_eq.
  pose proof (inv_base c H) as [H1 H3 H4]. destruct (IsComposing c) eqn:Ec.
  - destruct (agreed_covers _ _ (Inv_agreed c H) Ec) as (before & old & after & Ht & Hc).
    destruct (SetCompositionText_covered (Peek e) before old after (mgr_ c) (doc_ c) Ec Ht Hc)
      as (g & d & Es & HC & _).
    unfold UpdateCompositionEditSession. unfold IsComposing in Ec. rewrite Ec. cbn [negb].
    rewrite Es. split; [by split|]. split; [done|]. left.
    by apply Composed_word in HC.
  - pose proof (not_composing_resting c H Ec) as Hr. unfold StartCompositionEditSession.
    destruct (decide (Peek e = [])) as [Ep|Ep].
    + unfold StartComposition. rewrite bool_decide_eq_true_2 by done.
      split; [by split|]. split; [done|]. right. by destruct Hr.
    + destruct (selection_split (doc_ c)) as (before & sel & after & Ht & Hs).
      destruct (StartComposition_spec (Peek e) before sel after _ _ Ep Hr Ht Hs) as (g & d & -> & HC & _).
      split; [by split|]. split; [done|]. left.
      by apply Composed_word in HC.
Qed.

(** When there is nothing to show the engine is empty as well. *)
Lemma show_Inv e c : Inv c -> engine_ok e -> Inv (show m { c with engine_ := e }).
Proof.
  intros H He. destruct (show_step e c H He) as (Hb & Hn & [Hs|(_ & Hc & Hp & Hd)]); (split; [done|]);
    [done|]. unfold in_step. rewrite Hc, Hn. split; [by apply shows_counts|done].
Qed.

Lemma PushEngineKey_Inv ch u c : ch <> 0 -> Inv c -> Inv (PushEngineKey m ch u c).2.
Proof.
  intros Hch H. unfold PushEngineKey. cbv zeta.
  pose proof (show_Inv (PushKey ch u (engine_ c)) c H) as Hs.
  specialize (Hs (PushKey_ok _ _ _ Hch (inv_ok _ (inv_base _ H)))).
  change (on_engine (PushKey ch u) c) with { c with engine_ := PushKey ch u (engine_ c) }.
  set (c1 := show m _) in *. destruct (_ && _) eqn:Eb; [|done]. cbn [snd].
  apply andb_true_iff in Eb as [_ Eb%negb_true_iff].
  apply (Inv_word c1 (Reset (engine_ c1)) (mgr_ c1) (doc_ c1) Hs); [apply Reset_ok|].
  apply Resting_word; [by apply not_composing_resting|apply Reset_Count].
Qed.

Lemma ProcessBackspace_Inv c : Good n c -> Inv (ProcessBackspace m c).
Proof.
  intros H. apply TrackMacroBackspace_good in H. unfold ProcessBackspace. cbv zeta.
  set (c1 := TrackMacroBackspace c) in *. destruct H as [H _].
  assert (He : engine_ok (Backspace (engine_ c1))) by apply Backspace_ok, H.
  case_match eqn:Eb.
  - pose proof (show_Inv _ c1 H He) as Hs. rewrite show_eq in Hs.
    rewrite RequestEditSession_granted.
    change (mgr_ (on_engine Backspace c1)) with (mgr_ c1).
    change (doc_ (on_engine Backspace c1)) with (doc_ c1).
    unfold IsComposing, UpdateCompositionEditSession in *.
    by destruct (pComposition_ (mgr_ c1)).
  - apply Good_Inv, TryPromote_good.
    destruct (commit_session_rests [] (on_engine Backspace c1)) as (g & d & -> & Hr);
      [by apply (Inv_agreed c1)|].
    apply (Resting_good c1 (Backspace (engine_ c1))); try done.
    unfold HasEngineBuffer in Eb. apply Nat.ltb_ge in Eb. cbn in *. lia.
Qed.

(** ** Words that are reopened *)

(** A word that can be seeded is always reopened, and shown as it is. *)
Lemma SeedRevivedWord_seeded word raw e :
  (forall x : E, (SeedFromText word x).2 = true) ->
  (SeedRevivedWord word raw e).1 = true /\ Peek (SeedRevivedWord word raw e).2 = word.
Proof.
  intros Hs. unfold SeedRevivedWord, RestoreCommittedText, seed_visible.
  set (e1 := fold_left _ raw (Reset e)). case_bool_decide as Ep; [done|].
  pose proof (Hs (Reset e1)) as H2. pose proof (Seeded_shows word (Reset e1) H2) as Hp.
  destruct (SeedFromText word (Reset e1)) as [e2 ok]. cbn in *. subst ok.
  rewrite (bool_decide_eq_true_2 _ Hp). by cbn.
Qed.

Lemma fold_PushChar_ok raw e :
  Forall (fun k => k <> 0) raw -> engine_ok e ->
  engine_ok (fold_left (fun e k => PushChar k e) raw e).
Proof.
  intros Hr. revert e. induction Hr as [|k raw Hk Hr IH]; intros e He; [done|].
  cbn. by apply IH, PushChar_ok.
Qed.
Lemma SeedRevivedWord_ok word raw e :
  Forall (fun k => k <> 0) raw -> engine_ok (SeedRevivedWord word raw e).2.
Proof.
  intros Hr. unfold SeedRevivedWord.
  pose proof (RestoreCommittedText_ok word (fun e => fold_left (fun e k => PushChar k e) raw e)
                PreferHistory e (fun x Hx => fold_PushChar_ok raw x Hr Hx)) as Hok.
  by destruct (RestoreCommittedText _ _ _ _).
Qed.

Lemma MatchingRaw_keys word c : Base c -> Forall (fun k => k <> 0) (MatchingRawForCommittedWord word c).
Proof. intros H. unfold MatchingRawForCommittedWord. cbv zeta. repeat case_match; try constructor. apply H. Qed.

Lemma StartCompositionOnRange_agreed r text g d :
  text <> [] -> agreed g d ->
  exists g' d', StartCompositionOnRange r text g d = (true, g', d') /\
    agreed g' d' /\ pComposition_ g' = true.
Proof.
  intros Hx H. unfold StartCompositionOnRange. rewrite bool_decide_eq_false_2 by done.
  assert (Hr : let '(g', d') := EndComposition g d in Resting g' d').
  { destruct (pComposition_ g) eqn:Eg.
    - apply EndComposition_rests; [done|]. unfold agreed in H. by rewrite Eg in H.
    - rewrite EndComposition_resting by by apply agreed_resting. by apply agreed_resting. }
  destruct (EndComposition g d) as [g1 d1].
  destruct (BeginCompositionOnRange_covers text r g1 d1 Hr) as (g' & d' & -> & Hg & _ & Hc & _).
  exists g', d'. split_and!; try done. unfold agreed. rewrite Hg. eauto.
Qed.

Lemma write_revived_word e g d :
  engine_ok e -> agreed g d -> pComposition_ g = true ->
  let '(ok, e', g', d') := write_revived e g d in
  ok = true /\ e' = e /\ word_ok e' g' d'.
Proof.
  intros He H Hg. destruct (agreed_covers _ _ H Hg) as (before & old & after & Ht & Hc).
  destruct (SetCompositionText_covered (Peek e) before old after g d Hg Ht Hc) as (g1 & d1 & Es & HC & _).
  unfold write_revived. rewrite Es. cbn [negb]. destruct (Nat.eqb_spec (Count e) 0) as [E0|_].
  - pose proof (EndComposition_rests g1 d1 (composed_mgr _ _ _ _ _ HC)
                  (ex_intro _ _ (composed_range _ _ _ _ _ HC))) as Hr.
    destruct (EndComposition g1 d1). split; [done|]. split; [done|]. by apply Resting_word.
  - split; [done|]. split; [done|]. by apply Composed_word in HC.
Qed.

Lemma ReviveComposition_word word r raw e g d :
  word <> [] -> (forall x : E, (SeedFromText word x).2 = true) ->
  Forall (fun k => k <> 0) raw -> agreed g d ->
  let '(_, e', g', d') := ReviveCompositionEditSession word r raw e g d in
  engine_ok e' /\ word_ok e' g' d'.
Proof.
  intros Hw Hs Hr Ha. unfold ReviveCompositionEditSession. rewrite bool_decide_eq_false_2 by done.
  destruct (SeedRevivedWord_seeded word raw e Hs) as [E1 _].
  pose proof (SeedRevivedWord_ok word raw e Hr) as Hok.
  destruct (SeedRevivedWord word raw e) as [seeded e1]. cbn in E1, Hok. subst seeded. cbn [negb].
  destruct (StartCompositionOnRange_agreed r word g d Hw Ha) as (g1 & d1 & -> & Ha1 & Hg1). cbn [negb].
  pose proof (Backspace_ok e1 Hok) as Hb.
  pose proof (write_revived_word (Backspace e1) g1 d1 Hb Ha1 Hg1) as Hwr.
  destruct (write_revived _ _ _) as [[[ok e2] g2] d2]. by destruct Hwr as (_ & -> & ?).
Qed.

Lemma ReviveAndType_word word r ch u raw e g d :
  word <> [] -> ch <> 0 -> (forall x : E, (SeedFromText word x).2 = true) ->
  Forall (fun k => k <> 0) raw -> agreed g d ->
  let '(_, e', g', d', revived) := ReviveAndTypeEditSession word r ch u raw e g d in
  revived = true /\ engine_ok e' /\ word_ok e' g' d'.
Proof.
  intros Hw Hch Hs Hr Ha. unfold ReviveAndTypeEditSession. rewrite bool_decide_eq_false_2 by done.
  apply Z.eqb_neq in Hch as Ech. rewrite Ech. cbn [orb].
  destruct (SeedRevivedWord_seeded word raw e Hs) as [E1 _].
  pose proof (SeedRevivedWord_ok word raw e Hr) as Hok.
  destruct (SeedRevivedWord word raw e) as [seeded e1]. cbn in E1, Hok. subst seeded. cbn [negb].
  destruct (StartCompositionOnRange_agreed r word g d Hw Ha) as (g1 & d1 & -> & Ha1 & Hg1). cbn [negb].
  pose proof (PushKey_ok ch u e1 Hch Hok) as Hp.
  pose proof (write_revived_word (PushKey ch u e1) g1 d1 Hp Ha1 Hg1) as Hwr.
  destruct (write_revived _ _ _) as [[[ok e2] g2] d2]. by destruct Hwr as (-> & -> & ?).
Qed.

Lemma RequestEngineSession_granted {A} (s : E -> Manager -> D -> A * E * Manager * D) a c :
  RequestEngineSession m s a c =
  let '(x, e, g, d) := s (engine_ c) (mgr_ c) (doc_ c) in (x, with_word c e g d).
Proof. unfold RequestEngineSession. destruct (m_context m); [|done]. by rewrite plain_grants. Qed.

Lemma revive_by_backspace_Inv r c :
  Inv c -> pendingReviveRange_ c <> None -> Inv (revive_by_backspace m r c).
Proof.
  intros H Hp. destruct (inv_pending _ (inv_base _ H) Hp) as [Hw Hs].
  unfold revive_by_backspace. cbv zeta. rewrite RequestEngineSession_granted.
  pose proof (ReviveComposition_word (pendingReviveWord_ c) r
                (MatchingRawForCommittedWord (pendingReviveWord_ c) c) (engine_ c) (mgr_ c) (doc_ c)
                Hw Hs (MatchingRaw_keys _ _ (inv_base _ H)) (Inv_agreed _ H)) as Hr.
  destruct (ReviveCompositionEditSession _ _ _ _ _ _) as [[[ok e] g] d]. cbn [snd].
  eapply Frame_Inv; [|by apply (Inv_word c e g d H); apply Hr]. by split; auto.
Qed.

(** Either the key is in the document with its word, or nothing has changed. *)
Lemma try_revive_Inv word range ch u c :
  ch <> 0 -> Inv c ->
  let '(revived, c') := try_revive m word range ch u c in
  if revived then Inv c' else c' = c.
Proof.
  intros Hch H. unfold try_revive. destruct range as [r|]; [|done].
  case_bool_decide as Hw; [done|]. cbn [orb].
  destruct (SeedFromText word (Create (config c))).2 eqn:Es; [|done]. cbn [negb]. cbv zeta.
  rewrite RequestEngineSession_granted.
  assert (Hs : forall x : E, (SeedFromText word x).2 = true) by (intros x; by rewrite <- Es; apply Seed_same).
  pose proof (ReviveAndType_word word r ch u (MatchingRawForCommittedWord word c) (engine_ c)
                (mgr_ c) (doc_ c) Hw Hch Hs (MatchingRaw_keys _ _ (inv_base _ H)) (Inv_agreed _ H)) as Hr.
  destruct (ReviveAndTypeEditSession _ _ _ _ _ _ _ _) as [[[[ok e] g] d] revived].
  destruct Hr as (-> & He & Hd). by apply Inv_word.
Qed.

Lemma PrepareBackspaceRevive_good c : Good n c -> Good n (PrepareBackspaceRevive m c).2.
Proof.
  intros H. apply ClearPendingRevive_good in H. unfold PrepareBackspaceRevive. cbv zeta.
  set (c1 := ClearPendingRevive c) in *. destruct (_ || _); [done|].
  destruct (ReadSession _ _ _ _) as [[[|k word] r]|]; try done.
  destruct (SeedFromText (k :: word) (Create (config c1))) as [temp seeded] eqn:Es.
  destruct seeded; [|done]. cbn [negb orb]. destruct (IsEnglishWord temp); [done|]. cbn [snd].
  destruct H as [[[H1 H3 H4] H2] Hs]. split; [split; [split|]|]; try done. intros _.
  split; [done|]. intros e. change ((SeedFromText (k :: word) e).2 = true).
  by rewrite (Seed_same _ e (Create (config c1))), Es.
Qed.

(** ** Keys the controller takes *)

Lemma WantKey_good vk c : Good n c -> Good n (WantKey m vk c).2.
Proof.
  intros H. apply RefreshKeyRouting_good in H. unfold WantKey. cbv zeta.
  destruct (RefreshKeyRouting c) as [routed c1]. cbn [snd] in *.
  destruct (_ || _); [done|].
  destruct (KeyDecisions.DigitLed.DecideDigitLed _); cbn [snd]; by apply digit_good.
Qed.

Lemma typed_key_nonzero vk b : (b = false -> is_alpha vk = true) -> (typed_key m vk b).1 <> 0.
Proof.
  intros H. unfold typed_key. destruct b.
  - cbn. unfold ResolveEngineBracketKey, ResolveBracketKey, CanonicalBracketKey. cbv zeta.
    cbn [bk_character]. repeat case_match; lia.
  - specialize (H eq_refl). unfold is_alpha, in_range in H. cbn.
    apply andb_true_iff in H as [?%Z.leb_le ?%Z.leb_le].
    case_match; [lia|apply towlower_nonzero; lia].
Qed.

Lemma HandleTextKey_Inv vk b c :
  (b = false -> is_alpha vk = true) -> Good n c -> Inv (HandleTextKey m vk b c).2.
Proof.
  intros Hb H. unfold HandleTextKey. pose proof (typed_key_nonzero vk b Hb) as Hn.
  destruct (typed_key m vk b) as [ch upper]. cbn [fst] in Hn. cbv zeta.
  destruct (_ && _); [|by apply PushEngineKey_Inv, Good_Inv, TrackMacroCharacter_good].
  set (insp := ReadSession m _ _ c).
  pose proof (try_revive_Inv (in_word insp) (in_wordRange insp) ch upper c Hn (proj1 H)) as Hr.
  destruct (try_revive _ _ _ _ _ _) as [[] c1]; [done|]. subst c1.
  assert (Hc : let '(capped, u, c') := auto_cap (in_shouldAutoCap insp) b ch upper c in
               capped <> 0 /\ Good n c').
  { unfold auto_cap. destruct (_ && _); [|done]. cbv zeta. split.
    - destruct b; [done|by apply towupper_nonzero].
    - destruct (_ && _); [|done]. apply macros_good; [by intros; right|done]. }
  destruct (auto_cap _ _ _ _ _) as [[capped u] c1]. destruct Hc as [Hc1 Hg1].
  by apply PushEngineKey_Inv, Good_Inv, TrackMacroCharacter_good.
Qed.

Lemma HandleKey_Inv vk c : settled m c -> Good n c -> Inv (HandleKey m vk c).2.
Proof.
  intros Hm H. unfold HandleKey. destruct (vk =w VK_BACK).
  - destruct (HasMacroUndo m c); [by apply Good_Inv, UndoMacro_good|].
    destruct (pendingReviveRange_ c) eqn:Ep; cbn [snd];
      [|by apply ProcessBackspace_Inv]. apply revive_by_backspace_Inv; [apply H|by rewrite Ep].
  - destruct (vk =w VK_SPACE); [by apply Good_Inv, CommitWithChar_good, H|]. cbv zeta.
    destruct (IsEngineBracketKey m vk c || is_alpha vk) eqn:Et.
    + apply HandleTextKey_Inv; [|done]. intros Hb. by rewrite Hb in Et.
    + destruct (IsEngineDigitKey m vk c && HasEngineBuffer c) eqn:Ed; cbn [snd];
        [|by apply Good_Inv, TryPromote_good].
      apply andb_true_iff in Ed as [Ed Hbuf].
      assert (Hvk : vk <> 0).
      { unfold IsEngineDigitKey, in_range in Ed. rewrite !andb_true_iff, !Z.leb_le in Ed. lia. }
      destruct H as [H _].
      assert (He : engine_ok (PushChar vk (engine_ c))) by (apply PushChar_ok; [done|apply H]).
      pose proof (show_Inv _ c H He) as Hs. rewrite show_eq in Hs.
      change (IsComposing (on_engine (PushChar vk) c)) with (IsComposing c).
      destruct (IsComposing c) eqn:Ec.
      * by rewrite RequestEditSession_granted.
      * pose proof (not_composing_empty c H Ec) as Hz. unfold HasEngineBuffer in Hbuf.
        by rewrite Hz in Hbuf.
Qed.

(** *** The undo of an expansion

    No expansion is armed but by a macro, and a key that starts a word finds none. *)

Abbreviation undo c := (macroUndoState_ (macros_ c)).
Definition calm c : Prop := mu_active (undo c) = false.
Definition arms_none c c' : Prop := calm c' \/ undo c' = undo c.

Lemma calm_settled c : calm c -> settled n c.
Proof. unfold calm. by intros Hc _ [Hy _]; rewrite Hc in Hy. Qed.
Lemma arms_none_refl c : arms_none c c.
Proof. by right. Qed.
Lemma arms_none_trans c1 c2 c3 : arms_none c1 c2 -> arms_none c2 c3 -> arms_none c1 c3.
Proof. intros H [H'|H']; [by left|]. unfold arms_none, calm in *. by rewrite H'. Qed.
Lemma arms_none_calm c c' : arms_none c c' -> calm c -> calm c'.
Proof. unfold calm. by intros [H| ->]. Qed.
Lemma arms_none_young c c' : arms_none c c' -> ~ young n c -> ~ young n c'.
Proof. unfold young. intros [H| ->]; [|done]. unfold calm in H. rewrite H. by intros _ []. Qed.
Lemma Frame_arms_none c c' : Frame c c' -> arms_none c c'.
Proof. by intros []. Qed.

Lemma RequestEditSession_arms session c : arms_none c (RequestEditSession m session c).
Proof. rewrite RequestEditSession_granted. destruct (session _ _) as [[ok g] d]. by right. Qed.
Lemma RequestEngineSession_arms {A} (session : E -> Manager -> D -> A * E * Manager * D) a c :
  arms_none c (RequestEngineSession m session a c).2.
Proof.
  rewrite RequestEngineSession_granted. destruct (session _ _ _) as [[[x e] g] d]. by right.
Qed.
Lemma ReplacePrecedingText_arms k t expected c :
  arms_none c (ReplacePrecedingText m k t expected c).2.
Proof. right. unfold ReplacePrecedingText. by repeat case_match. Qed.

Lemma TrackMacroCharacter_arms ch c : arms_none c (TrackMacroCharacter ch c).
Proof.
  unfold TrackMacroCharacter. cbv zeta. destruct (_ || _); [by right|].
  destruct (_ <? _)%nat; [by left|by right].
Qed.
Lemma TrackMacroBackspace_arms c : arms_none c (TrackMacroBackspace c).
Proof.
  unfold TrackMacroBackspace. cbv zeta. destruct (_ || _); [by right|].
  case_bool_decide; [by left|by right].
Qed.
Lemma try_promote_arms c : arms_none c (try_promote c).
Proof.
  right. unfold try_promote, TryPromotePendingConfig. destruct (negb _); [done|].
  destruct (negb _); [done|]. cbn [snd]. unfold recreate_engine, promote_config. cbv zeta.
  destruct (pendingConfig_ _); by destruct (spellSuggestEnabled _).
Qed.
Lemma ControllerCommit_calm c : calm (ControllerCommit m c).
Proof.
  unfold ControllerCommit. rewrite take_commit_eq. cbv zeta. eapply arms_none_calm; [apply try_promote_arms|].
  unfold RecordCommitSnapshot. by destruct (_ || _).
Qed.
Lemma RefreshKeyRouting_arms c : arms_none c (RefreshKeyRouting c).2.
Proof. unfold RefreshKeyRouting. cbv zeta. repeat case_match; (by left) || by right. Qed.
Lemma WantKey_arms vk c : arms_none c (WantKey m vk c).2.
Proof.
  unfold WantKey. pose proof (RefreshKeyRouting_arms c) as Hr.
  destruct (RefreshKeyRouting c) as [routed c1]. cbn [snd] in Hr. cbv zeta.
  destruct (_ || _); [done|]. by destruct (KeyDecisions.DigitLed.DecideDigitLed _).
Qed.

(** A trigger that is not eaten by an expansion arms nothing. *)
Lemma write_expansion_arms plan r c : arms_none c (write_expansion m plan r c).2.
Proof.
  unfold write_expansion, commit_session. cbv zeta.
  destruct (_ || _); cbn [snd]; [|apply RequestEditSession_arms].
  eapply arms_none_trans; [|apply ReplacePrecedingText_arms].
  destruct (IsComposing c); [|apply arms_none_refl]. exact (RequestEditSession_arms _ c).
Qed.
Lemma macro_plan_arms t c : arms_none c (macro_plan m t c).2.
Proof.
  right. unfold macro_plan. cbv zeta. destruct (matched _); [done|].
  by destruct (LookupMacroInContext _ _ _).
Qed.
Lemma HandleMacroTrigger_arms vk t c :
  (HandleMacroTrigger m vk t c).1 = NoMatch -> arms_none c (HandleMacroTrigger m vk t c).2.
Proof.
  unfold HandleMacroTrigger. destruct (negb _); [by right|].
  destruct (_ || _); [by left|].
  destruct (negb _); [destruct (begins_shortcut _ _); [by right|by left]|].
  cbv zeta. set (c1 := if (_ && _)%bool then set_raw _ c else c).
  assert (H1 : undo c1 = undo c) by (subst c1; by destruct (_ && _)).
  destruct (_ && (kMaxRawMacroBuffer <? _)%nat); [by left|].
  pose proof (macro_plan_arms t c1) as H2. destruct (macro_plan m t c1) as [plan c2].
  cbn [snd] in H2. assert (H3 : arms_none c c2) by (unfold arms_none in *; by rewrite <- H1).
  clear H1 H2. destruct (negb (matched plan)).
  - intros _. cbn [snd]. eapply arms_none_trans; [exact H3|]. unfold no_macro.
    repeat case_match; (by left) || by right.
  - unfold expand_macro. cbv zeta. set (r := if negb (isPartOfMacro plan) && _ then _ else _).
    pose proof (write_expansion_arms plan r c2) as H4.
    destruct (write_expansion m plan r c2) as [[] c3]; cbn [negb]; [|by left]. cbn [fst]. intros Hx. by case_match.
Qed.

Lemma UndoMacro_calm c : HasMacroUndo m c = true -> calm (UndoMacro m c).2.
Proof.
  intros Hu. unfold UndoMacro. rewrite Hu. cbv zeta. cbn [negb]. set (u := undo c).
  pose proof (ReplacePrecedingText_arms (mu_expansionLength u) (mu_shortcut u) (mu_expansion u)
                (ResetMacroUndo c)) as Hr.
  apply arms_none_calm in Hr; [|done]. by destruct (ReplacePrecedingText _ _ _ _ _) as [[] c1].
Qed.

Lemma PushEngineKey_arms ch u c : arms_none c (PushEngineKey m ch u c).2.
Proof.
  unfold PushEngineKey, show. cbv zeta. destruct (_ && _); cbn [snd];
    exact (RequestEditSession_arms _ (on_engine (PushKey ch u) c)).
Qed.
Lemma HandleTextKey_arms vk b c : arms_none c (HandleTextKey m vk b c).2.
Proof.
  assert (Hpush : forall ch0 ch u c0, arms_none c c0 ->
    arms_none c (PushEngineKey m ch u (TrackMacroCharacter ch0 c0)).2).
  { intros ch0 ch u c0 H0. eapply arms_none_trans; [exact H0|].
    eapply arms_none_trans; [apply TrackMacroCharacter_arms|apply PushEngineKey_arms]. }
  unfold HandleTextKey. destruct (typed_key m vk b) as [ch upper].
  destruct (_ && _); [|apply Hpush, arms_none_refl]. cbv zeta. set (insp := ReadSession m _ _ c).
  assert (Hr : arms_none c (try_revive m (in_word insp) (in_wordRange insp) ch upper c).2).
  { unfold try_revive. destruct (in_wordRange insp); [|apply arms_none_refl].
    destruct (_ || _); [apply arms_none_refl|]. apply RequestEngineSession_arms. }
  destruct (try_revive _ _ _ _ _ _) as [[] c1]; cbn [snd] in Hr; [exact Hr|].
  unfold auto_cap. destruct (_ && _); cbv zeta; apply Hpush; [|exact Hr]. by destruct (_ && _).
Qed.

(** A word that is still composed was composed before the backspace. *)
Lemma ProcessBackspace_good c : Good n c -> Good n (ProcessBackspace m c).
Proof.
  intros H. split; [by apply ProcessBackspace_Inv|]. apply TrackMacroBackspace_good in H as [Hi Hs].
  unfold ProcessBackspace. cbv zeta. set (c1 := TrackMacroBackspace c) in *. clearbody c1.
  destruct (IsComposing c1) eqn:Ec.
  - intros _. apply (arms_none_young c1); [|by apply Hs]. destruct (HasEngineBuffer _).
    + exact (RequestEditSession_arms _ (on_engine Backspace c1)).
    + eapply arms_none_trans; [|apply try_promote_arms].
      exact (RequestEditSession_arms _ (on_engine Backspace c1)).
  - assert (Hb : HasEngineBuffer (on_engine Backspace c1) = false).
    { pose proof (not_composing_empty c1 Hi Ec) as He. unfold HasEngineBuffer.
      change (engine_ (on_engine Backspace c1)) with (Backspace (engine_ c1)).
      by rewrite Backspace_nothing, He. }
    rewrite Hb. intros Hy. rewrite try_promote_composing in Hy.
    unfold commit_session in Hy. rewrite RequestEditSession_granted in Hy.
    unfold IsComposing, CommitEditSession in *.
    change (mgr_ (on_engine Backspace c1)) with (mgr_ c1) in Hy. rewrite Ec in Hy.
    change (pComposition_ (mgr_ c1) = true) in Hy. congruence.
Qed.

(** A key that writes leaves nothing young over a word: any other than the backspace
    comes with no expansion armed, and a backspace that reopens a word with none
    young any more. *)
Lemma HandleKey_good vk c :
  settled m c -> Good n c -> (vk <> VK_BACK -> calm c) ->
  (vk = VK_BACK -> pendingReviveRange_ c <> None -> ~ young n c) ->
  Good n (HandleKey m vk c).2.
Proof.
  intros Hm H Hc Hr. split; [by apply HandleKey_Inv|]. unfold HandleKey.
  destruct (Z.eqb_spec vk VK_BACK) as [Hb|Hb].
  - destruct (HasMacroUndo m c) eqn:Eu; [by apply calm_settled, UndoMacro_calm|].
    destruct (pendingReviveRange_ c) as [r|] eqn:Ep; cbn [snd]; [|by apply ProcessBackspace_good].
    intros _. apply (arms_none_young c); [|by apply Hr].
    exact (RequestEngineSession_arms _ _ c).
  - specialize (Hc Hb). destruct (vk =w VK_SPACE); [by apply CommitWithChar_good, H|]. cbv zeta.
    destruct (_ || is_alpha vk); [by apply calm_settled, (arms_none_calm c), Hc; apply HandleTextKey_arms|].
    destruct (_ && _); cbn [snd]; apply calm_settled, (arms_none_calm c); try done.
    + destruct (IsComposing _); [|by right]. exact (RequestEditSession_arms _ _).
    + apply try_promote_arms.
Qed.

(** What the settings and the routing do to a word that waits to be reopened, and to
    an expansion that may be taken back: they drop them, or leave them alone. *)
Definition mild c c' : Prop :=
  arms_none c c' /\
  (pendingReviveRange_ c' = None \/ pendingReviveRange_ c' = pendingReviveRange_ c).
Lemma mild_refl c : mild c c.
Proof. split; [apply arms_none_refl|by right]. Qed.
Lemma mild_trans c1 c2 c3 : mild c1 c2 -> mild c2 c3 -> mild c1 c3.
Proof.
  intros [H1 H2] [H3 H4]. split; [by eapply arms_none_trans|].
  destruct H4 as [|E4]; [by left|]. rewrite E4. exact H2.
Qed.
Lemma Frame_mild c c' : Frame c c' -> mild c c'.
Proof. intros F. split; [by apply Frame_arms_none|]. by destruct F as [_ _ _ _ [|[]] _ _]; auto. Qed.
Lemma mild_then c c1 c2 : Frame c1 c2 -> mild c c1 -> mild c c2.
Proof. intros F H. eapply mild_trans; [exact H|by apply Frame_mild]. Qed.

Lemma try_promote_mild c c1 : mild c c1 -> mild c (try_promote c1).
Proof.
  intros H. eapply mild_trans; [exact H|]. split; [apply try_promote_arms|]. right.
  unfold try_promote, TryPromotePendingConfig. destruct (negb _); [done|].
  destruct (negb _); [done|]. cbn [snd]. unfold recreate_engine, promote_config. cbv zeta.
  destruct (pendingConfig_ _); by destruct (spellSuggestEnabled _).
Qed.
Lemma ReloadMacros_mild gen c c1 : mild c c1 -> mild c (ReloadMacros m gen c1).
Proof. apply mild_then, ReloadMacros_Frame. Qed.

Lemma ApplySharedState_mild st allow c c1 : mild c c1 -> mild c (ApplySharedState m st allow c1).
Proof.
  intros H. unfold ApplySharedState. cbv zeta. apply try_promote_mild.
  assert (Hm : forall c2, mild c c2 ->
    mild c match DecideMacroTable (mkTableInputs (macroConfigLoaded_ (macros_ c2))
             (macroGeneration_ (macros_ c2)) (ss_configGeneration st) allow) with
           | MacroReload => ReloadMacros m (ss_configGeneration st) c2
           | MacroNone | MacroKeepStale => c2 end).
  { intros. case_match; try done. by apply ReloadMacros_mild. }
  apply Hm. clear Hm.
  destruct (Bool.eqb _ (macroEnabled _)), (Bool.eqb _ (has_flag _ _)); revert H; apply mild_then;
    by split; auto.
Qed.

Lemma CheckConfigEvent_mild allow c : mild c (CheckConfigEvent m allow c).2.
Proof.
  assert (Htake : forall rec c1, mild c c1 -> mild c (take_block m allow rec c1).2).
  { intros rec c1 H. unfold take_block. cbv zeta. case_match.
    - rewrite try_promote_pair. apply try_promote_mild in H. case_match; [|done].
      by apply ReloadMacros_mild.
    - case_match; [case_match; try done; revert H; apply mild_then; by split; auto|].
      apply ApplySharedState_mild. revert H. apply mild_then. by split; auto. }
  pose proof (try_promote_mild c c (mild_refl c)) as H. unfold CheckConfigEvent. cbv zeta.
  set (r := if shared_connected (try_promote c) then _ else _).
  assert (Hr : mild c r.2).
  { subst r. destruct (shared_connected _); [done|]. unfold reopen. case_match. cbn [snd].
    revert H. apply mild_then. by split; auto. }
  destruct r as [opened c1]. cbn [snd] in Hr. case_match; [done|].
  case_match; [by apply Htake|]. case_match; [| |done].
  - apply Htake. revert Hr. apply mild_then. by split; auto.
  - revert Hr. apply mild_then. by split; auto.
Qed.
Lemma RefreshKeyRouting_mild c : mild c (RefreshKeyRouting c).2.
Proof. split; [apply RefreshKeyRouting_arms|]. right. unfold RefreshKeyRouting. cbv zeta. by repeat case_match. Qed.
Lemma SetTsfNativeConvertReady_mild b c : mild c (SetTsfNativeConvertReady m b c).
Proof. apply Frame_mild. unfold SetTsfNativeConvertReady. case_match; by split; auto. Qed.
Lemma CheckContextBlocked_mild c : mild c (CheckContextBlocked m c).
Proof. apply Frame_mild. unfold CheckContextBlocked. cbv zeta. case_match; by split; auto. Qed.
Lemma WantKey_mild vk c : mild c (WantKey m vk c).2.
Proof.
  split; [apply WantKey_arms|]. right. unfold WantKey.
  assert (Hr : pendingReviveRange_ (RefreshKeyRouting c).2 = pendingReviveRange_ c)
    by (unfold RefreshKeyRouting; cbv zeta; by repeat case_match).
  destruct (RefreshKeyRouting c) as [routed c1]. cbn [snd] in Hr. cbv zeta.
  destruct (_ || _); [done|]. by destruct (KeyDecisions.DigitLed.DecideDigitLed _).
Qed.

End Facts.
