(* ===== verification/KeySink.v ===== *)
(** * The key callbacks of the text service (src/src/tsf/KeyEventSink.h,
      KeyEventSink.cpp)

    The host offers each key twice, to the test phase and then, when it was
    claimed or the host skips the first phase, to the real one.  What the test
    phase finds is kept for the other.  A handler is a sequence of stages, each of
    which returns whether the key is eaten or goes on.  The second part proves that
    whatever the order of the callbacks the composition covers the engine's word. *)

From S2P Require Import Prelude Tables Config Action MacroPrefix Macro CommitState QuickConvert.
From S2P Require Import SharedState SharedStateManager InputEngine TextStore Composition.
From S2P Require Import Controller ControllerKeys MacroReload SettingsSync ControllerFacts.
From coqutil Require Import Datatypes.RecordSettersUsingExistingGetters.
Open Scope Z_scope.

Definition VK_ESCAPE : Z := 27.
Definition VK_RETURN : Z := 13.

Definition IsBareModifierKey (vkCode : Z) : bool :=
  (vkCode =w 16) || (vkCode =w 160) || (vkCode =w 161) || (vkCode =w 20).

Definition IsPunctuationKey (vkCode : Z) : bool :=
  in_range vkCode 48 57 || in_range vkCode 96 111 || in_range vkCode 186 192 ||
  in_range vkCode 219 223 ||
  ((vkCode =w 187) || (vkCode =w 188) || (vkCode =w 189) || (vkCode =w 190)).

#[export] Instance HotkeyConfig_eq_dec : EqDecision HotkeyConfig.
Proof. solve_decision. Defined.

(** [TsfQuickConvertSequenceState]. *)
Record ConvertSequence (R : Type) := mkSequence {
  seq_context : option Z; seq_selectedRange : option R; seq_originText : wstring;
  seq_lastResult : wstring; seq_currentIndex : Z; seq_lastConvertTime : Z
}.
Arguments mkSequence {R}. Arguments seq_context {R}. Arguments seq_selectedRange {R}.
Arguments seq_originText {R}. Arguments seq_lastResult {R}. Arguments seq_currentIndex {R}.
Arguments seq_lastConvertTime {R}.
Definition no_sequence {R} : ConvertSequence R := mkSequence None None [] [] 0 0.

Section Sink.
Context {E D R : Type} {IE : InputEngine E} {EF : EngineFactory E} {TC : TextContext D R}.
Context {CM : CaseMapper} {SP : CodeTable.SpacePlatform} {PP : PunctPlatform} {Lo : Locale}.
Abbreviation Controller := (Controller E D R).

(** [pKeystrokeMgr_] is whether it is advised. *)
Record KeySink := mkSink {
  ctl : Controller;
  lastTestedVk_ : Z; lastWantKeyResult_ : bool; lastTranslatedChar_ : wchar;
  lastEnglishMacroObservedVk_ : Z; lastMacroHandledVk_ : Z; lastMacroHandledEat_ : bool;
  pendingClaimedSpaceVk_ : Z; claimedSpaceKeyUpVk_ : Z; isForeground_ : bool;
  pKeystrokeMgr_ : bool; quickConvertKeyRegistered_ : bool;
  registeredQuickConvertHotkey_ : HotkeyConfig; quickConvertSyncUnsupported_ : bool;
  quickConvertSequence_ : ConvertSequence R; pendingEnterRepost_ : bool
}.
Implicit Types (s : KeySink) (m : Moment) (vk : Z).

Definition no_hotkey : HotkeyConfig := mkHotkey false false false false 0.
Definition new_sink (c : Controller) : KeySink :=
  mkSink c 0 false 0 0 0 false 0 0 false false false no_hotkey false no_sequence false.

Definition on_ctl (f : Controller -> Controller) s : KeySink := { s with ctl ::= f }.
(** An operation of the controller with an answer. *)
Definition ask_ctl {A} (f : Controller -> A * Controller) s : A * KeySink :=
  let '(x, c) := f (ctl s) in (x, { s with ctl := c }).

(** ** Stages *)

Definition Flow : Type := (bool * KeySink) + KeySink.
Definition stage : Type := KeySink -> Flow.
Definition returns (eaten : bool) s : Flow := inl (eaten, s).
Definition andthen (f g : stage) : stage :=
  fun s => match f s with inl r => inl r | inr s => g s end.
Definition always (f : KeySink -> KeySink) : stage := fun s => inr (f s).
Definition outcome (fl : Flow) : bool * KeySink :=
  match fl with inl r => r | inr s => (false, s) end.
#[local] Infix "|>" := andthen (at level 60, right associativity).

(** ** The preserved key of the native conversion *)

Definition PublishQuickConvertCapability m s : KeySink :=
  let r := routing_ (ctl s) in
  let ready := isForeground_ s && quickConvertKeyRegistered_ s &&
               negb (quickConvertSyncUnsupported_ s) && engineEnabled_ r && tsfActive_ r in
  on_ctl (SetTsfNativeConvertReady m ready) s.

Definition ClearQuickConvertPreservedKey s : KeySink :=
  { s with quickConvertKeyRegistered_ := false; registeredQuickConvertHotkey_ := no_hotkey;
           quickConvertSyncUnsupported_ := false; quickConvertSequence_ := no_sequence }.

Definition RefreshQuickConvertPreservedKey m s : KeySink :=
  if negb (pKeystrokeMgr_ s) then s
  else
    let desired := cc_hotkey (convertConfig_ (settings_ (ctl s))) in
    if quickConvertKeyRegistered_ s && bool_decide (desired = registeredQuickConvertHotkey_ s)
    then PublishQuickConvertCapability m s
    else
      let s := ClearQuickConvertPreservedKey (on_ctl (SetTsfNativeConvertReady m false) s) in
      if (hk_vk desired =w 0) || (0xFF <? hk_vk desired) || hk_win desired || negb (m_preserves m)
      then s
      else PublishQuickConvertCapability m
             { s with registeredQuickConvertHotkey_ := desired; quickConvertKeyRegistered_ := true }.

Definition Advise m (ok : bool) s : bool * KeySink :=
  if ok then (true, RefreshQuickConvertPreservedKey m { s with pKeystrokeMgr_ := true })
  else (false, s).
Definition Unadvise m s : KeySink :=
  let s := PublishQuickConvertCapability m { s with isForeground_ := false } in
  { ClearQuickConvertPreservedKey s with pKeystrokeMgr_ := false }.

(** ** Focus *)

Definition OnSetFocus m (fForeground : bool) s : KeySink :=
  let s := { s with isForeground_ := fForeground; pendingClaimedSpaceVk_ := 0;
                    claimedSpaceKeyUpVk_ := 0 } in
  let s := on_ctl ClearContext s in
  if fForeground then
    let s := (ask_ctl (CheckConfigEvent m true) s).2 in
    let s := RefreshQuickConvertPreservedKey m (on_ctl (RefreshFlags m) s) in
    on_ctl (fun c => ResetMacroUndo (ResetCommitUndo (ClearMacroTracking (SetTsfTipActive true c)))) s
  else
    let s := PublishQuickConvertCapability m s in
    on_ctl (fun c => ResetCommitUndo (ClearMacroTracking (SetTsfTipActive false c))) s.

(** ** What both phases begin with *)

(** The configuration, the preserved key, and is the key ours. *)
Definition enter m s : bool * KeySink :=
  let '(changed, s) := ask_ctl (CheckConfigEvent m false) s in
  let s := if changed then RefreshQuickConvertPreservedKey m s else s in
  ask_ctl RefreshKeyRouting s.

Definition drop_claim vk s : KeySink :=
  if vk <>w pendingClaimedSpaceVk_ s
  then { s with pendingClaimedSpaceVk_ := 0; claimedSpaceKeyUpVk_ := 0 } else s.
Definition RememberClaimedSpaceKeyDown m vk s : KeySink :=
  if (vk =w VK_SPACE) && (Z.land (m_lParam m) (2 ^ 30) =w 0)
  then { s with pendingClaimedSpaceVk_ := vk } else s.

Definition ClearInactiveKeyState s : KeySink :=
  on_ctl ClearMacroTracking
    { s with lastTestedVk_ := 0; lastWantKeyResult_ := false; lastTranslatedChar_ := 0;
             lastEnglishMacroObservedVk_ := 0; lastMacroHandledVk_ := 0;
             lastMacroHandledEat_ := false }.
Definition CommitBeforeInactiveBypass m s : KeySink :=
  let s := if IsComposing (ctl s) || HasEngineBuffer (ctl s)
           then on_ctl (ControllerCommit m) s else s in
  ClearInactiveKeyState s.

Definition stop_repeat m vk : stage := fun s =>
  if ShouldSuppressClaimedKeyDown (pendingClaimedSpaceVk_ s) vk (m_lParam m)
  then returns true s else inr s.

Definition check_context m : stage := fun s =>
  let s := on_ctl (CheckContextBlocked m) s in
  if contextBlocked_ (routing_ (ctl s)) then returns false (on_ctl ClearMacroTracking s) else inr s.

(** The engine and the composition have parted. *)
Definition recover m : stage := always (fun s =>
  let isComposing := IsComposing (ctl s) in
  let hasBuffer := HasEngineBuffer (ctl s) in
  if negb isComposing && hasBuffer then on_ctl ControllerReset s
  else if isComposing && negb hasBuffer then on_ctl (ControllerCommit m) s else s).

Definition commit_live m s : KeySink :=
  if HasEngineBuffer (ctl s) then on_ctl (ControllerCommit m) s else s.

Definition chord m : stage := fun s =>
  if m_ctrl m || m_alt m || m_win m
  then returns false (commit_live m (on_ctl ResetMacroUndo s)) else inr s.

Definition escape m vk : stage := fun s =>
  if vk <>w VK_ESCAPE then inr s
  else
    let s := { s with lastTestedVk_ := 0 } in
    let c := ctl s in
    let '(restored, s) :=
      if escRestoreRawEnabled (config c) then
        if HasEngineBuffer c then ask_ctl (CommitRawAndEnd m) s
        else if IsCommitUndoPrimed c && WithinUndoWindow m c
        then ask_ctl (TryRestoreLastCommitRaw m) s else (false, s)
      else (false, s) in
    let s := if negb restored && HasEngineBuffer (ctl s) then on_ctl (EndCompositionVerbatim m) s
             else if negb restored then on_ctl ClearContext s else s in
    returns restored s.

Definition suggestion_showing m s : bool :=
  suggestKeepChars (config (ctl s)) && HasNonEmptySelection m (ctl s).

Definition remember_test vk (want : bool) s : KeySink :=
  { s with lastTestedVk_ := vk; lastWantKeyResult_ := want }.
Definition forget_test s : KeySink := { s with lastTestedVk_ := 0; lastTranslatedChar_ := 0 }.
Definition clear_context_at_navigation vk s : KeySink :=
  if IsCaretNavigationKey vk then on_ctl ClearContext s else s.

Definition eats (r : MacroResult) : bool :=
  match r with ExpandedEatTrigger => true | _ => false end.

(** ** The test phase *)

Definition test_suggestion m vk : stage := fun s =>
  if (vk =w VK_BACK) && HasEngineBuffer (ctl s) && suggestion_showing m s
  then returns false (remember_test vk false (on_ctl (ControllerCommit m) s)) else inr s.

Definition test_punctuation m vk : stage := fun s =>
  let c := ctl s in
  if IsPunctuationKey vk && HasEngineBuffer c && negb (IsEngineDigitKey m vk c) &&
     negb (IsEngineBracketKey m vk c) && IsTextProducingTrigger vk (m_char m)
  then returns true { remember_test vk true s with lastTranslatedChar_ := m_char m } else inr s.

(** Macros while the mode is English: keys are watched and pass. *)
Definition test_english m vk : stage := fun s =>
  if negb (IsEnglishMacroTrackingActive (ctl s)) then inr s
  else if is_alpha vk then
    inr { on_ctl (TrackMacroCharacter (m_char m)) s with lastEnglishMacroObservedVk_ := vk }
  else if vk =w VK_BACK then
    inr { on_ctl TrackMacroBackspace s with lastEnglishMacroObservedVk_ := vk }
  else if IsCommitTrigger vk then
    if IsTextProducingTrigger vk (m_char m) && WouldExpandMacroTrigger m vk (m_char m) (ctl s)
    then returns true { remember_test vk true s with lastTranslatedChar_ := m_char m }
    else
      let '(r, s) := ask_ctl (HandleMacroTrigger m vk (m_char m)) s in
      let s := { s with lastEnglishMacroObservedVk_ := vk } in
      if r == NoMatch then inr s
      else returns (eats r) { s with lastMacroHandledVk_ := vk; lastMacroHandledEat_ := eats r }
  else inr (on_ctl ClearMacroTracking s).

(** A backspace on no word: the undo of a macro, the first and the second
    backspace after a commit. *)
Definition test_undo m vk : stage := fun s =>
  let c := ctl s in
  if (vk <>w VK_BACK) || HasEngineBuffer c then inr s
  else if HasMacroUndo m c then returns true (remember_test vk true s)
  else if IsCommitUndoReady c && WithinUndoWindow m c
  then returns false (remember_test vk false (on_ctl TransitionUndoReadyToPrimed s))
  else if IsCommitUndoPrimed c then inr (on_ctl ResetCommitUndo s) else inr s.

Definition test_macro m vk (want : bool) : stage := fun s =>
  let c := ctl s in
  if negb want && negb (IsEnglishMacroTrackingActive c) && HasMacroCandidate c && IsCommitTrigger vk
  then
    let '(r, s) := ask_ctl (HandleMacroTrigger m vk (m_char m)) s in
    if r == NoMatch then inr s
    else returns (eats r) { s with lastMacroHandledVk_ := vk; lastMacroHandledEat_ := eats r }
  else inr s.

Definition test_end m vk (want : bool) : stage := fun s =>
  if negb want && negb (IsBareModifierKey vk) && HasEngineBuffer (ctl s)
  then returns false (clear_context_at_navigation vk (on_ctl (ControllerCommit m) s))
  else returns want (if want then s else clear_context_at_navigation vk s).

(** Does the controller want the key, and what follows from it. *)
Definition test_want m vk : stage := fun s =>
  let '(want, s) := ask_ctl (WantKey m vk) s in
  (test_english m vk |> fun s =>
   let want := want && negb ((vk =w VK_BACK) && suggestion_showing m s) in
   (test_undo m vk |> fun s =>
    let '(want, s) :=
      if negb want && (vk =w VK_BACK) && negb (HasEngineBuffer (ctl s))
      then ask_ctl (PrepareBackspaceRevive m) s else (want, s) in
    (always (remember_test vk want) |> test_macro m vk want |> test_end m vk want) s) s) s.

Definition test_stages m vk : stage :=
  check_context m |>
  test_suggestion m vk |>
  always (fun s => if (vk <>w VK_BACK) && (vk <>w VK_ESCAPE) then on_ctl OnNonRestoreKey s else s) |>
  recover m |> chord m |> escape m vk |> test_punctuation m vk |> test_want m vk.

Definition OnTestKeyDown m vk s : bool * KeySink :=
  let '(routeToTsf, s) := enter m s in
  let s := if vk <>w VK_BACK then on_ctl ResetMacroUndo s else s in
  let s := drop_claim vk { s with lastTranslatedChar_ := 0; lastEnglishMacroObservedVk_ := 0;
                                  lastMacroHandledVk_ := 0 } in
  outcome ((stop_repeat m vk |> fun s =>
            if routeToTsf then test_stages m vk s
            else returns false (ClearInactiveKeyState s)) s).

(** ** The real phase *)

(** The macro was expanded in the test phase. *)
Definition down_handled m vk : stage := fun s =>
  if vk <>w lastMacroHandledVk_ s then inr s
  else
    let eat := lastMacroHandledEat_ s in
    let s := { s with lastMacroHandledVk_ := 0; lastMacroHandledEat_ := false;
                      lastEnglishMacroObservedVk_ := 0 } in
    returns eat (if eat then RememberClaimedSpaceKeyDown m vk s else s).

Definition down_macro_undo m vk : stage := fun s =>
  if (vk =w VK_BACK) && HasMacroUndo m (ctl s) then
    let '(undone, s) :=
      ask_ctl (UndoMacro m) { forget_test s with lastEnglishMacroObservedVk_ := 0 } in
    returns undone s
  else inr s.

(** The character the test phase translated, or the key's own. *)
Definition trigger_char m vk s : wchar :=
  if (vk =w lastTestedVk_ s) && (lastTranslatedChar_ s <>w 0) then lastTranslatedChar_ s
  else m_char m.

Definition expanded m vk (r : MacroResult) s : Flow :=
  returns (eats r) (if eats r then RememberClaimedSpaceKeyDown m vk s else s).

Definition down_english m vk : stage := fun s =>
  if negb (IsEnglishMacroTrackingActive (ctl s)) then inr s
  else
    let observedInTest := vk =w lastEnglishMacroObservedVk_ s in
    let trigger := trigger_char m vk s in
    let s := { s with lastEnglishMacroObservedVk_ := 0 } in
    if is_alpha vk then
      let s := if observedInTest then s else on_ctl (TrackMacroCharacter (m_char m)) s in
      returns false (forget_test s)
    else if vk =w VK_BACK then
      let s := if observedInTest then s else on_ctl TrackMacroBackspace s in
      returns false (forget_test s)
    else if IsCommitTrigger vk then
      let s := forget_test s in
      if observedInTest then returns false s
      else
        let '(r, s) := ask_ctl (HandleMacroTrigger m vk trigger) s in
        if r == NoMatch then returns false s else expanded m vk r s
    else inr (on_ctl ClearMacroTracking s).

Definition down_suggestion m vk : stage := fun s =>
  if (vk =w VK_BACK) && HasEngineBuffer (ctl s) && suggestion_showing m s
  then returns false (forget_test (on_ctl (ControllerCommit m) s)) else inr s.

Definition down_macro m vk : stage := fun s =>
  let c := ctl s in
  if HasMacroCandidate c && IsCommitTrigger vk && negb (IsEngineDigitKey m vk c) &&
     negb (IsEngineBracketKey m vk c) then
    let '(r, s) := ask_ctl (HandleMacroTrigger m vk (trigger_char m vk s)) s in
    if r == NoMatch then inr s else expanded m vk r s
  else inr s.

Definition down_punctuation m vk : stage := fun s =>
  let c := ctl s in
  if IsPunctuationKey vk && HasEngineBuffer c && negb (IsEngineDigitKey m vk c) &&
     negb (IsEngineBracketKey m vk c) && IsTextProducingTrigger vk (trigger_char m vk s)
  then returns true (forget_test (on_ctl (CommitWithChar m (trigger_char m vk s)) s)) else inr s.

(** What the test phase found, or finds now when the host skipped it. *)
Definition want_now m vk s : bool * KeySink :=
  if vk =w lastTestedVk_ s then (lastWantKeyResult_ s, s)
  else
    let '(want, s) := ask_ctl (WantKey m vk) s in
    (want && negb ((vk =w VK_BACK) && suggestion_showing m s), s).

(** A key the controller does not want ends the word; Enter is posted again to
    hosts that would read it in the same tick. *)
Definition down_commit m vk : stage := fun s =>
  if negb (IsBareModifierKey vk) && HasEngineBuffer (ctl s) then
    let s := clear_context_at_navigation vk (on_ctl (ControllerCommit m) s) in
    if (vk =w VK_RETURN) && m_repostTimer m
    then returns true { s with pendingEnterRepost_ := true } else returns false s
  else returns false (clear_context_at_navigation vk s).

Definition down_key m vk : stage := fun s =>
  let '(want, s) := want_now m vk s in
  let s := forget_test s in
  if negb want then down_commit m vk s
  else
    let '(handled, s) := ask_ctl (HandleKey m vk) s in
    returns handled (if handled then RememberClaimedSpaceKeyDown m vk s else s).

Definition down_stages m vk : stage :=
  check_context m |> recover m |> chord m |> down_handled m vk |> down_macro_undo m vk |>
  down_english m vk |> down_suggestion m vk |> escape m vk |> down_macro m vk |>
  down_punctuation m vk |> down_key m vk.

Definition OnKeyDown m vk s : bool * KeySink :=
  let '(routeToTsf, s) := enter m s in
  let s := if (vk <>w VK_BACK) && (vk <>w lastMacroHandledVk_ s) then on_ctl ResetMacroUndo s else s in
  let s := drop_claim vk s in
  outcome ((stop_repeat m vk |> fun s =>
            if routeToTsf then down_stages m vk s
            else returns false (CommitBeforeInactiveBypass m s)) s).

(** The timer of the posted Enter. *)
Definition RepostEnterTimerProc (windowLives : bool) s : bool * KeySink :=
  (pendingEnterRepost_ s && windowLives, { s with pendingEnterRepost_ := false }).

(** ** Key up *)

Definition eats_key_up vk s : bool * KeySink :=
  let '(routed, s) := ask_ctl RefreshKeyRouting s in
  (routed && IsComposing (ctl s) && (is_alpha vk || (vk =w VK_BACK)), s).

Definition OnTestKeyUp vk s : bool * KeySink :=
  if pendingClaimedSpaceVk_ s =w vk
  then (true, { s with pendingClaimedSpaceVk_ := 0; claimedSpaceKeyUpVk_ := vk })
  else eats_key_up vk s.
Definition OnKeyUp vk s : bool * KeySink :=
  if (pendingClaimedSpaceVk_ s =w vk) || (claimedSpaceKeyUpVk_ s =w vk)
  then (true, { s with pendingClaimedSpaceVk_ := 0; claimedSpaceKeyUpVk_ := 0 })
  else eats_key_up vk s.

End Sink.

Arguments KeySink : clear implicits.

(** ** The text service keeps the word on the screen

    The callbacks of the key sink, in any order and with the shared block, the file
    and the rest of Windows as they please, on a host that keeps plain text: the
    composition covers the word the engine shows, and there is none while the
    engine is empty. *)

#[local] Infix "|>" := andthen (at level 60, right associativity).

Section Facts.
Context {E D R : Type} {IE : InputEngine E} {IEL : InputEngineLaws E} {EF : EngineFactory E}.
Context {EFL : EngineFactoryLaws E} {TC : TextContext D R} {PH : PlainHost D R}.
Context {CM : CaseMapper} {SP : CodeTable.SpacePlatform} {PP : PunctPlatform} {Lo : Locale}.

Section Callback.
Variable m : Moment.
Hypothesis has_context : m_context m <> None.
Hypothesis no_wrap : m_tick m < 2 ^ 32.
Implicit Types (s : KeySink E D R) (c : Controller E D R) (vk : Z).

(** ** Stages *)

(** In step now, and with no expansion over a word now or at any later moment. *)
Definition later (n : Moment) : Prop := m_tick m <= m_tick n < 2 ^ 32.
Definition good s : Prop := forall n, later n -> Good n (ctl s).

Lemma later_now : later m.
Proof. split; [lia|done]. Qed.
Lemma good_now s : good s -> Good m (ctl s).
Proof. intros H. apply H, later_now. Qed.
Lemma good_Inv s : good s -> Inv (ctl s).
Proof. intros H. apply good_now in H. by destruct H. Qed.
Lemma on_ctl_good f s : (forall n c, Good n c -> Good n (f c)) -> good s -> good (on_ctl f s).
Proof. intros Hf H n Hn. by apply Hf, H. Qed.
(** What ends the word leaves nothing to be young over. *)
Lemma ends_good f s : (forall n c, Inv c -> Good n (f c)) -> good s -> good (on_ctl f s).
Proof. intros Hf H n Hn. by apply Hf, good_Inv. Qed.

Lemma ask_ctl_ctl {A} (f : Controller E D R -> A * Controller E D R) s :
  ctl (ask_ctl f s).2 = (f (ctl s)).2.
Proof. unfold ask_ctl. by destruct (f (ctl s)). Qed.
Lemma ask_ctl_good {A} (f : Controller E D R -> A * Controller E D R) s :
  (forall n c, Good n c -> Good n (f c).2) -> good s -> good (ask_ctl f s).2.
Proof. intros Hf H n Hn. rewrite ask_ctl_ctl. by apply Hf, H. Qed.

(** A stage returns in a good state, or goes on from [P] to [Q]. *)
Definition keeps (P Q : KeySink E D R -> Prop) (f : stage) : Prop :=
  forall s, P s -> match f s with inl (_, s') => good s' | inr s' => Q s' end.

Lemma keeps_andthen P Q S f g : keeps P Q f -> keeps Q S g -> keeps P S (f |> g).
Proof.
  intros Hf Hg s Hs. unfold andthen. specialize (Hf s Hs). destruct (f s) as [[]|s']; [done|].
  by apply Hg.
Qed.
Lemma keeps_always P Q f : (forall s, P s -> Q (f s)) -> keeps P Q (always f).
Proof. intros Hf s. apply Hf. Qed.
Lemma keeps_outcome P Q f s : (forall s, Q s -> good s) -> keeps P Q f -> P s -> good (outcome (f s)).2.
Proof. intros HQ Hf Hs. specialize (Hf s Hs). unfold outcome. destruct (f s) as [[]|]; auto. Qed.

(** Besides being good, what the way of a key knows of the undo: [X]. *)
Section Stages.
Variable X : KeySink E D R -> Prop.
Hypothesis X_keeps : forall s s', lastMacroHandledVk_ s' = lastMacroHandledVk_ s ->
  mild (ctl s) (ctl s') \/ calm (ctl s') -> X s -> X s'.

Definition well s : Prop := good s /\ X s.
(** Besides, a composition has letters in the engine. *)
Definition tidy s : Prop := well s /\ (HasEngineBuffer (ctl s) = false -> IsComposing (ctl s) = false).

Lemma well_same s s' :
  ctl s' = ctl s -> lastMacroHandledVk_ s' = lastMacroHandledVk_ s -> well s -> well s'.
Proof.
  intros Ec Ev [H1 H2]. split; [intros n Hn; rewrite Ec; by apply H1|].
  apply (X_keeps s); [done| |done]. left. rewrite Ec. apply mild_refl.
Qed.
Lemma on_ctl_well f s :
  (forall n c, Good n c -> Good n (f c)) -> (forall c, mild c (f c)) -> well s -> well (on_ctl f s).
Proof.
  intros Hf Hm [H1 H2]. split; [by apply on_ctl_good|].
  apply (X_keeps s); [done|left; apply Hm|done].
Qed.
Lemma ask_ctl_well {A} (f : Controller E D R -> A * Controller E D R) s :
  (forall n c, Good n c -> Good n (f c).2) -> (forall c, mild c (f c).2) -> well s ->
  well (ask_ctl f s).2.
Proof.
  intros Hf Hm [H1 H2]. split; [by apply ask_ctl_good|].
  apply (X_keeps s); [unfold ask_ctl; by destruct (f (ctl s))| |done]. left. rewrite ask_ctl_ctl. apply Hm.
Qed.

(** ** What both phases begin with *)

Lemma Publish_well s : well s -> well (PublishQuickConvertCapability m s).
Proof.
  apply on_ctl_well; [intros n c; apply SetTsfNativeConvertReady_good|apply SetTsfNativeConvertReady_mild].
Qed.
Lemma Refresh_well s : well s -> well (RefreshQuickConvertPreservedKey m s).
Proof.
  intros H. unfold RefreshQuickConvertPreservedKey. destruct (negb _); [done|]. cbv zeta.
  destruct (_ && _); [by apply Publish_well|].
  assert (Hs : well (ClearQuickConvertPreservedKey (on_ctl (SetTsfNativeConvertReady m false) s))).
  { apply (well_same (on_ctl (SetTsfNativeConvertReady m false) s)); [done|done|].
    apply on_ctl_well; [intros n c; apply SetTsfNativeConvertReady_good|
                        apply SetTsfNativeConvertReady_mild|done]. }
  destruct (_ || _); [done|]. apply Publish_well. by eapply well_same; [..|exact Hs].
Qed.

Lemma enter_well s : well s -> well (enter m s).2.
Proof.
  intros H. unfold enter.
  pose proof (ask_ctl_well (CheckConfigEvent m false) s) as H1.
  specialize (H1 (fun n c => CheckConfigEvent_good m n false c) (CheckConfigEvent_mild m false) H).
  destruct (ask_ctl (CheckConfigEvent m false) s) as [changed s1]. cbn [snd] in H1. cbv zeta.
  apply ask_ctl_well; [apply RefreshKeyRouting_good|apply RefreshKeyRouting_mild|].
  destruct changed; [by apply Refresh_well|done].
Qed.

Lemma drop_claim_well vk s : well s -> well (drop_claim vk s).
Proof. intros H. unfold drop_claim. destruct (_ <>w _); [by apply (well_same s)|done]. Qed.

Lemma stop_repeat_keeps vk : keeps well well (stop_repeat m vk).
Proof. intros s H. unfold stop_repeat. destruct (ShouldSuppressClaimedKeyDown _ _ _); [apply H|done]. Qed.

Lemma check_context_keeps : keeps well well (check_context m).
Proof.
  intros s H. unfold check_context. cbv zeta.
  assert (H1 : well (on_ctl (CheckContextBlocked m) s)).
  { apply on_ctl_well; [intros n c; apply CheckContextBlocked_good|apply CheckContextBlocked_mild|done]. }
  destruct (contextBlocked_ _); [|done].
  apply on_ctl_good; [apply ClearMacroTracking_good|apply H1].
Qed.

Lemma recover_keeps : keeps well tidy (recover m).
Proof.
  apply keeps_always. intros s H. cbv zeta. destruct (IsComposing (ctl s)) eqn:Ec; cbn [negb andb].
  - destruct (HasEngineBuffer (ctl s)) eqn:Eb; cbn [negb].
    + split; [done|]. by rewrite Eb.
    + split.
      * split; [|apply (X_keeps s); [done|right; by apply ControllerCommit_calm|apply H]].
        apply ends_good, H. intros n c. by apply ControllerCommit_good.
      * intros _. by apply (ControllerCommit_rests m); [|apply good_Inv, H].
  - assert (Hb : HasEngineBuffer (ctl s) = false).
    { unfold HasEngineBuffer. by rewrite (not_composing_empty _ (good_Inv _ (proj1 H)) Ec). }
    rewrite Hb. by split.
Qed.

Lemma commit_live_good s : good s -> good (commit_live m s).
Proof.
  intros H. unfold commit_live. case_match; [|done]. apply ends_good, H.
  intros n c. by apply ControllerCommit_good.
Qed.

Lemma chord_keeps : keeps tidy tidy (chord m).
Proof.
  intros s H. unfold chord. destruct (_ || _); [|done].
  apply commit_live_good, on_ctl_good; [apply ResetMacroUndo_good|apply H].
Qed.

Lemma ClearContext_all s : good s -> good (on_ctl ControllerKeys.ClearContext s).
Proof. apply on_ctl_good, ClearContext_good. Qed.

Lemma escape_keeps vk : keeps tidy well (escape m vk).
Proof.
  intros s [H Ht]. unfold escape. destruct (_ <>w _); [done|]. cbv zeta.
  set (s1 := { s with lastTestedVk_ := 0 }).
  assert (H1 : good s1) by apply H. change (ctl s1) with (ctl s). unfold returns.
  set (r := if escRestoreRawEnabled (config (ctl s)) then _ else _).
  assert (Hr : good r.2).
  { subst r. destruct (escRestoreRawEnabled _); [|done].
    destruct (HasEngineBuffer (ctl s)) eqn:Eb.
    - apply ask_ctl_good, H1. intros n c. by apply CommitRawAndEnd_good.
    - destruct (_ && _); [|done]. intros n Hn. rewrite ask_ctl_ctl.
      by apply TryRestoreLastCommitRaw_good; [|apply good_Inv|apply Ht]. }
  destruct r as [restored s2]. cbn [snd] in Hr.
  destruct (negb restored); cbn [andb]; [|done].
  destruct (HasEngineBuffer (ctl s2)); [|by apply ClearContext_all].
  apply ends_good, Hr. intros n c. by apply EndCompositionVerbatim_good.
Qed.

Lemma clear_context_good vk s : good s -> good (clear_context_at_navigation vk s).
Proof.
  intros H. unfold clear_context_at_navigation. destruct (IsCaretNavigationKey vk); [|done].
  by apply ClearContext_all.
Qed.
Lemma commit_good s : good s -> good (on_ctl (ControllerCommit m) s).
Proof. apply ends_good. intros n c. by apply ControllerCommit_good. Qed.

(** A macro trigger, in either phase: what follows depends on whether it matched. *)
Lemma ask_trigger_good vk t s : good s -> good (ask_ctl (HandleMacroTrigger m vk t) s).2.
Proof. apply ask_ctl_good. intros n c. by apply HandleMacroTrigger_good. Qed.

End Stages.

(** ** The test phase *)

Definition anything s : Prop := True.
Lemma well_anything s : good s -> well anything s.
Proof. by split. Qed.
Lemma keeps_anything f : keeps good good f -> keeps (well anything) (well anything) f.
Proof. intros Hf s [Hs _]. specialize (Hf s Hs). destruct (f s) as [[]|]; [done|by split]. Qed.

Lemma test_suggestion_keeps vk : keeps good good (test_suggestion m vk).
Proof. intros s H. unfold test_suggestion. destruct (_ && _); [exact (commit_good s H)|done]. Qed.
Lemma test_punctuation_keeps vk : keeps good good (test_punctuation m vk).
Proof. intros s H. unfold test_punctuation. cbv zeta. by destruct (_ && _). Qed.

Lemma test_english_keeps vk : keeps good good (test_english m vk).
Proof.
  intros s H. unfold test_english. destruct (negb _); [done|].
  destruct (is_alpha vk).
  { apply (on_ctl_good (TrackMacroCharacter (m_char m))), H. intros n c. apply TrackMacroCharacter_good. }
  destruct (vk =w VK_BACK).
  { apply (on_ctl_good TrackMacroBackspace), H. intros n c. apply TrackMacroBackspace_good. }
  destruct (IsCommitTrigger vk); [|apply on_ctl_good, H; intros n c; apply ClearMacroTracking_good].
  destruct (_ && _); [exact H|].
  pose proof (ask_trigger_good vk (m_char m) s H) as Ha.
  destruct (ask_ctl _ s) as [r s1]. cbn [snd] in Ha. cbv zeta. by destruct (r == NoMatch).
Qed.

Lemma TransitionUndo_good n c : Good n c -> Good n (TransitionUndoReadyToPrimed c).
Proof.
  intros H. unfold TransitionUndoReadyToPrimed. destruct (IsCommitUndoReady c); [|done].
  by apply commit_state_good.
Qed.
Lemma test_undo_keeps vk : keeps good good (test_undo m vk).
Proof.
  intros s H. unfold test_undo. cbv zeta. destruct (_ || _); [done|].
  destruct (HasMacroUndo m (ctl s)); [exact H|].
  destruct (_ && _).
  - exact (on_ctl_good TransitionUndoReadyToPrimed s TransitionUndo_good H).
  - destruct (IsCommitUndoPrimed (ctl s)); [|done].
    apply on_ctl_good, H. intros n c. apply ResetCommitUndo_good.
Qed.

Lemma test_macro_keeps vk want : keeps good good (test_macro m vk want).
Proof.
  intros s H. unfold test_macro. cbv zeta. destruct (_ && _); [|done].
  pose proof (ask_trigger_good vk (m_char m) s H) as Ha.
  destruct (ask_ctl _ s) as [r s1]. cbn [snd] in Ha. by destruct (r == NoMatch).
Qed.

Lemma test_end_keeps vk want : keeps good good (test_end m vk want).
Proof.
  intros s H. unfold test_end. destruct (_ && _).
  - by apply clear_context_good, commit_good.
  - destruct want; [done|by apply clear_context_good].
Qed.

Lemma test_want_keeps vk : keeps good good (test_want m vk).
Proof.
  intros s H. unfold test_want.
  pose proof (ask_ctl_good (WantKey m vk) s (fun n => WantKey_good m n vk) H) as Hw.
  destruct (ask_ctl (WantKey m vk) s) as [want s1]. cbn [snd] in Hw. revert s1 Hw.
  apply keeps_andthen with good; [apply test_english_keeps|]. intros s2 H2. cbv zeta.
  set (want' := want && _). clearbody want'. revert s2 H2.
  apply keeps_andthen with good; [apply test_undo_keeps|]. intros s3 H3.
  set (r := if negb want' && _ && _ then _ else _).
  assert (Hr : good r.2).
  { subst r. destruct (_ && _); [|done].
    exact (ask_ctl_good (PrepareBackspaceRevive m) s3 (PrepareBackspaceRevive_good m) H3). }
  destruct r as [want2 s4]. cbn [snd] in Hr. revert s4 Hr.
  apply keeps_andthen with good; [by apply keeps_always; intros|].
  apply keeps_andthen with good; [apply test_macro_keeps|apply test_end_keeps].
Qed.

Lemma OnNonRestoreKey_good n c : Good n c -> Good n (OnNonRestoreKey c).
Proof. intros. by apply ResetMacroUndo_good, ResetCommitUndo_good. Qed.

Lemma test_stages_keeps vk : keeps (well anything) (well anything) (test_stages m vk).
Proof.
  unfold test_stages. apply keeps_andthen with (well anything); [by apply check_context_keeps|].
  apply keeps_andthen with (well anything); [apply keeps_anything, test_suggestion_keeps|].
  apply keeps_andthen with (well anything).
  { apply keeps_always. intros s [H _]. apply well_anything. destruct (_ && _); [|done].
    by apply on_ctl_good; [apply OnNonRestoreKey_good|]. }
  apply keeps_andthen with (tidy anything); [by apply recover_keeps|].
  apply keeps_andthen with (tidy anything); [apply chord_keeps|].
  apply keeps_andthen with (well anything); [apply escape_keeps|].
  apply keeps_andthen with (well anything); apply keeps_anything;
    [apply test_punctuation_keeps|apply test_want_keeps].
Qed.

Lemma ClearInactive_good s : good s -> good (ClearInactiveKeyState s).
Proof. intros H. apply on_ctl_good, H. intros n c. apply ClearMacroTracking_good. Qed.
Lemma ResetMacroUndo_all s : good s -> good (on_ctl ResetMacroUndo s).
Proof. apply on_ctl_good. intros n c. apply ResetMacroUndo_good. Qed.

Lemma OnTestKeyDown_good vk s : good s -> good (OnTestKeyDown m vk s).2.
Proof.
  intros H. apply well_anything, enter_well in H; [|done]. unfold OnTestKeyDown.
  destruct (enter m s) as [route s1]. cbn [snd] in H. cbv zeta.
  apply (keeps_outcome (well anything) (well anything)); [by intros ? []| |].
  - apply keeps_andthen with (well anything); [apply stop_repeat_keeps|]. intros s2 H2.
    destruct route; [by apply test_stages_keeps|by apply ClearInactive_good, H2].
  - apply (drop_claim_well anything (fun _ _ _ _ _ => I)), well_anything.
    assert (H1 : good (if vk <>w VK_BACK then on_ctl ResetMacroUndo s1 else s1))
      by (destruct (_ <>w _); [apply ResetMacroUndo_all, H|apply H]). exact H1.
Qed.

(** ** The real phase *)

Section Down.
Variable vk : Z.

(** No expansion is armed; or the key is the backspace, and a word that it may reopen
    finds none young. *)
Definition fresh c : Prop :=
  calm c \/ vk = VK_BACK /\
    (pendingReviveRange_ c <> None -> forall n, later n -> ~ young n c).

Lemma fresh_mild c c' : mild c c' -> fresh c -> fresh c'.
Proof.
  intros [Ha Hp] [H|[Hb H]]; [left; by eapply arms_none_calm|]. right. split; [done|].
  intros Hr n Hn. eapply arms_none_young; [exact Ha|]. apply H; [|done].
  by destruct Hp as [Hp|Hp]; rewrite Hp in Hr.
Qed.
(** So it is unless the key is the one whose macro the test phase handled. *)
Definition due s : Prop := fresh (ctl s).
Definition due_or_handled s : Prop := lastMacroHandledVk_ s = vk \/ due s.
Lemma due_keeps s s' : lastMacroHandledVk_ s' = lastMacroHandledVk_ s ->
  mild (ctl s) (ctl s') \/ calm (ctl s') -> due s -> due s'.
Proof. intros _ [Hm|Hc] H; [by eapply fresh_mild|by left]. Qed.
Lemma due_or_handled_keeps s s' : lastMacroHandledVk_ s' = lastMacroHandledVk_ s ->
  mild (ctl s) (ctl s') \/ calm (ctl s') -> due_or_handled s -> due_or_handled s'.
Proof. intros E1 Hm [H|H]; [left; congruence|right; by eapply due_keeps]. Qed.

Lemma remember_good s : good s -> good (RememberClaimedSpaceKeyDown m vk s).
Proof. intros H. unfold RememberClaimedSpaceKeyDown. by destruct (_ && _). Qed.

Lemma down_handled_keeps : keeps (tidy due_or_handled) (tidy due) (down_handled m vk).
Proof.
  intros s [[H Hd] Ht]. unfold down_handled. destruct (Z.eqb_spec vk (lastMacroHandledVk_ s)) as [|Hv]; cbn [negb].
  - cbv zeta. destruct (lastMacroHandledEat_ s); [|exact H]. by apply remember_good.
  - split; [|done]. split; [done|]. by destruct Hd.
Qed.

Lemma expanded_good r s : good s -> good (outcome (expanded m vk r s)).2.
Proof. intros H. unfold expanded, returns. cbn. destruct (eats r); [by apply remember_good|done]. Qed.

Lemma down_macro_undo_keeps : keeps (tidy due) (tidy due) (down_macro_undo m vk).
Proof.
  intros s H. unfold down_macro_undo. destruct (_ && _); [|done].
  set (s1 := { forget_test s with lastEnglishMacroObservedVk_ := 0 }).
  assert (H1 : good s1) by apply H.
  assert (Hu : good (ask_ctl (UndoMacro m) s1).2).
  { intros n Hn. rewrite ask_ctl_ctl. apply UndoMacro_good; [done|apply good_now, H1|by apply H1]. }
  by destruct (ask_ctl _ s1) as [undone s2].
Qed.

Lemma down_english_keeps : keeps (tidy due) (tidy due) (down_english m vk).
Proof.
  intros s H. unfold down_english. destruct (negb _); [done|]. cbv zeta.
  set (s1 := { s with lastEnglishMacroObservedVk_ := 0 }).
  assert (H1 : good s1) by apply H.
  destruct (is_alpha vk).
  { destruct (_ =w _); [exact H1|].
    exact (on_ctl_good (TrackMacroCharacter (m_char m)) s1
             (fun n => TrackMacroCharacter_good n (m_char m)) H1). }
  destruct (vk =w VK_BACK).
  { destruct (_ =w _); [exact H1|].
    exact (on_ctl_good TrackMacroBackspace s1 TrackMacroBackspace_good H1). }
  destruct (IsCommitTrigger vk).
  2: { destruct H as [_ Ht]. split; [|exact Ht]. split; [|by left].
       exact (on_ctl_good ClearMacroTracking s1 ClearMacroTracking_good H1). }
  destruct (_ =w _); [exact H1|].
  pose proof (ask_trigger_good vk (trigger_char m vk s) (forget_test s1) H1) as Ha.
  destruct (ask_ctl _ _) as [r s2]. cbn [snd] in Ha.
  destruct (r == NoMatch); [exact Ha|exact (expanded_good r s2 Ha)].
Qed.

Lemma down_suggestion_keeps : keeps (tidy due) (tidy due) (down_suggestion m vk).
Proof.
  intros s H. unfold down_suggestion. destruct (_ && _); [|done].
  exact (commit_good s (proj1 (proj1 H))).
Qed.

(** A trigger is not the backspace, so no expansion was armed and, when nothing
    matches, none is. *)
Lemma down_macro_keeps : keeps (well due) (well due) (down_macro m vk).
Proof.
  intros s [H Hf]. unfold down_macro. cbv zeta. destruct (_ && _) eqn:Eb; [|done].
  assert (Hc : calm (ctl s)).
  { destruct Hf as [|[-> _]]; [done|]. rewrite !andb_true_iff in Eb. by destruct Eb as [[[_ Eb] _] _]. }
  pose proof (ask_trigger_good vk (trigger_char m vk s) s H) as Ha.
  pose proof (ask_ctl_ctl (HandleMacroTrigger m vk (trigger_char m vk s)) s) as Ec.
  pose proof (HandleMacroTrigger_arms m has_context vk (trigger_char m vk s) (ctl s)) as Har.
  unfold ask_ctl in *. destruct (HandleMacroTrigger _ _ _ _) as [r c2]. cbn [fst snd] in *.
  case_bool_decide as Er; [|exact (expanded_good r _ Ha)]. split; [done|]. left.
  by eapply arms_none_calm; [apply Har|].
Qed.

Lemma down_punctuation_keeps : keeps (well due) (well due) (down_punctuation m vk).
Proof.
  intros s [H Hf]. unfold down_punctuation. cbv zeta. destruct (_ && _); [|done].
  apply (ends_good (CommitWithChar m (trigger_char m vk s)) s); [|done].
  intros n c. by apply CommitWithChar_good.
Qed.

Lemma down_commit_keeps : keeps good good (down_commit m vk).
Proof.
  intros s H. unfold down_commit. destruct (_ && _); cbv zeta.
  - assert (Hc : good (clear_context_at_navigation vk (on_ctl (ControllerCommit m) s)))
      by by apply clear_context_good, commit_good.
    by destruct (_ && _).
  - by apply clear_context_good.
Qed.

Lemma want_now_well s : well due s -> well due (want_now m vk s).2.
Proof.
  intros H. unfold want_now. destruct (_ =w _); [done|].
  pose proof (ask_ctl_well due due_keeps (WantKey m vk) s (fun n => WantKey_good m n vk)
                (WantKey_mild m vk) H) as Hw.
  by destruct (ask_ctl (WantKey m vk) s).
Qed.

Lemma down_key_keeps : keeps (well due) good (down_key m vk).
Proof.
  intros s H. unfold down_key. apply want_now_well in H.
  destruct (want_now m vk s) as [want s1]. cbn [snd] in H. cbv zeta. destruct H as [H Hf].
  destruct (negb want); [exact (down_commit_keeps (forget_test s1) H)|].
  assert (Hk : good (ask_ctl (HandleKey m vk) (forget_test s1)).2).
  { intros n Hn. rewrite ask_ctl_ctl. change (ctl (forget_test s1)) with (ctl s1).
    apply HandleKey_good; [done|apply good_now, H|by apply H|..].
    - intros Hv. by destruct Hf as [|[? _]].
    - intros _ Hp. destruct Hf as [Hf|[_ Hf]]; [|by apply Hf].
      intros [Hy _]. unfold calm in Hf. by rewrite Hf in Hy. }
  destruct (ask_ctl _ _) as [handled s2]. cbn [snd] in Hk.
  destruct handled; [by apply remember_good|done].
Qed.

Lemma down_stages_keeps : keeps (well due_or_handled) good (down_stages m vk).
Proof.
  unfold down_stages.
  apply keeps_andthen with (well due_or_handled); [apply check_context_keeps, due_or_handled_keeps|].
  apply keeps_andthen with (tidy due_or_handled); [apply recover_keeps, due_or_handled_keeps|].
  apply keeps_andthen with (tidy due_or_handled); [apply chord_keeps|].
  apply keeps_andthen with (tidy due); [apply down_handled_keeps|].
  apply keeps_andthen with (tidy due); [apply down_macro_undo_keeps|].
  apply keeps_andthen with (tidy due); [apply down_english_keeps|].
  apply keeps_andthen with (tidy due); [apply down_suggestion_keeps|].
  apply keeps_andthen with (well due); [apply escape_keeps|].
  apply keeps_andthen with (well due); [apply down_macro_keeps|].
  apply keeps_andthen with (well due); [apply down_punctuation_keeps|apply down_key_keeps].
Qed.

Lemma CommitBeforeInactive_good s : good s -> good (CommitBeforeInactiveBypass m s).
Proof.
  intros H. unfold CommitBeforeInactiveBypass. cbv zeta. apply ClearInactive_good.
  destruct (_ || _); [by apply commit_good|done].
Qed.

(** What the key finds before its handlers. *)
Definition unless_reopening s : Prop :=
  vk = VK_BACK -> pendingReviveRange_ (ctl s) <> None -> forall n, later n -> ~ young n (ctl s).
Lemma unless_reopening_keeps s s' : lastMacroHandledVk_ s' = lastMacroHandledVk_ s ->
  mild (ctl s) (ctl s') \/ calm (ctl s') -> unless_reopening s -> unless_reopening s'.
Proof.
  intros _ [[Ha Hp]|Hc] H Hv Hr n Hn.
  - eapply arms_none_young; [exact Ha|]. apply H; [done| |done].
    by destruct Hp as [Hp|Hp]; rewrite Hp in Hr.
  - intros [Hy _]. unfold calm in Hc. by rewrite Hc in Hy.
Qed.

Lemma OnKeyDown_good s : good s -> unless_reopening s -> good (OnKeyDown m vk s).2.
Proof.
  intros H Hu. assert (Hw : well unless_reopening (enter m s).2)
    by (by apply enter_well; [apply unless_reopening_keeps|]).
  clear H Hu. unfold OnKeyDown. destruct (enter m s) as [route s1]. cbn [snd] in Hw. cbv zeta.
  destruct Hw as [H Hu].
  apply (keeps_outcome (well due_or_handled) good); [done| |].
  - apply keeps_andthen with (well due_or_handled); [apply stop_repeat_keeps|]. intros s2 H2.
    destruct route; [by apply down_stages_keeps|by apply CommitBeforeInactive_good, H2].
  - apply drop_claim_well; [apply due_or_handled_keeps|].
    destruct (Z.eqb_spec vk (lastMacroHandledVk_ s1)) as [Hv|Hv]; [|destruct (Z.eqb_spec vk VK_BACK) as [Hb|Hb]];
      rewrite ?andb_false_r; cbn [negb andb].
    + split; [done|by left].
    + split; [done|right; right; by split; [|apply Hu]].
    + split; [by apply ResetMacroUndo_all|by right; left].
Qed.

End Down.

(** ** Focus *)

Lemma set_flag_all f b s : good s -> good (on_ctl (set_flag f b) s).
Proof. apply on_ctl_good. intros n c. apply set_flag_good. Qed.
Lemma ResetCommitUndo_all s : good s -> good (on_ctl ResetCommitUndo s).
Proof. apply on_ctl_good. intros n c. apply ResetCommitUndo_good. Qed.
Lemma ClearMacroTracking_all s : good s -> good (on_ctl ClearMacroTracking s).
Proof. apply on_ctl_good. intros n c. apply ClearMacroTracking_good. Qed.

Lemma OnSetFocus_good b s : good s -> good (OnSetFocus m b s).
Proof.
  intros H. unfold OnSetFocus. cbv zeta.
  assert (H1 : good (on_ctl ClearContext { s with isForeground_ := b; pendingClaimedSpaceVk_ := 0;
                                                  claimedSpaceKeyUpVk_ := 0 }))
    by exact (ClearContext_all _ H).
  set (s1 := on_ctl ClearContext _) in *. destruct b.
  - pose proof (ask_ctl_good (CheckConfigEvent m true) s1 (fun n => CheckConfigEvent_good m n true) H1) as H2.
    assert (H3 : good (on_ctl (RefreshFlags m) (ask_ctl (CheckConfigEvent m true) s1).2)).
    { apply on_ctl_good, H2. intros n c. apply RefreshFlags_good. }
    apply well_anything, Refresh_well in H3 as [H3 _]; [|done]. intros n Hn.
    by apply ResetMacroUndo_good, ResetCommitUndo_good, ClearMacroTracking_good, set_flag_good, H3.
  - apply well_anything, (Publish_well anything) in H1 as [H1 _]; [|done]. intros n Hn.
    by apply ResetCommitUndo_good, ClearMacroTracking_good, set_flag_good, H1.
Qed.

End Callback.

(** ** The service as a state machine

    A callback at a time, and between two of them whatever the host and the rest of
    Windows do: the document changes but the composition stays on its text, the
    shared block changes, the host ends the composition.  The state carries the tick
    of the last callback; it does not go back, and does not wrap. *)

Implicit Types (s : KeySink E D R) (c : Controller E D R) (d : D) (t : Z).

Definition set_doc d c : Controller E D R := { c with doc_ := d }.
Definition set_block b c : Controller E D R := { c with block_ := b }.

(** The host edits around the composition. *)
Definition host_edit c d : Prop :=
  if IsComposing c
  then exists before after, Composed before (currentText_ (mgr_ c)) after (mgr_ c) d
  else v_composition (view d) = None.

Definition comes_after t (m : Moment) : Prop := t <= m_tick m < 2 ^ 32.

Inductive step : Z * KeySink E D R -> Z * KeySink E D R -> Prop :=
  | step_test m vk t s : m_context m <> None -> comes_after t m ->
      step (t, s) (m_tick m, (OnTestKeyDown m vk s).2)
  | step_down m vk t s : m_context m <> None -> comes_after t m -> unless_reopening m vk s ->
      step (t, s) (m_tick m, (OnKeyDown m vk s).2)
  | step_test_up vk t s : step (t, s) (t, (OnTestKeyUp vk s).2)
  | step_up vk t s : step (t, s) (t, (OnKeyUp vk s).2)
  | step_focus m b t s : comes_after t m -> step (t, s) (m_tick m, OnSetFocus m b s)
  | step_timer b t s : step (t, s) (t, (RepostEnterTimerProc b s).2)
  | step_terminated d t s : v_composition (view d) = None ->
      step (t, s) (t, on_ctl (fun c => OnCompositionTerminated (set_doc d c)) s)
  | step_document d t s : host_edit (ctl s) d -> step (t, s) (t, on_ctl (set_doc d) s)
  | step_block b t s : step (t, s) (t, on_ctl (set_block b) s).

(** In step, with no expansion over a word from [t] on. *)
Definition Safe t c : Prop := Inv c /\ forall n, comes_after t n -> settled n c.

Lemma Safe_good t m s : Safe t (ctl s) -> comes_after t m -> good m s.
Proof.
  intros [Hi Hs] [Ht _] n Hn. split; [done|]. apply Hs. destruct Hn. split; [lia|done].
Qed.
Lemma good_Safe m s : m_tick m < 2 ^ 32 -> good m s -> Safe (m_tick m) (ctl s).
Proof. intros Hm H. split; [by apply (good_Inv m)|]. intros n Hn. by apply H. Qed.

(** Some moment is late enough for any expansion. *)
Lemma settled_late c : exists m, settled m c.
Proof.
  set (late := mkMoment None false false false false false 0 0
    (mu_timestamp (macroUndoState_ (macros_ c)) + 4001) 0 0 false false [] false None 0 false false).
  exists late. intros _ [_ H]. unfold u32_sub in H. cbn in H.
  rewrite Z.add_simpl_l in H. unfold kMacroUndoTimeoutMs in H. cbv in H. by apply H.
Qed.

Lemma quiet_Safe (f : Controller E D R -> Controller E D R) t c :
  (forall m, Good m c -> Good m (f c)) -> Safe t c -> Safe t (f c).
Proof.
  intros Hf [Hi Hs]. split.
  - destruct (settled_late c) as [m Hm]. by apply (Hf m).
  - intros n Hn. apply (Hf n). split; [done|by apply Hs].
Qed.

Lemma terminated_Safe d t c :
  Safe t c -> v_composition (view d) = None -> Safe t (OnCompositionTerminated (set_doc d c)).
Proof.
  intros [H Hs] Hd. unfold OnCompositionTerminated. change (IsComposing (set_doc d c)) with (IsComposing c).
  destruct (IsComposing c) eqn:Ec.
  - set (c1 := { set_doc d c with mgr_ ::= TerminateComposition }).
    assert (Hg : forall n, Good n (ControllerReset c1)).
    { intros n. apply ControllerReset_good; [|done]. by destruct H as [[] _]. }
    split; [by destruct (settled_late c) as [m _]; apply (Hg m)|]. intros n _. apply (Hg n).
  - split; [|exact Hs]. destruct H as [Hb Hst]. split; [by destruct Hb|]. unfold in_step in *.
    change (IsComposing (set_doc d c)) with (IsComposing c). rewrite Ec in *. by destruct Hst.
Qed.

Lemma host_edit_Inv d c : Inv c -> host_edit c d -> Inv (set_doc d c).
Proof.
  intros [Hb Hs] Hd. split; [by destruct Hb|]. unfold in_step, host_edit in *.
  change (IsComposing (set_doc d c)) with (IsComposing c). destruct (IsComposing c).
  - destruct Hs as (b0 & a0 & Hs), Hd as (b & a & Hd). exists b, a.
    cbn. by rewrite (composed_current _ _ _ _ _ Hs) in Hd.
  - by destruct Hs.
Qed.

Lemma eats_key_up_Safe vk t s : Safe t (ctl s) -> Safe t (ctl (eats_key_up vk s).2).
Proof.
  intros H. unfold eats_key_up. pose proof (ask_ctl_ctl RefreshKeyRouting s) as E1.
  destruct (ask_ctl RefreshKeyRouting s) as [routed s1]. cbn [snd] in *. rewrite E1.
  apply (quiet_Safe (fun c => (RefreshKeyRouting c).2)); [|done]. intros m. apply RefreshKeyRouting_good.
Qed.

Lemma step_Safe t s t' s' : step (t, s) (t', s') -> Safe t (ctl s) -> Safe t' (ctl s').
Proof.
  intros Hst H.
  inversion Hst as [m vk ? ? Hm Hc|m vk ? ? Hm Hc Hr|vk ? ?|vk ? ?|m b ? ? Hc|b ? ?|d ? ? Hd|d ? ? Hd|b ? ?];
    simplify_eq.
  - pose proof (Safe_good t m s H Hc) as Hg.
    apply good_Safe; [apply Hc|]. by apply OnTestKeyDown_good; [|apply Hc|].
  - pose proof (Safe_good t m s H Hc) as Hg.
    apply good_Safe; [apply Hc|]. by apply OnKeyDown_good; [|apply Hc| |].
  - unfold OnTestKeyUp. destruct (_ =w _); [done|by apply eats_key_up_Safe].
  - unfold OnKeyUp. destruct (_ || _); [done|by apply eats_key_up_Safe].
  - pose proof (Safe_good t m s H Hc) as Hg. apply good_Safe; [by apply Hc|].
    by apply OnSetFocus_good.
  - done.
  - by apply terminated_Safe.
  - split; [by apply host_edit_Inv; [apply H|]|apply H].
  - apply (quiet_Safe (set_block b)); [|done]. intros m. apply block_good.
Qed.

Lemma steps_Safe a b : rtc step a b -> Safe a.1 (ctl a.2) -> Safe b.1 (ctl b.2).
Proof.
  induction 1 as [|[t1 s1] [t2 s2] b Hst _ IH]; [done|]. intros H. by apply IH, (step_Safe t1 s1).
Qed.

Lemma NewController_Safe m d block t :
  v_composition (view d) = None -> Safe t (NewController m d block : Controller E D R).
Proof.
  intros Hd. assert (Hg : forall n, Good n (NewController m d block : Controller E D R)).
  { intros n. set (c0 := initial_controller d block : Controller E D R).
    assert (Hg : Good n (reopen c0).2) by (apply reopen_good; split; [by apply initial_Inv|done]).
    assert (Hc : IsComposing (reopen c0).2 = false) by (unfold reopen; by destruct (OpenReadWrite _)).
    unfold NewController. fold c0. destruct (reopen _) as [opened c]. cbn [snd] in *.
    destruct (negb opened); [by apply with_fallback_good; [|apply routing_good]|].
    destruct (shared_abi c).
    - cbv zeta. destruct (IsValid _).
      + by apply settings_good, ApplySharedState_good, routing_good.
      + by apply with_fallback_good; [|apply routing_good].
    - apply with_fallback_good; [done|]. by apply set_flag_good, routing_good.
    - apply with_fallback_good; [done|]. by apply routing_good. }
  split; [apply (Hg m)|]. intros n _. apply Hg.
Qed.

(** C2. On a host that keeps plain text, whatever keys are typed and whatever happens
    between two callbacks - the document edited around the composition, the
    composition ended by the host, the focus moved, the shared block rewritten or
    taken away, the settings and the macros changed - while a word is composed the
    composition covers exactly the text of the engine, and while none is the engine
    is empty and the host has no composition.  That no expansion can still be taken
    back under a word is proved along the way: the key that starts a word has ended
    its undo.  The steps leave out one event, a backspace that reopens a word within
    four seconds of an expansion ([unless_reopening]): that backspace takes the
    expansion back instead, unless the undo was switched off in between.  A key event
    comes with its context, the tick count does not go back or wrap, and the preserved
    key of the native conversion is not a step here (NativeConvert.v). *)
Theorem word_stays_on_screen m0 d block t s :
  v_composition (view d) = None ->
  rtc step (m_tick m0, new_sink (NewController m0 d block : Controller E D R)) (t, s) ->
  in_step (ctl s).
Proof.
  intros Hd Hs. apply steps_Safe in Hs as [[_ Hs] _]; [done|]. by apply (NewController_Safe m0 d block).
Qed.

End Facts.
