(* ===== verification/ServiceTyping.v ===== *)
(** * Typing a word through the text service, settings and undo windows

    While the configuration, the routing and the context stay what they are, the
    two phases of each letter are the engine's key and the host's composition, and
    a space commits the word. *)

From S2P Require Import Prelude Tables Config Action MacroPrefix MacroReload Macro QuickConvert CommitState.
From S2P Require Import SharedState SharedStateManager SettingsSync InputEngine TextStore.
From S2P Require Import Composition Controller ControllerKeys KeySink.
From S2P Require Import ControllerFacts.
From coqutil Require Import Datatypes.RecordSettersUsingExistingGetters.

From S2P Require KeyDecisions.

Import KeyDecisions.DigitLed.
Open Scope Z_scope.

Section Typing.
Context {E D R : Type} {IE : InputEngine E} {IEL : InputEngineLaws E} {EF : EngineFactory E}.
Context {TC : TextContext D R} {PH : PlainHost D R}.
Context {CM : CaseMapper} {SP : CodeTable.SpacePlatform} {PP : PunctPlatform} {Lo : Locale}.
Implicit Types (s : KeySink E D R) (c : Controller E D R) (m : Moment) (vk : Z).

(** ** A callback that finds nothing new *)

(** The block is the one last read, and the context is the one before and takes
    text. *)
Record undisturbed m c : Prop := {
  same_recreate : engineNeedsRecreate_ (settings_ c) = false;
  same_connected : shared_connected c = true;
  same_epoch : from_block ReadEpoch 0 c = lastEpoch_ (settings_ c);
  same_abi : abiOk_ (routing_ c) = true;
  same_context : m_context m <> None /\ m_context m = lastContext_ (routing_ c);
  same_open : scopeBlocked_ (routing_ c) = false /\ contextBlocked_ (routing_ c) = false /\
    IsReadOnlyTsfDocument (m_dynamicFlags m) = false /\ m_keyboardDisabled m = false /\
    m_emptyContext m = false
}.

(** Besides, keys are this service's, there is no chord; macros and capitals are off. *)
Record steady m c : Prop := {
  steady_undisturbed : undisturbed m c;
  steady_enabled : has_flag (shared_flags c) ENGINE_ENABLED = true /\ engineEnabled_ (routing_ c) = true;
  steady_active : has_flag (shared_flags c) TSF_ACTIVE = true /\ tsfActive_ (routing_ c) = true;
  steady_viet : has_flag (shared_flags c) VIETNAMESE_MODE = true /\ vietnameseMode_ (routing_ c) = true;
  steady_keys : m_ctrl m = false /\ m_alt m = false /\ m_win m = false;
  steady_config : macroEnabled (config c) = false /\ autoCaps (config c) = false
}.

(** They depend on the settings, the routing and the block only. *)
Lemma undisturbed_same m c c' :
  settings_ c' = settings_ c -> routing_ c' = routing_ c -> block_ c' = block_ c ->
  undisturbed m c -> undisturbed m c'.
Proof.
  intros Hs Hr Hb [H1 H2 H3 H4 H5 H6].
  assert (Hf : forall A (f : Handle -> SharedState -> A) a, from_block f a c' = from_block f a c)
    by (intros; unfold from_block; by rewrite Hs, Hb).
  split; unfold shared_connected, shared_flags, config in *; by rewrite ?Hf, ?Hs, ?Hr.
Qed.
Lemma steady_same m c c' :
  settings_ c' = settings_ c -> routing_ c' = routing_ c -> block_ c' = block_ c ->
  steady m c -> steady m c'.
Proof.
  intros Hs Hr Hb [H1 H2 H3 H4 H5 H6].
  assert (Hf : forall A (f : Handle -> SharedState -> A) a, from_block f a c' = from_block f a c)
    by (intros; unfold from_block; by rewrite Hs, Hb).
  split; [by eapply undisturbed_same|..]; unfold shared_connected, shared_flags, config in *;
    by rewrite ?Hf, ?Hs, ?Hr.
Qed.

Lemma undisturbed_config_event m c : undisturbed m c -> CheckConfigEvent m false c = (false, c).
Proof.
  intros [H1 H2 H3 H4 _ _]. unfold CheckConfigEvent, try_promote, TryPromotePendingConfig.
  rewrite H1. cbn [negb snd]. cbv zeta. rewrite H2. cbn [negb]. rewrite H4.
  unfold take_block. rewrite H3. cbv zeta. rewrite Z.eqb_refl. cbn [negb andb].
  unfold TryPromotePendingConfig. by rewrite H1.
Qed.

Lemma steady_routing m c : steady m c -> RefreshKeyRouting c = (true, c).
Proof.
  intros [[_ H2 _ H4 _ _] [H5 H5'] [H6 H6'] [H7 H7'] _ _]. unfold RefreshKeyRouting.
  rewrite H2, H4. cbn [negb orb]. cbv zeta. rewrite H5, H5'. cbn [Bool.eqb negb]. rewrite H6, H6'.
  cbn [Bool.eqb negb]. by rewrite H7, H7'.
Qed.

Lemma undisturbed_check_context m c : undisturbed m c -> CheckContextBlocked m c = c.
Proof.
  intros [_ _ _ _ [H8 H8'] (H9 & H10 & H11 & H12 & H13)]. unfold CheckContextBlocked.
  rewrite (bool_decide_eq_true_2 (m_context m = _)), (bool_decide_eq_true_2 (m_context m <> None))
    by done. cbv zeta. cbv iota.
  unfold ShouldBlockTsfContext. cbn [hasContext dynamicStatusFlags keyboardDisabled emptyContext in_scopeBlocked].
  rewrite H9, H11, H12, H13. cbn [negb orb].
  destruct c as [? ? ? [] ? ? ? ? ? ? ? ?]. cbn in *. by subst.
Qed.

Lemma steady_tracking m c : steady m c -> tracking_allowed c = false.
Proof. intros [_ _ _ _ _ [H _]]. unfold tracking_allowed. rewrite H. by rewrite andb_false_r. Qed.
Lemma steady_no_macros m c : steady m c ->
  IsMacroTrackingEnabled c = false /\ IsEnglishMacroTrackingActive c = false /\
  HasMacroUndo m c = false /\ HasMacroCandidate c = false.
Proof.
  intros H. pose proof (steady_tracking m c H) as Ht.
  assert (He : IsMacroTrackingEnabled c = false) by (unfold IsMacroTrackingEnabled; by rewrite Ht).
  unfold IsEnglishMacroTrackingActive, HasMacroUndo, HasMacroCandidate. rewrite Ht, He.
  split_and!; try done. cbv zeta. by rewrite andb_false_r.
Qed.

Lemma steady_chord m c : steady m c -> m_ctrl m || m_alt m || m_win m = false.
Proof. intros [_ _ _ _ (-> & -> & ->) _]. done. Qed.

Lemma set_ctl_same s : { s with ctl := ctl s } = s.
Proof. by destruct s. Qed.

Lemma steady_enter m s : steady m (ctl s) -> enter m s = (true, s).
Proof.
  intros H. unfold enter, ask_ctl. rewrite (undisturbed_config_event m) by apply H. rewrite set_ctl_same.
  rewrite (steady_routing m) by done. by rewrite set_ctl_same.
Qed.

(** ** The two phases of a key the controller wants *)

(** The same word in the same circumstances. *)
Record same_word c c' : Prop := {
  same_engine : engine_ c' = engine_ c;
  same_mgr : mgr_ c' = mgr_ c;
  same_doc : doc_ c' = doc_ c;
  same_settings : settings_ c' = settings_ c;
  same_routing : routing_ c' = routing_ c;
  same_block : block_ c' = block_ c;
  same_digit : digitLedWord_ c' = digitLedWord_ c
}.
Lemma same_word_refl c : same_word c c.
Proof. by split. Qed.
Lemma same_word_trans c1 c2 c3 : same_word c1 c2 -> same_word c2 c3 -> same_word c1 c3.
Proof. intros [] []. split; congruence. Qed.
Lemma steady_word m c c' : same_word c c' -> steady m c -> steady m c'.
Proof. intros []. by apply steady_same. Qed.
Lemma OnNonRestoreKey_same c : same_word c (OnNonRestoreKey c).
Proof. unfold OnNonRestoreKey, ResetCommitUndo. by destruct (_ == _). Qed.

(** A key of a word or the space after one: no key of navigation, no punctuation. *)
Definition word_key vk : bool :=
  (vk <>w 0) && (vk <>w VK_BACK) && (vk <>w VK_ESCAPE) && negb (IsPunctuationKey vk).

(** The composition and the engine go together. *)
Definition paired c : Prop := IsComposing c = HasEngineBuffer c.
Lemma paired_same c c' : same_word c c' -> paired c -> paired c'.
Proof. intros [H1 H2 _ _ _ _ _] H. unfold paired, IsComposing, HasEngineBuffer in *. by rewrite H1, H2. Qed.

Definition wanted m vk c : Prop := forall c', same_word c c' -> WantKey m vk c' = (true, c').

Lemma ask_ctl_same {A} (f : Controller E D R -> A * Controller E D R) (x : A) s :
  f (ctl s) = (x, ctl s) -> ask_ctl f s = (x, s).
Proof. intros H. unfold ask_ctl. by rewrite H, set_ctl_same. Qed.

Lemma check_context_steady m s : steady m (ctl s) -> check_context m s = inr s.
Proof.
  intros H. unfold check_context. cbv zeta.
  assert (Es : on_ctl (CheckContextBlocked m) s = s).
  { change (on_ctl (CheckContextBlocked m) s) with { s with ctl := CheckContextBlocked m (ctl s) }.
    rewrite undisturbed_check_context by apply H. apply set_ctl_same. }
  rewrite Es. by destruct (same_open _ _ (steady_undisturbed _ _ H)) as (_ & -> & _).
Qed.
Lemma recover_paired m s : paired (ctl s) -> recover m s = inr s.
Proof.
  intros H. unfold recover, always. cbv zeta. unfold paired in H. rewrite H.
  by destruct (HasEngineBuffer (ctl s)).
Qed.
Lemma chord_steady m s : steady m (ctl s) -> chord m s = inr s.
Proof. intros H. unfold chord. by rewrite (steady_chord _ _ H). Qed.
Lemma stop_repeat_none m vk s : pendingClaimedSpaceVk_ s = 0 -> stop_repeat m vk s = inr s.
Proof. intros H. unfold stop_repeat, ShouldSuppressClaimedKeyDown. by rewrite H. Qed.

Lemma word_key_spec vk : word_key vk = true ->
  (vk =w 0) = false /\ (vk =w VK_BACK) = false /\ (vk =w VK_ESCAPE) = false /\ IsPunctuationKey vk = false.
Proof. unfold word_key. rewrite !andb_true_iff, !negb_true_iff. tauto. Qed.

Lemma drop_claim_none vk s :
  pendingClaimedSpaceVk_ s = 0 ->
  ctl (drop_claim vk s) = ctl s /\ pendingClaimedSpaceVk_ (drop_claim vk s) = 0 /\
  lastTestedVk_ (drop_claim vk s) = lastTestedVk_ s /\
  lastWantKeyResult_ (drop_claim vk s) = lastWantKeyResult_ s /\
  lastMacroHandledVk_ (drop_claim vk s) = lastMacroHandledVk_ s.
Proof. intros H. unfold drop_claim. by destruct (_ <>w _). Qed.

Lemma test_want_wanted m vk s :
  word_key vk = true -> steady m (ctl s) -> wanted m vk (ctl s) ->
  test_want m vk s = inl (true, remember_test vk true s).
Proof.
  intros Hk Hs Hw. apply word_key_spec in Hk as (_ & Hb & _ & _).
  destruct (steady_no_macros m _ Hs) as (_ & He & _ & _).
  unfold test_want. rewrite (ask_ctl_same _ true) by apply (Hw _ (same_word_refl _)).
  unfold andthen, test_english. rewrite He. cbn [negb]. rewrite Hb. cbn [andb negb].
  unfold test_undo. rewrite Hb. cbn [negb orb]. unfold always, test_macro. by cbn.
Qed.

Lemma OnTestKeyDown_wanted m vk s :
  word_key vk = true -> steady m (ctl s) -> paired (ctl s) -> wanted m vk (ctl s) ->
  pendingClaimedSpaceVk_ s = 0 ->
  exists s', OnTestKeyDown m vk s = (true, s') /\ same_word (ctl s) (ctl s') /\
    lastTestedVk_ s' = vk /\ lastWantKeyResult_ s' = true /\ lastMacroHandledVk_ s' = 0 /\
    pendingClaimedSpaceVk_ s' = 0.
Proof.
  intros Hk Hs Hp Hw Hc. pose proof (word_key_spec vk Hk) as (_ & Hb & He & Hpu).
  unfold OnTestKeyDown. rewrite (steady_enter m s Hs), Hb. cbn [negb]. cbv zeta.
  set (s1 := { on_ctl ResetMacroUndo s with lastTranslatedChar_ := 0;
                 lastEnglishMacroObservedVk_ := 0; lastMacroHandledVk_ := 0 }).
  destruct (drop_claim_none vk s1 Hc) as (Ed & Hc2 & _ & _ & Hm2). set (s2 := drop_claim vk s1) in *.
  assert (S2 : same_word (ctl s) (ctl s2)) by (rewrite Ed; by split).
  unfold andthen at 1. rewrite stop_repeat_none by done. unfold test_stages. unfold andthen at 1.
  rewrite check_context_steady by (by eapply steady_word).
  unfold andthen at 1, test_suggestion. rewrite Hb. cbn [andb].
  unfold andthen at 1, always. rewrite ?He, ?Hb. cbn [negb andb].
  set (s3 := on_ctl OnNonRestoreKey s2).
  assert (S3 : same_word (ctl s) (ctl s3)).
  { eapply same_word_trans; [exact S2|apply OnNonRestoreKey_same]. }
  unfold andthen at 1. rewrite recover_paired by (by eapply paired_same).
  unfold andthen at 1. rewrite chord_steady by (by eapply steady_word).
  unfold andthen at 1, escape. rewrite He. cbn [negb].
  unfold andthen at 1, test_punctuation. cbv zeta. rewrite Hpu. cbn [andb].
  rewrite test_want_wanted; [|done|by eapply steady_word|].
  2: { intros c' Hc'. apply Hw. by eapply same_word_trans. }
  eexists. split; [reflexivity|]. by split_and!.
Qed.

Lemma OnKeyDown_wanted m vk s :
  word_key vk = true -> steady m (ctl s) -> paired (ctl s) ->
  lastTestedVk_ s = vk -> lastWantKeyResult_ s = true -> lastMacroHandledVk_ s = 0 ->
  pendingClaimedSpaceVk_ s = 0 ->
  exists s', same_word (ctl s) (ctl s') /\ pendingClaimedSpaceVk_ s' = 0 /\
    OnKeyDown m vk s =
      let '(handled, s'') := ask_ctl (HandleKey m vk) s' in
      (handled, if handled then RememberClaimedSpaceKeyDown m vk s'' else s'').
Proof.
  intros Hk Hs Hp Ht Hw Hm Hc. pose proof (word_key_spec vk Hk) as (H0 & Hb & He & Hpu).
  unfold OnKeyDown. rewrite (steady_enter m s Hs), Hb, Hm, H0. cbn [negb andb]. cbv zeta.
  set (s1 := on_ctl ResetMacroUndo s).
  destruct (drop_claim_none vk s1 Hc) as (Ed & Hc2 & Ht2 & Hw2 & Hm2). set (s2 := drop_claim vk s1) in *.
  assert (S2 : same_word (ctl s) (ctl s2)) by (rewrite Ed; by split).
  assert (Hs2 : steady m (ctl s2)) by by eapply steady_word.
  destruct (steady_no_macros m _ Hs2) as (_ & Hne & Hnu & Hnc).
  unfold andthen at 1. rewrite stop_repeat_none by done. unfold down_stages. unfold andthen at 1.
  rewrite check_context_steady by done.
  unfold andthen at 1. rewrite recover_paired by (by eapply paired_same).
  unfold andthen at 1. rewrite chord_steady by done.
  unfold andthen at 1, down_handled. rewrite Hm2. change (lastMacroHandledVk_ s1) with (lastMacroHandledVk_ s).
  rewrite Hm, H0. cbn [negb].
  unfold andthen at 1, down_macro_undo. rewrite Hb. cbn [andb].
  unfold andthen at 1, down_english. rewrite Hne. cbn [negb].
  unfold andthen at 1, down_suggestion. rewrite Hb. cbn [andb].
  unfold andthen at 1, escape. rewrite He. cbn [negb].
  unfold andthen at 1, down_macro. cbv zeta. rewrite Hnc. cbn [andb].
  unfold andthen at 1, down_punctuation. cbv zeta. rewrite Hpu. cbn [andb].
  unfold down_key, want_now. rewrite Ht2. change (lastTestedVk_ s1) with (lastTestedVk_ s).
  rewrite Ht, Z.eqb_refl, Hw2. change (lastWantKeyResult_ s1) with (lastWantKeyResult_ s). rewrite Hw.
  cbv zeta. cbn [negb]. exists (forget_test s2). split; [exact S2|]. split; [exact Hc2|].
  destruct (ask_ctl (HandleKey m vk) (forget_test s2)) as [[] s3]; done.
Qed.

(** ** Letters *)

(** The host offers the key, and gives it when it was claimed. *)
Definition press m vk s : bool * KeySink E D R :=
  let '(claimed, s) := OnTestKeyDown m vk s in
  if claimed then OnKeyDown m vk s else (false, s).

Lemma is_alpha_range vk : is_alpha vk = true -> 65 <= vk <= 90.
Proof. unfold is_alpha, in_range. rewrite andb_true_iff, !Z.leb_le. lia. Qed.

Lemma word_key_alpha vk : is_alpha vk = true -> word_key vk = true.
Proof.
  intros H%is_alpha_range. unfold word_key, IsPunctuationKey, in_range, VK_BACK, VK_ESCAPE.
  lia.
Qed.

Lemma no_bracket m vk c : is_alpha vk = true \/ vk = VK_SPACE -> IsEngineBracketKey m vk c = false.
Proof.
  intros H. unfold IsEngineBracketKey.
  assert (E1 : (vk <>w VK_OEM_4) && (vk <>w VK_OEM_6) = true).
  { destruct H as [H%is_alpha_range| ->]; unfold VK_OEM_4, VK_OEM_6, VK_SPACE; lia. }
  by rewrite E1.
Qed.

Lemma no_digit_armed m vk c :
  is_alpha vk = true \/ vk = VK_SPACE -> digitLedWord_ c = false ->
  let input := mkDigit vk (m_shift m) (negb (HasEngineBuffer c)) (inputMethod (config c)) (digitLedWord_ c) in
  DecideDigitLed input = Continue /\ armed_after input = false.
Proof.
  intros H Hd. cbv zeta. unfold armed_after.
  assert (E1 : DecideDigitLed (mkDigit vk (m_shift m) (negb (HasEngineBuffer c)) (inputMethod (config c))
                 (digitLedWord_ c)) = Continue).
  { unfold DecideDigitLed. cbn [currentlyArmed shift engineEmpty vkCode method]. rewrite Hd.
    destruct (m_shift m); [done|]. destruct (negb (negb _)); [done|].
    assert (Er : (vk <? 48) || (57 <? vk) = true).
    { destruct H as [H%is_alpha_range| ->]; unfold VK_SPACE; lia. }
    by rewrite Er. }
  rewrite E1. by rewrite Hd.
Qed.

Lemma WantKey_continue m vk c :
  steady m c -> is_alpha vk = true \/ vk = VK_SPACE -> digitLedWord_ c = false ->
  WantKey m vk c = (if is_alpha vk then true
                    else negb (isScintillaApp_ (routing_ c)) && HasEngineBuffer c, c).
Proof.
  intros Hs Hvk Hd. unfold WantKey. rewrite (steady_routing m c Hs).
  destruct (steady_viet _ _ Hs) as [_ ->]. pose proof (steady_chord _ _ Hs) as Hch.
  cbn [negb orb]. rewrite Hch. cbv zeta.
  destruct (no_digit_armed m vk c Hvk Hd) as [-> ->].
  assert (Ec : { c with digitLedWord_ := false } = c) by (destruct c; cbn in *; by subst).
  rewrite Ec. rewrite no_bracket by done. destruct (is_alpha vk) eqn:Ea; [done|].
  destruct Hvk as [| ->]; [congruence|]. f_equal. unfold IsEngineDigitKey, in_range, VK_SPACE.
  by rewrite andb_false_r.
Qed.

(** No word right before the caret for the key to reopen. *)
Definition starts_word c : Prop :=
  isScintillaApp_ (routing_ c) = true \/ in_word (InspectPrecedingTextEditSession (doc_ c)) = [].

Lemma HandleKey_letter m vk c :
  steady m c -> is_alpha vk = true -> IsComposing c = true \/ starts_word c ->
  HandleKey m vk c =
  PushEngineKey m (typed_key m vk false).1 (typed_key m vk false).2 c.
Proof.
  intros Hs Ha Hw. pose proof (is_alpha_range vk Ha) as Hr. unfold HandleKey.
  destruct (Z.eqb_spec vk VK_BACK) as [->|_]; [done|].
  destruct (Z.eqb_spec vk VK_SPACE) as [->|_]; [done|]. cbv zeta.
  rewrite no_bracket, Ha by auto. cbn [orb]. unfold HandleTextKey.
  destruct (typed_key m vk false) as [ch u]. cbn [fst snd].
  assert (Et : TrackMacroCharacter ch c = c).
  { unfold TrackMacroCharacter. by destruct (steady_no_macros m c Hs) as (-> & _). }
  destruct (_ && _) eqn:Eb; [|by rewrite Et]. cbv zeta. rewrite !andb_true_iff, !negb_true_iff in Eb.
  destruct Eb as [[_ Ec] Esc]. destruct Hw as [Hw|[Hw|Hw]]; [congruence..|].
  set (insp := ReadSession m _ _ c).
  assert (Ei : in_word insp = []).
  { subst insp. unfold ReadSession. destruct (m_context m); [|done]. by destruct (GrantsSync _ _). }
  rewrite Ei. unfold try_revive. rewrite bool_decide_eq_true_2 by done. cbn [orb].
  destruct (steady_config _ _ Hs) as [_ Ea]. unfold auto_cap.
  destruct (in_wordRange insp); rewrite Ea; cbn [andb]; by rewrite Et.
Qed.

(** The state of a word: not begun, or shown by the composition. *)
Inductive writing (before after : wstring) c : Prop :=
  | not_begun sel : Count (engine_ c) = 0%nat -> starts_word c ->
      Resting (mgr_ c) (doc_ c) -> v_text (view (doc_ c)) = before ++ sel ++ after ->
      v_selection (view (doc_ c)) = (length before, length sel) -> writing before after c
  | begun : Count (engine_ c) <> 0%nat -> Composed before (Peek (engine_ c)) after (mgr_ c) (doc_ c) ->
      caret_at (length before + length (Peek (engine_ c))) (doc_ c) -> writing before after c.

Lemma writing_paired before after c : writing before after c -> paired c.
Proof.
  intros [sel Hn _ [Hm _] _ _|Hn [_ _ Hm _] _]; unfold paired, HasEngineBuffer, IsComposing;
    rewrite Hm; [by rewrite Hn|]. symmetry. apply Nat.ltb_lt. lia.
Qed.
Lemma writing_same before after c c' : same_word c c' -> writing before after c -> writing before after c'.
Proof.
  intros [H1 H2 H3 _ H5 _ _] [sel|]; [eapply (not_begun _ _ _ sel)|eapply begun];
    unfold starts_word in *; by rewrite ?H1, ?H2, ?H3, ?H5.
Qed.

(** What a word begins with and keeps, but for the engine and the document. *)
Record underway (s0 s : KeySink E D R) : Prop := {
  underway_settings : settings_ (ctl s) = settings_ (ctl s0);
  underway_routing : routing_ (ctl s) = routing_ (ctl s0);
  underway_block : block_ (ctl s) = block_ (ctl s0);
  underway_digit : digitLedWord_ (ctl s) = false;
  underway_claim : pendingClaimedSpaceVk_ s = 0
}.
Lemma underway_steady m s0 s : underway s0 s -> steady m (ctl s0) -> steady m (ctl s).
Proof. intros []. by apply steady_same. Qed.

(** The key of the engine for a letter. *)
Definition letter_key m vk (e : E) : E := PushKey (typed_key m vk false).1 (typed_key m vk false).2 e.

Lemma PushEngineKey_writes before after m ch u c :
  writing before after c -> engine_ok (PushKey ch u (engine_ c)) ->
  Count (PushKey ch u (engine_ c)) <> 0%nat -> m_context m <> None ->
  exists g d, PushEngineKey m ch u c = (true, with_word c (PushKey ch u (engine_ c)) g d) /\
    Composed before (Peek (PushKey ch u (engine_ c))) after g d /\
    caret_at (length before + length (Peek (PushKey ch u (engine_ c)))) d.
Proof.
  intros Hw He Hn Hm. set (e' := PushKey ch u (engine_ c)) in *.
  assert (Hp : Peek e' <> []) by (intros Hp; by apply shows_counts in Hp).
  unfold PushEngineKey. cbv zeta. change (on_engine (PushKey ch u) c) with { c with engine_ := e' }.
  rewrite show_eq by done.
  assert (Hs : exists g d,
    (if IsComposing c then UpdateCompositionEditSession (Peek e') (mgr_ c) (doc_ c)
     else StartCompositionEditSession (Peek e') (mgr_ c) (doc_ c)) = (true, g, d) /\
    Composed before (Peek e') after g d /\ caret_at (length before + length (Peek e')) d).
  { unfold IsComposing. destruct Hw as [sel _ _ Hr Ht Hsel|_ HC _].
    - rewrite (resting_mgr _ _ Hr). by eapply StartComposition_spec.
    - rewrite (composed_mgr _ _ _ _ _ HC). by eapply Update_composed. }
  destruct Hs as (g & d & -> & HC & Hc). exists g, d. split; [|done].
  change (IsComposing (with_word c e' g d)) with (pComposition_ g).
  by rewrite (composed_mgr _ _ _ _ _ HC), andb_false_r.
Qed.

Lemma press_letter before after m vk s0 s :
  underway s0 s -> steady m (ctl s0) -> is_alpha vk = true -> writing before after (ctl s) ->
  engine_ok (engine_ (ctl s)) -> Count (letter_key m vk (engine_ (ctl s))) <> 0%nat ->
  exists s', press m vk s = (true, s') /\ underway s0 s' /\ writing before after (ctl s') /\
    engine_ (ctl s') = letter_key m vk (engine_ (ctl s)).
Proof.
  intros Hu Hs0 Ha Hw He Hn. pose proof (underway_steady m _ _ Hu Hs0) as Hs.
  pose proof (word_key_alpha vk Ha) as Hk. pose proof (writing_paired _ _ _ Hw) as Hp.
  assert (Hwant : wanted m vk (ctl s)).
  { intros c' Hc. rewrite WantKey_continue, Ha; [done|by eapply steady_word|by left|].
    rewrite (same_digit _ _ Hc). apply Hu. }
  destruct (OnTestKeyDown_wanted m vk s Hk Hs Hp Hwant (underway_claim _ _ Hu))
    as (s1 & E1 & S1 & Ht & Hr & Hh & Hc1).
  assert (Hs1 : steady m (ctl s1)) by by eapply steady_word.
  destruct (OnKeyDown_wanted m vk s1 Hk Hs1 (paired_same _ _ S1 Hp) Ht Hr Hh Hc1) as (s2 & S2 & Hc2 & E2).
  assert (S : same_word (ctl s) (ctl s2)) by by eapply same_word_trans.
  unfold press. rewrite E1, E2. clear E1 E2.
  assert (Hs2 : steady m (ctl s2)) by by eapply steady_word.
  pose proof (writing_same _ _ _ _ S Hw) as Hw2. unfold ask_ctl.
  assert (Hb : IsComposing (ctl s2) = true \/ starts_word (ctl s2)).
  { destruct Hw2 as [? _ ? _ _ _|_ HC _]; [by right|left; apply HC]. }
  rewrite (HandleKey_letter m vk (ctl s2) Hs2 Ha Hb).
  rewrite <- (same_engine _ _ S) in He, Hn.
  assert (Hch : (typed_key m vk false).1 <> 0) by by apply typed_key_nonzero.
  destruct (PushEngineKey_writes before after m _ (typed_key m vk false).2 (ctl s2) Hw2
              (PushKey_ok _ _ _ Hch He) Hn (proj1 (same_context _ _ (steady_undisturbed _ _ Hs2)))) as (g & d & -> & HC & Hca).
  eexists. split; [reflexivity|]. unfold RememberClaimedSpaceKeyDown.
  assert (Esp : (vk =w VK_SPACE) = false) by (apply is_alpha_range in Ha; unfold VK_SPACE; lia).
  rewrite Esp. cbn [andb]. destruct Hu as [U1 U2 U3 U4 U5], S as [T1 T2 T3 T4 T5 T6 T7].
  split; [split; cbn; congruence|]. split; [by apply begun|]. unfold letter_key. by rewrite <- T1.
Qed.

(** ** Words *)

Fixpoint press_all (ks : list (Moment * Z)) s : bool * KeySink E D R :=
  match ks with
  | [] => (true, s)
  | (m, vk) :: ks =>
      let '(eaten, s) := press m vk s in
      let '(all_eaten, s) := press_all ks s in (eaten && all_eaten, s)
  end.
(** The engine on its own. *)
Fixpoint letters (ks : list (Moment * Z)) (e : E) : E :=
  match ks with [] => e | (m, vk) :: ks => letters ks (letter_key m vk e) end.
Fixpoint never_empty (ks : list (Moment * Z)) (e : E) : bool :=
  match ks with
  | [] => true
  | (m, vk) :: ks => let e := letter_key m vk e in (0 <? Count e)%nat && never_empty ks e
  end.

Lemma press_all_letters before after s0 ks s :
  underway s0 s -> Forall (fun k => steady k.1 (ctl s0) /\ is_alpha k.2 = true) ks ->
  writing before after (ctl s) -> engine_ok (engine_ (ctl s)) ->
  never_empty ks (engine_ (ctl s)) = true ->
  exists s', press_all ks s = (true, s') /\ underway s0 s' /\ writing before after (ctl s') /\
    engine_ (ctl s') = letters ks (engine_ (ctl s)) /\ engine_ok (engine_ (ctl s')).
Proof.
  revert s. induction ks as [|[m vk] ks IH]; intros s Hu Hks Hw He Hn; [by exists s|].
  apply Forall_cons_1 in Hks as [[Hs Ha] Hks]. cbn [fst snd] in *.
  cbn [never_empty] in Hn. apply andb_true_iff in Hn as [Hn%Nat.ltb_lt Hne].
  destruct (press_letter before after m vk s0 s) as (s1 & E1 & U1 & W1 & En1); try done; [lia|].
  assert (He1 : engine_ok (engine_ (ctl s1))).
  { rewrite En1. apply PushKey_ok; [|done]. by apply typed_key_nonzero. }
  destruct (IH s1) as (s2 & E2 & U2 & W2 & En2 & He2); try done; [by rewrite En1|].
  exists s2. cbn [press_all letters]. rewrite E1, E2. split_and!; try done. by rewrite En2, En1.
Qed.

(** What a space leaves of the word. *)
Definition spaced (e : E) : wstring :=
  (if LastCommitWasCorrected (Commit e).2 && IsVerbatimCommitTrigger (L " ")
   then Peek e else (Commit e).1) ++ [L " "].

Lemma try_promote_none c : engineNeedsRecreate_ (settings_ c) = false -> try_promote c = c.
Proof. intros H. unfold try_promote, TryPromotePendingConfig. by rewrite H. Qed.

Lemma CommitWithChar_space before after m c :
  steady m c -> writing before after c -> Count (engine_ c) <> 0%nat ->
  let c' := CommitWithChar m (L " ") c in
  Count (engine_ c') = 0%nat /\ Resting (mgr_ c') (doc_ c') /\
  v_text (view (doc_ c')) = before ++ spaced (engine_ c) ++ after /\
  caret_at (length before + length (spaced (engine_ c))) (doc_ c').
Proof.
  intros Hs Hw Hn. cbv zeta. destruct Hw as [sel Hz _ _ _ _|_ HC Hca]; [done|].
  unfold CommitWithChar. rewrite take_commit_eq. cbv zeta.
  set (c1 := { c with engine_ := (Commit (engine_ c)).2 }).
  change (LastCommitWasCorrected (engine_ c1)) with (LastCommitWasCorrected (Commit (engine_ c)).2).
  assert (Et : (if (L " ") <>w 0 then
            (if LastCommitWasCorrected (Commit (engine_ c)).2 && IsVerbatimCommitTrigger (L " ")
             then if IsVerbatimCommitTrigger (L " ") then Peek (engine_ c) else []
             else (Commit (engine_ c)).1) ++ [L " "]
          else if LastCommitWasCorrected (Commit (engine_ c)).2 && IsVerbatimCommitTrigger (L " ")
             then if IsVerbatimCommitTrigger (L " ") then Peek (engine_ c) else []
             else (Commit (engine_ c)).1) = spaced (engine_ c)).
  { unfold spaced. cbn. by destruct (LastCommitWasCorrected _). }
  rewrite Et. unfold commit_session. rewrite RequestEditSession_granted by apply Hs.
  destruct (Commit_composed (spaced (engine_ c)) before _ after (mgr_ c) (doc_ c) HC)
    as (g & d & Ec & Hr & Ht & Hc).
  change (mgr_ c1) with (mgr_ c). change (doc_ c1) with (doc_ c). rewrite Ec.
  set (c2 := clear_digit_led _). rewrite try_promote_none.
  2: { unfold RecordCommitSnapshot, ClearMacroTrackingAfterCommit.
       destruct (_ || _), (macroCrossCommit_ _); apply (same_recreate _ _ (steady_undisturbed _ _ Hs)). }
  unfold RecordCommitSnapshot, ClearMacroTrackingAfterCommit.
  destruct (_ || _), (macroCrossCommit_ _); (split_and!; [apply Reset_Count|done|done|by apply Hc]).
Qed.

Lemma never_empty_count ks e :
  ks <> [] -> never_empty ks e = true -> Count (letters ks e) <> 0%nat.
Proof.
  revert e. induction ks as [|[m vk] ks IH]; intros e Hks Hn; [done|].
  cbn [never_empty letters] in *. apply andb_true_iff in Hn as [Hn%Nat.ltb_lt Hne].
  destruct ks as [|k ks]; [cbn; lia|by apply IH].
Qed.

(** The space after the word. *)
Lemma press_space before after m s0 s :
  underway s0 s -> steady m (ctl s0) -> isScintillaApp_ (routing_ (ctl s0)) = false ->
  writing before after (ctl s) -> Count (engine_ (ctl s)) <> 0%nat ->
  exists s', press m VK_SPACE s = (true, s') /\ Count (engine_ (ctl s')) = 0%nat /\
    Resting (mgr_ (ctl s')) (doc_ (ctl s')) /\
    v_text (view (doc_ (ctl s'))) = before ++ spaced (engine_ (ctl s)) ++ after /\
    caret_at (length before + length (spaced (engine_ (ctl s)))) (doc_ (ctl s')).
Proof.
  intros U Hs0 Hsc W Hn. pose proof (underway_steady m _ _ U Hs0) as Hs.
  assert (Hbuf : HasEngineBuffer (ctl s) = true) by (unfold HasEngineBuffer; apply Nat.ltb_lt; lia).
  assert (Hwant : wanted m VK_SPACE (ctl s)).
  { intros c' Sc. rewrite WantKey_continue; [|by eapply steady_word|by right|].
    - cbn [is_alpha]. rewrite (same_routing _ _ Sc), (underway_routing _ _ U), Hsc.
      unfold HasEngineBuffer in *. by rewrite (same_engine _ _ Sc), Hbuf.
    - rewrite (same_digit _ _ Sc). apply U. }
  pose proof (writing_paired _ _ _ W) as Hp.
  destruct (OnTestKeyDown_wanted m VK_SPACE s eq_refl Hs Hp Hwant (underway_claim _ _ U))
    as (s2 & E2 & S2 & Htv & Hr & Hh & Hc2).
  assert (Hs2 : steady m (ctl s2)) by by eapply steady_word.
  destruct (OnKeyDown_wanted m VK_SPACE s2 eq_refl Hs2 (paired_same _ _ S2 Hp) Htv Hr Hh Hc2)
    as (s3 & S3 & Hc3 & E3).
  assert (S : same_word (ctl s) (ctl s3)) by by eapply same_word_trans.
  unfold press. rewrite E2, E3. unfold ask_ctl.
  change (HandleKey m VK_SPACE (ctl s3)) with (true, CommitWithChar m (L " ") (ctl s3)).
  pose proof (CommitWithChar_space before after m (ctl s3)) as Hcs.
  rewrite (same_engine _ _ S) in Hcs.
  specialize (Hcs (steady_word _ _ _ S Hs) (writing_same _ _ _ _ S W) Hn).
  set (s4 := { s3 with ctl := CommitWithChar m (L " ") (ctl s3) }).
  exists (RememberClaimedSpaceKeyDown m VK_SPACE s4). split; [done|].
  assert (E4 : ctl (RememberClaimedSpaceKeyDown m VK_SPACE s4) = CommitWithChar m (L " ") (ctl s3)).
  { unfold RememberClaimedSpaceKeyDown. by destruct (_ && _). }
  rewrite E4. exact Hcs.
Qed.

(** C3. A word typed at a caret behind which nothing is under way, on a host that keeps
    plain text: every letter of it is eaten in both phases and the document shows the
    engine's word in place of what was selected, before and after it the text as it
    was; the space that follows is eaten as well and leaves there the engine's commit
    and the space, with the caret behind it, no composition and an empty engine.
    That holds where nothing interferes ([steady] at each key: the shared block is
    the one last read, keys come to this service in Vietnamese mode, the context
    takes text, Ctrl, Alt and Win are up, macros and automatic capitals are off), in
    a window that is not Scintilla's, from an empty engine with no word right before
    the caret, no digit-led word and no claimed space, for letters after each of
    which the engine still has some. *)
Theorem word_is_typed before after s ks m :
  ks <> [] -> Forall (fun k => steady k.1 (ctl s) /\ is_alpha k.2 = true) ks ->
  steady m (ctl s) -> isScintillaApp_ (routing_ (ctl s)) = false ->
  Count (engine_ (ctl s)) = 0%nat -> writing before after (ctl s) -> engine_ok (engine_ (ctl s)) ->
  digitLedWord_ (ctl s) = false -> pendingClaimedSpaceVk_ s = 0 ->
  never_empty ks (engine_ (ctl s)) = true ->
  let e := letters ks (engine_ (ctl s)) in
  let '(eaten, s1) := press_all ks s in
  let '(space_eaten, s2) := press m VK_SPACE s1 in
  eaten = true /\ v_text (view (doc_ (ctl s1))) = before ++ Peek e ++ after /\
  space_eaten = true /\ v_text (view (doc_ (ctl s2))) = before ++ spaced e ++ after /\
  caret_at (length before + length (spaced e)) (doc_ (ctl s2)) /\
  Resting (mgr_ (ctl s2)) (doc_ (ctl s2)) /\ Count (engine_ (ctl s2)) = 0%nat.
Proof.
  intros Hks Hall Hs Hsc Hz Hw He Hd Hc Hne. cbv zeta.
  assert (U0 : underway s s) by by split.
  destruct (press_all_letters before after s ks s U0 Hall Hw He Hne) as (s1 & E1 & U1 & W1 & En1 & He1).
  rewrite E1. pose proof (never_empty_count _ _ Hks Hne) as Hcount. rewrite <- En1 in *.
  destruct (press_space before after m s s1 U1 Hs Hsc W1 Hcount) as (s2 & -> & H1 & H2 & H3 & H4).
  assert (v_text (view (doc_ (ctl s1))) = before ++ Peek (engine_ (ctl s1)) ++ after).
  { destruct W1 as [? Hx _ _ _ _|_ HC _]; [done|apply HC]. }
  by split_and!.
Qed.

End Typing.

(** ** A configuration that arrives in the middle of a word

    The settings publish while a word is composed.  The service takes note, lets the
    word be, and uses the new configuration from the word's end on. *)

Section Arrival.
Context {E D R : Type} {IE : InputEngine E} {IEL : InputEngineLaws E} {EF : EngineFactory E}.
Context {EFL : EngineFactoryLaws E} {TC : TextContext D R} {PH : PlainHost D R}.
Context {CM : CaseMapper} {SP : CodeTable.SpacePlatform} {PP : PunctPlatform} {Lo : Locale}.
Implicit Types (c : Controller E D R) (m : Moment) (p : SharedState).

(** The same but for the trigger switches, which are read with the macros. *)
Definition but_triggers (cfg cfg' : TypingConfig) : Prop :=
  cfg' = cfg \/ exists disk, cfg' = with_triggers disk cfg.

(** The word is as it was and [next] waits for its end. *)
Record waits (next : TypingConfig) c c' : Prop := {
  waits_engine : engine_ c' = engine_ c;
  waits_mgr : mgr_ c' = mgr_ c;
  waits_doc : doc_ c' = doc_ c;
  waits_config : but_triggers (config c) (config c');
  waits_pending : exists cfg, pendingConfig_ (settings_ c') = Some cfg /\ but_triggers next cfg;
  waits_recreate : engineNeedsRecreate_ (settings_ c') = true;
  waits_revive : pendingReviveWord_ c' = pendingReviveWord_ c
}.

Lemma try_promote_busy c : HasEngineBuffer c = true -> TryPromotePendingConfig c = (false, c).
Proof.
  intros H. unfold TryPromotePendingConfig. destruct (negb _); [done|].
  unfold CanPromotePendingConfig, CanPromoteTsfConfig. cbn [engineBufferCount].
  unfold HasEngineBuffer in H. apply Nat.ltb_lt in H.
  destruct (Nat.eqb_spec (Count (engine_ c)) 0); [lia|done].
Qed.

Lemma ReloadMacros_waits next m g c0 c :
  waits next c0 c -> config c = config c0 -> pendingConfig_ (settings_ c) = Some next ->
  waits next c0 (ReloadMacros m g c).
Proof.
  intros [W1 W2 W3 W4 W5 W6 W7] Hc Hp. unfold ReloadMacros. cbv zeta.
  destruct (_ && _); [by split|]. destruct (m_disk m) as [[disk table]|]; [|by split].
  destruct (wants_macros _); [|by split]. split; try done.
  - right. exists disk. unfold config in *. cbn. by rewrite Hc.
  - exists (with_triggers disk next). cbn. rewrite Hp. split; [done|]. right. by exists disk.
Qed.

Lemma waits_epoch e next c c' :
  waits next { c with settings_ ::= fun s => { s with lastEpoch_ := e } } c' -> waits next c c'.
Proof. intros []. by split. Qed.

Lemma ApplySharedState_waits m p allow cfg c :
  HasEngineBuffer c = true -> config c = cfg ->
  waits (shared_config p cfg) c (ApplySharedState m p allow c).
Proof.
  intros Hb <-. unfold ApplySharedState. cbv zeta.
  set (c1 := { c with routing_ ::= _; settings_ ::= _ }).
  set (c2 := if Bool.eqb _ _ then c1 else ClearMacroTracking c1).
  set (c3 := if Bool.eqb _ _ then c2 else _).
  assert (H3 : waits (shared_config p (config c)) c c3 /\ config c3 = config c /\
    pendingConfig_ (settings_ c3) = Some (shared_config p (config c))).
  { subst c3 c2. destruct (Bool.eqb _ _), (Bool.eqb _ _); (split; [|done]);
      (split; try done; [by left|by exists (shared_config p (config c)); split; [|left]]). }
  destruct H3 as (W & Hc & Hp).
  set (c4 := match DecideMacroTable _ with MacroReload => _ | _ => c3 end).
  assert (W4 : waits (shared_config p (config c)) c c4).
  { subst c4. destruct (DecideMacroTable _); [done| |done]. by apply ReloadMacros_waits. }
  unfold try_promote. rewrite try_promote_busy; [done|].
  unfold HasEngineBuffer. by rewrite (waits_engine _ _ _ W4).
Qed.

(** The configuration that was waiting is the one of the next word. *)
Lemma recreate_promoted next c :
  engineNeedsRecreate_ (settings_ c) = true -> CanPromotePendingConfig c = true ->
  pendingConfig_ (settings_ c) = Some next ->
  config (try_promote c) = next /\ engine_ (try_promote c) = Create next /\
  hidePreeditUnderline_ (mgr_ (try_promote c)) = hidePreeditUnderline next.
Proof.
  intros Hr Hc Hp. unfold try_promote, TryPromotePendingConfig. rewrite Hr, Hc. cbn [negb snd].
  unfold recreate_engine, promote_config. rewrite Hp. cbv zeta.
  destruct (spellSuggestEnabled _); by split_and!.
Qed.

Lemma ControllerCommit_promotes m next c :
  Inv c -> m_context m <> None -> pendingReviveWord_ c = [] ->
  engineNeedsRecreate_ (settings_ c) = true -> pendingConfig_ (settings_ c) = Some next ->
  config (ControllerCommit m c) = next /\ engine_ (ControllerCommit m c) = Create next /\
  hidePreeditUnderline_ (mgr_ (ControllerCommit m c)) = hidePreeditUnderline next.
Proof.
  intros H Hm Hw Hr Hp. unfold ControllerCommit. rewrite take_commit_eq. cbv zeta.
  destruct (commit_session_rests m Hm (Commit (engine_ c)).1 { c with engine_ := (Commit (engine_ c)).2 })
    as (g & d & -> & [Hg _]); [by apply (Inv_agreed c)|].
  pose proof (Reset_Count (Commit (engine_ c)).2) as Hz.
  set (c1 := RecordCommitSnapshot _ _ _ _ _).
  assert (settings_ c1 = settings_ c /\ CanPromotePendingConfig c1 = true) as [Hs Hcan].
  { subst c1. unfold RecordCommitSnapshot. destruct (_ || _); (split; [done|]);
      change (CanPromoteTsfConfig (mkPromotion (Count (Reset (Commit (engine_ c)).2)) (pComposition_ g) true
                (bool_decide (pendingReviveWord_ c = []))) = true);
      by rewrite Hz, Hg, Hw. }
  apply recreate_promoted; [by rewrite Hs|done|by rewrite Hs].
Qed.

(** C15. New settings are published in the middle of a word: the key that finds them
    leaves the engine, the composition and the document alone, and the active
    configuration but for the macro triggers; when the word is committed the
    configuration is the published one, in a new engine. *)
Theorem settings_wait_for_word m m' p c :
  Inv c -> settled m c -> HasEngineBuffer c = true -> pendingReviveWord_ c = [] ->
  block_ c = Some p -> at_rest p -> IsValid p = true -> shared_connected c = true ->
  abiOk_ (routing_ c) = true -> ss_epoch p <> lastEpoch_ (settings_ c) -> m_context m' <> None ->
  let c1 := (CheckConfigEvent m false c).2 in
  let c2 := ControllerCommit m' c1 in
  engine_ c1 = engine_ c /\ mgr_ c1 = mgr_ c /\ doc_ c1 = doc_ c /\
  but_triggers (config c) (config c1) /\
  but_triggers (shared_config p (config c)) (config c2) /\
  engine_ c2 = Create (config c2) /\
  hidePreeditUnderline_ (mgr_ c2) = hidePreeditUnderline (config c2).
Proof.
  intros H Hset Hb Hw Hp Hrest Hv Hc Ha He Hm'. cbv zeta.
  assert (W : waits (shared_config p (config c)) c (CheckConfigEvent m false c).2).
  { unfold CheckConfigEvent, try_promote. rewrite try_promote_busy by done. cbn [snd]. cbv zeta.
    rewrite Hc. cbn [negb]. rewrite Ha. unfold take_block. cbv zeta.
    unfold shared_connected, from_block in Hc. rewrite Hp in Hc.
    unfold from_block at 1. rewrite Hp. unfold ReadEpoch. rewrite Hc.
    apply Z.eqb_neq in He as ->. cbn [negb andb].
    assert (Es : shared_read c = p).
    { unfold shared_read, from_block. rewrite Hp. unfold connected in Hc.
      apply andb_true_iff in Hc as [Hc1 Hc2%Z.eqb_eq]. by apply ReadNow_at_rest. }
    rewrite Es, Hv. cbn [negb snd orb].
    apply (waits_epoch (ss_epoch p)). by apply ApplySharedState_waits. }
  assert (Hi : Inv (CheckConfigEvent m false c).2) by (apply (Good_Inv m); by apply CheckConfigEvent_good).
  destruct W as [W1 W2 W3 W4 (cfg & W5 & Hcfg) W6 W7].
  destruct (ControllerCommit_promotes m' cfg _ Hi Hm') as (E1 & E2 & E3); try done; [by rewrite W7|].
  rewrite E1. by split_and!.
Qed.

End Arrival.

(** ** What the two undo windows write

    A backspace right after an expansion puts the shortcut back; a backspace and an
    escape after a commit put back the keys of the word.  Each writes only over the
    very text it undoes, or not at all. *)

Section Undo.
Context {E D R : Type} {IE : InputEngine E} {IEL : InputEngineLaws E} {EF : EngineFactory E}.
Context {EFL : EngineFactoryLaws E} {TC : TextContext D R} {PH : PlainHost D R}.
Context {CM : CaseMapper} {SP : CodeTable.SpacePlatform} {PP : PunctPlatform} {Lo : Locale}.
Implicit Types (c : Controller E D R) (m : Moment).

(** The text [old] right before the caret gives way to [new]. *)
Definition replaced_at_caret (old new : wstring) (d d' : D) : Prop :=
  exists before after,
    v_text (view d) = before ++ old ++ after /\ caret_at (length before + length old) d /\
    v_text (view d') = before ++ new ++ after /\ caret_at (length before + length new) d'.

Lemma ReplacePrecedingText_exact m old new c :
  Inv c -> IsComposing c = false -> old <> [] ->
  let '(replaced, c') := ReplacePrecedingText m (length old) new old c in
  if replaced then replaced_at_caret old new (doc_ c) (doc_ c') else c' = c.
Proof.
  intros H Hc Ho. unfold ReplacePrecedingText. destruct (m_context m); [|done].
  destruct (_ || _); [done|].
  destruct (ReplacePrecedingText_spec (length old) new old (doc_ c)) as (b & ok & d' & -> & _ & Hd).
  { apply (not_composing_resting c H Hc). }
  destruct b; [|by destruct c; cbn in *; subst].
  destruct Hd as (before & old' & after & Hl & [|Ht] & H1 & H2 & H3 & H4); [done|].
  rewrite <- Hl, firstn_all in Ht. subst old'. by exists before, after.
Qed.

(** What an expansion leaves: how long it was. *)
Definition undo_ok c : Prop :=
  let u := macroUndoState_ (macros_ c) in
  mu_active u = true -> mu_expansionLength u = length (mu_expansion u).

Lemma arm_macro_undo_ok m vk t plan r c : undo_ok (arm_macro_undo m vk t plan r c).
Proof. unfold undo_ok, arm_macro_undo. cbv zeta. cbn. by destruct (_ && _). Qed.

(** C12. The backspace that takes an expansion back finds the expansion right before
    the caret and puts the shortcut in its place, the rest of the document as it
    was, and macros are off until the next word; it changes nothing when it does not
    find it. *)
Theorem UndoMacro_exact m c :
  Inv c -> settled m c -> undo_ok c ->
  let u := macroUndoState_ (macros_ c) in
  let '(undone, c') := UndoMacro m c in
  engine_ c' = engine_ c /\ mgr_ c' = mgr_ c /\
  if undone
  then replaced_at_caret (mu_expansion u) (mu_shortcut u) (doc_ c) (doc_ c') /\
       rawMacroBuffer_ (macros_ c') = mu_shortcut u /\ tempMacroOff_ (macros_ c') = true /\
       HasMacroUndo m c' = false
  else doc_ c' = doc_ c.
Proof.
  intros H Hset Hu. cbv zeta. unfold UndoMacro.
  destruct (HasMacroUndo m c) eqn:Eh; [|done]. cbn [negb]. cbv zeta.
  assert (Ha : mu_active (macroUndoState_ (macros_ c)) = true).
  { unfold HasMacroUndo in Eh. cbv zeta in Eh. rewrite !andb_true_iff in Eh. tauto. }
  assert (Hc : IsComposing c = false).
  { destruct (IsComposing c) eqn:Ec; [|done]. exfalso. apply (Hset Ec).
    unfold HasMacroUndo in Eh. cbv zeta in Eh. rewrite !andb_true_iff in Eh.
    split; [tauto|]. apply Z.leb_le. tauto. }
  rewrite (Hu Ha). set (u := macroUndoState_ (macros_ c)).
  assert (Hi : Inv (ResetMacroUndo c)) by (apply (Good_Inv m), ResetMacroUndo_good; by split).
  assert (Hrest : forall n t x, let c' := (ReplacePrecedingText m n t x (ResetMacroUndo c)).2 in
            engine_ c' = engine_ c /\ mgr_ c' = mgr_ c /\ macroUndoState_ (macros_ c') = no_macro_undo).
  { intros n t x. cbv zeta. unfold ReplacePrecedingText. destruct (m_context m); [|by split_and!].
    destruct (_ || _); [by split_and!|]. destruct (ReplacePrecedingTextEditSession _ _ _ _) as [[? ?] ?]; by split_and!. }
  specialize (Hrest (length (mu_expansion u)) (mu_shortcut u) (mu_expansion u)).
  destruct (decide (mu_expansion u = [])) as [E0|E0].
  { rewrite E0 in *. unfold ReplacePrecedingText in *. by destruct (m_context m). }
  pose proof (ReplacePrecedingText_exact m (mu_expansion u) (mu_shortcut u) (ResetMacroUndo c) Hi Hc E0) as Hr.
  destruct (ReplacePrecedingText _ _ _ _ _) as [[] c']; destruct Hrest as (R1 & R2 & R3); cbn [negb snd] in *.
  - split_and!; try done. unfold HasMacroUndo. cbv zeta. cbn. by rewrite R3.
  - subst c'. by split_and!.
Qed.

(** C22. The escape after a commit: it writes the keys of the word over the word, when
    that is what is right before the selection, and nothing else but what is
    selected goes; the window is closed whether it wrote or not. *)
Theorem TryRestoreLastCommitRaw_exact m c :
  Inv c -> IsComposing c = false ->
  let '(restored, c') := TryRestoreLastCommitRaw m c in
  engine_ c' = engine_ c /\ mgr_ c' = mgr_ c /\
  (IsCommitUndoPrimed c = true -> commitUndoState_ c' = UndoIdle /\ lastCommit_ c' = no_commit) /\
  if restored
  then IsCommitUndoPrimed c = true /\ WithinUndoWindow m c = true /\
       exists before selected after,
         v_text (view (doc_ c)) = before ++ committed_body (lastCommit_ c) ++ selected ++ after /\
         v_selection (view (doc_ c)) =
           (length before + length (committed_body (lastCommit_ c)), length selected)%nat /\
         v_text (view (doc_ c')) = before ++ lc_rawInput (lastCommit_ c) ++ after /\
         caret_at (length before + length (lc_rawInput (lastCommit_ c))) (doc_ c')
  else doc_ c' = doc_ c.
Proof.
  intros H Hc. unfold TryRestoreLastCommitRaw.
  destruct (IsCommitUndoPrimed c) eqn:Ep; [|done]. cbn [negb].
  assert (Hidle : (commitUndoState_ c == UndoIdle) = false).
  { unfold IsCommitUndoPrimed in Ep. apply bool_decide_eq_true in Ep. by rewrite Ep. }
  assert (Hreset : forall d, ResetCommitUndo { c with doc_ := d } =
    { c with doc_ := d; commitUndoState_ := UndoIdle; lastCommit_ := no_commit }).
  { intros d. unfold ResetCommitUndo.
    change (commitUndoState_ { c with doc_ := d }) with (commitUndoState_ c). by rewrite Hidle. }
  assert (Hsame : ResetCommitUndo c = { c with commitUndoState_ := UndoIdle; lastCommit_ := no_commit }).
  { unfold ResetCommitUndo. by rewrite Hidle. }
  destruct (WithinUndoWindow m c); cbn [negb]; [|by rewrite Hsame]. cbv zeta.
  destruct (_ || _); [by rewrite Hsame|]. destruct (m_context m); [|by rewrite Hreset].
  rewrite plain_grants.
  destruct (EscRestore_spec (committed_body (lastCommit_ c)) (lc_rawInput (lastCommit_ c)) (doc_ c))
    as (b & d' & -> & _ & Hd); [apply (not_composing_resting c H Hc)|].
  rewrite Hreset. split_and!; try done. destruct b; [|done]. by split_and!.
Qed.

End Undo.
