(* ===== verification/NativeConvert.v ===== *)
(** * The native conversion of a selection
      (src/src/tsf/QuickConvertEditSession.h; KeyEventSink::OnPreservedKey)

    The preserved key converts the selected text in the host's document, once or,
    in the sequential mode, one option after the other and back to the original, as
    the second part proves of the key itself. *)

From S2P Require Import Prelude Config QuickConvert InputEngine TextStore Composition.
From S2P Require Import Macro MacroPrefix Controller ControllerKeys KeySink ServiceTyping.
From coqutil Require Import Datatypes.RecordSettersUsingExistingGetters.
Open Scope Z_scope.

(** What the session needs of a host besides. *)
Class ConvertContext (D R : Type) `{TextContext D R} := {
  GetTextMove : R -> nat -> D -> option (wstring * R);   (* GetText, the start moves *)
  StartMarker : R -> D -> option R;                      (* a clone at the start, backward gravity *)
  ShiftEnd : R -> Z -> D -> option (Z * R);
  SameStart : R -> R -> D -> option bool;
  SameEnd : R -> R -> D -> option bool;
  RefusesSync : D -> bool                                (* TF_E_SYNCHRONOUS *)
}.

Definition kMaxSelectionChars : nat := Z.to_nat (1024 * 1024).
Definition kReadBuffer : nat := 4096.
Definition kSequentialTimeoutMs : Z := 5000.

Section Convert.
Context {D R : Type} {TC : TextContext D R} {CC : ConvertContext D R} {SP : CodeTable.SpacePlatform}.
Implicit Types (d : D) (r : R) (seq : ConvertSequence R).

(** The chunks of a range, as many as there may be. *)
Fixpoint read_chunks (fuel : nat) r (text : wstring) d : option (R * wstring) :=
  match fuel with
  | O => Some (r, text)
  | S fuel =>
      if (kMaxSelectionChars <=? length text)%nat then Some (r, text)
      else
        match GetTextMove r (Nat.min (kMaxSelectionChars - length text) kReadBuffer) d with
        | None => None
        | Some ([], r) => Some (r, text)
        | Some (chunk, r) => read_chunks fuel r (text ++ chunk) d
        end
  end.
(** A range that is not read to its end is an error, with what was read. *)
Definition ReadRangeText r d : option (wstring * bool) :=
  match read_chunks (S kMaxSelectionChars) r [] d with
  | None => None
  | Some (scan, text) =>
      match RangeIsEmpty scan d with
      | None => None
      | Some exhausted => Some (text, exhausted)
      end
  end.

Definition IsSameSequentialSelection (context : option Z) r (currentText : wstring) seq d : bool :=
  if negb (bool_decide (seq_context seq = context)) then false
  else
    match seq_selectedRange seq with
    | None => false
    | Some kept =>
        if negb (bool_decide (seq_lastResult seq = currentText)) then false
        else bool_decide (SameStart r kept d = Some true) && bool_decide (SameEnd r kept d = Some true)
    end.

(** What a session leaves: success, its results, the sequence and the document. *)
Record Conversion := mkConversion {
  cv_ok : bool; cv_hasResult : bool; cv_replaced : bool; cv_result : wstring;
  cv_sequence : ConvertSequence R; cv_doc : D
}.

(** The next step of the sequence and its text. *)
Definition next_index (count : nat) (continuing : bool) (index : Z) : Z :=
  if negb continuing then 0
  else if Z.of_nat count <=? index + 1 then -1 else index + 1.
Definition step_text (options : list QuickConvertOption) (config : ConvertConfig) (index : Z)
    (origin : wstring) : wstring :=
  if index <? 0 then origin
  else match options !! Z.to_nat index with
       | Some o => ApplyQuickConvertOption origin o config
       | None => origin
       end.
Definition sequence_step (tick : Z) (context : option Z) (config : ConvertConfig)
    (options : list QuickConvertOption) r (text : wstring) seq d : wstring * ConvertSequence R :=
  let continuing := IsSameSequentialSelection context r text seq d &&
                    (u32_sub tick (seq_lastConvertTime seq) <=? kSequentialTimeoutMs) in
  let origin := if continuing then seq_originText seq else text in
  let index := next_index (length options) continuing (seq_currentIndex seq) in
  (step_text options config index origin,
   mkSequence (seq_context seq) (seq_selectedRange seq) origin (seq_lastResult seq) index tick).

Definition mark (context : option Z) r (result : wstring) seq : ConvertSequence R :=
  mkSequence context (Some r) (seq_originText seq) result (seq_currentIndex seq)
    (seq_lastConvertTime seq).

(** The text is replaced and selected again. *)
Definition replace_selection r (result : wstring) d : bool * option R * D :=
  match StartMarker r d with
  | None => (false, None, d)
  | Some marker =>
      match SetText r result d with
      | None => (false, None, d)
      | Some (_, d) =>
          match ShiftEnd marker (Z.of_nat (length result)) d with
          | None => (false, None, d)
          | Some (shifted, marker) =>
              if shifted <>w Z.of_nat (length result) then (false, None, d)
              else let '(ok, d) := SetSelection marker d in (ok, Some marker, d)
          end
      end
  end.

Definition QuickConvertEditSession (tick : Z) (context : option Z) (config : ConvertConfig) seq d
    : Conversion :=
  let fails seq d := mkConversion false false false [] seq d in
  let nothing seq d := mkConversion true false false [] seq d in
  match GetSelection d with
  | None => fails seq d
  | Some r =>
      match RangeIsEmpty r d with
      | None | Some true => nothing no_sequence d
      | Some false =>
          match ReadRangeText r d with
          | None | Some (_, false) => fails no_sequence d
          | Some ([], true) => nothing no_sequence d
          | Some (text, true) =>
              let options := GetEnabledQuickConvertOptions config in
              if bool_decide (options = []) then nothing no_sequence d
              else
                let cycling := sequential config && autoPaste config in
                let '(result, seq) :=
                  if cycling then sequence_step tick context config options r text seq d
                  else (ApplyQuickConvertConfig text config, no_sequence) in
                if bool_decide (result = text) then
                  mkConversion true false false result
                    (if cycling then mark context r result seq else seq) d
                else if negb (autoPaste config) then mkConversion true true false result seq d
                else
                  match replace_selection r result d with
                  | (true, Some marker, d) =>
                      mkConversion true true true result
                        (if sequential config then mark context marker result seq else seq) d
                  | (_, _, d) => mkConversion false true false result seq d
                  end
          end
      end
  end.

End Convert.

(** ** The preserved key *)

Section Sink.
Context {E D R : Type} {IE : InputEngine E} {EF : EngineFactory E} {TC : TextContext D R}.
Context {CC : ConvertContext D R}.
Context {CM : CaseMapper} {SP : CodeTable.SpacePlatform} {PP : PunctPlatform} {Lo : Locale}.

Definition set_sequence (seq : ConvertSequence R) (s : KeySink E D R) : KeySink E D R :=
  { s with quickConvertSequence_ := seq }.

(** The conversion of the selection; the text for the clipboard, when there is one. *)
Definition convert_selection (m : Moment) (s : KeySink E D R) : option wstring * KeySink E D R :=
  let c := ctl s in
  let config := convertConfig_ (settings_ c) in
  let '(refused, cv) :=
    if GrantsSync true (doc_ c)
    then (false, QuickConvertEditSession (m_tick m) (m_context m) config (quickConvertSequence_ s) (doc_ c))
    else (true, mkConversion false false false [] (quickConvertSequence_ s) (doc_ c)) in
  let s := set_sequence (cv_sequence cv) (on_ctl (fun c => { c with doc_ := cv_doc cv }) s) in
  if negb (cv_ok cv) then
    let s := set_sequence no_sequence s in
    (None, if refused && RefusesSync (doc_ c)
           then PublishQuickConvertCapability m { s with quickConvertSyncUnsupported_ := true } else s)
  else (if cv_hasResult cv && negb (autoPaste config) then Some (cv_result cv) else None, s).

(** For the key of another service the sink is not asked.  The key is always eaten. *)
Definition OnPreservedKey (m : Moment) (ours : bool) (s : KeySink E D R)
    : bool * option wstring * KeySink E D R :=
  if negb ours then (false, None, s)
  else if bool_decide (m_context m = None) || negb (isForeground_ s) then (true, None, s)
  else
    let '(changed, s) := ask_ctl (CheckConfigEvent m false) s in
    if changed then (true, None, RefreshQuickConvertPreservedKey m s)
    else if negb (quickConvertKeyRegistered_ s) || negb (engineEnabled_ (routing_ (ctl s))) ||
            negb (tsfActive_ (routing_ (ctl s)))
    then (true, None, PublishQuickConvertCapability m s)
    else
      let s := on_ctl (CheckContextBlocked m) s in
      if contextBlocked_ (routing_ (ctl s)) then (true, None, s)
      else
        let s := commit_live m s in
        let '(clip, s) := convert_selection m s in (true, clip, s).

End Sink.

(** ** The sequential conversion goes round

    On a host that keeps plain text a selection is read whole or refused, each press
    shows the next option of the original text, and after the last one the original
    itself. *)

(** What a host that keeps plain text does with the session's operations. *)
Class PlainConvert (D R : Type) `{PH : PlainHost D R} {CC : ConvertContext D R} := {
  plain_Move r n d :
    let k := Nat.min n (place r d).2 in
    exists r', GetTextMove r n d = Some (take n (piece (place r d) (v_text (view d))), r') /\
      place r' d = ((place r d).1 + k, (place r d).2 - k)%nat;
  plain_Marker r d :
    exists m, StartMarker r d = Some m /\
      forall t r' d', SetText r t d = Some (r', d') -> place m d' = ((place r d).1, 0%nat);
  plain_ShiftEnd r n d :
    let k := Nat.min n (length (v_text (view d)) - ((place r d).1 + (place r d).2)) in
    exists r', ShiftEnd r (Z.of_nat n) d = Some (Z.of_nat k, r') /\
      place r' d = ((place r d).1, (place r d).2 + k)%nat;
  plain_SameStart r r' d : SameStart r r' d = Some (bool_decide ((place r d).1 = (place r' d).1));
  plain_SameEnd r r' d :
    SameEnd r r' d =
      Some (bool_decide ((place r d).1 + (place r d).2 = (place r' d).1 + (place r' d).2)%nat);
  plain_kept r r' d d' : SetSelection r d = (true, d') -> place r' d' = place r' d
}.

Arguments kMaxSelectionChars : simpl never.

Section Facts.
Context {D R : Type} {TC : TextContext D R} {PH : PlainHost D R} {CC : ConvertContext D R}.
Context {PC : PlainConvert D R} {SP : CodeTable.SpacePlatform}.
Implicit Types (d : D) (r : R) (seq : ConvertSequence R).

(** ** Reading *)

Definition text_in r d : wstring := piece (place r d) (v_text (view d)).
Lemma text_in_length r d : length (text_in r d) = (place r d).2.
Proof.
  unfold text_in, piece. pose proof (plain_inside r d) as H. unfold inside in H.
  rewrite length_take, length_drop. lia.
Qed.

Lemma piece_drop k r r' d :
  place r' d = ((place r d).1 + Nat.min k (place r d).2, (place r d).2 - Nat.min k (place r d).2)%nat ->
  text_in r' d = drop k (text_in r d).
Proof.
  intros E. pose proof (text_in_length r d) as Hl. unfold text_in in *. rewrite E. unfold piece in *. cbn [fst snd].
  destruct (decide (k <= (place r d).2)%nat) as [Hk|Hk].
  - rewrite Nat.min_l by done. by rewrite skipn_firstn_comm, drop_drop.
  - rewrite Nat.min_r by lia. rewrite (drop_ge (take _ _)) by lia. by rewrite Nat.sub_diag.
Qed.

Lemma read_chunks_spec fuel r text d :
  (length text + length (text_in r d) <= kMaxSelectionChars)%nat -> (length (text_in r d) < fuel)%nat ->
  exists r', read_chunks fuel r text d = Some (r', text ++ text_in r d) /\ (place r' d).2 = 0%nat.
Proof.
  revert r text. induction fuel as [|fuel IH]; intros r text Hmax Hfuel; [lia|]. cbn [read_chunks].
  destruct (Nat.leb_spec kMaxSelectionChars (length text)) as [Hf|Hf].
  { assert (text_in r d = []) as E by (apply nil_length_inv; lia).
    exists r. rewrite E, app_nil_r. split; [done|]. by rewrite <- text_in_length, E. }
  set (n := Nat.min _ _).
  destruct (plain_Move r n d) as (r' & -> & Hp). fold (text_in r d).
  pose proof (piece_drop n r r' d Hp) as Hd.
  assert (Hn : (1 <= n)%nat) by (subst n; unfold kReadBuffer; lia). clearbody n.
  destruct (text_in r d) as [|x t] eqn:Et.
  { rewrite take_nil. exists r'. rewrite app_nil_r. split; [done|].
    rewrite <- text_in_length, Hd. by rewrite drop_nil. }
  destruct (take n (x :: t)) as [|y chunk] eqn:Ec; [by destruct n; [lia|]|].
  assert (E : text ++ x :: t = (text ++ y :: chunk) ++ text_in r' d).
  { rewrite Hd, <- Ec, <- app_assoc. by rewrite take_drop. }
  assert (Hl : (length (text_in r' d) + length (y :: chunk) = length (x :: t))%nat).
  { rewrite Hd, <- Ec, length_drop, length_take. lia. }
  rewrite E. apply IH; [rewrite length_app|]; cbn [length] in *; lia.
Qed.

(** The selection is read whole. *)
Lemma ReadRangeText_spec r d :
  ((place r d).2 <= kMaxSelectionChars)%nat -> ReadRangeText r d = Some (text_in r d, true).
Proof.
  intros H. unfold ReadRangeText.
  destruct (read_chunks_spec (S kMaxSelectionChars) r [] d) as (r' & -> & Hz);
    [rewrite text_in_length; cbn [length]; lia|rewrite text_in_length; lia|].
  rewrite plain_IsEmpty, Hz. done.
Qed.

(** ** A step *)

(** The selection is [cur], between [before] and [after]. *)
Definition selects (before cur after : wstring) d : Prop :=
  v_text (view d) = before ++ cur ++ after /\ v_selection (view d) = (length before, length cur).

Lemma replace_selection_spec before cur after result r d :
  v_text (view d) = before ++ cur ++ after -> place r d = (length before, length cur) ->
  exists m d', replace_selection r result d = (true, Some m, d') /\
    selects before result after d' /\ place m d' = (length before, length result).
Proof.
  intros Ht Hp. unfold replace_selection.
  destruct (plain_Marker r d) as (mk & -> & Hm).
  destruct (plain_SetText r d result) as (r' & d1 & Es & _ & Ht1 & _).
  rewrite Es. specialize (Hm _ _ _ Es). rewrite Hp in *. cbn [fst] in *.
  rewrite Ht, splice_middle in Ht1.
  destruct (plain_ShiftEnd mk (length result) d1) as (mk' & -> & Hmk). rewrite Hm, Ht1 in *. cbn [fst snd] in *.
  rewrite Nat.min_l in * by (rewrite !length_app; lia). rewrite Z.eqb_refl. cbn [negb].
  destruct (plain_SetSelection mk' d1) as (d2 & Ess & Hs & Ht2 & _). rewrite Ess.
  exists mk', d2. split; [done|]. rewrite (plain_kept _ mk' _ _ Ess), Hmk.
  split; [|done]. split; [by rewrite Ht2|by rewrite Hs, Hmk].
Qed.

(** A step of the sequence has just been shown. *)
Record shown_step (ctx : option Z) (origin cur : wstring) (index tick : Z) seq d r : Prop := {
  shown_context : seq_context seq = ctx;
  shown_range : seq_selectedRange seq = Some r;
  shown_place : place r d = v_selection (view d);
  shown_result : seq_lastResult seq = cur;
  shown_origin : seq_originText seq = origin;
  shown_index : seq_currentIndex seq = index;
  shown_tick : seq_lastConvertTime seq = tick
}.

(** A press of the key, in the sequential mode. *)
Lemma press_step ctx config tick before cur after origin index seq d :
  sequential config = true -> autoPaste config = true ->
  GetEnabledQuickConvertOptions config <> [] ->
  selects before cur after d -> cur <> [] -> (length cur <= kMaxSelectionChars)%nat ->
  (forall r, place r d = v_selection (view d) ->
     sequence_step tick ctx config (GetEnabledQuickConvertOptions config) r cur seq d =
     (step_text (GetEnabledQuickConvertOptions config) config index origin,
      mkSequence (seq_context seq) (seq_selectedRange seq) origin (seq_lastResult seq) index tick)) ->
  let next := step_text (GetEnabledQuickConvertOptions config) config index origin in
  let cv := QuickConvertEditSession tick ctx config seq d in
  cv_ok cv = true /\ selects before next after (cv_doc cv) /\
  exists r, shown_step ctx origin next index tick (cv_sequence cv) (cv_doc cv) r.
Proof.
  intros Hseq Hauto Hopt [Ht Hs] Hne Hmax Hstep. cbv zeta. unfold QuickConvertEditSession.
  destruct (plain_GetSelection d) as (r & -> & Hr). rewrite plain_IsEmpty, Hr, Hs. cbn [snd].
  destruct (Nat.eqb_spec (length cur) 0) as [E|_]; [by apply nil_length_inv in E|].
  assert (Hin : text_in r d = cur) by (unfold text_in; by rewrite Hr, Hs, Ht, piece_middle).
  rewrite ReadRangeText_spec by (by rewrite <- text_in_length, Hin). rewrite Hin.
  destruct cur as [|x cur']; [done|]. set (cur := x :: cur') in *.
  rewrite bool_decide_eq_false_2 by done. rewrite Hseq, Hauto. cbn [andb negb].
  rewrite (Hstep r Hr). set (next := step_text _ _ _ _).
  case_bool_decide as En.
  - cbn [cv_ok cv_doc cv_sequence]. rewrite En. split; [done|]. split; [by split|].
    exists r. by split.
  - destruct (replace_selection_spec before cur after next r d Ht) as (mk & d' & -> & Hsel & Hmk);
      [by rewrite Hr|].
    cbn [cv_ok cv_doc cv_sequence]. split; [done|]. split; [done|]. exists mk.
    split; try done. by rewrite Hmk, (proj2 Hsel).
Qed.

Lemma first_press ctx config tick before cur after seq d :
  sequential config = true -> autoPaste config = true ->
  GetEnabledQuickConvertOptions config <> [] ->
  selects before cur after d -> cur <> [] -> (length cur <= kMaxSelectionChars)%nat ->
  seq_selectedRange seq = None ->
  let next := step_text (GetEnabledQuickConvertOptions config) config 0 cur in
  let cv := QuickConvertEditSession tick ctx config seq d in
  cv_ok cv = true /\ selects before next after (cv_doc cv) /\
  exists r, shown_step ctx cur next 0 tick (cv_sequence cv) (cv_doc cv) r.
Proof.
  intros ? ? ? ? ? ? Hn. apply (press_step ctx config tick before cur after); try done. intros r _.
  unfold sequence_step, IsSameSequentialSelection. rewrite Hn. by destruct (negb _).
Qed.

Lemma next_press ctx config tick tick0 before cur after origin index seq d r :
  sequential config = true -> autoPaste config = true ->
  GetEnabledQuickConvertOptions config <> [] ->
  selects before cur after d -> cur <> [] -> (length cur <= kMaxSelectionChars)%nat ->
  shown_step ctx origin cur index tick0 seq d r -> u32_sub tick tick0 <= kSequentialTimeoutMs ->
  let index' := next_index (length (GetEnabledQuickConvertOptions config)) true index in
  let next := step_text (GetEnabledQuickConvertOptions config) config index' origin in
  let cv := QuickConvertEditSession tick ctx config seq d in
  cv_ok cv = true /\ selects before next after (cv_doc cv) /\
  exists r', shown_step ctx origin next index' tick (cv_sequence cv) (cv_doc cv) r'.
Proof.
  intros ? ? ? ? ? ? [S1 S2 S3 S4 S5 S6 S7] Ht. apply (press_step ctx config tick before cur after); try done. intros r0 Hr0.
  unfold sequence_step, IsSameSequentialSelection. rewrite S1, S2, S4, !bool_decide_eq_true_2 by done.
  cbn [negb]. rewrite plain_SameStart, plain_SameEnd, S3, Hr0.
  rewrite !(bool_decide_eq_true_2 (Some _ = Some true)) by (f_equal; by apply bool_decide_eq_true_2).
  cbn [andb]. rewrite S7, S6, S5. apply Z.leb_le in Ht. by rewrite Ht.
Qed.

(** ** Many steps *)

Fixpoint conversions (ctx : option Z) (config : ConvertConfig) (ticks : list Z) (seq : ConvertSequence R) d
    : bool * ConvertSequence R * D :=
  match ticks with
  | [] => (true, seq, d)
  | tick :: ticks =>
      let cv := QuickConvertEditSession tick ctx config seq d in
      let '(ok, seq, d) := conversions ctx config ticks (cv_sequence cv) (cv_doc cv) in
      (cv_ok cv && ok, seq, d)
  end.
Fixpoint in_time (tick : Z) (ticks : list Z) : Prop :=
  match ticks with
  | [] => True
  | tick' :: ticks => u32_sub tick' tick <= kSequentialTimeoutMs /\ in_time tick' ticks
  end.

(** The option a press shows, the first press being number 0; -1 is the original. *)
Definition index_of_press (n k : nat) : Z :=
  if (k mod S n =? n)%nat then -1 else Z.of_nat (k mod S n).

Lemma next_index_of_press n k : next_index n true (index_of_press n k) = index_of_press n (S k).
Proof.
  unfold next_index, index_of_press. cbn [negb].
  pose proof (Nat.mod_upper_bound k (S n) ltac:(done)) as Hb.
  pose proof (Nat.div_mod_eq k (S n)) as Hk. set (j := (k mod S n)%nat) in *. set (q := (k / S n)%nat) in *.
  destruct (Nat.eqb_spec j n) as [Ej|Ej].
  - assert (E : (S k mod S n = 0)%nat) by (symmetry; apply (Nat.mod_unique _ _ (S q)); nia).
    rewrite E. destruct n as [|n]; [done|].
    destruct (Z.leb_spec (Z.of_nat (S n)) (-1 + 1)); [lia|done].
  - assert (E : (S k mod S n = S j)%nat) by (symmetry; apply (Nat.mod_unique _ _ q); nia).
    rewrite E. destruct (Nat.eqb_spec (S j) n), (Z.leb_spec (Z.of_nat n) (Z.of_nat j + 1)); lia.
Qed.

Lemma more_presses ctx config before after origin ticks k tick cur seq d r :
  sequential config = true -> autoPaste config = true ->
  let options := GetEnabledQuickConvertOptions config in
  options <> [] ->
  (forall i, step_text options config i origin <> [] /\
             (length (step_text options config i origin) <= kMaxSelectionChars)%nat) ->
  cur = step_text options config (index_of_press (length options) k) origin ->
  selects before cur after d ->
  shown_step ctx origin cur (index_of_press (length options) k) tick seq d r -> in_time tick ticks ->
  let '(ok, _, d') := conversions ctx config ticks seq d in
  ok = true /\
  selects before (step_text options config (index_of_press (length options) (length ticks + k)) origin)
    after d'.
Proof.
  intros Hseq Hauto options Hopt Htexts. revert k tick cur seq d r.
  induction ticks as [|tick' ticks IH]; intros k tick cur seq d r -> Hsel Hsh Hin; [done|].
  destruct Hin as [Ht Hin]. cbn [conversions length].
  destruct (Htexts (index_of_press (length options) k)) as [Hne Hmax].
  destruct (next_press ctx config tick' tick before _ after origin _ seq d r Hseq Hauto Hopt Hsel Hne
              Hmax Hsh Ht) as (Hok & Hsel' & r' & Hsh').
  fold options in Hsel', Hsh'. rewrite next_index_of_press in *.
  specialize (IH (S k) tick' _ _ _ r' eq_refl Hsel' Hsh' Hin).
  destruct (conversions _ _ _ _ _) as [[ok s'] d']. destruct IH as [-> IH]. rewrite Hok.
  split; [done|]. by rewrite Nat.add_succ_r in IH.
Qed.

Lemma sessions_cycle ctx config before origin after tick ticks seq d :
  let options := GetEnabledQuickConvertOptions config in
  sequential config = true -> autoPaste config = true -> options <> [] ->
  (forall i, step_text options config i origin <> [] /\
             (length (step_text options config i origin) <= kMaxSelectionChars)%nat) ->
  selects before origin after d -> seq_selectedRange seq = None -> in_time tick ticks ->
  let '(ok, _, d') := conversions ctx config (tick :: ticks) seq d in
  ok = true /\
  selects before (step_text options config (index_of_press (length options) (length ticks)) origin)
    after d'.
Proof.
  intros options Hseq Hauto Hopt Htexts Hsel Hn Hin. destruct (Htexts (-1)) as [Hne Hmax].
  cbn [conversions].
  destruct (first_press ctx config tick before origin after seq d Hseq Hauto Hopt Hsel Hne Hmax Hn)
    as (Hok & Hsel' & r & Hsh).
  fold options in Hsel', Hsh.
  assert (E0 : index_of_press (length options) 0 = 0).
  { unfold index_of_press. rewrite Nat.Div0.mod_0_l. by destruct options. }
  rewrite <- E0 in Hsel' at 1. rewrite <- E0 in Hsh.
  pose proof (more_presses ctx config before after origin ticks 0 tick _ _ _ r Hseq Hauto Hopt Htexts
                eq_refl Hsel' Hsh Hin) as Hm.
  destruct (conversions _ _ ticks _ _) as [[ok s'] d']. destruct Hm as [-> Hm]. rewrite Hok.
  fold options in Hm. by rewrite Nat.add_0_r in Hm.
Qed.

End Facts.

(** ** The key, pressed again and again *)

Section Presses.
Context {E D R : Type} {IE : InputEngine E} {EF : EngineFactory E} {TC : TextContext D R}.
Context {PH : PlainHost D R} {CC : ConvertContext D R} {PC : PlainConvert D R}.
Context {CM : CaseMapper} {SP : CodeTable.SpacePlatform} {PP : PunctPlatform} {Lo : Locale}.
Implicit Types (s : KeySink E D R) (m : Moment).

(** Every press eaten, and nothing for the clipboard. *)
Fixpoint presses (ms : list Moment) s : bool * KeySink E D R :=
  match ms with
  | [] => (true, s)
  | m :: ms =>
      let '(eaten, clip, s) := OnPreservedKey m true s in
      let '(rest, s) := presses ms s in
      (eaten && bool_decide (clip = None) && rest, s)
  end.

(** The key is ours to act on: the sink has the focus and the key, and no word is
    composed. *)
Record armed s : Prop := {
  armed_foreground : isForeground_ s = true;
  armed_registered : quickConvertKeyRegistered_ s = true;
  armed_enabled : engineEnabled_ (routing_ (ctl s)) = true;
  armed_active : tsfActive_ (routing_ (ctl s)) = true;
  armed_no_word : Count (engine_ (ctl s)) = 0%nat
}.

Abbreviation convert_config s := (convertConfig_ (settings_ (ctl s))).
Definition after_session (cv : Conversion) s : KeySink E D R :=
  set_sequence (cv_sequence cv) (on_ctl (fun c => { c with doc_ := cv_doc cv }) s).

(** A press runs the session and keeps what it leaves. *)
Lemma press_runs_session m s :
  armed s -> undisturbed m (ctl s) -> autoPaste (convert_config s) = true ->
  let cv := QuickConvertEditSession (m_tick m) (lastContext_ (routing_ (ctl s))) (convert_config s)
              (quickConvertSequence_ s) (doc_ (ctl s)) in
  cv_ok cv = true -> OnPreservedKey m true s = (true, None, after_session cv s).
Proof.
  intros [H1 H2 H3 H4 H5] Hu Ha. cbv zeta. set (cv := QuickConvertEditSession _ _ _ _ _). intros Hok.
  destruct (same_context _ _ Hu) as [Hm Hc]. unfold OnPreservedKey. cbn [negb].
  rewrite bool_decide_eq_false_2, H1 by done. cbn [negb orb]. unfold ask_ctl.
  rewrite undisturbed_config_event, set_ctl_same by done. rewrite H2, H3, H4. cbn [negb orb]. cbv zeta.
  assert (Es : on_ctl (CheckContextBlocked m) s = s).
  { unfold on_ctl. change ({ s with ctl := CheckContextBlocked m (ctl s) } = s).
    rewrite undisturbed_check_context by done. apply set_ctl_same. }
  rewrite Es. destruct (same_open _ _ Hu) as (_ & -> & _).
  unfold commit_live, HasEngineBuffer. rewrite H5. cbn [Nat.ltb Nat.leb].
  unfold convert_selection. rewrite plain_grants, Hc. fold cv. cbv zeta.
  rewrite Hok, Ha. cbn [negb]. by rewrite andb_false_r.
Qed.

Lemma after_session_armed cv s : armed s -> armed (after_session cv s).
Proof. by intros []. Qed.
Lemma after_session_undisturbed cv m s :
  undisturbed m (ctl s) -> undisturbed m (ctl (after_session cv s)).
Proof. by apply undisturbed_same. Qed.

(** The presses are the sessions, one on what the other left. *)
Lemma presses_run_sessions ms s :
  armed s -> Forall (fun m => undisturbed m (ctl s)) ms -> autoPaste (convert_config s) = true ->
  let '(ok, seq, d) := conversions (lastContext_ (routing_ (ctl s))) (convert_config s)
                         (m_tick <$> ms) (quickConvertSequence_ s) (doc_ (ctl s)) in
  ok = true -> (presses ms s).1 = true /\ doc_ (ctl (presses ms s).2) = d.
Proof.
  intros Ha Hms Hp. revert s Ha Hms Hp. induction ms as [|m ms IH]; intros s Ha Hms Hp; [done|].
  apply Forall_cons_1 in Hms as [Hm Hms]. cbn [fmap list_fmap conversions presses].
  set (cv := QuickConvertEditSession _ _ _ _ _).
  pose proof (press_runs_session m s Ha Hm Hp) as Hpress. fold cv in Hpress.
  specialize (IH (after_session cv s) (after_session_armed cv s Ha)).
  change (convert_config (after_session cv s)) with (convert_config s) in IH.
  change (lastContext_ (routing_ (ctl (after_session cv s)))) with (lastContext_ (routing_ (ctl s))) in IH.
  change (quickConvertSequence_ (after_session cv s)) with (cv_sequence cv) in IH.
  change (doc_ (ctl (after_session cv s))) with (cv_doc cv) in IH.
  destruct (conversions _ _ (m_tick <$> ms) _ _) as [[ok seq] d]. intros [Hok Hrest]%andb_true_iff.
  rewrite Hpress by done. destruct IH as [IH1 IH2]; [|done|done|].
  { eapply Forall_impl; [exact Hms|]. intros m'. apply after_session_undisturbed. }
  destruct (presses ms (after_session cv s)) as [rest s']. cbn [fst snd] in *. by rewrite IH1.
Qed.

(** C23. Pressing the conversion key again and again in the sequential mode with the
    conversion pasted in place, each time within five seconds of the last, on a
    selection that stays the user's: the [k]-th press replaces the selection by the
    [k]-th option applied to the original text and selects it; the press after the
    last option brings the original back, and so on round; every press is eaten and
    the text before and behind is never touched.  The service has the focus and the
    key, nothing changes around it ([undisturbed]), no word is composed and no
    sequence is under way; the host keeps plain text; and no option may give an empty
    text or one beyond a million units, at which the session would stop. *)
Theorem conversion_cycles before origin after m ms s :
  let config := convert_config s in
  let options := GetEnabledQuickConvertOptions config in
  let shown k := step_text options config (index_of_press (length options) k) origin in
  sequential config = true -> autoPaste config = true -> options <> [] ->
  (forall i, step_text options config i origin <> [] /\
             (length (step_text options config i origin) <= kMaxSelectionChars)%nat) ->
  armed s -> Forall (fun m => undisturbed m (ctl s)) (m :: ms) ->
  selects before origin after (doc_ (ctl s)) ->
  seq_selectedRange (quickConvertSequence_ s) = None -> in_time (m_tick m) (m_tick <$> ms) ->
  let '(eaten, s') := presses (m :: ms) s in
  eaten = true /\ selects before (shown (length ms)) after (doc_ (ctl s')) /\
  shown (length options) = origin.
Proof.
  intros config options shown Hseq Hauto Hopt Htexts Ha Hms Hsel Hn Hin.
  pose proof (presses_run_sessions (m :: ms) s Ha Hms Hauto) as Hp.
  pose proof (sessions_cycle (lastContext_ (routing_ (ctl s))) config before origin after (m_tick m)
                (m_tick <$> ms) (quickConvertSequence_ s) (doc_ (ctl s)) Hseq Hauto Hopt Htexts Hsel Hn Hin) as Hc.
  change (m_tick <$> m :: ms) with (m_tick m :: (m_tick <$> ms)) in Hp. rewrite length_fmap in Hc.
  destruct (conversions _ _ _ _ _) as [[ok seq] d]. destruct Hc as [Hok Hc].
  destruct (Hp Hok) as [He Hd]. destruct (presses (m :: ms) s) as [eaten s']. cbn [fst snd] in *.
  subst d. split_and!; [done|exact Hc|]. unfold shown, index_of_press.
  by rewrite Nat.mod_small, Nat.eqb_refl by lia.
Qed.

End Presses.
