(* ===== verification/ServiceScenarios.v ===== *)
(** * The text service over the typing engine, on a sheet

    The theorems of the text service applied to executions, and the behaviours that
    are findings. *)

From Stdlib Require Import Strings.String.
From S2P Require Import Prelude Config CodeTable MacroPrefix Macro QuickConvert.
From S2P Require Import Engine TypingEngine Invariant EngineInstance InputEngine.
From S2P Require Import SharedState SharedStateManager SettingsSync TextStore Composition.
From S2P Require Import Controller ControllerKeys KeySink ControllerFacts.
From S2P Require Import ServiceTyping.
From S2P Require Import NativeConvert.
From coqutil Require Import Datatypes.RecordSettersUsingExistingGetters.
Open Scope Z_scope.
Open Scope list_scope.
Import Sheet.

#[local] Existing Instances posix_c_locale posix_spaces ascii_mapper ascii_punct c_locale.

(** ** Instances *)

#[export] Instance typing_factory : EngineFactory Engine := { Create := NewEngine }.
#[export] Program Instance typing_factory_laws : EngineFactoryLaws Engine := {}.
Next Obligation.
  intros cfg. split; [|constructor]. by apply (bool_decide_unpack _).
Qed.
Next Obligation. done. Qed.

(** ** The scene *)

(** A moment in a window that takes text, with nothing held down. *)
Definition moment (tick : Z) (disk : Disk) : Moment :=
  mkMoment (Some 1) false false false false false 0 0 tick 0 0 false false [] false disk 7 true false.

(** The block of a main process that routes to text services. *)
Definition routed_block : SharedState :=
  { InitDefaults with ss_epoch := 2;
    ss_flags := Z.lor (Z.lor VIETNAMESE_MODE ENGINE_ENABLED) TSF_ACTIVE }.

Abbreviation Service := (KeySink Engine View Sheet.range).
(** The service of a window whose text is [before], the caret behind it. *)
Definition sheet_of (before : wstring) : View := mkView before (length before, 0%nat) None.
Definition opened (block : SharedState) (before : wstring) : Service :=
  let m := moment 1000 None in
  let s := new_sink (NewController m (sheet_of before) (Some block)) in
  (OnTestKeyDown m 16 (OnSetFocus m true s)).2.

Definition letters_of (tick : Z) (s : wstring) : list (Moment * Z) :=
  (fun c => (moment tick None, towupper c)) <$> s.
Abbreviation text_of s := (v_text (doc_ (ctl s))).

(** ** Words *)

(** The service in front of "ab ". *)
Definition in_front : Service := opened routed_block (wstr "ab ").
Definition word_of_keys : Engine :=
  letters (letters_of 1100 (wstr "vieetj")) (engine_ (ctl in_front)).

Lemma in_front_steady t : steady (moment t None) (ctl in_front).
Proof. split; [split|..]; try (split_and!); by vm_compute. Qed.

Lemma word_is_typed_witness :
  text_of (press_all (letters_of 1100 (wstr "vieetj")) in_front).2 =
    wstr "ab " ++ [118; 105; 7879; 116] /\
  let '(eaten, s1) := press_all (letters_of 1100 (wstr "vieetj")) in_front in
  let '(space_eaten, s2) := press (moment 1200 None) VK_SPACE s1 in
  eaten = true /\
  v_text (view (doc_ (ctl s1))) = wstr "ab " ++ InputEngine.Peek word_of_keys ++ [] /\
  space_eaten = true /\
  v_text (view (doc_ (ctl s2))) = wstr "ab " ++ spaced word_of_keys ++ [] /\
  caret_at (3 + length (spaced word_of_keys)) (doc_ (ctl s2)) /\
  Resting (mgr_ (ctl s2)) (doc_ (ctl s2)) /\ InputEngine.Count (engine_ (ctl s2)) = 0%nat.
Proof.
  split; [vm_compute; reflexivity|].
  apply (word_is_typed (wstr "ab ") [] in_front (letters_of 1100 (wstr "vieetj")) (moment 1200 None)).
  - done.
  - apply Forall_fmap, Forall_forall. intros c Hc. split; [apply in_front_steady|].
    revert c Hc. apply Forall_forall, (bool_decide_unpack _). vm_compute. exact I.
  - apply in_front_steady.
  - vm_compute. reflexivity.
  - vm_compute. reflexivity.
  - apply (not_begun _ _ _ []); [vm_compute; reflexivity|right; vm_compute; reflexivity| |
      vm_compute; reflexivity|vm_compute; reflexivity].
    split; vm_compute; reflexivity.
  - split; [by apply (bool_decide_unpack _); vm_compute|constructor].
  - vm_compute. reflexivity.
  - vm_compute. reflexivity.
  - vm_compute. reflexivity.
Defined.

(** Keys are steps: the conditions of a step are computed. *)
Definition settled_b (m : Moment) (s : Service) : bool :=
  let u := macroUndoState_ (macros_ (ctl s)) in
  negb (IsComposing (ctl s)) || negb (mu_active u) ||
  (kMacroUndoTimeoutMs <? u32_sub (m_tick m) (mu_timestamp u)).
Lemma settled_b_sound m s : settled_b m s = true -> settled m (ctl s).
Proof.
  unfold settled_b, settled, young. cbv zeta. intros H Hc [Ha Hle]. rewrite Hc, Ha in H. cbn in H.
  apply Z.ltb_lt in H. lia.
Qed.

Definition may_reopen (m : Moment) (vk : Z) (s : Service) : bool :=
  let u := macroUndoState_ (macros_ (ctl s)) in
  (vk <>w VK_BACK) || bool_decide (pendingReviveRange_ (ctl s) = None) || negb (mu_active u) ||
  ((0 <=? mu_timestamp u) && (mu_timestamp u + kMacroUndoTimeoutMs <? m_tick m)).
Lemma may_reopen_sound m vk s : may_reopen m vk s = true -> unless_reopening m vk s.
Proof.
  unfold may_reopen, unless_reopening, young. cbv zeta. intros H -> Hp n [Hn Hw] [Ha Hle].
  rewrite bool_decide_eq_false_2, Ha in H by done. cbn in H.
  apply andb_true_iff in H as [H1%Z.leb_le H2%Z.ltb_lt]. unfold u32_sub in Hle.
  rewrite Z.mod_small in Hle by (unfold kMacroUndoTimeoutMs in *; lia). lia.
Qed.

Fixpoint steps_through (t : Z) (ks : list (Moment * Z)) (s : Service) : bool :=
  match ks with
  | [] => true
  | (m, vk) :: ks =>
      bool_decide (m_context m <> None) && (t <=? m_tick m) && (m_tick m <? 2 ^ 32) &&
      may_reopen m vk (OnTestKeyDown m vk s).2 && steps_through (m_tick m) ks (press m vk s).2
  end.
Definition last_tick (t : Z) (ks : list (Moment * Z)) : Z :=
  default t ((fun k : Moment * Z => m_tick k.1) <$> last ks).
Lemma press_all_steps ks t s :
  steps_through t ks s = true -> rtc step (t, s) (last_tick t ks, (press_all ks s).2).
Proof.
  revert t s. induction ks as [|[m vk] ks IH]; intros t s H; [apply rtc_refl|].
  cbn [steps_through] in H. rewrite !andb_true_iff, bool_decide_eq_true in H.
  destruct H as [[[[Hm H1%Z.leb_le] H2%Z.ltb_lt] H3%may_reopen_sound] H4%IH].
  assert (Hp : rtc step (t, s) (m_tick m, (press m vk s).2)).
  { unfold press in *. eapply rtc_l; [by apply (step_test m vk)|].
    destruct (OnTestKeyDown m vk s) as [claimed s1]. cbn [snd] in *. destruct claimed; [|apply rtc_refl].
    eapply rtc_l; [|apply rtc_refl]. apply (step_down m vk); [done|split; [lia|done]|done]. }
  assert (El : last_tick t ((m, vk) :: ks) = last_tick (m_tick m) ks)
    by (unfold last_tick; rewrite last_cons; by destruct (last ks)).
  rewrite El. cbn [press_all]. destruct (press m vk s) as [e1 s1]. cbn [snd] in *.
  destruct (press_all ks s1) as [e2 s2]. cbn [snd] in *. by etransitivity.
Qed.

(** From the first focus to the middle of a word. *)
Definition focused : Service :=
  OnSetFocus (moment 1000 None) true
    (new_sink (NewController (moment 1000 None) (sheet_of (wstr "ab ")) (Some routed_block))).
Lemma word_stays_on_screen_witness :
  IsComposing (ctl (press_all (letters_of 1100 (wstr "vie")) focused).2) = true /\
  in_step (ctl (press_all (letters_of 1100 (wstr "vie")) focused).2).
Proof.
  split; [vm_compute; reflexivity|].
  apply (word_stays_on_screen (moment 1000 None) (sheet_of (wstr "ab ")) (Some routed_block)
           (last_tick 1000 (letters_of 1100 (wstr "vie")))).
  - reflexivity.
  - eapply rtc_l; [by apply (step_focus (moment 1000 None) true)|].
    apply press_all_steps. vm_compute. reflexivity.
Defined.

(** ** Undo *)

Definition undo_flags : Z :=
  Z.lor (Z.lor MACRO_ENABLED MACRO_UNDO_ON_BACKSPACE) (Z.lor ESC_RESTORE_RAW MODERN_ORTHO).
Definition undo_block : SharedState := SetFeatureFlags undo_flags routed_block.
Definition vn_disk : Disk := Some (default_config, {[ wstr "vn" := wstr "Vietnam" ]}).

Definition with_disk (before : wstring) : Service :=
  let m := moment 1000 vn_disk in
  let s := new_sink (NewController m (sheet_of before) (Some undo_block)) in
  (OnTestKeyDown m 16 (OnSetFocus m true s)).2.
Definition keys (t : Z) (vks : list Z) : list (Moment * Z) := (fun vk => (moment t vn_disk, vk)) <$> vks.
Definition after_keys (t : Z) (vks : list Z) (s : Service) : Service := (press_all (keys t vks) s).2.

Lemma reached_Safe t0 t vks s :
  Safe t0 (ctl s) -> steps_through t0 (keys t vks) s = true ->
  Safe (last_tick t0 (keys t vks)) (ctl (after_keys t vks s)).
Proof. intros Hi Hs. exact (steps_Safe _ _ (press_all_steps _ _ _ Hs) Hi). Qed.
(** The first focus and a test of Shift. *)
Lemma opened_Safe m s0 :
  m_context m <> None -> comes_after 1000 m -> Safe 1000 (ctl s0) ->
  Safe (m_tick m) (ctl (OnTestKeyDown m 16 (OnSetFocus m true s0)).2).
Proof.
  intros Hm Ht H0. apply (step_Safe (m_tick m) (OnSetFocus m true s0)).
  - apply step_test; [done|]. destruct Ht. split; [lia|done].
  - apply (step_Safe 1000 s0); [by apply step_focus|done].
Qed.
Lemma with_disk_Safe : Safe 1000 (ctl (with_disk (wstr "ab "))).
Proof.
  apply (opened_Safe (moment 1000 vn_disk)); [done|done|]. by apply NewController_Safe.
Qed.

(** "vn" and a space give "Vietnam "; the backspace gives "vn" again. *)
Definition expanded_vn : Service := after_keys 1100 [86; 78; 32] (with_disk (wstr "ab ")).

Lemma UndoMacro_exact_witness :
  text_of expanded_vn = wstr "ab Vietnam " /\
  (UndoMacro (moment 1200 vn_disk) (ctl expanded_vn)).1 = true /\
  let u := macroUndoState_ (macros_ (ctl expanded_vn)) in
  let '(undone, c') := UndoMacro (moment 1200 vn_disk) (ctl expanded_vn) in
  engine_ c' = engine_ (ctl expanded_vn) /\ mgr_ c' = mgr_ (ctl expanded_vn) /\
  if undone
  then replaced_at_caret (mu_expansion u) (mu_shortcut u) (doc_ (ctl expanded_vn)) (doc_ c') /\
       rawMacroBuffer_ (macros_ c') = mu_shortcut u /\ tempMacroOff_ (macros_ c') = true /\
       HasMacroUndo (moment 1200 vn_disk) c' = false
  else doc_ c' = doc_ (ctl expanded_vn).
Proof.
  split; [vm_compute; reflexivity|]. split; [vm_compute; reflexivity|].
  apply (UndoMacro_exact (moment 1200 vn_disk) (ctl expanded_vn)).
  - apply (reached_Safe 1000 1100 [86; 78; 32]); [apply with_disk_Safe|vm_compute; reflexivity].
  - apply settled_b_sound. vm_compute. reflexivity.
  - intros _. vm_compute. reflexivity.
Defined.

(** A word, its space, the backspace the host gets, and the window is open. *)
Definition host_text (t : wstring) (sel : nat * nat) (s : Service) : Service :=
  on_ctl (set_doc (mkView t sel None)) s.
Definition before_escape : Service :=
  after_keys 1300 [8] (after_keys 1200 [86; 73; 69; 69; 84; 74; 32] (with_disk (wstr "ab "))).
Definition viet : wstring := [118; 105; 7879; 116].
(** The host has erased the space; and the user may have selected text since. *)
Definition primed : Service := host_text (wstr "ab " ++ viet) (7, 0)%nat before_escape.
Definition selecting : Service := host_text (wstr "ab " ++ viet ++ wstr "xyz") (7, 3)%nat before_escape.

Lemma before_escape_Inv : Inv (ctl before_escape).
Proof.
  unfold before_escape. apply (reached_Safe 1200 1300 [8]); [|vm_compute; reflexivity].
  apply (reached_Safe 1000 1200 [86; 73; 69; 69; 84; 74; 32]); [apply with_disk_Safe|].
  vm_compute. reflexivity.
Qed.
Lemma host_text_Inv t sel : Inv (ctl (host_text t sel before_escape)).
Proof.
  apply host_edit_Inv; [apply before_escape_Inv|].
  assert (E1 : IsComposing (ctl before_escape) = false) by (vm_compute; reflexivity).
  unfold host_edit. by rewrite E1.
Qed.

Lemma TryRestoreLastCommitRaw_exact_witness :
  let '(restored, c') := TryRestoreLastCommitRaw (moment 1400 vn_disk) (ctl primed) in
  restored = true /\ v_text (doc_ c') = wstr "ab vieetj" /\
  (engine_ c' = engine_ (ctl primed) /\ mgr_ c' = mgr_ (ctl primed) /\
   (IsCommitUndoPrimed (ctl primed) = true -> commitUndoState_ c' = UndoIdle /\ lastCommit_ c' = no_commit) /\
   if restored
   then IsCommitUndoPrimed (ctl primed) = true /\ WithinUndoWindow (moment 1400 vn_disk) (ctl primed) = true /\
        exists before selected after,
          v_text (view (doc_ (ctl primed))) =
            before ++ committed_body (lastCommit_ (ctl primed)) ++ selected ++ after /\
          v_selection (view (doc_ (ctl primed))) =
            (length before + length (committed_body (lastCommit_ (ctl primed))), length selected)%nat /\
          v_text (view (doc_ c')) = before ++ lc_rawInput (lastCommit_ (ctl primed)) ++ after /\
          caret_at (length before + length (lc_rawInput (lastCommit_ (ctl primed)))) (doc_ c')
   else doc_ c' = doc_ (ctl primed)).
Proof.
  assert (H1 : Inv (ctl primed)) by by apply host_text_Inv.
  assert (H2 : IsComposing (ctl primed) = false) by (vm_compute; reflexivity).
  pose proof (TryRestoreLastCommitRaw_exact (moment 1400 vn_disk) (ctl primed) H1 H2) as H.
  assert (E1 : (TryRestoreLastCommitRaw (moment 1400 vn_disk) (ctl primed)).1 = true /\
    v_text (doc_ (TryRestoreLastCommitRaw (moment 1400 vn_disk) (ctl primed)).2) = wstr "ab vieetj")
    by (vm_compute; by split).
  destruct (TryRestoreLastCommitRaw _ _) as [b c'].
  split; [apply E1|]. split; [apply E1|exact H].
Defined.

(** ** Findings *)

(** The escape does not look at the selection: what is selected behind the word goes
    with it. *)
Lemma escape_deletes_selection :
  text_of selecting = wstr "ab " ++ viet ++ wstr "xyz" /\
  text_of (after_keys 1400 [27] selecting) = wstr "ab vieetj".
Proof. by split; vm_compute. Qed.

(** A word that was there before is reopened by a key: the engine was seeded with
    the text and its raw keys begin with that key, so an escape leaves only it. *)
Lemma escape_after_revive_loses_word :
  text_of (after_keys 1100 [70] (with_disk [103; 245])) = [103; 242] /\
  text_of (after_keys 1200 [27] (after_keys 1100 [70] (with_disk [103; 245]))) = wstr "f".
Proof. by split; vm_compute. Qed.

(** ** A configuration in the middle of a word *)

(** VNI is published while "vie" is composed in Telex. *)
Definition vni_block : SharedState := { undo_block with ss_epoch := 4; ss_inputMethod := 1 }.
Definition in_word : Service :=
  on_ctl (set_block (Some vni_block)) (after_keys 1100 [86; 73; 69] (with_disk (wstr "ab "))).

Lemma in_word_Inv : Inv (ctl in_word).
Proof.
  apply (step_Safe 1100 (after_keys 1100 [86; 73; 69] (with_disk (wstr "ab "))) 1100); [apply step_block|].
  apply (reached_Safe 1000 1100 [86; 73; 69]); [apply with_disk_Safe|vm_compute; reflexivity].
Qed.

Lemma settings_wait_for_word_witness :
  let m := moment 1200 vn_disk in
  let c := ctl in_word in
  let c1 := (CheckConfigEvent m false c).2 in
  let c2 := ControllerCommit m c1 in
  inputMethod (config c1) = Telex /\ inputMethod (config c2) = VNI /\
  (engine_ c1 = engine_ c /\ mgr_ c1 = mgr_ c /\ doc_ c1 = doc_ c /\
   but_triggers (config c) (config c1) /\
   but_triggers (shared_config vni_block (config c)) (config c2) /\
   engine_ c2 = Create (config c2) /\
   hidePreeditUnderline_ (mgr_ c2) = hidePreeditUnderline (config c2)).
Proof.
  cbv zeta. split; [vm_compute; reflexivity|]. split; [vm_compute; reflexivity|].
  apply (settings_wait_for_word (moment 1200 vn_disk) (moment 1200 vn_disk) vni_block (ctl in_word)).
  - apply in_word_Inv.
  - apply settled_b_sound. vm_compute. reflexivity.
  - vm_compute. reflexivity.
  - vm_compute. reflexivity.
  - reflexivity.
  - split; [split; vm_compute; [discriminate|reflexivity]|reflexivity].
  - reflexivity.
  - vm_compute. reflexivity.
  - vm_compute. reflexivity.
  - vm_compute. discriminate.
  - done.
Defined.

(** ** The native conversion *)

#[export] Instance sheet_convert : ConvertContext View Sheet.range := {|
  GetTextMove := fun r n d =>
    let r := clip (v_text d) r in
    let k := Nat.min n r.2 in Some (take n (piece r (v_text d)), (r.1 + k, r.2 - k)%nat);
  StartMarker := fun r d => Some ((clip (v_text d) r).1, 0%nat);
  ShiftEnd := fun r z d =>
    let r := clip (v_text d) r in
    let k := Nat.min (Z.to_nat z) (length (v_text d) - (r.1 + r.2)) in
    Some (Z.of_nat k, (r.1, r.2 + k)%nat);
  SameStart := fun r r' d => Some (bool_decide ((clip (v_text d) r).1 = (clip (v_text d) r').1));
  SameEnd := fun r r' d =>
    let r := clip (v_text d) r in let r' := clip (v_text d) r' in
    Some (bool_decide (r.1 + r.2 = r'.1 + r'.2)%nat);
  RefusesSync := fun _ => false
|}.

#[export] Instance sheet_plain_convert : PlainConvert View Sheet.range.
Proof.
  split.
  - intros r n d. cbv zeta. eexists. split; [reflexivity|]. apply clip_id.
    pose proof (clip_inside (v_text d) r) as H. unfold inside in *. cbn in *. lia.
  - intros r d. eexists. split; [reflexivity|]. intros t r' d' [= <- <-]. apply clip_id.
    pose proof (clip_inside (v_text d) r) as H.
    pose proof (splice_inside _ t _ H) as H'. unfold inside in *. cbn in *. lia.
  - intros r n d. cbv zeta. eexists. split; [cbn; by rewrite Nat2Z.id|]. apply clip_id.
    pose proof (clip_inside (v_text d) r) as H. unfold inside in *. cbn in *. lia.
  - done.
  - done.
  - by intros r r' d d' [= <-].
Qed.

(** Upper and lower case of "Abc", and the original again, at Ctrl+Alt+Q: the settings
    come through the block, the focus registers the key, a key is tested first. *)
Definition cases : ConvertConfig :=
  mkConvert true true false false false false true true false 0 0 (mkHotkey true false true false 81).
Definition chosen : View := mkView (wstr "x Abc y") (2, 3)%nat None.
Definition converting : Service :=
  let m := moment 1000 None in
  let s := new_sink (NewController m chosen (Some (SetConvertConfig cases routed_block))) in
  (OnTestKeyDown m 16 (OnSetFocus m true (Advise m true s).2)).2.
Definition conversion_keys (ticks : list Z) : list Moment := (fun t => moment t None) <$> ticks.

Lemma cases_fit i :
  step_text [QcUpper; QcLower] cases i (wstr "Abc") <> [] /\
  (length (step_text [QcUpper; QcLower] cases i (wstr "Abc")) <= kMaxSelectionChars)%nat.
Proof.
  set (t := step_text _ _ _ _).
  assert (Hi : t ∈ [wstr "Abc"; wstr "ABC"; wstr "abc"]).
  { unfold t, step_text. destruct (i <? 0); [by left|].
    destruct (Z.to_nat i) as [|[|k]]; [right; left|right; right; left|left]. }
  assert (Ht : t <> [] /\ (length t = 3)%nat).
  { revert Hi. rewrite !elem_of_cons, elem_of_nil. by intros [->|[->|[->|[]]]]. }
  split; [apply Ht|]. rewrite (proj2 Ht). unfold kMaxSelectionChars. lia.
Qed.

Lemma converting_undisturbed t : undisturbed (moment t None) (ctl converting).
Proof. split; try (split_and!); by vm_compute. Qed.

Lemma conversion_cycles_witness :
  text_of (presses (conversion_keys [1100]) converting).2 = wstr "x ABC y" /\
  let '(eaten, s') := presses (conversion_keys [1100; 1200; 1300]) converting in
  eaten = true /\
  selects (wstr "x ") (step_text [QcUpper; QcLower] cases (index_of_press 2 2) (wstr "Abc"))
    (wstr " y") (doc_ (ctl s')) /\
  step_text [QcUpper; QcLower] cases (index_of_press 2 2) (wstr "Abc") = wstr "Abc".
Proof.
  split; [vm_compute; reflexivity|].
  assert (Ec : convertConfig_ (settings_ (ctl converting)) = cases) by (vm_compute; reflexivity).
  pose proof (conversion_cycles (wstr "x ") (wstr "Abc") (wstr " y") (moment 1100 None)
                (conversion_keys [1200; 1300]) converting) as H.
  cbv zeta in H. rewrite Ec in H.
  change (GetEnabledQuickConvertOptions cases) with [QcUpper; QcLower] in H.
  apply H; clear H.
  - reflexivity.
  - reflexivity.
  - discriminate.
  - exact cases_fit.
  - split; vm_compute; reflexivity.
  - do 3 (apply Forall_cons; split; [apply converting_undisturbed|]). apply Forall_nil_2.
  - split; vm_compute; reflexivity.
  - vm_compute. reflexivity.
  - split; [by vm_compute|]. split; [by vm_compute|done].
Defined.
