(* ===== verification/Utf8.v ===== *)
(** * UTF-8 and UTF-16 (src/src/core/WinStrings.h)

    The two conversions are the platform's.  What the program relies on is that a
    wide string without an unpaired surrogate and without a NUL comes back.
    [Utf8.standard] is the standard encoding, which satisfies it. *)

From Stdlib Require Import Strings.String.
From S2P Require Import Prelude Utf16.
Open Scope Z_scope.
Open Scope list_scope.

Class Utf8Platform := {
  WideToUtf8 : wstring -> string;
  Utf8ToWide : string -> wstring
}.

Definition wide_ok (w : wstring) : Prop :=
  Forall (fun c => 0 < c < 0x10000) w /\ HasInvalidSurrogates w = false.
#[export] Instance wide_ok_dec w : Decision (wide_ok w).
Proof. unfold wide_ok. apply _. Defined.

Class Utf8Laws (U : Utf8Platform) : Prop := {
  utf8_roundtrip w : wide_ok w -> Utf8ToWide (WideToUtf8 w) = w;
  utf8_empty : WideToUtf8 [] = EmptyString
}.

Lemma WideToUtf8_inj `{Utf8Laws} a b :
  wide_ok a -> wide_ok b -> WideToUtf8 a = WideToUtf8 b -> a = b.
Proof. intros Ha Hb E. by rewrite <- (utf8_roundtrip a), E, utf8_roundtrip. Qed.

Lemma wide_ok_nil : wide_ok [].
Proof. by split. Qed.

(** ** The standard encoding *)

Module Utf8.

Definition byte (z : Z) : ascii := ascii_of_N (Z.to_N z).
Definition byte_value (a : ascii) : Z := Z.of_N (N_of_ascii a).

Lemma byte_value_byte z : 0 <= z < 256 -> byte_value (byte z) = z.
Proof. intros H. unfold byte_value, byte. rewrite N_ascii_embedding by lia. lia. Qed.

Definition encode_scalar (cp : Z) : list Z :=
  if cp <? 0x80 then [cp]
  else if cp <? 0x800 then [0xC0 + cp / 64; 0x80 + cp mod 64]
  else if cp <? 0x10000 then [0xE0 + cp / 4096; 0x80 + (cp / 64) mod 64; 0x80 + cp mod 64]
  else [0xF0 + cp / 262144; 0x80 + (cp / 4096) mod 64; 0x80 + (cp / 64) mod 64; 0x80 + cp mod 64].

Fixpoint decode (bs : list Z) : list Z :=
  match bs with
  | [] => []
  | b :: bs =>
      if b <? 0x80 then b :: decode bs
      else if b <? 0xE0 then
        match bs with
        | c :: bs => (b - 0xC0) * 64 + (c - 0x80) :: decode bs
        | [] => []
        end
      else if b <? 0xF0 then
        match bs with
        | c :: d :: bs => (b - 0xE0) * 4096 + (c - 0x80) * 64 + (d - 0x80) :: decode bs
        | _ => []
        end
      else
        match bs with
        | c :: d :: e :: bs =>
            (b - 0xF0) * 262144 + (c - 0x80) * 4096 + (d - 0x80) * 64 + (e - 0x80) :: decode bs
        | _ => []
        end
  end.

Definition scalar (cp : Z) : Prop := 0 < cp < 0x110000.

Lemma decode_encode_scalar cp bs :
  scalar cp -> decode (encode_scalar cp ++ bs) = cp :: decode bs.
Proof.
  unfold scalar, encode_scalar. intros H.
  pose proof (Z.div_mod cp 64 ltac:(lia)). pose proof (Z.mod_pos_bound cp 64 ltac:(lia)).
  pose proof (Z.div_mod (cp / 64) 64 ltac:(lia)). pose proof (Z.mod_pos_bound (cp / 64) 64 ltac:(lia)).
  pose proof (Z.div_mod (cp / 64 / 64) 64 ltac:(lia)).
  pose proof (Z.mod_pos_bound (cp / 64 / 64) 64 ltac:(lia)).
  assert (E1 : cp / 4096 = cp / 64 / 64) by by rewrite Z.div_div by lia.
  assert (E2 : cp / 262144 = cp / 64 / 64 / 64) by by rewrite !Z.div_div by lia.
  destruct (Z.ltb_spec cp 0x80); [|destruct (Z.ltb_spec cp 0x800);
    [|destruct (Z.ltb_spec cp 0x10000)]]; cbn [app decode]; rewrite ?E1, ?E2;
    repeat match goal with |- context [?a <? ?b] => destruct (Z.ltb_spec a b); try lia end;
    f_equal; lia.
Qed.

Lemma encode_scalar_bytes cp : scalar cp -> Forall (fun b => 0 <= b < 256) (encode_scalar cp).
Proof.
  unfold scalar, encode_scalar. intros H.
  assert (forall z, 0 <= z mod 64 < 64) by (intros; apply Z.mod_pos_bound; lia).
  assert (D : forall m k, 0 < m -> cp < m * k -> 0 <= cp / m < k)
    by (intros; split; [apply Z.div_pos; lia|by apply Z.div_lt_upper_bound]).
  destruct (Z.ltb_spec cp 0x80); [by constructor; [lia|]|].
  destruct (Z.ltb_spec cp 0x800); [pose proof (D 64 32 ltac:(lia) ltac:(lia))|destruct (Z.ltb_spec cp 0x10000);
    [pose proof (D 4096 16 ltac:(lia) ltac:(lia))|pose proof (D 262144 8 ltac:(lia) ltac:(lia))]];
    repeat apply List.Forall_cons; try apply List.Forall_nil;
    try match goal with |- context [?z mod 64] => pose proof (H0 z) end; lia.
Qed.

Definition to_utf16 (cp : Z) : wstring :=
  if cp <? 0x10000 then [cp]
  else [0xD800 + (cp - 0x10000) / 1024; 0xDC00 + (cp - 0x10000) mod 1024].

#[export] Instance standard : Utf8Platform := {|
  WideToUtf8 := fun w => string_of_list_ascii (byte <$> (scalars w ≫= encode_scalar));
  Utf8ToWide := fun s => decode (byte_value <$> list_ascii_of_string s) ≫= to_utf16
|}.

Lemma decode_encode cps : Forall scalar cps -> decode (cps ≫= encode_scalar) = cps.
Proof.
  induction 1 as [|cp cps Hc _ IH]; [done|]. csimpl. by rewrite decode_encode_scalar, IH.
Qed.
Lemma encode_bytes cps :
  Forall scalar cps -> byte_value <$> (byte <$> (cps ≫= encode_scalar)) = cps ≫= encode_scalar.
Proof.
  intros H. rewrite <- list_fmap_compose. etransitivity; [|apply list_fmap_id].
  apply list_fmap_ext. intros i b Hb. apply byte_value_byte.
  apply list_elem_of_lookup_2, list_elem_of_bind in Hb as (cp & Hb & Hc).
  apply list_elem_of_In in Hb, Hc. rewrite Forall_forall in H.
  pose proof (encode_scalar_bytes cp (H cp Hc)) as F. rewrite Forall_forall in F. by apply F.
Qed.

(** The code points of a string, and back. *)
Lemma scalars_wide w :
  wide_ok w -> Forall scalar (scalars w) /\ scalars w ≫= to_utf16 = w.
Proof.
  intros [H Hs]. rewrite HasInvalidSurrogates_spec in Hs.
  remember (length w) as n eqn:Hn. assert (Hle : (length w <= n)%nat) by lia. clear Hn.
  revert w Hle H Hs. induction n as [|n IH]; intros [|c w] Hle H Hs; try done; [simpl in Hle; lia|].
  assert (Hu : Forall is_u16 (c :: w)) by (eapply List.Forall_impl; [|exact H]; unfold is_u16; lia).
  pose proof (DecodeNextScalar_cases c w Hu) as C. pose proof (DecodeNextScalar_shrinks c w) as Sh.
  rewrite scalars_cons in *. destruct (DecodeNextScalar (c :: w)) as [cp rest]. simpl in Sh, Hle.
  destruct C as [_ C]. cbn [fst snd existsb] in *. apply orb_false_iff in Hs as [Hcp Hs].
  inversion H as [|? ? Hc Hw]; subst.
  assert (Forall (fun c => 0 < c < 0x10000) rest).
  { destruct C as [(_ & _ & ->)|(c2 & -> & _)]; [done|]. by inversion Hw. }
  destruct (IH rest ltac:(lia) ltac:(done) Hs) as [F E].
  split.
  - constructor; [|done]. unfold scalar.
    destruct C as [(? & -> & _)|(c2 & _ & ? & ? & ->)]; lia.
  - csimpl. rewrite E. unfold to_utf16.
    destruct C as [(? & -> & ->)|(c2 & -> & ? & ? & ->)].
    + by destruct (Z.ltb_spec c 0x10000); [|lia].
    + destruct (Z.ltb_spec (0x10000 + (c - 0xD800) * 1024 + (c2 - 0xDC00)) 0x10000); [lia|].
      replace (0x10000 + (c - 0xD800) * 1024 + (c2 - 0xDC00) - 0x10000)
        with ((c2 - 0xDC00) + (c - 0xD800) * 1024) by lia.
      rewrite Z.div_add, Z.mod_add, Z.div_small, Z.mod_small by lia.
      apply (f_equal2 cons); [lia|]. apply (f_equal2 cons); [lia|done].
Qed.

#[export] Instance standard_laws : Utf8Laws standard.
Proof.
  split; [|done]. intros w Hw. destruct (scalars_wide w Hw) as [F E].
  unfold Utf8ToWide, WideToUtf8, standard.
  by rewrite list_ascii_of_string_of_list_ascii, encode_bytes, decode_encode.
Qed.

End Utf8.
