(* ===== verification/ConfigSections.v ===== *)
(** * The sections of config.toml (src/src/core/config/ConfigManager.cpp)

    What each [Load...] of the configuration manager reads from the parsed table of
    the file and what each [Save...] puts into it.  Parsing, writing and the cache
    are [ConfigStore]'s. *)

From Stdlib Require Import Strings.String.
From stdpp Require Import gmap sorting.
From S2P Require Import Prelude Action Config CodeTable QuickConvert Toml Hotkey Utf16 Utf8.
From coqutil Require Import Datatypes.RecordSettersUsingExistingGetters.
Open Scope Z_scope.
Open Scope list_scope.

(** ** Integer conversions *)

Definition u8 (z : Z) : Z := z mod 2 ^ 8.
Definition s8 (z : Z) : Z := (z + 2 ^ 7) mod 2 ^ 8 - 2 ^ 7.
Definition s32 (z : Z) : Z := (z + 2 ^ 31) mod 2 ^ 32 - 2 ^ 31.
Definition s64 (z : Z) : Z := (z + 2 ^ 63) mod 2 ^ 64 - 2 ^ 63.
Definition INT32_MIN : Z := - 2 ^ 31.

(** Security limits. *)
Definition kMaxMacroKeyLen : nat := 32.
Definition kMaxMacroValueLen : Z := 20480.
Definition kMaxPerAppEntries : nat := 256.
Definition kMaxAppListEntries : nat := 1000.

(** A table with some keys assigned in turn. *)
Definition table_of (rows : list (string * TomlNode)) : TomlTable :=
  foldl (fun t '(k, n) => toml_assign k n t) [] rows.

(** ** Data *)

(** [UIConfig] (src/src/core/UIConfig.h). *)
Record UIConfig := mkUI { showAdvanced : bool; backgroundOpacity : Z; pinned : bool }.
Definition default_ui : UIConfig := mkUI false 80 false.

(** [SystemConfig] (src/src/core/SystemConfig.h). *)
Record SystemConfig := mkSystemConfig {
  runAtStartup : bool; runAsAdmin : bool; showOnStartup : bool; desktopShortcut : bool;
  forceLightTheme : bool; language : Z; iconStyle : Z; customColorV : Z; customColorE : Z;
  showTsfIndicator : bool; showFloatingIcon : bool; floatingIconX : Z; floatingIconY : Z;
  startupMode : Z; autoCheckUpdate : bool; watchdogEnabled : bool; browserExtensionEnabled : bool
}.
Definition default_system : SystemConfig :=
  mkSystemConfig false false true false false 0 0 0 0 false false INT32_MIN INT32_MIN 0 true false false.

Record AppOverrideEntry := mkOverride { ov_inputMethod : Z; encodingOverride : Z; sendMethod : Z }.

Section Sections.
Context {U : Utf8Platform}.
Implicit Types (t : TomlTable).

(** ** Typing *)

Definition MethodToString (m : InputMethod) : string :=
  match m with
  | VNI => "vni" | SimpleTelex => "simple_telex" | Combined => "combined"
  | UserDefined => "user_defined" | Telex => "telex"
  end.
Definition MethodOfString (s : string) : InputMethod :=
  if s == "vni"%string then VNI
  else if s == "simple_telex"%string then SimpleTelex
  else if s == "combined"%string then Combined
  else if s == "user_defined"%string then UserDefined
  else Telex.

Definition code_tables : list CodeTable := [Unicode; TCVN3; VNIWindows; UnicodeCompound; VietnameseLocale].

(** The rows of a key map: the first byte of a key is the character. *)
Definition LoadCustomKeyMap (km : TomlTable) (config : TypingConfig) : TypingConfig :=
  foldl (fun config '(key, val) =>
    match key with
    | EmptyString => config
    | String c _ =>
        let k := nat_of_ascii c in
        if (128 <=? k)%nat then config
        else
          match as_string val with
          | Some actionStr =>
              { config with customKeyMap ::= <[k := StringToTypingAction actionStr]> }
          | None => config
          end
    end) config km.

(** [char key[2] = {i, 0}] as a string. *)
Definition key_name (i : nat) : string :=
  if (i =? 0)%nat then EmptyString else String (ascii_of_nat i) EmptyString.
Definition SaveCustomKeyMap (km : TomlTable) (config : TypingConfig) : TomlTable :=
  foldl (fun km i =>
    let action := nth i (customKeyMap config) ActNone in
    if action == ActNone then km
    else toml_assign (key_name i) (TString (TypingActionToString action)) km)
    km (seq 0 128).

Definition load_input (input : TomlTable) (config : TypingConfig) : TypingConfig :=
  let config :=
    match toml_get input "method" with
    | Some method => { config with inputMethod := MethodOfString (default "telex"%string (as_string method)) }
    | None => config
    end in
  match toml_get input "code_table" with
  | Some ct =>
      let val := default 0 (value_int ct) in
      if (0 <=? val) && (val <=? 4)
      then { config with codeTable := nth (Z.to_nat val) code_tables Unicode } else config
  | None => config
  end.

Definition load_exclusions (features : TomlTable) (acc : list wstring) : list wstring :=
  match get_array features "spell_exclusions" with
  | None => acc
  | Some arr =>
      foldl (fun acc item =>
        match as_string item with
        | None => acc
        | Some str =>
            let wide := Utf8ToWide str in
            if (2 <=? length wide)%nat then acc ++ [towlower <$> wide] else acc
        end) acc arr
  end.

Definition load_features (features : TomlTable) (config : TypingConfig) : TypingConfig :=
  let config := { config with
    spellCheckEnabled := bool_or features "spell_check" true;
    spellSuggestEnabled := bool_or features "spell_suggest" false;
    beepOnSwitch := bool_or features "beep_on_switch" false;
    smartSwitch := bool_or features "smart_switch" false;
    excludeApps := bool_or features "exclude_apps" false;
    tsfApps := bool_or features "tsf_apps" false;
    hidePreeditUnderline := bool_or features "hide_preedit_underline" false;
    optimizeLevel := u8 (int_or features "optimize_level" 0);
    modernOrtho := bool_or features "modern_ortho" true;
    autoCaps := bool_or features "auto_caps" false;
    allowZwjf := bool_or features "allow_zwjf" false;
    autoRestoreEnabled := bool_or features "auto_restore" true;
    cjkAutoSwitch := bool_or features "cjk_auto_switch" false;
    macroEnabled := bool_or features "macro_enabled" false;
    macroInEnglish := bool_or features "macro_in_english" false;
    quickConsonant := bool_or features "quick_consonant" false;
    quickStartConsonant := bool_or features "quick_start_consonant" false;
    quickEndConsonant := bool_or features "quick_end_consonant" false;
    escRestoreRawEnabled := bool_or features "esc_restore_raw" false;
    autoCapsMacro := bool_or features "auto_caps_macro" false;
    macroUndoOnBackspace := bool_or features "macro_undo_on_backspace" false;
    macroTitleCase := bool_or features "macro_title_case" false;
    allowEnglishBypass := bool_or features "allow_english_bypass" false;
    suggestKeepChars := bool_or features "suggest_keep_chars" false;
    debugLogEnabled := bool_or features "debug_log" false;
    enableToast := bool_or features "enable_toast" true;
    macroTriggerSpace := bool_or features "macro_trigger_space" true;
    macroTriggerEnter := bool_or features "macro_trigger_enter" true;
    macroTriggerTab := bool_or features "macro_trigger_tab" true;
    macroTriggerDir := bool_or features "macro_trigger_dir" true } in
  { config with spellExclusions ::= load_exclusions features }.

Definition when_table (t : TomlTable) (k : string) {A} (f : TomlTable -> A -> A) (a : A) : A :=
  match get_table t k with Some s => f s a | None => a end.

(** [LoadFromFile]. *)
Definition typing_of t : TypingConfig :=
  let config := default_config in
  let config := when_table t "input" load_input config in
  let config := when_table t "UserDefinedKeyMap" LoadCustomKeyMap config in
  let config := when_table t "features" load_features config in
  when_table t "debug"
    (fun dbg config => { config with perfHistogramEnabled := bool_or dbg "perf_histogram" false })
    config.

Definition exclusion_rows (exclusions : list wstring) : TomlArray :=
  TString ∘ WideToUtf8 <$> filter (fun excl => (2 <= length excl)%nat) exclusions.

Definition feature_rows (config : TypingConfig) : list (string * TomlNode) := [
  ("spell_check", TBoolean (spellCheckEnabled config));
  ("spell_suggest", TBoolean (spellSuggestEnabled config));
  ("beep_on_switch", TBoolean (beepOnSwitch config));
  ("smart_switch", TBoolean (smartSwitch config));
  ("exclude_apps", TBoolean (excludeApps config));
  ("tsf_apps", TBoolean (tsfApps config));
  ("hide_preedit_underline", TBoolean (hidePreeditUnderline config));
  ("optimize_level", TInteger (optimizeLevel config));
  ("modern_ortho", TBoolean (modernOrtho config));
  ("auto_caps", TBoolean (autoCaps config));
  ("allow_zwjf", TBoolean (allowZwjf config));
  ("auto_restore", TBoolean (autoRestoreEnabled config));
  ("cjk_auto_switch", TBoolean (cjkAutoSwitch config));
  ("macro_enabled", TBoolean (macroEnabled config));
  ("macro_in_english", TBoolean (macroInEnglish config));
  ("quick_consonant", TBoolean (quickConsonant config));
  ("quick_start_consonant", TBoolean (quickStartConsonant config));
  ("quick_end_consonant", TBoolean (quickEndConsonant config));
  ("esc_restore_raw", TBoolean (escRestoreRawEnabled config));
  ("auto_caps_macro", TBoolean (autoCapsMacro config));
  ("macro_undo_on_backspace", TBoolean (macroUndoOnBackspace config));
  ("macro_title_case", TBoolean (macroTitleCase config));
  ("allow_english_bypass", TBoolean (allowEnglishBypass config));
  ("suggest_keep_chars", TBoolean (suggestKeepChars config));
  ("debug_log", TBoolean (debugLogEnabled config));
  ("enable_toast", TBoolean (enableToast config));
  ("macro_trigger_space", TBoolean (macroTriggerSpace config));
  ("macro_trigger_enter", TBoolean (macroTriggerEnter config));
  ("macro_trigger_tab", TBoolean (macroTriggerTab config));
  ("macro_trigger_dir", TBoolean (macroTriggerDir config));
  ("spell_exclusions", TArray (exclusion_rows (spellExclusions config)))
]%string.

(** [SaveToFile]; the keys it erases are not in the new table. *)
Definition put_typing (config : TypingConfig) t : TomlTable :=
  let input := table_of [("method"%string, TString (MethodToString (inputMethod config)));
                         ("code_table"%string, TInteger (CodeTable_u8 (codeTable config)))] in
  let t := toml_assign "input" (TTable input) t in
  let km := SaveCustomKeyMap [] config in
  let t := if bool_decide (km = []) then toml_erase "UserDefinedKeyMap" t
           else toml_assign "UserDefinedKeyMap" (TTable km) t in
  toml_assign "features" (TTable (table_of (feature_rows config))) t.

(** [ImportCustomKeyMap] and [ExportCustomKeyMap], whose file is the map alone. *)
Definition ImportCustomKeyMap (t : TomlTable) (config : TypingConfig) : TypingConfig :=
  LoadCustomKeyMap t config.
Definition ExportCustomKeyMap (config : TypingConfig) : TomlTable := SaveCustomKeyMap [] config.

(** ** Appearance, system *)

Definition ui_of t : UIConfig :=
  when_table t "ui" (fun ui config =>
    {| showAdvanced := bool_or ui "show_advanced" false;
       backgroundOpacity := u8 (int_or ui "background_opacity" 80);
       pinned := bool_or ui "pinned" false |}) default_ui.
Definition put_ui (config : UIConfig) t : TomlTable :=
  toml_assign "ui" (TTable (table_of [
    ("show_advanced", TBoolean (showAdvanced config));
    ("background_opacity", TInteger (backgroundOpacity config));
    ("pinned", TBoolean (pinned config))]%string)) t.

Definition system_of t : SystemConfig :=
  when_table t "system" (fun system config =>
    {| runAtStartup := bool_or system "run_at_startup" false;
       runAsAdmin := bool_or system "run_as_admin" false;
       showOnStartup := bool_or system "show_on_startup" false;
       desktopShortcut := bool_or system "desktop_shortcut" false;
       forceLightTheme := bool_or system "force_light_theme" false;
       language := u8 (int_or system "language" 0);
       iconStyle := u8 (int_or system "icon_style" 0);
       customColorV := u32 (int64_or system "custom_color_v" 0);
       customColorE := u32 (int64_or system "custom_color_e" 0);
       showTsfIndicator := bool_or system "show_tsf_indicator" false;
       showFloatingIcon := bool_or system "show_floating_icon" false;
       floatingIconX := s32 (int64_or system "floating_icon_x" INT32_MIN);
       floatingIconY := s32 (int64_or system "floating_icon_y" INT32_MIN);
       startupMode := u8 (int_or system "startup_mode" 0);
       autoCheckUpdate := bool_or system "auto_check_update" true;
       watchdogEnabled := bool_or system "watchdog_enabled" false;
       browserExtensionEnabled := bool_or system "browser_extension_enabled" false |}) default_system.
Definition put_system (config : SystemConfig) t : TomlTable :=
  toml_assign "system" (TTable (table_of [
    ("run_at_startup", TBoolean (runAtStartup config));
    ("run_as_admin", TBoolean (runAsAdmin config));
    ("show_on_startup", TBoolean (showOnStartup config));
    ("desktop_shortcut", TBoolean (desktopShortcut config));
    ("language", TInteger (language config));
    ("icon_style", TInteger (iconStyle config));
    ("custom_color_v", TInteger (customColorV config));
    ("custom_color_e", TInteger (customColorE config));
    ("show_tsf_indicator", TBoolean (showTsfIndicator config));
    ("show_floating_icon", TBoolean (showFloatingIcon config));
    ("floating_icon_x", TInteger (floatingIconX config));
    ("floating_icon_y", TInteger (floatingIconY config));
    ("auto_check_update", TBoolean (autoCheckUpdate config));
    ("startup_mode", TInteger (startupMode config));
    ("force_light_theme", TBoolean (forceLightTheme config));
    ("watchdog_enabled", TBoolean (watchdogEnabled config));
    ("browser_extension_enabled", TBoolean (browserExtensionEnabled config))]%string)) t.

(** ** Hotkeys *)

(** The [vk] of a table, or the letter of the schema before it. *)
Definition load_vk (hotkey : TomlTable) (vk : Z) : Z :=
  match toml_get hotkey "vk" ≫= as_integer with
  | Some v => u32 v
  | None =>
      let keyStr := string_or hotkey "key" EmptyString in
      if bool_decide (keyStr = EmptyString) then vk else LegacyKeyCharToVk (Utf8ToWide keyStr)
  end.

Definition default_toggle : HotkeyConfig := mkHotkey true true false false 0.
Definition hotkey_of t : HotkeyConfig :=
  when_table t "hotkey" (fun hotkey config =>
    {| hk_ctrl := bool_or hotkey "ctrl" true; hk_shift := bool_or hotkey "shift" true;
       hk_alt := bool_or hotkey "alt" false; hk_win := bool_or hotkey "win" false;
       hk_vk := load_vk hotkey (hk_vk config) |}) default_toggle.
Definition hotkey_rows (config : HotkeyConfig) : list (string * TomlNode) := [
  ("ctrl", TBoolean (hk_ctrl config)); ("shift", TBoolean (hk_shift config));
  ("alt", TBoolean (hk_alt config)); ("win", TBoolean (hk_win config));
  ("vk", TInteger (hk_vk config))]%string.
Definition put_hotkey (config : HotkeyConfig) t : TomlTable :=
  toml_assign "hotkey" (TTable (table_of (hotkey_rows config))) t.

Definition registry_of t : HotkeyRegistry :=
  let registry := empty_registry in
  let registry := match get_array t "hotkeys" with Some arr => Load arr registry | None => registry end in
  when_table t "hotkey_state" LoadEnabled registry.
Definition put_registry (registry : HotkeyRegistry) t : TomlTable :=
  let t := toml_assign "hotkeys" (TArray (Save registry [])) t in
  let t := toml_assign "hotkey_state" (TTable (SaveEnabled registry [])) t in
  let escIsCancelTrigger := Matches registry CancelComposition kVkEscape 0 false false in
  let features := default [] (get_table t "features") in
  toml_assign "features"
    (TTable (toml_assign "esc_restore_raw" (TBoolean escIsCancelTrigger) features)) t.

(** [LoadHotkeyRegistryOrDefault], of a file that could be read. *)
Definition HasHotkeyStateSection t : bool :=
  match toml_get t "hotkey_state" with Some _ => true | None => false end.
Definition no_triggers (r : HotkeyRegistry) : bool :=
  bool_decide (TriggersFor r CancelComposition = []) && bool_decide (TriggersFor r SkipMacro = []) &&
  bool_decide (TriggersFor r ToggleEnabled = []).
Definition registry_or_default t : HotkeyRegistry :=
  let registry := registry_of t in
  if HasHotkeyStateSection t then registry
  else if no_triggers registry then Defaults else registry.

(** [ReadLegacyHotkeyToggles]. *)
Definition legacy_toggles t : bool * bool * Z :=
  when_table t "features" (fun features _ =>
    (bool_or features "esc_restore_raw" false, bool_or features "temp_off_macro_esc" false,
     match toml_get features "temp_off_method" ≫= value_int64 with
     | Some m => let v := s32 m in if (0 <=? v) && (v <=? 2) then v else 0
     | None => if bool_or features "temp_off_by_alt" false then 1 else 0
     end)) (false, false, 0).

(** [MigrateLegacyHotkeysIfNeeded] on the table of a file: the registry, and
    whether it is to be saved. *)
Definition migrate t : HotkeyRegistry * bool :=
  if HasHotkeyStateSection t then (registry_of t, false)
  else if negb (no_triggers (registry_of t)) then (registry_of t, false)
  else
    let '(escRestoreRaw, tempOffMacroEsc, tempOffMethod) := legacy_toggles t in
    let legacyAllDefault := negb escRestoreRaw && negb tempOffMacroEsc && (tempOffMethod =w 0) in
    (if legacyAllDefault then Defaults
     else FromLegacyFields escRestoreRaw tempOffMacroEsc tempOffMethod, true).

(** ** Lists of applications *)

(** A loop over an array that stops when there are enough entries. *)
Definition load_apps (add : wstring -> list wstring -> list wstring) (arr : TomlArray)
    (apps : list wstring) : list wstring :=
  foldl (fun apps item =>
    if (kMaxAppListEntries <=? length apps)%nat then apps
    else match as_string item with Some str => add (Utf8ToWide str) apps | None => apps end)
    apps arr.
Definition push_app (wide : wstring) (apps : list wstring) : list wstring := apps ++ [wide].
Definition push_new_app (wide : wstring) (apps : list wstring) : list wstring :=
  if bool_decide (wide ∈ apps) then apps else apps ++ [wide].
(** [mergeUnique]. *)
Definition merge_app (wide : wstring) (apps : list wstring) : list wstring :=
  push_new_app (towlower <$> wide) apps.
Definition when_array (t : TomlTable) (k : string) {A} (f : TomlArray -> A -> A) (a : A) : A :=
  match get_array t k with Some arr => f arr a | None => a end.

(** [LoadAllExcludedApps]: the list, the soft list of an older schema, and the
    section of the one before. *)
Definition excluded_of t : list wstring :=
  let apps := when_table t "excluded_apps" (fun section apps =>
    let apps := when_array section "list" (load_apps push_app) apps in
    when_array section "soft" (load_apps push_new_app) apps) [] in
  when_table t "excludedApps" (fun legacy apps =>
    if default true (get_boolean legacy "enabled")
    then when_array legacy "list" (load_apps merge_app) apps else apps) apps.

Definition app_rows (apps : list wstring) : TomlArray := TString ∘ WideToUtf8 <$> apps.
Definition put_excluded (apps : list wstring) t : TomlTable :=
  let arr := TArray (app_rows apps) in
  let t :=
    match get_table t "excluded_apps" with
    | Some section =>
        toml_assign "excluded_apps" (TTable (toml_erase "soft" (toml_assign "list" arr section))) t
    | None => toml_assign "excluded_apps" (TTable (table_of [("list"%string, arr)])) t
    end in
  toml_erase "excludedApps" t.

Definition forced_of t : list wstring :=
  when_table t "excluded_apps" (fun section =>
    when_array section "force_vn" (load_apps push_app)) [].
Definition put_forced (apps : list wstring) t : TomlTable :=
  let section := default [] (get_table t "excluded_apps") in
  toml_assign "excluded_apps" (TTable (toml_assign "force_vn" (TArray (app_rows apps)) section)) t.

Definition tsf_of t : list wstring :=
  when_table t "tsf_apps" (fun section => when_array section "list" (load_apps push_app)) [].
Definition put_tsf (apps : list wstring) t : TomlTable :=
  toml_assign "tsf_apps" (TTable (table_of [("list"%string, TArray (app_rows apps))])) t.

(** ** Maps *)

Definition emplace {A} (k : wstring) (a : A) (m : gmap wstring A) : gmap wstring A :=
  match m !! k with Some _ => m | None => <[k := a]> m end.

Definition load_modes (appsTbl : TomlTable) : gmap wstring bool :=
  foldl (fun apps '(key, node) =>
    if (kMaxAppListEntries <=? size apps)%nat then apps
    else
      match as_string node with
      | None => apps
      | Some modeStr =>
          let wideKey := towlower <$> Utf8ToWide key in
          if modeStr == "english"%string then
            if bool_decide (wideKey = []) then apps else emplace wideKey false apps
          else if modeStr == "vietnamese"%string then
            if bool_decide (wideKey = []) then apps else emplace wideKey true apps
          else apps
      end) ∅ appsTbl.
Definition load_english_apps (arr : TomlArray) : gmap wstring bool :=
  foldl (fun apps item =>
    if (kMaxAppListEntries <=? size apps)%nat then apps
    else
      match as_string item with
      | None => apps
      | Some str =>
          let wideKey := towlower <$> Utf8ToWide str in
          if bool_decide (wideKey = []) then apps else emplace wideKey false apps
      end) ∅ arr.

(** [LoadSmartSwitchApps]. *)
Definition smart_of t : gmap wstring bool :=
  match get_table t "smart_switch" with
  | None => ∅
  | Some smart =>
      match get_table smart "apps" with
      | Some appsTbl => load_modes appsTbl
      | None =>
          match get_array smart "english_mode_apps" with
          | Some arr => load_english_apps arr
          | None => ∅
          end
      end
  end.
(** The keys of the map in the order of wide strings. *)
Definition wide_le (a b : wstring) : Prop := lex_compare a b <= 0.
#[local] Instance wide_le_dec a b : Decision (wide_le a b).
Proof. unfold wide_le. apply _. Defined.
Definition sorted_keys {A} (m : gmap wstring A) : list wstring :=
  merge_sort wide_le (map_to_list m).*1.
Definition mode_name (isVietnamese : bool) : TomlNode :=
  TString (if isVietnamese then "vietnamese" else "english").
Definition put_smart (apps : gmap wstring bool) t : TomlTable :=
  let appsTbl := foldl (fun tbl key =>
    match apps !! key with
    | Some b => toml_insert (WideToUtf8 key) (mode_name b) tbl
    | None => tbl
    end) [] (sorted_keys apps) in
  toml_assign "smart_switch" (TTable (toml_insert "apps" (TTable appsTbl) [])) t.

(** [LoadAppOverrides]: the entries counted are the rows of the table. *)
Definition load_override (entry : TomlTable) : AppOverrideEntry :=
  {| ov_inputMethod := s8 (int_or entry "input_method" (-1));
     encodingOverride := s8 (int_or entry "encoding" (-1));
     sendMethod := s8 (int_or entry "send_method" (-1)) |}.
Definition overrides_of t : gmap wstring AppOverrideEntry :=
  when_table t "app_overrides" (fun section data =>
    foldl (fun data '(key, val) =>
      match as_table val with
      | Some entry => <[Utf8ToWide key := load_override entry]> data
      | None => data
      end) data (take kMaxPerAppEntries section)) ∅.
Definition override_rows (e : AppOverrideEntry) : list (string * TomlNode) := [
  ("input_method", TInteger (ov_inputMethod e)); ("encoding", TInteger (encodingOverride e));
  ("send_method", TInteger (sendMethod e))]%string.
Definition put_overrides (entries : gmap wstring AppOverrideEntry) t : TomlTable :=
  toml_assign "app_overrides" (TTable (table_of
    ((fun '(exe, e) => (WideToUtf8 exe, TTable (table_of (override_rows e)))) <$> map_to_list entries))) t.

Definition macros_of t : gmap wstring wstring :=
  when_table t "macros" (fun section data =>
    foldl (fun data '(key, val) =>
      match as_string val with
      | None => data
      | Some str =>
          if (kMaxMacroKeyLen <? String.length key)%nat ||
             (kMaxMacroValueLen <? Z.of_nat (String.length str)) then data
          else <[Utf8ToWide key := Utf8ToWide str]> data
      end) data section) ∅.
Definition put_macros (macros : gmap wstring wstring) t : TomlTable :=
  toml_assign "macros" (TTable (table_of
    ((fun '(key, value) => (WideToUtf8 key, TString (WideToUtf8 value))) <$> map_to_list macros))) t.

(** ** Conversion *)

Definition load_convert (convert : TomlTable) (config : ConvertConfig) : ConvertConfig :=
  let config := { config with
    allCaps := bool_or convert "all_caps" false; allLower := bool_or convert "all_lower" false;
    capsFirst := bool_or convert "caps_first" false; capsEach := bool_or convert "caps_each" false;
    removeMark := bool_or convert "remove_mark" false; alertDone := bool_or convert "alert_done" false;
    autoPaste := bool_or convert "auto_paste" false; sequential := bool_or convert "sequential" false;
    enableLog := bool_or convert "enable_log" false;
    sourceEncoding := u8 (int_or convert "source_encoding" 0);
    destEncoding := u8 (int_or convert "dest_encoding" 0) } in
  when_table convert "hotkey" (fun hk config => { config with cc_hotkey ::= fun h =>
    {| hk_ctrl := bool_or hk "ctrl" false; hk_shift := bool_or hk "shift" false;
       hk_alt := bool_or hk "alt" false; hk_win := bool_or hk "win" false;
       hk_vk := load_vk hk (hk_vk h) |} }) config.
Definition convert_of t : ConvertConfig := when_table t "convert" load_convert default_convert.
Definition convert_rows (config : ConvertConfig) : list (string * TomlNode) := [
  ("all_caps", TBoolean (allCaps config)); ("all_lower", TBoolean (allLower config));
  ("caps_first", TBoolean (capsFirst config)); ("caps_each", TBoolean (capsEach config));
  ("remove_mark", TBoolean (removeMark config)); ("alert_done", TBoolean (alertDone config));
  ("auto_paste", TBoolean (autoPaste config)); ("sequential", TBoolean (sequential config));
  ("enable_log", TBoolean (enableLog config));
  ("source_encoding", TInteger (sourceEncoding config));
  ("dest_encoding", TInteger (destEncoding config));
  ("hotkey", TTable (table_of (hotkey_rows (cc_hotkey config))))]%string.
Definition put_convert (config : ConvertConfig) t : TomlTable :=
  toml_assign "convert" (TTable (table_of (convert_rows config))) t.

(** ** The generation of the dictionary *)

Definition wire_generation_of t : Z :=
  match get_table t "internal" with
  | Some internalTbl =>
      match get_integer internalTbl "wire_generation" with
      | Some genVal => if 0 <? genVal then genVal else 1
      | None => 1
      end
  | None => 1
  end.
Definition put_wire_generation (generation : Z) t : TomlTable :=
  let internalTbl := default [] (get_table t "internal") in
  toml_assign "internal"
    (TTable (toml_assign "wire_generation" (TInteger (s64 generation)) internalTbl)) t.

(** [FormatConfigTomlForLexicon], before it is printed. *)
Definition put_lexicon (spellSuggestEnabled : bool) (spellExclusions : list wstring)
    (wireGeneration : Z) t : TomlTable :=
  let features := default [] (get_table t "features") in
  let features := toml_assign "spell_suggest" (TBoolean spellSuggestEnabled) features in
  let features := toml_assign "spell_exclusions" (TArray (app_rows spellExclusions)) features in
  let t := toml_assign "features" (TTable features) t in
  if 0 <? wireGeneration then put_wire_generation wireGeneration t else t.

End Sections.
