(* ===== verification/ConfigFacts.v ===== *)
(** * The file is a record of settings

    A file, seen through all its readers, is a record with a field for each group
    of settings, and each save sets its own field: the file refines the record. *)

From Stdlib Require Import Strings.String.
From stdpp Require Import gmap sorting.
From S2P Require Import Prelude Action Config CodeTable QuickConvert Toml Hotkey.
From S2P Require Import Utf16 Utf8 ConfigSections.
From coqutil Require Import Datatypes.RecordSettersUsingExistingGetters.
Open Scope Z_scope.
Open Scope list_scope.

Implicit Types (t : TomlTable).

(** ** Tables *)

Abbreviation keys t := (fst <$> t).

Lemma toml_get_table_of rows k :
  toml_get (table_of rows) k = toml_get (reverse rows) k.
Proof.
  unfold table_of. rewrite <- (reverse_involutive rows) at 1.
  generalize (reverse rows). clear rows. intros rows.
  induction rows as [|[k' n] rows IH]; [done|].
  rewrite reverse_cons, foldl_snoc, toml_get_assign, IH. done.
Qed.

Lemma toml_get_not_in k t : k ∉ keys t -> toml_get t k = None.
Proof.
  induction t as [|[k' n] t IH]; [done|]. csimpl. rewrite not_elem_of_cons. intros [Hne Hk].
  rewrite bool_decide_eq_false_2 by done. by apply IH.
Qed.

Lemma toml_assign_perm k n t : k ∉ keys t -> toml_assign k n t ≡ₚ (k, n) :: t.
Proof.
  induction t as [|[k' n'] t IH]; [done|]. csimpl. rewrite not_elem_of_cons. intros [Hne Hk].
  rewrite bool_decide_eq_false_2 by done. destruct (String.ltb k k'); [done|].
  rewrite IH by done. apply Permutation_swap.
Qed.

(** A table made of rows with different keys has those rows. *)
Lemma table_of_perm rows : NoDup (keys rows) -> table_of rows ≡ₚ rows.
Proof.
  intros H. rewrite <- (reverse_Permutation rows) at 2.
  assert (Hr : NoDup (keys (reverse rows))) by (by rewrite fmap_reverse, reverse_Permutation).
  unfold table_of. rewrite <- (reverse_involutive rows) at 1. clear H. revert Hr.
  generalize (reverse rows). clear rows. intros rows.
  induction rows as [|[k n] rows IH]; [done|]. csimpl. intros [Hk Hn]%NoDup_cons.
  rewrite reverse_cons, foldl_snoc, toml_assign_perm; [by rewrite IH|]. by rewrite IH.
Qed.

(** ** Reading a map back *)

Lemma foldl_insert_to_map {A} (kvs : list (wstring * A)) (m : gmap wstring A) :
  kvs ≡ₚ map_to_list m -> foldl (fun d '(k, v) => <[k := v]> d) ∅ kvs = m.
Proof.
  intros H. rewrite <- (reverse_involutive kvs).
  assert (E : forall l : list (wstring * A),
    foldl (fun d '(k, v) => <[k := v]> d) ∅ (reverse l) = (list_to_map l : gmap wstring A)).
  { induction l as [|[k v] l IH]; [done|]. by rewrite reverse_cons, foldl_snoc, IH. }
  rewrite E. symmetry. apply list_to_map_flip. by rewrite reverse_Permutation, H.
Qed.

(** The rows of a map, in the order a table has them. *)
Lemma table_of_map {A} (enc : wstring * A -> string * TomlNode) (m : gmap wstring A) rows :
  rows ≡ₚ map_to_list m ->
  (forall k v k' v', m !! k = Some v -> m !! k' = Some v' -> (enc (k, v)).1 = (enc (k', v')).1 -> k = k') ->
  exists kvs, table_of (enc <$> rows) = enc <$> kvs /\ kvs ≡ₚ map_to_list m.
Proof.
  intros Hr Hinj. assert (Hn : NoDup (keys (enc <$> rows))).
  { rewrite Hr. rewrite <- list_fmap_compose. apply NoDup_fmap_2_strong; [|apply NoDup_map_to_list].
    intros [k v] [k' v'] H H' E. apply elem_of_map_to_list in H, H'.
    assert (k = k') as <- by by eapply Hinj. congruence. }
  pose proof (table_of_perm _ Hn) as Hp.
  apply Permutation_map_inv in Hp as (kvs & E & Hp).
  exists kvs. split; [exact E|]. by rewrite <- Hp, Hr.
Qed.

(** ** Sections *)

Lemma get_table_assign_eq k s t : get_table (toml_assign k (TTable s) t) k = Some s.
Proof. unfold get_table. by rewrite toml_get_assign_eq. Qed.
Lemma get_table_assign_ne k n t k' : k <> k' -> get_table (toml_assign k n t) k' = get_table t k'.
Proof. intros. unfold get_table. by rewrite toml_get_assign_ne. Qed.
Lemma get_array_assign_eq k a t : get_array (toml_assign k (TArray a) t) k = Some a.
Proof. unfold get_array. by rewrite toml_get_assign_eq. Qed.
Lemma get_array_assign_ne k n t k' : k <> k' -> get_array (toml_assign k n t) k' = get_array t k'.
Proof. intros. unfold get_array. by rewrite toml_get_assign_ne. Qed.
Lemma get_table_erase_eq k t : get_table (toml_erase k t) k = None.
Proof. unfold get_table. by rewrite toml_get_erase, bool_decide_eq_true_2. Qed.
Lemma get_table_erase_ne k t k' : k <> k' -> get_table (toml_erase k t) k' = get_table t k'.
Proof. intros. unfold get_table. by rewrite toml_get_erase, bool_decide_eq_false_2. Qed.
Lemma get_array_erase_ne k t k' : k <> k' -> get_array (toml_erase k t) k' = get_array t k'.
Proof. intros. unfold get_array. by rewrite toml_get_erase, bool_decide_eq_false_2. Qed.

(** Lookups past assignments to other keys. *)
Create Rewrite HintDb toml.
#[export] Hint Rewrite get_table_assign_eq get_array_assign_eq get_table_erase_eq : toml.
#[export] Hint Rewrite get_table_assign_ne get_array_assign_ne get_table_erase_ne get_array_erase_ne
  toml_get_assign_ne using discriminate : toml.

Ltac toml := autorewrite with toml.

(** *** The key map *)

Definition map_of_rows (km : TomlTable) (m : list TypingAction) : list TypingAction :=
  foldl (fun m '(key, val) =>
    match key with
    | EmptyString => m
    | String c _ =>
        if (128 <=? nat_of_ascii c)%nat then m
        else match as_string val with
             | Some s => <[nat_of_ascii c := StringToTypingAction s]> m
             | None => m
             end
    end) m km.

Lemma LoadCustomKeyMap_spec km config :
  LoadCustomKeyMap km config = { config with customKeyMap ::= map_of_rows km }.
Proof.
  unfold LoadCustomKeyMap, map_of_rows. revert config.
  induction km as [|[key val] km IH]; intros config; [by destruct config|]. cbn [foldl].
  rewrite IH. destruct key as [|c key]; [done|]. destruct (128 <=? nat_of_ascii c)%nat; [done|].
  by destruct (as_string val).
Qed.

(** The rows written, by character. *)
Definition key_rows (m : list TypingAction) : list (string * TomlNode) :=
  (fun i => (key_name i, TString (TypingActionToString (nth i m ActNone)))) <$>
    filter (fun i => nth i m ActNone <> ActNone) (seq 0 128).

Lemma SaveCustomKeyMap_rows config :
  SaveCustomKeyMap [] config = table_of (key_rows (customKeyMap config)).
Proof.
  unfold SaveCustomKeyMap, key_rows, table_of. generalize (seq 0 128). intros l.
  generalize (@nil (string * TomlNode)) as acc.
  induction l as [|i l IH]; intros acc; [done|]. cbn [foldl]. rewrite IH, filter_cons.
  destruct (decide (nth i (customKeyMap config) ActNone = ActNone)) as [E|E].
  - by rewrite E, bool_decide_eq_true_2, decide_False by tauto.
  - by rewrite bool_decide_eq_false_2, decide_True by done.
Qed.

Lemma key_name_inj i j : (i < 128)%nat -> (j < 128)%nat -> key_name i = key_name j -> i = j.
Proof.
  unfold key_name. intros Hi Hj. destruct (Nat.eqb_spec i 0), (Nat.eqb_spec j 0); try done; [lia|].
  intros [= E]. by rewrite <- (nat_ascii_embedding i), E, nat_ascii_embedding by lia.
Qed.

(** The characters of a map in any order, written into another. *)
Lemma foldl_insert_lookup (m acc : list TypingAction) (l : list nat) j :
  Forall (fun i => (i < length acc)%nat) l ->
  foldl (fun acc i => <[i := nth i m ActNone]> acc) acc l !! j =
    if decide (j ∈ l) then Some (nth j m ActNone) else acc !! j.
Proof.
  revert acc. induction l as [|i l IH]; intros acc H; [done|]. inversion H as [|? ? Hi Hl]; subst.
  cbn [foldl]. rewrite IH by (eapply List.Forall_impl; [|exact Hl]; intros; by rewrite length_insert).
  destruct (decide (j ∈ l)) as [Hj|Hj].
  - by rewrite decide_True by by right.
  - destruct (decide (j = i)) as [->|Hne].
    + rewrite list_lookup_insert_eq by done. by rewrite decide_True by left.
    + rewrite list_lookup_insert_ne by done. rewrite decide_False; [done|].
      rewrite elem_of_cons. tauto.
Qed.

Definition keymap_ok (m : list TypingAction) : Prop := length m = 128%nat /\ nth 0 m ActNone = ActNone.

Lemma keymap_roundtrip m :
  keymap_ok m -> map_of_rows (table_of (key_rows m)) (replicate 128 ActNone) = m.
Proof.
  intros [Hlen H0]. set (l := filter (fun i => nth i m ActNone <> ActNone) (seq 0 128)).
  set (row := fun i => (key_name i, TString (TypingActionToString (nth i m ActNone)))).
  assert (Hl : forall i, i ∈ l <-> nth i m ActNone <> ActNone /\ (i < 128)%nat).
  { intros i. unfold l. rewrite list_elem_of_filter, elem_of_seq. split; intros []; split; [done|lia|done|lia]. }
  assert (Hn : NoDup (keys (row <$> l))).
  { rewrite <- list_fmap_compose. apply NoDup_fmap_2_strong; [|apply NoDup_filter, NoDup_seq].
    intros i j [_ Hi]%Hl [_ Hj]%Hl. by apply key_name_inj. }
  change (key_rows m) with (row <$> l).
  pose proof (Permutation_map_inv _ _ (table_of_perm _ Hn)) as (l' & E & Hp).
  change (map row l') with (row <$> l') in E. rewrite E.
  assert (Hl' : Forall (fun i => (0 < i < 128)%nat) l').
  { apply List.Forall_forall. intros i Hi%list_elem_of_In. rewrite <- Hp, Hl in Hi.
    destruct i; [tauto|lia]. }
  assert (Ef : forall acc, map_of_rows (row <$> l') acc =
    foldl (fun acc i => <[i := nth i m ActNone]> acc) acc l').
  { clear E Hp. induction Hl' as [|i l' Hi _ IH]; [done|]. intros acc. rewrite fmap_cons.
    unfold map_of_rows in *. cbn [foldl row fst snd]. unfold key_name.
    destruct (Nat.eqb_spec i 0); [lia|]. rewrite nat_ascii_embedding by lia.
    destruct (Nat.leb_spec 128 i); [lia|]. cbn [as_string].
    by rewrite action_string_roundtrip, IH. }
  rewrite Ef. apply list_eq. intros j.
  rewrite foldl_insert_lookup by (eapply List.Forall_impl; [|exact Hl']; simpl; intros; lia).
  destruct (decide (j ∈ l')) as [Hj|Hj].
  - rewrite <- Hp, Hl in Hj. destruct Hj as [_ Hj].
    destruct (lookup_lt_is_Some_2 m j ltac:(lia)) as [x Hx].
    by rewrite Hx, (nth_lookup_Some _ _ _ _ Hx).
  - destruct (decide (j < 128)%nat) as [Hlt|Hge].
    + destruct (lookup_lt_is_Some_2 m j ltac:(lia)) as [x Hx].
      rewrite lookup_replicate_2 by done. rewrite Hx. f_equal.
      destruct (decide (x = ActNone)) as [->|Hne]; [done|]. destruct Hj.
      rewrite <- Hp, Hl, (nth_lookup_Some _ _ _ _ Hx). done.
    + rewrite !lookup_ge_None_2; [done| |]; rewrite ?length_replicate; lia.
Qed.

(** *** Typing *)

(** Short exclusions are not kept, the others come back in lower case. *)
Definition kept_exclusions (l : list wstring) : list wstring :=
  (fmap towlower : wstring -> wstring) <$> filter (fun excl => (2 <= length excl)%nat) l.

Section Facts.
Context {U : Utf8Platform} {UL : Utf8Laws U}.

Lemma load_exclusions_written features l acc :
  get_array features "spell_exclusions" = Some (exclusion_rows l) ->
  Forall wide_ok l -> load_exclusions features acc = acc ++ kept_exclusions l.
Proof.
  intros E H. unfold load_exclusions, exclusion_rows, kept_exclusions in *. rewrite E. clear E.
  revert acc. induction H as [|w l Hw _ IH]; intros acc; [by rewrite app_nil_r|].
  rewrite filter_cons. destruct (decide (2 <= length w)%nat) as [Hl|Hl]; [|apply IH].
  rewrite !fmap_cons. cbn [foldl].
  change (as_string ((TString ∘ WideToUtf8) w)) with (Some (WideToUtf8 w)). cbv iota zeta.
  rewrite utf8_roundtrip by done. rewrite (proj2 (Nat.leb_le 2 _) Hl).
  rewrite IH. by rewrite <- app_assoc.
Qed.

Lemma load_features_fields features c :
  load_features features c =
    { load_features features c with
      optimizeLevel := u8 (int_or features "optimize_level" 0);
      spellExclusions := load_exclusions features (spellExclusions c) }.
Proof. reflexivity. Qed.

Lemma load_features_written config c :
  0 <= optimizeLevel config < 256 -> Forall wide_ok (spellExclusions config) ->
  load_features (table_of (feature_rows config)) c =
    { config with inputMethod := inputMethod c; codeTable := codeTable c;
                  perfHistogramEnabled := perfHistogramEnabled c; customKeyMap := customKeyMap c;
                  spellExclusions := spellExclusions c ++ kept_exclusions (spellExclusions config) }.
Proof.
  intros Ho He. rewrite load_features_fields.
  rewrite (load_exclusions_written _ (spellExclusions config)) by done.
  change (int_or (table_of (feature_rows config)) "optimize_level" 0)
    with (default 0 (fits (- 2 ^ 31) (2 ^ 31 - 1) (optimizeLevel config))).
  assert (Eo : u8 (default 0 (fits (- 2 ^ 31) (2 ^ 31 - 1) (optimizeLevel config))) =
               optimizeLevel config).
  { unfold fits, u8. rewrite (proj2 (Z.leb_le _ _)), (proj2 (Z.leb_le _ _)) by lia.
    by apply Z.mod_small. }
  rewrite Eo. reflexivity.
Qed.

Record typing_ok (c : TypingConfig) : Prop := {
  typing_optimize : 0 <= optimizeLevel c < 256;
  typing_keymap : keymap_ok (customKeyMap c);
  typing_exclusions : Forall wide_ok (spellExclusions c)
}.

(** The switch of the file alone: no save writes it. *)
Definition perf_of t : bool :=
  match get_table t "debug" with Some dbg => bool_or dbg "perf_histogram" false | None => false end.

Lemma when_table_some t k s {A} (f : TomlTable -> A -> A) a :
  get_table t k = Some s -> when_table t k f a = f s a.
Proof. unfold when_table. by intros ->. Qed.

Lemma load_debug t c :
  perfHistogramEnabled c = false ->
  when_table t "debug"
    (fun dbg config => { config with perfHistogramEnabled := bool_or dbg "perf_histogram" false }) c =
    { c with perfHistogramEnabled := perf_of t }.
Proof.
  unfold when_table, perf_of. destruct (get_table t "debug"); [done|].
  destruct c. cbn. by intros ->.
Qed.

Lemma load_input_written config c :
  load_input (table_of [("method"%string, TString (MethodToString (inputMethod config)));
                        ("code_table"%string, TInteger (CodeTable_u8 (codeTable config)))]) c =
    { c with inputMethod := inputMethod config; codeTable := codeTable config }.
Proof. by destruct config as [m ct], m, ct. Qed.

Lemma put_typing_get config t :
  get_table (put_typing config t) "input" =
    Some (table_of [("method"%string, TString (MethodToString (inputMethod config)));
                    ("code_table"%string, TInteger (CodeTable_u8 (codeTable config)))]) /\
  get_table (put_typing config t) "UserDefinedKeyMap" =
    (if bool_decide (SaveCustomKeyMap [] config = []) then None else Some (SaveCustomKeyMap [] config)) /\
  get_table (put_typing config t) "features" = Some (table_of (feature_rows config)).
Proof.
  unfold put_typing. case_bool_decide; split_and!; by toml.
Qed.

Lemma typing_of_put config t :
  typing_ok config ->
  typing_of (put_typing config t) =
    { config with spellExclusions := kept_exclusions (spellExclusions config);
                  perfHistogramEnabled := perf_of t }.
Proof.
  intros [Ho Hk He]. destruct (put_typing_get config t) as (Gi & Gk & Gf).
  assert (Ekm : forall c, customKeyMap c = replicate 128 ActNone ->
    when_table (put_typing config t) "UserDefinedKeyMap" LoadCustomKeyMap c =
      { c with customKeyMap := customKeyMap config }).
  { intros c Hc. unfold when_table. rewrite Gk.
    pose proof (keymap_roundtrip (customKeyMap config) Hk) as K.
    rewrite <- SaveCustomKeyMap_rows, <- Hc in K. clear - K. revert K.
    generalize (SaveCustomKeyMap [] config) as km. intros km K. case_bool_decide as E.
    - subst km. cbn [map_of_rows foldl] in K. rewrite <- K. destruct c. reflexivity.
    - rewrite LoadCustomKeyMap_spec, <- K. reflexivity. }
  assert (E : perf_of (put_typing config t) = perf_of t).
  { unfold perf_of, put_typing. case_bool_decide; by toml. }
  unfold typing_of. rewrite (when_table_some _ "input" _ _ _ Gi), load_input_written.
  rewrite Ekm by done. rewrite (when_table_some _ "features" _ _ _ Gf), load_features_written by done.
  rewrite load_debug by done. rewrite E. by destruct config.
Qed.

(** *** Records of switches and small numbers *)

Lemma fits_in lo hi z : lo <= z <= hi -> fits lo hi z = Some z.
Proof. intros. unfold fits. by rewrite !(proj2 (Z.leb_le _ _)) by lia. Qed.
Lemma u8_int z d : 0 <= z < 2 ^ 8 -> u8 (default d (fits (- 2 ^ 31) (2 ^ 31 - 1) z)) = z.
Proof. intros. rewrite fits_in by lia. by apply Z.mod_small. Qed.
Lemma s8_int z d : - 2 ^ 7 <= z < 2 ^ 7 -> s8 (default d (fits (- 2 ^ 31) (2 ^ 31 - 1) z)) = z.
Proof. intros. rewrite fits_in by lia. unfold s8. change (default d (Some z)) with z. rewrite Z.mod_small; lia. Qed.
Lemma u32_int64 z d : 0 <= z < 2 ^ 32 -> u32 (default d (fits (- 2 ^ 63) (2 ^ 63 - 1) z)) = z.
Proof. intros. rewrite fits_in by lia. by apply Z.mod_small. Qed.
Lemma s32_int64 z d :
  - 2 ^ 31 <= z < 2 ^ 31 -> s32 (default d (fits (- 2 ^ 63) (2 ^ 63 - 1) z)) = z.
Proof. intros. rewrite fits_in by lia. unfold s32. change (default d (Some z)) with z. rewrite Z.mod_small; lia. Qed.

Definition ui_ok (c : UIConfig) : Prop := 0 <= backgroundOpacity c < 2 ^ 8.
Lemma ui_of_put c t : ui_ok c -> ui_of (put_ui c t) = c.
Proof.
  intros H. unfold ui_of, put_ui. erewrite when_table_some by apply get_table_assign_eq.
  destruct c. f_equal; [exact (u8_int _ _ H)].
Qed.

Record system_ok (c : SystemConfig) : Prop := {
  system_language : 0 <= language c < 2 ^ 8;
  system_icon : 0 <= iconStyle c < 2 ^ 8;
  system_mode : 0 <= startupMode c < 2 ^ 8;
  system_colors : 0 <= customColorV c < 2 ^ 32 /\ 0 <= customColorE c < 2 ^ 32;
  system_place : - 2 ^ 31 <= floatingIconX c < 2 ^ 31 /\ - 2 ^ 31 <= floatingIconY c < 2 ^ 31
}.
Lemma system_of_put c t : system_ok c -> system_of (put_system c t) = c.
Proof.
  intros [H1 H2 H3 [H4 H5] [H6 H7]]. unfold system_of, put_system.
  erewrite when_table_some by apply get_table_assign_eq.
  destruct c. f_equal;
    [exact (u8_int _ _ H1)|exact (u8_int _ _ H2)|exact (u32_int64 _ _ H4)|exact (u32_int64 _ _ H5)|
     exact (s32_int64 _ _ H6)|exact (s32_int64 _ _ H7)|exact (u8_int _ _ H3)].
Qed.

Definition vk_ok (h : HotkeyConfig) : Prop := 0 <= hk_vk h < 2 ^ 32.
Lemma load_vk_written h vk : vk_ok h -> load_vk (table_of (hotkey_rows h)) vk = hk_vk h.
Proof. intros H. change (load_vk (table_of (hotkey_rows h)) vk) with (u32 (hk_vk h)). by apply Z.mod_small. Qed.
Lemma hotkey_of_put h t : vk_ok h -> hotkey_of (put_hotkey h t) = h.
Proof.
  intros H. unfold hotkey_of, put_hotkey. erewrite when_table_some by apply get_table_assign_eq.
  rewrite load_vk_written by done. by destruct h.
Qed.

Definition convert_ok (c : ConvertConfig) : Prop :=
  0 <= sourceEncoding c < 2 ^ 8 /\ 0 <= destEncoding c < 2 ^ 8 /\ vk_ok (cc_hotkey c).
Lemma convert_of_put c t : convert_ok c -> convert_of (put_convert c t) = c.
Proof.
  intros (H1 & H2 & H3). unfold convert_of, put_convert.
  erewrite when_table_some by apply get_table_assign_eq.
  transitivity
    { c with sourceEncoding := u8 (default 0 (fits (- 2 ^ 31) (2 ^ 31 - 1) (sourceEncoding c)));
             destEncoding := u8 (default 0 (fits (- 2 ^ 31) (2 ^ 31 - 1) (destEncoding c)));
             cc_hotkey := { (cc_hotkey c) with
                            hk_vk := load_vk (table_of (hotkey_rows (cc_hotkey c))) 0 } };
    [reflexivity|].
  rewrite load_vk_written, !u8_int by done. by destruct c as [? ? ? ? ? ? ? ? ? ? ? []].
Qed.

(** *** Lists of applications *)

Lemma load_apps_written l acc :
  Forall wide_ok l -> (length acc + length l <= kMaxAppListEntries)%nat ->
  load_apps push_app (app_rows l) acc = acc ++ l.
Proof.
  intros H. revert acc. unfold load_apps, app_rows.
  induction H as [|w l Hw _ IH]; intros acc Hn; [by rewrite app_nil_r|].
  rewrite fmap_cons. cbn [foldl]. cbn [length] in Hn.
  destruct (Nat.leb_spec kMaxAppListEntries (length acc)); [lia|].
  change (as_string ((TString ∘ WideToUtf8) w)) with (Some (WideToUtf8 w)). cbv iota.
  rewrite utf8_roundtrip by done. unfold push_app at 2. rewrite IH by (rewrite length_app; cbn; lia).
  by rewrite <- app_assoc.
Qed.
Definition apps_ok (l : list wstring) : Prop := Forall wide_ok l /\ (length l <= kMaxAppListEntries)%nat.

Lemma when_array_some t k arr {A} (f : TomlArray -> A -> A) a :
  get_array t k = Some arr -> when_array t k f a = f arr a.
Proof. unfold when_array. by intros ->. Qed.
Lemma when_array_none t k {A} (f : TomlArray -> A -> A) a :
  get_array t k = None -> when_array t k f a = a.
Proof. unfold when_array. by intros ->. Qed.
Lemma get_array_erase_eq k t : get_array (toml_erase k t) k = None.
Proof. unfold get_array. by rewrite toml_get_erase, bool_decide_eq_true_2. Qed.

Lemma tsf_of_put l t : apps_ok l -> tsf_of (put_tsf l t) = l.
Proof.
  intros [H1 H2]. unfold tsf_of, put_tsf. erewrite when_table_some by apply get_table_assign_eq.
  erewrite when_array_some by reflexivity. by apply load_apps_written.
Qed.
Lemma forced_of_put l t : apps_ok l -> forced_of (put_forced l t) = l.
Proof.
  intros [H1 H2]. unfold forced_of, put_forced. erewrite when_table_some by apply get_table_assign_eq.
  erewrite when_array_some by apply get_array_assign_eq. by apply load_apps_written.
Qed.

(** The section of a save of the excluded applications. *)
Lemma put_excluded_section l t :
  exists section, get_table (put_excluded l t) "excluded_apps" = Some section /\
    get_array section "list" = Some (app_rows l) /\ get_array section "soft" = None /\
    get_array section "force_vn" =
      (s ← get_table t "excluded_apps"; get_array s "force_vn").
Proof.
  unfold put_excluded. destruct (get_table t "excluded_apps") as [s|] eqn:E.
  - eexists. split; [by toml|]. rewrite get_array_erase_eq. by toml.
  - eexists. split; [by toml|]. done.
Qed.
Lemma excluded_of_put l t : apps_ok l -> excluded_of (put_excluded l t) = l.
Proof.
  intros [H1 H2]. destruct (put_excluded_section l t) as (s & Es & El & Ef & _).
  unfold excluded_of. rewrite (when_table_some _ _ _ _ _ Es).
  rewrite (when_array_some _ _ _ _ _ El), (when_array_none _ _ _ _ Ef), load_apps_written by done.
  unfold when_table, put_excluded. by rewrite get_table_erase_eq.
Qed.
Lemma forced_of_put_excluded l t : forced_of (put_excluded l t) = forced_of t.
Proof.
  destruct (put_excluded_section l t) as (s & Es & _ & _ & Ef).
  unfold forced_of. rewrite (when_table_some _ _ _ _ _ Es). unfold when_table, when_array.
  rewrite Ef. by destruct (get_table t "excluded_apps").
Qed.
Lemma excluded_of_put_forced l t : excluded_of (put_forced l t) = excluded_of t.
Proof.
  unfold excluded_of, put_forced, when_table, when_array. toml.
  by destruct (get_table t "excluded_apps"); cbn [default]; toml.
Qed.

(** *** Maps *)

Definition keys_ok {A} (m : gmap wstring A) : Prop := map_Forall (fun k _ => wide_ok k) m.

(** A table written from a map, read row after row. *)
Lemma rows_of_map {A} (enc : wstring * A -> string * TomlNode) (m : gmap wstring A) rows :
  (forall k v, (enc (k, v)).1 = WideToUtf8 k) -> keys_ok m -> rows ≡ₚ map_to_list m ->
  exists kvs, table_of (enc <$> rows) = enc <$> kvs /\ kvs ≡ₚ map_to_list m.
Proof.
  intros He Hk Hr. apply table_of_map; [done|]. intros k v k' v' H H'. rewrite !He.
  apply WideToUtf8_inj; by eapply Hk.
Qed.

Lemma foldl_rows {A} (P : wstring * A -> Prop) `{forall kv, Decision (P kv)}
    (enc : wstring * A -> string * TomlNode)
    (step : gmap wstring A -> string * TomlNode -> gmap wstring A) (m : gmap wstring A) kvs :
  (forall k v acc, m !! k = Some v ->
     step acc (enc (k, v)) = if decide (P (k, v)) then <[k := v]> acc else acc) ->
  kvs ≡ₚ map_to_list m -> foldl step ∅ (enc <$> kvs) = filter P m.
Proof.
  intros Hs Hp. rewrite <- (foldl_insert_to_map (filter P kvs)).
  - assert (Hm : Forall (fun kv => m !! kv.1 = Some kv.2) kvs).
    { apply List.Forall_forall. intros [k v] Hi%list_elem_of_In.
      by rewrite Hp, elem_of_map_to_list in Hi. }
    clear Hp. generalize (∅ : gmap wstring A). induction Hm as [|[k v] kvs Hkv _ IH]; intros acc; [done|].
    rewrite fmap_cons. cbn [foldl]. rewrite Hs by done. rewrite filter_cons. by case_decide; apply IH.
  - apply NoDup_Permutation; [|apply NoDup_map_to_list|].
    + apply NoDup_filter. rewrite Hp. apply NoDup_map_to_list.
    + intros [k v]. rewrite list_elem_of_filter, Hp, !elem_of_map_to_list, map_lookup_filter_Some. tauto.
Qed.

Lemma filter_true {A} (m : gmap wstring A) : filter (fun _ : wstring * A => True) m = m.
Proof. by apply map_filter_id. Qed.

Definition macro_fits (kv : wstring * wstring) : Prop :=
  (String.length (WideToUtf8 kv.1) <= kMaxMacroKeyLen)%nat /\
  Z.of_nat (String.length (WideToUtf8 kv.2)) <= kMaxMacroValueLen.
Definition macros_ok (m : gmap wstring wstring) : Prop :=
  map_Forall (fun k v => wide_ok k /\ wide_ok v) m.

Lemma macros_of_put m t : macros_ok m -> macros_of (put_macros m t) = filter macro_fits m.
Proof.
  intros Hm. unfold macros_of, put_macros. erewrite when_table_some by apply get_table_assign_eq.
  set (enc := fun '(key, value) => (WideToUtf8 key, TString (WideToUtf8 value))).
  destruct (rows_of_map enc m (map_to_list m)) as (kvs & -> & Hp); [done| |done|].
  { intros k v H. by destruct (Hm k v H). }
  apply foldl_rows; [|done]. intros k v acc H. destruct (Hm k v H) as [Hk Hv].
  cbn [enc as_string]. unfold macro_fits. cbn [fst snd]. rewrite !utf8_roundtrip by done.
  destruct (Nat.ltb_spec kMaxMacroKeyLen (String.length (WideToUtf8 k))).
  { rewrite decide_False by lia. done. }
  destruct (Z.ltb_spec kMaxMacroValueLen (Z.of_nat (String.length (WideToUtf8 v)))).
  { rewrite decide_False by lia. done. }
  by rewrite decide_True by lia.
Qed.

Definition override_ok (e : AppOverrideEntry) : Prop :=
  - 2 ^ 7 <= ov_inputMethod e < 2 ^ 7 /\ - 2 ^ 7 <= encodingOverride e < 2 ^ 7 /\
  - 2 ^ 7 <= sendMethod e < 2 ^ 7.
Definition overrides_ok (m : gmap wstring AppOverrideEntry) : Prop :=
  map_Forall (fun k e => wide_ok k /\ override_ok e) m /\ (size m <= kMaxPerAppEntries)%nat.

Lemma load_override_written e : override_ok e -> load_override (table_of (override_rows e)) = e.
Proof.
  intros (H1 & H2 & H3). destruct e.
  unfold load_override. f_equal; [exact (s8_int _ _ H1)|exact (s8_int _ _ H2)|exact (s8_int _ _ H3)].
Qed.
Lemma overrides_of_put m t : overrides_ok m -> overrides_of (put_overrides m t) = m.
Proof.
  intros [Hm Hs]. unfold overrides_of, put_overrides.
  erewrite when_table_some by apply get_table_assign_eq.
  set (enc := fun '(exe, e) => (WideToUtf8 exe, TTable (table_of (override_rows e)))).
  destruct (rows_of_map enc m (map_to_list m)) as (kvs & -> & Hp); [done| |done|].
  { intros k e H. by destruct (Hm k e H). }
  rewrite take_ge by (rewrite length_fmap, Hp, length_map_to_list; exact Hs).
  rewrite <- (filter_true m). apply foldl_rows; [|done].
  intros k e acc H. destruct (Hm k e H) as [Hk He]. cbn [enc as_table].
  by rewrite utf8_roundtrip, load_override_written, decide_True by done.
Qed.

Definition smart_ok (m : gmap wstring bool) : Prop :=
  map_Forall (fun k _ => wide_ok k /\ k <> [] /\ towlower <$> k = k) m /\
  (size m <= kMaxAppListEntries)%nat.

Definition mode_row (kv : wstring * bool) : string * TomlNode := (WideToUtf8 kv.1, mode_name kv.2).

Lemma put_smart_rows (m : gmap wstring bool) :
  keys_ok m -> exists rows, rows ≡ₚ map_to_list m /\
    foldl (fun tbl key =>
      match m !! key with
      | Some b => toml_insert (WideToUtf8 key) (mode_name b) tbl
      | None => tbl
      end) [] (sorted_keys m) = table_of (mode_row <$> rows).
Proof.
  intros Hk. assert (Hs : sorted_keys m ≡ₚ map fst (map_to_list m)) by apply merge_sort_Permutation.
  apply Permutation_map_inv in Hs as (rows & E & Hp).
  exists rows. split; [done|]. rewrite E. clear E.
  assert (Hm : forall k b, (k, b) ∈ rows -> m !! k = Some b)
    by (intros k b; by rewrite <- Hp, elem_of_map_to_list).
  assert (Hn : NoDup (keys rows)) by (rewrite <- Hp; apply NoDup_fst_map_to_list).
  clear Hp. unfold table_of. change (map fst rows) with (keys rows).
  assert (Hd : forall k, k ∈ keys rows -> WideToUtf8 k ∉ keys ([] : TomlTable)) by (intros k _; apply not_elem_of_nil).
  revert Hd. generalize ([] : TomlTable) as tbl.
  induction rows as [|[k b] rows IH]; intros tbl Hd; [done|]. rewrite !fmap_cons in *. cbn [foldl fst snd mode_row] in *.
  apply NoDup_cons in Hn as [Hk' Hn]. rewrite (Hm k b) by left.
  unfold toml_insert at 2. rewrite toml_get_not_in by (apply Hd; left).
  apply IH; [intros ? ? ?; apply Hm; by right|done|].
  intros k' Hin.
  pose proof (toml_assign_perm (WideToUtf8 k) (mode_name b) tbl (Hd k ltac:(left))) as Hp.
  apply (fmap_Permutation fst) in Hp. rewrite Hp, fmap_cons, not_elem_of_cons. cbn [fst].
  split; [|apply Hd; by right]. intros E.
  apply list_elem_of_fmap in Hin as Hin'. destruct Hin' as ([k1 b1] & -> & Hin'). cbn in *.
  apply WideToUtf8_inj in E; [subst; done| |].
  - apply (Hk k1 b1), Hm. by right.
  - apply (Hk k b), Hm. by left.
Qed.

(** Below the limit, names in lower case are taken as they are. *)
Lemma load_modes_step (kvs : list (wstring * bool)) (acc : gmap wstring bool) :
  Forall (fun kv => wide_ok kv.1 /\ kv.1 <> [] /\ towlower <$> kv.1 = kv.1) kvs ->
  NoDup (keys kvs) -> (forall k, k ∈ keys kvs -> acc !! k = None) ->
  (size acc + length kvs <= kMaxAppListEntries)%nat ->
  foldl (fun apps '(key, node) =>
    if (kMaxAppListEntries <=? size apps)%nat then apps
    else
      match as_string node with
      | None => apps
      | Some modeStr =>
          let wideKey := towlower <$> Utf8ToWide key in
          if modeStr == "english"%string then
            if bool_decide (wideKey = []) then apps else emplace wideKey false apps
          else if modeStr == "vietnamese"%string then
            if bool_decide (wideKey = []) then apps else emplace wideKey true apps
          else apps
      end) acc (mode_row <$> kvs) = foldl (fun d '(k, v) => <[k := v]> d) acc kvs.
Proof.
  intros H. revert acc. induction H as [|[k b] kvs (Hk & Hne & Hlow) _ IH]; intros acc Hn Hd Hs; [done|].
  rewrite !fmap_cons in *. cbn [foldl fst snd length mode_row] in *.
  apply NoDup_cons in Hn as [Hk' Hn].
  destruct (Nat.leb_spec kMaxAppListEntries (size acc)); [lia|].
  assert (E : (match as_string (mode_name b) with
      | None => acc
      | Some modeStr =>
          let wideKey := towlower <$> Utf8ToWide (WideToUtf8 k) in
          if modeStr == "english"%string then
            if bool_decide (wideKey = []) then acc else emplace wideKey false acc
          else if modeStr == "vietnamese"%string then
            if bool_decide (wideKey = []) then acc else emplace wideKey true acc
          else acc
      end) = <[k := b]> acc).
  { rewrite utf8_roundtrip, Hlow by done. cbv zeta. rewrite (bool_decide_eq_false_2 (k = [])) by done.
    unfold emplace. rewrite Hd by left. by destruct b. }
  cbv zeta in E |- *. rewrite E. apply IH; [done| |].
  - intros k' Hin. rewrite lookup_insert_ne by (intros ->; done). apply Hd. by right.
  - rewrite map_size_insert_None by (apply Hd; left). lia.
Qed.

Lemma smart_of_put m t : smart_ok m -> smart_of (put_smart m t) = m.
Proof.
  intros [Hm Hs]. unfold smart_of, put_smart. toml.
  destruct (put_smart_rows m) as (rows & Hp & ->); [intros k v H; apply (Hm k v H)|].
  change (get_table (toml_insert "apps" (TTable (table_of (mode_row <$> rows))) []) "apps")
    with (Some (table_of (mode_row <$> rows))). cbv iota.
  destruct (rows_of_map mode_row m rows) as (kvs & -> & Hk); [done|intros k v H; apply (Hm k v H)|done|].
  unfold load_modes. rewrite load_modes_step.
  - by apply foldl_insert_to_map.
  - apply List.Forall_forall. intros [k v] Hin%list_elem_of_In.
    rewrite Hk, elem_of_map_to_list in Hin. by apply (Hm k v).
  - rewrite Hk. apply NoDup_fst_map_to_list.
  - intros. apply lookup_empty.
  - rewrite map_size_empty, Hk, length_map_to_list. exact Hs.
Qed.

(** *** The registry of hotkeys *)

(** What there is to see of a registry. *)
Definition registry_view (r : HotkeyRegistry) : list (list Trigger * bool) :=
  (fun i => (TriggersFor r i, IsEnabled r i)) <$> kAllIntents.
Definition registry_ok (r : HotkeyRegistry) : Prop := forall i, Forall trigger_ok (TriggersFor r i).
Definition esc_cancels (r : HotkeyRegistry) : bool :=
  Matches r CancelComposition kVkEscape 0 false false.

Lemma registry_of_put r t : registry_ok r -> registry_view (registry_of (put_registry r t)) = registry_view r.
Proof.
  intros Hr. unfold registry_of, put_registry.
  erewrite when_table_some by by toml. toml.
  unfold registry_view. apply list_fmap_ext. intros _ i _. f_equal; [|apply LoadEnabled_SaveEnabled].
  unfold TriggersFor at 1. rewrite LoadEnabled_triggers. by apply Load_Save_triggers.
Qed.

Definition with_perf (c : TypingConfig) (b : bool) : TypingConfig := { c with perfHistogramEnabled := b }.
Definition with_esc (c : TypingConfig) (b : bool) : TypingConfig := { c with escRestoreRawEnabled := b }.
Lemma with_esc_perf c e p : with_perf (with_esc c e) p = with_esc (with_perf c p) e.
Proof. reflexivity. Qed.

Lemma load_features_esc b features c :
  load_features (toml_assign "esc_restore_raw" (TBoolean b) features) c =
    with_esc (load_features features c) b.
Proof.
  unfold with_esc, load_features, load_exclusions, bool_or, int_or. rewrite toml_get_assign_eq. by toml.
Qed.

(** Nothing read yet but the method, the code table and the key map. *)
Definition featureless (c : TypingConfig) : Prop :=
  exists m ct km, c = { default_config with inputMethod := m; codeTable := ct; customKeyMap := km }.

Lemma featureless_method m c : featureless c -> featureless { c with inputMethod := m }.
Proof. intros (m0 & ct & km & ->). by exists m, ct, km. Qed.
Lemma featureless_table ct c : featureless c -> featureless { c with codeTable := ct }.
Proof. intros (m & ct0 & km & ->). by exists m, ct, km. Qed.
Lemma featureless_input input c : featureless c -> featureless (load_input input c).
Proof.
  intros H. unfold load_input. destruct (toml_get input "method") as [method|].
  - set (c' := { c with inputMethod := _ }). assert (featureless c') by by apply featureless_method.
    clearbody c'. destruct (toml_get input "code_table"); [|done].
    destruct (_ && _); [by apply featureless_table|done].
  - destruct (toml_get input "code_table"); [|done].
    destruct (_ && _); [by apply featureless_table|done].
Qed.
Lemma featureless_keymap rows c : featureless c -> featureless (LoadCustomKeyMap rows c).
Proof. intros (m & ct & km & ->). rewrite LoadCustomKeyMap_spec. by exists m, ct, (map_of_rows rows km). Qed.
Lemma featureless_features c : featureless c -> load_features [] c = c.
Proof. by intros (m & ct & km & ->). Qed.

(** The settings before the features, and those of the features alone. *)
Definition typing_base t : TypingConfig :=
  when_table t "UserDefinedKeyMap" LoadCustomKeyMap (when_table t "input" load_input default_config).

Lemma typing_base_featureless t : featureless (typing_base t).
Proof.
  assert (featureless default_config) by by exists Telex, Unicode, (replicate 128 ActNone).
  unfold typing_base, when_table.
  destruct (get_table t "input"), (get_table t "UserDefinedKeyMap");
    auto using featureless_input, featureless_keymap.
Qed.

Lemma typing_of_base t :
  typing_of t =
    with_perf (load_features (default [] (get_table t "features")) (typing_base t)) (perf_of t).
Proof.
  change (typing_of t) with (when_table t "debug"
    (fun dbg config => { config with perfHistogramEnabled := bool_or dbg "perf_histogram" false })
    (when_table t "features" load_features (typing_base t))).
  assert (E : when_table t "features" load_features (typing_base t) =
              load_features (default [] (get_table t "features")) (typing_base t)).
  { unfold when_table. destruct (get_table t "features"); [done|].
    symmetry. apply featureless_features, typing_base_featureless. }
  rewrite E. apply load_debug. by destruct (typing_base_featureless t) as (? & ? & ? & ->).
Qed.

Lemma typing_of_put_registry r t : typing_of (put_registry r t) = with_esc (typing_of t) (esc_cancels r).
Proof.
  assert (Eb : typing_base (put_registry r t) = typing_base t)
    by (unfold typing_base, put_registry, when_table; by toml).
  assert (Ep : perf_of (put_registry r t) = perf_of t) by (unfold perf_of, put_registry; by toml).
  assert (Ef : default [] (get_table (put_registry r t) "features") =
               toml_assign "esc_restore_raw" (TBoolean (esc_cancels r))
                 (default [] (get_table t "features"))) by (unfold put_registry; by toml).
  rewrite (typing_of_base t), (typing_of_base (put_registry r t)), Eb, Ep, Ef, load_features_esc.
  apply with_esc_perf.
Qed.

(** *** The generation of the dictionary *)

Definition generation_ok (g : Z) : Prop := 0 < g < 2 ^ 63.
Lemma wire_generation_of_put g t :
  generation_ok g -> wire_generation_of (put_wire_generation g t) = g.
Proof.
  intros [H1 H2]. unfold wire_generation_of, put_wire_generation. toml.
  unfold get_integer. rewrite toml_get_assign_eq. cbn [mbind option_bind as_integer].
  assert (E : s64 g = g) by (unfold s64; rewrite Z.mod_small; lia).
  rewrite E. by destruct (Z.ltb_spec 0 g); [|lia].
Qed.

(** ** The record and the file *)

Record Settings := mkSettings {
  typing_settings : TypingConfig; ui_settings : UIConfig; system_settings : SystemConfig;
  toggle_hotkey : HotkeyConfig; hotkey_bindings : list (list Trigger * bool);
  excluded_apps : list wstring; forced_apps : list wstring; tsf_app_list : list wstring;
  app_modes : gmap wstring bool; app_overrides : gmap wstring AppOverrideEntry;
  convert_settings : ConvertConfig; macro_table : gmap wstring wstring; wire_generation : Z
}.

Definition settings_of t : Settings := {|
  typing_settings := typing_of t; ui_settings := ui_of t; system_settings := system_of t;
  toggle_hotkey := hotkey_of t; hotkey_bindings := registry_view (registry_of t);
  excluded_apps := excluded_of t; forced_apps := forced_of t; tsf_app_list := tsf_of t;
  app_modes := smart_of t; app_overrides := overrides_of t;
  convert_settings := convert_of t; macro_table := macros_of t;
  wire_generation := wire_generation_of t
|}.

Inductive SaveOp :=
  | SaveToFile (config : TypingConfig) | SaveUIConfig (config : UIConfig)
  | SaveSystemConfig (config : SystemConfig) | SaveHotkeyConfig (config : HotkeyConfig)
  | SaveHotkeyRegistry (registry : HotkeyRegistry) | SaveExcludedApps (apps : list wstring)
  | SaveForcedVnApps (apps : list wstring) | SaveTsfApps (apps : list wstring)
  | SaveSmartSwitchApps (apps : gmap wstring bool)
  | SaveAppOverrides (entries : gmap wstring AppOverrideEntry)
  | SaveConvertConfig (config : ConvertConfig) | SaveMacros (macros : gmap wstring wstring)
  | SaveWireGeneration (generation : Z).

Definition put (s : SaveOp) : TomlTable -> TomlTable :=
  match s with
  | SaveToFile config => put_typing config | SaveUIConfig config => put_ui config
  | SaveSystemConfig config => put_system config | SaveHotkeyConfig config => put_hotkey config
  | SaveHotkeyRegistry registry => put_registry registry | SaveExcludedApps apps => put_excluded apps
  | SaveForcedVnApps apps => put_forced apps | SaveTsfApps apps => put_tsf apps
  | SaveSmartSwitchApps apps => put_smart apps | SaveAppOverrides entries => put_overrides entries
  | SaveConvertConfig config => put_convert config | SaveMacros macros => put_macros macros
  | SaveWireGeneration generation => put_wire_generation generation
  end.

(** The values a field of the program can have. *)
Definition save_ok (s : SaveOp) : Prop :=
  match s with
  | SaveToFile config => typing_ok config | SaveUIConfig config => ui_ok config
  | SaveSystemConfig config => system_ok config | SaveHotkeyConfig config => vk_ok config
  | SaveHotkeyRegistry registry => registry_ok registry
  | SaveExcludedApps apps | SaveForcedVnApps apps | SaveTsfApps apps => apps_ok apps
  | SaveSmartSwitchApps apps => smart_ok apps | SaveAppOverrides entries => overrides_ok entries
  | SaveConvertConfig config => convert_ok config | SaveMacros macros => macros_ok macros
  | SaveWireGeneration generation => generation_ok generation
  end.

Definition saved_typing (config old : TypingConfig) : TypingConfig :=
  { config with spellExclusions := kept_exclusions (spellExclusions config);
                perfHistogramEnabled := perfHistogramEnabled old }.

(** What a save means.  The key of the cancel intent is mirrored for the text
    service; of the macros those within the limits of the file are kept, of the
    exclusions those of two letters and more. *)
Definition update (s : SaveOp) (st : Settings) : Settings :=
  match s with
  | SaveToFile config => { st with typing_settings ::= saved_typing config }
  | SaveUIConfig config => { st with ui_settings := config }
  | SaveSystemConfig config => { st with system_settings := config }
  | SaveHotkeyConfig config => { st with toggle_hotkey := config }
  | SaveHotkeyRegistry registry =>
      { st with hotkey_bindings := registry_view registry;
                typing_settings ::= fun c => with_esc c (esc_cancels registry) }
  | SaveExcludedApps apps => { st with excluded_apps := apps }
  | SaveForcedVnApps apps => { st with forced_apps := apps }
  | SaveTsfApps apps => { st with tsf_app_list := apps }
  | SaveSmartSwitchApps apps => { st with app_modes := apps }
  | SaveAppOverrides entries => { st with app_overrides := entries }
  | SaveConvertConfig config => { st with convert_settings := config }
  | SaveMacros macros => { st with macro_table := filter macro_fits macros }
  | SaveWireGeneration generation => { st with wire_generation := generation }
  end.

(** The sections a save replaces or changes. *)
Definition writes (s : SaveOp) : list string :=
  match s with
  | SaveToFile _ => ["input"; "UserDefinedKeyMap"; "features"]
  | SaveUIConfig _ => ["ui"] | SaveSystemConfig _ => ["system"] | SaveHotkeyConfig _ => ["hotkey"]
  | SaveHotkeyRegistry _ => ["hotkeys"; "hotkey_state"; "features"]
  | SaveExcludedApps _ => ["excluded_apps"; "excludedApps"] | SaveForcedVnApps _ => ["excluded_apps"]
  | SaveTsfApps _ => ["tsf_apps"] | SaveSmartSwitchApps _ => ["smart_switch"]
  | SaveAppOverrides _ => ["app_overrides"] | SaveConvertConfig _ => ["convert"]
  | SaveMacros _ => ["macros"] | SaveWireGeneration _ => ["internal"]
  end%string.

Lemma put_frame s t k : k ∉ writes s -> toml_get (put s t) k = toml_get t k.
Proof.
  destruct s; cbn [writes put]; rewrite ?not_elem_of_cons; intros Hk; destruct_and!;
    unfold put_typing, put_ui, put_system, put_hotkey, put_registry, put_excluded, put_forced,
      put_tsf, put_smart, put_overrides, put_convert, put_macros, put_wire_generation;
    try destruct (bool_decide (SaveCustomKeyMap _ _ = _)); try destruct (get_table t "excluded_apps");
    repeat (rewrite toml_get_assign || rewrite toml_get_erase);
    repeat case_bool_decide; congruence.
Qed.

(** A reader looks at its own sections only. *)
Definition agree (ks : list string) t t' : Prop := Forall (fun k => toml_get t k = toml_get t' k) ks.

Lemma put_agree s t ks : Forall (fun k => k ∉ writes s) ks -> agree ks (put s t) t.
Proof. intros H. eapply List.Forall_impl; [|exact H]. intros k. apply put_frame. Qed.

Ltac by_sections :=
  unfold agree; rewrite ?Forall_cons; intros; destruct_and?;
  repeat match goal with H : Forall _ [] |- _ => clear H end;
  unfold when_table, get_table, get_array;
  repeat match goal with H : toml_get ?t _ = toml_get ?t' _ |- context [toml_get ?t _] => rewrite H end;
  reflexivity.

Lemma typing_agree t t' :
  agree ["input"; "UserDefinedKeyMap"; "features"; "debug"]%string t t' -> typing_of t = typing_of t'.
Proof. unfold typing_of. by_sections. Qed.
Lemma perf_typing t : perfHistogramEnabled (typing_of t) = perf_of t.
Proof. rewrite typing_of_base. by generalize (load_features (default [] (get_table t "features")) (typing_base t)). Qed.

Lemma ui_agree t t' : agree ["ui"]%string t t' -> ui_of t = ui_of t'.
Proof. unfold ui_of. by_sections. Qed.
Lemma system_agree t t' : agree ["system"]%string t t' -> system_of t = system_of t'.
Proof. unfold system_of. by_sections. Qed.
Lemma hotkey_agree t t' : agree ["hotkey"]%string t t' -> hotkey_of t = hotkey_of t'.
Proof. unfold hotkey_of. by_sections. Qed.
Lemma registry_agree t t' : agree ["hotkeys"; "hotkey_state"]%string t t' -> registry_of t = registry_of t'.
Proof. unfold registry_of. by_sections. Qed.
Lemma excluded_agree t t' : agree ["excluded_apps"; "excludedApps"]%string t t' -> excluded_of t = excluded_of t'.
Proof. unfold excluded_of. by_sections. Qed.
Lemma forced_agree t t' : agree ["excluded_apps"]%string t t' -> forced_of t = forced_of t'.
Proof. unfold forced_of. by_sections. Qed.
Lemma tsf_agree t t' : agree ["tsf_apps"]%string t t' -> tsf_of t = tsf_of t'.
Proof. unfold tsf_of. by_sections. Qed.
Lemma smart_agree t t' : agree ["smart_switch"]%string t t' -> smart_of t = smart_of t'.
Proof. unfold smart_of. by_sections. Qed.
Lemma overrides_agree t t' : agree ["app_overrides"]%string t t' -> overrides_of t = overrides_of t'.
Proof. unfold overrides_of. by_sections. Qed.
Lemma convert_agree t t' : agree ["convert"]%string t t' -> convert_of t = convert_of t'.
Proof. unfold convert_of. by_sections. Qed.
Lemma macros_agree t t' : agree ["macros"]%string t t' -> macros_of t = macros_of t'.
Proof. unfold macros_of. by_sections. Qed.
Lemma wire_agree t t' : agree ["internal"]%string t t' -> wire_generation_of t = wire_generation_of t'.
Proof. unfold wire_generation_of. by_sections. Qed.

Lemma Settings_ext (a b : Settings) :
  typing_settings a = typing_settings b -> ui_settings a = ui_settings b ->
  system_settings a = system_settings b -> toggle_hotkey a = toggle_hotkey b ->
  hotkey_bindings a = hotkey_bindings b -> excluded_apps a = excluded_apps b ->
  forced_apps a = forced_apps b -> tsf_app_list a = tsf_app_list b ->
  app_modes a = app_modes b -> app_overrides a = app_overrides b ->
  convert_settings a = convert_settings b -> macro_table a = macro_table b ->
  wire_generation a = wire_generation b -> a = b.
Proof. destruct a, b. cbn. congruence. Qed.

(** The groups a save does not set. *)
Lemma apart s ks t :
  bool_decide (Forall (fun k => k ∉ writes s) ks) = true -> agree ks (put s t) t.
Proof. intros H%bool_decide_eq_true. by apply put_agree. Qed.

Ltac untouched :=
  match goal with
  | |- typing_settings _ = _ => refine (typing_agree _ _ (apart _ _ _ _))
  | |- ui_settings _ = _ => refine (ui_agree _ _ (apart _ _ _ _))
  | |- system_settings _ = _ => refine (system_agree _ _ (apart _ _ _ _))
  | |- toggle_hotkey _ = _ => refine (hotkey_agree _ _ (apart _ _ _ _))
  | |- hotkey_bindings _ = _ => refine (f_equal registry_view (registry_agree _ _ (apart _ _ _ _)))
  | |- excluded_apps _ = _ => refine (excluded_agree _ _ (apart _ _ _ _))
  | |- forced_apps _ = _ => refine (forced_agree _ _ (apart _ _ _ _))
  | |- tsf_app_list _ = _ => refine (tsf_agree _ _ (apart _ _ _ _))
  | |- app_modes _ = _ => refine (smart_agree _ _ (apart _ _ _ _))
  | |- app_overrides _ = _ => refine (overrides_agree _ _ (apart _ _ _ _))
  | |- convert_settings _ = _ => refine (convert_agree _ _ (apart _ _ _ _))
  | |- macro_table _ = _ => refine (macros_agree _ _ (apart _ _ _ _))
  | |- wire_generation _ = _ => refine (wire_agree _ _ (apart _ _ _ _))
  end; reflexivity.

Lemma typing_of_put_saved config t :
  typing_ok config -> typing_of (put_typing config t) = saved_typing config (typing_of t).
Proof. intros H. unfold saved_typing. rewrite perf_typing. by apply typing_of_put. Qed.

Lemma settings_of_put s t : save_ok s -> settings_of (put s t) = update s (settings_of t).
Proof.
  intros Hok. destruct s; cbn [save_ok] in Hok; apply Settings_ext; try untouched.
  - by apply typing_of_put_saved.
  - by apply ui_of_put.
  - by apply system_of_put.
  - by apply hotkey_of_put.
  - by apply typing_of_put_registry.
  - by apply registry_of_put.
  - by apply excluded_of_put.
  - by apply forced_of_put_excluded.
  - by apply excluded_of_put_forced.
  - by apply forced_of_put.
  - by apply tsf_of_put.
  - by apply smart_of_put.
  - by apply overrides_of_put.
  - by apply convert_of_put.
  - by apply macros_of_put.
  - by apply wire_generation_of_put.
Qed.

End Facts.
