(* ===== verification/ConfigStore.v ===== *)
(** * The configuration file and its cache (src/src/core/config/ConfigManager.cpp)

    How a table is read, cached, merged and written.  Every save reads the file
    again, changes its own sections and replaces the file through a temporary one;
    every load goes through the cache of the process, whose entries are known by the
    time and the size of the file.  The system calls may fail, and the machine may
    stop between any two of them. *)

From Stdlib Require Import Strings.String.
From stdpp Require Import gmap sorting.
From S2P Require Import Prelude Action Config CodeTable QuickConvert Toml Hotkey.
From S2P Require Import Utf16 Utf8 ConfigSections ConfigFacts.
From coqutil Require Import Datatypes.RecordSettersUsingExistingGetters.
Open Scope Z_scope.
Open Scope list_scope.

(** ** The library's text *)

(** Tables as the library has them: keys in order, at every depth. *)
Fixpoint increasing (t : TomlTable) : bool :=
  match t with
  | [] => true
  | (k, _) :: t' =>
      match t' with [] => true | (k', _) :: _ => String.ltb k k' end && increasing t'
  end.
Fixpoint node_ok (n : TomlNode) : bool :=
  match n with
  | TArray a => forallb node_ok a
  | TTable t => increasing t && forallb (fun kn => node_ok kn.2) t
  | _ => true
  end.
Definition table_ok (t : TomlTable) : bool := node_ok (TTable t).

Class TomlText := { toml_parse : string -> option TomlTable; toml_print : TomlTable -> string }.
Class TomlTextLaws (T : TomlText) : Prop := {
  toml_roundtrip t : table_ok t = true -> toml_parse (toml_print t) = Some t;
  toml_parse_ok s t : toml_parse s = Some t -> table_ok t = true
}.

(** ** Files *)

(** [f_durable]: the bytes are on the disk. *)
Record File := mkFile { f_mtime : Z; f_data : string; f_durable : bool }.
Abbreviation FileSystem := (gmap string File).

Definition kMaxConfigFileSizeBytes : Z := 5 * 1024 * 1024.
Definition bytes (s : string) : Z := Z.of_nat (String.length s).

(** How the calls of one operation go. *)
Record Io := mkIo {
  io_read : bool;       (* the file can be opened and read *)
  io_set_aside : bool;  (* an invalid file can be renamed *)
  io_open : bool; io_written : nat; io_flush : bool; io_commit : bool; io_close : bool;
  io_move : bool; io_now : Z
}.
Definition calm (now : Z) : Io := mkIo true true true 4096 true true true true now.

Inductive ParseResult := Parsed (t : TomlTable) | ParseError | Unreadable.

Record Entry := mkEntry { e_mtime : Z; e_size : Z; e_table : option TomlTable }.
Abbreviation Cache := (gmap string Entry).

Section Store.
Context {U : Utf8Platform} {T : TomlText}.
Implicit Types (fs : FileSystem) (c : Cache) (io : Io) (path : string).

Definition ParseConfigFile io path fs : ParseResult :=
  match fs !! path with
  | None => Unreadable
  | Some f =>
      if kMaxConfigFileSizeBytes <? bytes (f_data f) then Unreadable
      else if negb (io_read io) then Unreadable
      else match toml_parse (f_data f) with Some t => Parsed t | None => ParseError end
  end.

(** *** The cache *)

(** [TomlFileCache::Load] in its three parts: the file's time and size, the entry
    that fits them, and what is stored after the parse. *)
Definition stat path fs : option (Z * Z) :=
  (fun f => (f_mtime f, bytes (f_data f))) <$> fs !! path.
Definition cache_hit path (mtime size : Z) c : option (option TomlTable) :=
  match c !! path with
  | Some e => if (e_mtime e =w mtime) && (e_size e =w size) then Some (e_table e) else None
  | None => None
  end.
Definition cache_store path (mtime size : Z) (parsed : option TomlTable) c : Cache :=
  <[path := mkEntry mtime size parsed]> c.
Definition parsed_table (r : ParseResult) : option TomlTable :=
  match r with Parsed t => Some t | _ => None end.

Definition TomlCacheLoad io path fs c : option TomlTable * Cache :=
  match stat path fs with
  | None => (None, delete path c)
  | Some (mtime, size) =>
      match cache_hit path mtime size c with
      | Some table => (table, c)
      | None =>
          let parsed := parsed_table (ParseConfigFile io path fs) in
          (parsed, cache_store path mtime size parsed c)
      end
  end.
Definition Invalidate path c : Cache := delete path c.

Definition ParseTomlCached io path fs c : ParseResult * Cache :=
  match TomlCacheLoad io path fs c with
  | (Some t, c) => (Parsed t, c)
  | (None, c) => (ParseConfigFile io path fs, c)
  end.

(** *** Reading before a save *)

Definition aside path : string := path +:+ ".corrupt".
Definition LoadExistingToml io path fs c : option TomlTable * FileSystem * Cache :=
  match fs !! path with
  | None => (Some [], fs, c)
  | Some f =>
      match ParseConfigFile io path fs with
      | Parsed t => (Some t, fs, c)
      | Unreadable => (None, fs, c)
      | ParseError =>
          if io_set_aside io
          then (Some [], <[aside path := f]> (delete path fs), Invalidate path c)
          else (None, fs, c)
      end
  end.

(** *** Writing *)

Definition temp path : string := path +:+ ".tmp".

(** [FlushFileBuffers] puts the bytes of a file on the disk; [MoveFileExW] gives a
    file the name of another, with what the disk has of it. *)
Definition FlushFileBuffers io path fs : FileSystem :=
  if io_commit io
  then alter (fun f => mkFile (f_mtime f) (f_data f) true) path fs else fs.
Definition MoveFileExW from path fs : FileSystem :=
  match fs !! from with Some f => <[path := f]> (delete from fs) | None => fs end.

(** The states of the disk one after the other, and whether the file was moved. *)
Definition write_states io path (data : string) fs : list FileSystem * bool :=
  if negb (io_open io) then ([fs], false)
  else
    let written := String.substring 0 (io_written io) data in
    let opened := <[temp path := mkFile (io_now io) EmptyString false]> fs in
    let wrote := <[temp path := mkFile (io_now io) written false]> fs in
    let success := (bytes data <=? Z.of_nat (io_written io)) && io_flush io in
    let closed := if success then FlushFileBuffers io (temp path) wrote else wrote in
    let success := success && io_commit io in
    let success := io_close io && success in
    let moved := if success && io_move io then MoveFileExW (temp path) path closed else closed in
    ([fs; opened; wrote; closed; moved; delete (temp path) moved], success && io_move io).

Definition WriteToml io path (tbl : TomlTable) fs c : list FileSystem * bool * Cache :=
  let data := toml_print tbl in
  if kMaxConfigFileSizeBytes <? bytes data then ([fs], false, c)
  else
    let '(states, success) := write_states io path data fs in
    (states, success, if success then Invalidate path c else c).
Definition last_state (fs : FileSystem) (states : list FileSystem) : FileSystem :=
  default fs (list.last states).

(** A [Save...] of the manager. *)
Definition save (s : SaveOp) io path fs c : bool * FileSystem * Cache :=
  match LoadExistingToml io path fs c with
  | (None, fs, c) => (false, fs, c)
  | (Some tbl, fs, c) =>
      let '(states, success, c) := WriteToml io path (put s tbl) fs c in
      (success, last_state fs states, c)
  end.

(** A [Load...] of the manager: nothing when the file cannot be read. *)
Definition load {A} (reader : TomlTable -> A) io path fs c : option A * Cache :=
  match ParseTomlCached io path fs c with
  | (Parsed t, c) => (Some (reader t), c)
  | (_, c) => (None, c)
  end.
(** [LoadWireGeneration] reads as a save does. *)
Definition LoadWireGeneration io path fs c : Z * FileSystem * Cache :=
  let '(tbl, fs, c) := LoadExistingToml io path fs c in
  (from_option wire_generation_of 1 tbl, fs, c).

Definition LoadOrDefault io path fs c : TypingConfig * Cache :=
  let '(config, c) := load typing_of io path fs c in (default default_config config, c).
Definition LoadUIConfigOrDefault io path fs c : UIConfig * Cache :=
  let '(config, c) := load ui_of io path fs c in (default default_ui config, c).
Definition LoadSystemConfigOrDefault io path fs c : SystemConfig * Cache :=
  let '(config, c) := load system_of io path fs c in (default default_system config, c).
Definition LoadHotkeyConfigOrDefault io path fs c : HotkeyConfig * Cache :=
  let '(config, c) := load hotkey_of io path fs c in (default default_toggle config, c).
Definition LoadConvertConfigOrDefault io path fs c : ConvertConfig * Cache :=
  let '(config, c) := load convert_of io path fs c in (default default_convert config, c).
Definition LoadHotkeyRegistryOrDefault io path fs c : HotkeyRegistry * Cache :=
  let '(registry, c) := load registry_or_default io path fs c in (default Defaults registry, c).

(** The registry of a start, and the file after it. *)
Definition MigrateLegacyHotkeysIfNeeded io path fs c : HotkeyRegistry * FileSystem * Cache :=
  match fs !! path with
  | None => (Defaults, fs, c)
  | Some _ =>
      let '(r, c) := load migrate io path fs c in
      match r with
      | Some (registry, false) => (registry, fs, c)
      | Some (registry, true) =>
          let '(_, fs, c) := save (SaveHotkeyRegistry registry) io path fs c in (registry, fs, c)
      | None =>
          let '(_, fs, c) := save (SaveHotkeyRegistry Defaults) io path fs c in (Defaults, fs, c)
      end
  end.


(** [FormatConfigTomlForLexicon]. *)
Definition FormatConfigTomlForLexicon io path (spellSuggestEnabled : bool)
    (spellExclusions : list wstring) (wireGeneration : Z) fs c : string * FileSystem * Cache :=
  match LoadExistingToml io path fs c with
  | (None, fs, c) => (EmptyString, fs, c)
  | (Some tbl, fs, c) =>
      (toml_print (put_lexicon spellSuggestEnabled spellExclusions wireGeneration tbl), fs, c)
  end.

End Store.

(** ** Saves keep tables in order *)

Lemma ltb_trans a b c : String.ltb a b = true -> String.ltb b c = true -> String.ltb a c = true.
Proof.
  unfold String.ltb. revert b c. induction a as [|x a IH]; intros [|y b] [|z c]; cbn; try done.
  unfold Ascii.compare. destruct (N.compare_spec (N_of_ascii x) (N_of_ascii y)) as [E|E|E]; [| |done];
    destruct (N.compare_spec (N_of_ascii y) (N_of_ascii z)) as [E'|E'|E']; try done; intros H1 H2.
  - rewrite E, E', N.compare_refl. by apply IH with b.
  - by rewrite E, (proj2 (N.compare_lt_iff _ _) E').
  - by rewrite <- E', (proj2 (N.compare_lt_iff _ _) E).
  - rewrite (proj2 (N.compare_lt_iff (N_of_ascii x) (N_of_ascii z))); [done|lia].
Qed.
Lemma ltb_total a b : a <> b -> String.ltb a b = false -> String.ltb b a = true.
Proof.
  unfold String.ltb. rewrite (String.compare_antisym b a). intros Hne H.
  destruct (String.compare a b) eqn:E; try done. by apply String.compare_eq_iff in E.
Qed.

(** The first key, if any, is beyond [k]. *)
Definition after (k : string) (t : TomlTable) : bool :=
  match t with [] => true | (k', _) :: _ => String.ltb k k' end.
Lemma increasing_cons k n t : increasing ((k, n) :: t) = after k t && increasing t.
Proof. by destruct t as [|[]]. Qed.

Lemma increasing_assign k n t : increasing t = true -> increasing (toml_assign k n t) = true.
Proof.
  assert (H : forall t, increasing t = true -> increasing (toml_assign k n t) = true /\
    forall k0, String.ltb k0 k = true -> after k0 t = true -> after k0 (toml_assign k n t) = true);
    [|by apply H].
  clear t. induction t as [|[k' n'] t IH]; intros Hi; [by split|].
  rewrite increasing_cons in Hi. apply andb_true_iff in Hi as [Ha Hi]. cbn [toml_assign].
  destruct (decide (k' = k)) as [->|Hne]; [rewrite bool_decide_eq_true_2 by done|
    rewrite bool_decide_eq_false_2 by done; destruct (String.ltb k k') eqn:E].
  - rewrite increasing_cons, Ha, Hi. by split.
  - rewrite !increasing_cons, Ha, Hi. cbn [after]. by rewrite E.
  - rewrite increasing_cons. destruct (IH Hi) as [-> Hk].
    rewrite Hk by (by apply ltb_total || done). by split.
Qed.
Lemma increasing_erase k t : increasing t = true -> increasing (toml_erase k t) = true.
Proof.
  assert (H : forall t, increasing t = true -> increasing (toml_erase k t) = true /\
    forall k0, after k0 t = true -> after k0 (toml_erase k t) = true); [|by apply H].
  clear t. induction t as [|[k' n'] t IH]; intros Hi; [by split|].
  rewrite increasing_cons in Hi. apply andb_true_iff in Hi as [Ha Hi]. cbn [toml_erase].
  destruct (IH Hi) as [Hi' Hk]. case_bool_decide.
  - split; [done|]. intros k0 H0. cbn [after] in H0. apply Hk.
    destruct t as [|[k1 n1] t]; [done|]. cbn [after] in *. by apply ltb_trans with k'.
  - rewrite increasing_cons, Hi', Hk by done. by split.
Qed.

Definition rows_ok (t : TomlTable) : bool := forallb (fun kn => node_ok kn.2) t.
Lemma table_ok_eq t : table_ok t = increasing t && rows_ok t.
Proof. done. Qed.

Lemma rows_ok_assign k n t : node_ok n = true -> rows_ok t = true -> rows_ok (toml_assign k n t) = true.
Proof.
  intros Hn. induction t as [|[k' n'] t IH]; cbn [toml_assign rows_ok forallb snd]; [by rewrite Hn|].
  intros [Hn' Ht]%andb_true_iff. fold (rows_ok t) in Ht.
  case_bool_decide; [by cbn; rewrite Hn|]. destruct (String.ltb k k'); cbn [rows_ok forallb snd];
    fold (rows_ok t); fold (rows_ok (toml_assign k n t)); rewrite ?Hn, ?Hn', ?Ht, ?IH; done.
Qed.
Lemma table_ok_assign k n t :
  node_ok n = true -> table_ok t = true -> table_ok (toml_assign k n t) = true.
Proof.
  rewrite !table_ok_eq, !andb_true_iff. intros Hn [Hi Hr].
  auto using increasing_assign, rows_ok_assign.
Qed.
Lemma table_ok_section k s t :
  table_ok s = true -> table_ok t = true -> table_ok (toml_assign k (TTable s) t) = true.
Proof. apply table_ok_assign. Qed.
Lemma table_ok_erase k t : table_ok t = true -> table_ok (toml_erase k t) = true.
Proof.
  rewrite !table_ok_eq, !andb_true_iff. intros [Hi Hr]. split; [by apply increasing_erase|].
  clear Hi. revert Hr. induction t as [|[k' n'] t IH]; [done|]. cbn.
  intros [Hn' Ht]%andb_true_iff. case_bool_decide; [by apply IH|].
  cbn. rewrite Hn'. by apply IH.
Qed.
Lemma table_ok_of rows : forallb (fun kn => node_ok kn.2) rows = true -> table_ok (table_of rows) = true.
Proof.
  unfold table_of. assert (H : table_ok [] = true) by done. revert H.
  generalize (@nil (string * TomlNode)) as acc.
  induction rows as [|[k n] rows IH]; intros acc Ha; [done|]. cbn [foldl forallb snd].
  intros [Hn Hr]%andb_true_iff. apply IH; [by apply table_ok_assign|done].
Qed.
Lemma table_ok_get t k s : table_ok t = true -> get_table t k = Some s -> table_ok s = true.
Proof.
  rewrite table_ok_eq, andb_true_iff. intros [_ Hr]. revert Hr.
  induction t as [|[k' n] t IH]; [done|]. cbn [rows_ok forallb snd]. intros [Hn Hr]%andb_true_iff.
  unfold get_table. cbn [toml_get]. case_bool_decide; [|by apply IH].
  destruct n; try done. by intros [= <-].
Qed.
Lemma table_ok_default t k : table_ok t = true -> table_ok (default [] (get_table t k)) = true.
Proof. intros H. destruct (get_table t k) eqn:E; [by eapply table_ok_get|done]. Qed.

Lemma strings_ok {A} (f : A -> string) (l : list A) : forallb node_ok (TString ∘ f <$> l) = true.
Proof. by induction l. Qed.

Lemma table_ok_fold {A} (f : TomlTable -> A -> TomlTable) l acc :
  (forall acc a, table_ok acc = true -> table_ok (f acc a) = true) ->
  table_ok acc = true -> table_ok (foldl f acc l) = true.
Proof. intros Hf. revert acc. induction l as [|a l IH]; intros acc H; [done|]. apply IH. by apply Hf. Qed.

Lemma SaveRows_ok r : forallb node_ok (Save r []) = true.
Proof.
  rewrite Save_rows. assert (H : forall i ts, forallb node_ok (SaveRow i <$> ts) = true).
  { intros i ts. induction ts as [|[v m []] ts IH]; [done|by destruct i|by destruct i]. }
  cbn. by rewrite !forallb_app, !H.
Qed.

Section Ordered.
Context {U : Utf8Platform}.

Lemma table_ok_keymap config : table_ok (SaveCustomKeyMap [] config) = true.
Proof.
  apply table_ok_fold; [|done]. intros acc i Ha. cbv zeta. destruct (bool_decide _); [done|].
  by apply table_ok_assign.
Qed.
Lemma table_ok_put_typing config t : table_ok t = true -> table_ok (put_typing config t) = true.
Proof.
  intros Ht. unfold put_typing. pose proof (table_ok_keymap config) as Hk.
  generalize dependent (SaveCustomKeyMap [] config). intros km Hk.
  apply table_ok_section.
  - apply table_ok_of. cbn. rewrite andb_true_r. apply strings_ok.
  - destruct (bool_decide (km = [])); [apply table_ok_erase|apply table_ok_section; [done|]];
      (apply table_ok_section; [apply table_ok_of; reflexivity|done]).
Qed.

Lemma table_ok_put s t : table_ok t = true -> table_ok (put s t) = true.
Proof.
  intros Ht. pose proof (table_ok_default t "features" Ht). pose proof (table_ok_default t "excluded_apps" Ht).
  pose proof (table_ok_default t "internal" Ht).
  destruct s; cbn [put].
  - by apply table_ok_put_typing.
  - apply table_ok_section; [apply table_ok_of; reflexivity|done].
  - apply table_ok_section; [apply table_ok_of; reflexivity|done].
  - apply table_ok_section; [apply table_ok_of; reflexivity|done].
  - unfold put_registry. apply table_ok_section.
    { apply table_ok_assign; [done|]. by toml. }
    apply table_ok_section; [by apply table_ok_fold; [intros; by apply table_ok_assign|]|].
    apply table_ok_assign; [apply SaveRows_ok|done].
  - unfold put_excluded. apply table_ok_erase. destruct (get_table t "excluded_apps") eqn:E.
    + apply table_ok_section; [|done]. apply table_ok_erase, table_ok_assign; [apply strings_ok|done].
    + apply table_ok_section; [|done]. apply table_ok_assign; [apply strings_ok|done].
  - unfold put_forced. apply table_ok_section; [|done]. apply table_ok_assign; [apply strings_ok|done].
  - apply table_ok_section; [|done]. apply table_ok_assign; [apply strings_ok|done].
  - unfold put_smart. apply table_ok_section; [|done]. apply table_ok_section; [|done].
    apply table_ok_fold; [|done]. intros acc k Ha. destruct (apps !! k); [|done].
    unfold toml_insert. destruct (toml_get _ _); [done|]. by apply table_ok_assign.
  - apply table_ok_section; [|done]. apply table_ok_of.
    induction (map_to_list entries) as [|[k e] l IH]; [done|]. exact IH.
  - apply table_ok_section; [apply table_ok_of; reflexivity|done].
  - apply table_ok_section; [|done]. apply table_ok_of.
    induction (map_to_list macros) as [|[k v] l IH]; [done|]. exact IH.
  - unfold put_wire_generation. apply table_ok_section; [|done]. by apply table_ok_assign.
Qed.
End Ordered.

(** ** A write is whole or not at all *)

Lemma app_ne s a r : s +:+ String a r <> s.
Proof. induction s as [|b s IH]; [done|]. intros [= E]. by apply IH. Qed.
Lemma temp_ne path : temp path <> path.
Proof. apply app_ne. Qed.
Lemma substring_whole n s : (String.length s <= n)%nat -> String.substring 0 n s = s.
Proof.
  revert n. induction s as [|a s IH]; intros [|n] H; cbn in *; try done; [lia|]. f_equal. apply IH. lia.
Qed.

Lemma app_inj s a b : s +:+ a = s +:+ b -> a = b.
Proof. induction s as [|x s IH]; [done|]. intros [= E]. by apply IH. Qed.
Lemma aside_temp path : aside path <> temp path.
Proof. by intros ?%app_inj. Qed.

(** The machine stops: what was not durable may be lost or torn. *)
Definition crash (fs fs' : FileSystem) : Prop :=
  forall path, match fs !! path with
          | Some f => if f_durable f then fs' !! path = Some f else True
          | None => fs' !! path = None
          end.

Section Facts.
Context {U : Utf8Platform} {UL : Utf8Laws U} {T : TomlText} {TL : TomlTextLaws T}.
Implicit Types (fs : FileSystem) (c : Cache) (io : Io) (path : string).

(** The file on the disk before the move: whole and durable when the calls before
    it went well. *)
Lemma closed_lookup io path data fs k :
  let wrote := <[temp path := mkFile (io_now io) (String.substring 0 (io_written io) data) false]> fs in
  let success := (bytes data <=? Z.of_nat (io_written io)) && io_flush io in
  let closed := if success then FlushFileBuffers io (temp path) wrote else wrote in
  (k <> temp path -> closed !! k = fs !! k) /\
  (success && io_commit io = true -> closed !! temp path = Some (mkFile (io_now io) data true)).
Proof.
  cbv zeta. unfold FlushFileBuffers. split.
  - intros Hk. destruct (_ && io_flush io), (io_commit io);
      by rewrite ?lookup_alter_ne, lookup_insert_ne.
  - intros [H Ec]%andb_true_iff. rewrite H, Ec. apply andb_true_iff in H as [Hb _].
    rewrite lookup_alter_eq, lookup_insert_eq. cbn. rewrite substring_whole; [done|].
    unfold bytes in Hb. lia.
Qed.

Lemma write_states_lookup io path data fs k :
  k <> temp path ->
  let '(states, ok) := write_states io path data fs in
  let new := Some (mkFile (io_now io) data true) in
  Forall (fun fs1 => fs1 !! k = fs !! k \/ k = path /\ fs1 !! k = new) states /\
  last_state fs states !! k = (if ok && bool_decide (k = path) then new else fs !! k).
Proof.
  intros Hk. unfold write_states. destruct (io_open io); cbn [negb];
    [|by split; [constructor; [left|]|]].
  destruct (closed_lookup io path data fs k) as [Ho Hw]. cbv zeta in Ho, Hw |- *. specialize (Ho Hk).
  set (closed := if _ && io_flush io then _ else _) in *.
  set (whole := (bytes data <=? Z.of_nat (io_written io)) && io_flush io && io_commit io) in *.
  assert (Hm : (if io_close io && whole && io_move io
                then MoveFileExW (temp path) path closed else closed) !! k =
               if io_close io && whole && io_move io && bool_decide (k = path)
               then Some (mkFile (io_now io) data true) else fs !! k).
  { destruct (io_close io && whole && io_move io) eqn:E; [|exact Ho].
    apply andb_true_iff in E as [[_ E]%andb_true_iff _]. unfold MoveFileExW. rewrite Hw by done.
    cbn [andb]. case_bool_decide as Hp; [by rewrite Hp, lookup_insert_eq|].
    by rewrite lookup_insert_ne, lookup_delete_ne. }
  set (moved := if _ && io_move io then _ else closed) in *.
  assert (Hd : delete (temp path) moved !! k = moved !! k) by by rewrite lookup_delete_ne.
  split; [|by rewrite <- Hm, <- Hd].
  repeat (apply List.Forall_cons); [by left|by left; rewrite lookup_insert_ne..|by left| | |apply List.Forall_nil];
    rewrite ?Hd, Hm; (destruct (_ && io_move io); [case_bool_decide; [by right|by left]|by left]).
Qed.

Lemma WriteToml_spec io path tbl fs c :
  let '(states, ok, c') := WriteToml io path tbl fs c in
  Forall (fun fs1 => fs1 !! path = fs !! path \/
                     fs1 !! path = Some (mkFile (io_now io) (toml_print tbl) true)) states /\
  last_state fs states !! path =
    (if ok then Some (mkFile (io_now io) (toml_print tbl) true) else fs !! path) /\
  c' = (if ok then Invalidate path c else c) /\
  (ok = true -> bytes (toml_print tbl) <= kMaxConfigFileSizeBytes).
Proof.
  unfold WriteToml. destruct (Z.ltb_spec kMaxConfigFileSizeBytes (bytes (toml_print tbl))).
  { split_and!; try done. by constructor; [left|]. }
  pose proof (write_states_lookup io path (toml_print tbl) fs path) as Hw.
  destruct (write_states io path (toml_print tbl) fs) as [states ok].
  destruct Hw as [Hs Hl]; [by apply not_eq_sym, temp_ne|].
  rewrite (bool_decide_eq_true_2 (path = path)), andb_true_r in Hl by done.
  split_and!; try done. eapply Forall_impl; [exact Hs|]. intros fs1 [H1|[_ H1]]; tauto.
Qed.

Lemma WriteToml_others io path tbl fs c k :
  k <> path -> k <> temp path ->
  let '(states, _, _) := WriteToml io path tbl fs c in last_state fs states !! k = fs !! k.
Proof.
  intros H1 H2. unfold WriteToml. destruct (_ <? _); [done|].
  pose proof (write_states_lookup io path (toml_print tbl) fs k H2) as Hw.
  destruct (write_states io path (toml_print tbl) fs) as [states ok]. destruct Hw as [_ ->].
  by rewrite bool_decide_eq_false_2, andb_false_r.
Qed.

(** C10. Whichever of the calls fails and wherever the machine stops, the
    configuration file afterwards has either all of what it had or all of the new
    table; and a write that succeeds has the new table, one that fails the old
    file.  The old file is taken to be on the disk; of the new one only what
    [FlushFileBuffers] put there survives a stop. *)
Theorem configuration_survives_crash io path tbl fs c fs1 fs2 :
  (forall f, fs !! path = Some f -> f_durable f = true) ->
  let '(states, ok, _) := WriteToml io path tbl fs c in
  (fs1 ∈ states -> crash fs1 fs2 ->
     fs2 !! path = fs !! path \/ f_data <$> fs2 !! path = Some (toml_print tbl)) /\
  last_state fs states !! path =
    (if ok then Some (mkFile (io_now io) (toml_print tbl) true) else fs !! path).
Proof.
  intros Hd. pose proof (WriteToml_spec io path tbl fs c) as H.
  destruct (WriteToml io path tbl fs c) as [[states ok] c']. destruct H as (Hs & Hl & _).
  split; [|done]. intros Hin Hc. rewrite List.Forall_forall in Hs.
  specialize (Hc path). destruct (Hs fs1 (proj1 (list_elem_of_In _ _) Hin)) as [E|E]; rewrite E in Hc.
  - left. destruct (fs !! path) as [f|] eqn:Ef; [|done]. by rewrite (Hd f) in Hc.
  - right. by rewrite Hc.
Qed.

(** ** What is loaded is what was saved last *)

(** The file is valid and says [st]. *)
Definition says path fs (st : Settings) : Prop :=
  exists f t, fs !! path = Some f /\ bytes (f_data f) <= kMaxConfigFileSizeBytes /\
    toml_parse (f_data f) = Some t /\ settings_of t = st.

(** An entry that fits the file holds its table, or nothing when it could not be
    read; entries are not of a time to come. *)
Definition coherent path fs c : Prop :=
  forall e f, c !! path = Some e -> fs !! path = Some f ->
    e_mtime e <= f_mtime f /\
    (e_mtime e = f_mtime f -> e_size e = bytes (f_data f) ->
     e_table e = None \/ e_table e = toml_parse (f_data f)).

Record World := mkWorld { w_fs : FileSystem; w_cache : Cache }.

(** A save and a load of this process, a save of another one. *)
Inductive Event := OwnSave (s : SaveOp) (io : Io) | OtherSave (s : SaveOp) (io : Io) | OwnLoad (io : Io).

Definition happen path (ev : Event) (w : World) : World * bool :=
  match ev with
  | OwnSave s io => let '(ok, fs, c) := save s io path (w_fs w) (w_cache w) in (mkWorld fs c, ok)
  | OtherSave s io =>
      let '(ok, fs, _) := save s io path (w_fs w) ∅ in (mkWorld fs (w_cache w), ok)
  | OwnLoad io =>
      let '(_, c) := load settings_of io path (w_fs w) (w_cache w) in (mkWorld (w_fs w) c, false)
  end.
Definition meaning (ev : Event) (ok : bool) (st : Settings) : Settings :=
  match ev with
  | OwnSave s _ | OtherSave s _ => if ok then update s st else st
  | OwnLoad _ => st
  end.
Fixpoint follow path (evs : list Event) (w : World) (st : Settings) : World * Settings :=
  match evs with
  | [] => (w, st)
  | ev :: evs => let '(w, ok) := happen path ev w in follow path evs w (meaning ev ok st)
  end.

(** The file of another process is newer than the one it replaces; a file of this
    one may have its time. *)
Definition admissible path (ev : Event) fs : Prop :=
  match ev with
  | OwnSave s _ => save_ok s
  | OtherSave s io => save_ok s /\ forall f, fs !! path = Some f -> f_mtime f < io_now io
  | OwnLoad _ => True
  end.
Fixpoint all_admissible path (evs : list Event) (w : World) : Prop :=
  match evs with
  | [] => True
  | ev :: evs => admissible path ev (w_fs w) /\ all_admissible path evs (happen path ev w).1
  end.

Lemma ParseConfigFile_says io path fs st :
  says path fs st ->
  exists t, settings_of t = st /\ table_ok t = true /\
    ParseConfigFile io path fs = if io_read io then Parsed t else Unreadable.
Proof.
  intros (f & t & Ef & Hb & Ep & Hs). exists t. split_and!; [done|by eapply toml_parse_ok|].
  unfold ParseConfigFile. rewrite Ef, Ep.
  destruct (Z.ltb_spec kMaxConfigFileSizeBytes (bytes (f_data f))); [lia|]. by destruct (io_read io).
Qed.

(** A save sets its group or leaves the file. *)
Lemma save_says s io path fs c st :
  save_ok s -> says path fs st ->
  let '(ok, fs', c') := save s io path fs c in
  says path fs' (if ok then update s st else st) /\
  c' = (if ok then Invalidate path c else c) /\
  (if ok then exists f, fs' !! path = Some f /\ f_mtime f = io_now io else fs' !! path = fs !! path).
Proof.
  intros Hok Hsays. unfold save, LoadExistingToml.
  destruct (ParseConfigFile_says io path fs st Hsays) as (t & Hst & Hto & ->).
  destruct Hsays as (f & t0 & Ef & Hrest). rewrite Ef.
  destruct (io_read io); [|by split_and!; [exists f, t0|..]].
  pose proof (WriteToml_spec io path (put s t) fs c) as H.
  destruct (WriteToml io path (put s t) fs c) as [[states ok] c']. destruct H as (_ & Hl & -> & Hb).
  destruct ok; rewrite Hl.
  - split_and!; [|done|by eexists].
    exists (mkFile (io_now io) (toml_print (put s t)) true), (put s t). cbn [f_data].
    split_and!; [done|by apply Hb|by apply toml_roundtrip, table_ok_put|].
    by rewrite settings_of_put, Hst.
  - split_and!; [|done|done]. exists f, t0. by rewrite Hl.
Qed.

Lemma load_says io path fs c st :
  says path fs st -> coherent path fs c ->
  let '(r, c') := load settings_of io path fs c in
  coherent path fs c' /\ (io_read io = true -> r = Some st).
Proof.
  intros Hsays Hc. unfold load, ParseTomlCached, TomlCacheLoad, stat.
  destruct (ParseConfigFile_says io path fs st Hsays) as (t & Hst & _ & Hp). rewrite Hp.
  destruct Hsays as (f & t0 & Ef & Hb & Et & Hst0). rewrite Ef. cbn [fmap option_fmap option_map].
  assert (E0 : io_read io = true -> t0 = t).
  { intros Er. unfold ParseConfigFile in Hp. rewrite Ef, Et, Er in Hp. cbn [negb] in Hp.
    destruct (_ <? _); [done|]. by injection Hp. }
  destruct (cache_hit path (f_mtime f) (bytes (f_data f)) c) as [table|] eqn:Eh.
  - assert (Ht : table = None \/ table = Some t0).
    { unfold cache_hit in Eh. destruct (c !! path) as [e|] eqn:Ee; [|done].
      destruct (Z.eqb_spec (e_mtime e) (f_mtime f)), (Z.eqb_spec (e_size e) (bytes (f_data f))); try done.
      injection Eh as <-. destruct (Hc e f Ee Ef) as [_ H]. rewrite <- Et. by apply H. }
    destruct Ht as [->| ->].
    + destruct (io_read io); (split; [done|]); [|done]. by intros _; rewrite Hst.
    + split; [done|]. intros _. by rewrite Hst0.
  - assert (Hc' : coherent path fs (cache_store path (f_mtime f) (bytes (f_data f))
        (parsed_table (if io_read io then Parsed t else Unreadable)) c)).
    { intros e f' He Hf'. rewrite Ef in Hf'. injection Hf' as <-.
      unfold cache_store in He. rewrite lookup_insert_eq in He. injection He as <-. cbn.
      split; [lia|]. intros _ _. destruct (io_read io); [right|by left]. cbn. by rewrite Et, E0. }
    destruct (io_read io); cbn [parsed_table] in *; (split; [done|]); [|done]. by intros _; rewrite Hst.
Qed.

Lemma happen_says path ev w st :
  admissible path ev (w_fs w) -> says path (w_fs w) st -> coherent path (w_fs w) (w_cache w) ->
  let '(w', ok) := happen path ev w in
  says path (w_fs w') (meaning ev ok st) /\ coherent path (w_fs w') (w_cache w').
Proof.
  intros Ha Hs Hc. destruct w as [fs c]. cbn [w_fs w_cache] in *. destruct ev as [s io|s io|io]; cbn [happen meaning w_fs w_cache].
  - pose proof (save_says s io path fs c st Ha Hs) as H.
    destruct (save s io path fs c) as [[ok fs'] c']. destruct H as (H1 & -> & H2). split; [done|].
    cbn [w_fs w_cache]. destruct ok; intros e f He Hf.
    + unfold Invalidate in He. by rewrite lookup_delete_eq in He.
    + rewrite H2 in Hf. by apply Hc.
  - destruct Ha as [Ha Hnew]. pose proof (save_says s io path fs ∅ st Ha Hs) as H.
    destruct (save s io path fs ∅) as [[ok fs'] c']. destruct H as (H1 & _ & H2). split; [done|].
    cbn [w_fs w_cache]. destruct ok; intros e f He Hf; [|rewrite H2 in Hf; by apply Hc].
    destruct H2 as (f' & Ef' & Hm). rewrite Ef' in Hf. injection Hf as <-.
    destruct Hs as (f0 & t0 & Ef0 & _). destruct (Hc e f0 He Ef0) as [Hle _].
    specialize (Hnew f0 Ef0). rewrite Hm. split; [lia|]. intros. lia.
  - pose proof (load_says io path fs c st Hs Hc) as H.
    destruct (load settings_of io path fs c) as [r c']. by destruct H.
Qed.

(** C6. The configuration file is a record of the groups of settings: after any
    saves of this process, even within one tick of the clock, any saves of others
    and any loads that filled the cache, each whole before the next, a load that can
    read the file gives each group as it was saved last.  A save that fails changes
    nothing, and no save touches another group but for the mirror of the cancel key.
    As saved means within the limits of the file ([update]): a macro whose shortcut
    is longer than 32 bytes of UTF-8 or whose expansion is longer than 20480 is lost
    ([long_shortcut_lost]), exclusions of one letter are dropped and the others made
    small.  Conditions: the file is valid at the start and the cache not ahead of
    it; the values saved are ones the file can carry ([save_ok]: in range, texts
    without NUL and lone surrogates, lists no longer than the limits); a save of
    another process comes in a later tick of the clock than the file it replaces;
    and no load overlaps a save ([race_keeps_old_table] shows what happens then). *)
Theorem loads_give_last_saves path evs w st io :
  says path (w_fs w) st -> coherent path (w_fs w) (w_cache w) -> all_admissible path evs w ->
  io_read io = true ->
  let '(w', st') := follow path evs w st in
  (load settings_of io path (w_fs w') (w_cache w')).1 = Some st'.
Proof.
  revert w st. induction evs as [|ev evs IH]; intros w st Hs Hc Ha Hr; cbn [follow all_admissible] in *.
  - pose proof (load_says io path _ _ st Hs Hc) as H.
    destruct (load settings_of io path (w_fs w) (w_cache w)) as [r c']. by apply H.
  - destruct Ha as [Ha Hrest]. pose proof (happen_says path ev w st Ha Hs Hc) as H.
    destruct (happen path ev w) as [w' ok]. destruct H. by apply IH.
Qed.

(** C40. A file that is not valid is set aside with all its bytes before the save
    writes a file of its group alone. *)
Theorem invalid_file_is_kept s io path fs c f :
  fs !! path = Some f -> ParseConfigFile io path fs = ParseError ->
  let '(ok, fs', _) := save s io path fs c in
  (io_set_aside io = true ->
     fs' !! aside path = Some f /\
     (ok = true -> f_data <$> fs' !! path = Some (toml_print (put s [])))) /\
  (io_set_aside io = false -> ok = false /\ fs' = fs).
Proof.
  intros Ef Hp. unfold save, LoadExistingToml. rewrite Ef, Hp.
  destruct (io_set_aside io); [|by split]. set (fs0 := <[aside path := f]> (delete path fs)).
  pose proof (WriteToml_spec io path (put s []) fs0 (Invalidate path c)) as H.
  pose proof (WriteToml_others io path (put s []) fs0 (Invalidate path c) (aside path)) as Ho.
  destruct (WriteToml io path (put s []) fs0 (Invalidate path c)) as [[states ok] c'].
  destruct H as (_ & Hl & _). split; [intros _|done]. split.
  - rewrite Ho; [apply lookup_insert_eq|apply app_ne|apply aside_temp].
  - intros ->. by rewrite Hl.
Qed.
End Facts.

(** ** A text for tables

    One that has the laws, for executions: the bits of the code of a tree. *)
Module TreeText.

Definition leaf : Type := string + (Z + (bool + option Z)).
Fixpoint to_tree (n : TomlNode) : gen_tree leaf :=
  match n with
  | TString s => GenLeaf (inl s)
  | TInteger i => GenLeaf (inr (inl i))
  | TBoolean b => GenLeaf (inr (inr (inl b)))
  | TFloat w => GenLeaf (inr (inr (inr w)))
  | TOther => GenNode 0 []
  | TArray a => GenNode 1 (map to_tree a)
  | TTable t => GenNode 2 (map (fun kn => GenNode 3 [GenLeaf (inl kn.1); to_tree kn.2]) t)
  end.
Fixpoint of_tree (g : gen_tree leaf) : TomlNode :=
  match g with
  | GenLeaf (inl s) => TString s
  | GenLeaf (inr (inl i)) => TInteger i
  | GenLeaf (inr (inr (inl b))) => TBoolean b
  | GenLeaf (inr (inr (inr w))) => TFloat w
  | GenNode 1 l => TArray (map of_tree l)
  | GenNode 2 l =>
      TTable (map (fun g => match g with
                            | GenNode _ [GenLeaf (inl k); n] => (k, of_tree n)
                            | _ => (EmptyString, TOther)
                            end) l)
  | GenNode _ _ => TOther
  end.

Fixpoint of_to_tree (n : TomlNode) : of_tree (to_tree n) = n.
Proof.
  destruct n as [s|i|b|w| |a|t]; try reflexivity; cbn; f_equal; rewrite map_map.
  - induction a as [|n a IH]; [done|]. cbn. by rewrite of_to_tree, IH.
  - induction t as [|[k n] t IH]; [done|]. cbn. by rewrite of_to_tree, IH.
Qed.

Fixpoint bits (p : positive) : string :=
  match p with
  | xI p => String "1" (bits p) | xO p => String "0" (bits p) | xH => EmptyString
  end.
Fixpoint number (s : string) : positive :=
  match s with
  | EmptyString => xH
  | String a s => if Ascii.eqb a "1" then xI (number s) else xO (number s)
  end.
Lemma number_bits p : number (bits p) = p.
Proof. induction p as [p IH|p IH|]; cbn; by rewrite ?IH. Qed.

#[export] Instance tree_text : TomlText := {|
  toml_print := fun t => bits (encode (to_tree (TTable t)));
  toml_parse := fun s =>
    match of_tree <$> decode (number s) with
    | Some (TTable t) => if table_ok t then Some t else None
    | _ => None
    end
|}.
#[export] Instance tree_text_laws : TomlTextLaws tree_text.
Proof.
  split.
  - intros t Ht. unfold toml_parse, toml_print, tree_text. rewrite number_bits, decode_encode.
    cbn [fmap option_fmap option_map]. rewrite of_to_tree. by rewrite Ht.
  - intros s t. unfold toml_parse, tree_text. destruct (of_tree <$> _) as [[]|]; try done.
    destruct (table_ok _) eqn:E; [|done]. by intros [= <-].
Qed.

End TreeText.

(** ** Executions *)

Module Files.
Import TreeText.
#[local] Existing Instances Utf8.standard Utf8.standard_laws.

Definition path : string := "config.toml".
Definition file_of (t : TomlTable) (mtime : Z) : FileSystem := {[ path := mkFile mtime (toml_print t) true ]}.
Definition start : World := mkWorld (file_of [] 5) ∅.

Definition ctrl_space : HotkeyConfig := mkHotkey true false false false 32.
Definition ctrl_tilde : HotkeyConfig := mkHotkey true false false false 192.
(** Two saves in one tick with loads around them, one of another process, one that
    fails. *)
Definition history : list Event := [
  OwnLoad (calm 5); OwnSave (SaveHotkeyConfig ctrl_space) (calm 5); OwnLoad (calm 5);
  OtherSave (SaveUIConfig (mkUI true 70 false)) (calm 6); OwnLoad (calm 6);
  OwnSave (SaveHotkeyConfig ctrl_tilde) (calm 6);
  OwnSave (SaveUIConfig default_ui) (mkIo true true true 3 true true true true 7) ].

Lemma loads_give_last_saves_witness :
  let '(w, st) := follow path history start (settings_of []) in
  (load settings_of (calm 9) path (w_fs w) (w_cache w)).1 = Some st.
Proof.
  apply (loads_give_last_saves path history start (settings_of []) (calm 9)).
  - exists (mkFile 5 (toml_print []) true), []. by vm_compute.
  - intros e f H. done.
  - repeat split; try (by vm_compute). intros f H. vm_compute in H. by injection H as <-.
  - done.
Defined.
Lemma history_result :
  let st := (follow path history start (settings_of [])).2 in
  toggle_hotkey st = ctrl_tilde /\ ui_settings st = mkUI true 70 false.
Proof. by vm_compute. Qed.

Lemma configuration_survives_crash_witness :
  let old := file_of [] 5 in
  let '(states, ok, _) := WriteToml (calm 6) path (put_ui default_ui []) old ∅ in
  last_state old states !! path = Some (mkFile 6 (toml_print (put_ui default_ui [])) true) /\ ok = true.
Proof.
  cbv zeta.
  pose proof (configuration_survives_crash (calm 6) path (put_ui default_ui []) (file_of [] 5) ∅
    (file_of [] 5) (file_of [] 5)) as H.
  assert (Eo : (WriteToml (calm 6) path (put_ui default_ui []) (file_of [] 5) ∅).1.2 = true)
    by by vm_compute.
  destruct (WriteToml (calm 6) path (put_ui default_ui []) (file_of [] 5) ∅) as [[states ok] c].
  cbn [fst snd] in Eo. subst ok. split; [|done]. apply H. intros f Hf. vm_compute in Hf. by injection Hf as <-.
Defined.

Lemma invalid_file_is_kept_witness :
  let broken := mkFile 5 "[hotkey" true in
  let '(ok, fs, _) := save (SaveUIConfig default_ui) (calm 6) path {[ path := broken ]} ∅ in
  fs !! aside path = Some broken.
Proof.
  pose proof (invalid_file_is_kept (SaveUIConfig default_ui) (calm 6) path
    {[ path := mkFile 5 "[hotkey" true ]} ∅ (mkFile 5 "[hotkey" true)) as H.
  cbv zeta. destruct (save _ _ _ _ _) as [[ok fs] c]. apply H; by vm_compute.
Defined.

(** A load that parsed the file before a save stores what it parsed after it; with
    the same size and tick the old table is then loaded until the next save. *)
Lemma race_keeps_old_table :
  let old := put_ui (mkUI false 80 false) [] in
  let fs := file_of old 5 in
  let '(mtime, size) := default (0, 0) (stat path fs) in
  let parsed := parsed_table (ParseConfigFile (calm 5) path fs) in
  let '(ok, fs', c') := save (SaveUIConfig (mkUI false 81 false)) (calm 5) path fs ∅ in
  let c'' := cache_store path mtime size parsed c' in
  ok = true /\ (load ui_of (calm 5) path fs' c').1 = Some (mkUI false 81 false) /\
  (load ui_of (calm 5) path fs' c'').1 = Some (mkUI false 80 false).
Proof. by vm_compute. Qed.

(** A shortcut of twelve letters with marks is saved and not loaded. *)
Lemma long_shortcut_lost :
  let key := replicate 12 7841 in
  macros_of (put_macros {[ key := wstr "x" ]} []) !! key = None /\ length key = 12%nat.
Proof. by vm_compute. Qed.

(** A migration after a save of the typing settings finds the old toggles gone. *)
Lemma save_before_migration_forgets :
  let t := toml_assign "features" (TTable (table_of [("temp_off_method"%string, TInteger 2)])) [] in
  (legacy_toggles t).2 = 2 /\ (legacy_toggles (put_typing default_config t)).2 = 0.
Proof. by vm_compute. Qed.

End Files.
